(* ===== verification/_CoqProject ===== *)
-Q . S2P
Prelude.v
Text.v
IpAddress.v
IpV4.v
IpV6.v
IpNetwork.v
IpRange.v
IpCover.v
IpListText.v
IpListInvariant.v
IpListProps.v
StableSort.v
Json.v
AutoSelector.v
AutoSelectorPlan.v
AutoSelectorRank.v
AutoSelectorMembers.v
AutoSelectorProps.v
ProfileMetrics.v
ResumeGuard.v
CoreStderr.v
CoreSupervisor.v
CoreSupervisorProps.v
CoreSupervisorLaws.v
LogBuffer.v
Reconcile.v
GroupOptions.v
Group.v
SubscriptionRefresh.v
SubscriptionImport.v
SubscriptionRefreshProps.v
UpdaterQueue.v
OtpBase32.v
OtpCodes.v
OtpLinks.v
OtpLinksProps.v
OtpMigration.v
OtpPaste.v
EngineTypes.v
KillSwitch.v
KillSwitchProps.v
KillSwitchLaws.v
RankSweep.v
AutoSelectorController.v
ConnectionState.v
ConnectionStart.v
ConnectionModes.v
ConnectionManager.v
ConnectionLedger.v
ConnectionCarry.v
ConnectionLocks.v
ConnectionFlags.v
ConnectionSettles.v
ConnectionDispatch.v
ConnectionSupervisor.v
ScanConfig.v
Program.v
ScanWorker.v
ScanProgress.v
ScanRules.v
ScanChunk.v
ScanLoop.v
ScanPrepare.v
ScanRun.v
ScanRunProps.v
Interleave.v
IpListStore.v
IpListRows.v
IpListStoreLaws.v
IpListStoreOps.v
IpListStoreProps.v
