(* ===== verification/Prelude.v ===== *)
(** * Waterdisco: a verification library

    Waterdisco is a Qt front end and headless service around a proxy core.  This
    library models parts of its own C++ logic, the code under src/ that
    decides something, as Rocq definitions that can be evaluated, and proves what
    they guarantee.  Each definition follows the lines of the source it is named
    after; a definition with no counterpart in the source is a specification
    (a reference the code is compared with) and its comment says so.

    ** The program's parts and where they are modelled

    - The IP list parser of the scanner (src/scanner/IpListParse.cpp): IpAddress
      (records, IPv4/IPv6 readers and printers, masks, the CIDR-level
      interface), IpRange (ranges as CIDR covers), IpListText (tokens, lines,
      tables, [ParseIpListText]).  Facts: IpV4, IpV6, IpNetwork, IpCover,
      IpListInvariant (what the parser's state holds), IpListProps.
    - Auto selectors (include/configs/outbounds/autoselector.h,
      src/configs/AutoSelectorPlan.cpp): AutoSelector (the persisted record),
      AutoSelectorPlan (eligibility, ranking, planning, the sweep).  Facts:
      AutoSelectorRank, AutoSelectorMembers, AutoSelectorProps.
    - Measurements (src/database/entities/ProfileMetrics.cpp): ProfileMetrics.
    - The crash-loop guard of a headless boot
      (src/engine/headless/ResumeGuard.cpp): ResumeGuard.
    - The supervisor of the core process
      (src/engine/supervisor/CoreSupervisor.cpp): CoreStderr (the cause line),
      CoreSupervisor (the state machine).  Facts: CoreSupervisorProps,
      CoreSupervisorLaws.
    - The connection manager (src/engine/connection): EngineTypes (its
      vocabulary), ConnectionState (the record of its fields, threads and queues;
      [Supervisor], what it asks of the core supervisor), ConnectionStart ([start],
      [stop] and their workers), ConnectionModes (ConnectionModes.cpp),
      ConnectionManager (slots, posted callbacks, the machine).  Facts:
      ConnectionLedger, ConnectionLocks, ConnectionFlags, ConnectionSettles,
      ConnectionDispatch, with ConnectionCarry (what steps leave alone) and
      ConnectionSupervisor (the interface discharged by CoreSupervisor).
    - The kill switch (src/sys/KillSwitch.cpp): KillSwitch (guard processes,
      timers, callbacks, the machine).  Facts: KillSwitchProps (the invariant),
      KillSwitchLaws.
    - The auto selector controller
      (src/engine/autoselector/AutoSelectorController.cpp): RankSweep (a ranking
      sweep and its thread), AutoSelectorController (the sweeps in flight, what a
      build records, pruning after a subscription changed).
    - The in-memory user log (src/global/LogBuffer.cpp): LogBuffer.
    - Groups (src/database/entities/Group.cpp): GroupOptions (the JSON records),
      Group (the listing, its kept sort, [Resort]).
    - Subscriptions (src/configs/sub): Reconcile (SubscriptionReconcile.cpp),
      SubscriptionRefresh ([applyRefresh] of GroupUpdater.cpp with the
      repository calls of src/database/ProfilesRepo.cpp), UpdaterQueue (the job
      queue, its worker and the automatic updates).  Facts: SubscriptionImport,
      SubscriptionRefreshProps.
    - Scans (src/database/entities/IpScan.cpp, src/scanner/ScanWorker.cpp):
      ScanConfig (the options, their JSON and hash, the stored row), Program
      (sequential code as a tree of calls), ScanWorker (the run thread's code),
      ScanProgress (the poller).  Facts: ScanRules (the contract of the calls),
      ScanChunk, ScanLoop, ScanPrepare, ScanRun (the parts of a run against the
      contract), ScanRunProps.
    - The stored IP lists (src/database/IpListsRepo.cpp): Interleave (programs of
      calls that share a state), IpListStore (tables, transactions, operations).
      Facts: IpListRows (the rows of a generation), IpListStoreLaws (each
      transaction), IpListStoreOps (each operation among other threads),
      IpListStoreProps (any number of threads, and a runner).
    - One-time passwords (src/global/OTP.cpp): OtpBase32, OtpCodes, OtpLinks,
      OtpMigration, OtpPaste.  Facts: OtpLinksProps.
    - Shared vocabulary: this file (machine widths, record updates, automation),
      Text (QString), Json (QJsonValue), StableSort ([std::stable_sort]).

    ** How the parts interact

    A refresh job of UpdaterQueue runs SubscriptionRefresh, which claims old
    profiles with Reconcile's index while importing, lets [Reconcile] decide
    which rows to reuse, update and delete, and stores the listing, re-sorted by
    Group when the group keeps a sort.  AutoSelectorPlan reads groups and
    profiles and orders them with StableSort, as Group and ProfileMetrics do.
    The connection manager runs against the interface [Supervisor], which
    CoreSupervisor discharges, and asks the kill switch before a start
    ([allowsStart], shared in EngineTypes; its callbacks arrive as events); a start may first be sent through
    AutoSelectorController, whose sweep (RankSweep) starts it again once enough
    members work.  A run of ScanWorker reads targets with IpAddress, keeps its
    place in the row of ScanConfig, and asks for list writes that IpListStore
    carries out (its calls are answered by a contract, not by that model).
    CoreSupervisor reports exits with CoreStderr's cause and, headless,
    ResumeGuard decides from earlier boots whether to resume a profile.  The OTP
    files build on one another in the order base32, codes, links, transfer
    links, pasted text.

    ** How state and effects are modelled

    - A class is a [Record] of its fields, a method a function on it that
      returns the new record (and the result).  [r <| f := v |>] sets a field.
    - Asynchronous parts are step relations: CoreSupervisor's handlers run from
      an event, posting tasks to explicit queues; UpdaterQueue's callers and
      worker interleave, each critical section one step ([reachable]).  The
      connection manager's main thread runs its handlers in sections ([todo]) cut
      where another thread can be seen, callbacks queue in [posts], a modal dialog
      keeps the rest of its handler ([dialogs]), start and stop workers are
      program counters, and [apply] lets any of them step.  The kill switch cuts
      its handlers where a callback may open a nested event loop ([todo] again),
      its guard processes and timers are a table driven by events.  Group's
      [Resort] takes the writes other threads make between its attempts.
    - A thread that mostly calls others is a program ([prog]): a tree of calls and
      answers.  ScanWorker's run is verified against rely and guarantee on its
      trace of calls ([rely], [guarantee]): whatever the database, the core and the
      main thread answer.  IpListStore's operations are programs over shared
      tables, a transaction a call; [rg] says what a thread knows between its
      calls whatever the others do, and [rg_sound] puts any number of threads,
      faults and restarts together.
    - Errors are [option], a sum, or an outcome record, as the code reports
      them; a database or file that fails is an explicit fault ([faults],
      [canWrite], [readFile]).
    - Integers are [Z]; an unsigned w-bit result is [wrap w], a signed one is
      stated in its range.  A QString is its list of UTF-16 units.
    - What is not in src/ is a parameter with named laws: Qt's Unicode tables and
      decoders ([QtText]), QVariant, QUrl, QJsonDocument, HMAC, the repositories'
      rows, the subscription parser's output, the core's verdicts, clocks.  Each
      class of laws has an instance, so no theorem is about nothing.

    ** What the theorems show

    - Parsers and codecs: acceptance is exactly the intended language
      ([ipListParseV4_canonical], [NormalizeCidr_canonical]), printing and
      reading are inverse ([ipListParseFormat_roundtrip],
      [FormatEntry_ParseIpListText], the JSON, link and transfer round trips), a
      list holds exactly what its tokens stand for ([ParseIpListText_invariant]),
      the machine loops compute the reference ([coverRange_exact],
      [Base32_rfc4648], [GenerateHOTP_rfc4226], [stderrCause_chunks]).
    - State machines: restarts are bounded and final shutdown is final
      ([dead_core_given_up], [shutdown_final], [exit_handled_once],
      [backoff_restarts]); a crash-looping profile is suppressed
      ([ResumeGuard_crash_loop]); every caller of the updater is answered exactly
      once and the worker drains ([calls_exactly_once], [worker_drains]); every
      start of the connection manager is answered exactly once
      ([starts_answered_once]), launches exactly when it may ([start_launches]),
      the manager's locks are exclusive ([locks_exclusive]) and it comes to rest
      by itself ([manager_settles]); starts happen only behind a ready guard,
      whose protection ends only for a cause, and nobody waits for the kill
      switch for ever ([starts_are_guarded], [protection_kept],
      [waiters_answered_once], [apply_outcome]); a ranking sweep starts early at most once
      and loses no wake-up ([sweep_posts_once], [sweep_no_lost_wakeup]).
    - Scans: every saved position is backed by finished work, in an initial pass
      with the network of what failed proven ([run_saves_done]),
      results are removed only after failed tests ([run_removes_tested]), a run
      ends with its row saved and resumable exactly when it says so ([run_ends]),
      and writes only while it may ([run_writes_allowed]); options survive storage
      ([ScanConfig_stored]).
    - Stored lists: the tables refine a map of lists with atomic effects
      ([readers_see_effects]); a bulk replace, an add and a copy happen at one
      moment or not at all ([ReplaceEntries_atomic], [AddIpList_result],
      [CopyAsUserList_copies]); a paged read is a snapshot
      ([GetEntries_snapshot]); edits in chunks stay on one list
      ([edits_stay_on_one_list]); purges end ([purge_ends]), and the one of a start
      drops only what nobody sees ([purgeLeftovers_exact]), however far it gets.
    - Data: a refresh keeps the database consistent and stores what the response
      announced (an empty one no more than that), gives the subscription's
      contents and never deletes what it must keep ([refresh_consistent],
      [refresh_contents], [refresh_protects]); the plan of a reconcile is a
      permutation of old and new rows ([Reconcile_partition]); a plan accounts for
      every member and says why it fails ([PlanAutoSelector_accounting],
      [PlanAutoSelector_errors]); sorting is stable and loses
      nothing ([SortProfileIdList_spec], [Resort_keeps_updates]); selectors keep
      exactly their existing members ([onSubscriptionGroupChanged_spec]).
    - Bounds: the log ring, the usage history and the guard's record stay
      within their limits ([runLog_suffix], [RecordHistory_lru],
      [ResumeGuard_invariant]).

    ** Fuel and bounds

    Loops that are not structural take fuel, and each has a lemma that it is
    enough: 257 rounds for a range cover (an exact cover has at most 2*128+1
    blocks), [log2 n + 1] for digits, the length of the list for joins and for
    the fields of a transfer link (a field takes at least a byte), 10 for a
    varint, 2 for the base32 encoder's inner loop, [potential c] for the manager's
    own steps, as many evictions as held
    lines, 3 attempts of [Resort] (the code's own limit), [work u] steps for the
    worker, [chunkFuel] rounds for a scan's main loop (every round that goes on
    moves the cursor; [run_ends]), a round per chunk for a staged write or an edit.
    The purges, copies and paged reads of IpListStore go round as often as other
    threads give them cause: their theorems hold for every fuel (a run that is cut
    there is a run that is still going on), and [purge_ends] bounds the rounds of a
    purge.

    ** Not modelled

    The configuration writers (src/configs/generate.cpp, src/configs/outbounds,
    src/configs/common: field-by-field JSON), the subscription parsers and
    downloads, SQLite statements (but for what the modelled repositories' do), the
    remote API and RPC transport, ScanManager (which owns the scan workers),
    statistics polling, operating-system integration, the Qt user
    interface, vendored libraries and the Go core.  Within the modelled parts:
    double arithmetic beyond rounding ([CalculateSiteScore], [bitrateToBps]),
    translated message texts (constructors with their arguments instead), the
    QProcess plumbing of the supervisor, and of the connection manager its log
    lines, [Save()], slow-operation notices, statistics calls, [StopTests], the
    message boxes of a failed start and the nested loop of a blocking stop (a running profile is its id; the kill switch's
    answers are inputs of the manager), and of the kill switch the QProcess calls,
    the cleaning of Windows paths and its texts.  Of a scan's run the log lines and
    the exceptions its callees may throw; of the stored lists the order of the
    headers, timestamps, the schema migration, the pace of the chunk lock, and a
    backup restore writing the tables meanwhile; a list is used by others only once
    the call that adds it has returned ([mayStart]). *)

From Stdlib Require Export ZArith Lia Bool.
From stdpp Require Export base tactics option list numbers strings gmap sorting.

#[global] Open Scope Z_scope.

(** ** Automation

    [wd] holds the closure facts of the predicates the components share
    (ranges, plain texts, byte lists); [solve_wd] closes a side condition with
    them, with arithmetic at the leaves.  [len] normalizes lengths. *)

Create HintDb wd.

#[export] Hint Extern 4 (_ <= _) => lia : wd.
#[export] Hint Extern 4 (_ <= _ < _) => lia : wd.

Ltac solve_wd := solve [eauto 8 with wd].

Create Rewrite HintDb len.
#[export] Hint Rewrite @length_app @length_map @length_replicate @length_take @length_drop @length_rev : len.

(** An arithmetic goal about lengths. *)
Ltac len := autorewrite with len in *; simpl length in *; lia.

(** ** Machine widths *)

(** The value an unsigned [w]-bit C++ integer holds after an operation whose
    mathematical result is [z]. *)
Definition wrap (w z : Z) : Z := z mod 2 ^ w.

Abbreviation u16 := (wrap 16).
Abbreviation u32 := (wrap 32).
Abbreviation u64 := (wrap 64).

(** The range of a signed [w]-bit integer (signed overflow is undefined in
    C++, so signed results are stated with this range instead of a wrap). *)
Definition in_int (w z : Z) : Prop := - 2 ^ (w - 1) <= z < 2 ^ (w - 1).

Abbreviation i32 := (in_int 32).
Abbreviation i64 := (in_int 64).

Lemma wrap_small w z : 0 <= z < 2 ^ w -> wrap w z = z.
Proof. intros H. unfold wrap. by apply Z.mod_small. Qed.

Lemma wrap_range w z : 0 <= w -> 0 <= wrap w z < 2 ^ w.
Proof. intros H. unfold wrap. apply Z.mod_pos_bound. lia. Qed.

#[export] Hint Resolve wrap_range : wd.

(** ** Bits *)

Lemma testbit_above z k i : 0 <= z < 2 ^ k -> k <= i -> Z.testbit z i = false.
Proof.
  intros Hz Hi. destruct (Z.eq_dec z 0) as [->|Hne]; [apply Z.bits_0|].
  apply Z.bits_above_log2; [lia|]. enough (Z.log2 z < k) by lia.
  apply Z.log2_lt_pow2; lia.
Qed.

(** A shifted value and a short one share no bit, so [|] is [+]. *)
Lemma lor_disjoint v o k :
  0 <= k -> 0 <= o < 2 ^ k -> Z.lor (Z.shiftl v k) o = v * 2 ^ k + o.
Proof.
  intros Hk Ho. rewrite <- Z.shiftl_mul_pow2 by done. symmetry. apply Z.add_nocarry_lor.
  apply Z.bits_inj'. intros i Hi. rewrite Z.land_spec, Z.bits_0, Z.shiftl_spec by done.
  destruct (Z_lt_le_dec i k).
  - by rewrite (Z.testbit_neg_r v) by lia.
  - by rewrite (testbit_above o k i), andb_false_r by lia.
Qed.

(** Clearing the low [k] bits of a [w]-bit value with the mask [~0 << k]. *)
Lemma land_high_mask w x k :
  0 <= k <= w -> 0 <= x < 2 ^ w ->
  Z.land x (wrap w (Z.shiftl (2 ^ w - 1) k)) = x / 2 ^ k * 2 ^ k.
Proof.
  intros Hk Hx. rewrite <- Z.shiftr_div_pow2, <- Z.shiftl_mul_pow2 by lia.
  apply Z.bits_inj'. intros i Hi. unfold wrap.
  rewrite Z.land_spec, Z.shiftl_spec by lia.
  destruct (Z_lt_le_dec i k) as [Hik|Hik].
  - rewrite (Z.testbit_neg_r (Z.shiftr x k)) by lia.
    rewrite Z.mod_pow2_bits_low by lia. rewrite Z.shiftl_spec_low by lia. apply andb_false_r.
  - rewrite Z.shiftr_spec by lia. replace (i - k + k) with i by lia.
    destruct (Z_lt_le_dec i w) as [Hiw|Hiw].
    + rewrite Z.mod_pow2_bits_low, Z.shiftl_spec by lia.
      replace (2 ^ w - 1) with (Z.ones w) by (rewrite Z.ones_equiv; lia).
      rewrite Z.ones_spec_low by lia. apply andb_true_r.
    + by rewrite (testbit_above x w i) by lia.
Qed.

Lemma floor_mul_range x k w : 0 <= k -> 0 <= x < 2 ^ w -> 0 <= x / 2 ^ k * 2 ^ k < 2 ^ w.
Proof.
  intros Hk Hx. assert (0 < 2 ^ k) by lia. pose proof (Z.mul_div_le x (2 ^ k)).
  assert (0 <= x / 2 ^ k) by (apply Z.div_pos; lia). nia.
Qed.

Lemma land_255 x : Z.land x 255 = x mod 256.
Proof. change 255 with (Z.ones 8). by rewrite Z.land_ones. Qed.

(** ** Tactics *)

(** Turns every boolean comparison of the context and the goal into the
    proposition it decides. *)
Ltac bool_to_prop :=
  repeat match goal with
  | H : _ && _ = true |- _ => apply andb_true_iff in H; destruct H
  | H : _ || _ = false |- _ => apply orb_false_iff in H; destruct H
  | H : _ && _ = false |- _ => apply andb_false_iff in H
  | H : _ || _ = true |- _ => apply orb_true_iff in H
  | H : negb _ = true |- _ => apply negb_true_iff in H
  | H : negb _ = false |- _ => apply negb_false_iff in H
  | H : (_ =? _) = true |- _ => apply Z.eqb_eq in H
  | H : (_ =? _) = false |- _ => apply Z.eqb_neq in H
  | H : (_ <? _) = true |- _ => apply Z.ltb_lt in H
  | H : (_ <? _) = false |- _ => apply Z.ltb_ge in H
  | H : (_ <=? _) = true |- _ => apply Z.leb_le in H
  | H : (_ <=? _) = false |- _ => apply Z.leb_gt in H
  | H : bool_decide _ = true |- _ => apply bool_decide_eq_true in H
  | H : bool_decide _ = false |- _ => apply bool_decide_eq_false in H
  end.

(** Case analysis on every condition of an [if] in the goal. *)
Ltac case_ifs :=
  repeat match goal with
  | |- context [if ?b then _ else _] => destruct b eqn:?
  end.

(** Case analysis on every condition of an [if] in a hypothesis. *)
Ltac case_ifs_in H :=
  repeat match type of H with
  | context [if ?b then _ else _] => destruct b eqn:?
  end.

(** ** Generic list facts *)

Lemma Forall_take_drop {A} (P : A -> Prop) n l :
  Forall P l -> Forall P (take n l) /\ Forall P (drop n l).
Proof. intros H. split; [by apply Forall_take|by apply Forall_drop]. Qed.

Lemma filter_length_split {A} (P : A -> Prop) `{!forall x, Decision (P x)} (l : list A) :
  (length (filter P l) + length (filter (fun x => ~ P x) l) = length l)%nat.
Proof.
  induction l as [|x l IH]; [done|].
  destruct (decide (P x)) as [Hp|Hp].
  - rewrite (filter_cons_True P) by done.
    rewrite (filter_cons_False (fun x => ~ P x)) by tauto. simpl. lia.
  - rewrite (filter_cons_False P) by done.
    rewrite (filter_cons_True (fun x => ~ P x)) by tauto. simpl. lia.
Qed.

Lemma last_snoc_inv {A} (l : list A) x : last l = Some x -> exists l', l = l' ++ [x].
Proof.
  destruct l as [|y l _] using rev_ind; [done|].
  rewrite last_snoc. intros [= ->]. by exists l.
Qed.

Lemma forallb_ext {A} (f g : A -> bool) l : (forall x, f x = g x) -> forallb f l = forallb g l.
Proof. intros H. induction l as [|x l IH]; [done|]. simpl. by rewrite H, IH. Qed.

Lemma filter_all {A} (P : A -> Prop) `{!forall x, Decision (P x)} (l : list A) :
  (forall x, x ∈ l -> P x) -> filter P l = l.
Proof.
  induction l as [|x l IH]; intros Hall; [done|].
  rewrite filter_cons_True by (apply Hall; by left). f_equal. apply IH. intros y Hy. apply Hall. by right.
Qed.

Lemma filter_none {A} (P : A -> Prop) `{!forall x, Decision (P x)} (l : list A) :
  (forall x, x ∈ l -> ~ P x) -> filter P l = [].
Proof.
  induction l as [|x l IH]; intros Hall; [done|].
  rewrite filter_cons_False by (apply Hall; by left). apply IH. intros y Hy. apply Hall. by right.
Qed.

Lemma filter_ext_elem {A} (P Q : A -> Prop) `{!forall x, Decision (P x)} `{!forall x, Decision (Q x)} (l : list A) :
  (forall x, x ∈ l -> P x <-> Q x) -> filter P l = filter Q l.
Proof.
  induction l as [|x l IH]; intros Hpq; [done|]. rewrite !filter_cons, IH by (intros y Hy; apply Hpq; by right).
  pose proof (Hpq x ltac:(by left)). repeat case_decide; tauto.
Qed.

Lemma NoDup_map_inj {A B} (f : A -> B) l x y :
  NoDup (map f l) -> x ∈ l -> y ∈ l -> f x = f y -> x = y.
Proof.
  intros Hnd Hx Hy E. induction l as [|a l IH]; [by apply elem_of_nil in Hx|].
  apply NoDup_cons in Hnd as [Hnot Hnd]. rewrite elem_of_cons in Hx, Hy.
  destruct Hx as [->|Hx], Hy as [->|Hy]; [done| | |by apply IH]; destruct Hnot.
  - rewrite E. by apply list_elem_of_fmap_2.
  - rewrite <- E. by apply list_elem_of_fmap_2.
Qed.

Lemma NoDup_map_filter {A B} (f : A -> B) (P : A -> Prop) `{!forall x, Decision (P x)} l :
  NoDup (map f l) -> NoDup (map f (filter P l)).
Proof.
  intros Hnd. apply NoDup_fmap_2_strong.
  - intros x y Hx Hy E. apply list_elem_of_filter in Hx as [_ Hx], Hy as [_ Hy]. by eapply NoDup_map_inj.
  - apply NoDup_filter. by apply (NoDup_fmap_1 f).
Qed.

(** ** Record updates

    [r <| f := v |>] is [r] with field [f] set, for the fields a component
    declares with [setter]. *)

Class Setter {R E} (proj : R -> E) := set_field : E -> R -> R.

#[global] Arguments set_field {R E} proj {_} _ _.

(** [setter eta]: [eta] rebuilds a record from its fields. *)
Ltac setter eta :=
  match goal with
  | |- Setter ?proj =>
      unfold Setter; intros v r;
      let e := eval cbv beta delta [eta] in (eta r) in
      match eval pattern (proj r) in e with
      | ?g _ => let b := eval cbv beta in (g v) in exact b
      end
  end.

Declare Scope record_scope.
Delimit Scope record_scope with record.
Notation "r <| f := v |>" := (set_field f v r)
  (at level 1, f constr at level 99, left associativity, format "r  <| f  :=  v |>") : record_scope.
#[global] Open Scope record_scope.
