(* ===== verification/Text.v ===== *)
(** * Text: the string vocabulary of the program

    The program's strings are [QString]s.  A [QString] is the list of its
    UTF-16 code units ([qstring]); [QStringView] slices are the same lists.
    Searching, slicing and number formatting are defined here; what depends on
    Unicode tables or a decoder ([QChar::isSpace], case folding,
    [QString::fromUtf8]) is a parameter, the class [QtText], of which only the
    documented behaviour on ASCII is used ([QtTextLaws]). *)

From S2P Require Import Prelude.

Abbreviation qchar := Z (only parsing).
Abbreviation qstring := (list Z) (only parsing).

(** A literal of the source, as its code units. *)
Fixpoint u (s : string) : qstring :=
  match s with
  | EmptyString => []
  | String a s => Z.of_N (Ascii.N_of_ascii a) :: u s
  end.

(** ** Searching and slicing *)

Fixpoint startsWith (s pre : qstring) : bool :=
  match pre, s with
  | [], _ => true
  | p :: pre, c :: s => (c =? p) && startsWith s pre
  | _ :: _, [] => false
  end.

(** [QStringView::indexOf(QChar)]. *)
Fixpoint indexOfChar (c : qchar) (s : qstring) : option nat :=
  match s with
  | [] => None
  | x :: s => if x =? c then Some O else S <$> indexOfChar c s
  end.

(** [QStringView::indexOf(QStringView)]. *)
Fixpoint indexOf (pat s : qstring) : option nat :=
  if startsWith s pat then Some O
  else match s with
       | [] => None
       | _ :: s => S <$> indexOf pat s
       end.

Definition contains (s pat : qstring) : bool :=
  match indexOf pat s with Some _ => true | None => false end.

Definition containsChar (s : qstring) (c : qchar) : bool := existsb (Z.eqb c) s.

Definition count (s : qstring) (c : qchar) : nat := length (filter (fun x => x = c) s).

Definition endsWithChar (s : qstring) (c : qchar) : bool :=
  match last s with Some x => x =? c | None => false end.

(** The pieces between the separators, as a loop on [indexOf(sep, start)]
    visits them; there is always at least one. *)
Fixpoint splitWhen (sep : qchar -> bool) (s : qstring) : list qstring :=
  match s with
  | [] => [[]]
  | c :: s =>
      if sep c then [] :: splitWhen sep s
      else match splitWhen sep s with
           | p :: ps => (c :: p) :: ps
           | [] => [[c]]
           end
  end.

Definition splitOn (c : qchar) : qstring -> list qstring := splitWhen (Z.eqb c).

Fixpoint dropWhile (f : qchar -> bool) (s : qstring) : qstring :=
  match s with
  | [] => []
  | c :: s' => if f c then dropWhile f s' else s
  end.

Definition dropWhileEnd (f : qchar -> bool) (s : qstring) : qstring :=
  rev (dropWhile f (rev s)).

(** ** What Qt's Unicode tables and decoder provide *)

Class QtText := {
  isSpace : qchar -> bool;
  toCaseFolded : qchar -> qchar;
  fromUtf8 : list Z -> qstring;
}.

(** The documented behaviour on ASCII. *)
Class QtTextLaws (Q : QtText) : Prop := {
  isSpace_ascii c : 0 <= c < 128 -> isSpace c = (c =? 32) || ((9 <=? c) && (c <=? 13));
  toCaseFolded_ascii c :
    0 <= c < 128 -> toCaseFolded c = (if (65 <=? c) && (c <=? 90) then c + 32 else c);
  fromUtf8_ascii bs : Forall (fun b => 0 <= b < 128) bs -> fromUtf8 bs = bs;
}.

(** A table that knows ASCII only, for concrete evaluations. *)
#[export] Instance asciiText : QtText := {|
  isSpace c := (c =? 32) || ((9 <=? c) && (c <=? 13));
  toCaseFolded c := if (65 <=? c) && (c <=? 90) then c + 32 else c;
  fromUtf8 bs := bs;
|}.

#[export] Instance asciiTextLaws : QtTextLaws asciiText.
Proof. by split. Qed.

Definition trimmed `{QtText} (s : qstring) : qstring :=
  dropWhileEnd isSpace (dropWhile isSpace s).

(** Case-insensitive comparisons ([Qt::CaseInsensitive]). *)
Definition startsWithCI `{QtText} (s pre : qstring) : bool :=
  startsWith (map toCaseFolded s) (map toCaseFolded pre).

Definition containsCI `{QtText} (s pat : qstring) : bool :=
  contains (map toCaseFolded s) (map toCaseFolded pat).

Definition equalsCI `{QtText} (s t : qstring) : bool :=
  bool_decide (map toCaseFolded s = map toCaseFolded t).

(** ** Numbers: [QString::number(n, base)] *)

Definition digit (d : Z) : qchar := if d <? 10 then 48 + d else 87 + d.

Fixpoint digs_fuel (fuel : nat) (b n : Z) : list Z :=
  match fuel with
  | O => []
  | S f => if n <? b then [n] else digs_fuel f b (n / b) ++ [n mod b]
  end.

(** The digits of [n >= 0] in base [b], most significant first; [log2 n + 1]
    rounds are enough in every base. *)
Definition digs (b n : Z) : list Z := digs_fuel (S (Z.to_nat (Z.log2 n))) b n.

Definition number (b n : Z) : qstring :=
  if n <? 0 then 45 :: map digit (digs b (- n)) else map digit (digs b n).

(** The value of a digit list. *)
Definition value (b : Z) (ds : list Z) : Z := fold_left (fun v d => v * b + d) ds 0.

(** ** Facts about digits *)

Section Digits.
Context (b : Z) (Hb : 2 <= b).

Lemma log2_div_lt n : b <= n -> Z.log2 (n / b) < Z.log2 n.
Proof.
  intros Hn.
  assert (H1 : 0 < n / b) by (apply Z.div_str_pos; lia).
  assert (H2 : n / b <= n / 2) by (apply Z.div_le_compat_l; lia).
  assert (H3 : Z.log2 (n / b) <= Z.log2 (n / 2)) by (apply Z.log2_le_mono; lia).
  assert (H4 : Z.log2 (n / 2) = Z.log2 n - 1).
  { change 2 with (2 ^ 1) at 1.
    rewrite <- Z.shiftr_div_pow2, Z.log2_shiftr by lia.
    assert (1 <= Z.log2 n) by (change 1 with (Z.log2 2); apply Z.log2_le_mono; lia).
    lia. }
  lia.
Qed.

Lemma digs_fuel_enough f n :
  0 <= n -> Z.log2 n < Z.of_nat f -> digs_fuel f b n = digs b n.
Proof.
  unfold digs. revert n.
  assert (H : forall f n g, 0 <= n -> Z.log2 n < Z.of_nat f -> Z.log2 n < Z.of_nat g ->
    digs_fuel f b n = digs_fuel g b n).
  { clear f. induction f as [|f IH]; intros n g Hn Hf Hg.
    { pose proof (Z.log2_nonneg n). lia. }
    destruct g as [|g]; [pose proof (Z.log2_nonneg n); lia|].
    simpl. destruct (n <? b) eqn:E; [done|]. bool_to_prop.
    pose proof (log2_div_lt n E).
    rewrite (IH (n / b) g); [done| | |]; try lia.
    apply Z.div_pos; lia. }
  intros n Hn Hf. apply H; [lia|lia|].
  pose proof (Z.log2_nonneg n). lia.
Qed.

Lemma digs_small n : n < b -> digs b n = [n].
Proof. intros H. unfold digs. simpl. destruct (n <? b) eqn:E; [done|]. bool_to_prop. lia. Qed.

Lemma digs_step n : b <= n -> digs b n = digs b (n / b) ++ [n mod b].
Proof.
  intros H. unfold digs at 1. cbn [digs_fuel].
  destruct (n <? b) eqn:E; bool_to_prop; [lia|].
  rewrite digs_fuel_enough; [done|apply Z.div_pos; lia|].
  pose proof (log2_div_lt n H). pose proof (Z.log2_nonneg n). lia.
Qed.

(** Induction along the digits of a number. *)
Lemma digs_induction (P : Z -> Prop) :
  (forall n, 0 <= n < b -> P n) ->
  (forall n, b <= n -> P (n / b) -> P n) ->
  forall n, 0 <= n -> P n.
Proof.
  intros Hs Hr. refine (Zlt_lower_bound_ind _ 0 _). intros n IH Hn. destruct (Z_lt_le_dec n b) as [H|H]; [by apply Hs|].
  apply Hr; [done|]. apply IH.
  split; [apply Z.div_pos; lia|apply Z.div_lt; lia].
Qed.

Lemma value_snoc ds d : value b (ds ++ [d]) = value b ds * b + d.
Proof. unfold value. by rewrite fold_left_app. Qed.

Lemma value_digs n : 0 <= n -> value b (digs b n) = n.
Proof.
  revert n. apply (digs_induction (fun n => value b (digs b n) = n)).
  - intros n Hn. rewrite digs_small by lia. unfold value. simpl. lia.
  - intros n Hn IH. rewrite digs_step, value_snoc, IH by done.
    pose proof (Z.div_mod n b). lia.
Qed.

Lemma digs_range n : 0 <= n -> Forall (fun d => 0 <= d < b) (digs b n).
Proof.
  revert n. apply (digs_induction (fun n => Forall _ (digs b n))).
  - intros n Hn. rewrite digs_small by lia. repeat constructor; lia.
  - intros n Hn IH. rewrite digs_step by done. apply Forall_app. split; [done|].
    repeat constructor; apply Z.mod_pos_bound; lia.
Qed.

Lemma digs_not_nil n : digs b n <> [].
Proof.
  unfold digs. cbn [digs_fuel]. destruct (n <? b); [done|].
  by destruct (digs_fuel _ _ _).
Qed.

Lemma digs_length n k : 1 <= k -> 0 <= n < b ^ k -> Z.of_nat (length (digs b n)) <= k.
Proof.
  intros Hk Hn. assert (H0 : 0 <= n) by lia. revert n H0 k Hk Hn.
  apply (digs_induction (fun n => forall k, 1 <= k -> 0 <= n < b ^ k -> Z.of_nat (length (digs b n)) <= k)).
  - intros n Hn k Hk _. rewrite digs_small by lia. simpl. lia.
  - intros n Hn IH k Hk Hlt. rewrite digs_step, length_app by done. simpl.
    assert (Hk2 : 2 <= k).
    { destruct (Z_lt_le_dec k 2); [|done]. assert (k = 1) by lia. subst k.
      rewrite Z.pow_1_r in Hlt. lia. }
    specialize (IH (k - 1)). rewrite Nat2Z.inj_add. simpl.
    enough (Z.of_nat (length (digs b (n / b))) <= k - 1) by lia.
    apply IH; [lia|]. split; [apply Z.div_pos; lia|].
    apply Z.div_lt_upper_bound; [lia|].
    replace k with (1 + (k - 1)) in Hlt by lia.
    rewrite Z.pow_add_r in Hlt by lia. lia.
Qed.

(** No leading zero. *)
Lemma digs_head n : 0 < n -> head (digs b n) <> Some 0.
Proof.
  intros Hn. assert (H0 : 0 <= n) by lia. revert n H0 Hn.
  apply (digs_induction (fun n => 0 < n -> head (digs b n) <> Some 0)).
  - intros n Hn Hp. rewrite digs_small by lia. simpl. intros [=]. lia.
  - intros n Hn IH _. rewrite digs_step by done.
    assert (Hd : 0 < n / b) by (apply Z.div_str_pos; lia). specialize (IH Hd).
    pose proof (digs_not_nil (n / b)). by destruct (digs b (n / b)).
Qed.

Lemma value_range ds :
  Forall (fun d => 0 <= d < b) ds -> 0 <= value b ds < b ^ Z.of_nat (length ds).
Proof.
  induction ds as [|d ds IH] using rev_ind; intros H.
  - unfold value. simpl. lia.
  - apply Forall_app in H as [H1 H2]. rewrite Forall_singleton in H2. specialize (IH H1).
    rewrite value_snoc, length_app.
    replace (Z.of_nat (length ds + length [d])) with (Z.of_nat (length ds) + 1) by (simpl; lia).
    rewrite Z.pow_add_r, Z.pow_1_r by lia.
    set (v := value b ds) in *. set (P := b ^ Z.of_nat (length ds)) in *.
    assert ((v + 1) * b <= P * b) by (apply Z.mul_le_mono_nonneg_r; lia).
    assert (0 <= v * b) by (apply Z.mul_nonneg_nonneg; lia). lia.
Qed.

Lemma value_positive d ds :
  Forall (fun d => 0 <= d < b) (d :: ds) -> d <> 0 -> 1 <= value b (d :: ds).
Proof.
  induction ds as [|e ds IH] using rev_ind; intros H Hd.
  - rewrite Forall_singleton in H. unfold value. simpl. lia.
  - rewrite app_comm_cons in *. apply Forall_app in H as [H1 H2].
    rewrite Forall_singleton in H2. rewrite value_snoc. specialize (IH H1 Hd). nia.
Qed.

(** A digit list without a leading zero is the digit list of its value. *)
Lemma digs_unique ds :
  ds <> [] -> Forall (fun d => 0 <= d < b) ds ->
  ((1 < length ds)%nat -> head ds <> Some 0) -> digs b (value b ds) = ds.
Proof.
  induction ds as [|d ds IH] using rev_ind; intros Hne H Hh; [done|].
  apply Forall_app in H as [H1 H2]. rewrite Forall_singleton in H2. rewrite value_snoc.
  destruct ds as [|e ds].
  - unfold value. simpl. apply digs_small. lia.
  - assert (He : e <> 0).
    { intros ->. apply Hh; [rewrite length_app; simpl; lia|done]. }
    assert (Hv : 1 <= value b (e :: ds)) by by apply value_positive.
    rewrite digs_step by nia.
    rewrite Z.div_add_l, (Z.div_small d), Z.add_0_r by lia.
    rewrite (Z.add_comm _ d), Z.mod_add, Z.mod_small by lia.
    rewrite IH; [done..|]. intros _ [= Hz]. lia.
Qed.
End Digits.

#[export] Hint Resolve digs_not_nil : core.

(** ** Facts about searching and splitting *)

(** [QStringList::join] with a one-character separator. *)
Fixpoint joinWith (c : qchar) (fields : list qstring) : qstring :=
  match fields with
  | [] => []
  | [f] => f
  | f :: fields => f ++ c :: joinWith c fields
  end.

Lemma joinWith_cons c f fs : fs <> [] -> joinWith c (f :: fs) = f ++ c :: joinWith c fs.
Proof. by destruct fs. Qed.

Lemma containsChar_spec s c : containsChar s c = true <-> c ∈ s.
Proof.
  unfold containsChar. rewrite existsb_exists. split.
  - intros (x & Hx & E). apply Z.eqb_eq in E as ->. by apply list_elem_of_In.
  - intros H. exists c. split; [by apply list_elem_of_In|apply Z.eqb_refl].
Qed.

Lemma containsChar_false s c : containsChar s c = false <-> c ∉ s.
Proof. rewrite <- containsChar_spec. by destruct (containsChar s c). Qed.

Lemma indexOfChar_app c s t : c ∉ s -> indexOfChar c (s ++ c :: t) = Some (length s).
Proof.
  induction s as [|x s IH]; simpl; intros H.
  - by rewrite Z.eqb_refl.
  - apply not_elem_of_cons in H as [Hx Hs].
    destruct (Z.eqb_spec x c); [congruence|]. by rewrite IH.
Qed.

Lemma indexOfChar_None c s : indexOfChar c s = None <-> c ∉ s.
Proof.
  induction s as [|x s IH]; simpl; [set_solver|].
  rewrite not_elem_of_cons, <- IH.
  destruct (Z.eqb_spec x c), (indexOfChar c s); simpl; split; intros; intuition congruence.
Qed.

Lemma indexOfChar_Some c s i :
  indexOfChar c s = Some i -> s = take i s ++ c :: drop (S i) s /\ c ∉ take i s.
Proof.
  revert i. induction s as [|x s IH]; simpl; intros i H; [done|].
  destruct (Z.eqb_spec x c) as [->|Hx].
  - injection H as <-. simpl. split; [done|set_solver].
  - destruct (indexOfChar c s) as [j|]; [|done]. injection H as <-.
    destruct (IH j eq_refl) as [E Hn]. simpl. rewrite <- E.
    split; [done|]. apply not_elem_of_cons. split; congruence.
Qed.

Lemma splitOn_not_nil c s : splitOn c s <> [].
Proof.
  unfold splitOn. destruct s as [|x s]; [done|]. simpl.
  destruct (c =? x); [done|]. by destruct (splitWhen _ s).
Qed.

Lemma splitOn_none c s : c ∉ s -> splitOn c s = [s].
Proof.
  unfold splitOn. induction s as [|x s IH]; intros H; [done|].
  apply not_elem_of_cons in H as [Hx Hs]. simpl. rewrite (IH Hs).
  by destruct (Z.eqb_spec c x).
Qed.

Lemma splitOn_app c s t : c ∉ s -> splitOn c (s ++ c :: t) = s :: splitOn c t.
Proof.
  unfold splitOn. induction s as [|x s IH]; intros H; simpl.
  - by rewrite Z.eqb_refl.
  - apply not_elem_of_cons in H as [Hx Hs]. rewrite (IH Hs).
    by destruct (Z.eqb_spec c x).
Qed.

Lemma splitOn_join c fields :
  fields <> [] -> Forall (fun f => c ∉ f) fields -> splitOn c (joinWith c fields) = fields.
Proof.
  induction fields as [|f fields IH]; intros Hne H; [done|].
  apply Forall_cons in H as [Hf Hr]. destruct fields as [|g fields].
  - by apply splitOn_none.
  - rewrite joinWith_cons, splitOn_app by done. by rewrite IH.
Qed.

Lemma join_splitOn c s : joinWith c (splitOn c s) = s.
Proof.
  induction s as [|x s IH]; [done|]. unfold splitOn in *. simpl.
  pose proof (splitOn_not_nil c s) as Hn. unfold splitOn in Hn.
  destruct (Z.eqb_spec c x) as [->|Hx].
  - rewrite joinWith_cons by done. by rewrite IH.
  - destruct (splitWhen _ s) as [|p [|q ps]] eqn:E; [done| |].
    + simpl in *. by rewrite IH.
    + rewrite joinWith_cons by done. rewrite joinWith_cons in IH by done.
      by rewrite <- app_comm_cons, IH.
Qed.

Lemma splitOn_fields c s : Forall (fun f => c ∉ f) (splitOn c s).
Proof.
  induction s as [|x s IH]; [repeat constructor; set_solver|].
  unfold splitOn in *. simpl. destruct (Z.eqb_spec c x) as [->|Hx].
  - constructor; [set_solver|done].
  - destruct (splitWhen _ s) as [|p ps]; [repeat constructor; set_solver|].
    apply Forall_cons in IH as [Hp Hps]. constructor; [|done].
    apply not_elem_of_cons. done.
Qed.

(** ** Facts about number formatting *)

Lemma digit_range b d : 2 <= b <= 16 -> 0 <= d < b -> 48 <= digit d <= 57 \/ 97 <= digit d <= 102.
Proof. intros. unfold digit. case_ifs; bool_to_prop; lia. Qed.

Lemma digit_decimal d : 0 <= d < 10 -> digit d = 48 + d.
Proof. intros. unfold digit. case_ifs; bool_to_prop; lia. Qed.

Lemma number_nonneg b n : 0 <= n -> number b n = map digit (digs b n).
Proof. intros H. unfold number. case_ifs; bool_to_prop; [lia|done]. Qed.

Lemma number_chars b n :
  2 <= b <= 16 -> 0 <= n ->
  Forall (fun c => 48 <= c <= 57 \/ 97 <= c <= 102) (number b n).
Proof.
  intros Hb Hn. rewrite number_nonneg by done. apply Forall_map.
  eapply Forall_impl; [apply (digs_range b); lia|]. intros d Hd. by apply (digit_range b).
Qed.

Lemma number_decimal_chars n : 0 <= n -> Forall (fun c => 48 <= c <= 57) (number 10 n).
Proof.
  intros Hn. rewrite number_nonneg by done. apply Forall_map.
  eapply Forall_impl; [apply (digs_range 10); lia|]. intros d Hd. simpl in *.
  rewrite digit_decimal; lia.
Qed.

Lemma number_inj a b : number 10 a = number 10 b -> a = b.
Proof.
  assert (Hpos : forall n, 0 <= n -> value 10 (map (fun c => c - 48) (number 10 n)) = n).
  { intros n Hn. rewrite number_nonneg, map_map by done. rewrite (map_ext_in _ id).
    - rewrite map_id. by apply value_digs.
    - intros d Hd%list_elem_of_In. pose proof (digs_range 10 ltac:(lia) n Hn) as Hr. rewrite Forall_forall in Hr.
      apply Hr in Hd. rewrite digit_decimal by lia. unfold id. lia. }
  assert (Hneg : forall n, n < 0 -> number 10 n = 45 :: number 10 (- n)).
  { intros n Hn. unfold number. rewrite (proj2 (Z.ltb_lt n 0)) by lia. by rewrite (proj2 (Z.ltb_ge (- n) 0)) by lia. }
  assert (Hsign : forall n m, 0 <= n -> m < 0 -> number 10 n <> number 10 m).
  { intros n m Hn Hm E. rewrite (Hneg m Hm) in E. pose proof (number_decimal_chars n Hn) as Hc. rewrite E in Hc.
    apply Forall_cons in Hc as [Hc _]. lia. }
  intros E. destruct (Z_lt_le_dec a 0) as [Ha|Ha], (Z_lt_le_dec b 0) as [Hb|Hb].
  - rewrite (Hneg a Ha), (Hneg b Hb) in E. injection E as E.
    rewrite <- (Z.opp_involutive a), <- (Hpos (- a)), E, (Hpos (- b)) by lia. lia.
  - by destruct (Hsign b a Hb Ha).
  - by destruct (Hsign a b Ha Hb).
  - by rewrite <- (Hpos a Ha), E, (Hpos b Hb).
Qed.

Lemma number_not_in b n c :
  2 <= b <= 16 -> 0 <= n -> ~ (48 <= c <= 57 \/ 97 <= c <= 102) -> c ∉ number b n.
Proof.
  intros Hb Hn Hc Hin. apply Hc. pose proof (number_chars b n Hb Hn) as H.
  rewrite Forall_forall in H. by apply H.
Qed.

Lemma number_not_nil b n : 0 <= n -> number b n <> [].
Proof.
  intros Hn E. rewrite number_nonneg in E by done. apply map_eq_nil in E.
  by apply digs_not_nil in E.
Qed.

Lemma number_length b n k :
  2 <= b -> 1 <= k -> 0 <= n < b ^ k -> Z.of_nat (length (number b n)) <= k.
Proof.
  intros Hb Hk Hn. rewrite number_nonneg, length_map by lia. by apply digs_length.
Qed.

(** ** Counting and splitting *)

Lemma count_app s t c : count (s ++ t) c = (count s c + count t c)%nat.
Proof. unfold count. by rewrite filter_app, length_app. Qed.

Lemma count_none s c : c ∉ s -> count s c = 0%nat.
Proof.
  unfold count. intros H. induction s as [|x s IH]; [done|].
  apply not_elem_of_cons in H as [Hx Hs]. rewrite filter_cons_False by congruence. by apply IH.
Qed.

Lemma splitWhen_app f s x t :
  Forall (fun c => f c = false) s -> f x = true -> splitWhen f (s ++ x :: t) = s :: splitWhen f t.
Proof.
  intros H Hx. induction H as [|c s Hc H IH]; simpl; [by rewrite Hx|]. by rewrite Hc, IH.
Qed.

(** ** Trimming *)

Lemma dropWhile_none f s : Forall (fun c => f c = false) s -> dropWhile f s = s.
Proof. intros Hs. destruct Hs as [|c s Hc Hs]; [done|]. simpl. by rewrite Hc. Qed.

Lemma trimmed_no_space `{QtText} s : Forall (fun c => isSpace c = false) s -> trimmed s = s.
Proof.
  intros Hs. unfold trimmed, dropWhileEnd. rewrite (dropWhile_none _ s) by done.
  rewrite dropWhile_none by by apply Forall_rev. apply rev_involutive.
Qed.
