(* ===== verification/IpAddress.v ===== *)
(** * IpAddress: addresses and networks of the IP list parser

    src/scanner/IpListParse.cpp, lines 13-243 and 416-421, 560-608: the
    address record, the number, IPv4 and IPv6 readers, the canonical printer,
    masking, and the CIDR-level operations of the scanner's interface
    (NormalizeCidr, FormatTarget, FormatEntry, IsHostCidr, AddressCount,
    EntriesFromCidrs).  A reader returns [Some] of what the code writes through
    its out-parameters, [None] where it returns false. *)

From S2P Require Import Prelude Text.

(** ** Data *)

(** IPv4 lives in the low 32 bits of [lo]. *)
Record IpListParseAddr := Addr { v6 : bool; hi : Z; lo : Z }.

Record IpListEntry := Entry { cidr : qstring; port : Z; latencyMs : Z }.

(** What a list is for. *)
Inductive Role := RoleUser | RoleScanResult | RoleScanSnapshot.

#[export] Instance Role_eq_dec : EqDecision Role.
Proof. solve_decision. Defined.

#[export] Instance IpListParseAddr_eq_dec : EqDecision IpListParseAddr.
Proof. solve_decision. Defined.

#[export] Instance IpListEntry_eq_dec : EqDecision IpListEntry.
Proof. solve_decision. Defined.

Definition ipListParseBits (addr : IpListParseAddr) : Z := if v6 addr then 128 else 32.

(** ** Reading numbers *)

Fixpoint decimalLoop (value : Z) (text : qstring) : option Z :=
  match text with
  | [] => Some value
  | c :: text =>
      if (c <? 48) || (57 <? c) then None
      else decimalLoop (u32 (value * 10 + (c - 48))) text
  end.

Definition ipListParseDecimal (text : qstring) (maxDigits : nat) : option Z :=
  if bool_decide (text = []) || (maxDigits <? length text)%nat then None
  else decimalLoop 0 text.

Definition ipListParseHexDigit (c : qchar) : Z :=
  if (48 <=? c) && (c <=? 57) then c - 48
  else if (97 <=? c) && (c <=? 102) then c - 97 + 10
  else if (65 <=? c) && (c <=? 70) then c - 65 + 10
  else -1.

Definition ipListParsePort (text : qstring) : option Z :=
  match ipListParseDecimal text 5 with
  | Some value => if 65535 <? value then None else Some value
  | None => None
  end.

(** ** IPv4: the loop over the dot-separated parts *)

Fixpoint v4Loop (fields : list qstring) (value parts : Z) : option Z :=
  match fields with
  | [] => if parts =? 4 then Some value else None
  | part :: rest =>
      match ipListParseDecimal part 3 with
      | None => None
      | Some octet =>
          if 255 <? octet then None
          else if (1 <? length part)%nat && bool_decide (head part = Some 48) then None
          else if 4 <? parts + 1 then None
          else v4Loop rest (Z.lor (u32 (Z.shiftl value 8)) octet) (parts + 1)
      end
  end.

Definition ipListParseV4 (text : qstring) : option Z := v4Loop (splitOn 46 text) 0 0.

(** ** IPv6: the groups written so far stand for the array and its count *)

Fixpoint hexLoop (value : Z) (group : qstring) : option Z :=
  match group with
  | [] => Some value
  | c :: group =>
      let digit := ipListParseHexDigit c in
      if digit <? 0 then None
      else hexLoop (u16 (Z.lor (Z.shiftl value 4) digit)) group
  end.

Fixpoint v6Loop (fields : list qstring) (allowV4Tail : bool) (groups : list Z) : option (list Z) :=
  match fields with
  | [] => Some groups
  | group :: rest =>
      if bool_decide (rest = []) && allowV4Tail && containsChar group 46 then
        if (6 <? length groups)%nat then None
        else match ipListParseV4 group with
             | None => None
             | Some v4 => Some (groups ++ [u16 (Z.shiftr v4 16); u16 (Z.land v4 65535)])
             end
      else if bool_decide (group = []) || (4 <? length group)%nat || (8 <=? length groups)%nat
      then None
      else match hexLoop 0 group with
           | None => None
           | Some value => v6Loop rest allowV4Tail (groups ++ [value])
           end
  end.

Definition ipListParseV6Part (text : qstring) (allowV4Tail : bool) : option (list Z) :=
  if bool_decide (text = []) then Some []
  else v6Loop (splitOn 58 text) allowV4Tail [].

(** Four groups packed into a 64-bit half. *)
Definition packGroups (groups : list Z) : Z :=
  fold_left (fun acc g => Z.lor (u64 (Z.shiftl acc 16)) g) groups 0.

Definition v6Groups (text : qstring) : option (list Z) :=
  match indexOf (u "::") text with
  | None =>
      match ipListParseV6Part text true with
      | Some head => if (length head =? 8)%nat then Some head else None
      | None => None
      end
  | Some gap =>
      if contains (drop (gap + 1) text) (u "::") then None
      else
        match ipListParseV6Part (take gap text) false with
        | None => None
        | Some head =>
            match ipListParseV6Part (drop (gap + 2) text) true with
            | None => None
            | Some tail =>
                if (7 <? length head + length tail)%nat then None
                else Some (head ++ replicate (8 - length head - length tail) 0 ++ tail)
            end
        end
  end.

Definition ipListParseV6 (text : qstring) : option (Z * Z) :=
  match v6Groups text with
  | Some groups => Some (packGroups (take 4 groups), packGroups (drop 4 groups))
  | None => None
  end.

Definition ipListParseAddress (text : qstring) : option IpListParseAddr :=
  if containsChar text 58 then
    let text := match indexOfChar 37 text with Some zone => take zone text | None => text end in
    match ipListParseV6 text with
    | Some (hi, lo) => Some (Addr true hi lo)
    | None => None
    end
  else
    match ipListParseV4 text with
    | Some v4 => Some (Addr false 0 v4)
    | None => None
    end.

Definition ipListParseIsMapped (addr : IpListParseAddr) : bool :=
  v6 addr && (hi addr =? 0) && (Z.shiftr (lo addr) 32 =? 65535).

(** ** Masking *)

(** [~0ULL << n]. *)
Definition onesShl (n : Z) : Z := u64 (Z.shiftl (2 ^ 64 - 1) n).

Definition ipListParseMask (addr : IpListParseAddr) (prefix : Z) : IpListParseAddr :=
  if negb (v6 addr) then
    Addr (v6 addr) (hi addr)
      (Z.land (lo addr) (Z.land (u64 (Z.shiftl 4294967295 (32 - prefix))) 4294967295))
  else if prefix <? 64 then
    Addr (v6 addr) (Z.land (hi addr) (if prefix =? 0 then 0 else onesShl (64 - prefix))) 0
  else if prefix =? 64 then Addr (v6 addr) (hi addr) 0
  else if prefix <? 128 then
    Addr (v6 addr) (hi addr) (Z.land (lo addr) (onesShl (128 - prefix)))
  else addr.

(** ** Printing *)

Definition formatV4 (v : Z) : qstring :=
  number 10 (Z.shiftr v 24) ++ u "." ++ number 10 (Z.land (Z.shiftr v 16) 255) ++ u "." ++
  number 10 (Z.land (Z.shiftr v 8) 255) ++ u "." ++ number 10 (Z.land v 255).

Definition groupsOf (addr : IpListParseAddr) : list Z :=
  map (fun i => u16 (Z.shiftr (hi addr) (48 - 16 * i))) [0; 1; 2; 3] ++
  map (fun i => u16 (Z.shiftr (lo addr) (48 - 16 * i))) [0; 1; 2; 3].

(** [while (j < 8 && groups[j] == 0) ++j]: the length of the zero run in front. *)
Fixpoint zeroRun (groups : list Z) : nat :=
  match groups with
  | g :: groups => if g =? 0 then S (zeroRun groups) else O
  | [] => O
  end.

(** The search for the longest run; [groups] are the groups from index [i] on. *)
Fixpoint bestRun (fuel : nat) (i : Z) (groups : list Z) (bestStart bestLength : Z) : Z * Z :=
  match fuel, groups with
  | S fuel, g :: rest =>
      if negb (g =? 0) then bestRun fuel (i + 1) rest bestStart bestLength
      else
        let n := zeroRun groups in
        let '(bestStart, bestLength) :=
          if bestLength <? Z.of_nat n then (i, Z.of_nat n) else (bestStart, bestLength) in
        bestRun fuel (i + Z.of_nat n) (drop n groups) bestStart bestLength
  | _, _ => (bestStart, bestLength)
  end.

Fixpoint formatLoop (fuel : nat) (i : Z) (groups : list Z) (bestStart bestLength : Z)
    (out : qstring) : qstring :=
  match fuel, groups with
  | S fuel, g :: rest =>
      if i =? bestStart then
        formatLoop fuel (i + bestLength) (drop (Z.to_nat bestLength) groups) bestStart bestLength
          (out ++ u "::")
      else
        let out := if negb (bool_decide (out = [])) && negb (endsWithChar out 58)
                   then out ++ u ":" else out in
        formatLoop fuel (i + 1) rest bestStart bestLength (out ++ number 16 g)
  | _, _ => out
  end.

Definition formatV6 (groups : list Z) : qstring :=
  let '(bestStart, bestLength) := bestRun 8 0 groups (-1) 1 in
  formatLoop 8 0 groups bestStart bestLength [].

Definition ipListParseFormat (addr : IpListParseAddr) : qstring :=
  if negb (v6 addr) then formatV4 (u32 (lo addr)) else formatV6 (groupsOf addr).

Definition ipListParseCidr (addr : IpListParseAddr) (prefix : Z) : qstring :=
  let address := ipListParseFormat addr in
  if ipListParseBits addr <=? prefix then address else address ++ u "/" ++ number 10 prefix.

(** ** Networks *)

Section Networks.
Context `{Q : QtText}.

(** What precedes the address parser: the bracketed body and the text after
    the bracket, then the body and the prefix text.  [None]: refused. *)
Definition splitBracket (text : qstring) : option (qstring * qstring) :=
  if startsWith text (u "[") then
    match indexOfChar 93 text with
    | None => None
    | Some close =>
        let body := take (close - 1) (drop 1 text) in
        let suffix := drop (close + 1) text in
        if negb (bool_decide (suffix = [])) && negb (startsWith suffix (u "/")) then None
        else Some (body, suffix)
    end
  else Some (text, []).

Definition splitPrefix (body suffix : qstring) : option (qstring * option qstring) :=
  match indexOfChar 47 body with
  | Some slash =>
      if negb (bool_decide (suffix = [])) then None
      else Some (take slash body, Some (drop (slash + 1) body))
  | None =>
      if negb (bool_decide (suffix = [])) then Some (body, Some (drop 1 suffix))
      else Some (body, None)
  end.

Definition parsePrefix (prefixText : option qstring) (bits : Z) : option Z :=
  match prefixText with
  | None => Some bits
  | Some text =>
      match ipListParseDecimal text 3 with
      | Some value => if bits <? value then None else Some value
      | None => None
      end
  end.

(** An IPv4-mapped IPv6 network of /96 or longer becomes the IPv4 network. *)
Definition unmapNetwork (addr : IpListParseAddr) (prefix : Z) : IpListParseAddr * Z :=
  if ipListParseIsMapped addr && (96 <=? prefix)
  then (Addr false 0 (Z.land (lo addr) 4294967295), prefix - 96)
  else (addr, prefix).

Definition ipListParseNetwork (text : qstring) : option (IpListParseAddr * Z) :=
  match splitBracket (trimmed text) with
  | None => None
  | Some (body, suffix) =>
      match splitPrefix body suffix with
      | None => None
      | Some (body, prefixText) =>
          match ipListParseAddress body with
          | None => None
          | Some addr =>
              match parsePrefix prefixText (ipListParseBits addr) with
              | None => None
              | Some prefix =>
                  let '(addr, prefix) := unmapNetwork addr prefix in
                  if prefix =? 0 then None else Some (ipListParseMask addr prefix, prefix)
              end
          end
      end
  end.

(** Empty when invalid. *)
Definition NormalizeCidr (text : qstring) : qstring :=
  match ipListParseNetwork text with
  | Some (addr, prefix) => ipListParseCidr addr prefix
  | None => []
  end.

Fixpoint entriesFromCidrsLoop (cidrs : list qstring) (defaultPort : Z) (seen : gset qstring)
    (entries : list IpListEntry) : list IpListEntry :=
  match cidrs with
  | [] => entries
  | text :: cidrs =>
      let cidr := NormalizeCidr text in
      if bool_decide (cidr = []) || bool_decide (cidr ∈ seen)
      then entriesFromCidrsLoop cidrs defaultPort seen entries
      else entriesFromCidrsLoop cidrs defaultPort ({[cidr]} ∪ seen)
             (entries ++ [Entry cidr defaultPort 0])
  end.

Definition EntriesFromCidrs (cidrs : list qstring) (defaultPort : Z) : list IpListEntry :=
  let defaultPort := if (defaultPort <? 0) || (65535 <? defaultPort) then 0 else defaultPort in
  entriesFromCidrsLoop cidrs defaultPort ∅ [].
End Networks.

(** ** The textual operations on canonical CIDRs *)

Definition FormatTarget (address : qstring) (port : Z) : qstring :=
  if port <=? 0 then address
  else if containsChar address 58 then u "[" ++ address ++ u "]:" ++ number 10 port
  else address ++ u ":" ++ number 10 port.

Definition IsHostCidr (cidr : qstring) : bool :=
  if bool_decide (cidr = []) then false
  else match indexOfChar 47 cidr with
       | None => true
       | Some slash =>
           bool_decide (drop (slash + 1) cidr =
                        (if containsChar (take slash cidr) 58 then u "128" else u "32"))
       end.

Definition FormatEntry (entry : IpListEntry) : qstring :=
  if IsHostCidr (cidr entry) then
    FormatTarget
      (match indexOfChar 47 (cidr entry) with
       | None => cidr entry
       | Some slash => take slash (cidr entry)
       end) (port entry)
  else if port entry <=? 0 then cidr entry
  else cidr entry ++ u " " ++ number 10 (port entry).

(** Saturates at [2^63]. *)
Definition AddressCount (cidr : qstring) : Z :=
  if bool_decide (cidr = []) then 0
  else match indexOfChar 47 cidr with
       | None => 1
       | Some slash =>
           let bits := if containsChar (take slash cidr) 58 then 128 else 32 in
           match ipListParseDecimal (drop (slash + 1) cidr) 3 with
           | None => 0
           | Some prefix =>
               if bits <? prefix then 0
               else
                 let hostBits := bits - prefix in
                 if 63 <=? hostBits then u64 (Z.shiftl 1 63) else u64 (Z.shiftl 1 hostBits)
           end
       end.
