(* ===== verification/IpV4.v ===== *)
(** * IpV4: the decimal and IPv4 readers against the printer

    Facts about [ipListParseDecimal], [ipListParsePort] and [ipListParseV4]
    (IpAddress.v): which texts they accept and what they return. *)

From S2P Require Import Prelude Text IpAddress.

(** ** Decimal numbers *)

Definition decStep (v d : Z) : Z := v * 10 + d.

Lemma decStep_bounds ds acc :
  Forall (fun d => 0 <= d < 10) ds -> 0 <= acc ->
  0 <= fold_left decStep ds acc /\ fold_left decStep ds acc + 1 <= (acc + 1) * 10 ^ Z.of_nat (length ds).
Proof.
  revert acc. induction ds as [|d ds IH]; intros acc H Ha; simpl length.
  - simpl. lia.
  - apply Forall_cons in H as [Hd H]. simpl fold_left.
    destruct (IH (decStep acc d) H) as [H1 H2]; [unfold decStep; lia|]. split; [done|].
    rewrite Nat2Z.inj_succ, Z.pow_succ_r by lia.
    set (P := 10 ^ Z.of_nat (length ds)) in *.
    assert (0 < P) by (unfold P; lia). unfold decStep in *. nia.
Qed.

Lemma decimalLoop_digits ds acc :
  Forall (fun d => 0 <= d < 10) ds -> 0 <= acc ->
  (acc + 1) * 10 ^ Z.of_nat (length ds) <= 2 ^ 32 ->
  decimalLoop acc (map digit ds) = Some (fold_left decStep ds acc).
Proof.
  revert acc. induction ds as [|d ds IH]; intros acc H Ha Hb; [done|].
  apply Forall_cons in H as [Hd H]. simpl. rewrite digit_decimal by lia.
  assert (E : (48 + d <? 48) || (57 <? 48 + d) = false)
    by (apply orb_false_iff; rewrite !Z.ltb_ge; lia).
  rewrite E. simpl length in Hb. rewrite Nat2Z.inj_succ, Z.pow_succ_r in Hb by lia.
  assert (Hp : 0 < 10 ^ Z.of_nat (length ds)) by lia.
  replace (48 + d - 48) with d by lia.
  rewrite wrap_small by nia. apply IH; unfold decStep; [done|lia|nia].
Qed.

Lemma decimalLoop_inv text acc v :
  decimalLoop acc text = Some v -> exists ds, text = map digit ds /\ Forall (fun d => 0 <= d < 10) ds.
Proof.
  revert acc. induction text as [|c text IH]; intros acc H; [by exists []|].
  simpl in H. case_ifs_in H; [done|]. bool_to_prop. apply IH in H as (ds & -> & Hds).
  exists ((c - 48) :: ds). split; [|constructor; [lia|done]].
  simpl. rewrite digit_decimal by lia. f_equal. lia.
Qed.

Lemma ipListParseDecimal_Some text k v :
  (k <= 9)%nat ->
  ipListParseDecimal text k = Some v <->
  exists ds, ds <> [] /\ (length ds <= k)%nat /\ Forall (fun d => 0 <= d < 10) ds /\
             text = map digit ds /\ v = value 10 ds.
Proof.
  intros Hk. unfold ipListParseDecimal.
  assert (Hpow : forall ds : list Z, (length ds <= k)%nat -> (0 + 1) * 10 ^ Z.of_nat (length ds) <= 2 ^ 32).
  { intros ds Hd. assert (10 ^ Z.of_nat (length ds) <= 10 ^ 9) by (apply Z.pow_le_mono_r; lia). lia. }
  split.
  - intros H. case_ifs_in H; [done|]. bool_to_prop. apply Nat.ltb_ge in H1.
    destruct (decimalLoop_inv _ _ _ H) as (ds & -> & Hds). rewrite length_map in H1.
    rewrite decimalLoop_digits in H by (try done; try lia; by apply Hpow).
    injection H as <-. exists ds. repeat split; try done. by intros ->.
  - intros (ds & Hne & Hl & Hds & -> & ->).
    rewrite bool_decide_false by (intros E; apply map_eq_nil in E; done).
    rewrite length_map. replace ((k <? length ds)%nat) with false by (symmetry; by apply Nat.ltb_ge).
    simpl. by apply decimalLoop_digits; [done|lia|apply Hpow].
Qed.

(** Numbers below [10^k] are read back. *)
Lemma ipListParseDecimal_number n k :
  (1 <= k <= 9)%nat -> 0 <= n < 10 ^ Z.of_nat k -> ipListParseDecimal (number 10 n) k = Some n.
Proof.
  intros Hk Hn. apply ipListParseDecimal_Some; [lia|]. exists (digs 10 n).
  split; [done|]. split; [pose proof (digs_length 10 ltac:(lia) n (Z.of_nat k)); lia|].
  split; [apply digs_range; lia|]. rewrite number_nonneg by lia.
  split; [done|]. symmetry. apply value_digs; lia.
Qed.

Lemma ipListParseDecimal_range text k v :
  (k <= 9)%nat -> ipListParseDecimal text k = Some v -> 0 <= v < 10 ^ Z.of_nat k.
Proof.
  intros Hk H. apply ipListParseDecimal_Some in H as (ds & _ & Hl & Hds & _ & ->); [|done].
  destruct (value_range 10 ltac:(lia) ds Hds) as [H1 H2]. split; [done|].
  eapply Z.lt_le_trans; [done|]. apply Z.pow_le_mono_r; lia.
Qed.

Lemma ipListParsePort_range text p : ipListParsePort text = Some p -> 0 <= p <= 65535.
Proof.
  unfold ipListParsePort. destruct (ipListParseDecimal text 5) eqn:E; [|done].
  apply ipListParseDecimal_range in E; [|lia]. intros H. case_ifs_in H; [done|].
  injection H as <-. bool_to_prop. lia.
Qed.

Lemma ipListParsePort_number p : 0 <= p <= 65535 -> ipListParsePort (number 10 p) = Some p.
Proof.
  intros Hp. unfold ipListParsePort. rewrite ipListParseDecimal_number by lia.
  destruct (65535 <? p) eqn:E; [bool_to_prop; lia|done].
Qed.

(** ** Octets *)

(** The condition of the IPv4 loop on one part. *)
Lemma octet_spec part o :
  (ipListParseDecimal part 3 = Some o /\ (255 <? o) = false /\
   (1 <? length part)%nat && bool_decide (head part = Some 48) = false) <->
  (0 <= o <= 255 /\ part = number 10 o).
Proof.
  split.
  - intros (H & H255 & Hz). bool_to_prop.
    apply ipListParseDecimal_Some in H as (ds & Hne & Hl & Hds & -> & ->); [|lia].
    pose proof (value_range 10 ltac:(lia) ds Hds). split; [lia|].
    rewrite number_nonneg by lia. rewrite digs_unique; [done|lia|done|done|].
    intros Hlen Hh. destruct ds as [|d ds]; [done|]. injection Hh as ->.
    rewrite length_map in Hz. destruct Hz as [Hz|Hz].
    + apply Nat.ltb_ge in Hz. simpl in *. lia.
    + apply bool_decide_eq_false in Hz. simpl in Hz. done.
  - intros (Ho & ->). split; [apply ipListParseDecimal_number; lia|].
    split; [apply Z.ltb_ge; lia|]. rewrite number_nonneg by lia.
    apply andb_false_iff. destruct (Z.eq_dec o 0) as [->|Hne]; [by left|]. right.
    apply bool_decide_eq_false. intros E.
    pose proof (digs_head 10 ltac:(lia) o ltac:(lia)) as Hh.
    pose proof (digs_range 10 ltac:(lia) o ltac:(lia)) as Hr.
    destruct (digs 10 o) as [|d ds]; [done|]. apply Forall_cons in Hr as [Hd _].
    simpl in E. rewrite digit_decimal in E by done. injection E as E. apply Hh. simpl. f_equal. lia.
Qed.

(** ** The four parts *)

Definition octetStep (a o : Z) : Z := a * 256 + o.

Lemma v4Loop_step value parts o :
  0 <= parts <= 3 -> 0 <= value < 2 ^ (8 * parts) -> 0 <= o <= 255 ->
  Z.lor (u32 (Z.shiftl value 8)) o = octetStep value o /\ 0 <= octetStep value o < 2 ^ (8 * (parts + 1)).
Proof.
  intros Hp Hv Ho. assert (Hle : 2 ^ (8 * parts) <= 2 ^ 24) by (apply Z.pow_le_mono_r; lia).
  rewrite wrap_small by (rewrite Z.shiftl_mul_pow2 by lia; lia).
  rewrite lor_disjoint by lia. unfold octetStep. split; [done|].
  replace (8 * (parts + 1)) with (8 * parts + 8) by lia. rewrite Z.pow_add_r by lia. lia.
Qed.

Lemma v4Loop_spec fields value parts v :
  0 <= parts <= 4 -> 0 <= value < 2 ^ (8 * parts) ->
  v4Loop fields value parts = Some v <->
  exists os, fields = map (number 10) os /\ Forall (fun o => 0 <= o <= 255) os /\
             parts + Z.of_nat (length os) = 4 /\ v = fold_left octetStep os value.
Proof.
  revert value parts. induction fields as [|part rest IH]; intros value parts Hp Hv; simpl.
  - split.
    + intros H. case_ifs_in H; [|done]. injection H as <-. bool_to_prop.
      exists []. simpl. split_and!; try done; lia.
    + intros (os & E & _ & Hl & ->). symmetry in E. apply map_eq_nil in E as ->. simpl in *.
      destruct (Z.eqb_spec parts 4); [done|lia].
  - split.
    + intros H. destruct (ipListParseDecimal part 3) as [o|] eqn:Ed; [|done].
      case_ifs_in H; [done..|].
      destruct (proj1 (octet_spec part o)) as [Ho ->]; [by split_and!|]. bool_to_prop.
      destruct (v4Loop_step value parts o) as [Es Hs]; [lia..|]. rewrite Es in H.
      apply IH in H as (os & -> & Hos & Hl & ->); [|lia|done].
      exists (o :: os). simpl length. split_and!; [done|by constructor|lia|done].
    + intros (os & E & Hos & Hl & ->). destruct os as [|o os]; [done|].
      injection E as -> ->. apply Forall_cons in Hos as [Ho Hos]. simpl length in Hl.
      destruct (proj2 (octet_spec (number 10 o) o)) as (E1 & E2 & E3); [done|].
      rewrite E1, E2, E3. replace (4 <? parts + 1) with false by (symmetry; apply Z.ltb_ge; lia).
      destruct (v4Loop_step value parts o) as [Es Hs]; [lia..|]. rewrite Es.
      apply IH; [lia|done|]. exists os. split_and!; [done|done|lia|done].
Qed.

Lemma formatV4_join v :
  formatV4 v = joinWith 46 (map (number 10) [Z.shiftr v 24; Z.land (Z.shiftr v 16) 255;
                                             Z.land (Z.shiftr v 8) 255; Z.land v 255]).
Proof. done. Qed.

Lemma octets_of v :
  0 <= v < 2 ^ 32 ->
  let os := [Z.shiftr v 24; Z.land (Z.shiftr v 16) 255; Z.land (Z.shiftr v 8) 255; Z.land v 255] in
  Forall (fun o => 0 <= o <= 255) os /\ fold_left octetStep os 0 = v.
Proof.
  intros Hv os. subst os. rewrite !land_255, !Z.shiftr_div_pow2 by lia.
  change (2 ^ 24) with 16777216. change (2 ^ 16) with 65536. change (2 ^ 8) with 256.
  unfold octetStep. simpl. split.
  - repeat constructor; try (Z.to_euclidean_division_equations; lia).
  - replace (v / 16777216) with (v / 256 / 256 / 256) by (rewrite !Z.div_div by lia; done).
    replace (v / 65536) with (v / 256 / 256) by (rewrite !Z.div_div by lia; done).
    pose proof (Z.div_mod v 256). pose proof (Z.div_mod (v / 256) 256).
    pose proof (Z.div_mod (v / 256 / 256) 256). lia.
Qed.

Lemma formatV4_chars v : 0 <= v -> Forall (fun c => c = 46 \/ 48 <= c <= 57) (formatV4 v).
Proof.
  intros Hv.
  assert (Hn : forall x, 0 <= x -> Forall (fun c => c = 46 \/ 48 <= c <= 57) (number 10 x)).
  { intros x Hx. eapply Forall_impl; [by apply number_decimal_chars|]. intros c Hc. simpl in *. lia. }
  assert (Hd : Forall (fun c => c = 46 \/ 48 <= c <= 57) (u ".")) by (repeat constructor).
  unfold formatV4. rewrite !Forall_app, !land_255.
  split_and!; try done; apply Hn; rewrite ?Z.shiftr_div_pow2 by lia;
    first [by apply Z.mod_pos_bound|apply Z.div_pos; lia].
Qed.

Lemma number_no_sep n c : 0 <= n -> c = 46 \/ c = 47 \/ c = 58 \/ c = 93 \/ c = 91 -> c ∉ number 10 n.
Proof. intros Hn Hc. apply number_not_in; lia. Qed.

Lemma octets_unique o1 o2 o3 o4 :
  Forall (fun o => 0 <= o <= 255) [o1; o2; o3; o4] ->
  let v := fold_left octetStep [o1; o2; o3; o4] 0 in
  0 <= v < 2 ^ 32 /\
  [Z.shiftr v 24; Z.land (Z.shiftr v 16) 255; Z.land (Z.shiftr v 8) 255; Z.land v 255] = [o1; o2; o3; o4].
Proof.
  intros H. repeat (apply Forall_cons in H as [? H]). unfold octetStep. simpl.
  rewrite !land_255, !Z.shiftr_div_pow2 by lia.
  change (2 ^ 24) with 16777216. change (2 ^ 16) with 65536. change (2 ^ 8) with 256.
  split; [lia|].
  set (v := (((_ * 256 + o2) * 256 + o3) * 256 + o4)).
  assert (E1 : v / 256 = (o1 * 256 + o2) * 256 + o3)
    by (symmetry; apply (Z.div_unique_pos _ _ _ o4); unfold v; lia).
  assert (E2 : v / 65536 = o1 * 256 + o2)
    by (symmetry; apply (Z.div_unique_pos _ _ _ (o3 * 256 + o4)); unfold v; lia).
  assert (E3 : v / 16777216 = o1)
    by (symmetry; apply (Z.div_unique_pos _ _ _ ((o2 * 256 + o3) * 256 + o4)); unfold v; lia).
  rewrite E1, E2, E3. unfold v.
  repeat (f_equal; try (rewrite (Z.add_comm (_ * 256)), Z.mod_add, Z.mod_small by lia; done)).
Qed.

(** The reader accepts exactly the canonical texts. *)
Lemma v4_accepts_iff text v :
  ipListParseV4 text = Some v <-> 0 <= v < 2 ^ 32 /\ text = formatV4 v.
Proof.
  unfold ipListParseV4. rewrite v4Loop_spec by lia. split.
  - intros (os & E & Hos & Hl & ->).
    destruct os as [|o1 [|o2 [|o3 [|o4 [|]]]]]; simpl length in Hl; try lia.
    destruct (octets_unique o1 o2 o3 o4 Hos) as [Hv Eo]. split; [done|].
    by rewrite formatV4_join, Eo, <- E, join_splitOn.
  - intros [Hv ->]. destruct (octets_of v Hv) as [Hos Hval].
    rewrite formatV4_join. set (os := [_; _; _; _]) in *. exists os.
    split_and!; try done.
    apply splitOn_join; [done|]. apply Forall_map.
    eapply Forall_impl; [exact Hos|]. intros o Ho. simpl in *. apply number_no_sep; lia.
Qed.

(** ** Property *)

(** [ipListParseV4] accepts exactly the canonical dotted-decimal texts
    (four octets, no leading zero, nothing around them): the accepted text of a
    value is the one [formatV4] prints. *)
Theorem ipListParseV4_canonical text v :
  ipListParseV4 text = Some v <-> 0 <= v < 2 ^ 32 /\ text = formatV4 v.
Proof. apply v4_accepts_iff. Qed.
