(* ===== verification/IpV6.v ===== *)
(** * IpV6: the IPv6 reader against the RFC 5952 printer

    Facts about [ipListParseV6] and [formatV6] (IpAddress.v): the zero-run
    search, the printed shape, and that the reader inverts the printer. *)

From S2P Require Import Prelude Text IpAddress IpV4.

(** A 16-bit group. *)
Definition isGroup (g : Z) : Prop := 0 <= g < 65536.

#[local] Ltac Zify.zify_pre_hook ::= unfold isGroup in *.

Abbreviation hex := (number 16).

(** ** Hexadecimal groups *)

Lemma hexDigit_digit d : 0 <= d < 16 -> ipListParseHexDigit (digit d) = d.
Proof.
  intros Hd. unfold digit. destruct (d <? 10) eqn:E; bool_to_prop; unfold ipListParseHexDigit.
  - replace ((48 <=? 48 + d) && (48 + d <=? 57)) with true; [lia|].
    symmetry. apply andb_true_iff. rewrite !Z.leb_le. lia.
  - replace ((48 <=? 87 + d) && (87 + d <=? 57)) with false
      by (symmetry; apply andb_false_iff; rewrite !Z.leb_gt; lia).
    replace ((97 <=? 87 + d) && (87 + d <=? 102)) with true; [lia|].
    symmetry. apply andb_true_iff. rewrite !Z.leb_le. lia.
Qed.

Lemma hexDigit_range c : ipListParseHexDigit c < 16.
Proof. unfold ipListParseHexDigit. case_ifs; bool_to_prop; lia. Qed.

Lemma hexLoop_digits ds acc :
  Forall (fun d => 0 <= d < 16) ds -> 0 <= acc -> (acc + 1) * 16 ^ Z.of_nat (length ds) <= 2 ^ 16 ->
  hexLoop acc (map digit ds) = Some (fold_left (fun v d => v * 16 + d) ds acc).
Proof.
  revert acc. induction ds as [|d ds IH]; intros acc H Ha Hb; [done|].
  apply Forall_cons in H as [Hd H]. simpl. rewrite hexDigit_digit by done.
  destruct (d <? 0) eqn:E; bool_to_prop; [lia|].
  simpl length in Hb. rewrite Nat2Z.inj_succ, Z.pow_succ_r in Hb by lia.
  assert (Hp : 0 < 16 ^ Z.of_nat (length ds)) by lia.
  rewrite lor_disjoint by lia. change (2 ^ 4) with 16.
  rewrite wrap_small by nia. apply IH; [done|lia|nia].
Qed.

Lemma hex_length g : isGroup g -> (length (hex g) <= 4)%nat.
Proof. intros Hg. pose proof (number_length 16 g 4 ltac:(lia) ltac:(lia) ltac:(lia)). lia. Qed.

Lemma hexLoop_hex g : isGroup g -> hexLoop 0 (hex g) = Some g.
Proof.
  intros Hg. rewrite number_nonneg by lia.
  pose proof (hex_length g Hg) as Hl. rewrite number_nonneg, length_map in Hl by lia.
  rewrite hexLoop_digits; [|apply digs_range; lia|lia|].
  - f_equal. apply (value_digs 16); lia.
  - assert (16 ^ Z.of_nat (length (digs 16 g)) <= 16 ^ 4) by (apply Z.pow_le_mono_r; lia). lia.
Qed.

Lemma hexLoop_range text acc v : 0 <= acc < 65536 -> hexLoop acc text = Some v -> isGroup v.
Proof.
  revert acc. induction text as [|c text IH]; intros acc Ha H; simpl in H; [by injection H as <-|].
  case_ifs_in H; [done|]. apply (IH _ (wrap_range 16 _ ltac:(lia)) H).
Qed.

Lemma hex_no_sep g c : 0 <= g -> c = 37 \/ c = 46 \/ c = 47 \/ c = 58 \/ c = 91 \/ c = 93 -> c ∉ hex g.
Proof. intros Hg Hc. apply number_not_in; lia. Qed.

(** A colon-separated text of groups. *)
Definition hexJoin (gs : list Z) : qstring := joinWith 58 (map hex gs).

Lemma hexJoin_cons g gs : gs <> [] -> hexJoin (g :: gs) = hex g ++ 58 :: hexJoin gs.
Proof. intros H. unfold hexJoin. simpl map. apply joinWith_cons. by destruct gs. Qed.

Lemma splitOn_hexJoin gs : gs <> [] -> Forall isGroup gs -> splitOn 58 (hexJoin gs) = map hex gs.
Proof.
  intros Hne H. unfold hexJoin. apply splitOn_join; [by destruct gs|].
  apply Forall_map. eapply Forall_impl; [exact H|]. intros g Hg. simpl in *. apply hex_no_sep; lia.
Qed.

Lemma hexJoin_nil gs : Forall isGroup gs -> hexJoin gs = [] -> gs = [].
Proof.
  destruct gs as [|g [|g' gs]]; intros H E; [done| |].
  - apply Forall_cons in H as [Hg _]. unfold hexJoin in E. simpl in E.
    by apply number_not_nil in E; [|lia].
  - rewrite hexJoin_cons in E by done. by destruct (hex g).
Qed.

(** The text starts with a digit, never with a colon. *)
Lemma hexJoin_head gs t :
  gs <> [] -> Forall isGroup gs -> exists c t', hexJoin gs ++ t = c :: t' /\ c <> 58.
Proof.
  intros Hne H. destruct gs as [|g gs]; [done|]. apply Forall_cons in H as [Hg H].
  pose proof (number_not_nil 16 g ltac:(lia)) as Hn.
  pose proof (number_chars 16 g ltac:(lia) ltac:(lia)) as Hc.
  destruct gs as [|g' gs]; [unfold hexJoin; simpl|rewrite hexJoin_cons by done];
    (destruct (hex g) as [|c cs]; [done|]; apply Forall_cons in Hc as [Hc _];
     simpl; eexists _, _; split; [done|lia]).
Qed.

Lemma v6Loop_hex gs allow acc :
  Forall isGroup gs -> (length acc + length gs <= 8)%nat ->
  v6Loop (map hex gs) allow acc = Some (acc ++ gs).
Proof.
  revert acc. induction gs as [|g gs IH]; intros acc H Hl; [by rewrite app_nil_r|].
  apply Forall_cons in H as [Hg H]. simpl in Hl.
  assert (Hd : containsChar (hex g) 46 = false) by (apply containsChar_false, hex_no_sep; lia).
  cbn [map v6Loop]. rewrite Hd, andb_false_r.
  rewrite bool_decide_false by (apply number_not_nil; lia).
  replace ((4 <? length (hex g))%nat) with false by (symmetry; apply Nat.ltb_ge, hex_length; lia).
  replace ((8 <=? length acc)%nat) with false by (symmetry; apply Nat.leb_gt; lia). cbn [orb].
  rewrite hexLoop_hex by done. rewrite IH; [by rewrite <- app_assoc|done|].
  rewrite length_app. simpl. lia.
Qed.

Lemma ipListParseV6Part_hexJoin gs allow :
  Forall isGroup gs -> (length gs <= 8)%nat -> ipListParseV6Part (hexJoin gs) allow = Some gs.
Proof.
  intros H Hl. unfold ipListParseV6Part. case_bool_decide as E.
  - by apply hexJoin_nil in E as ->.
  - rewrite splitOn_hexJoin by (try done; by intros ->). by rewrite v6Loop_hex.
Qed.

(** ** Finding the gap *)

Lemma indexOf_pair_app f s :
  58 ∉ f -> indexOf (u "::") (f ++ s) = (fun i => (length f + i)%nat) <$> indexOf (u "::") s.
Proof.
  induction f as [|x f IH]; intros H.
  - simpl. by destruct (indexOf _ s).
  - apply not_elem_of_cons in H as [Hx H]. simpl app.
    change (u "::") with [58; 58] in *. cbn [indexOf startsWith].
    destruct (Z.eqb_spec x 58); [congruence|]. simpl. rewrite IH by done.
    by destruct (indexOf [58; 58] s).
Qed.

Lemma indexOf_pair_colon c s :
  c <> 58 -> indexOf (u "::") (58 :: c :: s) = S <$> indexOf (u "::") (c :: s).
Proof.
  intros Hc. change (u "::") with [58; 58]. cbn [indexOf startsWith].
  by destruct (Z.eqb_spec c 58).
Qed.

Lemma hex_no_colon g : isGroup g -> 58 ∉ hex g.
Proof. intros. apply hex_no_sep; lia. Qed.

Lemma indexOf_hexJoin_None gs : Forall isGroup gs -> indexOf (u "::") (hexJoin gs) = None.
Proof.
  induction gs as [|g gs IH]; intros H; [done|]. apply Forall_cons in H as [Hg H].
  destruct gs as [|g' gs].
  - unfold hexJoin. simpl joinWith. rewrite <- (app_nil_r (hex g)).
    by rewrite indexOf_pair_app by by apply hex_no_colon.
  - rewrite hexJoin_cons, indexOf_pair_app by (try done; by apply hex_no_colon).
    destruct (hexJoin_head (g' :: gs) [] ltac:(done) H) as (c & t & E & Hc).
    rewrite app_nil_r in E. rewrite E, indexOf_pair_colon by done. rewrite <- E.
    by rewrite IH.
Qed.

Lemma indexOf_pair_here t : indexOf (u "::") (u "::" ++ t) = Some O.
Proof. by destruct t. Qed.

Lemma indexOf_hexJoin_gap gs t :
  Forall isGroup gs -> indexOf (u "::") (hexJoin gs ++ u "::" ++ t) = Some (length (hexJoin gs)).
Proof.
  induction gs as [|g gs IH]; intros H; [apply indexOf_pair_here|]. apply Forall_cons in H as [Hg H].
  destruct gs as [|g' gs].
  - unfold hexJoin. simpl joinWith. rewrite indexOf_pair_app by by apply hex_no_colon.
    rewrite indexOf_pair_here. cbn. f_equal. apply Nat.add_0_r.
  - rewrite hexJoin_cons, <- app_assoc, <- app_comm_cons by done.
    rewrite indexOf_pair_app by by apply hex_no_colon.
    destruct (hexJoin_head (g' :: gs) (u "::" ++ t) ltac:(done) H) as (c & t' & E & Hc).
    rewrite E, indexOf_pair_colon by done. rewrite <- E, IH by done.
    simpl. f_equal. rewrite length_app. simpl. lia.
Qed.

Lemma indexOf_after_gap gs :
  Forall isGroup gs -> indexOf (u "::") (58 :: hexJoin gs) = None.
Proof.
  intros H. destruct gs as [|g gs]; [done|].
  destruct (hexJoin_head (g :: gs) [] ltac:(done) H) as (c & t & E & Hc).
  rewrite app_nil_r in E. rewrite E, indexOf_pair_colon by done. rewrite <- E.
  by rewrite indexOf_hexJoin_None.
Qed.

Lemma v6Groups_plain gs :
  Forall isGroup gs -> length gs = 8%nat -> v6Groups (hexJoin gs) = Some gs.
Proof.
  intros H Hl. unfold v6Groups. rewrite indexOf_hexJoin_None by done.
  rewrite ipListParseV6Part_hexJoin by (try done; lia). by rewrite Hl.
Qed.

Lemma v6Groups_gap pre post :
  Forall isGroup pre -> Forall isGroup post -> (length pre + length post <= 6)%nat ->
  v6Groups (hexJoin pre ++ u "::" ++ hexJoin post) =
    Some (pre ++ replicate (8 - length pre - length post) 0 ++ post).
Proof.
  intros Hpre Hpost Hl. unfold v6Groups. rewrite indexOf_hexJoin_gap by done.
  set (n := length (hexJoin pre)).
  assert (E1 : drop (n + 1) (hexJoin pre ++ u "::" ++ hexJoin post) = 58 :: hexJoin post).
  { rewrite drop_app_ge by (unfold n; lia). by replace (n + 1 - length (hexJoin pre))%nat with 1%nat by (unfold n; lia). }
  assert (E2 : drop (n + 2) (hexJoin pre ++ u "::" ++ hexJoin post) = hexJoin post).
  { rewrite drop_app_ge by (unfold n; lia). by replace (n + 2 - length (hexJoin pre))%nat with 2%nat by (unfold n; lia). }
  assert (E3 : take n (hexJoin pre ++ u "::" ++ hexJoin post) = hexJoin pre)
    by (apply take_app_length).
  unfold contains. rewrite E1, E2, E3, indexOf_after_gap by done.
  rewrite !ipListParseV6Part_hexJoin by (try done; lia).
  by replace ((7 <? length pre + length post)%nat) with false by (symmetry; apply Nat.ltb_ge; lia).
Qed.

(** ** The zero run the printer compresses *)

(** [n] zero groups from index [a] on. *)
Definition zerosAt (gs : list Z) (a n : nat) : bool :=
  (a + n <=? length gs)%nat && forallb (fun g => g =? 0) (take n (drop a gs)).

(** [(bs, bl)] is the first longest run of two or more zero groups of [gs], or
    [(-1, 1)] when there is none. *)
Definition isBestRun (gs : list Z) (bs bl : Z) : bool :=
  (if bs =? -1 then bl =? 1
   else (0 <=? bs) && (2 <=? bl) && zerosAt gs (Z.to_nat bs) (Z.to_nat bl)) &&
  forallb (fun a => forallb (fun n =>
    negb (zerosAt gs a n) || (Z.of_nat n <? bl) || ((Z.of_nat n =? bl) && (bs <=? Z.of_nat a)))
    (seq 2 7)) (seq 0 8).

(** Only whether a group is zero matters, so the 256 patterns decide it. *)
Definition zeroBit (g : Z) : Z := if g =? 0 then 0 else 1.

Fixpoint bitLists (n : nat) : list (list Z) :=
  match n with
  | O => [[]]
  | S n => map (cons 0) (bitLists n) ++ map (cons 1) (bitLists n)
  end.

Lemma zeroBit_eqb g : (zeroBit g =? 0) = (g =? 0).
Proof. unfold zeroBit. by destruct (g =? 0). Qed.

Lemma zeroRun_bits gs : zeroRun (map zeroBit gs) = zeroRun gs.
Proof. induction gs as [|g gs IH]; [done|]. simpl. rewrite zeroBit_eqb. by rewrite IH. Qed.

Lemma bestRun_bits fuel i gs bs bl :
  bestRun fuel i (map zeroBit gs) bs bl = bestRun fuel i gs bs bl.
Proof.
  revert i gs bs bl. induction fuel as [|fuel IH]; intros i gs bs bl; [done|].
  destruct gs as [|g gs]; [done|]. simpl bestRun.
  rewrite zeroBit_eqb, zeroRun_bits. destruct (g =? 0); simpl; [|apply IH].
  rewrite skipn_map. case_ifs; apply IH.
Qed.

Lemma zerosAt_bits gs a n : zerosAt (map zeroBit gs) a n = zerosAt gs a n.
Proof.
  unfold zerosAt. rewrite length_map, skipn_map, firstn_map. f_equal.
  generalize (take n (drop a gs)). intros l. induction l as [|g l IH]; [done|].
  simpl. by rewrite zeroBit_eqb, IH.
Qed.

Lemma isBestRun_bits gs bs bl : isBestRun (map zeroBit gs) bs bl = isBestRun gs bs bl.
Proof.
  unfold isBestRun. rewrite zerosAt_bits. f_equal.
  apply forallb_ext. intros a. apply forallb_ext. intros n. by rewrite zerosAt_bits.
Qed.

Lemma bitLists_all gs n : length gs = n -> map zeroBit gs ∈ bitLists n.
Proof.
  revert gs. induction n as [|n IH]; intros gs Hl.
  - apply nil_length_inv in Hl as ->. by constructor.
  - destruct gs as [|g gs]; [done|]. injection Hl as Hl. simpl. apply elem_of_app.
    unfold zeroBit at 1 3. destruct (g =? 0); [left|right];
      apply list_elem_of_fmap; exists (map zeroBit gs); (split; [done|by apply IH]).
Qed.

Lemma bestRun_correct gs :
  length gs = 8%nat ->
  let '(bs, bl) := bestRun 8 0 gs (-1) 1 in isBestRun gs bs bl = true.
Proof.
  intros Hl.
  assert (H : forallb (fun p => let '(bs, bl) := bestRun 8 0 p (-1) 1 in isBestRun p bs bl) (bitLists 8) = true)
    by (vm_compute; reflexivity).
  rewrite forallb_forall in H. specialize (H (map zeroBit gs)).
  rewrite bestRun_bits in H. destruct (bestRun 8 0 gs (-1) 1) as [bs bl].
  rewrite isBestRun_bits in H. apply H. apply list_elem_of_In. by apply bitLists_all.
Qed.

Lemma forallb_zero l : forallb (fun g => g =? 0) l = true -> l = replicate (length l) 0.
Proof.
  induction l as [|g l IH]; simpl; intros H; [done|]. bool_to_prop. by rewrite H, <- IH.
Qed.

Lemma zerosAt_split gs a n :
  zerosAt gs a n = true -> gs = take a gs ++ replicate n 0 ++ drop (a + n) gs /\ (a + n <= length gs)%nat.
Proof.
  intros H. unfold zerosAt in H. bool_to_prop. apply Nat.leb_le in H. split; [|done].
  apply forallb_zero in H0. rewrite length_take, length_drop in H0.
  replace (n `min` (length gs - a))%nat with n in H0 by lia. rewrite <- H0.
  by rewrite <- drop_drop, take_drop, take_drop.
Qed.

(** ** The shape of the printed text *)

Definition appendGroup (out : qstring) (g : Z) : qstring :=
  (if negb (bool_decide (out = [])) && negb (endsWithChar out 58) then out ++ u ":" else out) ++ hex g.

Lemma formatLoop_segment seg fuel i rest bs bl out :
  (length seg <= fuel)%nat -> bs < i \/ i + Z.of_nat (length seg) <= bs ->
  formatLoop fuel i (seg ++ rest) bs bl out =
    formatLoop (fuel - length seg) (i + Z.of_nat (length seg)) rest bs bl (fold_left appendGroup seg out).
Proof.
  revert fuel i out. induction seg as [|g seg IH]; intros fuel i out Hf Hb; simpl length.
  - simpl. by rewrite Nat.sub_0_r, Z.add_0_r.
  - destruct fuel as [|fuel]; simpl length in *; [lia|]. simpl app. cbn [formatLoop].
    destruct (Z.eqb_spec i bs); [lia|].
    fold (appendGroup out g). rewrite IH by lia. f_equal; lia.
Qed.

Lemma formatLoop_nil fuel i bs bl out : formatLoop fuel i [] bs bl out = out.
Proof. by destruct fuel. Qed.

Definition openEnd (out : qstring) : Prop := out = [] \/ endsWithChar out 58 = true.

Lemma appendGroup_open out g : openEnd out -> appendGroup out g = out ++ hex g.
Proof.
  intros [->|H]; [done|]. unfold appendGroup. by rewrite H, andb_false_r.
Qed.

Lemma endsWithChar_app s c cs : cs <> [] -> endsWithChar (s ++ cs) c = endsWithChar cs c.
Proof.
  intros H. unfold endsWithChar. destruct cs as [|x cs _] using rev_ind; [done|].
  by rewrite app_assoc, !last_snoc.
Qed.

Lemma endsWithChar_not_in s c : c ∉ s -> endsWithChar s c = false.
Proof.
  intros H. unfold endsWithChar. destruct s as [|x s _] using rev_ind; [done|].
  rewrite last_snoc. apply Z.eqb_neq. intros ->. apply H. apply elem_of_app. right. by left.
Qed.

Lemma appendGroup_closed out g h :
  isGroup g -> appendGroup (out ++ hex g) h = out ++ hex g ++ 58 :: hex h.
Proof.
  intros Hg. unfold appendGroup.
  pose proof (number_not_nil 16 g ltac:(lia)) as Hn.
  rewrite bool_decide_false by (intros E; apply app_eq_nil in E as [_ E]; done).
  rewrite endsWithChar_app by done. rewrite endsWithChar_not_in by by apply hex_no_colon.
  simpl. by rewrite <- !app_assoc.
Qed.

(** From an open end the groups are appended colon-separated. *)
Lemma fold_appendGroup gs out :
  openEnd out -> Forall isGroup gs -> fold_left appendGroup gs out = out ++ hexJoin gs.
Proof.
  intros Ho H. destruct gs as [|g gs]; [by rewrite app_nil_r|].
  apply Forall_cons in H as [Hg H]. simpl. rewrite appendGroup_open by done.
  revert out g Hg Ho. induction gs as [|h gs IH]; intros out g Hg Ho; [done|].
  apply Forall_cons in H as [Hh H]. simpl fold_left.
  rewrite appendGroup_closed by done. rewrite hexJoin_cons by done.
  replace (out ++ hex g ++ 58 :: hex h) with ((out ++ hex g ++ [58]) ++ hex h) by (by rewrite <- !app_assoc).
  rewrite IH; [by rewrite <- !app_assoc|done|done|].
  right. rewrite endsWithChar_app by by destruct (hex g).
  by rewrite endsWithChar_app.
Qed.

(** What is printed: every group, or the groups around the first longest zero
    run with [::] in its place. *)
Lemma formatV6_shape gs :
  Forall isGroup gs -> length gs = 8%nat ->
  (formatV6 gs = hexJoin gs /\ forall a n, (2 <= n)%nat -> zerosAt gs a n = false) \/
  (exists a n, (2 <= n)%nat /\ zerosAt gs a n = true /\
     formatV6 gs = hexJoin (take a gs) ++ u "::" ++ hexJoin (drop (a + n) gs) /\
     forall a' n', zerosAt gs a' n' = true -> (2 <= n')%nat ->
       (n' < n)%nat \/ (n' = n /\ (a <= a')%nat)).
Proof.
  intros H Hl. unfold formatV6. pose proof (bestRun_correct gs Hl) as Hb.
  destruct (bestRun 8 0 gs (-1) 1) as [bs bl]. unfold isBestRun in Hb. bool_to_prop.
  assert (Hmax : forall a n, (2 <= n)%nat -> zerosAt gs a n = true ->
    Z.of_nat n < bl \/ (Z.of_nat n = bl /\ bs <= Z.of_nat a)).
  { intros a n Hn Hz. pose proof (zerosAt_split gs a n Hz) as [_ Hle].
    rewrite forallb_forall in H1. specialize (H1 a).
    rewrite forallb_forall in H1. specialize (H1 ltac:(apply in_seq; lia) n ltac:(apply in_seq; lia)).
    rewrite Hz in H1. simpl in H1. bool_to_prop. destruct H1; bool_to_prop; lia. }
  destruct (bs =? -1) eqn:Ebs; bool_to_prop; subst.
  - left. split.
    + rewrite <- (app_nil_r gs) at 1. rewrite formatLoop_segment by lia.
      rewrite formatLoop_nil. rewrite fold_appendGroup; [done|by left|done].
    + intros a n Hn. destruct (zerosAt gs a n) eqn:E; [|done].
      destruct (Hmax a n Hn E); lia.
  - right. exists (Z.to_nat bs), (Z.to_nat bl). split; [lia|]. split; [done|]. split.
    + destruct (zerosAt_split _ _ _ H2) as [E Hle].
      set (pre := take (Z.to_nat bs) gs). set (post := drop (Z.to_nat bs + Z.to_nat bl) gs).
      assert (Hpre : length pre = Z.to_nat bs) by (unfold pre; rewrite length_take; lia).
      assert (Hpost : length post = (8 - Z.to_nat bs - Z.to_nat bl)%nat)
        by (unfold post; rewrite length_drop; lia).
      rewrite E. fold pre post.
      rewrite formatLoop_segment by lia.
      rewrite (fold_appendGroup pre []) by first [by left|by apply Forall_take].
      replace (0 + Z.of_nat (length pre)) with bs by lia.
      destruct (Z.to_nat bl) as [|k] eqn:Ek; [lia|].
      destruct (8 - length pre)%nat as [|fuel] eqn:Ef; [lia|]. cbn [replicate app formatLoop].
      rewrite Z.eqb_refl. rewrite Ek. cbn [drop].
      rewrite drop_app_length' by by rewrite length_replicate.
      rewrite <- (app_nil_r post) at 1. rewrite formatLoop_segment by lia.
      rewrite formatLoop_nil, fold_appendGroup; [by rewrite <- app_assoc| |by apply Forall_drop].
      right. by rewrite endsWithChar_app.
    + intros a' n' Hz Hn'. destruct (Hmax a' n' Hn' Hz); [left|right]; lia.
Qed.

(** ** Packing *)

Lemma packGroups_value gs :
  Forall isGroup gs -> (length gs <= 4)%nat -> packGroups gs = value 65536 gs.
Proof.
  induction gs as [|g gs IH] using rev_ind; intros H Hl; [done|].
  apply Forall_app in H as [H Hg]. rewrite Forall_singleton in Hg.
  rewrite length_app in Hl. simpl in Hl.
  unfold packGroups. rewrite fold_left_app. simpl. fold (packGroups gs).
  rewrite IH by (try done; lia). rewrite value_snoc.
  pose proof (value_range 65536 ltac:(lia) gs H) as Hv.
  assert (Hb : value 65536 gs < 65536 ^ 3).
  { eapply Z.lt_le_trans; [apply Hv|]. apply Z.pow_le_mono_r; lia. }
  rewrite wrap_small by (rewrite Z.shiftl_mul_pow2 by lia; lia).
  by rewrite lor_disjoint by lia.
Qed.

Lemma half_groups h :
  0 <= h < 2 ^ 64 ->
  let gs := map (fun i => u16 (Z.shiftr h (48 - 16 * i))) [0; 1; 2; 3] in
  Forall isGroup gs /\ value 65536 gs = h.
Proof.
  intros Hh gs. split.
  - unfold gs. repeat constructor; unfold isGroup; apply (wrap_range 16); lia.
  - unfold gs, value, wrap. simpl. rewrite !Z.shiftr_div_pow2 by lia.
    change (2 ^ (48 - 16 * 0)) with (65536 * 65536 * 65536).
    change (2 ^ (48 - 16 * 1)) with (65536 * 65536). change (2 ^ (48 - 16 * 2)) with 65536.
    change (2 ^ (48 - 16 * 3)) with 1. change (2 ^ 16) with 65536.
    rewrite <- !Z.div_div by lia. rewrite Z.div_1_r.
    rewrite (Z.mod_small (h / 65536 / 65536 / 65536)) by
      (rewrite !Z.div_div by lia; split; [apply Z.div_pos; lia|apply Z.div_lt_upper_bound; lia]).
    pose proof (Z.div_mod h 65536). pose proof (Z.div_mod (h / 65536) 65536).
    pose proof (Z.div_mod (h / 65536 / 65536) 65536). lia.
Qed.

(** ** The round trip *)

(** What the readers produce: the halves in range, IPv4 in the low 32 bits. *)
Definition wfAddr (a : IpListParseAddr) : Prop :=
  if v6 a then 0 <= hi a < 2 ^ 64 /\ 0 <= lo a < 2 ^ 64 else hi a = 0 /\ 0 <= lo a < 2 ^ 32.

Lemma groupsOf_spec a :
  wfAddr a -> v6 a = true ->
  Forall isGroup (groupsOf a) /\ length (groupsOf a) = 8%nat /\
  packGroups (take 4 (groupsOf a)) = hi a /\ packGroups (drop 4 (groupsOf a)) = lo a.
Proof.
  intros H Hv. unfold wfAddr in H. rewrite Hv in H. destruct H as [Hh Hl].
  destruct (half_groups _ Hh) as [H1 H2], (half_groups _ Hl) as [H3 H4].
  unfold groupsOf. rewrite take_app_length', drop_app_length' by done.
  split; [by apply Forall_app|]. split; [done|].
  rewrite !packGroups_value by (try done; simpl; lia). done.
Qed.

Lemma v6Groups_formatV6 gs :
  Forall isGroup gs -> length gs = 8%nat -> v6Groups (formatV6 gs) = Some gs.
Proof.
  intros H Hl. destruct (formatV6_shape gs H Hl) as [[-> _]|(a & n & Hn & Hz & -> & _)].
  - by apply v6Groups_plain.
  - destruct (zerosAt_split _ _ _ Hz) as [E Hle].
    rewrite v6Groups_gap; [|by apply Forall_take|by apply Forall_drop|rewrite length_take, length_drop; lia].
    rewrite length_take, length_drop.
    replace (8 - a `min` length gs - (length gs - (a + n)))%nat with n by lia.
    by rewrite <- E.
Qed.

Lemma hexJoin_chars gs :
  Forall isGroup gs -> Forall (fun c => 48 <= c <= 58 \/ 97 <= c <= 102) (hexJoin gs).
Proof.
  induction gs as [|g gs IH]; intros H; [by constructor|]. apply Forall_cons in H as [Hg H].
  assert (Hc : Forall (fun c => 48 <= c <= 58 \/ 97 <= c <= 102) (hex g)).
  { eapply Forall_impl; [apply (number_chars 16 g); lia|]. intros c Hc. simpl in *. lia. }
  destruct gs as [|g' gs]; [done|]. rewrite hexJoin_cons by done.
  apply Forall_app. split; [done|]. constructor; [lia|by apply IH].
Qed.

Lemma formatV6_chars gs :
  Forall isGroup gs -> length gs = 8%nat ->
  Forall (fun c => 48 <= c <= 58 \/ 97 <= c <= 102) (formatV6 gs) /\ 58 ∈ formatV6 gs /\
  exists c t, formatV6 gs = c :: t.
Proof.
  intros H Hl. destruct (formatV6_shape gs H Hl) as [[E _]|(a & n & _ & _ & E & _)]; rewrite E.
  - split; [by apply hexJoin_chars|]. destruct gs as [|g [|g' gs]]; [done..|].
    rewrite hexJoin_cons by done. split; [apply elem_of_app; right; by left|].
    destruct (hex g); simpl; eauto.
  - split; [|split].
    + apply Forall_app. split; [by apply hexJoin_chars, Forall_take|].
      apply Forall_app. split; [repeat constructor; cbn; lia|]. by apply hexJoin_chars, Forall_drop.
    + apply elem_of_app. right. by left.
    + destruct (hexJoin (take a gs)); simpl; eauto.
Qed.

(** The printed address is read back. *)
Lemma address_roundtrip a :
  wfAddr a -> ipListParseAddress (ipListParseFormat a) = Some a.
Proof.
  intros H. unfold ipListParseFormat. destruct (v6 a) eqn:Hv; simpl negb; cbn iota.
  - destruct (groupsOf_spec a H Hv) as (Hg & Hl & Hhi & Hlo).
    destruct (formatV6_chars _ Hg Hl) as (Hc & Hcol & _).
    unfold ipListParseAddress. rewrite (proj2 (containsChar_spec _ _) Hcol).
    rewrite (proj2 (indexOfChar_None 37 _)).
    + unfold ipListParseV6. rewrite v6Groups_formatV6, Hhi, Hlo by done.
      destruct a as [[] h l]; [done|by simpl in Hv].
    + intros Hin. rewrite Forall_forall in Hc. apply Hc in Hin. lia.
  - unfold wfAddr in H. rewrite Hv in H. destruct H as [Hh Hl].
    rewrite wrap_small by done. unfold ipListParseAddress.
    replace (containsChar (formatV4 (lo a)) 58) with false.
    + rewrite (proj2 (v4_accepts_iff _ _) (conj Hl eq_refl)).
      destruct a as [b h l]. simpl in *. by subst.
    + symmetry. apply containsChar_false. intros Hin.
      pose proof (formatV4_chars (lo a) ltac:(lia)) as Hc. rewrite Forall_forall in Hc.
      apply Hc in Hin. lia.
Qed.

(** ** What the reader returns is in range *)

Lemma u16_group z : isGroup (u16 z).
Proof. apply (wrap_range 16). lia. Qed.

Lemma v6Loop_range fields allow acc gs :
  Forall isGroup acc -> v6Loop fields allow acc = Some gs -> Forall isGroup gs.
Proof.
  revert acc. induction fields as [|f fields IH]; intros acc Ha H; simpl in H; [by injection H as <-|].
  destruct (_ && containsChar f 46).
  - case_ifs_in H; [done|]. destruct (ipListParseV4 f); [|done]. injection H as <-.
    apply Forall_app. split; [done|]. repeat constructor; apply u16_group.
  - destruct (_ || _); [done|]. destruct (hexLoop 0 f) eqn:E; [|done].
    apply IH in H; [done|]. apply Forall_app. split; [done|].
    apply Forall_singleton. apply (hexLoop_range f 0); [lia|done].
Qed.

Lemma ipListParseV6Part_range text allow gs :
  ipListParseV6Part text allow = Some gs -> Forall isGroup gs.
Proof.
  unfold ipListParseV6Part. case_ifs; intros H; [by injection H as <-|].
  by eapply v6Loop_range in H.
Qed.

Lemma v6Groups_range text gs :
  v6Groups text = Some gs -> Forall isGroup gs /\ length gs = 8%nat.
Proof.
  unfold v6Groups. destruct (indexOf _ text) as [gap|].
  - destruct (contains _ _); [done|].
    destruct (ipListParseV6Part (take gap text) false) as [h|] eqn:Eh; [|done].
    destruct (ipListParseV6Part (drop (gap + 2) text) true) as [t|] eqn:Et; [|done].
    intros H. case_ifs_in H; [done|]. injection H as <-. apply Nat.ltb_ge in Heqb. split.
    + apply Forall_app. split; [by eapply ipListParseV6Part_range|].
      apply Forall_app. split; [|by eapply ipListParseV6Part_range].
      apply Forall_replicate. lia.
    + rewrite !length_app, length_replicate. lia.
  - destruct (ipListParseV6Part text true) as [h|] eqn:Eh; [|done].
    intros H. case_ifs_in H; [|done]. injection H as <-. apply Nat.eqb_eq in Heqb.
    split; [by eapply ipListParseV6Part_range|done].
Qed.

Lemma packGroups_range gs :
  Forall isGroup gs -> length gs = 4%nat -> 0 <= packGroups gs < 2 ^ 64.
Proof.
  intros H Hl. rewrite packGroups_value by (try done; lia).
  pose proof (value_range 65536 ltac:(lia) gs H) as Hv. by rewrite Hl in Hv.
Qed.

Lemma ipListParseAddress_wf text a : ipListParseAddress text = Some a -> wfAddr a.
Proof.
  unfold ipListParseAddress. destruct (containsChar text 58).
  - set (t := match indexOfChar 37 text with Some zone => take zone text | None => text end).
    unfold ipListParseV6. destruct (v6Groups t) as [gs|] eqn:E; [|done].
    intros [= <-]. apply v6Groups_range in E as [Hg Hl]. unfold wfAddr. simpl.
    split; apply packGroups_range; rewrite ?length_take, ?length_drop; try lia;
      [by apply Forall_take|by apply Forall_drop].
  - destruct (ipListParseV4 text) as [v|] eqn:E; [|done]. intros [= <-].
    apply v4_accepts_iff in E as [Hv _]. done.
Qed.
