(* ===== verification/IpNetwork.v ===== *)
(** * IpNetwork: networks, their canonical text and their size

    Facts about [ipListParseMask], [ipListParseNetwork], [NormalizeCidr] and
    [AddressCount] (IpAddress.v). *)

From S2P Require Import Prelude Text IpAddress IpV4 IpV6.

(** The address as one number of [bits] bits. *)
Definition addrValue (a : IpListParseAddr) : Z := hi a * 2 ^ 64 + lo a.

(** A network as the parser returns it. *)
Definition wfNetwork (a : IpListParseAddr) (p : Z) : Prop :=
  wfAddr a /\ 1 <= p <= ipListParseBits a /\ ipListParseMask a p = a /\
  (ipListParseIsMapped a = true -> p < 96).

(** ** Masking *)

Lemma mask_spec a p :
  wfAddr a -> 1 <= p <= ipListParseBits a ->
  ipListParseMask a p =
    let n := ipListParseBits a - p in
    if v6 a then
      if 64 <=? n then Addr true (hi a / 2 ^ (n - 64) * 2 ^ (n - 64)) 0
      else Addr true (hi a) (lo a / 2 ^ n * 2 ^ n)
    else Addr false (hi a) (lo a / 2 ^ n * 2 ^ n).
Proof.
  intros H Hp. unfold wfAddr in H. unfold ipListParseMask, ipListParseBits in *.
  destruct (v6 a) eqn:Hv; cbn [negb]; cbv zeta.
  - destruct H as [Hh Hl].
    destruct (Z.ltb_spec p 64).
    + replace (64 <=? 128 - p) with true by (symmetry; apply Z.leb_le; lia).
      destruct (Z.eqb_spec p 0); [lia|]. unfold onesShl.
      rewrite land_high_mask by lia. by replace (128 - p - 64) with (64 - p) by lia.
    + destruct (Z.eqb_spec p 64) as [->|].
      * change (64 <=? 128 - 64) with true. change (2 ^ (128 - 64 - 64)) with 1.
        by rewrite Z.div_1_r, Z.mul_1_r.
      * replace (64 <=? 128 - p) with false by (symmetry; apply Z.leb_gt; lia).
        destruct (Z.ltb_spec p 128).
        -- unfold onesShl. by rewrite land_high_mask by lia.
        -- replace (128 - p) with 0 by lia. rewrite Z.pow_0_r, Z.div_1_r, Z.mul_1_r.
           by destruct a; simpl in *; subst.
  - destruct H as [Hh Hl]. f_equal.
    replace (Z.land (u64 (Z.shiftl 4294967295 (32 - p))) 4294967295) with
      (wrap 32 (Z.shiftl (2 ^ 32 - 1) (32 - p))); [by apply land_high_mask; lia|].
    change 4294967295 with (Z.ones 32). rewrite Z.land_ones by lia. unfold wrap.
    rewrite <- (Z.mod_mod_divide _ (2 ^ 64) (2 ^ 32)); [done|]. by exists (2 ^ 32).
Qed.

Lemma floor_floor x k : 0 <= k -> x / 2 ^ k * 2 ^ k / 2 ^ k * 2 ^ k = x / 2 ^ k * 2 ^ k.
Proof. intros Hk. by rewrite Z.div_mul by lia. Qed.

Lemma mask_shape a p :
  wfAddr a -> 1 <= p <= ipListParseBits a ->
  v6 (ipListParseMask a p) = v6 a /\ wfAddr (ipListParseMask a p).
Proof.
  intros H Hp. rewrite mask_spec by done. cbv zeta. unfold wfAddr, ipListParseBits in *.
  destruct (v6 a) eqn:Hv.
  - destruct (Z.leb_spec 64 (128 - p)); simpl; (split; [done|]); split;
      try apply floor_mul_range; lia.
  - simpl. split; [done|]. split; [apply H|]. apply floor_mul_range; lia.
Qed.

Lemma mask_idempotent a p :
  wfAddr a -> 1 <= p <= ipListParseBits a ->
  ipListParseMask (ipListParseMask a p) p = ipListParseMask a p.
Proof.
  intros H Hp. destruct (mask_shape a p H Hp) as [Hv Hw].
  assert (Hb : ipListParseBits (ipListParseMask a p) = ipListParseBits a)
    by (unfold ipListParseBits; by rewrite Hv).
  rewrite (mask_spec (ipListParseMask a p)) by (rewrite ?Hb; done).
  rewrite Hb, Hv. clear Hb Hv Hw. rewrite mask_spec by done. cbv zeta.
  unfold ipListParseBits in *. destruct (v6 a).
  - destruct (Z.leb_spec 64 (128 - p)); simpl; by rewrite floor_floor by lia.
  - simpl. by rewrite floor_floor by lia.
Qed.

(** The mask is the largest multiple of the network's size below the address. *)
Lemma mask_value a p :
  wfAddr a -> 1 <= p <= ipListParseBits a ->
  let size := 2 ^ (ipListParseBits a - p) in
  addrValue (ipListParseMask a p) = addrValue a / size * size.
Proof.
  intros H Hp size. subst size. rewrite mask_spec by done. cbv zeta.
  unfold wfAddr, ipListParseBits, addrValue in *. destruct (v6 a).
  - set (n := 128 - p) in *. destruct H as [Hh Hl].
    destruct (Z.leb_spec 64 n); cbn [hi lo].
    + assert (E : 2 ^ n = 2 ^ 64 * 2 ^ (n - 64)) by (rewrite <- Z.pow_add_r by lia; f_equal; lia).
      rewrite E, <- Z.div_div by lia. rewrite Z.div_add_l by lia.
      rewrite (Z.div_small (lo a)), !Z.add_0_r by lia. by rewrite <- Z.mul_assoc, (Z.mul_comm (2 ^ 64)).
    + assert (E : 2 ^ 64 = 2 ^ (64 - n) * 2 ^ n) by (rewrite <- Z.pow_add_r by lia; f_equal; lia).
      assert (E2 : (hi a * 2 ^ 64 + lo a) / 2 ^ n = hi a * 2 ^ (64 - n) + lo a / 2 ^ n)
        by (rewrite E, Z.mul_assoc, Z.div_add_l by lia; done).
      by rewrite E2, Z.mul_add_distr_r, <- Z.mul_assoc, <- E.
  - simpl. destruct H as [-> Hl]. by rewrite !Z.mul_0_l, !Z.add_0_l.
Qed.

Lemma shiftr_floor x k j : 0 <= k <= j -> Z.shiftr (x / 2 ^ k * 2 ^ k) j = Z.shiftr x j.
Proof.
  intros H. rewrite !Z.shiftr_div_pow2 by lia.
  assert (E : 2 ^ j = 2 ^ k * 2 ^ (j - k)) by (rewrite <- Z.pow_add_r by lia; f_equal; lia).
  rewrite E, <- !Z.div_div by lia. by rewrite Z.div_mul by lia.
Qed.

(** Masking at 96 bits or more keeps what makes an address IPv4-mapped. *)
Lemma mask_mapped a p :
  wfAddr a -> 96 <= p <= ipListParseBits a ->
  ipListParseIsMapped (ipListParseMask a p) = ipListParseIsMapped a.
Proof.
  intros H Hp. rewrite mask_spec by (done || lia). unfold ipListParseIsMapped, ipListParseBits in *.
  destruct (v6 a) eqn:Hv; [|lia]. cbv zeta.
  destruct (Z.leb_spec 64 (128 - p)); [lia|]. cbn [v6 hi lo]. by rewrite shiftr_floor by lia.
Qed.

(** ** Reading networks *)

Lemma parsePrefix_range t bits p : 0 <= bits -> parsePrefix t bits = Some p -> 0 <= p <= bits.
Proof.
  intros Hb. unfold parsePrefix. destruct t as [t|]; [|intros [= <-]; lia].
  destruct (ipListParseDecimal t 3) eqn:E; [|done]. apply ipListParseDecimal_range in E; [|lia].
  intros H. case_ifs_in H; [done|]. injection H as <-. bool_to_prop. lia.
Qed.

Lemma unmapNetwork_spec a p :
  wfAddr a -> 0 <= p <= ipListParseBits a ->
  let '(a', p') := unmapNetwork a p in
  wfAddr a' /\ 0 <= p' <= ipListParseBits a' /\ (ipListParseIsMapped a' = true -> p' < 96).
Proof.
  intros H Hp. unfold unmapNetwork. destruct (_ && _) eqn:E.
  - unfold ipListParseIsMapped in E. bool_to_prop. unfold wfAddr, ipListParseBits in *.
    rewrite H0 in *. split; [|split; [simpl; lia|done]]. simpl. split; [done|].
    change 4294967295 with (Z.ones 32). rewrite Z.land_ones by lia. apply Z.mod_pos_bound. lia.
  - split; [done|]. split; [done|]. intros Hm. rewrite Hm in E. simpl in E. bool_to_prop. lia.
Qed.

Section WithText.
Context `{Q : QtText} {L : QtTextLaws Q}.

Lemma ipListParseNetwork_wf text a p : ipListParseNetwork text = Some (a, p) -> wfNetwork a p.
Proof.
  unfold ipListParseNetwork. destruct (splitBracket _) as [[b s]|]; [|done].
  destruct (splitPrefix b s) as [[b' t]|]; [|done].
  destruct (ipListParseAddress b') as [a0|] eqn:Ea; [|done]. apply ipListParseAddress_wf in Ea.
  destruct (parsePrefix _ _) as [p0|] eqn:Ep; [|done].
  apply parsePrefix_range in Ep; [|unfold ipListParseBits; destruct (v6 a0); lia].
  pose proof (unmapNetwork_spec a0 p0 Ea Ep) as Hu.
  destruct (unmapNetwork a0 p0) as [a1 p1]. destruct Hu as (H1 & H2 & H3).
  destruct (Z.eqb_spec p1 0); [done|]. intros [= <- <-].
  destruct (mask_shape a1 p1 H1 ltac:(lia)) as [Hv Hw].
  assert (Hb : ipListParseBits (ipListParseMask a1 p1) = ipListParseBits a1)
    by (unfold ipListParseBits; by rewrite Hv).
  split; [done|]. split; [lia|]. split; [apply mask_idempotent; [done|lia]|].
  intros Hm. destruct (Z_lt_le_dec p1 96) as [|Hge]; [done|].
  rewrite mask_mapped in Hm by (done || lia). by apply H3.
Qed.

(** ** Canonical texts are read back *)

(** The characters of a printed network. *)
Definition cidrChar (c : qchar) : Prop := 46 <= c <= 58 \/ 97 <= c <= 102.

Lemma cidrChar_not_space c : cidrChar c -> isSpace c = false.
Proof.
  intros Hc. unfold cidrChar in Hc. rewrite isSpace_ascii by lia.
  apply orb_false_iff. rewrite Z.eqb_neq, andb_false_iff, !Z.leb_gt. lia.
Qed.

Lemma format_chars a :
  wfAddr a ->
  Forall (fun c => cidrChar c /\ c <> 47) (ipListParseFormat a) /\ ipListParseFormat a <> [] /\
  (containsChar (ipListParseFormat a) 58 = v6 a).
Proof.
  intros H. unfold ipListParseFormat, wfAddr in *. destruct (v6 a) eqn:Hv; cbn [negb].
  - destruct (groupsOf_spec a) as (Hg & Hl & _); [by unfold wfAddr; rewrite Hv|done|].
    destruct (formatV6_chars _ Hg Hl) as (Hc & Hcol & c & t & E). split; [|split].
    + eapply Forall_impl; [exact Hc|]. intros x Hx. unfold cidrChar. simpl in *. lia.
    + by rewrite E.
    + by apply containsChar_spec.
  - destruct H as [_ Hl]. rewrite wrap_small by done.
    pose proof (formatV4_chars (lo a) ltac:(lia)) as Hc. split; [|split].
    + eapply Forall_impl; [exact Hc|]. intros x Hx. unfold cidrChar. simpl in *. lia.
    + unfold formatV4. intros E. by apply app_eq_nil in E as [_ E].
    + apply containsChar_false. intros Hin. rewrite Forall_forall in Hc. apply Hc in Hin. lia.
Qed.

Lemma cidr_chars a p :
  wfAddr a -> 1 <= p -> Forall cidrChar (ipListParseCidr a p).
Proof.
  intros H Hp. destruct (format_chars a H) as (Hf & _ & _).
  assert (Hf' : Forall cidrChar (ipListParseFormat a))
    by (eapply Forall_impl; [exact Hf|]; by intros c [Hc _]).
  unfold ipListParseCidr. destruct (_ <=? p); [done|].
  rewrite !Forall_app. split; [done|]. split.
  - apply Forall_singleton. unfold cidrChar. simpl. lia.
  - eapply Forall_impl; [apply number_decimal_chars; lia|]. intros c Hc. unfold cidrChar. simpl in *. lia.
Qed.

Lemma startsWith_bracket s : Forall cidrChar s -> startsWith s (u "[") = false.
Proof.
  intros H. destruct s as [|c s]; [done|]. apply Forall_cons in H as [Hc _].
  change (u "[") with [91]. cbn [startsWith]. unfold cidrChar in Hc.
  destruct (Z.eqb_spec c 91); [lia|done].
Qed.

Lemma splitPrefix_cidr a p :
  wfAddr a -> 1 <= p <= ipListParseBits a ->
  splitPrefix (ipListParseCidr a p) [] =
    Some (ipListParseFormat a, if ipListParseBits a <=? p then None else Some (number 10 p)).
Proof.
  intros H Hp. destruct (format_chars a H) as (Hf & _ & _).
  assert (Hn : 47 ∉ ipListParseFormat a)
    by (intros Hin; rewrite Forall_forall in Hf; by apply Hf in Hin as [_ Hin]).
  unfold splitPrefix, ipListParseCidr. destruct (_ <=? p).
  - by rewrite (proj2 (indexOfChar_None _ _) Hn).
  - change (u "/") with [47]. simpl app. rewrite indexOfChar_app by done. simpl.
    rewrite take_app_length. rewrite drop_app_ge by lia.
    by replace (length (ipListParseFormat a) + 1 - length (ipListParseFormat a))%nat with 1%nat by lia.
Qed.

(** The printed text of a network is read back as that network. *)
Lemma network_roundtrip a p :
  wfNetwork a p -> ipListParseNetwork (ipListParseCidr a p) = Some (a, p).
Proof.
  intros (H & Hp & Hm & Hmap). unfold ipListParseNetwork.
  rewrite trimmed_no_space by
    (eapply Forall_impl; [apply (cidr_chars a p); [done|lia]|exact cidrChar_not_space]).
  unfold splitBracket. rewrite startsWith_bracket by (apply cidr_chars; [done|lia]).
  rewrite splitPrefix_cidr, address_roundtrip by done.
  assert (Hpp : parsePrefix (if ipListParseBits a <=? p then None else Some (number 10 p))
                  (ipListParseBits a) = Some p).
  { destruct (Z.leb_spec (ipListParseBits a) p); simpl; [f_equal; lia|].
    rewrite ipListParseDecimal_number by (unfold ipListParseBits in *; destruct (v6 a); lia).
    by destruct (Z.ltb_spec (ipListParseBits a) p); [lia|]. }
  rewrite Hpp. unfold unmapNetwork.
  replace (ipListParseIsMapped a && (96 <=? p)) with false.
  - destruct (Z.eqb_spec p 0); [lia|]. by rewrite Hm.
  - symmetry. apply andb_false_iff. destruct (ipListParseIsMapped a); [right|by left].
    apply Z.leb_gt. by apply Hmap.
Qed.

(** The slash of a printed network, if any. *)
Lemma cidr_slash a p :
  wfAddr a ->
  indexOfChar 47 (ipListParseCidr a p) =
    (if ipListParseBits a <=? p then None else Some (length (ipListParseFormat a))) /\
  (p < ipListParseBits a ->
   take (length (ipListParseFormat a)) (ipListParseCidr a p) = ipListParseFormat a /\
   drop (length (ipListParseFormat a) + 1) (ipListParseCidr a p) = number 10 p).
Proof.
  intros H. destruct (format_chars a H) as (Hf & _ & _).
  assert (Hn : 47 ∉ ipListParseFormat a)
    by (intros Hin; rewrite Forall_forall in Hf; by apply Hf in Hin as [_ Hin]).
  unfold ipListParseCidr. destruct (Z.leb_spec (ipListParseBits a) p).
  - split; [by apply indexOfChar_None|lia].
  - change (u "/") with [47]. simpl app. split; [by apply indexOfChar_app|]. intros _.
    rewrite take_app_length, drop_app_ge by lia.
    by replace (length (ipListParseFormat a) + 1 - length (ipListParseFormat a))%nat with 1%nat by lia.
Qed.

Lemma cidr_not_nil a p : wfAddr a -> ipListParseCidr a p <> [].
Proof.
  intros H E. destruct (format_chars a H) as (_ & Hne & _). apply Hne.
  unfold ipListParseCidr in E. destruct (_ <=? p); [done|]. by apply app_eq_nil in E as [E _].
Qed.

Lemma network_bits a p : wfNetwork a p -> ipListParseBits a = 32 \/ ipListParseBits a = 128.
Proof. unfold ipListParseBits. destruct (v6 a); auto. Qed.

Lemma IsHostCidr_cidr a p : wfNetwork a p -> IsHostCidr (ipListParseCidr a p) = (ipListParseBits a <=? p).
Proof.
  intros (H & Hp & _). destruct (cidr_slash a p H) as [Es Hs].
  unfold IsHostCidr. rewrite bool_decide_false by by apply cidr_not_nil.
  rewrite Es. destruct (Z.leb_spec (ipListParseBits a) p) as [|Hlt]; [done|].
  destruct (Hs Hlt) as [-> ->]. destruct (format_chars a H) as (_ & _ & ->).
  apply bool_decide_eq_false. intros E.
  assert (Hv : p = if v6 a then 128 else 32).
  { assert (Hr : ipListParseDecimal (number 10 p) 3 = Some p)
      by (apply ipListParseDecimal_number; unfold ipListParseBits in *; destruct (v6 a); lia).
    rewrite E in Hr. destruct (v6 a); vm_compute in Hr; congruence. }
  unfold ipListParseBits in Hlt. destruct (v6 a); lia.
Qed.

(** ** Properties *)

(** [NormalizeCidr] returns nothing exactly when the network reader
    refuses the text; otherwise its result is canonical: reading it gives the
    same masked network, and normalizing it again gives the same text. *)
Theorem NormalizeCidr_canonical text :
  (NormalizeCidr text = [] <-> ipListParseNetwork text = None) /\
  NormalizeCidr (NormalizeCidr text) = NormalizeCidr text /\
  (NormalizeCidr text <> [] -> ipListParseNetwork (NormalizeCidr text) = ipListParseNetwork text).
Proof.
  unfold NormalizeCidr at 1 3 4 5 6. destruct (ipListParseNetwork text) as [[a p]|] eqn:E.
  - apply ipListParseNetwork_wf in E. pose proof (network_roundtrip a p E) as Hr.
    destruct E as (H & _). split; [|split].
    + split; [|done]. intros Hc. by apply cidr_not_nil in Hc.
    + unfold NormalizeCidr. by rewrite Hr.
    + done.
  - split; [done|]. split; [|done]. unfold NormalizeCidr. by vm_compute.
Qed.

(** On a canonical text [AddressCount] is the number of addresses of
    the network, saturated at 2^63, and [IsHostCidr] recognises the networks
    of one address. *)
Theorem AddressCount_network text a p :
  ipListParseNetwork text = Some (a, p) ->
  AddressCount (NormalizeCidr text) = Z.min (2 ^ 63) (2 ^ (ipListParseBits a - p)) /\
  (IsHostCidr (NormalizeCidr text) = true <-> p = ipListParseBits a).
Proof.
  intros E. unfold NormalizeCidr. rewrite E. apply ipListParseNetwork_wf in E.
  pose proof (network_bits a p E) as Hb. rewrite IsHostCidr_cidr by done.
  destruct E as (H & Hp & _). split; [|rewrite Z.leb_le; lia].
  destruct (cidr_slash a p H) as [Es Hs].
  unfold AddressCount. rewrite bool_decide_false by by apply cidr_not_nil. rewrite Es.
  destruct (Z.leb_spec (ipListParseBits a) p) as [|Hlt].
  { replace (ipListParseBits a - p) with 0 by lia. done. }
  destruct (Hs Hlt) as [-> ->]. destruct (format_chars a H) as (_ & _ & ->).
  rewrite ipListParseDecimal_number by lia. fold (ipListParseBits a).
  destruct (Z.ltb_spec (ipListParseBits a) p); [lia|]. cbv zeta.
  set (n := ipListParseBits a - p) in *. destruct (Z.leb_spec 63 n).
  - rewrite Z.min_l by (apply Z.pow_le_mono_r; lia). done.
  - rewrite Z.min_r by (apply Z.pow_le_mono_r; lia). rewrite Z.shiftl_1_l.
    apply wrap_small. split; [lia|]. apply Z.pow_lt_mono_r; lia.
Qed.
End WithText.

Example NormalizeCidr_canonical_witness :
  NormalizeCidr (Q := asciiText) (u " [2001:DB8:0:0::1]/32 ") = u "2001:db8::/32" /\
  NormalizeCidr (Q := asciiText) (NormalizeCidr (Q := asciiText) (u " [2001:DB8:0:0::1]/32 ")) =
    NormalizeCidr (Q := asciiText) (u " [2001:DB8:0:0::1]/32 ").
Proof.
  split; [vm_compute; reflexivity|].
  exact (proj1 (proj2 (NormalizeCidr_canonical (L := asciiTextLaws) (u " [2001:DB8:0:0::1]/32 ")))).
Defined.

Example AddressCount_network_witness :
  ipListParseNetwork (u "10.1.2.3/8") = Some (Addr false 0 167772160, 8) /\
  AddressCount (NormalizeCidr (u "10.1.2.3/8")) = Z.min (2 ^ 63) (2 ^ (32 - 8)).
Proof.
  assert (E : ipListParseNetwork (u "10.1.2.3/8") = Some (Addr false 0 167772160, 8))
    by (vm_compute; reflexivity).
  split; [exact E|]. exact (proj1 (AddressCount_network (u "10.1.2.3/8") _ _ E)).
Defined.

(** The text [ipListParseFormat] prints for an address is read back as
    that address; for IPv6 it is the RFC 5952 form: lower-case groups without
    leading zeros, with [::] in place of the first longest run of at least two
    zero groups, or all eight groups when there is no such run. *)
Theorem ipListParseFormat_roundtrip a :
  wfAddr a ->
  ipListParseAddress (ipListParseFormat a) = Some a /\
  (v6 a = true ->
   let gs := groupsOf a in
   (ipListParseFormat a = hexJoin gs /\ forall i n, (2 <= n)%nat -> zerosAt gs i n = false) \/
   (exists i n, (2 <= n)%nat /\ zerosAt gs i n = true /\
      ipListParseFormat a = hexJoin (take i gs) ++ u "::" ++ hexJoin (drop (i + n) gs) /\
      forall i' n', zerosAt gs i' n' = true -> (2 <= n')%nat ->
        (n' < n)%nat \/ (n' = n /\ (i <= i')%nat))).
Proof.
  intros H. split; [by apply address_roundtrip|]. intros Hv. cbv zeta.
  destruct (groupsOf_spec a H Hv) as (Hg & Hl & _).
  unfold ipListParseFormat. rewrite Hv. by apply formatV6_shape.
Qed.

Example ipListParseFormat_roundtrip_witness :
  ipListParseFormat (Addr true (8193 * 2 ^ 48) 1) = u "2001::1" /\
  ipListParseAddress (ipListParseFormat (Addr true (8193 * 2 ^ 48) 1)) = Some (Addr true (8193 * 2 ^ 48) 1).
Proof.
  split; [vm_compute; reflexivity|].
  refine (proj1 (ipListParseFormat_roundtrip (Addr true (8193 * 2 ^ 48) 1) _)).
  unfold wfAddr. simpl. lia.
Defined.

(** Masking gives the network's first address: it keeps the family,
    stays an address of it, and is the largest multiple of the network's size
    that is not above the address; masking again changes nothing. *)
Theorem ipListParseMask_floor a p :
  wfAddr a -> 1 <= p <= ipListParseBits a ->
  let size := 2 ^ (ipListParseBits a - p) in
  v6 (ipListParseMask a p) = v6 a /\ wfAddr (ipListParseMask a p) /\
  (size | addrValue (ipListParseMask a p)) /\
  addrValue (ipListParseMask a p) <= addrValue a < addrValue (ipListParseMask a p) + size /\
  ipListParseMask (ipListParseMask a p) p = ipListParseMask a p.
Proof.
  intros H Hp size. destruct (mask_shape a p H Hp) as [Hv Hw].
  pose proof (mask_value a p H Hp) as Hm. cbv zeta in Hm. fold size in Hm.
  assert (Hs : 0 < size) by (unfold size; lia).
  split_and!; try done; rewrite ?Hm.
  - apply Z.divide_factor_r.
  - pose proof (Z.mul_div_le (addrValue a) size Hs). lia.
  - pose proof (Z.mul_succ_div_gt (addrValue a) size Hs). lia.
  - by apply mask_idempotent.
Qed.

Example ipListParseMask_floor_witness :
  addrValue (ipListParseMask (Addr true (2 ^ 63) (2 ^ 40 + 5)) 96) = 2 ^ 127 + 2 ^ 40 /\
  ipListParseMask (ipListParseMask (Addr true (2 ^ 63) (2 ^ 40 + 5)) 96) 96 =
    ipListParseMask (Addr true (2 ^ 63) (2 ^ 40 + 5)) 96.
Proof.
  split; [vm_compute; reflexivity|].
  refine (proj2 (proj2 (proj2 (proj2 (ipListParseMask_floor (Addr true (2 ^ 63) (2 ^ 40 + 5)) 96 _ _)))));
    [unfold wfAddr|unfold ipListParseBits]; simpl; lia.
Defined.
