(* ===== verification/IpRange.v ===== *)
(** * IpRange: address ranges as CIDR blocks

    src/scanner/IpListParse.cpp, lines 245-351: [ipListParseCoverRange] and the
    token readers around it.  The 128-bit arithmetic is done on two 64-bit
    halves, as the code does it; the theorems relate it to one number. *)

From S2P Require Import Prelude Text IpAddress IpV4 IpV6 IpNetwork.

(** ** The loop of [ipListParseCoverRange] *)

Fixpoint pos_ctz (p : positive) : Z :=
  match p with
  | xO p => 1 + pos_ctz p
  | _ => 0
  end.

(** [std::countr_zero] and [std::bit_width] on [quint64]. *)
Definition countr_zero (x : Z) : Z :=
  match x with Zpos p => pos_ctz p | _ => 64 end.

Definition bit_width (x : Z) : Z := if x =? 0 then 0 else Z.log2 x + 1.

Definition ipListParseLess (a b : IpListParseAddr) : bool :=
  if negb (hi a =? hi b) then hi a <? hi b else lo a <? lo b.

(** [k]: the block emitted at [first] has [2^k] addresses. *)
Definition coverAlign (first : IpListParseAddr) : Z :=
  Z.min (if negb (lo first =? 0) then countr_zero (lo first)
         else if negb (hi first =? 0) then 64 + countr_zero (hi first) else 128)
        (ipListParseBits first).

Definition coverFit (first last : IpListParseAddr) : Z :=
  let diffLo := u64 (lo last - lo first) in
  let diffHi := u64 (hi last - hi first - (if lo last <? lo first then 1 else 0)) in
  let sizeLo := u64 (diffLo + 1) in
  let sizeHi := u64 (diffHi + (if sizeLo =? 0 then 1 else 0)) in
  if negb (sizeHi =? 0) then 64 + bit_width sizeHi - 1 else bit_width sizeLo - 1.

Definition coverBlockEnd (first : IpListParseAddr) (k : Z) : IpListParseAddr :=
  if 64 <=? k then
    Addr (v6 first)
      (if 64 <? k then Z.lor (hi first) (u64 (Z.shiftl 1 (k - 64)) - 1) else hi first) (2 ^ 64 - 1)
  else if 0 <? k then Addr (v6 first) (hi first) (Z.lor (lo first) (u64 (Z.shiftl 1 k) - 1))
  else first.

Definition addrSucc (e : IpListParseAddr) : IpListParseAddr :=
  let lo' := u64 (lo e + 1) in
  Addr (v6 e) (u64 (hi e + (if lo' =? 0 then 1 else 0))) lo'.

Fixpoint coverLoop (fuel : nat) (first last : IpListParseAddr) (out : list qstring) :
    option (list qstring) :=
  match fuel with
  | O => None
  | S fuel =>
      let k := Z.min (coverAlign first) (coverFit first last) in
      let out := out ++ [ipListParseCidr first (ipListParseBits first - k)] in
      let blockEnd := coverBlockEnd first k in
      if (hi blockEnd =? hi last) && (lo blockEnd =? lo last) then Some out
      else coverLoop fuel (addrSucc blockEnd) last out
  end.

(** [2 * 128 + 1] rounds are enough (theorem [coverRange_exact]). *)
Definition coverFuel : nat := 257.

(** The returned bool and the extended list; [None] only if the fuel ran out. *)
Definition ipListParseCoverRange (first last : IpListParseAddr) (out : list qstring) :
    option (bool * list qstring) :=
  let topHi := if v6 first then 2 ^ 64 - 1 else 0 in
  let topLo := if v6 first then 2 ^ 64 - 1 else 4294967295 in
  if (hi first =? 0) && (lo first =? 0) && (hi last =? topHi) && (lo last =? topLo)
  then Some (false, out)
  else match coverLoop coverFuel first last out with
       | Some out => Some (true, out)
       | None => None
       end.

(** ** Tokens *)

Definition ipListParseRangeEnd (text : qstring) : option IpListParseAddr :=
  let text := if startsWith text (u "[") && endsWithChar text 93
              then take (length text - 2) (drop 1 text) else text in
  if containsChar text 47 then None
  else match ipListParseAddress text with
       | None => None
       | Some addr =>
           Some (if ipListParseIsMapped addr
                 then Addr false 0 (Z.land (lo addr) 4294967295) else addr)
       end.

(** The part after the dash: the end text and the port, [-1] when absent. *)
Definition rangeRight (right : qstring) : option (qstring * Z) :=
  if startsWith right (u "[") then
    match indexOfChar 93 right with
    | None => None
    | Some close =>
        let rest := drop (close + 1) right in
        if bool_decide (rest = []) then Some (take (close + 1) right, -1)
        else if negb (startsWith rest (u ":")) then None
        else match ipListParsePort (drop 1 rest) with
             | Some port => Some (take (close + 1) right, port)
             | None => None
             end
    end
  else if (count right 58 =? 1)%nat then
    match indexOfChar 58 right with
    | None => None
    | Some colon =>
        match ipListParsePort (drop (colon + 1) right) with
        | Some port => Some (take colon right, port)
        | None => None
        end
    end
  else Some (right, -1).

(** The last address: a bare octet after an IPv4 address, or an address of the
    same family. *)
Definition rangeLast (first : IpListParseAddr) (right : qstring) : option IpListParseAddr :=
  match (if v6 first then None else ipListParseDecimal right 3) with
  | Some octet =>
      if (255 <? octet) || ((1 <? length right)%nat && bool_decide (head right = Some 48)) then None
      else Some (Addr (v6 first) (hi first) (Z.lor (Z.land (lo first) (2 ^ 64 - 1 - 255)) octet))
  | None =>
      match ipListParseRangeEnd right with
      | Some last => if Bool.eqb (v6 last) (v6 first) then Some last else None
      | None => None
      end
  end.

(** [Some (cidrs, port)] where the code returns true. *)
Definition ipListParseRangeToken (token : qstring) (cidrs : list qstring) : option (list qstring * Z) :=
  match indexOfChar 45 token with
  | None => None
  | Some dash =>
      match rangeRight (drop (dash + 1) token) with
      | None => None
      | Some (rightEnd, port) =>
          match ipListParseRangeEnd (take dash token) with
          | None => None
          | Some first =>
              match rangeLast first rightEnd with
              | None => None
              | Some last =>
                  let '(first, last) :=
                    if ipListParseLess last first then (last, first) else (first, last) in
                  match ipListParseCoverRange first last cidrs with
                  | Some (true, cidrs) => Some (cidrs, port)
                  | _ => None
                  end
              end
          end
      end
  end.

Section Tokens.
Context `{Q : QtText}.

(** The network text and the port of a token that is not a range. *)
Definition hostPort (token : qstring) : option (qstring * Z) :=
  if startsWith token (u "[") then
    match indexOfChar 93 token with
    | None => None
    | Some close =>
        let rest := drop (close + 1) token in
        if startsWith rest (u ":") then
          match ipListParsePort (drop 1 rest) with
          | Some port => Some (take (close + 1) token, port)
          | None => None
          end
        else Some (token, -1)
    end
  else if (count token 58 =? 1)%nat then
    match indexOfChar 58 token with
    | None => None
    | Some colon =>
        match ipListParsePort (drop (colon + 1) token) with
        | Some port => Some (take colon token, port)
        | None => None
        end
    end
  else Some (token, -1).

Definition ipListParseAddressToken (token : qstring) : option (list qstring * Z) :=
  if bool_decide (token = []) then None
  else if containsChar token 45 then ipListParseRangeToken token []
  else
    match hostPort token with
    | None => None
    | Some (network, port) =>
        match ipListParseNetwork network with
        | None => None
        | Some (addr, prefix) => Some ([ipListParseCidr addr prefix], port)
        end
    end.
End Tokens.
