(* ===== verification/IpCover.v ===== *)
(** * IpCover: the range cover is exact

    The proof that [ipListParseCoverRange] (IpRange.v) terminates and tiles the
    range with aligned CIDR blocks, from facts that relate the two-half
    arithmetic of the loop to the address as one number. *)

From S2P Require Import Prelude Text IpAddress IpV4 IpV6 IpNetwork IpRange.

Abbreviation V := addrValue.

(** ** Addresses as numbers *)

Definition sameFamily (a b : IpListParseAddr) : Prop := v6 a = v6 b.

Lemma bits_cases a : ipListParseBits a = 32 \/ ipListParseBits a = 128.
Proof. unfold ipListParseBits. destruct (v6 a); auto. Qed.

Lemma value_wf_range a : wfAddr a -> 0 <= V a < 2 ^ ipListParseBits a.
Proof. unfold wfAddr, addrValue, ipListParseBits. destruct (v6 a); lia. Qed.

Lemma wf_halves a : wfAddr a -> 0 <= hi a < 2 ^ 64 /\ 0 <= lo a < 2 ^ 64.
Proof. unfold wfAddr. destruct (v6 a); lia. Qed.

Lemma addrValue_inj a b : wfAddr a -> wfAddr b -> v6 a = v6 b -> V a = V b -> a = b.
Proof.
  intros Ha Hb E HV. apply wf_halves in Ha, Hb. unfold addrValue in HV.
  destruct a as [x h l], b as [y h' l']. simpl in *. subst. f_equal; lia.
Qed.

Lemma mask_aligned a p :
  wfAddr a -> 1 <= p <= ipListParseBits a -> (2 ^ (ipListParseBits a - p) | V a) ->
  ipListParseMask a p = a.
Proof.
  intros H Hp Hd. destruct (mask_shape a p H Hp) as [Hv Hw].
  apply addrValue_inj; try done. rewrite mask_value by done. cbv zeta.
  destruct Hd as [q ->]. by rewrite Z.div_mul by lia.
Qed.

(** ** Trailing zeros *)

Lemma pos_ctz_spec p : 0 <= pos_ctz p /\ (2 ^ pos_ctz p | Zpos p) /\
  forall j, 0 <= j -> (2 ^ j | Zpos p) -> j <= pos_ctz p.
Proof.
  induction p as [p IH|p IH|]; cbn [pos_ctz].
  - split; [lia|]. split; [by exists (Zpos p~1); lia|]. intros j Hj [q Hq].
    destruct (Z.eq_dec j 0); [lia|]. replace j with (1 + (j - 1)) in Hq by lia.
    rewrite Z.pow_add_r in Hq by lia. lia.
  - destruct IH as (H0 & [q Hq] & Hm). split; [lia|]. split.
    + exists q. rewrite Z.pow_add_r by lia. rewrite Pos2Z.inj_xO, Hq. lia.
    + intros j Hj [r Hr]. destruct (Z.eq_dec j 0); [lia|].
      enough (j - 1 <= pos_ctz p) by lia. apply Hm; [lia|]. exists r.
      replace j with (1 + (j - 1)) in Hr by lia. rewrite Z.pow_add_r in Hr by lia. lia.
  - split; [lia|]. split; [by exists 1|]. intros j Hj [q Hq].
    destruct (Z.eq_dec j 0); [lia|]. replace j with (1 + (j - 1)) in Hq by lia.
    rewrite Z.pow_add_r in Hq by lia. lia.
Qed.

Lemma countr_zero_spec x :
  0 < x -> 0 <= countr_zero x /\ (2 ^ countr_zero x | x) /\
  forall j, 0 <= j -> (2 ^ j | x) -> j <= countr_zero x.
Proof. intros H. destruct x as [|p|p]; [lia| |lia]. apply pos_ctz_spec. Qed.

Lemma divide_pow_le j k x : 0 <= j <= k -> (2 ^ k | x) -> (2 ^ j | x).
Proof.
  intros Hj [q ->]. exists (q * 2 ^ (k - j)).
  rewrite <- Z.mul_assoc, <- Z.pow_add_r by lia. do 2 f_equal. lia.
Qed.

Lemma pow_divide_bound j x w : 0 <= j -> 0 < x < 2 ^ w -> (2 ^ j | x) -> j < w.
Proof.
  intros Hj Hx Hd. apply Z.divide_pos_le in Hd; [|lia].
  destruct (Z_lt_le_dec w 0); [rewrite Z.pow_neg_r in Hx by lia; lia|].
  apply (Z.pow_lt_mono_r_iff 2); lia.
Qed.

(** [coverAlign] is the alignment of the address, at most its width. *)
Lemma coverAlign_spec a :
  wfAddr a -> 0 <= coverAlign a <= ipListParseBits a /\ (2 ^ coverAlign a | V a) /\
  forall j, 0 <= j <= ipListParseBits a -> (2 ^ j | V a) -> j <= coverAlign a.
Proof.
  intros H. pose proof (wf_halves a H) as [Hh Hl]. pose proof (bits_cases a) as Hb.
  set (z := if negb (lo a =? 0) then countr_zero (lo a)
            else if negb (hi a =? 0) then 64 + countr_zero (hi a) else 128).
  assert (Hz : 0 <= z /\ (2 ^ z | V a) /\ forall j, 0 <= j <= ipListParseBits a -> (2 ^ j | V a) -> j <= z).
  { unfold z. destruct (Z.eqb_spec (lo a) 0) as [El|Hl0]; cbn [negb];
      [destruct (Z.eqb_spec (hi a) 0) as [Eh|Hh0]; cbn [negb]|].
    - split; [lia|]. split; [exists 0; unfold addrValue; lia|]. intros; lia.
    - destruct (countr_zero_spec (hi a) ltac:(lia)) as (H0 & [q Hq] & Hm).
      split; [lia|]. split.
      + exists q. unfold addrValue. rewrite El, Z.pow_add_r by lia. rewrite Hq at 1. lia.
      + intros j Hj [r Hr]. destruct (Z_lt_le_dec j 64); [lia|].
        enough (j - 64 <= countr_zero (hi a)) by lia. apply Hm; [lia|]. exists r.
        unfold addrValue in Hr. rewrite El in Hr. replace j with (64 + (j - 64)) in Hr by lia.
        rewrite Z.pow_add_r in Hr by lia. lia.
    - destruct (countr_zero_spec (lo a) ltac:(lia)) as (H0 & Hd & Hm).
      pose proof (pow_divide_bound _ (lo a) 64 H0 ltac:(lia) Hd) as Hlt.
      assert (E : forall j, 0 <= j <= 64 -> (2 ^ j | V a) <-> (2 ^ j | lo a)).
      { intros j Hj. unfold addrValue.
        assert (Hd64 : (2 ^ j | hi a * 2 ^ 64)).
        { apply Z.divide_mul_r. exists (2 ^ (64 - j)). rewrite <- Z.pow_add_r by lia. f_equal. lia. }
        split; intros Hx; [|by apply Z.divide_add_r].
        replace (lo a) with (hi a * 2 ^ 64 + lo a - hi a * 2 ^ 64) by lia. by apply Z.divide_sub_r. }
      split; [lia|]. split; [apply E; [lia|done]|]. intros j Hj Hdj.
      destruct (Z_le_gt_dec j 64) as [Hle|Hgt].
      + apply Hm; [lia|]. apply E; [lia|done].
      + exfalso. apply (divide_pow_le 64 j) in Hdj; [|lia]. apply E in Hdj; [|lia].
        pose proof (pow_divide_bound 64 (lo a) 64 ltac:(lia) ltac:(lia) Hdj). lia. }
  destruct Hz as (H0 & H1 & H2). unfold coverAlign. fold z. split; [lia|]. split.
  - apply (divide_pow_le _ z); [lia|done].
  - intros j Hj Hd. apply Z.min_glb; [by apply H2|lia].
Qed.

(** ** The size of the remaining range *)

Lemma bit_width_log2 x : 0 < x -> bit_width x - 1 = Z.log2 x.
Proof. intros H. unfold bit_width. destruct (Z.eqb_spec x 0); lia. Qed.

Lemma sub_halves a b :
  0 <= hi a < 2 ^ 64 -> 0 <= lo a < 2 ^ 64 -> 0 <= hi b < 2 ^ 64 -> 0 <= lo b < 2 ^ 64 -> V a <= V b ->
  u64 (lo b - lo a) = (V b - V a) mod 2 ^ 64 /\
  u64 (hi b - hi a - (if lo b <? lo a then 1 else 0)) = (V b - V a) / 2 ^ 64.
Proof.
  intros Ha1 Ha2 Hb1 Hb2 Hle. unfold addrValue in *. unfold wrap.
  replace (hi b * 2 ^ 64 + lo b - (hi a * 2 ^ 64 + lo a)) with
    ((lo b - lo a) + (hi b - hi a) * 2 ^ 64) by lia.
  rewrite Z.mod_add, Z.div_add by lia. split; [done|].
  destruct (Z.ltb_spec (lo b) (lo a)).
  - replace ((lo b - lo a) / 2 ^ 64) with (-1) by (apply (Z.div_unique_pos _ _ _ (lo b - lo a + 2 ^ 64)); lia).
    rewrite Z.mod_small; lia.
  - rewrite (Z.div_small (lo b - lo a)) by lia. rewrite Z.mod_small; lia.
Qed.

(** [coverFit] is the exponent of the largest power of two that fits. *)
Lemma coverFit_spec first last :
  wfAddr first -> wfAddr last -> V first <= V last -> V last - V first + 1 < 2 ^ 128 ->
  coverFit first last = Z.log2 (V last - V first + 1).
Proof.
  intros Hf Hl Hle Hs. apply wf_halves in Hf as [Hf1 Hf2], Hl as [Hl1 Hl2].
  unfold coverFit. destruct (sub_halves first last) as [E1 E2]; try done.
  rewrite E1, E2. cbv zeta. set (D := V last - V first) in *.
  assert (EL : u64 (D mod 2 ^ 64 + 1) = (D + 1) mod 2 ^ 64)
    by (unfold wrap; rewrite Zplus_mod_idemp_l; done).
  assert (EH : u64 (D / 2 ^ 64 + (if (D + 1) mod 2 ^ 64 =? 0 then 1 else 0)) = (D + 1) / 2 ^ 64).
  { assert (H0 : 0 <= D / 2 ^ 64) by (apply Z.div_pos; lia).
    assert (H1 : (D + 1) / 2 ^ 64 = D / 2 ^ 64 + (if (D + 1) mod 2 ^ 64 =? 0 then 1 else 0)).
    { pose proof (Z.div_mod D (2 ^ 64)). pose proof (Z.mod_pos_bound D (2 ^ 64)).
      symmetry. destruct (Z.eqb_spec ((D + 1) mod 2 ^ 64) 0) as [E|E].
      - rewrite <- Zplus_mod_idemp_l in E.
        assert (D mod 2 ^ 64 = 2 ^ 64 - 1).
        { destruct (Z.eq_dec (D mod 2 ^ 64) (2 ^ 64 - 1)); [done|]. rewrite Z.mod_small in E; lia. }
        apply (Z.div_unique_pos _ _ _ 0); lia.
      - assert (D mod 2 ^ 64 <> 2 ^ 64 - 1).
        { intros E'. apply E. rewrite <- Zplus_mod_idemp_l, E'. done. }
        apply (Z.div_unique_pos _ _ _ (D mod 2 ^ 64 + 1)); lia. }
    rewrite <- H1. apply wrap_small. split; [apply Z.div_pos; lia|apply Z.div_lt_upper_bound; lia]. }
  rewrite EL, EH. destruct (Z.eqb_spec ((D + 1) / 2 ^ 64) 0) as [E0|E0]; cbn [negb].
  - apply Z.div_small_iff in E0; [|lia]. rewrite Z.mod_small by lia. apply bit_width_log2. lia.
  - assert (0 < (D + 1) / 2 ^ 64) by (pose proof (Z.div_pos (D + 1) (2 ^ 64)); lia).
    replace (64 + bit_width ((D + 1) / 2 ^ 64) - 1) with (64 + (bit_width ((D + 1) / 2 ^ 64) - 1)) by lia.
    rewrite bit_width_log2 by done. rewrite <- Z.shiftr_div_pow2 by lia.
    assert (2 ^ 64 <= D + 1) by (apply Z.nlt_ge; intros Hlt; rewrite Z.div_small in H; lia).
    rewrite Z.log2_shiftr by lia.
    assert (64 <= Z.log2 (D + 1)) by (apply Z.log2_le_pow2; lia). lia.
Qed.

(** ** The last address of a block, and its successor *)

Lemma lor_ones x k : 0 <= k -> (2 ^ k | x) -> Z.lor x (2 ^ k - 1) = x + (2 ^ k - 1).
Proof.
  intros Hk [q ->]. rewrite <- Z.shiftl_mul_pow2 by done. rewrite lor_disjoint by lia.
  by rewrite Z.shiftl_mul_pow2 by done.
Qed.

Lemma u64_pow k : 0 <= k < 64 -> u64 (Z.shiftl 1 k) = 2 ^ k.
Proof.
  intros H. rewrite Z.shiftl_1_l. apply wrap_small. split; [lia|]. apply Z.pow_lt_mono_r; lia.
Qed.

Lemma divide_low_half a k :
  0 <= k <= 64 -> (2 ^ k | V a) -> (2 ^ k | lo a).
Proof.
  intros Hk Hd. replace (lo a) with (V a - hi a * 2 ^ 64) by (unfold addrValue; lia).
  apply Z.divide_sub_r; [done|]. apply Z.divide_mul_r.
  exists (2 ^ (64 - k)). rewrite <- Z.pow_add_r by lia. f_equal. lia.
Qed.

Lemma divide_high_half a k :
  wfAddr a -> 64 <= k -> (2 ^ k | V a) -> lo a = 0 /\ (2 ^ (k - 64) | hi a).
Proof.
  intros H Hk [q Hq]. apply wf_halves in H as [Hh Hl].
  replace k with (64 + (k - 64)) in Hq by lia. rewrite Z.pow_add_r in Hq by lia.
  unfold addrValue in Hq. assert (lo a = (q * 2 ^ (k - 64) - hi a) * 2 ^ 64) by lia.
  assert (lo a = 0) by nia. split; [done|]. exists q. lia.
Qed.

Lemma aligned_fits x k n : 0 <= k <= n -> (2 ^ k | x) -> 0 <= x < 2 ^ n -> x + 2 ^ k <= 2 ^ n.
Proof.
  intros Hk [q ->] Hx. assert (E : 2 ^ n = 2 ^ (n - k) * 2 ^ k) by (rewrite <- Z.pow_add_r by lia; f_equal; lia).
  rewrite E in *. assert (0 < 2 ^ k) by lia. assert (q < 2 ^ (n - k)) by nia. nia.
Qed.

Lemma coverBlockEnd_spec a k :
  wfAddr a -> 0 <= k <= ipListParseBits a -> k < 128 -> (2 ^ k | V a) ->
  wfAddr (coverBlockEnd a k) /\ sameFamily (coverBlockEnd a k) a /\
  V (coverBlockEnd a k) = V a + 2 ^ k - 1.
Proof.
  intros H Hk H128 Hd. pose proof (wf_halves a H) as [Hh Hl]. unfold coverBlockEnd, sameFamily.
  destruct (Z.leb_spec 64 k) as [H64|H64].
  - assert (Hv : v6 a = true) by (unfold ipListParseBits in Hk; destruct (v6 a); [done|lia]).
    assert (Hb : ipListParseBits a = 128) by (unfold ipListParseBits; by rewrite Hv).
    destruct (divide_high_half a k H H64 Hd) as [El Hdh].
    destruct (Z.ltb_spec 64 k) as [Hgt|Hle].
    + rewrite u64_pow, lor_ones by (try done; lia).
      pose proof (aligned_fits (hi a) (k - 64) 64 ltac:(lia) Hdh Hh).
      assert (E : 2 ^ k = 2 ^ (k - 64) * 2 ^ 64) by (rewrite <- Z.pow_add_r by lia; f_equal; lia).
      unfold addrValue, wfAddr. cbn [v6 hi lo]. rewrite Hv. split; [lia|]. split; [done|]. lia.
    + assert (k = 64) as -> by lia. unfold addrValue, wfAddr. cbn [v6 hi lo].
      rewrite Hv. split; [lia|]. split; [done|]. lia.
  - destruct (Z.ltb_spec 0 k) as [Hpos|Hz].
    + pose proof (divide_low_half a k ltac:(lia) Hd) as Hdl.
      rewrite u64_pow, lor_ones by (try done; lia). unfold addrValue, wfAddr in *. cbn [v6 hi lo].
      unfold ipListParseBits in Hk. destruct (v6 a).
      * pose proof (aligned_fits (lo a) k 64 ltac:(lia) Hdl ltac:(lia)).
        split; [lia|]. split; [done|]. lia.
      * pose proof (aligned_fits (lo a) k 32 ltac:(lia) Hdl ltac:(lia)).
        split; [lia|]. split; [done|]. lia.
    + assert (k = 0) as -> by lia. split; [done|]. split; [done|]. change (2 ^ 0) with 1. lia.
Qed.

Lemma addrSucc_spec e :
  wfAddr e -> V e + 1 < 2 ^ ipListParseBits e ->
  wfAddr (addrSucc e) /\ sameFamily (addrSucc e) e /\ V (addrSucc e) = V e + 1.
Proof.
  intros H Hlt. unfold addrSucc, sameFamily, wfAddr, addrValue, ipListParseBits in *. cbn [v6 hi lo].
  destruct (v6 e).
  - destruct H as [Hh Hl]. destruct (Z.eq_dec (lo e) (2 ^ 64 - 1)) as [E|E].
    + assert (El : u64 (lo e + 1) = 0) by (rewrite E; reflexivity). rewrite El. cbn [Z.eqb].
      rewrite wrap_small by lia. split; [lia|]. split; [done|]. lia.
    + rewrite (wrap_small 64 (lo e + 1)) by lia.
      destruct (Z.eqb_spec (lo e + 1) 0); [lia|]. rewrite wrap_small by lia.
      split; [lia|]. split; [done|]. lia.
  - destruct H as [Eh Hl]. rewrite Eh in *. rewrite (wrap_small 64 (lo e + 1)) by lia.
    destruct (Z.eqb_spec (lo e + 1) 0); [lia|]. rewrite wrap_small by lia.
    split; [lia|]. split; [done|]. lia.
Qed.

(** ** Tilings *)

Abbreviation block := (IpListParseAddr * Z)%type.

Definition blockText (b : block) : qstring := ipListParseCidr b.1 b.2.

Definition blockSize (b : block) : Z := 2 ^ (ipListParseBits b.1 - b.2).

(** The addresses of a block, as numbers. *)
Definition inBlock (x : Z) (b : block) : bool := (V b.1 <=? x) && (x <? V b.1 + blockSize b).

(** A masked network of the given family, never the whole space. *)
Definition validBlock (fam : bool) (b : block) : Prop :=
  wfAddr b.1 /\ v6 b.1 = fam /\ 1 <= b.2 <= ipListParseBits b.1 /\ ipListParseMask b.1 b.2 = b.1.

(** The blocks lie side by side from [F] to [E]. *)
Fixpoint tiles (F E : Z) (bs : list block) : Prop :=
  match bs with
  | [] => F = E + 1
  | b :: bs => V b.1 = F /\ tiles (F + blockSize b) E bs
  end.

Lemma blockSize_pos fam b : validBlock fam b -> 0 < blockSize b.
Proof. intros (_ & _ & Hp & _). unfold blockSize. lia. Qed.

Lemma tiles_le fam F E bs : Forall (validBlock fam) bs -> tiles F E bs -> F <= E + 1.
Proof.
  revert F. induction bs as [|b bs IH]; intros F Hv; simpl; [lia|]. intros [_ Ht].
  apply Forall_cons in Hv as [Hb Hv]. specialize (IH _ Hv Ht). apply blockSize_pos in Hb. lia.
Qed.

(** Every number of the range is in exactly one block, every other in none. *)
Lemma tiles_partition fam F E bs x :
  Forall (validBlock fam) bs -> tiles F E bs ->
  length (filter (fun b => inBlock x b = true) bs) = (if (F <=? x) && (x <=? E) then 1%nat else 0%nat).
Proof.
  revert F. induction bs as [|b bs IH]; intros F Hv Ht.
  - simpl in Ht. destruct (_ && _) eqn:E0; [bool_to_prop; lia|done].
  - destruct Ht as [Hb Ht]. apply Forall_cons in Hv as [Hvb Hv].
    pose proof (tiles_le _ _ _ _ Hv Ht) as Hle. pose proof (blockSize_pos _ _ Hvb) as Hs.
    specialize (IH _ Hv Ht). rewrite filter_cons.
    destruct (decide (inBlock x b = true)) as [Hin|Hin]; unfold inBlock in Hin; rewrite Hb in Hin;
      [|apply not_true_is_false in Hin]; simpl length; rewrite IH; clear IH;
      destruct (Z.leb_spec F x), (Z.ltb_spec x (F + blockSize b)), (Z.leb_spec x E),
        (Z.leb_spec (F + blockSize b) x); simpl in *; try done; lia.
Qed.

(** ** The loop *)

Section Loop.
Context (last : IpListParseAddr) (Hlast : wfAddr last).

(** The state of the loop at its head. *)
Definition coverState (first : IpListParseAddr) : Prop :=
  wfAddr first /\ sameFamily first last /\ V first <= V last /\
  V last - V first + 1 < 2 ^ ipListParseBits first.

Definition remaining (first : IpListParseAddr) : Z := V last - V first + 1.

Definition blockBits (first : IpListParseAddr) : Z := Z.min (coverAlign first) (coverFit first last).

Lemma coverFit_state first :
  coverState first -> coverFit first last = Z.log2 (remaining first) /\
  0 <= coverFit first last < ipListParseBits first.
Proof.
  intros (H & Hf & Hle & Hs).
  rewrite coverFit_spec by (try done; destruct (bits_cases first) as [E|E]; rewrite E in *; lia).
  split; [done|]. split; [apply Z.log2_nonneg|]. apply Z.log2_lt_pow2; lia.
Qed.

Lemma pow_fit first : coverState first -> 2 ^ coverFit first last <= remaining first < 2 ^ (coverFit first last + 1).
Proof.
  intros H. destruct (coverFit_state first H) as [E _]. rewrite E. destruct H as (_ & _ & Hle & _).
  unfold remaining. pose proof (Z.log2_spec (V last - V first + 1)). lia.
Qed.

(** One round: the block is valid, and the loop stops or goes on right after it. *)
Lemma cover_round first :
  coverState first ->
  let k := blockBits first in
  let b := (first, ipListParseBits first - k) in
  let e := coverBlockEnd first k in
  0 <= k < ipListParseBits first /\ validBlock (v6 last) b /\ blockSize b = 2 ^ k /\
  (((hi e =? hi last) && (lo e =? lo last) = true /\ remaining first = 2 ^ k) \/
   ((hi e =? hi last) && (lo e =? lo last) = false /\
    coverState (addrSucc e) /\ V (addrSucc e) = V first + 2 ^ k /\
    remaining (addrSucc e) = remaining first - 2 ^ k /\
    ipListParseBits (addrSucc e) = ipListParseBits first)).
Proof.
  intros H k b e. pose proof H as (Hw & Hf & Hle & Hs).
  destruct (coverFit_state first H) as [_ Hfit]. pose proof (pow_fit first H) as [Hp _].
  destruct (coverAlign_spec first Hw) as (Ha & Hd & _).
  assert (Hk : 0 <= k < ipListParseBits first) by (unfold k, blockBits; lia).
  assert (Hdk : (2 ^ k | V first)) by (apply (divide_pow_le _ (coverAlign first)); [unfold k, blockBits; lia|done]).
  assert (Hpk : 2 ^ k <= remaining first).
  { etransitivity; [|exact Hp]. apply Z.pow_le_mono_r; unfold k, blockBits; lia. }
  assert (Hsz : blockSize b = 2 ^ k) by (unfold blockSize, b; cbn [fst snd]; f_equal; lia).
  split; [done|]. split.
  { unfold validBlock, b. cbn [fst snd]. split; [done|]. split; [done|]. split; [lia|].
    apply mask_aligned; [done|lia|]. by replace (ipListParseBits first - (ipListParseBits first - k)) with k by lia. }
  split; [done|].
  destruct (coverBlockEnd_spec first k Hw ltac:(lia) ltac:(destruct (bits_cases first); lia) Hdk) as (He & Hef & HeV).
  fold e in He, Hef, HeV. unfold sameFamily in *.
  assert (Heq : (hi e =? hi last) && (lo e =? lo last) = true <-> V e = V last).
  { rewrite andb_true_iff, !Z.eqb_eq. split; [intros [E1 E2]; unfold addrValue; by rewrite E1, E2|].
    intros E. apply addrValue_inj in E as ->; [done|done|done|congruence]. }
  unfold remaining in *. destruct (_ && _) eqn:Eb.
  - left. split; [done|]. destruct Heq as [Heq _]. specialize (Heq eq_refl). lia.
  - right. split; [done|].
    assert (Hne : V e <> V last) by (intros E; by apply Heq in E).
    pose proof (value_wf_range last Hlast) as Hlr.
    assert (Hbe : ipListParseBits e = ipListParseBits last) by (unfold ipListParseBits; by rewrite Hef, Hf).
    destruct (addrSucc_spec e He) as (Hsw & Hsf & HsV); [rewrite Hbe; lia|]. unfold sameFamily in Hsf.
    assert (Hb2 : ipListParseBits (addrSucc e) = ipListParseBits first)
      by (unfold ipListParseBits; by rewrite Hsf, Hef).
    assert (0 < 2 ^ k) by lia.
    split; [|split; [lia|split; [lia|done]]].
    unfold coverState, sameFamily. rewrite Hb2. split; [done|]. split; [congruence|]. split; lia.
Qed.

(** Rounds still needed: while the alignment limits the block it grows with
    every block; once the size limits it, it shrinks with every block. *)
Definition need (first : IpListParseAddr) : Z :=
  if coverFit first last <=? coverAlign first then coverFit first last + 1
  else (ipListParseBits first - coverAlign first) + ipListParseBits first + 1.

Lemma need_decreases first next :
  coverState first -> coverState next ->
  V next = V first + 2 ^ blockBits first -> remaining next = remaining first - 2 ^ blockBits first ->
  ipListParseBits next = ipListParseBits first -> need next + 1 <= need first.
Proof.
  intros H Hn HV Hr Hb.
  destruct (coverFit_state first H) as [_ Hf1], (coverFit_state next Hn) as [_ Hf2].
  pose proof (pow_fit first H) as [Hp1 Hp2]. pose proof (pow_fit next Hn) as [Hp3 Hp4].
  destruct H as (Hw & _), Hn as (Hwn & _).
  destruct (coverAlign_spec first Hw) as (Ha & Hd & Hm), (coverAlign_spec next Hwn) as (Ha' & Hd' & Hm').
  unfold need, blockBits in *. rewrite Hb in *.
  destruct (Z.leb_spec (coverFit first last) (coverAlign first)) as [Hle|Hgt].
  - rewrite Z.min_r in HV, Hr by done.
    assert (Hlt : coverFit next last < coverFit first last).
    { apply (Z.pow_lt_mono_r_iff 2); [lia|lia|].
      replace (coverFit first last + 1) with (1 + coverFit first last) in Hp2 by lia.
      rewrite Z.pow_add_r in Hp2 by lia. lia. }
    assert (Hal : coverFit first last <= coverAlign next).
    { apply Hm'; [lia|]. rewrite HV. apply Z.divide_add_r; [|by exists 1; lia].
      apply (divide_pow_le _ (coverAlign first)); [lia|done]. }
    replace (coverFit next last <=? coverAlign next) with true by (symmetry; apply Z.leb_le; lia). lia.
  - rewrite Z.min_l in HV by lia.
    assert (Hal : coverAlign first + 1 <= coverAlign next).
    { apply Hm'; [lia|]. rewrite HV. destruct Hd as [q Hq].
      assert (Hodd : q mod 2 <> 0).
      { intros E. apply Z.mod_divide in E; [|lia]. destruct E as [r ->].
        enough (coverAlign first + 1 <= coverAlign first) by lia. apply Hm; [lia|].
        exists r. rewrite Z.pow_add_r by lia. lia. }
      exists ((q + 1) / 2). rewrite Hq, Z.pow_add_r by lia. set (P := 2 ^ coverAlign first) in *.
      assert (E : q + 1 = 2 * ((q + 1) / 2)).
      { pose proof (Z.div_mod (q + 1) 2). pose proof (Z.mod_pos_bound q 2).
        assert ((q + 1) mod 2 = 0); [|lia]. rewrite <- Zplus_mod_idemp_l.
        by replace (q mod 2) with 1 by lia. }
      replace (q * P + P) with ((q + 1) * P) by lia. rewrite E at 1. lia. }
    destruct (coverFit next last <=? coverAlign next); lia.
Qed.

Lemma coverLoop_tiles fuel first out :
  coverState first -> need first <= Z.of_nat fuel ->
  exists bs, coverLoop fuel first last out = Some (out ++ map blockText bs) /\
    Z.of_nat (length bs) <= need first /\
    Forall (validBlock (v6 last)) bs /\ tiles (V first) (V last) bs.
Proof.
  revert first out. induction fuel as [|fuel IH]; intros first out H Hn.
  - destruct (coverFit_state first H) as [_ Hf]. destruct H as (Hw & _).
    destruct (coverAlign_spec first Hw) as (Ha & _). unfold need in Hn. case_ifs_in Hn; lia.
  - pose proof (cover_round first H) as (Hk & Hb & Hs & Hcase). cbn [coverLoop].
    fold (blockBits first). set (k := blockBits first) in *.
    set (b := (first, ipListParseBits first - k)) in *. fold (blockText b).
    assert (Hn1 : 1 <= need first).
    { destruct (coverFit_state first H) as [_ Hf]. destruct H as (Hw & _).
      destruct (coverAlign_spec first Hw) as (Ha & _). unfold need. case_ifs; lia. }
    destruct Hcase as [[-> Hr]|(-> & Hst & HV & Hr & Hbb)].
    + exists [b]. split; [done|]. split; [simpl; lia|]. split; [by constructor|].
      simpl. split; [done|]. unfold remaining in Hr. lia.
    + pose proof (need_decreases first _ H Hst HV Hr Hbb) as Hdec.
      destruct (IH (addrSucc (coverBlockEnd first k)) (out ++ [blockText b]) Hst ltac:(lia))
        as (bs & E & Hl & Hv & Ht).
      exists (b :: bs).
      split; [|split; [simpl length; lia|split; [by constructor|]]].
      * etransitivity; [exact E|]. by rewrite <- app_assoc.
      * simpl. split; [done|]. by rewrite Hs, <- HV.
Qed.
End Loop.

(** ** The range cover *)

(** [bs] covers exactly the numbers from [F] to [E], each once, with valid
    blocks of the family [fam]. *)
Definition exactCover (fam : bool) (F E : Z) (bs : list block) : Prop :=
  Forall (validBlock fam) bs /\
  forall x, length (filter (fun b => inBlock x b = true) bs) =
            (if (F <=? x) && (x <=? E) then 1%nat else 0%nat).

Lemma whole_space first last :
  wfAddr first -> wfAddr last -> v6 first = v6 last ->
  (hi first =? 0) && (lo first =? 0) &&
  (hi last =? (if v6 first then 2 ^ 64 - 1 else 0)) &&
  (lo last =? (if v6 first then 2 ^ 64 - 1 else 4294967295)) = true <->
  V last - V first + 1 = 2 ^ ipListParseBits first.
Proof.
  intros Hf Hl E. rewrite !andb_true_iff, !Z.eqb_eq.
  unfold wfAddr, addrValue, ipListParseBits in *. rewrite <- E in *.
  destruct (v6 first); split; [intros [[[-> ->] ->] ->]; done| |intros [[[-> ->] ->] ->]; done|];
    intros H; repeat split; lia.
Qed.

Lemma cover_exact first last out :
  wfAddr first -> wfAddr last -> v6 first = v6 last -> V first <= V last ->
  (V last - V first + 1 = 2 ^ ipListParseBits first /\
   ipListParseCoverRange first last out = Some (false, out)) \/
  (V last - V first + 1 < 2 ^ ipListParseBits first /\
   exists bs, ipListParseCoverRange first last out = Some (true, out ++ map blockText bs) /\
     Z.of_nat (length bs) <= 2 * ipListParseBits first + 1 /\
     exactCover (v6 first) (V first) (V last) bs).
Proof.
  intros Hf Hl E Hle. pose proof (whole_space first last Hf Hl E) as Hw.
  unfold ipListParseCoverRange. destruct (_ && _ && _ && _) eqn:Eb.
  - left. split; [by apply Hw|done].
  - right.
    assert (Hlt : V last - V first + 1 < 2 ^ ipListParseBits first).
    { pose proof (value_wf_range first Hf). pose proof (value_wf_range last Hl).
      assert (ipListParseBits last = ipListParseBits first) as Eq by (unfold ipListParseBits; by rewrite E).
      rewrite Eq in *. destruct (Z.eq_dec (V last - V first + 1) (2 ^ ipListParseBits first)) as [Heq|]; [|lia].
      by apply Hw in Heq. }
    split; [done|].
    assert (Hst : coverState last first) by (split; [done|]; split; [done|]; split; done).
    assert (Hn : need last first <= 2 * ipListParseBits first + 1).
    { destruct (coverFit_state last Hl first Hst) as [_ Hfit]. destruct (coverAlign_spec first Hf) as [Ha _].
      unfold need. case_ifs; lia. }
    destruct (coverLoop_tiles last Hl coverFuel first out Hst) as (bs & Er & Hlen & Hv & Ht).
    { unfold coverFuel. destruct (bits_cases first); lia. }
    exists bs. rewrite Er. split; [done|]. split; [lia|]. rewrite E. split; [done|].
    intros x. by apply (tiles_partition (v6 last)).
Qed.

Lemma ipListParseRangeEnd_wf text a : ipListParseRangeEnd text = Some a -> wfAddr a.
Proof.
  unfold ipListParseRangeEnd.
  set (t := if startsWith text (u "[") && endsWithChar text 93 then take (length text - 2) (drop 1 text) else text).
  destruct (containsChar t 47); [done|]. destruct (ipListParseAddress t) as [b|] eqn:E; [|done].
  apply ipListParseAddress_wf in E. intros [= <-]. destruct (ipListParseIsMapped b); [|done].
  unfold wfAddr. simpl. split; [done|]. change 4294967295 with (Z.ones 32).
  rewrite Z.land_ones by lia. apply Z.mod_pos_bound. lia.
Qed.

Lemma rangeLast_wf first t last :
  wfAddr first -> rangeLast first t = Some last -> wfAddr last /\ v6 last = v6 first.
Proof.
  intros H. unfold rangeLast.
  destruct (if v6 first then None else ipListParseDecimal t 3) as [o|] eqn:E.
  - destruct (_ || _) eqn:Eb; [done|]. intros [= <-]. apply orb_false_iff in Eb as [Eb _]. bool_to_prop.
    unfold wfAddr in *. cbn [v6 hi lo]. destruct (v6 first) eqn:Ev; [done|].
    apply ipListParseDecimal_range in E; [|lia]. split; [|done]. split; [apply H|]. destruct H as [_ H].
    assert (Em : Z.land (lo first) (2 ^ 64 - 1 - 255) = lo first / 2 ^ 8 * 2 ^ 8).
    { rewrite <- (land_high_mask 64) by lia. f_equal. }
    rewrite Em, <- Z.shiftl_mul_pow2, lor_disjoint by lia.
    assert (lo first / 2 ^ 8 < 2 ^ 24) by (apply Z.div_lt_upper_bound; lia).
    assert (0 <= lo first / 2 ^ 8) by (apply Z.div_pos; lia). lia.
  - destruct (ipListParseRangeEnd t) as [l|] eqn:El; [|done]. destruct (Bool.eqb _ _) eqn:Eb; [|done].
    intros [= <-]. apply eqb_prop in Eb. split; [by eapply ipListParseRangeEnd_wf|done].
Qed.

Lemma ipListParseLess_spec a b :
  wfAddr a -> wfAddr b -> ipListParseLess a b = (V a <? V b).
Proof.
  intros Ha Hb. apply wf_halves in Ha, Hb. unfold ipListParseLess, addrValue.
  destruct (Z.eqb_spec (hi a) (hi b)); cbn [negb];
    apply eq_true_iff_eq; rewrite !Z.ltb_lt; lia.
Qed.

Lemma rangeRight_port t r p : rangeRight t = Some (r, p) -> -1 <= p <= 65535.
Proof.
  unfold rangeRight. intros H.
  repeat match type of H with
  | context [match ipListParsePort ?x with _ => _ end] =>
      destruct (ipListParsePort x) eqn:Ep; [apply ipListParsePort_range in Ep|]
  | context [match ?x with _ => _ end] => destruct x
  end; try done; injection H as <- <-; lia.
Qed.

(** ** Properties *)

(** C11: [ipListParseCoverRange] terminates within its rounds, refuses
    exactly the whole address space, and otherwise appends the texts of at most
    2 * bits + 1 valid CIDR blocks that contain every address of the range
    exactly once and no other address. *)
Theorem coverRange_exact first last out :
  wfAddr first -> wfAddr last -> v6 first = v6 last -> V first <= V last ->
  (V last - V first + 1 = 2 ^ ipListParseBits first ->
   ipListParseCoverRange first last out = Some (false, out)) /\
  (V last - V first + 1 < 2 ^ ipListParseBits first ->
   exists bs, ipListParseCoverRange first last out = Some (true, out ++ map blockText bs) /\
     Z.of_nat (length bs) <= 2 * ipListParseBits first + 1 /\
     exactCover (v6 first) (V first) (V last) bs).
Proof.
  intros Hf Hl E Hle. destruct (cover_exact first last out Hf Hl E Hle) as [[H1 H2]|[H1 H2]];
    (split; [intros H; done || lia|intros H; done || lia]).
Qed.

Example coverRange_exact_witness :
  wfAddr (Addr false 0 16909060) /\ V (Addr false 0 16909060) <= V (Addr false 0 16909065) /\
  exists bs, ipListParseCoverRange (Addr false 0 16909060) (Addr false 0 16909065) [] =
    Some (true, [] ++ map blockText bs) /\
    Z.of_nat (length bs) <= 65 /\ exactCover false 16909060 16909065 bs.
Proof.
  split; [split; [reflexivity|simpl; lia]|]. split; [unfold addrValue; simpl; lia|].
  apply (proj2 (coverRange_exact (Addr false 0 16909060) (Addr false 0 16909065) []
    ltac:(split; [reflexivity|simpl; lia]) ltac:(split; [reflexivity|simpl; lia]) eq_refl
    ltac:(unfold addrValue; simpl; lia))).
  vm_compute. reflexivity.
Defined.

Lemma rangeToken_exact token cidrs port :
  ipListParseRangeToken token [] = Some (cidrs, port) ->
  exists dash rightEnd a b bs,
    indexOfChar 45 token = Some dash /\
    rangeRight (drop (dash + 1) token) = Some (rightEnd, port) /\ -1 <= port <= 65535 /\
    ipListParseRangeEnd (take dash token) = Some a /\ rangeLast a rightEnd = Some b /\
    cidrs = map blockText bs /\ exactCover (v6 a) (Z.min (V a) (V b)) (Z.max (V a) (V b)) bs.
Proof.
  unfold ipListParseRangeToken. destruct (indexOfChar 45 token) as [dash|] eqn:Ed; [|done].
  destruct (rangeRight _) as [[r p]|] eqn:Er; [|done].
  destruct (ipListParseRangeEnd _) as [a|] eqn:Ea; [|done].
  destruct (rangeLast a r) as [b|] eqn:Eb; [|done].
  pose proof (ipListParseRangeEnd_wf _ _ Ea) as Ha. destruct (rangeLast_wf a r b Ha Eb) as [Hb Hf].
  rewrite ipListParseLess_spec by done. intros H.
  exists dash, r, a, b. destruct (Z.ltb_spec (V b) (V a)) as [Hlt|Hge].
  - destruct (cover_exact b a [] Hb Ha Hf ltac:(lia)) as [[_ Ec]|(_ & bs & Ec & _ & Hc)]; rewrite Ec in H; [done|].
    injection H as <- <-. exists bs. rewrite Hf in Hc.
    rewrite Z.min_r, Z.max_l by lia. pose proof (rangeRight_port _ _ _ Er). split_and!; (done || lia).
  - destruct (cover_exact a b [] Ha Hb (eq_sym Hf) Hge) as [[_ Ec]|(_ & bs & Ec & _ & Hc)]; rewrite Ec in H; [done|].
    injection H as <- <-. exists bs.
    rewrite Z.min_l, Z.max_r by lia. pose proof (rangeRight_port _ _ _ Er). split_and!; (done || lia).
Qed.

(** An accepted range token yields an exact cover of the addresses
    between its two ends, whichever end is written first, and a port that is
    absent (-1) or a valid port number. *)
Theorem ipListParseRangeToken_covers token cidrs port :
  ipListParseRangeToken token [] = Some (cidrs, port) ->
  exists dash rightEnd a b bs,
    indexOfChar 45 token = Some dash /\
    rangeRight (drop (dash + 1) token) = Some (rightEnd, port) /\ -1 <= port <= 65535 /\
    ipListParseRangeEnd (take dash token) = Some a /\ rangeLast a rightEnd = Some b /\
    cidrs = map blockText bs /\ exactCover (v6 a) (Z.min (V a) (V b)) (Z.max (V a) (V b)) bs.
Proof. apply rangeToken_exact. Qed.

Example ipListParseRangeToken_covers_witness :
  ipListParseRangeToken (u "10.0.0.3-10.0.0.0:80") [] = Some ([u "10.0.0.0/30"], 80) /\
  exists dash rightEnd a b bs,
    indexOfChar 45 (u "10.0.0.3-10.0.0.0:80") = Some dash /\
    rangeRight (drop (dash + 1) (u "10.0.0.3-10.0.0.0:80")) = Some (rightEnd, 80) /\ -1 <= 80 <= 65535 /\
    ipListParseRangeEnd (take dash (u "10.0.0.3-10.0.0.0:80")) = Some a /\ rangeLast a rightEnd = Some b /\
    [u "10.0.0.0/30"] = map blockText bs /\ exactCover (v6 a) (Z.min (V a) (V b)) (Z.max (V a) (V b)) bs.
Proof.
  assert (E : ipListParseRangeToken (u "10.0.0.3-10.0.0.0:80") [] = Some ([u "10.0.0.0/30"], 80))
    by (vm_compute; reflexivity).
  split; [exact E|]. exact (ipListParseRangeToken_covers _ _ _ E).
Defined.

(** A finding: a range across the IPv4-mapped block emits [::ffff:0:0/96],
    which the network reader refuses, so the entry is not canonical. *)
Lemma cover_mapped_block_refused `{QtText} `{!QtTextLaws _} :
  exists cidrs,
    ipListParseRangeToken (u "::fffe:ffff:ffff-::1:0:0:0") [] = Some (cidrs, -1) /\
    u "::ffff:0:0/96" ∈ cidrs /\ NormalizeCidr (u "::ffff:0:0/96") = [].
Proof.
  eexists. split; [vm_compute; reflexivity|]. split.
  { apply (list_elem_of_lookup_2 _ 1%nat). vm_compute. reflexivity. }
  unfold NormalizeCidr, ipListParseNetwork. rewrite trimmed_no_space; [vm_compute; reflexivity|].
  eapply Forall_impl; [|exact cidrChar_not_space].
  unfold cidrChar. repeat (constructor; [cbn; lia|]). constructor.
Qed.
