(* ===== verification/IpListText.v ===== *)
(** * IpListText: reading a whole IP list

    src/scanner/IpListParse.cpp, lines 25-32, 343-414 and 423-558: the line
    splitter, the token classifier, and [ParseIpListText] with its state
    (entries, rejects, duplicates, samples, the set of seen keys, and the
    tabular mode the first line may switch on). *)

From S2P Require Import Prelude Text IpAddress IpRange.

Definition kIpListParseMaxSamples : nat := 5.
Definition kIpListParseSampleChars : nat := 64.

Inductive IpListParseKind := Address | Port | Other.

#[export] Instance IpListParseKind_eq_dec : EqDecision IpListParseKind.
Proof. solve_decision. Defined.

(** [consumed] is the flag the loop over the tokens passes along. *)
Record IpListParseToken := Token {
  text : qstring; field : nat; kind : IpListParseKind; cidrs : list qstring; tport : Z;
}.

Record ParseResult := Result {
  entries : list IpListEntry; rejected : Z; duplicates : Z; samples : list qstring;
}.

(** The result and the locals that live across lines; [portColumn] is -1 when
    no header named a port. *)
Record ParseState := State {
  result : ParseResult; seen : gset qstring;
  firstContentLine : bool; tabularFile : bool; portColumn : option nat;
}.

Definition ipListParseIsSeparator (c : qchar) : bool :=
  (c =? 44) || (c =? 59) || (c =? 9) || (c =? 124).

Definition ipListParseRangeChar (c : qchar) : bool :=
  (0 <=? ipListParseHexDigit c) || (c =? 46) || (c =? 58) || (c =? 91) || (c =? 93).

Definition ipListParseLooksLikeAddress (token : qstring) : bool :=
  match token with
  | [] => false
  | front :: _ =>
      if startsWith token (u "[") || contains token (u "::") || (7 <=? count token 58)%nat then true
      else if (count token 46 <? 2)%nat || (front <? 48) || (57 <? front) then false
      else forallb (fun c => ((48 <=? c) && (c <=? 57)) || (c =? 46) || (c =? 47) ||
                             (c =? 58) || (c =? 45)) token
  end.

Section Lines.
Context `{Q : QtText}.

Definition kNames : list qstring :=
  [u "address"; u "host"; u "hostname"; u "cidr"; u "subnet"; u "network"; u "prefix";
   u "range"; u "endpoint"; u "server"; u "target"].

Definition ipListParseIsColumnName (token : qstring) : bool :=
  if startsWithCI token (u "ip") || startsWithCI token (u "addr") || containsCI token (u "port")
  then true
  else existsb (fun name => equalsCI token name) kNames.

Definition isDash (c : qchar) : bool := (c =? 45) || (c =? 8211).

(** One iteration per character of the line, or per dash with the spaces
    around it; [length line] rounds are enough (lemma [joinLoop_fuel]). *)
Fixpoint joinLoop (fuel : nat) (out line : qstring) : qstring :=
  match fuel, line with
  | S fuel, c :: rest =>
      let out' := dropWhileEnd isSpace out in
      let next := dropWhile isSpace rest in
      if isDash c &&
         match last out', head next with
         | Some before, Some after => ipListParseRangeChar before && ipListParseRangeChar after
         | _, _ => false
         end
      then joinLoop fuel (out' ++ u "-") next
      else joinLoop fuel (out ++ [c]) rest
  | _, _ => out
  end.

Definition ipListParseJoinRanges (line : qstring) : qstring := joinLoop (length line) [] line.

Definition isQuote (c : qchar) : bool := (c =? 34) || (c =? 39).

Definition ipListParseUnquote (text : qstring) : qstring :=
  trimmed (dropWhileEnd isQuote (dropWhile isQuote (trimmed text))).

(** Separated fields keep their empty cells. *)
Definition ipListParseSplit (text : qstring) (bySeparator : bool) : list qstring :=
  if bySeparator then splitWhen ipListParseIsSeparator text
  else filter (fun part => part <> []) (splitWhen isSpace text).

(** ** One line *)

(** Comments removed; [None] for a line that is skipped. *)
Definition stripLine (line : qstring) : option qstring :=
  let line := match indexOfChar 35 line with Some hash => take hash line | None => line end in
  let line := match indexOf (u "//") line with Some slashes => take slashes line | None => line end in
  let line := trimmed line in
  if bool_decide (line = []) || startsWith line (u ";") then None else Some line.

Definition joinLine (line : qstring) : qstring :=
  if containsChar line 45 || containsChar line 8211 then ipListParseJoinRanges line else line.

(** The token of a word; [None] if nothing is left of it. *)
Definition classify (f : nat) (word : qstring) : option IpListParseToken :=
  let text := ipListParseUnquote word in
  if bool_decide (text = []) then None
  else match ipListParseAddressToken text with
       | Some (cidrs, port) => Some (Token text f Address cidrs port)
       | None =>
           match ipListParsePort text with
           | Some port => Some (Token text f Port [] port)
           | None => Some (Token text f Other [] (-1))
           end
       end.

Definition fieldTokens (f : nat) (fieldText : qstring) : list IpListParseToken :=
  omap (classify f) (ipListParseSplit fieldText false).

Definition lineTokens (fields : list qstring) : list IpListParseToken :=
  concat (imap fieldTokens fields).

(** ** The lambdas [reject] and [add] *)

Definition reject (token : qstring) (st : ParseState) : ParseState :=
  let r := result st in
  let samples' := if (length (samples r) <? kIpListParseMaxSamples)%nat
                  then samples r ++ [take kIpListParseSampleChars token] else samples r in
  State (Result (entries r) (rejected r + 1) (duplicates r) samples')
    (seen st) (firstContentLine st) (tabularFile st) (portColumn st).

Definition entryKey (cidr : qstring) (port : Z) : qstring := cidr ++ u " " ++ number 10 port.

Definition addOne (port : Z) (st : ParseState) (cidr : qstring) : ParseState :=
  let r := result st in
  let key := entryKey cidr port in
  if bool_decide (key ∈ seen st) then
    State (Result (entries r) (rejected r) (duplicates r + 1) (samples r))
      (seen st) (firstContentLine st) (tabularFile st) (portColumn st)
  else
    State (Result (entries r ++ [Entry cidr port 0]) (rejected r) (duplicates r) (samples r))
      ({[key]} ∪ seen st) (firstContentLine st) (tabularFile st) (portColumn st).

Definition add (defaultPort : Z) (cidrs : list qstring) (port : Z) (st : ParseState) : ParseState :=
  fold_left (addOne (if port <=? 0 then defaultPort else port)) cidrs st.

Definition setHeader (st : ParseState) (tabular : bool) (column : option nat) : ParseState :=
  State (result st) (seen st) false tabular column.

(** ** The tokens of a line *)

(** The port of an address of a tabular file: the cell of the port column. *)
Definition columnPort (fields : list qstring) (column : option nat) (f : nat) : option Z :=
  match column with
  | Some c =>
      match fields !! c with
      | Some cell => if (c =? f)%nat then None else ipListParsePort cell
      | None => None
      end
  | None => None
  end.

Fixpoint tokensLoop (fields : list qstring) (tabular : bool) (defaultPort : Z) (consumed : bool)
    (tokens : list IpListParseToken) (st : ParseState) : ParseState :=
  match tokens with
  | [] => st
  | token :: rest =>
      let go := tokensLoop fields tabular defaultPort in
      if consumed then go false rest st
      else
        match kind token with
        | Address =>
            if (tport token <? 0) && tabularFile st then
              let port := default (tport token) (columnPort fields (portColumn st) (field token)) in
              go false rest (add defaultPort (cidrs token) port st)
            else
              match rest with
              | next :: _ =>
                  if (tport token <? 0) && bool_decide (kind next = Port)
                  then go true rest (add defaultPort (cidrs token) (tport next) st)
                  else go false rest (add defaultPort (cidrs token) (tport token) st)
              | [] => go false rest (add defaultPort (cidrs token) (tport token) st)
              end
        | Port => go false rest (if negb tabular then reject (text token) st else st)
        | Other =>
            go false rest
              (if negb tabular || ipListParseLooksLikeAddress (text token)
               then reject (text token) st else st)
        end
  end.

Definition rejectAll (tokens : list IpListParseToken) (st : ParseState) : ParseState :=
  fold_left (fun st token => reject (text token) st) tokens st.

(** A line without addresses: a header, or something to report. *)
Definition noAddressLine (line : qstring) (fields : list qstring) (tokens : list IpListParseToken)
    (tabular addressShaped namesColumn : bool) (st : ParseState) : ParseState :=
  if firstContentLine st && negb addressShaped && namesColumn then
    setHeader st true
      (match list_find (fun cell => containsCI cell (u "port") = true) fields with
       | Some (f, _) => Some f
       | None => portColumn st
       end)
  else
    let st := setHeader st (tabularFile st) (portColumn st) in
    if negb tabular then rejectAll tokens st
    else if addressShaped then
      rejectAll (filter (fun token => ipListParseLooksLikeAddress (text token) = true) tokens) st
    else reject line st.

Definition parseLine (defaultPort : Z) (st : ParseState) (rawLine : qstring) : ParseState :=
  match stripLine rawLine with
  | None => st
  | Some line =>
      let line := joinLine line in
      let separated := existsb ipListParseIsSeparator line in
      let fields := map ipListParseUnquote (ipListParseSplit line separated) in
      let tokens := lineTokens fields in
      if bool_decide (tokens = []) then st
      else
        let tabular := separated || tabularFile st in
        let isAddress token := bool_decide (kind token = Address) in
        let addressShaped :=
          existsb (fun token => negb (isAddress token) && ipListParseLooksLikeAddress (text token)) tokens in
        let namesColumn := existsb (fun token => ipListParseIsColumnName (text token)) tokens in
        if negb (existsb isAddress tokens)
        then noAddressLine line fields tokens tabular addressShaped namesColumn st
        else tokensLoop fields tabular defaultPort false tokens
               (setHeader st (tabularFile st) (portColumn st))
  end.

Definition initialState : ParseState := State (Result [] 0 0 []) ∅ true false None.

(** The code stops before an empty last line, which is skipped anyway. *)
Definition ParseIpListText (text : list Z) (defaultPort : Z) : ParseResult :=
  let defaultPort := if (defaultPort <? 0) || (65535 <? defaultPort) then 0 else defaultPort in
  let content := fromUtf8 text in
  let content := if startsWith content [65279] then drop 1 content else content in
  result (fold_left (parseLine defaultPort) (splitOn 10 content) initialState).
End Lines.
