(* ===== verification/IpListInvariant.v ===== *)
(** * IpListInvariant: what the state of [ParseIpListText] holds

    Two invariants of the loop over the lines: the entries are well formed and
    distinct, and they are the first occurrences of what the address tokens of the
    text offer, each token exactly the addresses of its range. *)

From S2P Require Import Prelude Text IpAddress IpV4 IpV6 IpNetwork IpRange IpCover IpListText.

(** The text of a masked, nonempty-prefix network. *)
Definition networkText (c : qstring) : Prop := exists fam b, validBlock fam b /\ c = blockText b.

Definition portRange (p : Z) : Prop := 0 <= p <= 65535.

(** An entry as the parser makes it. *)
Definition wfEntry (e : IpListEntry) : Prop :=
  networkText (cidr e) /\ portRange (port e) /\ latencyMs e = 0.

Definition keyOf (e : IpListEntry) : qstring := entryKey (cidr e) (port e).

Definition wfResult (r : ParseResult) : Prop :=
  Forall wfEntry (entries r) /\ NoDup (map keyOf (entries r)) /\ 0 <= duplicates r /\
  Z.of_nat (length (samples r)) = Z.min 5 (rejected r) /\
  Forall (fun t => (length t <= 64)%nat) (samples r).

Definition wfState (st : ParseState) : Prop :=
  wfResult (result st) /\ forall k, k ∈ seen st <-> k ∈ map keyOf (entries (result st)).

Definition wfToken (t : IpListParseToken) : Prop :=
  Forall networkText (cidrs t) /\ -1 <= tport t <= 65535 /\ (kind t = Port -> portRange (tport t)).

Section Invariant.
Context `{Q : QtText} {L : QtTextLaws Q}.

Lemma addressToken_wf text cs p :
  ipListParseAddressToken text = Some (cs, p) -> Forall networkText cs /\ -1 <= p <= 65535.
Proof.
  unfold ipListParseAddressToken. destruct (bool_decide _); [done|].
  destruct (containsChar text 45).
  { intros H. apply rangeToken_exact in H as (dash & r & a & b & bs & _ & _ & Hp & _ & _ & -> & Hv & _).
    split; [|done]. apply Forall_map. eapply Forall_impl; [exact Hv|]. intros b' Hb. by eexists _, _. }
  destruct (hostPort text) as [[n q]|] eqn:Eh; [|done].
  destruct (ipListParseNetwork n) as [[a pr]|] eqn:En; [|done]. intros [= <- <-].
  apply ipListParseNetwork_wf in En as (H1 & H2 & H3 & _). split.
  - apply Forall_singleton. exists (v6 a), (a, pr). done.
  - revert Eh. unfold hostPort. repeat case_match; try done; intros [= <- <-]; try lia;
      match goal with H : ipListParsePort _ = Some _ |- _ => apply ipListParsePort_range in H end; lia.
Qed.

Lemma classify_wf f w t : classify f w = Some t -> wfToken t.
Proof.
  unfold classify. destruct (bool_decide _); [done|].
  destruct (ipListParseAddressToken _) as [[cs p]|] eqn:Ea.
  { intros [= <-]. by apply addressToken_wf in Ea as [? ?]. }
  destruct (ipListParsePort _) as [p|] eqn:Ep; intros [= <-].
  - apply ipListParsePort_range in Ep. split; [constructor|]. simpl. unfold portRange. lia.
  - split; [constructor|]. simpl. split; [lia|done].
Qed.

Lemma lineTokens_wf fields : Forall wfToken (lineTokens fields).
Proof.
  unfold lineTokens. apply Forall_concat, Forall_lookup. intros i ts.
  rewrite list_lookup_imap, fmap_Some. intros (cell & _ & ->).
  apply Forall_forall. intros t. unfold fieldTokens. rewrite list_elem_of_omap.
  intros (w & _ & H). by eapply classify_wf.
Qed.

Lemma setHeader_wf st b c : wfState st -> wfState (setHeader st b c).
Proof. done. Qed.

Lemma reject_wf t st : wfState st -> wfState (reject t st).
Proof.
  intros [(He & Hn & Hd & Hl & Hs) Hk]. split; [|done]. unfold reject. simpl.
  split_and!; simpl; [done|done|done| |]; unfold kIpListParseMaxSamples in *.
  - destruct (Nat.ltb_spec (length (samples (result st))) 5); [rewrite length_app; simpl|]; lia.
  - destruct (Nat.ltb_spec (length (samples (result st))) 5); [|done].
    apply Forall_app. split; [done|]. apply Forall_singleton. rewrite length_take.
    unfold kIpListParseSampleChars. lia.
Qed.

Lemma rejectAll_wf ts st : wfState st -> wfState (rejectAll ts st).
Proof.
  revert st. unfold rejectAll. induction ts as [|t ts IH]; intros st H; [done|].
  apply IH. by apply reject_wf.
Qed.

Lemma addOne_wf p st c : portRange p -> networkText c -> wfState st -> wfState (addOne p st c).
Proof.
  intros Hp Hc [(He & Hn & Hd & Hl & Hs) Hk]. unfold addOne.
  destruct (bool_decide_reflect (entryKey c p ∈ seen st)) as [Hin|Hin].
  { split; [|done]. split_and!; simpl; try done. lia. }
  split.
  - split_and!; simpl; [|  |done|done|done].
    + apply Forall_app. split; [done|]. by apply Forall_singleton.
    + rewrite map_app. apply NoDup_app. split; [done|]. split; [|apply NoDup_singleton].
      intros k Hkin Hk1. apply Hk in Hkin. simpl in Hk1. apply list_elem_of_singleton in Hk1 as ->. done.
  - intros k. simpl. rewrite map_app, elem_of_union, elem_of_singleton, elem_of_app, Hk. simpl.
    rewrite list_elem_of_singleton. tauto.
Qed.

Lemma add_wf dp cs p st :
  portRange dp -> -1 <= p <= 65535 -> Forall networkText cs -> wfState st -> wfState (add dp cs p st).
Proof.
  intros Hdp Hp Hcs. unfold add.
  assert (Hq : portRange (if p <=? 0 then dp else p))
    by (destruct (Z.leb_spec p 0); [done|unfold portRange; lia]).
  revert st. induction Hcs as [|c cs Hc Hcs IH]; intros st H; [done|].
  apply IH. by apply addOne_wf.
Qed.

Lemma tokensLoop_wf fields tab dp ts : portRange dp -> Forall wfToken ts ->
  forall used st, wfState st -> wfState (tokensLoop fields tab dp used ts st).
Proof.
  intros Hdp Hts. induction Hts as [|t ts Ht Hts IH]; intros used st H; [done|].
  cbn [tokensLoop]. destruct used; [by apply IH|].
  destruct Ht as (Hc & Hp & Hpk). destruct (kind t) eqn:Ek.
  - destruct (_ && tabularFile st).
    { apply IH, add_wf; try done. unfold columnPort. repeat case_match; simpl; try lia.
      match goal with |- context [ipListParsePort ?x] => destruct (ipListParsePort x) eqn:E end; simpl; [|lia].
      apply ipListParsePort_range in E. lia. }
    destruct ts as [|n ts]; [by apply IH, add_wf|].
    destruct (bool_decide_reflect (kind n = Port)) as [En|_]; rewrite ?andb_true_r, ?andb_false_r;
      [|by apply IH, add_wf].
    apply Forall_cons in Hts as [(_ & Hn & _) _].
    destruct (tport t <? 0); by apply IH, add_wf.
  - apply IH. destruct (negb tab); [by apply reject_wf|done].
  - apply IH. destruct (_ || _); [by apply reject_wf|done].
Qed.

Lemma parseLine_wf dp st line : portRange dp -> wfState st -> wfState (parseLine dp st line).
Proof.
  intros Hdp H. unfold parseLine. destruct (stripLine line) as [l|]; [|done].
  cbv zeta. destruct (bool_decide _); [done|]. destruct (negb _).
  - unfold noAddressLine. destruct (_ && _ && _); [by apply setHeader_wf|].
    apply (setHeader_wf st (tabularFile st) (portColumn st)) in H.
    repeat case_match; first [by apply rejectAll_wf|by apply reject_wf].
  - apply tokensLoop_wf; [done|apply lineTokens_wf|by apply setHeader_wf].
Qed.

Lemma clampPort_range p : portRange (if (p <? 0) || (65535 <? p) then 0 else p).
Proof. unfold portRange. destruct (Z.ltb_spec p 0), (Z.ltb_spec 65535 p); simpl; lia. Qed.

Lemma parse_wf text dp : wfResult (ParseIpListText text dp).
Proof.
  unfold ParseIpListText. pose proof (clampPort_range dp) as Hp.
  generalize dependent (if (dp <? 0) || (65535 <? dp) then 0 else dp). intros p Hp.
  generalize (splitOn 10 (if startsWith (fromUtf8 text) [65279] then drop 1 (fromUtf8 text) else fromUtf8 text)).
  intros lines. enough (Hst : wfState initialState).
  { revert Hst. generalize initialState. induction lines as [|l ls IH]; intros st H; [apply H|].
    simpl. apply IH. by apply parseLine_wf. }
  split; [|set_solver]. split_and!; simpl; try constructor; lia.
Qed.
End Invariant.

(** ** Exactness *)

(** The addresses a token stands for, as numbers of one family: those of its
    network, or those between the two ends of its range. *)
Inductive tokenRange `{Q : QtText} (text : qstring) : bool -> Z -> Z -> Prop :=
  | RangeNetwork n q a p :
      containsChar text 45 = false -> hostPort text = Some (n, q) -> ipListParseNetwork n = Some (a, p) ->
      tokenRange text (v6 a) (addrValue a) (addrValue a + 2 ^ (ipListParseBits a - p) - 1)
  | RangeEnds dash right q a b :
      indexOfChar 45 text = Some dash -> rangeRight (drop (dash + 1) text) = Some (right, q) ->
      ipListParseRangeEnd (take dash text) = Some a -> rangeLast a right = Some b ->
      tokenRange text (v6 a) (Z.min (addrValue a) (addrValue b)) (Z.max (addrValue a) (addrValue b)).

(** The blocks of a token are those of its range, every address once. *)
Definition exactToken `{Q : QtText} (t : IpListParseToken) : Prop :=
  exists fam F E bs, tokenRange (text t) fam F E /\ cidrs t = map blockText bs /\ exactCover fam F E bs.

(** The first occurrence of every entry. *)
Definition firsts (es : list IpListEntry) : list IpListEntry :=
  fold_left (fun acc e => if bool_decide (e ∈ acc) then acc else acc ++ [e]) es [].

(** The lines of a text, and the address tokens of a line in reading order. *)
Definition linesOf `{Q : QtText} (text : list Z) : list qstring :=
  let content := fromUtf8 text in
  splitOn 10 (if startsWith content [65279] then drop 1 content else content).

Definition addressesOf `{Q : QtText} (rawLine : qstring) : list IpListParseToken :=
  match stripLine rawLine with
  | None => []
  | Some line =>
      let line := joinLine line in
      filter (fun t => kind t = Address)
        (lineTokens (map ipListParseUnquote (ipListParseSplit line (existsb ipListParseIsSeparator line))))
  end.

Definition addressTokens `{Q : QtText} (text : list Z) : list IpListParseToken := concat (map addressesOf (linesOf text)).

(** What a token offers under a port, and tokens under theirs. *)
Definition offer (t : IpListParseToken) (p : Z) : list IpListEntry := map (fun c => Entry c p 0) (cidrs t).

Definition offers (ts : list IpListParseToken) (ports : list Z) : list IpListEntry := concat (zip_with offer ts ports).

(** The port of a token: its own, or what stands in for it. *)
Definition portOf (t : IpListParseToken) (p : Z) : Prop := portRange p /\ (0 < tport t -> p = tport t).

Section Exact.
Context `{Q : QtText} {L : QtTextLaws Q}.

Lemma exact_network a p : validBlock (v6 a) (a, p) ->
  exactCover (v6 a) (addrValue a) (addrValue a + 2 ^ (ipListParseBits a - p) - 1) [(a, p)].
Proof.
  intros Hv. split; [by apply Forall_singleton|]. intros x. apply (tiles_partition (v6 a)); [by apply Forall_singleton|].
  split; [done|]. unfold blockSize. simpl. lia.
Qed.

Lemma addressToken_exact text cs p f :
  ipListParseAddressToken text = Some (cs, p) -> exactToken (Token text f Address cs p).
Proof.
  unfold ipListParseAddressToken. destruct (bool_decide _); [done|]. destruct (containsChar text 45) eqn:Ed.
  { intros H. apply rangeToken_exact in H as (dash & r & a & b & bs & H1 & H2 & _ & H3 & H4 & H5 & H6).
    exists (v6 a), (Z.min (addrValue a) (addrValue b)), (Z.max (addrValue a) (addrValue b)), bs.
    split; [by eapply RangeEnds|done]. }
  destruct (hostPort text) as [[n q]|] eqn:Eh; [|done].
  destruct (ipListParseNetwork n) as [[a pr]|] eqn:En; [|done]. intros [= <- <-].
  pose proof (ipListParseNetwork_wf _ _ _ En) as (H1 & H2 & H3 & _).
  exists (v6 a), (addrValue a), (addrValue a + 2 ^ (ipListParseBits a - pr) - 1), [(a, pr)].
  split; [by eapply RangeNetwork|]. split; [done|]. by apply exact_network.
Qed.

Lemma addresses_exact line : Forall exactToken (addressesOf line).
Proof.
  unfold addressesOf. destruct (stripLine line) as [l|]; [|constructor]. cbv zeta.
  set (fields := map ipListParseUnquote _). apply Forall_forall. intros t [Hk Ht]%list_elem_of_filter.
  unfold lineTokens in Ht. apply list_elem_of_In, in_concat in Ht as (ts & Hts%list_elem_of_In & Ht%list_elem_of_In).
  apply list_elem_of_lookup in Hts as [i Hi]. rewrite list_lookup_imap in Hi.
  destruct (fields !! i) as [cell|]; [|done]. injection Hi as <-. unfold fieldTokens in Ht.
  apply list_elem_of_omap in Ht as (w & _ & Hc). revert Hc. unfold classify. destruct (bool_decide _); [done|].
  destruct (ipListParseAddressToken _) as [[cs p]|] eqn:Ea; [intros [= <-]; by apply addressToken_exact|].
  destruct (ipListParsePort _); intros [= <-]; done.
Qed.

Lemma addressTokens_exact text : Forall exactToken (addressTokens text).
Proof.
  unfold addressTokens. apply Forall_concat, Forall_map, Forall_forall. intros line _. apply addresses_exact.
Qed.

Lemma networkText_no_space c : networkText c -> 32 ∉ c.
Proof.
  intros (fam & [a p] & (H1 & _ & H3 & _) & ->) Hin. cbn [fst snd] in *.
  pose proof (cidr_chars a p H1 ltac:(lia)) as Hc. rewrite Forall_forall in Hc. apply Hc in Hin. unfold cidrChar in Hin. lia.
Qed.

Lemma key_inj c1 p1 c2 p2 : 32 ∉ c1 -> 32 ∉ c2 -> entryKey c1 p1 = entryKey c2 p2 -> c1 = c2 /\ p1 = p2.
Proof.
  intros H1 H2. unfold entryKey. change (u " ") with [32]. intros E.
  pose proof (indexOfChar_app 32 c1 (number 10 p1) H1) as I1.
  pose proof (indexOfChar_app 32 c2 (number 10 p2) H2) as I2.
  simpl in E. rewrite E, I2 in I1. injection I1 as I1.
  apply app_inj_1 in E as [E1 E2]; [|done]. injection E2 as E2. apply number_inj in E2. done.
Qed.

Lemma key_entry e1 e2 : wfEntry e1 -> wfEntry e2 -> keyOf e1 = keyOf e2 -> e1 = e2.
Proof.
  intros (N1 & _ & L1) (N2 & _ & L2) E. apply key_inj in E as [E1 E2]; try by apply networkText_no_space.
  destruct e1, e2. simpl in *. congruence.
Qed.

(** The entries are the first occurrences of what was offered so far, [all], and the
    others were counted. *)
Definition Holds (all : list IpListEntry) (st : ParseState) : Prop :=
  wfState st /\ entries (result st) = firsts all /\
  duplicates (result st) = Z.of_nat (length all) - Z.of_nat (length (firsts all)).

Lemma firsts_snoc all e : firsts (all ++ [e]) = if bool_decide (e ∈ firsts all) then firsts all else firsts all ++ [e].
Proof. unfold firsts. by rewrite fold_left_app. Qed.

Lemma addOne_holds p st c all :
  portRange p -> networkText c -> Holds all st -> Holds (all ++ [Entry c p 0]) (addOne p st c).
Proof.
  intros Hp Hc (Hw & He & Hd). split; [by apply addOne_wf|]. destruct Hw as [(Hwf & _) Hseen].
  assert (Hkey : entryKey c p ∈ seen st <-> Entry c p 0 ∈ entries (result st)).
  { rewrite Hseen. split.
    - intros (e & Ek & Hin)%list_elem_of_fmap. rewrite Forall_forall in Hwf.
      rewrite (key_entry (Entry c p 0) e); [done|by split_and!|by apply Hwf|done].
    - intros Hin. by apply (list_elem_of_fmap_2 keyOf) in Hin. }
  rewrite firsts_snoc, <- He. unfold addOne. rewrite (bool_decide_ext _ _ Hkey).
  case_bool_decide; simpl; split; try done; rewrite ?Hd, ?He, ?length_app; simpl; lia.
Qed.

Lemma add_holds dp t p st all :
  portRange dp -> -1 <= p <= 65535 -> wfToken t -> Holds all st ->
  let q := if p <=? 0 then dp else p in portRange q /\ Holds (all ++ offer t q) (add dp (cidrs t) p st).
Proof.
  intros Hdp Hp (Hcs & _) H. cbv zeta. unfold add, offer. set (q := if p <=? 0 then dp else p).
  assert (Hq : portRange q) by (unfold q; destruct (Z.leb_spec p 0); [done|unfold portRange; lia]).
  split; [done|]. clearbody q. revert st all H. induction Hcs as [|c cs Hc Hcs IH]; intros st all H.
  - by rewrite app_nil_r.
  - cbn [map fold_left]. rewrite (cons_middle (Entry c q 0)), app_assoc. by apply IH, addOne_holds.
Qed.

Lemma reject_holds t st all : Holds all st -> Holds all (reject t st).
Proof. intros (H1 & H2). split; [by apply reject_wf|done]. Qed.

Lemma rejectAll_holds ts st all : Holds all st -> Holds all (rejectAll ts st).
Proof. unfold rejectAll. revert st. induction ts as [|t ts IH]; intros st H; [done|]. by apply IH, reject_holds. Qed.

Lemma offers_cons t p ts ports : offers (t :: ts) (p :: ports) = offer t p ++ offers ts ports.
Proof. done. Qed.

(** Every address token of a line is offered once, under a port of its own or of the
    line. *)
Lemma tokensLoop_holds fields tab dp ts : portRange dp -> Forall wfToken ts -> forall used st all,
  (used = true -> exists t rest, ts = t :: rest /\ kind t = Port) -> Holds all st ->
  exists ports, Forall2 portOf (filter (fun t => kind t = Address) ts) ports /\
    Holds (all ++ offers (filter (fun t => kind t = Address) ts) ports) (tokensLoop fields tab dp used ts st).
Proof.
  intros Hdp Hts. induction Hts as [|t ts Ht Hts IH]; intros used st all Hu H.
  { exists []. split; [constructor|]. simpl. by rewrite app_nil_r. }
  assert (Hskip : forall st', kind t <> Address -> Holds all st' -> exists ports,
    Forall2 portOf (filter (fun t => kind t = Address) (t :: ts)) ports /\
    Holds (all ++ offers (filter (fun t => kind t = Address) (t :: ts)) ports) (tokensLoop fields tab dp false ts st')).
  { intros st' Hk H'. rewrite filter_cons_False by done. by apply IH. }
  cbn [tokensLoop]. destruct used.
  { destruct (Hu eq_refl) as (t' & rest & [= <- <-] & Hk). apply Hskip; [congruence|done]. }
  destruct (kind t) eqn:Ek.
  - assert (Hadd : forall p used', -1 <= p <= 65535 -> (0 < tport t -> p = tport t) ->
      (used' = true -> exists n rest, ts = n :: rest /\ kind n = Port) -> exists ports,
      Forall2 portOf (filter (fun t => kind t = Address) (t :: ts)) ports /\
      Holds (all ++ offers (filter (fun t => kind t = Address) (t :: ts)) ports)
        (tokensLoop fields tab dp used' ts (add dp (cidrs t) p st))).
    { intros p used' Hp Hown Hu'. destruct (add_holds dp t p st all Hdp Hp Ht H) as [Hq Ha].
      set (q := if p <=? 0 then dp else p) in *. destruct (IH used' _ _ Hu' Ha) as (ports & Hports & Hall).
      exists (q :: ports). rewrite filter_cons_True by done. split.
      - constructor; [|done]. split; [done|]. intros Hpos. unfold q. rewrite (Hown Hpos).
        destruct (Z.leb_spec (tport t) 0); [lia|done].
      - by rewrite offers_cons, app_assoc. }
    destruct Ht as (_ & Hp & _). destruct (_ && tabularFile st) eqn:Et.
    { apply andb_true_iff in Et as [Et%Z.ltb_lt _]. apply Hadd; [|lia|done].
      unfold columnPort. repeat case_match; simpl; try lia.
      match goal with |- context [ipListParsePort ?x] => destruct (ipListParsePort x) eqn:E end; simpl; [|lia].
      apply ipListParsePort_range in E. lia. }
    destruct ts as [|n ts]; [by apply Hadd|].
    destruct ((tport t <? 0) && bool_decide (kind n = Port)) eqn:En; [|by apply Hadd].
    bool_to_prop. apply Forall_cons in Hts as [(_ & Hn & _) _]. apply Hadd; [done|lia|]. intros _. by exists n, ts.
  - apply Hskip; [done|]. destruct (negb tab); [by apply reject_holds|done].
  - apply Hskip; [done|]. destruct (_ || _); [by apply reject_holds|done].
Qed.

Lemma noAddress_holds line fields ts tab sh nm st all : Holds all st -> Holds all (noAddressLine line fields ts tab sh nm st).
Proof.
  intros H. unfold noAddressLine. destruct (_ && _ && _); [done|].
  repeat case_match; first [by apply rejectAll_holds|by apply reject_holds].
Qed.

Lemma parseLine_holds dp st line all : portRange dp -> Holds all st ->
  exists ports, Forall2 portOf (addressesOf line) ports /\
    Holds (all ++ offers (addressesOf line) ports) (parseLine dp st line).
Proof.
  intros Hdp H. assert (Hnone : forall l st', l = [] -> Holds all st' -> exists ports,
    Forall2 portOf l ports /\ Holds (all ++ offers l ports) st').
  { intros l st' -> H'. exists []. split; [constructor|]. simpl. by rewrite app_nil_r. }
  unfold parseLine, addressesOf. destruct (stripLine line) as [l|]; [|by apply Hnone]. cbv zeta.
  set (fields := map ipListParseUnquote _). destruct (bool_decide_reflect (lineTokens fields = [])) as [E|_].
  { apply Hnone; [by rewrite E|done]. }
  destruct (existsb _ (lineTokens fields)) eqn:Ea; cbn [negb].
  - apply tokensLoop_holds; [done|apply lineTokens_wf|done|done].
  - apply Hnone; [|by apply noAddress_holds]. apply filter_none. intros t Ht Hk.
    apply not_true_iff_false in Ea. apply Ea, existsb_exists. exists t. split; [by apply list_elem_of_In|]. by rewrite Hk.
Qed.

Lemma offers_app ts ts' ps ps' : length ts = length ps -> offers (ts ++ ts') (ps ++ ps') = offers ts ps ++ offers ts' ps'.
Proof. intros E. unfold offers. by rewrite zip_with_app, concat_app. Qed.

(** Every address token of the text is offered once. *)
Lemma parse_exact text dp :
  exists ports, Forall2 portOf (addressTokens text) ports /\
    let all := offers (addressTokens text) ports in
    entries (ParseIpListText text dp) = firsts all /\
    duplicates (ParseIpListText text dp) = Z.of_nat (length all) - Z.of_nat (length (firsts all)).
Proof.
  unfold ParseIpListText, addressTokens, linesOf. pose proof (clampPort_range dp) as Hp.
  generalize dependent (if (dp <? 0) || (65535 <? dp) then 0 else dp). intros p Hp.
  generalize (splitOn 10 (if startsWith (fromUtf8 text) [65279] then drop 1 (fromUtf8 text) else fromUtf8 text)). intros lines.
  enough (Hgo : forall st all, Holds all st -> exists ports, Forall2 portOf (concat (map addressesOf lines)) ports /\
    Holds (all ++ offers (concat (map addressesOf lines)) ports) (fold_left (parseLine p) lines st)).
  { destruct (Hgo initialState []) as (ports & H1 & _ & H2); [|by exists ports]. split; [|done].
    split; [|set_solver]. split_and!; simpl; try constructor; lia. }
  induction lines as [|l lines IH]; intros st all H.
  { exists []. split; [constructor|]. simpl. by rewrite app_nil_r. }
  destruct (parseLine_holds p st l all Hp H) as (ps & Hps & H1). destruct (IH _ _ H1) as (ports & Hports & H2).
  exists (ps ++ ports). cbn [map concat fold_left]. split; [by apply Forall2_app|].
  rewrite offers_app by (by apply Forall2_length in Hps). by rewrite app_assoc.
Qed.
End Exact.
