(* ===== verification/IpListProps.v ===== *)
(** * IpListProps: what [ParseIpListText] guarantees

    The round trip of a whole list through [FormatEntry] and [ParseIpListText],
    and the properties of the parser (its invariant is in IpListInvariant). *)

From S2P Require Import Prelude Text IpAddress IpV4 IpV6 IpNetwork IpRange IpCover IpListText IpListInvariant.

(** ** The round trip *)

(** An entry whose [cidr] is canonical as IpList.h documents it: the text of a
    network the reader can return. *)
Definition canonicalEntry (e : IpListEntry) : Prop :=
  exists a p, wfNetwork a p /\ cidr e = ipListParseCidr a p /\ portRange (port e) /\ latencyMs e = 0.

(** The characters of a formatted entry's tokens: no space, quote, dash,
    separator or comment sign. *)
Definition tokenChar (c : qchar) : Prop := cidrChar c \/ c = 91 \/ c = 93.

Lemma indexOf_double_none s c : (count s c <= 1)%nat -> indexOf [c; c] s = None.
Proof.
  unfold count. induction s as [|x s IH]; intros H; [done|].
  cbn [indexOf]. destruct (startsWith (x :: s) [c; c]) eqn:E.
  - cbn [startsWith] in E. destruct s as [|y s]; [by rewrite andb_false_r in E|].
    apply andb_true_iff in E as [E1 E2]. apply andb_true_iff in E2 as [E2 _].
    apply Z.eqb_eq in E1 as ->. apply Z.eqb_eq in E2 as ->.
    rewrite !filter_cons_True in H by done. simpl in H. lia.
  - rewrite IH; [done|]. rewrite filter_cons in H. destruct (decide (x = c)); simpl in H; lia.
Qed.

Lemma startsWith_one c s : startsWith (c :: s) [c] = true.
Proof. simpl. rewrite Z.eqb_refl. by destruct s. Qed.

Lemma dropWhileEnd_none f s : Forall (fun c => f c = false) s -> dropWhileEnd f s = s.
Proof. intros H. unfold dropWhileEnd. rewrite dropWhile_none, rev_involutive; [done|]. by apply Forall_rev. Qed.

Lemma splitWhen_none f s : Forall (fun c => f c = false) s -> splitWhen f s = [s].
Proof. intros H. induction H as [|c s Hc H IH]; [done|]. simpl. by rewrite Hc, IH. Qed.

Lemma existsb_none {A} (f : A -> bool) l : Forall (fun x => f x = false) l -> existsb f l = false.
Proof. intros H. induction H as [|x l Hx H IH]; [done|]. simpl. by rewrite Hx. Qed.

Lemma number_tokenChar n : 0 <= n -> Forall tokenChar (number 10 n).
Proof.
  intros Hn. eapply Forall_impl; [by apply number_decimal_chars|]. intros c Hc. left.
  unfold cidrChar. simpl in Hc. lia.
Qed.

Lemma number_not_address n : 0 <= n -> containsChar (number 10 n) 58 = false.
Proof. intros Hn. apply containsChar_false. by apply number_no_sep; [|lia]. Qed.

Section RoundTrip.
Context `{Q : QtText} {L : QtTextLaws Q}.

Lemma tokenChar_plain c : tokenChar c ->
  isSpace c = false /\ isQuote c = false /\ ipListParseIsSeparator c = false /\
  c <> 45 /\ c <> 35 /\ c <> 10 /\ c <> 32 /\ c <> 8211 /\ c <> 59 /\ 0 <= c < 128.
Proof.
  intros Hc. unfold tokenChar, cidrChar in Hc.
  assert (Hr : 46 <= c <= 58 \/ 91 <= c <= 102) by lia.
  unfold isQuote, ipListParseIsSeparator. rewrite isSpace_ascii by lia.
  lia.
Qed.

Lemma not_space s : Forall tokenChar s -> Forall (fun c => isSpace c = false) s.
Proof. intros H. eapply Forall_impl; [exact H|]. intros c Hc. by apply tokenChar_plain. Qed.

Lemma unquote_token s : Forall tokenChar s -> ipListParseUnquote s = s.
Proof.
  intros H. unfold ipListParseUnquote. pose proof (not_space s H) as Hs.
  assert (Hq : Forall (fun c => isQuote c = false) s)
    by (eapply Forall_impl; [exact H|]; intros c Hc; by apply tokenChar_plain).
  rewrite (trimmed_no_space s), (dropWhile_none isQuote), (dropWhileEnd_none isQuote), (trimmed_no_space s);
    done.
Qed.

Lemma token_no s c : Forall tokenChar s -> ~ tokenChar c -> c ∉ s.
Proof. intros H Hc Hin. rewrite Forall_forall in H. by apply Hc, H. Qed.

(** The tokens of one or two words. *)
Lemma fieldTokens_word f s :
  s <> [] -> Forall tokenChar s -> fieldTokens f s = match classify f s with Some t => [t] | None => [] end.
Proof.
  intros Hne H. unfold fieldTokens, ipListParseSplit. rewrite splitWhen_none by by apply not_space.
  rewrite filter_cons_True, filter_nil by done. simpl. by destruct (classify f s).
Qed.

(** The address token of a canonical network without or with its port. *)
Lemma classify_address f s cs q :
  s <> [] -> Forall tokenChar s -> ipListParseAddressToken s = Some (cs, q) ->
  classify f s = Some (Token s f Address cs q).
Proof. intros Hne H E. unfold classify. rewrite unquote_token by done. by rewrite bool_decide_false, E. Qed.

Lemma classify_port f n : portRange n -> classify f (number 10 n) = Some (Token (number 10 n) f Port [] n).
Proof.
  intros Hn. unfold classify. unfold portRange in Hn. rewrite unquote_token by by apply number_tokenChar; lia.
  rewrite bool_decide_false by (apply number_not_nil; lia).
  replace (ipListParseAddressToken (number 10 n)) with (@None (list qstring * Z));
    [by rewrite ipListParsePort_number|].
  symmetry. unfold ipListParseAddressToken. rewrite bool_decide_false by (apply number_not_nil; lia).
  pose proof (number_tokenChar n ltac:(lia)) as Ht.
  replace (containsChar (number 10 n) 45) with false
    by (symmetry; apply containsChar_false, (token_no _ _ Ht); unfold tokenChar, cidrChar; lia).
  assert (Hb : startsWith (number 10 n) (u "[") = false).
  { apply startsWith_bracket. eapply Forall_impl; [apply number_decimal_chars; lia|].
    intros c Hc. unfold cidrChar. simpl in Hc. lia. }
  unfold hostPort. rewrite Hb, count_none by (apply number_no_sep; lia). simpl (_ =? _)%nat.
  unfold ipListParseNetwork. rewrite trimmed_no_space by by apply not_space.
  unfold splitBracket. rewrite Hb. unfold splitPrefix.
  rewrite (proj2 (indexOfChar_None 47 _)) by (apply number_no_sep; lia). simpl.
  unfold ipListParseAddress. rewrite number_not_address by lia.
  unfold ipListParseV4. rewrite splitOn_none by (apply number_no_sep; lia). cbn [v4Loop].
  destruct (ipListParseDecimal _ 3) as [o|]; [|done]. by repeat case_match.
Qed.

(** ** The token of a canonical network *)

Lemma tokenChar_cidr a p : wfNetwork a p -> Forall tokenChar (ipListParseCidr a p).
Proof.
  intros (H & Hp & _). eapply Forall_impl; [apply cidr_chars; [done|lia]|]. intros c Hc. by left.
Qed.

Lemma tokenChar_format a : wfAddr a -> Forall tokenChar (ipListParseFormat a).
Proof.
  intros H. destruct (format_chars a H) as (Hf & _). eapply Forall_impl; [exact Hf|]. intros c [Hc _]. by left.
Qed.

Lemma format_no a c : wfAddr a -> ~ cidrChar c -> c ∉ ipListParseFormat a.
Proof.
  intros H Hc Hin. destruct (format_chars a H) as (Hf & _). rewrite Forall_forall in Hf.
  apply Hf in Hin as [Hin _]. done.
Qed.

Lemma token_no_dash s : Forall tokenChar s -> containsChar s 45 = false.
Proof. intros H. apply containsChar_false, (token_no _ _ H). unfold tokenChar, cidrChar. lia. Qed.

Lemma count_colon_format a : wfAddr a ->
  if v6 a then (2 <= count (ipListParseFormat a) 58)%nat else count (ipListParseFormat a) 58 = 0%nat.
Proof.
  intros H. destruct (v6 a) eqn:Hv.
  - unfold ipListParseFormat. rewrite Hv. destruct (groupsOf_spec a H Hv) as (Hg & Hl & _). cbn [negb].
    destruct (formatV6_shape _ Hg Hl) as [[-> _]|(i & n & _ & _ & -> & _)].
    + destruct (groupsOf a) as [|g1 [|g2 [|g3 gs]]]; [done..|]. rewrite !hexJoin_cons by done.
      rewrite count_app. change (58 :: hex g2 ++ 58 :: hexJoin (g3 :: gs)) with
        ([58] ++ hex g2 ++ [58] ++ hexJoin (g3 :: gs)). rewrite !count_app. change (count [58] 58) with 1%nat. lia.
    + rewrite !count_app. change (count (u "::") 58) with 2%nat. lia.
  - apply count_none, containsChar_false. destruct (format_chars a H) as (_ & _ & ->). done.
Qed.

Lemma count_colon_cidr a p : wfNetwork a p -> count (ipListParseCidr a p) 58 <> 1%nat.
Proof.
  intros (H & Hp & _). pose proof (count_colon_format a H) as Hc.
  unfold ipListParseCidr. destruct (_ <=? p); [destruct (v6 a); lia|].
  rewrite !count_app, (count_none (number 10 p)) by (apply number_no_sep; lia).
  change (count (u "/") 58) with 0%nat. destruct (v6 a); lia.
Qed.

Lemma token_cidr a p : wfNetwork a p ->
  ipListParseAddressToken (ipListParseCidr a p) = Some ([ipListParseCidr a p], -1).
Proof.
  intros Hn. pose proof Hn as (H & Hp & _). unfold ipListParseAddressToken.
  rewrite bool_decide_false by by apply cidr_not_nil.
  rewrite token_no_dash by by apply tokenChar_cidr.
  unfold hostPort. rewrite startsWith_bracket by (apply cidr_chars; [done|lia]).
  destruct (Nat.eqb_spec (count (ipListParseCidr a p) 58) 1) as [E|_].
  { by apply count_colon_cidr in E. }
  by rewrite network_roundtrip.
Qed.

(** A host address with its port. *)
Lemma FormatTarget_host a p : wfAddr a -> 0 < p ->
  FormatTarget (ipListParseFormat a) p =
    (if v6 a then u "[" ++ ipListParseFormat a ++ u "]:" else ipListParseFormat a ++ u ":") ++ number 10 p.
Proof.
  intros H Hp. unfold FormatTarget. destruct (Z.leb_spec p 0); [lia|].
  destruct (format_chars a H) as (_ & _ & ->). destruct (v6 a); by rewrite <- ?app_assoc.
Qed.

Lemma network_bracket a : wfNetwork a 128 -> v6 a = true ->
  ipListParseNetwork (91 :: ipListParseFormat a ++ [93]) = Some (a, 128).
Proof.
  intros Hn Hv. pose proof (network_roundtrip a 128 Hn) as Hr. destruct Hn as (H & _).
  assert (Hcid : ipListParseCidr a 128 = ipListParseFormat a)
    by (unfold ipListParseCidr, ipListParseBits; by rewrite Hv).
  rewrite Hcid in Hr. unfold ipListParseNetwork in *.
  pose proof (tokenChar_format a H) as Ht.
  assert (Ht2 : Forall tokenChar (91 :: ipListParseFormat a ++ [93])).
  { constructor; [unfold tokenChar; lia|]. apply Forall_app. split; [done|].
    apply Forall_singleton. unfold tokenChar. lia. }
  rewrite trimmed_no_space in Hr by by apply not_space.
  rewrite trimmed_no_space by by apply not_space.
  destruct (format_chars a H) as (Hf & _).
  unfold splitBracket in *.
  rewrite startsWith_bracket in Hr by (eapply Forall_impl; [exact Hf|]; by intros c [Hc _]).
  change (u "[") with [91]. rewrite startsWith_one.
  change (91 :: ipListParseFormat a ++ [93]) with ((91 :: ipListParseFormat a) ++ 93 :: []).
  rewrite indexOfChar_app.
  - simpl length. rewrite (drop_ge _ (S _ + 1)) by (rewrite length_app; simpl; lia).
    replace (S (length (ipListParseFormat a)) - 1)%nat with (length (ipListParseFormat a)) by lia.
    change (drop 1 ((91 :: ipListParseFormat a) ++ [93])) with (ipListParseFormat a ++ [93]).
    rewrite take_app_length. exact Hr.
  - apply not_elem_of_cons. split; [done|]. apply format_no; [done|]. unfold cidrChar. lia.
Qed.

Lemma hostPort_target a p : wfAddr a -> 1 <= p <= 65535 ->
  hostPort ((if v6 a then u "[" ++ ipListParseFormat a ++ u "]:"
             else ipListParseFormat a ++ u ":") ++ number 10 p) =
    Some (if v6 a then 91 :: ipListParseFormat a ++ [93] else ipListParseFormat a, p).
Proof.
  intros H Hp.
  unfold hostPort. destruct (v6 a) eqn:Hv.
    - replace ((u "[" ++ ipListParseFormat a ++ u "]:") ++ number 10 p)
        with ((91 :: ipListParseFormat a) ++ 93 :: 58 :: number 10 p) by (simpl; by rewrite <- app_assoc).
      change (u "[") with [91]. rewrite <- app_comm_cons, startsWith_one, app_comm_cons. rewrite indexOfChar_app
        by (apply not_elem_of_cons; split; [done|]; apply format_no; [done|unfold cidrChar; lia]).
      rewrite drop_app_ge, take_app_ge by lia.
      rewrite Nat.add_comm, Nat.add_sub.
      change (drop 1 (93 :: 58 :: number 10 p)) with (58 :: number 10 p).
      change (u ":") with [58]. rewrite startsWith_one. change (drop 1 (58 :: number 10 p)) with (number 10 p).
      by rewrite ipListParsePort_number by lia.
    - rewrite <- app_assoc. change (u ":" ++ number 10 p) with (58 :: number 10 p).
      assert (Hb : startsWith (ipListParseFormat a ++ 58 :: number 10 p) (u "[") = false).
      { apply startsWith_bracket. apply Forall_app. destruct (format_chars a H) as (Hf & _). split.
        - eapply Forall_impl; [exact Hf|]. by intros c [Hc _].
        - constructor; [unfold cidrChar; lia|]. eapply Forall_impl; [apply number_decimal_chars; lia|].
          intros c Hc. unfold cidrChar. simpl in Hc. lia. }
      rewrite Hb. pose proof (count_colon_format a H) as Hc. rewrite Hv in Hc.
      replace (count (ipListParseFormat a ++ 58%Z :: number 10 p) 58%Z =? 1)%nat with true.
      + rewrite indexOfChar_app by (apply containsChar_false; by destruct (format_chars a H) as (_ & _ & ->)).
        rewrite drop_app_ge, take_app_length by lia.
        replace (length (ipListParseFormat a) + 1 - length (ipListParseFormat a))%nat with 1%nat by lia.
        change (drop 1 (58 :: number 10 p)) with (number 10 p). by rewrite ipListParsePort_number by lia.
      + symmetry. apply Nat.eqb_eq. change (58 :: number 10 p) with ([58] ++ number 10 p). rewrite !count_app, Hc, (count_none (number 10 p)) by (apply number_no_sep; lia). done.
Qed.

Lemma token_host a p : wfNetwork a (ipListParseBits a) -> 1 <= p <= 65535 ->
  ipListParseAddressToken (FormatTarget (ipListParseFormat a) p) = Some ([ipListParseFormat a], p) /\
  Forall tokenChar (FormatTarget (ipListParseFormat a) p).
Proof.
  intros Hn Hp. pose proof (network_roundtrip _ _ Hn) as Hr.
  assert (Hcid : ipListParseCidr a (ipListParseBits a) = ipListParseFormat a)
    by (unfold ipListParseCidr; by rewrite Z.leb_refl).
  pose proof Hn as (H & _). rewrite FormatTarget_host by (done || lia).
  pose proof (tokenChar_format a H) as Ht. pose proof (number_tokenChar p ltac:(lia)) as Htn.
  assert (Htok : Forall tokenChar ((if v6 a then u "[" ++ ipListParseFormat a ++ u "]:"
                                    else ipListParseFormat a ++ u ":") ++ number 10 p)).
  { apply Forall_app. split; [|done]. unfold tokenChar, cidrChar in *.
    destruct (v6 a); rewrite ?Forall_app; split_and!; try done; repeat constructor; simpl; lia. }
  split; [|done]. unfold ipListParseAddressToken. rewrite token_no_dash by done.
  rewrite bool_decide_false by (intros E; apply app_eq_nil in E as [_ E]; by apply number_not_nil in E; [|lia]).
  rewrite hostPort_target by done. destruct (v6 a) eqn:Hv.
  - assert (Hbits : ipListParseBits a = 128) by (unfold ipListParseBits; by rewrite Hv). rewrite Hbits in *.
    rewrite network_bracket by done. by rewrite Hcid.
  - rewrite Hcid in Hr. rewrite Hr. by rewrite Hcid.
Qed.

(** ** The line of a canonical entry *)

Lemma trimmed_words x m z :
  x <> [] -> z <> [] -> Forall (fun c => isSpace c = false) x -> Forall (fun c => isSpace c = false) z ->
  trimmed (x ++ m ++ z) = x ++ m ++ z.
Proof.
  intros Hx Hz Fx Fz. unfold trimmed.
  replace (dropWhile isSpace (x ++ m ++ z)) with (x ++ m ++ z).
  - unfold dropWhileEnd. rewrite !rev_app_distr, <- app_assoc.
    replace (dropWhile isSpace (rev z ++ rev m ++ rev x)) with (rev z ++ rev m ++ rev x).
    + by rewrite !rev_app_distr, !rev_involutive, app_assoc.
    + destruct (rev z) as [|c t] eqn:E; [apply (f_equal (@rev Z)) in E; by rewrite rev_involutive in E|].
      apply Forall_rev in Fz. rewrite E in Fz. apply Forall_cons in Fz as [Hc _]. simpl. by rewrite Hc.
  - destruct x as [|c x]; [done|]. apply Forall_cons in Fx as [Hc _]. simpl. by rewrite Hc.
Qed.

Definition lineChar (c : qchar) : Prop := tokenChar c \/ c = 32.

Lemma line_plain line :
  Forall lineChar line -> trimmed line = line -> line <> [] -> (count line 47 <= 1)%nat ->
  stripLine line = Some line /\ joinLine line = line /\ existsb ipListParseIsSeparator line = false.
Proof.
  intros H Ht Hne Hc.
  assert (Hno : forall c, ~ tokenChar c -> c <> 32 -> c ∉ line)
    by (intros c H1 H2 Hin; rewrite Forall_forall in H; by destruct (H c Hin)).
  split_and!.
  - unfold stripLine.
    rewrite (proj2 (indexOfChar_None 35 _)) by (apply Hno; unfold tokenChar, cidrChar; lia).
    change (u "//") with [47; 47]. rewrite indexOf_double_none by done. rewrite Ht.
    rewrite bool_decide_false by done. destruct line as [|c l]; [done|].
    apply Forall_cons in H as [H _]. change (u ";") with [59]. cbn [startsWith].
    destruct (Z.eqb_spec c 59); [|done]. unfold lineChar, tokenChar, cidrChar in H. lia.
  - unfold joinLine. by rewrite !(proj2 (containsChar_false _ _))
      by (apply Hno; unfold tokenChar, cidrChar; lia).
  - apply existsb_none. eapply Forall_impl; [exact H|]. intros c [Hk| ->]; [|done].
    by apply tokenChar_plain.
Qed.

Lemma parseLine_word s c q st :
  Forall tokenChar s -> s <> [] -> (count s 47 <= 1)%nat -> tabularFile st = false ->
  ipListParseAddressToken s = Some ([c], q) ->
  parseLine 0 st s = addOne (if q <=? 0 then 0 else q) (setHeader st false (portColumn st)) c.
Proof.
  intros H Hne Hc Htab E.
  destruct (line_plain s) as (E1 & E2 & E3); [|by apply trimmed_no_space, not_space|done|done|].
  { eapply Forall_impl; [exact H|]. intros x Hx. by left. }
  assert (Hf : map ipListParseUnquote (ipListParseSplit s false) = [s]).
  { unfold ipListParseSplit. rewrite splitWhen_none by by apply not_space.
    rewrite filter_cons_True, filter_nil by done. simpl. by rewrite unquote_token. }
  assert (Ht : lineTokens [s] = [Token s 0 Address [c] q]).
  { unfold lineTokens. simpl. by rewrite fieldTokens_word, (classify_address _ _ _ _ Hne H E). }
  unfold parseLine. rewrite E1, E2, E3, Hf, Ht, Htab. simpl. by rewrite andb_false_r.
Qed.

Lemma parseLine_words s c p st :
  Forall tokenChar s -> s <> [] -> (count s 47 <= 1)%nat -> tabularFile st = false ->
  ipListParseAddressToken s = Some ([c], -1) -> 1 <= p <= 65535 ->
  parseLine 0 st (s ++ u " " ++ number 10 p) = addOne p (setHeader st false (portColumn st)) c.
Proof.
  intros H Hne Hc Htab E Hp. pose proof (number_tokenChar p ltac:(lia)) as Hn.
  pose proof (number_not_nil 10 p ltac:(lia)) as Hnn.
  destruct (line_plain (s ++ u " " ++ number 10 p)) as (E1 & E2 & E3).
  { rewrite !Forall_app. split_and!; [|repeat constructor|]; (eapply Forall_impl; [eassumption|]); by left. }
  { by apply trimmed_words; [| |apply not_space|apply not_space]. }
  { by destruct s. }
  { rewrite !count_app, (count_none (number 10 p)) by (apply number_no_sep; lia).
    change (count (u " ") 47) with 0%nat. lia. }
  assert (Hf : map ipListParseUnquote (ipListParseSplit (s ++ u " " ++ number 10 p) false) = [s; number 10 p]).
  { unfold ipListParseSplit. change (u " " ++ number 10 p) with (32 :: number 10 p).
    rewrite splitWhen_app by (by apply not_space || by rewrite isSpace_ascii by lia).
    rewrite splitWhen_none by by apply not_space.
    rewrite !filter_cons_True, filter_nil by done. simpl map. by rewrite !unquote_token. }
  assert (Ht : lineTokens [s; number 10 p] =
    [Token s 0 Address [c] (-1); Token (number 10 p) 1 Port [] p]).
  { unfold lineTokens. simpl imap.
    by rewrite !fieldTokens_word, (classify_address _ _ _ _ Hne H E), classify_port by (done || unfold portRange; lia). }
  unfold parseLine. rewrite E1, E2, E3, Hf, Ht, Htab. simpl.
  unfold add. simpl. by destruct (Z.leb_spec p 0); [lia|].
Qed.

Lemma count_slash_cidr a p : wfNetwork a p -> (count (ipListParseCidr a p) 47 <= 1)%nat.
Proof.
  intros (H & Hp & _).
  assert (Hf : count (ipListParseFormat a) 47 = 0%nat).
  { apply count_none. destruct (format_chars a H) as (Hc & _). intros Hin.
    rewrite Forall_forall in Hc. by apply Hc in Hin as [_ Hin]. }
  unfold ipListParseCidr. destruct (_ <=? p); [lia|].
  rewrite !count_app, Hf, (count_none (number 10 p)) by (apply number_no_sep; lia). done.
Qed.

Lemma formatEntry_line e st :
  canonicalEntry e -> tabularFile st = false ->
  parseLine 0 st (FormatEntry e) = addOne (port e) (setHeader st false (portColumn st)) (cidr e) /\
  (10 ∉ FormatEntry e) /\ Forall lineChar (FormatEntry e).
Proof.
  intros (a & p & Hn & Ec & Hp & _) Htab. unfold portRange in Hp.
  pose proof (count_slash_cidr _ _ Hn) as Hs. pose proof (tokenChar_cidr _ _ Hn) as Ht.
  pose proof Hn as (H & Hpr & _). pose proof (cidr_not_nil a p H) as Hne.
  enough (Hg : parseLine 0 st (FormatEntry e) = addOne (port e) (setHeader st false (portColumn st)) (cidr e) /\
               Forall lineChar (FormatEntry e)).
  { destruct Hg as [? Hl]. split_and!; [done| |done]. intros Hin. rewrite Forall_forall in Hl.
    apply Hl in Hin as [Hin|Hin]; [unfold tokenChar, cidrChar in Hin; lia|done]. }
  assert (Hlift : forall l, Forall tokenChar l -> Forall lineChar l)
    by (intros l Hl; eapply Forall_impl; [exact Hl|]; by left).
  unfold FormatEntry. rewrite Ec, IsHostCidr_cidr by done.
  destruct (cidr_slash a p H) as [Esl _]. rewrite Esl. destruct (Z.leb_spec (ipListParseBits a) p).
  - replace p with (ipListParseBits a) in * by lia.
    assert (Hcid : ipListParseCidr a (ipListParseBits a) = ipListParseFormat a)
      by (unfold ipListParseCidr; by rewrite Z.leb_refl).
    rewrite Hcid in *. destruct (Z.leb_spec (port e) 0).
    + replace (port e) with 0 by lia. change (FormatTarget (ipListParseFormat a) 0) with (ipListParseFormat a).
      split; [|by apply Hlift].
      pose proof (token_cidr _ _ Hn) as E. rewrite Hcid in E.
      by rewrite (parseLine_word _ _ _ st Ht Hne Hs Htab E).
    + destruct (token_host a (port e) Hn ltac:(lia)) as [E Htok]. split; [|by apply Hlift].
      rewrite (parseLine_word _ _ _ st Htok) with (3 := Htab) (4 := E);
        [by destruct (Z.leb_spec (port e) 0); [lia|]| |].
      * rewrite FormatTarget_host by (done || lia). intros E0. apply app_eq_nil in E0 as [_ E0].
        by apply number_not_nil in E0; [|lia].
      * rewrite FormatTarget_host by (done || lia).
        rewrite count_app, (count_none (number 10 (port e))) by (apply number_no_sep; lia).
        destruct (v6 a); rewrite !count_app;
          repeat match goal with |- context [count (u ?l) 47] => change (count (u l) 47) with 0%nat end; lia.
  - pose proof (token_cidr _ _ Hn) as E. destruct (Z.leb_spec (port e) 0).
    + replace (port e) with 0 by lia. split; [|by apply Hlift].
      by rewrite (parseLine_word _ _ _ st Ht Hne Hs Htab E).
    + split; [apply parseLine_words; (done || lia)|]. rewrite !Forall_app. split_and!; [by apply Hlift|apply Forall_singleton; by right|].
      apply Hlift, number_tokenChar. lia.
Qed.

Lemma entryKey_inj e1 e2 : canonicalEntry e1 -> canonicalEntry e2 -> keyOf e1 = keyOf e2 -> e1 = e2.
Proof.
  assert (Hw : forall e, canonicalEntry e -> wfEntry e).
  { intros e (a & p & (H1 & Hp1 & Hm & _) & Ec & H). split; [|done]. exists (v6 a), (a, p). done. }
  intros H1 H2. apply key_entry; by apply Hw.
Qed.

Lemma fold_entries es st :
  Forall canonicalEntry es -> NoDup es -> tabularFile st = false ->
  (forall e, e ∈ es -> keyOf e ∉ seen st) ->
  exists st', fold_left (parseLine 0) (map FormatEntry es) st = st' /\
    result st' = Result (entries (result st) ++ es) (rejected (result st))
                   (duplicates (result st)) (samples (result st)).
Proof.
  revert st. induction es as [|e es IH]; intros st Hc Hnd Htab Hseen.
  { eexists. split; [done|]. simpl. rewrite app_nil_r. by destruct (result st). }
  apply Forall_cons in Hc as [He Hc]. apply NoDup_cons in Hnd as [Hni Hnd].
  destruct (formatEntry_line e st He Htab) as [El _]. simpl. rewrite El. unfold addOne. simpl.
  assert (Hk : keyOf e ∉ seen st) by (apply Hseen; by left).
  unfold keyOf in Hk. rewrite bool_decide_false by done.
  match goal with |- context [fold_left _ _ ?s] => set (st1 := s) end.
  destruct (IH st1 Hc Hnd eq_refl) as (st' & E' & Er).
  - intros e' He'. simpl. rewrite not_elem_of_union, elem_of_singleton. split.
    + intros E. apply Hni. rewrite Forall_forall in Hc. apply entryKey_inj in E; [|by apply Hc|done]. by subst.
    + apply Hseen. by right.
  - exists st'. split; [done|]. rewrite Er. simpl. rewrite <- app_assoc. simpl. do 3 f_equal.
    destruct He as (_ & _ & _ & _ & _ & Hl). destruct e. simpl in *. by subst.
Qed.

Lemma parse_formatted es :
  Forall canonicalEntry es -> NoDup es ->
  ParseIpListText (joinWith 10 (map FormatEntry es)) 0 = Result es 0 0 [].
Proof.
  intros Hc Hnd. unfold ParseIpListText. change ((0 <? 0) || (65535 <? 0)) with false. cbv iota zeta.
  assert (Hlines : Forall (fun l => (10 ∉ l) /\ Forall lineChar l) (map FormatEntry es)).
  { apply Forall_map. eapply Forall_impl; [exact Hc|]. intros e He.
    by apply (formatEntry_line e initialState He eq_refl). }
  assert (Hch : Forall (fun c => 0 <= c < 128) (joinWith 10 (map FormatEntry es))).
  { clear -Hlines. induction Hlines as [|l ls [_ Hl] Hls IH]; [constructor|].
    assert (Hl' : Forall (fun c => 0 <= c < 128) l).
    { eapply Forall_impl; [exact Hl|]. intros c Hcc. unfold lineChar, tokenChar, cidrChar in Hcc. lia. }
    destruct ls as [|l2 ls]; [done|]. rewrite joinWith_cons by done.
    apply Forall_app. split; [done|]. constructor; [lia|done]. }
  rewrite fromUtf8_ascii by done.
  replace (startsWith _ [65279]) with false.
  2:{ symmetry. destruct Hch as [|c l Hcc Hch]; [done|]. cbn [startsWith].
      destruct (Z.eqb_spec c 65279); [lia|done]. }
  destruct es as [|e es].
  { done. }
  rewrite splitOn_join; [|done|eapply Forall_impl; [exact Hlines|]; by intros l [Hl _]].
  destruct (fold_entries (e :: es) initialState Hc Hnd eq_refl) as (st' & -> & Hst); [set_solver|].
  by rewrite Hst.
Qed.
End RoundTrip.

(** ** Joining ranges needs no more than one round per character *)

Section Fuel.
Context `{Q : QtText}.

Lemma dropWhile_length f s : (length (dropWhile f s) <= length s)%nat.
Proof. induction s as [|c s IH]; [done|]. simpl. destruct (f c); simpl; lia. Qed.

Lemma joinLoop_fuel f1 f2 out line :
  (length line <= f1)%nat -> (length line <= f2)%nat -> joinLoop f1 out line = joinLoop f2 out line.
Proof.
  revert f2 out line. induction f1 as [|f1 IH]; intros f2 out line H1 H2.
  - destruct line; [|simpl in H1; lia]. by destruct f2.
  - destruct line as [|c rest]; [by destruct f2|]. destruct f2 as [|f2]; [simpl in H2; lia|].
    simpl in *. pose proof (dropWhile_length isSpace rest).
    destruct (_ && _); apply IH; lia.
Qed.
End Fuel.

(** ** [EntriesFromCidrs] *)

Section Entries.
Context `{Q : QtText} {L : QtTextLaws Q}.

Lemma entriesLoop_spec cidrs dp seen es :
  portRange dp -> Forall canonicalEntry es -> NoDup (map cidr es) ->
  (forall c, c ∈ seen <-> c ∈ map cidr es) ->
  let r := entriesFromCidrsLoop cidrs dp seen es in
  Forall canonicalEntry r /\ NoDup (map cidr r) /\
  (exists more, r = es ++ more /\ Forall (fun e => port e = dp) more) /\
  forall c, c ∈ map cidr r <-> c ∈ map cidr es \/ (c <> [] /\ exists t, t ∈ cidrs /\ NormalizeCidr t = c).
Proof.
  intros Hdp. revert seen es. induction cidrs as [|t ts IH]; intros seen es He Hn Hs; cbv zeta.
  { simpl. split_and!; [done|done|exists []; by rewrite app_nil_r|].
    intros c. split; [by left|]. intros [|(_ & t & Ht & _)]; [done|]. by apply elem_of_nil in Ht. }
  cbn [entriesFromCidrsLoop]. cbv zeta.
  destruct (bool_decide_reflect (NormalizeCidr t = [])) as [E0|E0].
  { destruct (IH seen es He Hn Hs) as (H1 & H2 & H3 & H4). split_and!; try done. intros c. rewrite H4.
    split; (intros [|(Hc & t' & Ht' & E)]; [by left|right; split; [done|]]).
    - exists t'. split; [by right|done].
    - apply elem_of_cons in Ht' as [->|Ht']; [congruence|]. by exists t'. }
  destruct (bool_decide_reflect (NormalizeCidr t ∈ seen)) as [E1|E1]; simpl orb; cbv iota.
  { destruct (IH seen es He Hn Hs) as (H1 & H2 & H3 & H4). split_and!; try done. intros c. rewrite H4.
    split; (intros [|(Hc & t' & Ht' & E)]; [by left|]).
    - right. split; [done|]. exists t'. split; [by right|done].
    - apply elem_of_cons in Ht' as [->|Ht']; [left; subst c; by apply Hs|right]. split; [done|]. by exists t'. }
  assert (Hnew : canonicalEntry (Entry (NormalizeCidr t) dp 0)).
  { unfold NormalizeCidr in *. destruct (ipListParseNetwork t) as [[a p]|] eqn:E; [|done].
    exists a, p. by apply ipListParseNetwork_wf in E. }
  destruct (IH ({[NormalizeCidr t]} ∪ seen) (es ++ [Entry (NormalizeCidr t) dp 0])) as (H1 & H2 & H3 & H4).
  - apply Forall_app. by split; [|apply Forall_singleton].
  - rewrite map_app. apply NoDup_app. split; [done|]. split; [|apply NoDup_singleton].
    intros c Hc Hc'. simpl in Hc'. apply list_elem_of_singleton in Hc' as ->. by apply E1, Hs.
  - intros c. rewrite map_app, elem_of_union, elem_of_singleton, elem_of_app, Hs. simpl.
    rewrite list_elem_of_singleton. tauto.
  - split_and!; [done|done| |].
    + destruct H3 as (more & -> & Hm). exists (Entry (NormalizeCidr t) dp 0 :: more).
      rewrite <- app_assoc. by split; [|constructor].
    + intros c. rewrite H4, map_app, elem_of_app. simpl. rewrite list_elem_of_singleton. split.
      * intros [[|Hc]|(Hc & t' & Ht' & E)]; [by left| |].
        -- right. subst c. split; [done|]. exists t. split; [by left|done].
        -- right. split; [done|]. exists t'. split; [by right|done].
      * intros [|(Hc & t' & Ht' & E)]; [by left; left|].
        apply elem_of_cons in Ht' as [->|Ht']; [left; by right|right]. split; [done|]. by exists t'.
Qed.
End Entries.

(** ** Properties *)

(** C34: whatever the text, the result of [ParseIpListText] is well formed and
    exact: every entry is the text of a masked network with a port in 0..65535 and
    no latency, no (network, port) pair occurs twice, and there is one sample of at
    most 64 characters for each of the first five rejects.  Every address token of
    the text is offered under one port, its own if it has a positive one, as blocks
    that hold every address of its network or range exactly once and no other; the
    entries are the first occurrences of what is offered, in reading order, and the
    others are the duplicates counted. *)
Theorem ParseIpListText_invariant {Q : QtText} {L : QtTextLaws Q} text defaultPort :
  let r := ParseIpListText text defaultPort in
  Forall wfEntry (entries r) /\ NoDup (map (fun e => (cidr e, port e)) (entries r)) /\
  0 <= duplicates r /\ Z.of_nat (length (samples r)) = Z.min 5 (rejected r) /\
  Forall (fun t => (length t <= 64)%nat) (samples r) /\
  Forall exactToken (addressTokens text) /\
  exists ports, Forall2 portOf (addressTokens text) ports /\
    let offered := offers (addressTokens text) ports in
    entries r = firsts offered /\
    duplicates r = Z.of_nat (length offered) - Z.of_nat (length (firsts offered)).
Proof.
  destruct (parse_wf text defaultPort) as (H1 & H2 & H3 & H4 & H5). cbv zeta. split_and!; try done.
  - apply (NoDup_fmap_1 (fun k => entryKey k.1 k.2)). by rewrite <- list_fmap_compose.
  - apply addressTokens_exact.
  - apply parse_exact.
Qed.

Definition sampleText : qstring :=
  u "ip,port" ++ [10] ++ u "1.2.3.4,80" ++ [10] ++ u "bad;10.0.0.1-10.0.0.9;1.2.3.4.5" ++ [10] ++ u "1.2.3.4,80".

Example ParseIpListText_invariant_witness :
  let r := ParseIpListText (Q := asciiText) sampleText 443 in
  map cidr (entries r) = [u "1.2.3.4"; u "10.0.0.1"; u "10.0.0.2/31"; u "10.0.0.4/30"; u "10.0.0.8/31"] /\
  map text (addressTokens (Q := asciiText) sampleText) = [u "1.2.3.4"; u "10.0.0.1-10.0.0.9"; u "1.2.3.4"] /\
  NoDup (map (fun e => (cidr e, port e)) (entries r)).
Proof.
  split; [vm_compute; reflexivity|]. split; [vm_compute; reflexivity|].
  exact (proj1 (proj2 (ParseIpListText_invariant (L := asciiTextLaws) sampleText 443))).
Defined.

(** C10: a list of distinct entries whose networks are canonical is
    recovered, in order and without rejects or duplicates, from the text that
    has one [FormatEntry] per line. *)
Theorem FormatEntry_ParseIpListText {Q : QtText} {L : QtTextLaws Q} es :
  Forall canonicalEntry es -> NoDup es ->
  ParseIpListText (joinWith 10 (map FormatEntry es)) 0 = Result es 0 0 [].
Proof. apply parse_formatted. Qed.

Definition sampleEntries : list IpListEntry :=
  [Entry (u "10.0.0.0/8") 0 0; Entry (u "2606:4700::/32") 8080 0; Entry (u "::1") 53 0].

(** A decidable sufficient condition, for concrete entries. *)
Definition canonicalb (e : IpListEntry) : bool :=
  match ipListParseNetwork (Q := asciiText) (cidr e) with
  | Some (a, p) => bool_decide (cidr e = ipListParseCidr a p)
  | None => false
  end && (0 <=? port e) && (port e <=? 65535) && (latencyMs e =? 0).

Lemma canonicalb_sound es : forallb canonicalb es = true -> Forall canonicalEntry es.
Proof.
  intros H. apply Forall_forall. intros e He. rewrite forallb_forall in H.
  specialize (H e ltac:(by apply list_elem_of_In)). unfold canonicalb in H. bool_to_prop.
  destruct (ipListParseNetwork (cidr e)) as [[a p]|] eqn:E; [|done]. bool_to_prop.
  exists a, p. unfold portRange. split_and!; try done. by eapply ipListParseNetwork_wf.
Qed.

Example FormatEntry_ParseIpListText_witness :
  joinWith 10 (map FormatEntry sampleEntries) =
    u "10.0.0.0/8" ++ [10] ++ u "2606:4700::/32 8080" ++ [10] ++ u "[::1]:53" /\
  ParseIpListText (Q := asciiText) (joinWith 10 (map FormatEntry sampleEntries)) 0 = Result sampleEntries 0 0 [].
Proof.
  split; [vm_compute; reflexivity|].
  apply (FormatEntry_ParseIpListText (L := asciiTextLaws) sampleEntries).
  { apply canonicalb_sound. vm_compute. reflexivity. }
  apply (bool_decide_unpack (NoDup sampleEntries)). vm_compute. exact I.
Defined.

(** [EntriesFromCidrs] has one canonical entry per distinct valid
    text (compared after normalization) and nothing else, all with the default
    port, which is 0 when out of range. *)
Theorem EntriesFromCidrs_exact {Q : QtText} {L : QtTextLaws Q} cidrs defaultPort :
  let r := EntriesFromCidrs cidrs defaultPort in
  Forall canonicalEntry r /\ NoDup (map cidr r) /\
  Forall (fun e => port e = if (defaultPort <? 0) || (65535 <? defaultPort) then 0 else defaultPort) r /\
  forall c, c ∈ map cidr r <-> c <> [] /\ exists t, t ∈ cidrs /\ NormalizeCidr t = c.
Proof.
  unfold EntriesFromCidrs. cbv zeta.
  destruct (entriesLoop_spec cidrs _ ∅ [] (clampPort_range defaultPort) ltac:(constructor) ltac:(constructor)
              ltac:(set_solver)) as (H1 & H2 & (more & E & H3) & H4).
  split_and!; [done|done|by rewrite E|]. intros c. rewrite H4. simpl. set_solver.
Qed.

Example EntriesFromCidrs_exact_witness :
  let r := EntriesFromCidrs (Q := asciiText) [u "1.2.3.4/24"; u "x"; u "1.2.3.0/24"] 70000 in
  r = [Entry (u "1.2.3.0/24") 0 0] /\ NoDup (map cidr r).
Proof.
  split; [vm_compute; reflexivity|].
  exact (proj1 (proj2 (EntriesFromCidrs_exact (L := asciiTextLaws) [u "1.2.3.4/24"; u "x"; u "1.2.3.0/24"] 70000))).
Defined.
