(* ===== verification/StableSort.v ===== *)
(** * StableSort: [std::stable_sort]

    The standard algorithm as the insertion sort it specifies, for a strict
    weak order given as a bool function.  The result is the only list that is
    a sorted, stable rearrangement of the input ([stable_sort_unique]), so it
    does not matter which algorithm the library uses. *)

From S2P Require Import Prelude.

(** What a comparator must satisfy for [std::stable_sort] to be defined. *)
Class StrictWeak {A} (lt : A -> A -> bool) : Prop := {
  sw_irrefl x : lt x x = false;
  sw_asym x y : lt x y = true -> lt y x = false;
  sw_neg_trans x y z : lt x z = true -> lt x y = true \/ lt y z = true;
}.

Section Sort.
Context {A : Type} (lt : A -> A -> bool).

Fixpoint insert_stable (x : A) (l : list A) : list A :=
  match l with
  | [] => [x]
  | y :: l => if lt y x then y :: insert_stable x l else x :: y :: l
  end.

Fixpoint stable_sort (l : list A) : list A :=
  match l with
  | [] => []
  | x :: l => insert_stable x (stable_sort l)
  end.

(** [y] may stand after [x]. *)
Definition notAfter (x y : A) : Prop := lt y x = false.

Definition equiv (x y : A) : bool := negb (lt x y) && negb (lt y x).

(** Sorted, a rearrangement, and stable: equivalent elements keep their order. *)
Definition stableSortOf (l r : list A) : Prop :=
  r ≡ₚ l /\ StronglySorted notAfter r /\
  forall x, filter (fun y => equiv x y = true) r = filter (fun y => equiv x y = true) l.

Lemma insert_perm x l : insert_stable x l ≡ₚ x :: l.
Proof.
  induction l as [|y l IH]; [done|]. simpl. destruct (lt y x); [|done].
  rewrite IH. apply perm_swap.
Qed.

Lemma sort_perm l : stable_sort l ≡ₚ l.
Proof. induction l as [|x l IH]; [done|]. simpl. by rewrite insert_perm, IH. Qed.

Context `{!StrictWeak lt}.

Lemma notAfter_trans x y z : notAfter x y -> notAfter y z -> notAfter x z.
Proof.
  unfold notAfter. intros H1 H2. destruct (lt z x) eqn:E; [|done].
  destruct (sw_neg_trans z y x E); congruence.
Qed.

Lemma insert_sorted x l : StronglySorted notAfter l -> StronglySorted notAfter (insert_stable x l).
Proof.
  induction l as [|y l IH]; intros H; [by repeat constructor|].
  inversion H as [|? ? Hs Hf]; subst. simpl. destruct (lt y x) eqn:E.
  - constructor; [by apply IH|]. rewrite insert_perm. constructor; [by apply sw_asym|done].
  - constructor; [done|]. constructor; [done|].
    eapply Forall_impl; [exact Hf|]. intros z Hz. by apply (notAfter_trans x y z).
Qed.

Lemma sort_sorted l : StronglySorted notAfter (stable_sort l).
Proof. induction l as [|x l IH]; [constructor|]. by apply insert_sorted. Qed.

Lemma equiv_lt x y z : equiv x y = true -> equiv x z = true -> lt y z = false.
Proof.
  unfold equiv. rewrite !andb_true_iff, !negb_true_iff. intros [H1 H2] [H3 H4].
  destruct (lt y z) eqn:E; [|done]. destruct (sw_neg_trans y x z E); congruence.
Qed.

Lemma insert_stable_filter w x l :
  filter (fun y => equiv w y = true) (insert_stable x l) = filter (fun y => equiv w y = true) (x :: l).
Proof.
  induction l as [|y l IH]; [done|]. simpl. destruct (lt y x) eqn:E; [|done].
  rewrite !filter_cons, IH, filter_cons.
  destruct (decide (equiv w y = true)) as [Hy|Hy], (decide (equiv w x = true)) as [Hx|Hx]; try done.
  pose proof (equiv_lt _ _ _ Hy Hx). congruence.
Qed.

Lemma stable_sort_spec l : stableSortOf l (stable_sort l).
Proof.
  split; [apply sort_perm|]. split; [apply sort_sorted|]. intros w.
  induction l as [|x l IH]; [done|]. simpl stable_sort. rewrite insert_stable_filter.
  rewrite !filter_cons. by rewrite IH.
Qed.

Lemma equiv_refl x : equiv x x = true.
Proof. unfold equiv. by rewrite (sw_irrefl (lt := lt) x). Qed.

(** Two sorted lists with the same classes in the same order are equal. *)
Lemma sorted_classes_eq r1 r2 :
  StronglySorted notAfter r1 -> StronglySorted notAfter r2 -> r1 ≡ₚ r2 ->
  (forall w, filter (fun y => equiv w y = true) r1 = filter (fun y => equiv w y = true) r2) -> r1 = r2.
Proof.
  revert r2. induction r1 as [|x r1 IH]; intros r2 H1 H2 Hp Hf.
  { by apply Permutation_nil in Hp. }
  destruct r2 as [|y r2]; [by apply Permutation_sym, Permutation_nil in Hp|].
  inversion H1 as [|? ? Hs1 Ha1]; subst. inversion H2 as [|? ? Hs2 Ha2]; subst.
  assert (Hxy : lt y x = false).
  { assert (Hin : y ∈ x :: r1) by (rewrite Hp; by left).
    apply elem_of_cons in Hin as [->|Hin]; [apply sw_irrefl|].
    rewrite Forall_forall in Ha1. by apply Ha1. }
  assert (Hyx : lt x y = false).
  { assert (Hin : x ∈ y :: r2) by (rewrite <- Hp; by left).
    apply elem_of_cons in Hin as [->|Hin]; [apply sw_irrefl|].
    rewrite Forall_forall in Ha2. by apply Ha2. }
  assert (E : x = y).
  { pose proof (Hf x) as Hx. rewrite !filter_cons in Hx.
    rewrite decide_True in Hx by apply equiv_refl.
    rewrite decide_True in Hx by (unfold equiv; by rewrite Hxy, Hyx). by injection Hx. }
  subst y. f_equal. apply IH; [done|done|by apply Permutation_cons_inv in Hp|].
  intros w. pose proof (Hf w) as Hw. rewrite !filter_cons in Hw.
  destruct (decide (equiv w x = true)); [by injection Hw|done].
Qed.

Lemma stable_sort_unique l r : stableSortOf l r -> r = stable_sort l.
Proof.
  intros (Hp & Hs & Hf). destruct (stable_sort_spec l) as (Hp' & Hs' & Hf').
  apply sorted_classes_eq; [done|done|by rewrite Hp, Hp'|]. intros w. by rewrite Hf, Hf'.
Qed.

(** A sorted list is left as it is. *)
Lemma stable_sort_sorted l : StronglySorted notAfter l -> stable_sort l = l.
Proof. intros H. symmetry. by apply stable_sort_unique. Qed.
End Sort.

(** An order on keys orders the elements. *)
Lemma strictWeak_key {A B} (f : A -> B) (lt : B -> B -> bool) :
  StrictWeak lt -> StrictWeak (fun x y => lt (f x) (f y)).
Proof. intros [H1 H2 H3]. split; intros *; [apply H1|apply H2|apply H3]. Qed.

#[export] Hint Resolve strictWeak_key : core.

#[export] Instance Zltb_strictWeak : StrictWeak Z.ltb.
Proof. split; intros *; lia. Qed.

(** Only the elements' keys matter, and only on the list. *)
Lemma stable_sort_ext {A} (lt lt' : A -> A -> bool) l :
  (forall x y, x ∈ l -> y ∈ l -> lt x y = lt' x y) -> stable_sort lt l = stable_sort lt' l.
Proof.
  assert (Hi : forall x r, (forall y, y ∈ r -> lt y x = lt' y x) -> insert_stable lt x r = insert_stable lt' x r).
  { intros x r. induction r as [|y r IH]; intros H; [done|]. simpl. rewrite H by by left.
    rewrite IH; [done|]. intros z Hz. apply H. by right. }
  induction l as [|x l IH]; intros H; [done|]. simpl. rewrite IH by (intros; apply H; by right).
  apply Hi. intros y Hy. rewrite sort_perm in Hy. apply H; [by right|by left].
Qed.

(** Sorting a part of a list that is cut off after sorting. *)
Lemma sort_NoDup {A} (lt : A -> A -> bool) l : NoDup l -> NoDup (stable_sort lt l).
Proof. intros H. by rewrite sort_perm. Qed.

Lemma sort_length {A} (lt : A -> A -> bool) l : length (stable_sort lt l) = length l.
Proof. by rewrite sort_perm. Qed.

Lemma sorted_lookup {A} (R : A -> A -> Prop) l i j x y :
  StronglySorted R l -> (i < j)%nat -> l !! i = Some x -> l !! j = Some y -> R x y.
Proof.
  intros Hs. revert i j. induction Hs as [|z l Hl IH Hz]; intros i j Hij Hi Hj; [done|].
  destruct j as [|j]; [lia|]. simpl in Hj. destruct i as [|i].
  - injection Hi as <-. rewrite Forall_forall in Hz. apply Hz. by eapply list_elem_of_lookup_2.
  - apply (IH i j); [lia|done|done].
Qed.

(** ** Building comparators *)

Lemma strictWeak_flip {A} (lt : A -> A -> bool) : StrictWeak lt -> StrictWeak (fun x y => lt y x).
Proof.
  intros [H1 H2 H3]. split; [done|intros x y; apply H2|]. intros x y z H. destruct (H3 z y x H); by auto.
Qed.

(** First by an integer key, then by another comparator. *)
Lemma strictWeak_lex {A} (f : A -> Z) (ltf : Z -> Z -> bool) (lt : A -> A -> bool) :
  ltf = Z.ltb \/ ltf = (fun x y => y <? x) ->
  StrictWeak lt -> StrictWeak (fun x y => if negb (f x =? f y) then ltf (f x) (f y) else lt x y).
Proof.
  intros Hf [H1 H2 H3]. split.
  - intros x. rewrite Z.eqb_refl. apply H1.
  - intros x y. rewrite (Z.eqb_sym (f y)). destruct (Z.eqb_spec (f x) (f y)); simpl; [apply H2|].
    destruct Hf as [->| ->]; lia.
  - intros x y z. destruct (Z.eqb_spec (f x) (f z)), (Z.eqb_spec (f x) (f y)), (Z.eqb_spec (f y) (f z)); simpl;
      try (destruct Hf as [->| ->]; lia). apply H3.
Qed.

(** Present elements by a comparator, before absent ones. *)
Lemma strictWeak_option {A B} (f : A -> option B) (lt : B -> B -> bool) :
  StrictWeak lt ->
  StrictWeak (fun x y =>
    match f x, f y with Some a, Some b => lt a b | a, _ => match a with Some _ => true | None => false end end).
Proof.
  intros [H1 H2 H3]. split.
  - intros x. destruct (f x); [apply H1|done].
  - intros x y. destruct (f x), (f y); try done. apply H2.
  - intros x y z. destruct (f x), (f y), (f z); auto.
Qed.

Lemma sublist_StronglySorted {A} (R : A -> A -> Prop) (P : A -> Prop) `{!forall x, Decision (P x)} l :
  StronglySorted R l -> StronglySorted R (filter P l).
Proof.
  induction 1 as [|x l Hs IH Hx]; [constructor|]. rewrite filter_cons. case_decide; [|done].
  constructor; [done|]. rewrite Forall_forall in *. intros y [_ Hy]%list_elem_of_filter. by apply Hx.
Qed.

(** Sorting commutes with keeping part of the list. *)
Lemma stable_sort_filter {A} (lt : A -> A -> bool) `{!StrictWeak lt} (P : A -> Prop) `{!forall x, Decision (P x)} l :
  filter P (stable_sort lt l) = stable_sort lt (filter P l).
Proof.
  apply stable_sort_unique; [done|]. destruct (stable_sort_spec lt l) as (Hp & Hs & Hst). split_and!.
  - by rewrite Hp.
  - by apply sublist_StronglySorted.
  - intros x. rewrite !list_filter_filter.
    rewrite (list_filter_iff _ (fun y => P y /\ equiv lt x y = true) _) by (intros; tauto).
    rewrite (list_filter_iff (fun y => equiv lt x y = true /\ P y) (fun y => P y /\ equiv lt x y = true) l) by (intros; tauto).
    rewrite <- !list_filter_filter. by rewrite Hst.
Qed.
