(* ===== verification/Json.v ===== *)
(** * Json: the JSON values the components persist

    The part of Qt's [QJsonValue], [QJsonObject] and [QJsonArray] the modelled
    code uses, and the two list helpers of src/global/Utils.cpp, 197-210.  A
    number is given by its truncation toward zero and whether anything was cut
    off, which is all [toInt] and the casts of the code can see. *)

From S2P Require Import Prelude Text.

Unset Elimination Schemes.
Inductive json :=
  | JNull
  | JBool (b : bool)
  | JNum (trunc : Z) (frac : bool)
  | JString (s : qstring)
  | JArray (l : list json)
  | JObject (fields : gmap string json).
Set Elimination Schemes.

Abbreviation jobject := (gmap string json).

Definition jint (z : Z) : json := JNum z false.

(** A member of an object; [None] is Qt's [Undefined]. *)
Definition field (o : jobject) (k : string) : option json := o !! k.

Definition hasField (o : jobject) (k : string) : bool := bool_decide (is_Some (o !! k)).

Definition toInt (v : option json) (d : Z) : Z :=
  match v with
  | Some (JNum z false) => if (- 2 ^ 31 <=? z) && (z <? 2 ^ 31) then z else d
  | _ => d
  end.

(** [static_cast<qint64>(v.toDouble())], defined in the range of [qint64]. *)
Definition toInt64 (v : option json) : Z :=
  match v with
  | Some (JNum z _) => z
  | _ => 0
  end.

Definition toBool (v : option json) (d : bool) : bool :=
  match v with
  | Some (JBool b) => b
  | _ => d
  end.

Definition toQString (v : option json) (d : qstring) : qstring :=
  match v with
  | Some (JString s) => s
  | _ => d
  end.

Definition toArray (v : option json) : list json :=
  match v with
  | Some (JArray l) => l
  | _ => []
  end.

Definition toObject (v : option json) : jobject :=
  match v with
  | Some (JObject o) => o
  | _ => ∅
  end.

(** [static_cast<double>(z)] of an integer: 53 significant bits, rounded to
    nearest, ties to even. *)
Definition doubleOf (z : Z) : Z :=
  let a := Z.abs z in
  if a <? 2 ^ 53 then z
  else
    let k := Z.log2 a - 52 in
    let q := a / 2 ^ k in
    let r := a mod 2 ^ k in
    let half := 2 ^ (k - 1) in
    let q := if (half <? r) || ((r =? half) && Z.odd q) then q + 1 else q in
    Z.sgn z * (q * 2 ^ k).

Definition jdouble (z : Z) : json := JNum (doubleOf z) false.

Definition QListInt2QJsonArray (l : list Z) : list json := map jint l.

Definition QJsonArray2QListInt (arr : list json) : list Z := map (fun item => toInt (Some item) 0) arr.

(** [if (c) json[k] = v] *)
Definition putIf (c : bool) (k : string) (v : json) (o : jobject) : jobject := if c then <[k := v]> o else o.

(** ** Facts *)

Lemma field_putIf c k v o k' : field (putIf c k v o) k' = if c && String.eqb k k' then Some v else field o k'.
Proof.
  unfold field, putIf. destruct c; [|done]. simpl. destruct (String.eqb_spec k k') as [->|Hne].
  - apply lookup_insert_eq.
  - by apply lookup_insert_ne.
Qed.

Lemma toInt_jint z d : i32 z -> toInt (Some (jint z)) d = z.
Proof. unfold in_int. simpl. intros H. destruct (_ && _) eqn:E; [done|]. lia. Qed.

Lemma doubleOf_small z : Z.abs z < 2 ^ 53 -> doubleOf z = z.
Proof. intros H. unfold doubleOf. by destruct (Z.ltb_spec (Z.abs z) (2 ^ 53)); [|lia]. Qed.

Lemma toInt64_jdouble z : Z.abs z < 2 ^ 53 -> toInt64 (Some (jdouble z)) = z.
Proof. apply doubleOf_small. Qed.

Lemma toInt_range v d : i32 d -> i32 (toInt v d).
Proof.
  unfold in_int. intros H. destruct v as [[]|]; simpl; try done. destruct frac; [done|].
  destruct (_ && _) eqn:E; [lia|done].
Qed.

Lemma listInt_roundtrip l : Forall i32 l -> QJsonArray2QListInt (QListInt2QJsonArray l) = l.
Proof.
  unfold QJsonArray2QListInt, QListInt2QJsonArray. intros H.
  induction H as [|z l Hz H IH]; [done|]. cbn [map]. by rewrite IH, toInt_jint.
Qed.

Lemma listInt_range arr : Forall i32 (QJsonArray2QListInt arr).
Proof. apply Forall_map, Forall_forall. intros v _. apply toInt_range. unfold in_int. lia. Qed.

(** An object given by the list of its members. *)
Fixpoint assoc (k : string) (l : list (string * json)) : option json :=
  match l with
  | [] => None
  | (k', v) :: l => if String.eqb k k' then Some v else assoc k l
  end.

Lemma lookup_assoc k l : (list_to_map l : jobject) !! k = assoc k l.
Proof.
  induction l as [|[k' v] l IH]; [done|]. simpl. destruct (String.eqb_spec k k') as [->|Hne].
  - apply lookup_insert_eq.
  - rewrite lookup_insert_ne by congruence. done.
Qed.

Lemma field_assoc k l : field (list_to_map l) k = assoc k l.
Proof. apply lookup_assoc. Qed.
