(* ===== verification/AutoSelector.v ===== *)
(** * AutoSelector: the persisted state of an auto selector

    include/configs/outbounds/autoselector.h: the record, its JSON form
    ([ParseFromJson], [ExportToJson]), the clamps of [Normalize], and the usage
    history ([HistoryEntries], [RecordHistory], [RecordHistoryFailure]). *)

From S2P Require Import Prelude Text Json.

Record autoSelector := {
  name : qstring; gids : list Z; nameFilter : qstring; countryFilter : qstring;
  excludeUnavailable : bool; poolCap : Z; buildLimit : Z; resultValidityMins : Z;
  testURL : qstring; connectivityURL : qstring; intervalSec : Z; benchIntervalSec : Z;
  watchIntervalSec : Z; activeSize : Z; sampling : Z; toleranceMs : Z; maxRTTms : Z;
  expected : Z; dialRetries : Z; interruptOnSwitch : bool; balance : bool;
  balanceMode : qstring; balanceIntervalSec : Z; pool : list Z; poolRankedAt : Z;
  pinnedID : Z; lastBuilt : list Z; lastBuiltAt : Z; history : list json;
}.

(** A fresh selector, with the member initializers of the class. *)
Definition freshSelector : autoSelector := {|
  name := []; gids := []; nameFilter := []; countryFilter := []; excludeUnavailable := true;
  poolCap := 1000; buildLimit := 300; resultValidityMins := 1440; testURL := []; connectivityURL := [];
  intervalSec := 300; benchIntervalSec := 600; watchIntervalSec := 15; activeSize := 8; sampling := 10;
  toleranceMs := 300; maxRTTms := 0; expected := 3; dialRetries := 2; interruptOnSwitch := true;
  balance := false; balanceMode := u "rotate"; balanceIntervalSec := 30; pool := []; poolRankedAt := 0;
  pinnedID := -1; lastBuilt := []; lastBuiltAt := 0; history := [];
|}.

Definition Tracks (s : autoSelector) (gid : Z) : bool := existsb (Z.eqb gid) (gids s).

Definition kMaxPoolCap : Z := 3000.
Definition kMaxBuildLimit : Z := 500.
Definition kMaxHistoryEntries : nat := 2000.

(** ** [Normalize] *)

(** [if (x < lo) x = lo]. *)
Definition atLeast (lo x : Z) : Z := if x <? lo then lo else x.

(** [if (x > hi) x = hi]. *)
Definition atMost (hi x : Z) : Z := if hi <? x then hi else x.

Fixpoint trackedGids (gids tracked : list Z) : list Z :=
  match gids with
  | [] => tracked
  | gid :: gids =>
      trackedGids gids
        (if (0 <=? gid) && negb (existsb (Z.eqb gid) tracked) then tracked ++ [gid] else tracked)
  end.

Definition Normalize (s : autoSelector) : autoSelector :=
  let poolCap' := atMost kMaxPoolCap (atLeast 1 (poolCap s)) in
  let buildLimit' := atMost poolCap' (atMost kMaxBuildLimit (atLeast 1 (buildLimit s))) in
  let intervalSec' := atLeast 10 (intervalSec s) in
  let expected1 := atLeast 1 (expected s) in
  {| name := name s; gids := trackedGids (gids s) []; nameFilter := nameFilter s;
     countryFilter := countryFilter s; excludeUnavailable := excludeUnavailable s;
     poolCap := poolCap'; buildLimit := buildLimit';
     resultValidityMins := atLeast 0 (resultValidityMins s);
     testURL := testURL s; connectivityURL := connectivityURL s;
     intervalSec := intervalSec';
     benchIntervalSec := atLeast intervalSec' (benchIntervalSec s);
     watchIntervalSec := atMost intervalSec' (atLeast 5 (watchIntervalSec s));
     activeSize := atMost buildLimit' (atLeast expected1 (atLeast 1 (activeSize s)));
     sampling := atMost 60 (atLeast 2 (sampling s));
     toleranceMs := atLeast 0 (toleranceMs s);
     maxRTTms := atLeast 0 (maxRTTms s);
     expected := atMost buildLimit' expected1;
     dialRetries := atMost 5 (atLeast 0 (dialRetries s));
     interruptOnSwitch := interruptOnSwitch s; balance := balance s;
     balanceMode := if bool_decide (balanceMode s = u "connection") then balanceMode s else u "rotate";
     balanceIntervalSec := atLeast 5 (balanceIntervalSec s);
     pool := pool s; poolRankedAt := poolRankedAt s; pinnedID := pinnedID s;
     lastBuilt := lastBuilt s; lastBuiltAt := lastBuiltAt s; history := history s |}.

(** ** JSON *)

(** [if (object.contains(k)) x = object[k].to...(d)]. *)
Definition ifHas {A} (o : jobject) (k : string) (f : option json -> A) (x : A) : A :=
  if hasField o k then f (field o k) else x.

(** [None]: the code returns false and changes nothing. *)
Definition ParseFromJson (s : autoSelector) (o : jobject) : option autoSelector :=
  if bool_decide (o = ∅) then None
  else
    let int k d := ifHas o k (fun v => toInt v d) in
    let str k := ifHas o k (fun v => toQString v []) in
    let bool k d := ifHas o k (fun v => toBool v d) in
    let list k := ifHas o k (fun v => QJsonArray2QListInt (toArray v)) in
    let gid := toInt (field o "gid") (-1) in
    Some (Normalize {|
      name := str "name"%string (name s);
      gids := if hasField o "gids" then QJsonArray2QListInt (toArray (field o "gids"))
              else if 0 <=? gid then [gid] else gids s;
      nameFilter := str "name_filter"%string (nameFilter s);
      countryFilter := str "country_filter"%string (countryFilter s);
      excludeUnavailable := bool "exclude_unavailable"%string true (excludeUnavailable s);
      poolCap := int "pool_cap"%string 3000 (poolCap s);
      buildLimit := int "build_limit"%string 300 (buildLimit s);
      resultValidityMins := int "result_validity_mins"%string 60 (resultValidityMins s);
      testURL := str "test_url"%string (testURL s);
      connectivityURL := str "connectivity_url"%string (connectivityURL s);
      intervalSec := int "interval_sec"%string 60 (intervalSec s);
      benchIntervalSec := int "bench_interval_sec"%string 600 (benchIntervalSec s);
      watchIntervalSec := int "watch_interval_sec"%string 15 (watchIntervalSec s);
      activeSize := int "active_size"%string 10 (activeSize s);
      sampling := int "sampling"%string 10 (sampling s);
      toleranceMs := int "tolerance_ms"%string 100 (toleranceMs s);
      maxRTTms := int "max_rtt_ms"%string 0 (maxRTTms s);
      expected := int "expected"%string 3 (expected s);
      dialRetries := int "dial_retries"%string 2 (dialRetries s);
      interruptOnSwitch := bool "interrupt_on_switch"%string true (interruptOnSwitch s);
      balance := bool "balance"%string false (balance s);
      balanceMode := ifHas o "balance_mode" (fun v => toQString v (u "rotate")) (balanceMode s);
      balanceIntervalSec := int "balance_interval_sec"%string 30 (balanceIntervalSec s);
      pool := list "pool"%string (pool s);
      poolRankedAt := ifHas o "pool_ranked_at" toInt64 (poolRankedAt s);
      pinnedID := int "pinned_id"%string (-1) (pinnedID s);
      lastBuilt := list "last_built"%string (lastBuilt s);
      lastBuiltAt := ifHas o "last_built_at" toInt64 (lastBuiltAt s);
      history := ifHas o "history" toArray (history s) |}).

Definition exportFields (s : autoSelector) : list (string * json) :=
  [("name"%string, JString (name s)); ("type"%string, JString (u "autoselector"));
   ("gids"%string, JArray (QListInt2QJsonArray (gids s)));
   ("gid"%string, jint (nth 0 (gids s) (-1)));
   ("name_filter"%string, JString (nameFilter s)); ("country_filter"%string, JString (countryFilter s));
   ("exclude_unavailable"%string, JBool (excludeUnavailable s));
   ("pool_cap"%string, jint (poolCap s)); ("build_limit"%string, jint (buildLimit s));
   ("result_validity_mins"%string, jint (resultValidityMins s));
   ("test_url"%string, JString (testURL s)); ("connectivity_url"%string, JString (connectivityURL s));
   ("interval_sec"%string, jint (intervalSec s)); ("bench_interval_sec"%string, jint (benchIntervalSec s));
   ("watch_interval_sec"%string, jint (watchIntervalSec s)); ("active_size"%string, jint (activeSize s));
   ("sampling"%string, jint (sampling s)); ("tolerance_ms"%string, jint (toleranceMs s));
   ("max_rtt_ms"%string, jint (maxRTTms s)); ("expected"%string, jint (expected s));
   ("dial_retries"%string, jint (dialRetries s));
   ("interrupt_on_switch"%string, JBool (interruptOnSwitch s));
   ("balance"%string, JBool (balance s)); ("balance_mode"%string, JString (balanceMode s));
   ("balance_interval_sec"%string, jint (balanceIntervalSec s));
   ("pool"%string, JArray (QListInt2QJsonArray (pool s)));
   ("pool_ranked_at"%string, jdouble (poolRankedAt s)); ("pinned_id"%string, jint (pinnedID s));
   ("last_built"%string, JArray (QListInt2QJsonArray (lastBuilt s)));
   ("last_built_at"%string, jdouble (lastBuiltAt s)); ("history"%string, JArray (history s))].

Definition ExportToJson (s : autoSelector) : jobject := list_to_map (exportFields s).

(** ** The usage history *)

Record HistoryEntry := Hist {
  hid : Z; firstUsed : Z; lastUsed : Z; builds : Z; failures : Z; hname : qstring;
}.

Definition noEntry : HistoryEntry := Hist (-1) 0 0 0 0 [].

Definition setHistory (s : autoSelector) (h : list json) : autoSelector := {|
  name := name s; gids := gids s; nameFilter := nameFilter s; countryFilter := countryFilter s;
  excludeUnavailable := excludeUnavailable s; poolCap := poolCap s; buildLimit := buildLimit s;
  resultValidityMins := resultValidityMins s; testURL := testURL s; connectivityURL := connectivityURL s;
  intervalSec := intervalSec s; benchIntervalSec := benchIntervalSec s; watchIntervalSec := watchIntervalSec s;
  activeSize := activeSize s; sampling := sampling s; toleranceMs := toleranceMs s; maxRTTms := maxRTTms s;
  expected := expected s; dialRetries := dialRetries s; interruptOnSwitch := interruptOnSwitch s;
  balance := balance s; balanceMode := balanceMode s; balanceIntervalSec := balanceIntervalSec s;
  pool := pool s; poolRankedAt := poolRankedAt s; pinnedID := pinnedID s; lastBuilt := lastBuilt s;
  lastBuiltAt := lastBuiltAt s; history := h |}.

Definition readEntry (value : json) : HistoryEntry :=
  let object := toObject (Some value) in
  Hist (toInt (field object "id") (-1)) (toInt64 (field object "first")) (toInt64 (field object "last"))
    (toInt (field object "builds") 0) (toInt (field object "fails") 0) (toQString (field object "name") []).

Definition HistoryEntries (s : autoSelector) : list HistoryEntry :=
  filter (fun entry => 0 <= hid entry) (map readEntry (history s)).

Definition writeEntry (entry : HistoryEntry) : json :=
  JObject (list_to_map
    [("id"%string, jint (hid entry)); ("first"%string, jdouble (firstUsed entry));
     ("last"%string, jdouble (lastUsed entry)); ("builds"%string, jint (builds entry));
     ("fails"%string, jint (failures entry)); ("name"%string, JString (hname entry))]).

(** [QList::removeOne]. *)
Fixpoint removeOne (x : Z) (l : list Z) : list Z :=
  match l with
  | [] => []
  | y :: l => if y =? x then l else y :: removeOne x l
  end.

(** The hash of the entries and the order of their ids, newest first. *)
Abbreviation histState := (gmap Z HistoryEntry * list Z)%type.

Definition historyStart (entries : list HistoryEntry) : histState :=
  fold_left (fun st entry => (<[hid entry := entry]> st.1, st.2 ++ [hid entry])) entries (∅, []).

Definition historyUse (names : gmap Z qstring) (now : Z) (st : histState) (id : Z) : histState :=
  let entry := default noEntry (st.1 !! id) in
  let order := if hid entry <? 0 then st.2 else removeOne id st.2 in
  let '(hid', firstUsed') := if hid entry <? 0 then (id, now) else (hid entry, firstUsed entry) in
  let entry := Hist hid' firstUsed' now (builds entry + 1) (failures entry)
                 (match names !! id with Some n => n | None => hname entry end) in
  (<[id := entry]> st.1, id :: order).

(** [while (order.size() > kMaxHistoryEntries) byID.remove(order.takeLast())]:
    the ids beyond the limit go, the last one first. *)
Definition historyTrim (st : histState) : histState :=
  (fold_left (fun byID id => delete id byID) (reverse (drop kMaxHistoryEntries st.2)) st.1,
   take kMaxHistoryEntries st.2).

Definition RecordHistory (s : autoSelector) (ids : list Z) (names : gmap Z qstring) (now : Z) : autoSelector :=
  let st := historyTrim (fold_left (historyUse names now) ids (historyStart (HistoryEntries s))) in
  setHistory s (map (fun id => writeEntry (default noEntry (st.1 !! id))) st.2).

(** A non-const [object[k]] adds a missing key. *)
Definition touch (k : string) (o : jobject) : jobject :=
  if hasField o k then o else <[k := JNull]> o.

Fixpoint failFirst (id : Z) (h : list json) : list json :=
  match h with
  | [] => []
  | value :: h =>
      let object := touch "id" (toObject (Some value)) in
      if negb (toInt (field object "id") (-1) =? id) then value :: failFirst id h
      else JObject (<["fails" := jint (toInt (field object "fails") 0 + 1)]> object) :: h
  end.

Definition RecordHistoryFailure (s : autoSelector) (id : Z) : autoSelector :=
  setHistory s (failFirst id (history s)).

(** ** [Normalize]: what it establishes *)

(** The bounds every build relies on. *)
Definition wfSelector (s : autoSelector) : Prop :=
  NoDup (gids s) /\ Forall (fun g => 0 <= g) (gids s) /\
  1 <= poolCap s <= 3000 /\ 1 <= buildLimit s <= 500 /\ buildLimit s <= poolCap s /\
  0 <= resultValidityMins s /\ 10 <= intervalSec s /\ intervalSec s <= benchIntervalSec s /\
  5 <= watchIntervalSec s <= intervalSec s /\
  1 <= expected s <= activeSize s /\ activeSize s <= buildLimit s /\
  2 <= sampling s <= 60 /\ 0 <= toleranceMs s /\ 0 <= maxRTTms s /\ 0 <= dialRetries s <= 5 /\
  5 <= balanceIntervalSec s /\ (balanceMode s = u "connection" \/ balanceMode s = u "rotate").

Lemma existsb_eqb x l : existsb (Z.eqb x) l = bool_decide (x ∈ l).
Proof.
  apply eq_true_iff_eq. rewrite existsb_exists, bool_decide_eq_true, list_elem_of_In.
  split; [intros (y & Hy & E); apply Z.eqb_eq in E; by subst|]. intros H. exists x. by rewrite Z.eqb_refl.
Qed.

Lemma trackedGids_spec gs t :
  NoDup t -> Forall (fun g => 0 <= g) t ->
  NoDup (trackedGids gs t) /\ Forall (fun g => 0 <= g) (trackedGids gs t) /\
  (forall g, g ∈ trackedGids gs t <-> g ∈ t \/ (g ∈ gs /\ 0 <= g)).
Proof.
  revert t. induction gs as [|g gs IH]; intros t Hn Hf; simpl.
  { split_and!; [done|done|]. intros g. rewrite elem_of_nil. tauto. }
  rewrite existsb_eqb.
  destruct (Z.leb_spec 0 g), (bool_decide_reflect (g ∈ t)); simpl;
    try (destruct (IH t Hn Hf) as (H1 & H2 & H3); split_and!; [done|done|]; intros g'; rewrite H3, elem_of_cons;
         split; [tauto|]; intros [|[[->|] ?]]; (by left) || (exfalso; lia) || (right; done)).
  destruct (IH (t ++ [g])) as (H1 & H2 & H3).
  - apply NoDup_app. split_and!; [done| |apply NoDup_singleton].
    intros x Hx Hx'. apply list_elem_of_singleton in Hx'. by subst.
  - apply Forall_app. by split; [|apply Forall_singleton].
  - split_and!; [done|done|]. intros g'. rewrite H3, elem_of_app, list_elem_of_singleton, elem_of_cons.
    split; [intros [[?| ->]|[? ?]]; auto|intros [?|[[->|?] ?]]; auto].
Qed.

Lemma trackedGids_id gs t :
  NoDup (t ++ gs) -> Forall (fun g => 0 <= g) gs -> trackedGids gs t = t ++ gs.
Proof.
  revert t. induction gs as [|g gs IH]; intros t Hn Hf; simpl; [by rewrite app_nil_r|].
  apply Forall_cons in Hf as [Hg Hf]. rewrite existsb_eqb.
  destruct (Z.leb_spec 0 g); [|lia].
  rewrite bool_decide_false by (apply NoDup_app in Hn as (_ & Hd & _); intros Hin; apply (Hd g Hin); by left).
  simpl. rewrite IH; [by rewrite <- app_assoc|by rewrite <- app_assoc|done].
Qed.

Lemma atLeast_max lo x : atLeast lo x = Z.max lo x.
Proof. unfold atLeast. destruct (Z.ltb_spec x lo); lia. Qed.

Lemma atMost_min hi x : atMost hi x = Z.min hi x.
Proof. unfold atMost. destruct (Z.ltb_spec hi x); lia. Qed.

Lemma Normalize_wf s : wfSelector (Normalize s).
Proof.
  destruct (trackedGids_spec (gids s) []) as (H1 & H2 & _); [constructor|constructor|].
  unfold wfSelector. cbn [Normalize gids poolCap buildLimit resultValidityMins intervalSec benchIntervalSec
    watchIntervalSec activeSize expected sampling toleranceMs maxRTTms dialRetries balanceIntervalSec balanceMode].
  rewrite ?atLeast_max, ?atMost_min. unfold kMaxPoolCap, kMaxBuildLimit.
  split_and!; try done; try lia. case_bool_decide; auto.
Qed.

Lemma Normalize_fixed s : wfSelector s -> Normalize s = s.
Proof.
  intros (Hn & Hf & H). unfold Normalize. rewrite trackedGids_id by done. simpl.
  destruct s; simpl in *.
  assert (Hl : forall lo x, lo <= x -> atLeast lo x = x) by (intros; rewrite atLeast_max; lia).
  assert (Hm : forall hi x, x <= hi -> atMost hi x = x) by (intros; rewrite atMost_min; lia).
  unfold kMaxPoolCap, kMaxBuildLimit.
  repeat match goal with
  | |- context [atLeast ?a ?b] => rewrite (Hl a b) by lia
  | |- context [atMost ?a ?b] => rewrite (Hm a b) by lia
  end.
  f_equal. destruct H as (_ & _ & _ & _ & _ & _ & _ & _ & _ & _ & _ & _ & _ & _ & [->| ->]); done.
Qed.

(** ** JSON *)

(** What fits the JSON form: machine integers, times a double holds exactly. *)
Definition jsonSized (s : autoSelector) : Prop :=
  Forall i32 (gids s) /\ Forall i32 (pool s) /\ Forall i32 (lastBuilt s) /\
  Forall i32 [poolCap s; buildLimit s; resultValidityMins s; intervalSec s; benchIntervalSec s;
    watchIntervalSec s; activeSize s; sampling s; toleranceMs s; maxRTTms s; expected s; dialRetries s;
    balanceIntervalSec s; pinnedID s] /\
  Z.abs (poolRankedAt s) < 2 ^ 53 /\ Z.abs (lastBuiltAt s) < 2 ^ 53.

Lemma ifHas_export {A} s k (f : option json -> A) x v :
  assoc k (exportFields s) = Some v -> ifHas (ExportToJson s) k f x = f (Some v).
Proof. intros H. unfold ifHas, hasField, field, ExportToJson. by rewrite lookup_assoc, H. Qed.

Lemma hasField_export s k v : assoc k (exportFields s) = Some v -> hasField (ExportToJson s) k = true.
Proof. intros H. unfold hasField, ExportToJson. rewrite lookup_assoc, H. by apply bool_decide_eq_true. Qed.

Lemma field_export s k v : assoc k (exportFields s) = Some v -> field (ExportToJson s) k = Some v.
Proof. intros H. unfold field, ExportToJson. by rewrite lookup_assoc, H. Qed.

Lemma export_parse s0 s :
  wfSelector s -> jsonSized s -> ParseFromJson s0 (ExportToJson s) = Some s.
Proof.
  intros Hw (H1 & H2 & H3 & H4 & H5 & H6). unfold ParseFromJson.
  rewrite bool_decide_false
    by (intros E; pose proof (field_export s "name" _ eq_refl) as Hf; by rewrite E in Hf).
  cbv zeta. rewrite (hasField_export s "gids" _ eq_refl), (field_export s "gids" _ eq_refl).
  repeat match goal with
  | |- context [ifHas (ExportToJson s) ?k ?f ?x] => rewrite (ifHas_export s k f x _ eq_refl)
  end.
  repeat match goal with H : Forall i32 (_ :: _) |- _ => apply Forall_cons in H as [? H] end.
  cbn [toArray]. rewrite !listInt_roundtrip, !toInt_jint, !toInt64_jdouble by done. cbn [toQString toBool].
  f_equal. rewrite Normalize_fixed; by destruct s.
Qed.

(** ** The history is a least-recently-used list *)

Definition findEntry (id : Z) (es : list HistoryEntry) : HistoryEntry :=
  match filter (fun e => hid e = id) es with
  | e :: _ => e
  | [] => noEntry
  end.

(** One use of [id], on the list of entries: its entry, created or updated,
    moves to the front. *)
Definition lruUse (names : gmap Z qstring) (now : Z) (es : list HistoryEntry) (id : Z) : list HistoryEntry :=
  let e := findEntry id es in
  Hist id (if hid e <? 0 then now else firstUsed e) now (builds e + 1) (failures e)
    (match names !! id with Some n => n | None => hname e end)
  :: filter (fun e => hid e <> id) es.

(** An entry the JSON form holds exactly, with room for [k] more builds. *)
Definition entryOk (k : Z) (e : HistoryEntry) : Prop :=
  0 <= hid e < 2 ^ 31 /\ - 2 ^ 31 <= builds e < 2 ^ 31 - k /\ i32 (failures e) /\
  Z.abs (firstUsed e) < 2 ^ 53 /\ Z.abs (lastUsed e) < 2 ^ 53.

Lemma read_write k e : 0 <= k -> entryOk k e -> readEntry (writeEntry e) = e.
Proof.
  intros Hk (H1 & H2 & H3 & H4 & H5). unfold readEntry, writeEntry. cbn [toObject].
  unfold field. rewrite !lookup_assoc. cbn [assoc String.eqb Ascii.eqb Bool.eqb].
  rewrite !toInt_jint by (done || unfold in_int; lia). rewrite !toInt64_jdouble by done. by destruct e.
Qed.

Definition entriesOf (st : histState) : list HistoryEntry :=
  map (fun id => default noEntry (st.1 !! id)) st.2.

(** The ids in order are distinct and each has its entry. *)
Definition histInv (st : histState) : Prop :=
  NoDup st.2 /\ (forall id, id ∈ st.2 <-> is_Some (st.1 !! id)) /\
  (forall id e, st.1 !! id = Some e -> hid e = id /\ 0 <= id).

Lemma entriesOf_insert m order id e : id ∉ order -> entriesOf (<[id:=e]> m, order) = entriesOf (m, order).
Proof.
  intros H. unfold entriesOf. simpl. apply map_ext_in. intros x Hx.
  rewrite lookup_insert_ne; [done|]. intros ->. by apply H, list_elem_of_In.
Qed.

Lemma removeOne_filter x l : NoDup l -> removeOne x l = filter (fun y => y <> x) l.
Proof.
  induction 1 as [|y l Hy Hl IH]; [done|]. simpl. destruct (Z.eqb_spec y x) as [->|Hne].
  - rewrite filter_cons_False by tauto. symmetry. apply filter_all. intros z Hz ->. done.
  - by rewrite filter_cons_True, IH.
Qed.

Lemma historyStart_spec es :
  NoDup (map hid es) -> Forall (fun e => 0 <= hid e) es ->
  histInv (historyStart es) /\ entriesOf (historyStart es) = es.
Proof.
  induction es as [|e es IH] using rev_ind; intros Hn Hp.
  { split; [|done]. split_and!; [constructor|intros id; split; [by intros ?%elem_of_nil|by intros [? ?]]|done]. }
  rewrite map_app in Hn. apply NoDup_app in Hn as (Hn & Hd & _).
  apply Forall_app in Hp as [Hp He]. rewrite Forall_singleton in He.
  destruct (IH Hn Hp) as [(I1 & I2 & I3) Ie]. unfold historyStart in *. rewrite fold_left_app. simpl.
  set (st := fold_left _ es _) in *.
  assert (Hst : st.2 = map hid es).
  { rewrite <- Ie. unfold entriesOf. rewrite map_map. symmetry. rewrite <- (map_id st.2) at 2.
    apply map_ext_in. intros id Hid. apply list_elem_of_In, I2 in Hid as [e' Ee]. rewrite Ee. simpl.
    by apply I3 in Ee as [-> _]. }
  assert (Hni : hid e ∉ st.2).
  { rewrite Hst. intros Hin. apply (Hd _ Hin). simpl. by left. }
  split.
  - split_and!; simpl.
    + apply NoDup_app. split_and!; [done| |apply NoDup_singleton].
      intros x Hx Hx'. apply list_elem_of_singleton in Hx' as ->. done.
    + intros id. rewrite elem_of_app, list_elem_of_singleton, I2, lookup_insert_is_Some.
      destruct (decide (hid e = id)); intuition congruence.
    + intros id e' Ee. apply lookup_insert_Some in Ee as [[<- <-]|[_ Ee]]; [done|by apply I3].
  - unfold entriesOf. simpl. rewrite map_app. f_equal.
    + etransitivity; [|exact Ie]. by apply entriesOf_insert.
    + simpl. by rewrite lookup_insert_eq.
Qed.

Lemma findEntry_state st id : histInv st -> findEntry id (entriesOf st) = default noEntry (st.1 !! id).
Proof.
  intros (I1 & I2 & I3). unfold findEntry, entriesOf.
  assert (Hf : forall l, (forall x, x ∈ l -> is_Some (st.1 !! x)) -> NoDup l ->
    filter (fun e => hid e = id) (map (fun x => default noEntry (st.1 !! x)) l) =
    if bool_decide (id ∈ l) then [default noEntry (st.1 !! id)] else []).
  { induction l as [|x l IH]; intros Hl Hn; [done|]. apply NoDup_cons in Hn as [Hx Hn].
    simpl. rewrite filter_cons. destruct (Hl x ltac:(by left)) as [e Ee]. rewrite Ee. simpl.
    destruct (I3 _ _ Ee) as [Eh _]. rewrite Eh. rewrite IH by (done || intros; apply Hl; by right).
    destruct (decide (x = id)) as [->|Hne].
    - rewrite Ee, (bool_decide_true (id ∈ id :: l)), bool_decide_false by (done || by left). done.
    - case_bool_decide as H1; case_bool_decide as H2; try done; exfalso.
      + apply H2. by right.
      + apply elem_of_cons in H2 as [->|]; done. }
  rewrite Hf; [|intros x Hx; by apply I2|done].
  case_bool_decide as Hin; [done|]. rewrite I2 in Hin. apply eq_None_not_Some in Hin. by rewrite Hin.
Qed.

Lemma historyUse_spec names now st id :
  histInv st -> 0 <= id ->
  histInv (historyUse names now st id) /\
  entriesOf (historyUse names now st id) = lruUse names now (entriesOf st) id.
Proof.
  intros Hinv Hid. pose proof (findEntry_state st id Hinv) as Hfe. destruct Hinv as (I1 & I2 & I3).
  set (e' := Hist id (if hid (default noEntry (st.1 !! id)) <? 0 then now
                      else firstUsed (default noEntry (st.1 !! id))) now
    (builds (default noEntry (st.1 !! id)) + 1) (failures (default noEntry (st.1 !! id)))
    (match names !! id with Some n => n | None => hname (default noEntry (st.1 !! id)) end)).
  set (order := filter (fun y => y <> id) st.2).
  assert (Eu : historyUse names now st id = (<[id := e']> st.1, id :: order)).
  { unfold historyUse, e', order. rewrite <- removeOne_filter by done.
    destruct (st.1 !! id) as [e|] eqn:E; simpl.
    - destruct (I3 _ _ E) as [Eh Hp]. rewrite Eh. by destruct (Z.ltb_spec id 0); [lia|].
    - rewrite removeOne_filter by done. rewrite filter_all; [done|].
      intros y Hy ->. apply I2 in Hy. rewrite E in Hy. by destruct Hy. }
  assert (Hni : id ∉ order) by (unfold order; rewrite list_elem_of_filter; tauto).
  rewrite Eu. split.
  - split_and!; simpl.
    + constructor; [done|]. by apply NoDup_filter.
    + intros x. unfold order. rewrite elem_of_cons, list_elem_of_filter, I2, lookup_insert_is_Some.
      destruct (decide (id = x)); intuition congruence.
    + intros x e Ee. apply lookup_insert_Some in Ee as [[<- <-]|[_ Ee]]; [done|by apply I3].
  - unfold lruUse. rewrite Hfe. fold e'. unfold entriesOf at 1. simpl. rewrite lookup_insert_eq. simpl. f_equal.
    etransitivity; [by apply (entriesOf_insert st.1 order)|]. unfold entriesOf, order. simpl.
    clear -I2 I3. assert (Hl : forall x, x ∈ st.2 -> is_Some (st.1 !! x)) by (intros; by apply I2).
    clear I2. induction st.2 as [|x l IH]; [done|]. simpl. rewrite !filter_cons.
    destruct (Hl x ltac:(by left)) as [e Ee]. destruct (I3 _ _ Ee) as [Eh _].
    rewrite Ee. simpl. rewrite Eh.
    destruct (decide (x <> id)); simpl; rewrite IH by (intros; apply Hl; by right); [|done].
    by rewrite Ee.
Qed.

Lemma historyTrim_entries st :
  NoDup st.2 -> entriesOf (historyTrim st) = take kMaxHistoryEntries (entriesOf st).
Proof.
  destruct st as [m order]. unfold entriesOf, historyTrim. simpl. intros Hn.
  rewrite firstn_map. apply map_ext_in. intros id Hid. apply list_elem_of_In in Hid. f_equal.
  assert (Hd : id ∉ reverse (drop kMaxHistoryEntries order)).
  { rewrite elem_of_reverse. intros Hin. rewrite <- (take_drop kMaxHistoryEntries order) in Hn.
    apply NoDup_app in Hn as (_ & Hn & _). by apply (Hn id). }
  generalize dependent (reverse (drop kMaxHistoryEntries order)). intros l Hd.
  revert m. induction l as [|x l IH]; intros m; [done|]. apply not_elem_of_cons in Hd as [Hx Hd].
  simpl. rewrite IH by done. by rewrite lookup_delete_ne.
Qed.

Lemma lruUse_ok names now k es id :
  0 <= k < 2 ^ 31 - 1 -> 0 <= id < 2 ^ 31 -> Z.abs now < 2 ^ 53 ->
  Forall (entryOk (k + 1)) es -> NoDup (map hid es) ->
  Forall (entryOk k) (lruUse names now es id) /\ NoDup (map hid (lruUse names now es id)).
Proof.
  intros Hk Hid Hnow He Hn.
  assert (Hfind : findEntry id es = noEntry \/ (entryOk (k + 1) (findEntry id es) /\ hid (findEntry id es) = id)).
  { unfold findEntry. destruct (filter _ es) as [|e r] eqn:E; [by left|right].
    assert (Hin : e ∈ filter (fun e => hid e = id) es) by (rewrite E; by left).
    apply list_elem_of_filter in Hin as [Eh Hin]. rewrite Forall_forall in He. by split; [apply He|]. }
  split.
  - unfold lruUse. constructor.
    + unfold entryOk, in_int in *. simpl. destruct Hfind as [->|[(H1 & H2 & H3 & H4 & H5) H6]]; simpl; [lia|].
      destruct (Z.ltb_spec (hid (findEntry id es)) 0); lia.
    + apply Forall_forall. intros e Hin. apply list_elem_of_filter in Hin as [_ Hin].
      rewrite Forall_forall in He. apply He in Hin. unfold entryOk, in_int in *. lia.
  - unfold lruUse. simpl. constructor.
    + intros Hin. apply list_elem_of_fmap in Hin as (e & E & Hin). by apply list_elem_of_filter in Hin as [Hne _].
    + clear -Hn. induction es as [|e es IH]; [constructor|]. simpl in Hn. apply NoDup_cons in Hn as [Hx Hn].
      rewrite filter_cons. destruct (decide _); [|by apply IH]. simpl. constructor; [|by apply IH].
      intros Hin. apply Hx. apply list_elem_of_fmap in Hin as (e' & E & Hin).
      apply list_elem_of_filter in Hin as [_ Hin]. rewrite E. by apply list_elem_of_fmap_2.
Qed.

Lemma lruFold_ok names now es ids :
  Z.of_nat (length ids) < 2 ^ 31 - 1 -> Forall (fun id => 0 <= id < 2 ^ 31) ids -> Z.abs now < 2 ^ 53 ->
  Forall (entryOk (Z.of_nat (length ids))) es -> NoDup (map hid es) ->
  Forall (entryOk 0) (fold_left (lruUse names now) ids es) /\
  NoDup (map hid (fold_left (lruUse names now) ids es)).
Proof.
  intros Hl Hids Hnow. revert es. induction Hids as [|id ids Hid Hids IH]; intros es He Hn; [done|].
  simpl in *. rewrite Nat2Z.inj_succ in *.
  destruct (lruUse_ok names now (Z.of_nat (length ids)) es id) as [H1 H2]; try done; [lia|].
  by apply IH; [lia| |].
Qed.

Lemma historyFold_spec names now ids st :
  histInv st -> Forall (fun id => 0 <= id < 2 ^ 31) ids ->
  histInv (fold_left (historyUse names now) ids st) /\
  entriesOf (fold_left (historyUse names now) ids st) = fold_left (lruUse names now) ids (entriesOf st).
Proof.
  intros Hi Hids. revert st Hi. induction Hids as [|id ids Hid Hids IH]; intros st Hi; [done|].
  simpl. destruct (historyUse_spec names now st id Hi) as [H1 H2]; [lia|].
  destruct (IH _ H1) as [H3 H4]. by rewrite H4, H2.
Qed.

Lemma readEntries k es : 0 <= k -> Forall (entryOk k) es -> map readEntry (map writeEntry es) = es.
Proof.
  intros Hk H. induction H as [|e es He H IH]; [done|]. simpl. rewrite IH. by rewrite (read_write k).
Qed.

Lemma HistoryEntries_written k s es :
  0 <= k -> history s = map writeEntry es -> Forall (entryOk k) es -> HistoryEntries s = es.
Proof.
  intros Hk Hh He. unfold HistoryEntries. rewrite Hh, (readEntries k) by done.
  apply filter_all. intros e Hin. rewrite Forall_forall in He. apply He in Hin as [Hin _]. lia.
Qed.

(** ** Properties *)

(** Whatever a profile contained, [Normalize] puts every field in
    its range (distinct nonnegative groups, pool at most 3000, build at most
    500 and within the pool, ready set inside the closely-checked set inside
    the build, intervals ordered), and changes nothing that was in range. *)
Theorem Normalize_spec s : wfSelector (Normalize s) /\ (wfSelector s -> Normalize s = s).
Proof. split; [apply Normalize_wf|apply Normalize_fixed]. Qed.

Example Normalize_spec_witness :
  wfSelector freshSelector /\ Normalize freshSelector = freshSelector.
Proof.
  assert (H : wfSelector freshSelector)
    by (unfold wfSelector; simpl; split_and!; try lia; [constructor|constructor|right; reflexivity]).
  split; [exact H|]. exact (proj2 (Normalize_spec freshSelector) H).
Defined.

(** An in-range selector survives [ExportToJson] and [ParseFromJson],
    whatever object it is parsed into. *)
Theorem autoSelector_json_roundtrip s0 s :
  wfSelector s -> jsonSized s -> ParseFromJson s0 (ExportToJson s) = Some s.
Proof. apply export_parse. Qed.

Example autoSelector_json_roundtrip_witness :
  let s := Normalize freshSelector in
  ParseFromJson (setHistory freshSelector [JNull]) (ExportToJson s) = Some s.
Proof.
  apply (autoSelector_json_roundtrip (setHistory freshSelector [JNull]) (Normalize freshSelector)).
  - apply Normalize_wf.
  - unfold jsonSized, in_int. simpl. split_and!; repeat (apply Forall_cons; split); try apply Forall_nil_2; first [split; vm_compute; (reflexivity || discriminate)|vm_compute; reflexivity].
Defined.

(** C35: the usage history is a least-recently-used list of at most
    2000 entries: recording a build moves the entry of each member, created or
    counted, to the front in turn, and drops the entries beyond the limit. *)
Theorem RecordHistory_lru s es ids names now :
  history s = map writeEntry es -> NoDup (map hid es) ->
  Forall (entryOk (Z.of_nat (length ids))) es -> Z.of_nat (length ids) < 2 ^ 31 - 1 ->
  Forall (fun id => 0 <= id < 2 ^ 31) ids -> Z.abs now < 2 ^ 53 ->
  HistoryEntries (RecordHistory s ids names now) = take 2000 (fold_left (lruUse names now) ids es).
Proof.
  intros Hh Hn He Hl Hids Hnow.
  assert (Hes : HistoryEntries s = es) by (by apply (HistoryEntries_written (Z.of_nat (length ids))); [lia| |]).
  destruct (historyStart_spec es Hn) as [Hi Hs].
  { eapply Forall_impl; [exact He|]. intros e (H & _). lia. }
  destruct (historyFold_spec names now ids _ Hi Hids) as [Hi' Hf]. rewrite Hs in Hf.
  destruct (lruFold_ok names now es ids Hl Hids Hnow He Hn) as [Hok _].
  apply (HistoryEntries_written 0); [done| |by apply Forall_take].
  unfold RecordHistory. rewrite Hes. simpl history.

  change 2000%nat with kMaxHistoryEntries. rewrite <- Hf, <- historyTrim_entries by apply Hi'.
  unfold entriesOf. by rewrite map_map.
Qed.

Example RecordHistory_lru_witness :
  let s := setHistory freshSelector (map writeEntry [Hist 7 100 200 3 1 (u "a"); Hist 9 100 150 1 0 (u "b")]) in
  HistoryEntries (RecordHistory s [9; 5] ∅ 300) =
    [Hist 5 300 300 1 0 []; Hist 9 100 300 2 0 (u "b"); Hist 7 100 200 3 1 (u "a")].
Proof.
  cbv zeta.
  transitivity (take 2000 (fold_left (lruUse ∅ 300) [9; 5]
    [Hist 7 100 200 3 1 (u "a"); Hist 9 100 150 1 0 (u "b")])); [|vm_compute; reflexivity].
  apply RecordHistory_lru; [reflexivity|..].
  - apply (bool_decide_unpack (NoDup [7; 9])). vm_compute. exact I.
  - unfold entryOk, in_int. simpl. repeat (apply Forall_cons; split); try apply Forall_nil_2; simpl; lia.
  - simpl. lia.
  - repeat (apply Forall_cons; split); try apply Forall_nil_2; lia.
  - lia.
Defined.
