(* ===== verification/AutoSelectorPlan.v ===== *)
(** * AutoSelectorPlan: which members an auto selector builds

    src/configs/AutoSelectorPlan.cpp and include/configs/AutoSelectorPlan.h:
    eligibility of a member, ranking by latency, the plan of a build, and the
    functions the sweep uses ([RankingCandidates], [UnmeasuredCandidates],
    [MemberWorks], [StartQuorum], [BuildChanged], [Rerank]).  The repositories
    are maps; [now] is the clock reading each function takes. *)

From S2P Require Import Prelude Text Json StableSort AutoSelector.

(** ** Data *)

(** A custom outbound: its kind and its JSON text. *)
Record CustomView := Custom { ctype : qstring; cconfig : qstring }.

(** What the virtual methods of an outbound answer. *)
Record OutboundView := Outbound {
  displayName : qstring; isExtraCore : bool; isXray : bool; isXrayFullConfig : bool;
  custom : option CustomView;
}.

Record Profile := MkProfile {
  ptype : qstring; latency : Z; latency_at : Z; test_country : qstring; outbound : option OutboundView;
}.

Record Group := MkGroup { landing_proxy_id : Z; front_proxy_id : Z; Profiles : list Z }.

(** The two repositories. *)
Record Repo := MkRepo { profiles : gmap Z Profile; groupsRepo : gmap Z Group }.

Inductive AutoSelectorSkip :=
  | None_ | Missing | MetaType | CoreTransitions | ExtraCore | FullConfig | Malformed | Tailscale
  | ManagementEndpoint | NameFilter | CountryFilter | Unavailable | XrayFullChained.

#[export] Instance AutoSelectorSkip_eq_dec : EqDecision AutoSelectorSkip.
Proof. solve_decision. Defined.

(** The enumerator's value, the order of a [QMap] keyed by it. *)
Definition skipCode (s : AutoSelectorSkip) : Z :=
  match s with
  | None_ => 0 | Missing => 1 | MetaType => 2 | CoreTransitions => 3 | ExtraCore => 4 | FullConfig => 5
  | Malformed => 6 | Tailscale => 7 | ManagementEndpoint => 8 | NameFilter => 9 | CountryFilter => 10
  | Unavailable => 11 | XrayFullChained => 12
  end.

Record Plan := MkPlan {
  planPool : list Z; planBuild : list Z; membersInGroups : Z; missingGroups : Z; eligible : Z;
  rankedByTest : Z; keptUnavailable : Z; skipped : list (AutoSelectorSkip * Z); truncated : bool;
  poolCapUsed : Z; buildLimitUsed : Z; needsRanking : bool; error : qstring;
}.

Definition emptyPlan : Plan := MkPlan [] [] 0 0 0 0 0 [] false 0 0 false [].

Definition skippedCount (plan : Plan) : Z := fold_left (fun total entry => total + entry.2) (skipped plan) 0.

(** An auto selector profile: its id and its selector, absent when the
    outbound is not an auto selector. *)
Record SelectorProfile := MkSelectorProfile { entId : Z; selectorOf : option autoSelector }.

(** What Qt's regular expressions, Unicode tables and JSON parser answer. *)
Class SelectorText := {
  regexIsValid : qstring -> bool;
  regexHasMatch : qstring -> qstring -> bool;
  toUpper : qstring -> qstring;
  jsonObjectIsEmpty : qstring -> bool;
}.

(** ** Filters *)

Record MemberFilters := Filters {
  filterName : qstring; hasName : bool; countries : gset qstring; excludedCountries : gset qstring;
}.

Section Selector.
Context `{Q : QtText} `{T : SelectorText}.

Definition addCountry (filters : MemberFilters) (item : qstring) : MemberFilters :=
  let code := trimmed item in
  let exclude := startsWith code (u "!") in
  let code := if exclude then trimmed (drop 1 code) else code in
  if bool_decide (code = []) then filters
  else if exclude
    then Filters (filterName filters) (hasName filters) (countries filters)
           ({[toUpper code]} ∪ excludedCountries filters)
    else Filters (filterName filters) (hasName filters) ({[toUpper code]} ∪ countries filters)
           (excludedCountries filters).

Definition buildFilters (selector : autoSelector) : MemberFilters :=
  let named := negb (bool_decide (trimmed (nameFilter selector) = [])) in
  fold_left addCountry (filter (fun item => item <> []) (splitOn 44 (countryFilter selector)))
    (Filters (if named then nameFilter selector else []) (named && regexIsValid (nameFilter selector)) ∅ ∅).

(** ** Eligibility *)

Definition hasFreshResult (member : option Profile) (selector : autoSelector) (now : Z) : bool :=
  match member with
  | None => false
  | Some m =>
      if latency m =? 0 then false
      else if resultValidityMins selector <=? 0 then false
      else if latency_at m <=? 0 then false
      else now - latency_at m <=? resultValidityMins selector * 60
  end.

Definition countryVerdict (filters : MemberFilters) (m : Profile) : bool :=
  (negb (bool_decide (countries filters = ∅)) || negb (bool_decide (excludedCountries filters = ∅))) &&
  let country := toUpper (trimmed (test_country m)) in
  bool_decide (country = []) || bool_decide (country ∈ excludedCountries filters) ||
  (negb (bool_decide (countries filters = ∅)) && negb (bool_decide (country ∈ countries filters))).

(** The checks after the type checks: custom, name, country, last result. *)
Definition eligibilityOfRest (m : Profile) (o : OutboundView) (selector : autoSelector)
    (filters : MemberFilters) (now : Z) : AutoSelectorSkip :=
  if hasName filters && negb (regexHasMatch (filterName filters) (displayName o)) then NameFilter
  else if countryVerdict filters m then CountryFilter
  else if excludeUnavailable selector && (latency m <? 0) && hasFreshResult (Some m) selector now
    then Unavailable
  else None_.

Definition eligibilityOf (member : option Profile) (selector : autoSelector)
    (filters : MemberFilters) (now : Z) : AutoSelectorSkip :=
  match member with
  | None => Missing
  | Some m =>
      match outbound m with
      | None => Missing
      | Some o =>
          let hasType t := bool_decide (ptype m = u t) in
          if hasType "chain" || hasType "autoselector" then MetaType
          else if hasType "tailscale" then Tailscale
          else if hasType "openvpn" || hasType "openconnect" then ManagementEndpoint
          else if isExtraCore o then ExtraCore
          else if hasType "custom" then
            match custom o with
            | None => Missing
            | Some c =>
                if negb (bool_decide (ctype c = u "outbound")) &&
                   negb (bool_decide (ctype c = u "xrayoutbound")) &&
                   negb (bool_decide (ctype c = u "xrayfullconfig")) then FullConfig
                else if jsonObjectIsEmpty (cconfig c) then Malformed
                else eligibilityOfRest m o selector filters now
            end
          else eligibilityOfRest m o selector filters now
      end
  end.

(** ** Chains *)

Definition outboundOf (p : option Profile) : option OutboundView := p ≫= outbound.

Definition coreTransitions (landing member front : option Profile) : Z :=
  (fold_left (fun '(transitions, inXray) hop =>
     match outboundOf hop with
     | None => (transitions, inXray)
     | Some o => (if negb (Bool.eqb (isXray o) inXray) then transitions + 1 else transitions, isXray o)
     end) [landing; member; front] (0, false)).1.

Definition xrayFullConfigFitsChain (landing front : option Profile) : bool :=
  match front with
  | Some _ => false
  | None =>
      match outboundOf landing with
      | None => true
      | Some o => negb (isXray o) && negb (isXrayFullConfig o) && negb (isExtraCore o)
      end
  end.

(** ** Ranking *)

Definition latencyRank (latency : Z) : Z := if 0 <? latency then 0 else if latency =? 0 then 1 else 2.

Definition effectiveLatency (member : option Profile) (selector : autoSelector) (now : Z) : Z :=
  match member with
  | Some m => if hasFreshResult member selector now then latency m else 0
  | None => 0
  end.

Definition effectiveLatencyOf (repo : Repo) (id : Z) (selector : autoSelector) (now : Z) : Z :=
  effectiveLatency (profiles repo !! id) selector now.

Definition byLatency (leftLatency rightLatency : Z) : bool :=
  let leftRank := latencyRank leftLatency in
  let rightRank := latencyRank rightLatency in
  if negb (leftRank =? rightRank) then leftRank <? rightRank
  else if leftRank =? 0 then leftLatency <? rightLatency
  else false.

(** The hash of the latencies, read once up front. *)
Definition latencyTable (repo : Repo) (ids : list Z) (selector : autoSelector) (now : Z)
    (untrusted : gset Z) : gmap Z Z :=
  fold_left (fun table id =>
    <[id := if bool_decide (id ∈ untrusted) then 0 else effectiveLatencyOf repo id selector now]> table)
    ids ∅.

Definition sortByLatency (repo : Repo) (ids : list Z) (selector : autoSelector) (now : Z)
    (untrusted : gset Z) : list Z :=
  let table := latencyTable repo ids selector now untrusted in
  stable_sort (fun left right => byLatency (default 0 (table !! left)) (default 0 (table !! right))) ids.

(** ** The members of the tracked groups *)

(** [skips[skip] += n] of a [QMap]: keys ascending. *)
Fixpoint addSkip (skip : AutoSelectorSkip) (n : Z) (skips : list (AutoSelectorSkip * Z)) :
    list (AutoSelectorSkip * Z) :=
  match skips with
  | [] => [(skip, n)]
  | (k, c) :: rest =>
      if skipCode skip <? skipCode k then (skip, n) :: skips
      else if skipCode skip =? skipCode k then (k, c + n) :: rest
      else (k, c) :: addSkip skip n rest
  end.

Record Scan := MkScan {
  members : list Z; unavailable : list Z; seen : gset Z; skips : list (AutoSelectorSkip * Z);
  scanned : Z; ranked : Z;
}.

Definition proxyOf (repo : Repo) (id : Z) : option Profile :=
  if 0 <=? id then profiles repo !! id else None.

Definition scanMember (repo : Repo) (ent : Z) (selector : autoSelector) (filters : MemberFilters) (now : Z)
    (landing front : option Profile) (st : Scan) (id : Z) : Scan :=
  if (id =? ent) || bool_decide (id ∈ seen st) then st
  else
    let seen' := {[id]} ∪ seen st in
    let member := profiles repo !! id in
    let scanned' := scanned st + 1 in
    let skip := eligibilityOf member selector filters now in
    let skipWith s := MkScan (members st) (unavailable st) seen' (addSkip s 1 (skips st)) scanned' (ranked st) in
    if negb (bool_decide (skip = None_)) && negb (bool_decide (skip = Unavailable)) then skipWith skip
    else
      let full := match outboundOf member with Some o => isXrayFullConfig o | None => false end in
      if full && negb (xrayFullConfigFitsChain landing front) then skipWith XrayFullChained
      else if negb full && (2 <? coreTransitions landing member front) then skipWith CoreTransitions
      else if bool_decide (skip = Unavailable)
        then MkScan (members st) (unavailable st ++ [id]) seen' (skips st) scanned' (ranked st)
      else MkScan (members st ++ [id]) (unavailable st) seen' (skips st) scanned'
             (if 0 <? effectiveLatency member selector now then ranked st + 1 else ranked st).

Definition scanGroup (repo : Repo) (ent : Z) (selector : autoSelector) (filters : MemberFilters) (now : Z)
    (st : Scan) (group : Group) : Scan :=
  fold_left (scanMember repo ent selector filters now (proxyOf repo (landing_proxy_id group))
               (proxyOf repo (front_proxy_id group))) (Profiles group) st.

Definition scanGroups (repo : Repo) (ent : Z) (selector : autoSelector) (now : Z) (groups : list Group) : Scan :=
  fold_left (scanGroup repo ent selector (buildFilters selector) now) groups (MkScan [] [] ∅ [] 0 0).

Definition withError (plan : Plan) (e : qstring) : Plan :=
  MkPlan (planPool plan) (planBuild plan) (membersInGroups plan) (missingGroups plan) (eligible plan)
    (rankedByTest plan) (keptUnavailable plan) (skipped plan) (truncated plan) (poolCapUsed plan)
    (buildLimitUsed plan) (needsRanking plan) e.

Definition liveGroups (repo : Repo) (selector : autoSelector) : list Group :=
  omap (fun gid => groupsRepo repo !! gid) (gids selector).

(** The plan is filled in as the code does through its pointer; a caller that
    passes none ignores it. *)
Definition eligibleMembers (repo : Repo) (ent : Z) (selector : autoSelector) (now : Z) (plan : Plan) :
    list Z * Plan :=
  if bool_decide (gids selector = []) then ([], withError plan (u "Auto selector tracks no group"))
  else
    let groups := liveGroups repo selector in
    let missing := Z.of_nat (length (gids selector) - length groups) in
    let plan := MkPlan (planPool plan) (planBuild plan) (membersInGroups plan) (missingGroups plan + missing)
                  (eligible plan) (rankedByTest plan) (keptUnavailable plan) (skipped plan) (truncated plan)
                  (poolCapUsed plan) (buildLimitUsed plan) (needsRanking plan) (error plan) in
    if bool_decide (groups = [])
    then ([], withError plan (u "Auto selector points at a group that no longer exists"))
    else
      let st := scanGroups repo ent selector now groups in
      let n := Z.of_nat (length (unavailable st)) in
      let keep := bool_decide (members st = []) && negb (bool_decide (unavailable st = [])) in
      let skips := if keep || bool_decide (unavailable st = []) then skips st
                   else addSkip Unavailable n (skips st) in
      (if keep then unavailable st else members st,
       MkPlan (planPool plan) (planBuild plan) (membersInGroups plan + scanned st) (missingGroups plan)
         (eligible plan) (rankedByTest plan + ranked st) (if keep then n else keptUnavailable plan)
         (skipped plan ++ skips) (truncated plan) (poolCapUsed plan) (buildLimitUsed plan)
         (needsRanking plan) (error plan)).

(** ** The order of the pool *)

Fixpoint placePersisted (eligible placed : gset Z) (persistedPool ordered : list Z) : gset Z * list Z :=
  match persistedPool with
  | [] => (placed, ordered)
  | id :: persistedPool =>
      if negb (bool_decide (id ∈ eligible)) || bool_decide (id ∈ placed)
      then placePersisted eligible placed persistedPool ordered
      else placePersisted eligible ({[id]} ∪ placed) persistedPool (ordered ++ [id])
  end.

Definition orderMembers (repo : Repo) (members persistedPool : list Z) (selector : autoSelector) (now : Z) :
    list Z :=
  let '(placed, ordered) := placePersisted (list_to_set members) ∅ persistedPool [] in
  let newcomers := filter (fun id => id ∉ placed) members in
  ordered ++ sortByLatency repo newcomers selector now ∅.

(** [QList::mid(0, n)]: a negative length means the whole list. *)
Definition mid0 (l : list Z) (n : Z) : list Z := if n <? 0 then l else take (Z.to_nat n) l.

(** ** The plan *)

Abbreviation size l := (Z.of_nat (length l)).

(** The plan and the profile, whose selector is normalized; [now] is read by
    the eligibility pass and [now'] by the ordering. *)
Definition PlanAutoSelector (repo : Repo) (ent : option SelectorProfile) (now now' : Z) :
    Plan * option SelectorProfile :=
  match ent with
  | None => (withError emptyPlan (u "Null profile passed to PlanAutoSelector"), ent)
  | Some e =>
      match selectorOf e with
      | None => (withError emptyPlan (u "Profile is not an auto selector, data is corrupted"), ent)
      | Some selector =>
          let selector := Normalize selector in
          let ent := Some (MkSelectorProfile (entId e) (Some selector)) in
          let start := MkPlan [] [] 0 0 0 0 0 [] false (poolCap selector) (buildLimit selector) false [] in
          let '(members, plan) := eligibleMembers repo (entId e) selector now start in
          if negb (bool_decide (error plan = [])) then (plan, ent)
          else
            let elig := size members in
            if bool_decide (members = []) then
              (MkPlan [] [] (membersInGroups plan) (missingGroups plan) elig (rankedByTest plan)
                 (keptUnavailable plan) (skipped plan) false (poolCapUsed plan) (buildLimitUsed plan) false
                 (u "Auto selector has no usable members"), ent)
            else
              let ordered := orderMembers repo members (pool selector) selector now' in
              let truncated := poolCap selector <? size ordered in
              let ordered := if truncated then mid0 ordered (poolCap selector) else ordered in
              let build := mid0 ordered (Z.min (size ordered) (buildLimit selector)) in
              let unranked := size (filter (fun id => effectiveLatencyOf repo id selector now' = 0) build) in
              let needs := (buildLimit selector <? size ordered) && (0 <? unranked) in
              (MkPlan ordered build (membersInGroups plan) (missingGroups plan) elig (rankedByTest plan)
                 (keptUnavailable plan) (skipped plan) truncated (poolCapUsed plan) (buildLimitUsed plan)
                 needs [], ent)
      end
  end.

Definition withSelector {A} (ent : option SelectorProfile) (d : A)
    (f : SelectorProfile -> autoSelector -> A) : A :=
  match ent with
  | None => d
  | Some e => match selectorOf e with None => d | Some selector => f e selector end
  end.

Definition AutoSelectorRankingCandidates (repo : Repo) (ent : option SelectorProfile) (now : Z) : list Z :=
  withSelector ent [] (fun e selector => (eligibleMembers repo (entId e) (Normalize selector) now emptyPlan).1).

(** The members to measure and the number of working ones. *)
Definition AutoSelectorUnmeasuredCandidates (repo : Repo) (ent : option SelectorProfile) (stale : list Z)
    (now now' : Z) : list Z * Z :=
  withSelector ent ([], 0) (fun e selector =>
    let candidates := AutoSelectorRankingCandidates repo ent now in
    let selector := Normalize selector in
    fold_left (fun '(needed, working) id =>
      if bool_decide (id ∈ stale) then (needed ++ [id], working)
      else
        let latency := effectiveLatencyOf repo id selector now' in
        if latency =? 0 then (needed ++ [id], working)
        else if 0 <? latency then (needed, working + 1) else (needed, working))
      candidates ([], 0)).

Definition AutoSelectorMemberWorks (ent : option SelectorProfile) (member : option Profile) (now : Z) : bool :=
  withSelector ent false (fun _ selector => 0 <? effectiveLatency member selector now).

Definition AutoSelectorStartQuorum (ent : option SelectorProfile) : Z :=
  withSelector ent 0 (fun _ selector =>
    let selector := Normalize selector in
    Z.min (Z.max (expected selector) (activeSize selector)) (buildLimit selector)).

Definition AutoSelectorBuildChanged (repo : Repo) (ent : option SelectorProfile) (now now' now'' : Z) : bool :=
  withSelector ent false (fun e selector =>
    let '(plan, _) := PlanAutoSelector repo ent now now' in
    let selector := Normalize selector in
    if negb (bool_decide (error plan = [])) then false
    else
      let next : gset Z := list_to_set (planBuild plan) in
      let built : gset Z := list_to_set (lastBuilt selector) in
      existsb (fun id => negb (bool_decide (id ∈ next))) (elements built) ||
      existsb (fun id => negb (bool_decide (id ∈ built)) &&
                         (0 <? effectiveLatencyOf repo id selector now'')) (elements next)).

(** The pool and the saved profile; the selector is not normalized here. *)
Definition setPool (s : autoSelector) (p : list Z) (at_ : Z) : autoSelector := {|
  name := name s; gids := gids s; nameFilter := nameFilter s; countryFilter := countryFilter s;
  excludeUnavailable := excludeUnavailable s; poolCap := poolCap s; buildLimit := buildLimit s;
  resultValidityMins := resultValidityMins s; testURL := testURL s; connectivityURL := connectivityURL s;
  intervalSec := intervalSec s; benchIntervalSec := benchIntervalSec s; watchIntervalSec := watchIntervalSec s;
  activeSize := activeSize s; sampling := sampling s; toleranceMs := toleranceMs s; maxRTTms := maxRTTms s;
  expected := expected s; dialRetries := dialRetries s; interruptOnSwitch := interruptOnSwitch s;
  balance := balance s; balanceMode := balanceMode s; balanceIntervalSec := balanceIntervalSec s;
  pool := p; poolRankedAt := at_; pinnedID := pinnedID s; lastBuilt := lastBuilt s;
  lastBuiltAt := lastBuiltAt s; history := history s |}.

Definition RerankAutoSelectorPool (repo : Repo) (ent : option SelectorProfile) (untrusted : list Z)
    (now now' now'' : Z) : list Z * option SelectorProfile :=
  withSelector ent ([], ent) (fun e selector =>
    let members := (eligibleMembers repo (entId e) selector now emptyPlan).1 in
    let members := sortByLatency repo members selector now' (list_to_set untrusted) in
    let members := if poolCap selector <? size members then mid0 members (poolCap selector) else members in
    (members, Some (MkSelectorProfile (entId e) (Some (setPool selector members now''))))).
End Selector.
