(* ===== verification/AutoSelectorRank.v ===== *)
(** * AutoSelectorRank: ordering the members of an auto selector

    [sortByLatency] and [orderMembers] of AutoSelectorPlan.v: the comparator is
    a strict weak order, the hash it reads stands for the members' latencies,
    and the persisted order comes first. *)

From S2P Require Import Prelude Text Json StableSort AutoSelector AutoSelectorPlan.

#[export] Instance byLatency_strictWeak : StrictWeak byLatency.
Proof.
  split; intros *; unfold byLatency, latencyRank;
    repeat match goal with |- context [if ?b then _ else _] => destruct b eqn:? end; lia.
Qed.

(** The latency the ranking uses for a member. *)
Definition rankLatency (repo : Repo) (selector : autoSelector) (now : Z) (untrusted : gset Z) (id : Z) : Z :=
  if bool_decide (id ∈ untrusted) then 0 else effectiveLatencyOf repo id selector now.

Definition rankLt (repo : Repo) (selector : autoSelector) (now : Z) (untrusted : gset Z) (left right : Z) : bool :=
  byLatency (rankLatency repo selector now untrusted left) (rankLatency repo selector now untrusted right).

#[export] Instance rankLt_strictWeak repo selector now untrusted : StrictWeak (rankLt repo selector now untrusted).
Proof. apply (strictWeak_key (rankLatency repo selector now untrusted)), _. Qed.

Lemma latencyTable_lookup repo ids selector now untrusted id :
  id ∈ ids -> latencyTable repo ids selector now untrusted !! id = Some (rankLatency repo selector now untrusted id).
Proof.
  unfold latencyTable. fold (rankLatency repo selector now untrusted).
  assert (H : forall table : gmap Z Z, id ∈ ids \/ table !! id = Some (rankLatency repo selector now untrusted id) ->
    fold_left (fun table id => <[id := rankLatency repo selector now untrusted id]> table) ids table !! id =
      Some (rankLatency repo selector now untrusted id)).
  { induction ids as [|x ids IH]; intros table [Hin|Ht]; try done; [by apply elem_of_nil in Hin|..]; simpl; apply IH.
    - apply elem_of_cons in Hin as [->|Hin]; [right; apply lookup_insert_eq|by left].
    - right. destruct (decide (x = id)) as [->|Hne]; [apply lookup_insert_eq|by rewrite lookup_insert_ne]. }
  intros Hin. apply (H ∅). by left.
Qed.

Lemma sortByLatency_eq repo ids selector now untrusted :
  sortByLatency repo ids selector now untrusted = stable_sort (rankLt repo selector now untrusted) ids.
Proof.
  unfold sortByLatency. apply stable_sort_ext. intros x y Hx Hy.
  by rewrite !latencyTable_lookup.
Qed.

(** ** The persisted order first *)

(** The first occurrences of a list, those of [placed] left out. *)
Fixpoint firsts (placed : gset Z) (l : list Z) : list Z :=
  match l with
  | [] => []
  | x :: l => if bool_decide (x ∈ placed) then firsts placed l else x :: firsts ({[x]} ∪ placed) l
  end.

Lemma firsts_elem placed l x : x ∈ firsts placed l <-> x ∈ l /\ x ∉ placed.
Proof.
  revert placed. induction l as [|y l IH]; intros placed; simpl; [set_solver|].
  case_bool_decide as Hy; rewrite ?elem_of_cons, IH; [set_solver|].
  destruct (decide (x = y)); set_solver.
Qed.

Lemma firsts_NoDup placed l : NoDup (firsts placed l).
Proof.
  revert placed. induction l as [|y l IH]; intros placed; simpl; [constructor|].
  case_bool_decide as Hy; [done|]. constructor; [|done]. rewrite firsts_elem. set_solver.
Qed.

Lemma firsts_id placed l : NoDup l -> (forall x, x ∈ l -> x ∉ placed) -> firsts placed l = l.
Proof.
  intros Hn. revert placed. induction Hn as [|x l Hx Hn IH]; intros placed H; [done|].
  simpl. rewrite bool_decide_false by (apply H; by left). f_equal. apply IH.
  intros y Hy. rewrite not_elem_of_union, elem_of_singleton. split; [by intros ->|apply H; by right].
Qed.

Lemma placePersisted_spec (elig placed : gset Z) pool ordered :
  exists placed', placePersisted elig placed pool ordered =
    (placed', ordered ++ firsts placed (filter (fun x => x ∈ elig) pool)) /\
    forall x, x ∈ placed' <-> x ∈ placed \/ (x ∈ elig /\ x ∈ pool).
Proof.
  revert placed ordered. induction pool as [|y pool IH]; intros placed ordered; simpl.
  { exists placed. split; [by rewrite app_nil_r|]. intros x. rewrite elem_of_nil. tauto. }
  rewrite filter_cons. destruct (decide (y ∈ elig)) as [He|He].
  - rewrite (bool_decide_true (y ∈ elig)) by done. simpl. case_bool_decide as Hp.
    + destruct (IH placed ordered) as (p' & E & H). exists p'. split; [done|]. intros x. rewrite H, elem_of_cons.
      split; [tauto|]. intros [?|[? [->|?]]]; auto.
    + destruct (IH ({[y]} ∪ placed) (ordered ++ [y])) as (p' & E & H). exists p'. rewrite E, <- app_assoc.
      split; [done|]. intros x. rewrite H, elem_of_union, elem_of_singleton, elem_of_cons.
      split; [intros [[->|?]|?]; tauto|]. intros [?|[? [->|?]]]; auto.
  - rewrite (bool_decide_false (y ∈ elig)) by done. simpl.
    destruct (IH placed ordered) as (p' & E & H). exists p'. split; [done|]. intros x. rewrite H, elem_of_cons.
    split; [tauto|]. intros [?|[? [->|?]]]; [tauto|done|tauto].
Qed.

(** The members the persisted pool already ranks, in its order. *)
Definition persistedPart (members pool : list Z) : list Z := firsts ∅ (filter (fun x => x ∈ members) pool).

Definition newcomers (members pool : list Z) : list Z := filter (fun x => x ∉ pool) members.

Lemma orderMembers_eq repo members pool selector now :
  orderMembers repo members pool selector now =
    persistedPart members pool ++ stable_sort (rankLt repo selector now ∅) (newcomers members pool).
Proof.
  unfold orderMembers.
  destruct (placePersisted_spec (list_to_set members) ∅ pool []) as (placed & -> & Hp).
  rewrite sortByLatency_eq. simpl. unfold persistedPart, newcomers.
  f_equal; [f_equal; apply list_filter_iff; intros x; apply elem_of_list_to_set|]. f_equal.
  assert (H : forall x, x ∈ members -> (x ∉ placed <-> x ∉ pool)).
  { intros x Hx. rewrite Hp, elem_of_list_to_set. set_solver. }
  clear Hp. induction members as [|x l IH]; [done|]. rewrite !filter_cons.
  rewrite IH by (intros; apply H; by right).
  destruct (decide (x ∉ placed)) as [H1|H1], (decide (x ∉ pool)) as [H2|H2]; try done; exfalso.
  - by apply H2, H; [left|].
  - by apply H1, H; [left|].
Qed.

Lemma persisted_newcomers_perm members pool :
  NoDup members -> persistedPart members pool ++ newcomers members pool ≡ₚ members.
Proof.
  intros Hn. apply NoDup_Permutation; [|done|].
  - apply NoDup_app. split_and!; [apply firsts_NoDup| |by apply NoDup_filter].
    intros x Hx Hx'. apply firsts_elem in Hx as [Hx _]. apply list_elem_of_filter in Hx as [_ Hx].
    by apply list_elem_of_filter in Hx' as [Hx' _].
  - intros x. unfold persistedPart, newcomers. rewrite elem_of_app, firsts_elem, !list_elem_of_filter.
    destruct (decide (x ∈ pool)); set_solver.
Qed.

Lemma orderMembers_perm repo members pool selector now :
  NoDup members -> orderMembers repo members pool selector now ≡ₚ members.
Proof. intros Hn. rewrite orderMembers_eq, sort_perm. by apply persisted_newcomers_perm. Qed.

(** ** Properties *)

(** [sortByLatency] is the stable sort of the ids by the verdict of
    their last result: it rearranges them; a member with a fresh successful
    result comes before any other, faster ones first; untested members come
    before failed ones; members that compare equal, and [untrusted] ones, which
    count as untested, keep their order. *)
Theorem sortByLatency_spec repo ids selector now untrusted :
  let sorted := sortByLatency repo ids selector now untrusted in
  let lat := rankLatency repo selector now untrusted in
  sorted ≡ₚ ids /\
  (forall i j x y, (i < j)%nat -> sorted !! i = Some x -> sorted !! j = Some y ->
     (0 < lat y -> 0 < lat x <= lat y) /\ (lat y = 0 -> 0 <= lat x)) /\
  (forall w, filter (fun x => byLatency (lat w) (lat x) = false /\ byLatency (lat x) (lat w) = false) sorted =
             filter (fun x => byLatency (lat w) (lat x) = false /\ byLatency (lat x) (lat w) = false) ids).
Proof.
  cbv zeta. rewrite sortByLatency_eq. set (lt := rankLt repo selector now untrusted).
  destruct (stable_sort_spec lt ids) as (Hp & Hs & Hf). split_and!; [done| |].
  - intros i j x y Hij Hi Hj.
    assert (Hxy : lt y x = false).
    { exact (sorted_lookup _ _ _ _ _ _ Hs Hij Hi Hj). }
    unfold lt, rankLt, byLatency, latencyRank in Hxy.
    repeat match goal with H : context [if ?b then _ else _] |- _ => destruct b eqn:? end; lia.
  - intros w.
    assert (Hiff : forall x, byLatency (rankLatency repo selector now untrusted w) (rankLatency repo selector now untrusted x) = false /\
        byLatency (rankLatency repo selector now untrusted x) (rankLatency repo selector now untrusted w) = false <->
        equiv lt w x = true) by (intros x; unfold equiv; by rewrite andb_true_iff, !negb_true_iff).
    rewrite (list_filter_iff _ (fun x => equiv lt w x = true) (stable_sort lt ids) Hiff).
    rewrite (list_filter_iff _ (fun x => equiv lt w x = true) ids Hiff). apply Hf.
Qed.
