(* ===== verification/AutoSelectorMembers.v ===== *)
(** * AutoSelectorMembers: the eligibility pass

    The scan over the tracked groups (AutoSelectorPlan.v) as a specification:
    every profile is judged once, in the first group that lists it, and is
    kept, set aside as unavailable, or counted under its reason. *)

From S2P Require Import Prelude Text Json AutoSelector AutoSelectorPlan.

(** A profile as the scan meets it: its id and its group's two proxies. *)
Abbreviation visit := (Z * option Profile * option Profile)%type.

Definition visits (repo : Repo) (groups : list Group) : list visit :=
  concat (map (fun g => map (fun id => (id, proxyOf repo (landing_proxy_id g), proxyOf repo (front_proxy_id g)))
                          (Profiles g)) groups).

(** The first visit of each profile other than [ent]. *)
Fixpoint firstVisits (ent : Z) (seen : gset Z) (vs : list visit) : list visit :=
  match vs with
  | [] => []
  | v :: vs =>
      if (v.1.1 =? ent) || bool_decide (v.1.1 ∈ seen) then firstVisits ent seen vs
      else v :: firstVisits ent ({[v.1.1]} ∪ seen) vs
  end.

Definition countSkip (s : AutoSelectorSkip) (skips : list (AutoSelectorSkip * Z)) : Z :=
  fold_right (fun e total => if bool_decide (e.1 = s) then e.2 + total else total) 0 skips.

Definition totalSkips (skips : list (AutoSelectorSkip * Z)) : Z := fold_right (fun e total => e.2 + total) 0 skips.

Lemma skipCode_inj s t : skipCode s = skipCode t -> s = t.
Proof. by destruct s, t. Qed.

Lemma countSkip_add s k n skips :
  countSkip s (addSkip k n skips) = countSkip s skips + (if bool_decide (k = s) then n else 0).
Proof.
  induction skips as [|[k' c] rest IH]; simpl; [case_bool_decide; lia|].
  destruct (skipCode k <? skipCode k'); simpl; [repeat case_bool_decide; lia|].
  destruct (Z.eqb_spec (skipCode k) (skipCode k')) as [E|E]; simpl.
  - apply skipCode_inj in E as ->. repeat case_bool_decide; lia.
  - rewrite IH. repeat case_bool_decide; lia.
Qed.

Lemma totalSkips_add k n skips : totalSkips (addSkip k n skips) = totalSkips skips + n.
Proof.
  induction skips as [|[k' c] rest IH]; simpl; [lia|].
  destruct (skipCode k <? skipCode k'); simpl; [lia|].
  destruct (skipCode k =? skipCode k'); simpl; [lia|]. rewrite IH. lia.
Qed.

Lemma skippedCount_total plan : skippedCount plan = totalSkips (skipped plan).
Proof.
  unfold skippedCount, totalSkips.
  assert (H : forall l a, fold_left (fun total (e : AutoSelectorSkip * Z) => total + e.2) l a =
                          a + fold_right (fun e total => e.2 + total) 0 l).
  { induction l as [|e l IH]; intros a; simpl; [lia|]. rewrite IH. lia. }
  rewrite H. lia.
Qed.

Section Scan.
Context `{Q : QtText} `{T : SelectorText}.
Context (repo : Repo) (ent : Z) (selector : autoSelector) (now : Z).

Definition filters : MemberFilters := buildFilters selector.

(** The verdict on a profile in its group. *)
Definition verdict (v : visit) : AutoSelectorSkip :=
  let '(id, landing, front) := v in
  let member := profiles repo !! id in
  let skip := eligibilityOf member selector filters now in
  if negb (bool_decide (skip = None_)) && negb (bool_decide (skip = Unavailable)) then skip
  else if (match outboundOf member with Some o => isXrayFullConfig o | None => false end)
  then (if xrayFullConfigFitsChain landing front then skip else XrayFullChained)
  else if 2 <? coreTransitions landing member front then CoreTransitions else skip.

Definition idsWith (s : AutoSelectorSkip) (vs : list visit) : list Z :=
  map (fun v => v.1.1) (filter (fun v => verdict v = s) vs).

Definition works (id : Z) : bool := 0 <? effectiveLatencyOf repo id selector now.

Definition scanVisit (st : Scan) (v : visit) : Scan :=
  scanMember repo ent selector filters now v.1.2 v.2 st v.1.1.

Lemma scanGroups_visits groups :
  scanGroups repo ent selector now groups = fold_left scanVisit (visits repo groups) (MkScan [] [] ∅ [] 0 0).
Proof.
  unfold scanGroups. generalize (MkScan [] [] ∅ [] 0 0). induction groups as [|g gs IH]; intros st; [done|].
  unfold visits in *. simpl. rewrite fold_left_app. rewrite IH. f_equal. unfold scanGroup.
  generalize st. induction (Profiles g) as [|id ids IHp]; intros st'; [done|]. simpl. apply IHp.
Qed.

(** One visit, by its verdict. *)
Lemma scanVisit_spec st v :
  scanVisit st v =
    if (v.1.1 =? ent) || bool_decide (v.1.1 ∈ seen st) then st
    else
      let s := verdict v in
      MkScan (if bool_decide (s = None_) then members st ++ [v.1.1] else members st)
        (if bool_decide (s = Unavailable) then unavailable st ++ [v.1.1] else unavailable st)
        ({[v.1.1]} ∪ seen st)
        (if bool_decide (s = None_) || bool_decide (s = Unavailable) then skips st else addSkip s 1 (skips st))
        (scanned st + 1)
        (if bool_decide (s = None_) && works v.1.1 then ranked st + 1 else ranked st).
Proof.
  destruct v as [[id landing] front]. unfold scanVisit, scanMember. simpl.
  destruct ((id =? ent) || bool_decide (id ∈ seen st)); [done|]. cbv zeta.
  unfold verdict, works, effectiveLatencyOf.
  set (skip := eligibilityOf (profiles repo !! id) selector filters now). cbv zeta.
  destruct (bool_decide_reflect (skip = None_)) as [E|E];
    destruct (bool_decide_reflect (skip = Unavailable)) as [E'|E']; simpl; try congruence.
  - rewrite E. destruct (outboundOf _) as [o|]; [destruct (isXrayFullConfig o)|]; simpl;
      try (destruct (xrayFullConfigFitsChain landing front)); simpl; try done;
      destruct (2 <? coreTransitions _ _ _); simpl; done.
  - rewrite E'. destruct (outboundOf _) as [o|]; [destruct (isXrayFullConfig o)|]; simpl;
      try (destruct (xrayFullConfigFitsChain landing front)); simpl; try done;
      destruct (2 <? coreTransitions _ _ _); simpl; done.
  - by rewrite (bool_decide_false (skip = None_)), (bool_decide_false (skip = Unavailable)).
Qed.

Lemma scan_spec vs st :
  let r := fold_left scanVisit vs st in
  let fs := firstVisits ent (seen st) vs in
  members r = members st ++ idsWith None_ fs /\
  unavailable r = unavailable st ++ idsWith Unavailable fs /\
  scanned r = scanned st + Z.of_nat (length fs) /\
  ranked r = ranked st + Z.of_nat (length (filter (fun id => works id = true) (idsWith None_ fs))) /\
  totalSkips (skips r) = totalSkips (skips st) + Z.of_nat (length fs)
    - Z.of_nat (length (idsWith None_ fs)) - Z.of_nat (length (idsWith Unavailable fs)) /\
  (forall s, s <> None_ -> s <> Unavailable ->
     countSkip s (skips r) = countSkip s (skips st) + Z.of_nat (length (idsWith s fs))) /\
  (countSkip None_ (skips r) = countSkip None_ (skips st)) /\
  (countSkip Unavailable (skips r) = countSkip Unavailable (skips st)).
Proof.
  revert st. induction vs as [|v vs IH]; intros st; cbv zeta.
  { simpl. unfold idsWith. simpl. rewrite !app_nil_r. split_and!; try done; try lia. }
  simpl fold_left. rewrite scanVisit_spec. simpl firstVisits.
  destruct ((v.1.1 =? ent) || bool_decide (v.1.1 ∈ seen st)); [apply IH|]. cbv zeta.
  match goal with |- context [fold_left _ _ ?s] => set (st1 := s) end.
  destruct (IH st1) as (H1 & H2 & H3 & H4 & H5 & H6 & H7 & H8).
  assert (Ew : forall s, idsWith s (v :: firstVisits ent (seen st1) vs) =
    if bool_decide (verdict v = s) then v.1.1 :: idsWith s (firstVisits ent (seen st1) vs)
    else idsWith s (firstVisits ent (seen st1) vs)).
  { intros s. unfold idsWith. rewrite filter_cons. case_bool_decide; [by rewrite decide_True|by rewrite decide_False]. }
  change ({[v.1.1]} ∪ seen st) with (seen st1).
  rewrite H1, H2, H3, H4, H5, H7, H8, !Ew. clear H1 H2 H3 H4 H5 H7 H8 IH. unfold st1 in *. simpl in *.
  split_and!.
  - destruct (bool_decide (verdict v = None_)); [by rewrite <- app_assoc|done].
  - destruct (bool_decide (verdict v = Unavailable)); [by rewrite <- app_assoc|done].
  - lia.
  - destruct (bool_decide (verdict v = None_)); simpl; [|lia]. rewrite filter_cons.
    destruct (works v.1.1); [rewrite decide_True by done|rewrite decide_False by done]; simpl; lia.
  - destruct (bool_decide_reflect (verdict v = None_)), (bool_decide_reflect (verdict v = Unavailable));
      simpl; try congruence; rewrite ?totalSkips_add; lia.
  - intros s Hs1 Hs2. rewrite H6, Ew by done.
    destruct (bool_decide_reflect (verdict v = None_)) as [E1|E1],
      (bool_decide_reflect (verdict v = Unavailable)) as [E2|E2]; simpl; try congruence;
      rewrite ?countSkip_add; repeat case_bool_decide; simpl; try congruence; lia.
  - destruct (bool_decide_reflect (verdict v = None_)) as [E1|E1],
      (bool_decide_reflect (verdict v = Unavailable)) as [E2|E2]; simpl; try congruence.
    rewrite countSkip_add, bool_decide_false by done. lia.
  - destruct (bool_decide_reflect (verdict v = None_)) as [E1|E1],
      (bool_decide_reflect (verdict v = Unavailable)) as [E2|E2]; simpl; try congruence.
    rewrite countSkip_add, bool_decide_false by done. lia.
Qed.

Lemma firstVisits_ids seen vs :
  NoDup (map (fun v => v.1.1) (firstVisits ent seen vs)) /\
  (forall id, id ∈ map (fun v => v.1.1) (firstVisits ent seen vs) <->
     id ∈ map (fun v : visit => v.1.1) vs /\ id <> ent /\ id ∉ seen).
Proof.
  revert seen. induction vs as [|v vs IH]; intros seen; simpl.
  { split; [constructor|]. intros id. rewrite !elem_of_nil. tauto. }
  destruct (Z.eqb_spec v.1.1 ent) as [->|Hne]; simpl.
  { destruct (IH seen) as [H1 H2]. split; [done|]. intros id. rewrite H2, elem_of_cons. intuition congruence. }
  case_bool_decide as Hs.
  - destruct (IH seen) as [H1 H2]. split; [done|]. intros id. rewrite H2, elem_of_cons. intuition congruence.
  - destruct (IH ({[v.1.1]} ∪ seen)) as [H1 H2]. simpl. split.
    + constructor; [|done]. rewrite H2. set_solver.
    + intros id. rewrite !elem_of_cons, H2, not_elem_of_union, elem_of_singleton.
      destruct (decide (id = v.1.1)) as [->|]; intuition congruence.
Qed.

Lemma idsWith_NoDup s seen vs : NoDup (idsWith s (firstVisits ent seen vs)).
Proof.
  destruct (firstVisits_ids seen vs) as [Hn _]. unfold idsWith.
  induction (firstVisits ent seen vs) as [|v l IH]; [constructor|]. simpl in Hn.
  apply NoDup_cons in Hn as [Hv Hn]. rewrite filter_cons. destruct (decide _); [|by apply IH].
  simpl. constructor; [|by apply IH]. intros Hin. apply Hv.
  apply list_elem_of_fmap in Hin as (v' & E & Hin). apply list_elem_of_filter in Hin as [_ Hin].
  rewrite E. by apply (list_elem_of_fmap_2 (fun v : visit => v.1.1)).
Qed.

(** The candidates of a build: each profile of a live tracked group once. *)
Definition candidates : list visit := firstVisits ent ∅ (visits repo (liveGroups repo selector)).

Definition usable : list Z := idsWith None_ candidates.
Definition failing : list Z := idsWith Unavailable candidates.

Lemma liveGroups_length : (length (liveGroups repo selector) <= length (gids selector))%nat.
Proof.
  unfold liveGroups. induction (gids selector) as [|g gs IH]; [done|]. simpl.
  change (list_omap Z Group ?f gs) with (omap f gs). destruct (groupsRepo repo !! g); simpl; lia.
Qed.

Lemma eligibleMembers_live plan :
  liveGroups repo selector <> [] ->
  let '(ms, plan') := eligibleMembers repo ent selector now plan in
  ms = (if bool_decide (usable = []) then failing else usable) /\
  membersInGroups plan' = membersInGroups plan + Z.of_nat (length candidates) /\
  missingGroups plan' =
    missingGroups plan + Z.of_nat (length (gids selector) - length (liveGroups repo selector)) /\
  totalSkips (skipped plan') =
    totalSkips (skipped plan) + Z.of_nat (length candidates) - Z.of_nat (length ms) /\
  rankedByTest plan' = rankedByTest plan + Z.of_nat (length (filter (fun id => works id = true) usable)) /\
  (keptUnavailable plan' = if bool_decide (usable = []) && negb (bool_decide (failing = []))
                          then Z.of_nat (length failing) else keptUnavailable plan) /\
  (forall s, s <> None_ -> s <> Unavailable -> skipped plan = [] ->
     countSkip s (skipped plan') = Z.of_nat (length (idsWith s candidates))) /\
  error plan' = error plan /\ poolCapUsed plan' = poolCapUsed plan /\ buildLimitUsed plan' = buildLimitUsed plan.
Proof.
  intros Hlive. unfold eligibleMembers. rewrite bool_decide_false.
  2:{ intros E. apply Hlive. unfold liveGroups. by rewrite E. }
  rewrite bool_decide_false by done. cbv zeta. rewrite scanGroups_visits.
  destruct (scan_spec (visits repo (liveGroups repo selector)) (MkScan [] [] ∅ [] 0 0))
    as (H1 & H2 & H3 & H4 & H5 & H6 & H7 & H8).
  simpl in *. fold candidates in H1, H2, H3, H4, H5, H6. fold usable failing in H1, H2, H5. fold usable in H4.
  rewrite H1, H2, H3, H4.
  assert (Happ : forall l l', totalSkips (l ++ l') = totalSkips l + totalSkips l')
    by (intros l l'; induction l; simpl; lia).
  assert (Hempty : forall l : list Z, bool_decide (l = []) = true -> length l = 0%nat)
    by (intros l Hl; apply bool_decide_eq_true in Hl; by subst).
  split_and!; try done; try lia.
  - destruct (bool_decide_reflect (usable = [])) as [->|], (bool_decide_reflect (failing = [])) as [->|]; done.
  - rewrite Happ. destruct (bool_decide (usable = [])) eqn:E1, (bool_decide (failing = [])) eqn:E2; simpl;
      try apply Hempty in E1; try apply Hempty in E2; rewrite ?totalSkips_add; lia.
  - intros s Hs1 Hs2 ->. simpl. specialize (H6 s Hs1 Hs2).
    destruct (_ || _); [lia|]. rewrite countSkip_add, bool_decide_false by congruence. lia.
Qed.

Lemma usable_NoDup : NoDup usable.
Proof. apply idsWith_NoDup. Qed.

Lemma failing_NoDup : NoDup failing.
Proof. apply idsWith_NoDup. Qed.
End Scan.
