(* ===== verification/AutoSelectorProps.v ===== *)
(** * AutoSelectorProps: what a plan guarantees

    Properties of [PlanAutoSelector] and of the functions around it
    (AutoSelectorPlan.v), stated with the specifications of the eligibility
    pass (AutoSelectorMembers.v) and of the ranking (AutoSelectorRank.v). *)

From S2P Require Import Prelude Text Json StableSort AutoSelector AutoSelectorPlan AutoSelectorRank AutoSelectorMembers.

Section Plan.
Context `{Q : QtText} `{T : SelectorText}.
Context (repo : Repo) (id : Z) (s : autoSelector) (now now' : Z).

Abbreviation sel := (Normalize s).
Abbreviation ent := (Some (MkSelectorProfile id (Some s))).

(** The members of the build's pool, before ordering. *)
Definition poolMembers : list Z :=
  if bool_decide (usable repo id sel now = []) then failing repo id sel now else usable repo id sel now.

(** The pool: the persisted order first, newcomers by latency, cut at the cap. *)
Definition rankedPool : list Z :=
  take (Z.to_nat (poolCap sel))
    (persistedPart poolMembers (pool sel) ++
     stable_sort (rankLt repo sel now' ∅) (newcomers poolMembers (pool sel))).

(** The error of a selector without a live group. *)
Definition groupError (selector : autoSelector) : qstring :=
  if bool_decide (gids selector = []) then u "Auto selector tracks no group"
  else u "Auto selector points at a group that no longer exists".

Lemma groupError_some selector : groupError selector <> [].
Proof. unfold groupError. by case_bool_decide. Qed.

Lemma liveGroups_gids selector : gids selector = [] -> liveGroups repo selector = [].
Proof. unfold liveGroups. by intros ->. Qed.

Lemma poolMembers_NoDup : NoDup poolMembers.
Proof. unfold poolMembers. case_bool_decide; [apply failing_NoDup|apply usable_NoDup]. Qed.

Lemma sel_wf : wfSelector sel.
Proof. apply Normalize_wf. Qed.

Lemma cap_positive : 1 <= poolCap sel /\ 1 <= buildLimit sel <= poolCap sel.
Proof. destruct sel_wf as (_ & _ & ? & ? & ? & _). lia. Qed.

Lemma orderMembers_length : length (orderMembers repo poolMembers (pool sel) sel now') = length poolMembers.
Proof. by rewrite orderMembers_perm by apply poolMembers_NoDup. Qed.

Lemma mid_capped ordered :
  (if poolCap sel <? Z.of_nat (length ordered) then mid0 ordered (poolCap sel) else ordered) =
  take (Z.to_nat (poolCap sel)) ordered.
Proof.
  pose proof cap_positive. destruct (Z.ltb_spec (poolCap sel) (Z.of_nat (length ordered))).
  - unfold mid0. by destruct (Z.ltb_spec (poolCap sel) 0); [lia|].
  - rewrite take_ge; [done|lia].
Qed.

Lemma mid_build (ordered : list Z) :
  mid0 ordered (Z.min (Z.of_nat (length ordered)) (buildLimit sel)) = take (Z.to_nat (buildLimit sel)) ordered.
Proof.
  pose proof cap_positive. unfold mid0.
  destruct (Z.ltb_spec (Z.min (Z.of_nat (length ordered)) (buildLimit sel)) 0); [lia|].
  destruct (Z.le_gt_cases (Z.of_nat (length ordered)) (buildLimit sel)).
  - rewrite Z.min_l by done. rewrite !take_ge by lia. done.
  - by rewrite Z.min_r by lia.
Qed.

(** The plan, on each of its branches. *)
Lemma plan_cases :
  let r := PlanAutoSelector repo ent now now' in
  let plan := r.1 in
  r.2 = Some (MkSelectorProfile id (Some sel)) /\
  poolCapUsed plan = poolCap sel /\ buildLimitUsed plan = buildLimit sel /\
  ((liveGroups repo sel = [] /\ error plan = groupError sel /\ planPool plan = [] /\ planBuild plan = []) \/
   (liveGroups repo sel <> [] /\ poolMembers = [] /\ error plan = u "Auto selector has no usable members" /\
    planPool plan = [] /\ planBuild plan = []) \/
   (liveGroups repo sel <> [] /\ poolMembers <> [] /\ error plan = [] /\
    planPool plan = rankedPool /\ planBuild plan = take (Z.to_nat (buildLimit sel)) rankedPool /\
    eligible plan = Z.of_nat (length poolMembers) /\
    truncated plan = (poolCap sel <? Z.of_nat (length poolMembers)) /\
    needsRanking plan = (buildLimit sel <? Z.of_nat (length rankedPool)) &&
      (0 <? Z.of_nat (length (filter (fun i => effectiveLatencyOf repo i sel now' = 0)
                                (take (Z.to_nat (buildLimit sel)) rankedPool)))))) /\
  (liveGroups repo sel <> [] ->
    membersInGroups plan = Z.of_nat (length (candidates repo id sel)) /\
    missingGroups plan = Z.of_nat (length (gids sel) - length (liveGroups repo sel)) /\
    eligible plan = Z.of_nat (length poolMembers) /\
    skippedCount plan = Z.of_nat (length (candidates repo id sel)) - Z.of_nat (length poolMembers) /\
    rankedByTest plan = Z.of_nat (length (filter (fun i => works repo sel now i = true) (usable repo id sel now))) /\
    keptUnavailable plan = (if bool_decide (usable repo id sel now = []) then Z.of_nat (length poolMembers) else 0) /\
    (forall k, k <> None_ -> k <> Unavailable ->
       countSkip k (skipped plan) = Z.of_nat (length (idsWith repo sel now k (candidates repo id sel))))).
Proof.
  cbv zeta. unfold PlanAutoSelector. cbn [selectorOf entId].
  match goal with |- context [eligibleMembers _ _ _ _ ?p] => set (start := p) end.
  destruct (bool_decide_reflect (liveGroups repo sel = [])) as [Hl|Hl].
  { assert (E : (eligibleMembers repo id sel now start).1 = [] /\
      error (eligibleMembers repo id sel now start).2 = groupError sel /\
      poolCapUsed (eligibleMembers repo id sel now start).2 = poolCap sel /\
      buildLimitUsed (eligibleMembers repo id sel now start).2 = buildLimit sel /\
      planPool (eligibleMembers repo id sel now start).2 = [] /\
      planBuild (eligibleMembers repo id sel now start).2 = []).
    { unfold eligibleMembers, groupError. case_bool_decide; [done|]. by rewrite bool_decide_true by done. }
    destruct E as (E1 & E2 & E3 & E4 & E5 & E6).
    destruct (eligibleMembers repo id sel now start) as [ms plan]. simpl in *.
    rewrite bool_decide_false by (rewrite E2; apply groupError_some). simpl.
    split_and!; try done. left. by rewrite E2. }
  pose proof (eligibleMembers_live repo id sel now start Hl) as H.
  destruct (eligibleMembers repo id sel now start) as [ms plan].
  destruct H as (Hms & H1 & H2 & H3 & H4 & H5 & H6 & H7 & H8 & H9).
  fold poolMembers in Hms. subst ms. rewrite H7. change (error start) with (@nil Z). simpl bool_decide. simpl negb.
  cbv iota.
  assert (Hk : (if bool_decide (usable repo id sel now = []) && negb (bool_decide (failing repo id sel now = []))
                then Z.of_nat (length (failing repo id sel now)) else keptUnavailable start) =
               (if bool_decide (usable repo id sel now = []) then Z.of_nat (length poolMembers) else 0)).
  { unfold poolMembers. destruct (bool_decide (usable repo id sel now = [])); [|done]. simpl.
    case_bool_decide as E; [by rewrite E|done]. }
  rewrite Hk in H5.
  destruct (bool_decide_reflect (poolMembers = [])) as [Hp|Hp].
  - split_and!; try done; [right; left; done|]. intros _. rewrite skippedCount_total. simpl.
    split_and!; try done; try lia. simpl in H3. intros k Hk1 Hk2. by apply H6.
  - rewrite mid_capped, mid_build, orderMembers_eq. fold rankedPool.
    rewrite <- orderMembers_eq, orderMembers_length.
    split_and!; try done; [right; right; done|]. intros _. rewrite skippedCount_total. simpl.
    split_and!; try done; try lia. simpl in H3. intros k Hk1 Hk2. by apply H6.
Qed.

Lemma rankedPool_prefix :
  rankedPool = take (Z.to_nat (poolCap sel)) (orderMembers repo poolMembers (pool sel) sel now').
Proof. by rewrite orderMembers_eq. Qed.

Lemma rankedPool_NoDup : NoDup rankedPool.
Proof.
  rewrite rankedPool_prefix. eapply sublist_NoDup; [|apply sublist_take]. rewrite orderMembers_perm by apply poolMembers_NoDup. apply poolMembers_NoDup.
Qed.

Lemma rankedPool_length : Z.of_nat (length rankedPool) = Z.min (Z.of_nat (length poolMembers)) (poolCap sel).
Proof.
  pose proof cap_positive. rewrite rankedPool_prefix, length_take, orderMembers_length. lia.
Qed.

Lemma rankedPool_sub : rankedPool ⊆ poolMembers.
Proof.
  intros x Hx. rewrite rankedPool_prefix in Hx.
  rewrite <- (orderMembers_perm repo poolMembers (pool sel) sel now') by apply poolMembers_NoDup.
  by apply (subseteq_take (Z.to_nat (poolCap sel))).
Qed.
End Plan.

(** ** A small repository for the witnesses *)

#[export] Instance plainSelectorText : SelectorText := {|
  regexIsValid _ := true;
  regexHasMatch pat s := contains s pat;
  toUpper := map (fun c => if (97 <=? c) && (c <=? 122) then c - 32 else c);
  jsonObjectIsEmpty s := bool_decide (s = u "{}");
|}.

Definition sampleProfile (t : string) (lat : Z) : Profile :=
  MkProfile (u t) lat 1000 (u "de") (Some (Outbound (u "p") false false false None)).

Definition sampleRepo : Repo :=
  MkRepo (list_to_map [(1, sampleProfile "vless" 90); (2, sampleProfile "vless" (-1));
                       (3, sampleProfile "vmess" 0); (4, sampleProfile "trojan" 40);
                       (5, sampleProfile "tailscale" 10)])
    (list_to_map [(0, MkGroup (-1) (-1) [1; 2; 3]); (7, MkGroup (-1) (-1) [3; 4; 5; 9])]).

Definition sampleSelector : autoSelector :=
  setPool (Normalize {|
    name := []; gids := [0; 7; 8]; nameFilter := []; countryFilter := []; excludeUnavailable := true;
    poolCap := 1000; buildLimit := 2; resultValidityMins := 1440; testURL := []; connectivityURL := [];
    intervalSec := 300; benchIntervalSec := 600; watchIntervalSec := 15; activeSize := 8; sampling := 10;
    toleranceMs := 300; maxRTTms := 0; expected := 3; dialRetries := 2; interruptOnSwitch := true;
    balance := false; balanceMode := u "rotate"; balanceIntervalSec := 30; pool := []; poolRankedAt := 0;
    pinnedID := -1; lastBuilt := [1; 2]; lastBuiltAt := 0; history := [] |}) [3; 2] 0.

Definition sampleEnt : option SelectorProfile := Some (MkSelectorProfile 100 (Some sampleSelector)).

(** ** Properties *)

Section Properties.
Context `{Q : QtText} `{T : SelectorText}.

(** C32: a plan without error takes its pool from the eligible members:
    the ones the persisted pool ranks, in its order, then the newcomers by
    latency, cut at [poolCap]; no member twice.  The build is the nonempty
    prefix of [buildLimit] members, [truncated] says that members were cut, and
    [needsRanking] that the build had to leave members out while holding one
    without a fresh result. *)
Theorem PlanAutoSelector_pool repo id s now now' :
  let sel := Normalize s in
  let '(plan, _) := PlanAutoSelector repo (Some (MkSelectorProfile id (Some s))) now now' in
  error plan = [] ->
  let ms := poolMembers repo id s now in
  planPool plan = take (Z.to_nat (poolCap sel))
    (persistedPart ms (pool sel) ++ stable_sort (rankLt repo sel now' ∅) (newcomers ms (pool sel))) /\
  NoDup (planPool plan) /\ planPool plan ⊆ ms /\
  Z.of_nat (length (planPool plan)) = Z.min (Z.of_nat (length ms)) (poolCap sel) /\
  planBuild plan = take (Z.to_nat (buildLimit sel)) (planPool plan) /\
  1 <= Z.of_nat (length (planBuild plan)) <= buildLimit sel /\
  (truncated plan = true <-> poolCap sel < Z.of_nat (length ms)) /\
  (needsRanking plan = true <->
     buildLimit sel < Z.of_nat (length (planPool plan)) /\
     exists i, i ∈ planBuild plan /\ effectiveLatencyOf repo i sel now' = 0).
Proof.
  cbv zeta. pose proof (plan_cases repo id s now now') as H. cbv zeta in H.
  destruct (PlanAutoSelector _ _ _ _) as [plan ent']. cbn [fst snd] in H. destruct H as (_ & _ & _ & H & _).
  intros He. destruct H as [(_ & H & _)|[(_ & _ & H & _)|(Hl & Hp & _ & Epool & Ebuild & Eelig & Etr & Enr)]];
    [by rewrite He in H; destruct (groupError_some (Normalize s))|by rewrite He in H|].
  pose proof (cap_positive s) as Hcap. pose proof (rankedPool_length repo id s now now') as Hlen.
  rewrite Ebuild, Epool, Etr, Enr, Z.ltb_lt, andb_true_iff, !Z.ltb_lt.
  assert (Hpos : (length (poolMembers repo id s now) <> 0)%nat) by (by intros E0%length_zero_iff_nil).
  split_and!; try done; [apply rankedPool_NoDup|apply rankedPool_sub|rewrite length_take; lia|
                         rewrite length_take; lia|].
  set (b := take _ (rankedPool _ _ _ _ _)). apply and_iff_compat_l. split.
  - intros Hf. destruct (filter _ b) as [|i r] eqn:E; [simpl in Hf; lia|].
    exists i. assert (Hin : i ∈ filter (fun i => effectiveLatencyOf repo i (Normalize s) now' = 0) b)
      by (rewrite E; by left). apply list_elem_of_filter in Hin. tauto.
  - intros (i & Hi & Ei).
    assert (Hin : i ∈ filter (fun i => effectiveLatencyOf repo i (Normalize s) now' = 0) b)
      by by apply list_elem_of_filter.
    destruct (filter _ b); [by apply elem_of_nil in Hin|simpl; lia].
Qed.

(** When a tracked group still exists the plan accounts for every
    profile of the live groups, the selector excluded, exactly once: it is
    eligible or counted under the reason it was skipped for; unavailable
    members are kept only when no other member is usable. *)
Theorem PlanAutoSelector_accounting repo id s now now' :
  let sel := Normalize s in
  let '(plan, _) := PlanAutoSelector repo (Some (MkSelectorProfile id (Some s))) now now' in
  liveGroups repo sel <> [] ->
  let cs := candidates repo id sel in
  (NoDup (map (fun v => v.1.1) cs) /\
   forall i, i ∈ map (fun v => v.1.1) cs <-> i <> id /\ exists g, g ∈ liveGroups repo sel /\ i ∈ Profiles g) /\
  membersInGroups plan = Z.of_nat (length cs) /\
  membersInGroups plan = eligible plan + skippedCount plan /\
  (forall k, k <> None_ -> k <> Unavailable ->
     countSkip k (skipped plan) = Z.of_nat (length (idsWith repo sel now k cs))) /\
  (0 < keptUnavailable plan -> usable repo id sel now = [] /\ eligible plan = keptUnavailable plan) /\
  (usable repo id sel now <> [] -> eligible plan = Z.of_nat (length (usable repo id sel now))).
Proof.
  cbv zeta. pose proof (plan_cases repo id s now now') as H. cbv zeta in H.
  destruct (PlanAutoSelector _ _ _ _) as [plan ent']. cbn [fst snd] in H. destruct H as (_ & _ & _ & _ & H).
  intros Hl. destruct (H Hl) as (H1 & H2 & H3 & H4 & H5 & H6 & H7). clear H.
  destruct (firstVisits_ids id ∅ (visits repo (liveGroups repo (Normalize s)))) as [Hn Hin].
  split_and!; try done; try lia.
  - intros i. unfold candidates. rewrite Hin.
    assert (Hv : i ∈ map (fun v : visit => v.1.1) (visits repo (liveGroups repo (Normalize s))) <->
                 exists g, g ∈ liveGroups repo (Normalize s) /\ i ∈ Profiles g).
    { unfold visits. rewrite concat_map, map_map. rewrite list_elem_of_In, in_concat. split.
      - intros (l & Hl' & Hi). apply in_map_iff in Hl' as (g & <- & Hg). rewrite map_map, map_id in Hi.
        exists g. by rewrite !list_elem_of_In.
      - intros (g & Hg & Hi). exists (Profiles g). rewrite !list_elem_of_In in *. split; [|done].
        apply in_map_iff. exists g. by rewrite map_map, map_id. }
    rewrite Hv. set_solver.
  - rewrite H6. case_bool_decide as E; [|lia]. intros _. by rewrite H3.
  - intros Hu. rewrite H3. unfold poolMembers. by rewrite bool_decide_false.
Qed.

(** C39: a plan fails, with an empty pool and build, exactly in five cases, and
    its error is the text of the one that holds: no profile, a profile that is no
    auto selector, a selector that tracks no group, one whose groups are all gone, and
    one without a member that is usable or kept.  The profile is left as it was, its
    selector normalized. *)
Theorem PlanAutoSelector_errors repo ent now now' :
  let '(plan, ent') := PlanAutoSelector repo ent now now' in
  (error plan <> [] -> planPool plan = [] /\ planBuild plan = []) /\
  match ent with
  | None => error plan = u "Null profile passed to PlanAutoSelector" /\ ent' = None
  | Some (MkSelectorProfile id None) =>
      error plan = u "Profile is not an auto selector, data is corrupted" /\ ent' = ent
  | Some (MkSelectorProfile id (Some s)) =>
      let sel := Normalize s in
      let live := liveGroups repo sel in
      let ms := poolMembers repo id s now in
      ent' = Some (MkSelectorProfile id (Some sel)) /\
      (error plan = u "Auto selector tracks no group" <-> gids sel = []) /\
      (error plan = u "Auto selector points at a group that no longer exists" <-> gids sel <> [] /\ live = []) /\
      (error plan = u "Auto selector has no usable members" <-> live <> [] /\ ms = []) /\
      (error plan = [] <-> live <> [] /\ ms <> [])
  end.
Proof.
  destruct ent as [[id [s|]]|]; [|by cbn|by cbn]. cbv zeta.
  pose proof (plan_cases repo id s now now') as H. cbv zeta in H.
  destruct (PlanAutoSelector _ _ _ _) as [plan ent']. cbn [fst snd] in H. destruct H as (-> & _ & _ & H & _).
  pose proof (liveGroups_gids repo (Normalize s)) as Hg.
  destruct H as [(H1 & H2 & H3 & H4)|[(H1 & H2 & H3 & H4 & H5)|(H1 & H2 & H3 & _)]].
  - rewrite H2. unfold groupError. split; [by split|]. split; [done|]. case_bool_decide; split_and!; split; naive_solver.
  - rewrite H3. split; [by split|]. split; [done|]. split_and!; split; naive_solver.
  - rewrite H3. split; [done|]. split; [done|]. split_and!; split; naive_solver.
Qed.
End Properties.

Example PlanAutoSelector_pool_witness :
  let '(plan, _) := PlanAutoSelector (Q := asciiText) sampleRepo sampleEnt 1500 1500 in
  planPool plan = [3; 4; 1] /\ planBuild plan = [3; 4] /\ needsRanking plan = true /\ NoDup (planPool plan).
Proof.
  assert (E : error (PlanAutoSelector (Q := asciiText) sampleRepo sampleEnt 1500 1500).1 = [])
    by (vm_compute; reflexivity).
  pose proof (PlanAutoSelector_pool (Q := asciiText) sampleRepo 100 sampleSelector 1500 1500) as H.
  cbv zeta in H. fold sampleEnt in H.
  assert (E1 : planPool (PlanAutoSelector (Q := asciiText) sampleRepo sampleEnt 1500 1500).1 = [3; 4; 1])
    by (vm_compute; reflexivity).
  assert (E2 : planBuild (PlanAutoSelector (Q := asciiText) sampleRepo sampleEnt 1500 1500).1 = [3; 4])
    by (vm_compute; reflexivity).
  assert (E3 : needsRanking (PlanAutoSelector (Q := asciiText) sampleRepo sampleEnt 1500 1500).1 = true)
    by (vm_compute; reflexivity).
  destruct (PlanAutoSelector sampleRepo sampleEnt 1500 1500) as [plan ent'].
  simpl in *. destruct (H E) as (_ & Hn & _). split; [exact E1|]. split; [exact E2|]. split; [exact E3|exact Hn].
Defined.

(** The sample selector on an empty repository: its groups are gone. *)
Example PlanAutoSelector_errors_witness :
  let '(plan, _) := PlanAutoSelector (Q := asciiText) (MkRepo ∅ ∅) sampleEnt 1500 1500 in
  error plan = u "Auto selector points at a group that no longer exists" /\ planPool plan = [].
Proof.
  pose proof (PlanAutoSelector_errors (Q := asciiText) (MkRepo ∅ ∅) sampleEnt 1500 1500) as H.
  assert (E : error (PlanAutoSelector (Q := asciiText) (MkRepo ∅ ∅) sampleEnt 1500 1500).1 =
    u "Auto selector points at a group that no longer exists") by (vm_compute; reflexivity).
  destruct (PlanAutoSelector (MkRepo ∅ ∅) sampleEnt 1500 1500) as [plan ent'].
  cbn [fst] in E. split; [exact E|]. apply H. by rewrite E.
Defined.

Example PlanAutoSelector_accounting_witness :
  let '(plan, _) := PlanAutoSelector (Q := asciiText) sampleRepo sampleEnt 1500 1500 in
  membersInGroups plan = 6 /\ membersInGroups plan = eligible plan + skippedCount plan.
Proof.
  pose proof (PlanAutoSelector_accounting (Q := asciiText) sampleRepo 100 sampleSelector 1500 1500) as H.
  cbv zeta in H. fold sampleEnt in H.
  assert (E : membersInGroups (PlanAutoSelector (Q := asciiText) sampleRepo sampleEnt 1500 1500).1 = 6)
    by (vm_compute; reflexivity).
  destruct (PlanAutoSelector sampleRepo sampleEnt 1500 1500) as [plan ent'].
  split; [exact E|].
  assert (Hl : liveGroups sampleRepo (Normalize sampleSelector) <> []) by (vm_compute; discriminate).
  destruct (H Hl) as (_ & _ & H1 & _). exact H1.
Defined.

(** ** After a ranking sweep *)

Section Sweep.
Context `{Q : QtText} `{T : SelectorText}.

Lemma effective_Normalize member s now : effectiveLatency member (Normalize s) now = effectiveLatency member s now.
Proof.
  destruct member as [m|]; [|done]. unfold effectiveLatency, hasFreshResult. cbn [Normalize resultValidityMins].
  rewrite atLeast_max. destruct (latency m =? 0); [done|].
  destruct (Z.leb_spec (resultValidityMins s) 0), (Z.leb_spec (Z.max 0 (resultValidityMins s)) 0);
    first [done|lia|by rewrite Z.max_r by lia].
Qed.

Lemma effectiveOf_Normalize repo i s now :
  effectiveLatencyOf repo i (Normalize s) now = effectiveLatencyOf repo i s now.
Proof. apply effective_Normalize. Qed.

(** The members the sweep ranks: those of the plan. *)
Lemma eligible_members repo id s now plan :
  (eligibleMembers repo id (Normalize s) now plan).1 = poolMembers repo id s now \/
  (liveGroups repo (Normalize s) = [] /\ (eligibleMembers repo id (Normalize s) now plan).1 = []).
Proof.
  destruct (bool_decide_reflect (liveGroups repo (Normalize s) = [])) as [Hl|Hl].
  - right. split; [done|]. unfold eligibleMembers. case_bool_decide; [done|]. by rewrite bool_decide_true.
  - left. pose proof (eligibleMembers_live repo id (Normalize s) now plan Hl) as H.
    destruct (eligibleMembers _ _ _ _ _) as [ms p]. by destruct H as [-> _].
Qed.

Lemma poolMembers_setPool repo id s now p t : poolMembers repo id (setPool s p t) now = poolMembers repo id s now.
Proof. reflexivity. Qed.

Lemma firsts_filter_all (p ms : list Z) : NoDup p -> p ⊆ ms -> persistedPart ms p = p.
Proof.
  intros Hn Hs. unfold persistedPart. rewrite filter_all by (intros x Hx; by apply Hs).
  apply firsts_id; [done|set_solver].
Qed.

(** After a sweep has re-ranked the pool, a plan made from the
    saved profile at the same eligibility builds exactly the new ranking: its
    pool is the stable latency order of the eligible members cut at the cap,
    and its build is the front of it. *)
Theorem Rerank_then_plan repo id s untrusted now now1 now2 now' :
  wfSelector s ->
  let '(ranked, ent) := RerankAutoSelectorPool repo (Some (MkSelectorProfile id (Some s))) untrusted now now1 now2 in
  let '(plan, _) := PlanAutoSelector repo ent now now' in
  error plan = [] ->
  ranked = take (Z.to_nat (poolCap s))
    (stable_sort (rankLt repo s now1 (list_to_set untrusted)) (poolMembers repo id s now)) /\
  planPool plan = ranked /\ planBuild plan = take (Z.to_nat (buildLimit s)) ranked.
Proof.
  intros Hwf. pose proof (Normalize_fixed s Hwf) as Hs. unfold RerankAutoSelectorPool. cbn [withSelector selectorOf entId].
  set (sorted := sortByLatency repo _ s now1 _).
  set (ranked := if poolCap s <? Z.of_nat (length sorted) then mid0 sorted (poolCap s) else sorted).
  pose proof (plan_cases repo id (setPool s ranked now2) now now') as H. cbv zeta in H.
  destruct (PlanAutoSelector _ _ _ _) as [plan ent']. cbn [fst snd] in H. destruct H as (_ & _ & _ & H & _).
  intros He. destruct H as [(_ & H & _)|[(_ & _ & H & _)|(Hl & Hp & _ & Epool & Ebuild & _)]];
    [rewrite He in H; by destruct (groupError_some _ (eq_sym H))|by rewrite He in H|]. rewrite poolMembers_setPool in Hp.
  assert (Hwf' : wfSelector (setPool s ranked now2)) by exact Hwf.
  pose proof (Normalize_fixed _ Hwf') as Hs'. rewrite Hs' in Hl, Ebuild.
  assert (Em : (eligibleMembers repo id s now emptyPlan).1 = poolMembers repo id s now).
  { destruct (eligible_members repo id s now emptyPlan) as [E|[E _]]; rewrite Hs in E; [done|].
    exfalso. by apply Hl. }
  assert (Ecap : ranked = take (Z.to_nat (poolCap s)) sorted).
  { pose proof (mid_capped s sorted) as E. by rewrite Hs in E. }
  assert (Esort : sorted = stable_sort (rankLt repo s now1 (list_to_set untrusted)) (poolMembers repo id s now)).
  { unfold sorted. by rewrite sortByLatency_eq, Em. }
  set (ms := poolMembers repo id s now) in *. assert (Hn : NoDup ms) by apply poolMembers_NoDup.
  assert (Hsub : ranked ⊆ ms).
  { intros x Hx. rewrite Ecap in Hx. apply subseteq_take in Hx. by rewrite Esort, sort_perm in Hx. }
  assert (Hnr : NoDup ranked).
  { rewrite Ecap. eapply sublist_NoDup; [|apply sublist_take]. rewrite Esort. by apply sort_NoDup. }
  assert (Epp : planPool plan = ranked).
  { rewrite Epool. unfold rankedPool. rewrite poolMembers_setPool, Hs'. fold ms.
    cbn [setPool pool poolCap]. rewrite (firsts_filter_all ranked ms) by done.
    destruct (Z.le_gt_cases (Z.of_nat (length ms)) (poolCap s)) as [Hc|Hc].
    - assert (Hall : ranked ≡ₚ ms).
      { rewrite Ecap, take_ge, Esort; [apply sort_perm|]. rewrite Esort, sort_length. lia. }
      replace (newcomers ms ranked) with (@nil Z).
      + simpl. rewrite app_nil_r, take_ge; [done|]. rewrite Hall. lia.
      + symmetry. apply filter_none. intros x Hx. rewrite Hall. tauto.
    - assert (Hlen : length ranked = Z.to_nat (poolCap s)).
      { rewrite Ecap, length_take, Esort, sort_length. lia. }
      rewrite <- Hlen at 1. apply take_app_length. }
  split_and!; [by rewrite Ecap, Esort|done|]. by rewrite Ebuild, <- Epool, Epp.
Qed.

(** [AutoSelectorBuildChanged] holds exactly when the plan has no
    error and its build drops a member of [lastBuilt] or adds one with a fresh
    successful result. *)
Theorem AutoSelectorBuildChanged_iff repo id s now now' now'' :
  let ent := Some (MkSelectorProfile id (Some s)) in
  let plan := (PlanAutoSelector repo ent now now').1 in
  AutoSelectorBuildChanged repo ent now now' now'' = true <->
    error plan = [] /\
    ((exists i, i ∈ lastBuilt s /\ (i ∉ planBuild plan)) \/
     (exists i, i ∈ planBuild plan /\ (i ∉ lastBuilt s) /\ 0 < effectiveLatencyOf repo i s now'')).
Proof.
  cbv zeta. unfold AutoSelectorBuildChanged. cbn [withSelector selectorOf].
  destruct (PlanAutoSelector _ _ _ _) as [plan ent']. cbn [fst].
  case_bool_decide as He; cbn [negb]; [|split; [done|by intros [? _]]].
  rewrite orb_true_iff, !existsb_exists. split.
  - intros H. split; [done|]. destruct H as [(i & Hi & H)|(i & Hi & H)].
    + left. exists i. apply list_elem_of_In, elem_of_elements, elem_of_list_to_set in Hi.
      apply negb_true_iff, bool_decide_eq_false in H. rewrite elem_of_list_to_set in H. done.
    + right. exists i. apply list_elem_of_In, elem_of_elements, elem_of_list_to_set in Hi.
      apply andb_true_iff in H as [H1 H2]. apply negb_true_iff, bool_decide_eq_false in H1.
      rewrite elem_of_list_to_set in H1. apply Z.ltb_lt in H2.
      unfold effectiveLatencyOf in *. by rewrite effective_Normalize in H2.
  - intros [_ [(i & H1 & H2)|(i & H1 & H2 & H3)]].
    + left. exists i. rewrite <- list_elem_of_In, elem_of_elements, elem_of_list_to_set.
      split; [done|]. apply negb_true_iff, bool_decide_eq_false. by rewrite elem_of_list_to_set.
    + right. exists i. rewrite <- list_elem_of_In, elem_of_elements, elem_of_list_to_set.
      split; [done|]. apply andb_true_iff. split.
      * apply negb_true_iff, bool_decide_eq_false. by rewrite elem_of_list_to_set.
      * apply Z.ltb_lt. unfold effectiveLatencyOf in *. by rewrite effective_Normalize.
Qed.

(** The sweep measures, in order, the candidates that are stale or
    have no fresh result, and counts as working those of the others that
    [AutoSelectorMemberWorks] accepts; it may start with [activeSize] working
    members, never more than a build holds. *)
Theorem AutoSelectorUnmeasured_spec repo id s stale now now' :
  let ent := Some (MkSelectorProfile id (Some s)) in
  let candidates := AutoSelectorRankingCandidates repo ent now in
  let '(needed, working) := AutoSelectorUnmeasuredCandidates repo ent stale now now' in
  needed = filter (fun i => i ∈ stale \/ effectiveLatencyOf repo i s now' = 0) candidates /\
  working = Z.of_nat (length (filter (fun i => (i ∉ stale) /\
    AutoSelectorMemberWorks ent (profiles repo !! i) now' = true) candidates)) /\
  AutoSelectorStartQuorum ent = activeSize (Normalize s) /\
  1 <= AutoSelectorStartQuorum ent <= buildLimit (Normalize s).
Proof.
  cbv zeta. unfold AutoSelectorUnmeasuredCandidates. cbn [withSelector selectorOf].
  set (cs := AutoSelectorRankingCandidates _ _ _).
  assert (H : forall needed working,
    fold_left (fun '(needed, working) i =>
      if bool_decide (i ∈ stale) then (needed ++ [i], working)
      else if effectiveLatencyOf repo i (Normalize s) now' =? 0 then (needed ++ [i], working)
      else if 0 <? effectiveLatencyOf repo i (Normalize s) now' then (needed, working + 1)
      else (needed, working)) cs (needed, working) =
    (needed ++ filter (fun i => i ∈ stale \/ effectiveLatencyOf repo i s now' = 0) cs,
     working + Z.of_nat (length (filter (fun i => (i ∉ stale) /\
       AutoSelectorMemberWorks (Some (MkSelectorProfile id (Some s))) (profiles repo !! i) now' = true) cs)))).
  { induction cs as [|i l IH]; intros needed working; simpl; [f_equal; [by rewrite app_nil_r|lia]|].
    rewrite !filter_cons, !effectiveOf_Normalize. set (e := effectiveLatencyOf repo i s now') in *.
    destruct (bool_decide_reflect (i ∈ stale)) as [Hi|Hi].
    - rewrite IH, decide_True, decide_False by (by left || tauto). by rewrite <- app_assoc.
    - destruct (Z.eqb_spec e 0) as [E|E].
      + rewrite IH, decide_True by by right. rewrite decide_False by (intros [_ ?%Z.ltb_lt]; unfold e, effectiveLatencyOf in *; lia).
        by rewrite <- app_assoc.
      + rewrite (decide_False (P := i ∈ stale \/ e = 0)) by (intros [?|?]; done).
        destruct (Z.ltb_spec 0 e) as [Hp|Hp]; rewrite IH.
        * rewrite decide_True by (split; [done|by apply Z.ltb_lt]). simpl. f_equal. lia.
        * rewrite decide_False by (intros [_ ?%Z.ltb_lt]; unfold e in *; unfold effectiveLatencyOf in *; lia). done. }
  rewrite H. simpl. split_and!; try done.
  - pose proof (sel_wf s) as (_ & _ & _ & _ & _ & _ & _ & _ & _ & He & Ha & _). simpl in He, Ha. lia.
  - pose proof (sel_wf s) as (_ & _ & _ & _ & _ & _ & _ & _ & _ & He & Ha & _). simpl in He, Ha. lia.
  - pose proof (sel_wf s) as (_ & _ & _ & _ & _ & _ & _ & _ & _ & He & Ha & _). simpl in He, Ha. lia.
Qed.
End Sweep.

Example Rerank_then_plan_witness :
  let '(ranked, ent) := RerankAutoSelectorPool (Q := asciiText) sampleRepo sampleEnt [4] 1500 1500 1500 in
  let '(plan, _) := PlanAutoSelector (Q := asciiText) sampleRepo ent 1500 1600 in
  ranked = [1; 3; 4] /\ planPool plan = ranked.
Proof.
  pose proof (Rerank_then_plan (Q := asciiText) sampleRepo 100 sampleSelector [4] 1500 1500 1500 1600) as H.
  fold sampleEnt in H.
  assert (Hwf : wfSelector sampleSelector) by (apply (Normalize_wf sampleSelector)).
  specialize (H Hwf).
  assert (E1 : (RerankAutoSelectorPool (Q := asciiText) sampleRepo sampleEnt [4] 1500 1500 1500).1 = [1; 3; 4])
    by (vm_compute; reflexivity).
  assert (E2 : error (PlanAutoSelector (Q := asciiText) sampleRepo
    (RerankAutoSelectorPool (Q := asciiText) sampleRepo sampleEnt [4] 1500 1500 1500).2 1500 1600).1 = [])
    by (vm_compute; reflexivity).
  destruct (RerankAutoSelectorPool sampleRepo sampleEnt [4] 1500 1500 1500) as [ranked ent].
  cbn [fst snd] in E1, E2.
  destruct (PlanAutoSelector sampleRepo ent 1500 1600) as [plan ent']. split; [exact E1|].
  destruct (H E2) as (_ & H2 & _). exact H2.
Defined.
