(* ===== verification/ProfileMetrics.v ===== *)
(** * ProfileMetrics: schedules of a ranked test

    src/database/entities/ProfileMetrics.cpp from [PerformanceStatusRank] on:
    the order of result rows, the three orders of a ranked sweep, and the two
    fall-short timeouts.  A measured value is a finite double, that is an exact
    rational; [CalculateSiteScore] and [ParseSpeedMbps] (double arithmetic) and
    the tooltip (translated text) are not modelled. *)

From Stdlib Require Import QArith.
From S2P Require Import Prelude StableSort.
#[global] Open Scope Z_scope.

Inductive PerformanceTestStatus := Untested | Success | Skipped | Error.

#[export] Instance PerformanceTestStatus_eq_dec : EqDecision PerformanceTestStatus.
Proof. solve_decision. Defined.

Record RankedScheduleRow := Row { rid : Z; connectTimeMs : Z; siteScore : Z }.

Definition PerformanceStatusRank (status : PerformanceTestStatus) : Z :=
  match status with
  | Success => 0
  | Untested => 1
  | Skipped => 2
  | Error => 3
  end.

Definition Qltb (x y : Q) : bool := negb (Qle_bool y x).

Definition PerformanceComesBefore (leftStatus : PerformanceTestStatus) (leftValue : Q)
    (rightStatus : PerformanceTestStatus) (rightValue : Q) (descending : bool) : bool :=
  let leftRank := PerformanceStatusRank leftStatus in
  let rightRank := PerformanceStatusRank rightStatus in
  if negb (leftRank =? rightRank) then leftRank <? rightRank
  else if negb (leftRank =? 0) || Qeq_bool leftValue rightValue then false
  else if descending then Qltb rightValue leftValue else Qltb leftValue rightValue.

Definition RankedScheduleIds (rows : list RankedScheduleRow) : list Z := map rid rows.

Definition bySavedScore (left right : RankedScheduleRow) : bool :=
  let leftKnown := 0 <? siteScore left in
  let rightKnown := 0 <? siteScore right in
  if negb (Bool.eqb leftKnown rightKnown) then leftKnown
  else if negb leftKnown then false
  else siteScore right <? siteScore left.

Definition OrderRankedBySavedSiteScore (rows : list RankedScheduleRow) : list Z :=
  if (length rows <? 2)%nat then RankedScheduleIds rows
  else if negb (existsb (fun row => 0 <? siteScore row) rows) then RankedScheduleIds rows
  else RankedScheduleIds (stable_sort bySavedScore rows).

Definition byConnection (left right : RankedScheduleRow) : bool :=
  let leftKnown := 0 <? connectTimeMs left in
  let rightKnown := 0 <? connectTimeMs right in
  if negb (Bool.eqb leftKnown rightKnown) then leftKnown
  else if negb leftKnown then false
  else connectTimeMs left <? connectTimeMs right.

Definition OrderRankedByConnectionTime (rows : list RankedScheduleRow) : list Z :=
  if (length rows <? 2)%nat then RankedScheduleIds rows
  else if negb (existsb (fun row => 0 <? connectTimeMs row) rows) then RankedScheduleIds rows
  else RankedScheduleIds (stable_sort byConnection rows).

Definition OrderRankedConnectionPretest (rows : list RankedScheduleRow) : list Z :=
  if (length rows <? 2)%nat then RankedScheduleIds rows
  else
    let known := filter (fun row => 0 < connectTimeMs row) rows in
    let unknown := map rid (filter (fun row => ~ 0 < connectTimeMs row) rows) in
    if bool_decide (known = []) then RankedScheduleIds rows
    else
      let known := stable_sort (fun left right => connectTimeMs left <? connectTimeMs right) known in
      if bool_decide (unknown = []) then map rid known
      else
        let bestKnownCount := Nat.max 1 (length known / 3) in
        map rid (take bestKnownCount known) ++ unknown ++ map rid (drop bestKnownCount known).

Definition kRankedFallShortConnectionMultiplier : Z := 4.
Definition kRankedFallShortDownloadMultiplier : Z := 3.

(** [std::min(timeout, std::max(1, best * multiplier))]. *)
Definition fallShortCap (timeout best multiplier : Z) : Z := Z.min timeout (Z.max 1 (best * multiplier)).

Definition RankedFallShortConnectionTimeoutMs (configuredTimeoutMs bestConnectionMs : Z) : Z :=
  let configured := Z.max 1 configuredTimeoutMs in
  if bestConnectionMs <=? 0 then configured
  else fallShortCap configured bestConnectionMs kRankedFallShortConnectionMultiplier.

Definition RankedFallShortDownloadTimeoutMs (configuredTimeoutMs bestDownloadElapsedMs bestConnectionMs : Z) : Z :=
  let timeout := Z.max 1 configuredTimeoutMs in
  let timeout :=
    if 0 <? bestDownloadElapsedMs
    then fallShortCap timeout bestDownloadElapsedMs kRankedFallShortDownloadMultiplier else timeout in
  if 0 <? bestConnectionMs
  then fallShortCap timeout bestConnectionMs kRankedFallShortConnectionMultiplier else timeout.

(** ** Facts *)

#[export] Instance bySavedScore_strictWeak : StrictWeak bySavedScore.
Proof.
  split; intros *; unfold bySavedScore;
    repeat match goal with |- context [?a <? ?b] => destruct (Z.ltb_spec a b) end; simpl; lia || (intros; auto; lia).
Qed.

#[export] Instance byConnection_strictWeak : StrictWeak byConnection.
Proof.
  split; intros *; unfold byConnection;
    repeat match goal with |- context [?a <? ?b] => destruct (Z.ltb_spec a b) end; simpl; lia || (intros; auto; lia).
Qed.

#[export] Instance connectTime_strictWeak :
  StrictWeak (fun left right => connectTimeMs left <? connectTimeMs right).
Proof. apply (strictWeak_key connectTimeMs), _. Qed.

Lemma Qltb_lt x y : Qltb x y = true <-> (x < y)%Q.
Proof.
  unfold Qltb. rewrite negb_true_iff, <- not_true_iff_false, Qle_bool_iff. split.
  - apply Qnot_le_lt.
  - apply Qlt_not_le.
Qed.

Lemma comesBefore_iff ls lv rs rv descending :
  PerformanceComesBefore ls lv rs rv descending = true <->
  PerformanceStatusRank ls < PerformanceStatusRank rs \/
  (ls = Success /\ rs = Success /\ (if descending then rv < lv else lv < rv)%Q).
Proof.
  unfold PerformanceComesBefore.
  assert (Hq : forall x y : Q, (if Qeq_bool x y then false else Qltb x y) = true <-> (x < y)%Q).
  { intros x y. rewrite <- Qltb_lt. destruct (Qeq_bool x y) eqn:E; [|done]. split; [done|].
    intros H. apply Qltb_lt in H. apply Qeq_bool_iff in E. rewrite E in H. by apply Qlt_irrefl in H. }
  destruct ls, rs; cbn [PerformanceStatusRank]; simpl; try (split; [intros; (left; lia) || done|intros [?|(? & ? & _)]; (lia || done)]).
  assert (Hd : (if Qeq_bool lv rv then false else if descending then Qltb rv lv else Qltb lv rv) = true <->
               (if descending then rv < lv else lv < rv)%Q).
  { destruct descending; [|apply Hq]. rewrite <- (Hq rv lv).
    replace (Qeq_bool rv lv) with (Qeq_bool lv rv); [done|]. apply eq_true_iff_eq. rewrite !Qeq_bool_iff.
    split; intros E; by symmetry. }
  rewrite Hd. split; [intros; by right|]. intros [?|(_ & _ & ?)]; [lia|done].
Qed.

(** An order whose pieces rearrange the rows rearranges their ids. *)
Lemma pretest_perm rows : OrderRankedConnectionPretest rows ≡ₚ RankedScheduleIds rows.
Proof.
  unfold OrderRankedConnectionPretest. destruct (length rows <? 2)%nat; [done|]. cbv zeta.
  case_bool_decide as Hk; [done|].
  pose proof (filter_app_complement (fun row => 0 < connectTimeMs row) rows) as Hp. cbv beta in Hp.
  assert (Hs := sort_perm (fun left right => connectTimeMs left <? connectTimeMs right)
                  (filter (fun row => 0 < connectTimeMs row) rows)).
  unfold RankedScheduleIds. case_bool_decide as Hu.
  - apply map_eq_nil in Hu. rewrite Hu, app_nil_r in Hp. by rewrite Hs, Hp.
  - rewrite (Permutation_app_comm (map rid _) (map rid (drop _ _))), app_assoc, <- map_app, take_drop.
    by rewrite Hs, <- map_app, Hp.
Qed.

(** ** Properties *)

(** The pretest order schedules every row once; when some rows but
    not all were measured last time, it takes the fastest third of the measured
    ones (at least one), then the unmeasured ones in their order, then the rest
    of the measured ones by time, equal times keeping their order. *)
Theorem OrderRankedConnectionPretest_spec rows :
  let known := filter (fun row => 0 < connectTimeMs row) rows in
  let unknown := filter (fun row => ~ 0 < connectTimeMs row) rows in
  OrderRankedConnectionPretest rows ≡ₚ RankedScheduleIds rows /\
  (known = [] -> OrderRankedConnectionPretest rows = RankedScheduleIds rows) /\
  (known <> [] -> exists sorted best rest,
     stableSortOf (fun left right => connectTimeMs left <? connectTimeMs right) known sorted /\
     sorted = best ++ rest /\
     OrderRankedConnectionPretest rows = map rid (best ++ unknown ++ rest) /\
     (unknown <> [] -> length best = Nat.max 1 (length known / 3))).
Proof.
  cbv zeta. split; [apply pretest_perm|]. unfold OrderRankedConnectionPretest. cbv zeta.
  set (known := filter _ rows). set (unknown := filter (fun row => ~ _) rows).
  set (sorted := stable_sort _ known). set (n := Nat.max 1 (length sorted / 3)).
  assert (Hlen : length sorted = length known) by apply sort_length. split.
  - intros ->. by destruct (length rows <? 2)%nat.
  - intros Hk. exists sorted.
    assert (Hn : (n <= length sorted)%nat).
    { unfold n. apply Nat.max_lub; [rewrite Hlen; destruct known; [done|simpl; lia]|].
      apply Nat.Div0.div_le_upper_bound. lia. }
    destruct (Nat.ltb_spec (length rows) 2) as [H2|H2].
    + destruct rows as [|r [|]]; [done| |simpl in H2; lia]. exists sorted, [].
      assert (Ek : known = [r] /\ unknown = []).
      { subst known unknown. simpl in *. rewrite !filter_cons in *. destruct (decide (0 < connectTimeMs r)).
        - rewrite decide_False by tauto. done.
        - done. }
      destruct Ek as [Ek Eu]. split; [apply stable_sort_spec; apply _|].
      rewrite app_nil_r. split; [done|]. rewrite Eu. split; [|done]. unfold sorted. by rewrite Ek.
    + rewrite bool_decide_false by done. case_bool_decide as Hu.
      * apply map_eq_nil in Hu. exists sorted, []. rewrite Hu, !app_nil_r.
        split; [apply stable_sort_spec; apply _|]. done.
      * exists (take n sorted), (drop n sorted). rewrite take_drop, !map_app.
        split; [apply stable_sort_spec; apply _|]. split_and!; [done|done|].
        intros _. rewrite length_take, Nat.min_l by done. unfold n. by rewrite Hlen.
Qed.

(** The fall-short timeouts are positive, never above the configured
    one, and are exactly the smallest of the configured timeout and the caps of
    the known best measurements. *)
Theorem RankedFallShort_bounds configured download connection :
  let c := Z.max 1 configured in
  let tc := RankedFallShortConnectionTimeoutMs configured connection in
  let td := RankedFallShortDownloadTimeoutMs configured download connection in
  1 <= tc <= c /\ 1 <= td <= tc /\
  (0 < connection -> tc = Z.min c (4 * connection)) /\
  (0 < download -> 0 < connection -> td = Z.min c (Z.min (3 * download) (4 * connection))) /\
  (download <= 0 -> td = tc) /\ (connection <= 0 -> tc = c).
Proof.
  cbv zeta. unfold RankedFallShortDownloadTimeoutMs, RankedFallShortConnectionTimeoutMs, fallShortCap,
    kRankedFallShortConnectionMultiplier, kRankedFallShortDownloadMultiplier.
  destruct (Z.ltb_spec 0 download), (Z.ltb_spec 0 connection), (Z.leb_spec connection 0); lia.
Qed.

(** The two ranked orders are the ids of a stable sort: known values
    before unknown ones, best first, and rows without a value, or of equal
    value, in their given order. *)
Theorem OrderRanked_stable rows :
  (exists sorted, stableSortOf bySavedScore rows sorted /\ OrderRankedBySavedSiteScore rows = map rid sorted) /\
  (exists sorted, stableSortOf byConnection rows sorted /\ OrderRankedByConnectionTime rows = map rid sorted).
Proof.
  assert (Hshort : forall lt : RankedScheduleRow -> RankedScheduleRow -> bool, (length rows < 2)%nat ->
    stable_sort lt rows = rows) by (intros lt H; destruct rows as [|r [|]]; simpl in *; done || lia).
  assert (Hnone : forall f : RankedScheduleRow -> Z, forall lt : RankedScheduleRow -> RankedScheduleRow -> bool,
    existsb (fun row => 0 <? f row) rows = false ->
    (forall x y, f x <= 0 -> f y <= 0 -> lt x y = false) -> StrictWeak lt -> stable_sort lt rows = rows).
  { intros f lt He Hlt Hsw. apply stable_sort_sorted; [done|].
    assert (Hall : Forall (fun r => f r <= 0) rows).
    { apply Forall_forall. intros x Hx. destruct (Z.ltb_spec 0 (f x)) as [H|]; [|done]. exfalso.
      apply not_true_iff_false in He. apply He. apply existsb_exists. exists x.
      split; [by apply list_elem_of_In|by apply Z.ltb_lt]. }
    clear -Hall Hlt. induction Hall as [|x l Hx Hl IH]; constructor; [done|].
    eapply Forall_impl; [exact Hl|]. intros y Hy. by apply Hlt. }
  split.
  - exists (stable_sort bySavedScore rows). split; [apply stable_sort_spec; apply _|].
    unfold OrderRankedBySavedSiteScore. destruct (Nat.ltb_spec (length rows) 2) as [H|H]; [by rewrite Hshort|].
    destruct (existsb _ rows) eqn:E; [done|]. simpl. rewrite (Hnone siteScore); try done; [|apply _].
    intros x y H1 H2. unfold bySavedScore.
    by destruct (Z.ltb_spec 0 (siteScore x)), (Z.ltb_spec 0 (siteScore y)); try lia.
  - exists (stable_sort byConnection rows). split; [apply stable_sort_spec; apply _|].
    unfold OrderRankedByConnectionTime. destruct (Nat.ltb_spec (length rows) 2) as [H|H]; [by rewrite Hshort|].
    destruct (existsb _ rows) eqn:E; [done|]. simpl. rewrite (Hnone connectTimeMs); try done; [|apply _].
    intros x y H1 H2. unfold byConnection.
    by destruct (Z.ltb_spec 0 (connectTimeMs x)), (Z.ltb_spec 0 (connectTimeMs y)); try lia.
Qed.

(** [PerformanceComesBefore] is a strict weak order on result rows in
    both directions, as [std::stable_sort] needs: successful rows first, by
    value in the direction asked for, then untested, skipped and failed rows,
    whose values do not matter. *)
Theorem PerformanceComesBefore_order descending :
  StrictWeak (fun a b : PerformanceTestStatus * Q => PerformanceComesBefore a.1 a.2 b.1 b.2 descending) /\
  forall ls lv rs rv, PerformanceComesBefore ls lv rs rv descending = true <->
    PerformanceStatusRank ls < PerformanceStatusRank rs \/
    (ls = Success /\ rs = Success /\ (if descending then rv < lv else lv < rv)%Q).
Proof.
  split; [|intros; apply comesBefore_iff]. split.
  - intros [a x]. apply not_true_iff_false. rewrite comesBefore_iff. simpl.
    intros [?|(_ & _ & H)]; [lia|]. destruct descending; by apply Qlt_irrefl in H.
  - intros [a x] [b y] H. apply not_true_iff_false. rewrite comesBefore_iff in *. simpl in *.
    intros [H2|(-> & -> & H2)]; destruct H as [H|(E1 & E2 & H)]; subst; simpl in *; try lia.
    destruct descending; by apply (Qlt_not_le _ _ H), Qlt_le_weak.
  - intros [a x] [b y] [c z] H. rewrite !comesBefore_iff in *. simpl in *.
    destruct H as [H|(-> & -> & H)].
    + destruct (Z.lt_trichotomy (PerformanceStatusRank a) (PerformanceStatusRank b)) as [|[E|]];
        [left; by left|right; left; lia|right; left; lia].
    + destruct b; simpl; try (left; left; lia).
      destruct descending.
      * destruct (Qlt_le_dec y x) as [|Hle]; [left; by right|right; right]. split_and!; [done|done|].
        by apply (Qlt_le_trans _ x).
      * destruct (Qlt_le_dec x y) as [|Hle]; [left; by right|right; right]. split_and!; [done|done|].
        by apply (Qle_lt_trans _ x).
Qed.
