(* ===== verification/ResumeGuard.v ===== *)
(** * ResumeGuard: the crash-loop guard of a headless boot

    src/engine/headless/ResumeGuard.cpp and ResumeGuard.h: the record kept in
    headless-state.json, its operations, and what a crash loop does to it.  The
    file is its parsed content; [readFile] stands for the outcomes of opening
    and parsing it, [canWrite] for whether [QSaveFile] succeeds. *)

From S2P Require Import Prelude Text Json.

Definition kResumeGuardVersion : Z := 1.
Definition kResumeGuardMaxUnstableBoots : Z := 1000000.
Definition kStrikesToSuppress : Z := 3.
Definition kUnstableBootsToStayUp : Z := 3.

Definition CoreGaveUp : Z := 70.
Definition Stuck : Z := 71.

(** ** Data *)

Record Guard := MkGuard {
  m_profile : Z; m_strikes : Z; m_armed : bool; m_armedAt : Z; m_suppressed : bool;
  m_bootOpen : bool; m_unstableBoots : Z; m_previousExit : jobject; m_lastExit : jobject;
}.

Definition freshGuard : Guard := MkGuard (-1) 0 false 0 false false 0 ∅ ∅.

(** What the constructor finds at the path. *)
Inductive FileRead := NoFile | Unreadable | TooLarge | NotJson | Root (root : jobject).

(** The guard and its file; a write that fails leaves the file as it was. *)
Record World := MkWorld { guard : Guard; file : FileRead; canWrite : bool }.

(** ** Saving *)

Definition obj (l : list (string * json)) : json := JObject (list_to_map l).

Definition saveRoot (g : Guard) : jobject :=
  let root : jobject := list_to_map
    [("version"%string, jint kResumeGuardVersion);
     ("resume"%string, obj [("profile"%string, jint (m_profile g)); ("strikes"%string, jint (m_strikes g));
                            ("armed"%string, JBool (m_armed g)); ("armed_at"%string, jint (m_armedAt g))]);
     ("boot"%string, obj [("open"%string, JBool (m_bootOpen g)); ("unstable"%string, jint (m_unstableBoots g))])] in
  if bool_decide (m_lastExit g = ∅) then root else <["last_exit"%string := JObject (m_lastExit g)]> root.

Definition save (w : World) : World :=
  if canWrite w then MkWorld (guard w) (Root (saveRoot (guard w))) true else w.

Definition onGuard (f : Guard -> Guard) (w : World) : World := MkWorld (f (guard w)) (file w) (canWrite w).

(** ** The constructor *)

Definition qBound (lo x hi : Z) : Z := Z.max lo (Z.min hi x).

Definition toInteger (v : option json) (d : Z) : Z :=
  match v with
  | Some (JNum z false) => if (- 2 ^ 63 <=? z) && (z <? 2 ^ 63) then z else d
  | _ => d
  end.

Definition loadRoot (root : jobject) : Guard :=
  if negb (toInt (field root "version") 0 =? kResumeGuardVersion) then freshGuard
  else
    let resume := toObject (field root "resume") in
    let p := toInt (field resume "profile") (-1) in
    let p := if p <? 0 then -1 else p in
    let armed := (0 <=? p) && toBool (field resume "armed") false in
    let boot := toObject (field root "boot") in
    MkGuard p (qBound 0 (toInt (field resume "strikes") 0) kStrikesToSuppress) armed
      (if armed then toInteger (field resume "armed_at") 0 else 0) false
      (toBool (field boot "open") false)
      (qBound 0 (toInt (field boot "unstable") 0) kResumeGuardMaxUnstableBoots)
      (toObject (field root "last_exit")) ∅.

(** The record of this process; a previous exit is consumed by saving at once. *)
Definition construct (f : FileRead) (writable : bool) : World :=
  match f with
  | Root root =>
      let g := loadRoot root in
      let w := MkWorld g f writable in
      if bool_decide (m_previousExit g = ∅) then w else save w
  | _ => MkWorld freshGuard f writable
  end.

(** ** Operations *)

Definition setStrikes (armedAndAt : bool * Z) (strikes : Z) (g : Guard) : Guard :=
  MkGuard (m_profile g) strikes armedAndAt.1 armedAndAt.2 (m_suppressed g) (m_bootOpen g) (m_unstableBoots g)
    (m_previousExit g) (m_lastExit g).

Definition setBoot (open : bool) (unstable : Z) (g : Guard) : Guard :=
  MkGuard (m_profile g) (m_strikes g) (m_armed g) (m_armedAt g) (m_suppressed g) open unstable
    (m_previousExit g) (m_lastExit g).

Definition setSuppressed (b : bool) (g : Guard) : Guard :=
  MkGuard (m_profile g) (m_strikes g) (m_armed g) (m_armedAt g) b (m_bootOpen g) (m_unstableBoots g)
    (m_previousExit g) (m_lastExit g).

Definition settlePrevious (w : World) : World :=
  let g := guard w in
  let unstable := if m_bootOpen g then Z.min (m_unstableBoots g + 1) kResumeGuardMaxUnstableBoots
                  else m_unstableBoots g in
  let w := onGuard (setBoot true unstable) w in
  if negb (m_armed g) then save w
  else save (onGuard (setStrikes (false, 0) (Z.min (m_strikes g + 1) kStrikesToSuppress)) w).

Definition unstableBoots (w : World) : Z := m_unstableBoots (guard w).

Definition stayUp (w : World) : bool := kUnstableBootsToStayUp <=? unstableBoots w.

Definition markStable (w : World) : World :=
  let g := guard w in
  if negb (m_bootOpen g) && (m_unstableBoots g =? 0) then w
  else save (onGuard (setBoot false 0) w).

(** The id to resume, -1 for none. *)
Definition decide_ (candidateId : Z) (w : World) : Z * World :=
  let w := onGuard (setSuppressed false) w in
  let g := guard w in
  if candidateId <? 0 then (-1, w)
  else if negb (candidateId =? m_profile g) then
    let w := onGuard (fun g => MkGuard candidateId 0 false 0 (m_suppressed g) (m_bootOpen g) (m_unstableBoots g)
                                 (m_previousExit g) (m_lastExit g)) w in
    (candidateId, if 0 <=? m_profile g then save w else w)
  else if kStrikesToSuppress <=? m_strikes g then (-1, onGuard (setSuppressed true) w)
  else (candidateId, w).

Definition suppressed (w : World) : bool := m_suppressed (guard w).

Definition liftSuppression (startedProfileId : Z) (w : World) : World :=
  if (0 <=? startedProfileId) && negb (startedProfileId =? m_profile (guard w))
  then onGuard (setSuppressed false) w else w.

Definition arm (profileId now : Z) (w : World) : World :=
  if profileId <? 0 then w
  else
    let g := guard w in
    save (onGuard (fun g => MkGuard profileId (if profileId =? m_profile g then m_strikes g else 0) true now
                              (m_suppressed g) (m_bootOpen g) (m_unstableBoots g) (m_previousExit g)
                              (m_lastExit g)) w).

Definition disarm (w : World) : World :=
  let g := guard w in
  if negb (m_armed g) then w else save (onGuard (setStrikes (false, 0) (m_strikes g)) w).

Definition strike (w : World) : World :=
  let g := guard w in
  if negb (m_armed g) then w
  else save (onGuard (setStrikes (false, 0) (Z.min (m_strikes g + 1) kStrikesToSuppress)) w).

Definition survived (profileId : Z) (w : World) : World :=
  let g := guard w in
  if (profileId <? 0) || negb (profileId =? m_profile g) then w
  else if (m_strikes g =? 0) && negb (m_armed g) && negb (m_suppressed g) then w
  else save (onGuard (fun g => setSuppressed false (setStrikes (false, 0) 0 g)) w).

Definition noteExit (code : Z) (reason : qstring) (now : Z) (w : World) : World :=
  let exit : jobject := list_to_map
    [("code"%string, jint code); ("reason"%string, JString reason); ("at"%string, jint now)] in
  let keep := (code =? CoreGaveUp) || (code =? Stuck) in
  save (onGuard (fun g =>
    MkGuard (m_profile g) (m_strikes g) (if keep then m_armed g else false) (if keep then m_armedAt g else 0)
      (m_suppressed g) (m_bootOpen g) (m_unstableBoots g) (m_previousExit g) exit) w).

(** ** The life of a guard *)

(** One call, or one environment event: the disk fills up or frees up, the
    process ends and the next one constructs its guard from the file. *)
Inductive step : World -> World -> Prop :=
  | step_settle w : step w (settlePrevious w)
  | step_stable w : step w (markStable w)
  | step_decide c w : i32 c -> step w (decide_ c w).2
  | step_lift p w : step w (liftSuppression p w)
  | step_arm p now w : i32 p -> i64 now -> step w (arm p now w)
  | step_disarm w : step w (disarm w)
  | step_strike w : step w (strike w)
  | step_survived p w : step w (survived p w)
  | step_exit c r now w : i32 c -> step w (noteExit c r now w)
  | step_disk b w : step w (MkWorld (guard w) (file w) b)
  | step_reboot b w : step w (construct (file w) b).

(** The invariant of the record. *)
Definition wfGuard (g : Guard) : Prop :=
  -1 <= m_profile g < 2 ^ 31 /\ 0 <= m_strikes g <= kStrikesToSuppress /\
  (m_armed g = true -> 0 <= m_profile g) /\ (m_armed g = false -> m_armedAt g = 0) /\ i64 (m_armedAt g) /\
  0 <= m_unstableBoots g <= kResumeGuardMaxUnstableBoots.

(** ** Facts *)

Lemma guard_save w : guard (save w) = guard w.
Proof. unfold save. by destruct (canWrite w). Qed.

Lemma guard_onGuard f w : guard (onGuard f w) = f (guard w).
Proof. done. Qed.

Create Rewrite HintDb guard.
#[export] Hint Rewrite guard_save guard_onGuard : guard.

Lemma toInteger_range v : i64 (toInteger v 0).
Proof.
  unfold in_int. destruct v as [[]|]; simpl; try lia. destruct frac; [lia|].
  destruct ((_ <=? trunc) && _) eqn:E; lia.
Qed.

Lemma loadRoot_wf root : wfGuard (loadRoot root).
Proof.
  unfold loadRoot. destruct (negb _).
  { unfold wfGuard, freshGuard, kStrikesToSuppress, kResumeGuardMaxUnstableBoots, in_int. simpl. intuition (lia || done). }
  cbv zeta. pose proof (toInt_range (field (toObject (field root "resume")) "profile") (-1)) as Hp.
  unfold in_int in Hp at 2. unfold in_int in Hp at 1. specialize (Hp ltac:(lia)).
  set (p0 := toInt _ (-1)) in *. set (a := toBool (field (toObject (field root "resume")) "armed") false).
  unfold wfGuard, qBound, kStrikesToSuppress, kResumeGuardMaxUnstableBoots. simpl.
  assert (Hp' : -1 <= (if p0 <? 0 then -1 else p0) < 2 ^ 31) by (destruct (Z.ltb_spec p0 0); lia).
  set (p := if p0 <? 0 then -1 else p0) in *.
  split_and!; try lia.
  - intros H. by rewrite H.
  - destruct (_ && a); [apply toInteger_range|unfold in_int; lia].
Qed.

Lemma construct_wf f b : wfGuard (guard (construct f b)).
Proof.
  assert (Hf : wfGuard freshGuard)
    by (unfold wfGuard, freshGuard, kStrikesToSuppress, kResumeGuardMaxUnstableBoots, in_int; simpl;
        intuition (lia || done)).
  destruct f; simpl; try exact Hf. case_bool_decide; [apply loadRoot_wf|].
  rewrite guard_save. apply loadRoot_wf.
Qed.

Lemma step_wf w w' : step w w' -> wfGuard (guard w) -> wfGuard (guard w').
Proof.
  intros Hs (H1 & H2 & H3 & H4 & H5 & H6).
  assert (Hz : i64 0) by (unfold in_int; lia).
  destruct Hs; unfold settlePrevious, markStable, decide_, liftSuppression, arm, disarm, strike, survived, noteExit;
    cbv zeta; try apply construct_wf;
    repeat match goal with |- context [if ?b then _ else _] => destruct b eqn:? end;
    cbn [fst snd]; autorewrite with guard; unfold wfGuard, kStrikesToSuppress, kResumeGuardMaxUnstableBoots, in_int in *; simpl;
    case_ifs; split_and!; intros; try done; try lia; try (by apply H3); try (by apply H4).
Qed.


(** ** The file carries the record to the next process *)

(** The record the next process loads. *)
Definition reloaded (g : Guard) : Guard :=
  MkGuard (m_profile g) (m_strikes g) (m_armed g) (m_armedAt g) false (m_bootOpen g) (m_unstableBoots g)
    (m_lastExit g) ∅.

Fixpoint find_key (k : string) (l : list (string * json)) : option json :=
  match l with
  | [] => None
  | (k', v) :: l => if String.eqb k k' then Some v else find_key k l
  end.

Lemma lookup_key k l : (list_to_map l : jobject) !! k = find_key k l.
Proof.
  induction l as [|[k' v] l IH]; [done|]. simpl. destruct (String.eqb_spec k k') as [->|Hne].
  - apply lookup_insert_eq.
  - by rewrite lookup_insert_ne by congruence.
Qed.

Lemma saveRoot_field g k :
  k <> "last_exit"%string -> field (saveRoot g) k = find_key k
    [("version"%string, jint kResumeGuardVersion);
     ("resume"%string, obj [("profile"%string, jint (m_profile g)); ("strikes"%string, jint (m_strikes g));
                            ("armed"%string, JBool (m_armed g)); ("armed_at"%string, jint (m_armedAt g))]);
     ("boot"%string, obj [("open"%string, JBool (m_bootOpen g)); ("unstable"%string, jint (m_unstableBoots g))])].
Proof.
  intros Hk. unfold saveRoot, field. case_bool_decide; [apply lookup_key|].
  rewrite lookup_insert_ne by congruence. apply lookup_key.
Qed.

Lemma saveRoot_lastExit g : toObject (field (saveRoot g) "last_exit") = m_lastExit g.
Proof.
  unfold saveRoot, field. case_bool_decide as E; [by rewrite lookup_key, E|]. by rewrite lookup_insert_eq.
Qed.

Lemma load_save g : wfGuard g -> loadRoot (saveRoot g) = reloaded g.
Proof.
  intros (H1 & H2 & H3 & H4 & H5 & H6). unfold kStrikesToSuppress, kResumeGuardMaxUnstableBoots in *.
  unfold loadRoot. rewrite saveRoot_lastExit, !saveRoot_field by done.
  cbn [find_key String.eqb Ascii.eqb Bool.eqb toObject obj]. unfold field. rewrite !lookup_key.
  cbn [find_key String.eqb Ascii.eqb Bool.eqb toBool].
  rewrite !toInt_jint by (unfold in_int, kResumeGuardVersion; lia). rewrite Z.eqb_refl. cbn [negb]. cbv zeta.
  unfold reloaded, qBound, kStrikesToSuppress, kResumeGuardMaxUnstableBoots.
  assert (Ei : toInteger (Some (jint (m_armedAt g))) 0 = m_armedAt g).
  { unfold toInteger, jint, in_int in *. destruct ((_ <=? m_armedAt g) && _) eqn:E; [done|]. lia. }
  rewrite Ei.
  assert (Ep : (if m_profile g <? 0 then -1 else m_profile g) = m_profile g) by (case_ifs; lia).
  rewrite Ep. assert (Ea : (0 <=? m_profile g) && m_armed g = m_armed g).
  { destruct (m_armed g); [|apply andb_false_r]. specialize (H3 eq_refl). lia. }
  rewrite Ea. f_equal; try lia. destruct (m_armed g); [done|]. by rewrite H4.
Qed.

Lemma construct_saved g b : wfGuard g -> guard (construct (Root (saveRoot g)) b) = reloaded g.
Proof. intros H. simpl. rewrite load_save by done. case_bool_decide; [done|]. by rewrite guard_save. Qed.

Lemma construct_canWrite f b : canWrite (construct f b) = b.
Proof. destruct f; try done. simpl. case_bool_decide; [done|]. unfold save. by destruct b. Qed.

Lemma save_file w : canWrite w = true -> file (save w) = Root (saveRoot (guard w)) /\ canWrite (save w) = true.
Proof. intros H. unfold save. by rewrite H. Qed.

Lemma settle_spec w :
  canWrite w = true ->
  let g := guard w in
  let unstable := if m_bootOpen g then Z.min (m_unstableBoots g + 1) kResumeGuardMaxUnstableBoots
                  else m_unstableBoots g in
  let g' := MkGuard (m_profile g) (if m_armed g then Z.min (m_strikes g + 1) kStrikesToSuppress else m_strikes g)
              false (if m_armed g then 0 else m_armedAt g) (m_suppressed g) true unstable (m_previousExit g)
              (m_lastExit g) in
  guard (settlePrevious w) = g' /\ file (settlePrevious w) = Root (saveRoot g') /\ canWrite (settlePrevious w) = true.
Proof.
  intros Hw. cbv zeta. unfold settlePrevious. destruct (m_armed (guard w)) eqn:Ea; cbn [negb].
  - match goal with |- context [save ?x] => destruct (save_file x Hw) as [-> ->]; rewrite (guard_save x) end.
    unfold onGuard, setBoot, setStrikes. simpl. by rewrite ?Ea.
  - match goal with |- context [save ?x] => destruct (save_file x Hw) as [-> ->]; rewrite (guard_save x) end.
    unfold onGuard, setBoot. simpl. by rewrite ?Ea.
Qed.

(** ** A crash loop *)

(** One boot that resumes what it may and then dies without a word; the
    decision and the file it leaves. *)
Definition crashBoot (c now : Z) (f : FileRead) : Z * FileRead :=
  let w := settlePrevious (construct f true) in
  let '(d, w) := decide_ c w in
  let w := if 0 <=? d then arm d now w else w in
  (d, file w).

(** The file after a number of crashing boots. *)
Fixpoint crashBoots (n : nat) (c now : Z) (f : FileRead) : FileRead :=
  match n with
  | O => f
  | S n => (crashBoot c now (crashBoots n c now f)).2
  end.

(** What the file says after boot [n >= 1] of the loop. *)
Definition loopRecord (c : Z) (n : nat) (g : Guard) : Prop :=
  m_profile g = c /\ m_strikes g = Z.min (Z.of_nat n - 1) 3 /\ m_armed g = (n <=? 3)%nat /\ m_lastExit g = ∅.

Lemma crashBoot_first c now f :
  0 <= c < 2 ^ 31 -> i64 now -> (forall root, f <> Root root) ->
  exists g, crashBoot c now f = (c, Root (saveRoot g)) /\ wfGuard g /\ loopRecord c 1 g.
Proof.
  intros Hc Hn Hf. unfold crashBoot.
  assert (Ef : construct f true = MkWorld freshGuard f true) by (destruct f; try done; by destruct (Hf root)).
  rewrite Ef. destruct (settle_spec (MkWorld freshGuard f true) eq_refl) as (Eg & _ & Ew).
  set (w := settlePrevious _) in *. unfold decide_.
  rewrite guard_onGuard, Eg. simpl m_profile.
  destruct (Z.ltb_spec c 0); [lia|]. destruct (Z.eqb_spec c (-1)); [lia|]. simpl negb. cbv iota.
  change (0 <=? -1) with false. cbv iota. destruct (Z.leb_spec 0 c); [|lia].
  unfold arm. destruct (Z.ltb_spec c 0); [lia|].
  match goal with |- context [save ?x] => destruct (save_file x Ew) as [-> _] end.
  eexists. split; [done|]. rewrite !guard_onGuard. simpl. rewrite Z.eqb_refl.
  unfold wfGuard, kStrikesToSuppress, kResumeGuardMaxUnstableBoots. simpl.
  split; [split_and!; try lia; done|]. done.
Qed.

Lemma crashBoot_next c now g n :
  0 <= c < 2 ^ 31 -> i64 now -> (1 <= n)%nat -> wfGuard g -> loopRecord c n g ->
  exists g', crashBoot c now (Root (saveRoot g)) = ((if (n <? 3)%nat then c else -1), Root (saveRoot g')) /\
    wfGuard g' /\ loopRecord c (S n) g'.
Proof.
  intros Hc Hnow Hn Hwf (L1 & L2 & L3 & L4). unfold crashBoot.
  pose proof (construct_saved g true Hwf) as Eg. pose proof (construct_canWrite (Root (saveRoot g)) true) as Ew.
  destruct (settle_spec _ Ew) as (Eg2 & Ef2 & Ew2). set (w := settlePrevious _) in *.
  rewrite Eg in Eg2, Ef2. unfold reloaded in Eg2, Ef2. simpl in Eg2, Ef2.
  unfold decide_. rewrite guard_onGuard, Eg2. simpl m_profile. simpl m_strikes.
  destruct (Z.ltb_spec c 0); [lia|]. rewrite L1, Z.eqb_refl. simpl negb. cbv iota.
  destruct Hwf as (W1 & W2 & W3 & W4 & W5 & W6).
  unfold kStrikesToSuppress, kResumeGuardMaxUnstableBoots in *.
  assert (Es : (if m_armed g then Z.min (m_strikes g + 1) 3 else m_strikes g) = Z.min (Z.of_nat (S n) - 1) 3).
  { rewrite L2, L3. destruct (Nat.leb_spec n 3); lia. }
  rewrite Es. destruct (Nat.ltb_spec n 3) as [H3|H3].
  - destruct (Z.leb_spec 3 (Z.min (Z.of_nat (S n) - 1) 3)); [lia|]. destruct (Z.leb_spec 0 c); [|lia].
    unfold arm. destruct (Z.ltb_spec c 0); [lia|].
    match goal with |- context [save ?x] => destruct (save_file x Ew2) as [-> _] end.
    eexists. split; [done|]. rewrite !guard_onGuard. rewrite Eg2. simpl. rewrite L1, Z.eqb_refl, Es.
    unfold wfGuard, loopRecord, kStrikesToSuppress, kResumeGuardMaxUnstableBoots. simpl.
    split; [split_and!; try lia; try done; destruct (m_bootOpen g); lia|].
    split_and!; try done. symmetry. apply Nat.leb_le. lia.
  - destruct (Z.leb_spec 3 (Z.min (Z.of_nat (S n) - 1) 3)); [|lia]. change (0 <=? -1) with false. cbv iota.
    change (file (onGuard (setSuppressed true) (onGuard (setSuppressed false) w))) with (file w). rewrite Ef2.
    eexists. split; [done|]. simpl. rewrite Es.
    unfold wfGuard, loopRecord, kStrikesToSuppress, kResumeGuardMaxUnstableBoots. simpl.
    split.
    + split_and!; try lia; try done; try (destruct (m_bootOpen g); lia).
      * intros _. destruct (m_armed g) eqn:Ea; [done|by apply W4].
      * destruct (m_armed g); [unfold in_int; lia|done].
    + split_and!; try done. symmetry. apply Nat.leb_gt. lia.
Qed.

Lemma crashBoots_record c now f n :
  0 <= c < 2 ^ 31 -> i64 now -> (forall root, f <> Root root) ->
  exists g, crashBoots (S n) c now f = Root (saveRoot g) /\ wfGuard g /\ loopRecord c (S n) g.
Proof.
  intros Hc Hn Hf. induction n as [|n (g & E & Hwf & Hl)].
  - destruct (crashBoot_first c now f Hc Hn Hf) as (g & E & Hwf & Hl). exists g. simpl. by rewrite E.
  - change (crashBoots (S (S n)) c now f) with ((crashBoot c now (crashBoots (S n) c now f)).2). rewrite E.
    destruct (crashBoot_next c now g (S n) Hc Hn ltac:(lia) Hwf Hl) as (g' & -> & H1 & H2). by exists g'.
Qed.

(** ** The boot streak *)

(** A boot of which a core stayed connected, or not; nothing else happens. *)
Definition streakBoot (stable : bool) (f : FileRead) : FileRead :=
  let w := settlePrevious (construct f true) in
  file (if stable then markStable w else w).

Lemma streakBoot_next stable g :
  wfGuard g -> exists g', streakBoot stable (Root (saveRoot g)) = Root (saveRoot g') /\ wfGuard g' /\
    m_bootOpen g' = negb stable /\
    m_unstableBoots g' = (if stable then 0 else if m_bootOpen g then Z.min (m_unstableBoots g + 1) 1000000
                                                else m_unstableBoots g).
Proof.
  intros Hwf. unfold streakBoot.
  pose proof (construct_saved g true Hwf) as Eg. pose proof (construct_canWrite (Root (saveRoot g)) true) as Ew.
  destruct (settle_spec _ Ew) as (Eg2 & Ef2 & Ew2).
  assert (Hwf2 : wfGuard (guard (settlePrevious (construct (Root (saveRoot g)) true)))).
  { apply (step_wf (construct (Root (saveRoot g)) true)); [constructor|]. rewrite Eg.
    destruct Hwf as (W1 & W2 & W3 & W4 & W5 & W6). unfold wfGuard, reloaded. simpl. split_and!; done || lia. }
  set (w := settlePrevious _) in *. rewrite Eg in Eg2, Ef2. unfold reloaded in Eg2, Ef2. simpl in Eg2, Ef2.
  destruct stable.
  - assert (Hopen : m_bootOpen (guard w) = true) by (by rewrite Eg2).
    unfold markStable. cbv zeta. rewrite Hopen. simpl negb. simpl andb. cbv iota.
    match goal with |- context [save ?x] => destruct (save_file x Ew2) as [-> _] end.
    eexists. split; [done|]. rewrite guard_onGuard. unfold setBoot. simpl. split; [|done].
    destruct Hwf2 as (W1 & W2 & W3 & W4 & W5 & W6). unfold wfGuard, kResumeGuardMaxUnstableBoots in *. simpl.
    split_and!; done || lia.
  - rewrite Ef2. eexists. split; [done|]. rewrite <- Eg2. split; [done|]. rewrite Eg2. simpl. done.
Qed.

Fixpoint streakBoots (n : nat) (f : FileRead) : FileRead :=
  match n with
  | O => f
  | S n => streakBoot false (streakBoots n f)
  end.

Lemma streak_record g n :
  wfGuard g -> m_bootOpen g = false -> m_unstableBoots g = 0 -> Z.of_nat n <= 1000000 ->
  exists g', streakBoots n (Root (saveRoot g)) = Root (saveRoot g') /\ wfGuard g' /\
    m_bootOpen g' = negb (n =? 0)%nat /\ m_unstableBoots g' = Z.max 0 (Z.of_nat n - 1).
Proof.
  intros Hwf Ho Hu. induction n as [|n IH]; intros Hn.
  - exists g. by rewrite Ho, Hu.
  - destruct IH as (g1 & E & Hw1 & Ho1 & Hu1); [lia|]. simpl streakBoots. rewrite E.
    destruct (streakBoot_next false g1 Hw1) as (g2 & E2 & Hw2 & Ho2 & Hu2). exists g2.
    split; [done|]. split; [done|]. split; [done|]. rewrite Hu2, Ho1, Hu1.
    destruct n; simpl negb; cbv iota; lia.
Qed.

(** ** Properties *)

(** Through any sequence of calls, full disks and reboots the record
    stays well formed: 0 to 3 strikes, armed only for a profile, a time only
    while armed, the boot streak bounded. *)
Theorem ResumeGuard_invariant f b w :
  rtc step (construct f b) w -> wfGuard (guard w).
Proof.
  intros H. assert (H0 : wfGuard (guard (construct f b))) by apply construct_wf.
  induction H as [|x y z Hs _ IH]; [done|]. apply IH. by eapply step_wf.
Qed.

Example ResumeGuard_invariant_witness :
  let w := strike (arm 7 1000 (settlePrevious (construct NoFile true))) in
  m_strikes (guard w) = 1 /\ wfGuard (guard w).
Proof.
  cbv zeta. split; [vm_compute; reflexivity|].
  apply (ResumeGuard_invariant NoFile true).
  eapply rtc_l; [apply step_settle|]. eapply rtc_l; [apply (step_arm 7 1000); unfold in_int; lia|].
  eapply rtc_l; [apply step_strike|]. apply rtc_refl.
Defined.

(** C38: starting without a usable file, a profile whose boots all end
    within the survival time is resumed by exactly three boots and by no later
    one. *)
Theorem ResumeGuard_crash_loop c now f n :
  0 <= c < 2 ^ 31 -> i64 now -> (forall root, f <> Root root) ->
  (crashBoot c now (crashBoots n c now f)).1 = if (n <? 3)%nat then c else -1.
Proof.
  intros Hc Hn Hf. destruct n as [|n].
  - destruct (crashBoot_first c now f Hc Hn Hf) as (g & E & _). simpl. by rewrite E.
  - destruct (crashBoots_record c now f n Hc Hn Hf) as (g & E & Hwf & Hl). rewrite E.
    by destruct (crashBoot_next c now g (S n) Hc Hn ltac:(lia) Hwf Hl) as (g' & -> & _).
Qed.

Example ResumeGuard_crash_loop_witness :
  (crashBoot 12 1000 (crashBoots 2 12 1000 NoFile)).1 = 12 /\
  (crashBoot 12 1000 (crashBoots 3 12 1000 NoFile)).1 = -1.
Proof.
  split; refine (ResumeGuard_crash_loop 12 1000 NoFile _ _ _ _); try (unfold in_int; lia); discriminate.
Defined.

(** What a process saved is what the next one loads: profile,
    strikes, arming with its time, boot streak, and the exit it noted. *)
Theorem ResumeGuard_roundtrip w b :
  wfGuard (guard w) -> canWrite w = true ->
  let g := guard w in
  let g' := guard (construct (file (save w)) b) in
  m_profile g' = m_profile g /\ m_strikes g' = m_strikes g /\ m_armed g' = m_armed g /\
  m_armedAt g' = m_armedAt g /\ m_bootOpen g' = m_bootOpen g /\ m_unstableBoots g' = m_unstableBoots g /\
  m_previousExit g' = m_lastExit g /\ m_suppressed g' = false /\ m_lastExit g' = ∅.
Proof.
  intros Hwf Hw. cbv zeta. destruct (save_file w Hw) as [-> _]. by rewrite construct_saved.
Qed.

Example ResumeGuard_roundtrip_witness :
  let w := arm 5 1700000000 (construct NoFile true) in
  m_armedAt (guard (construct (file (save w)) true)) = 1700000000.
Proof.
  cbv zeta. destruct (ResumeGuard_roundtrip (arm 5 1700000000 (construct NoFile true)) true) as (_ & _ & _ & H & _).
  - unfold wfGuard, kStrikesToSuppress, kResumeGuardMaxUnstableBoots, in_int. simpl. split_and!; intros; lia || done.
  - vm_compute. reflexivity.
  - exact H.
Defined.

(** After a noted exit the next boot reports it, and strikes an armed
    profile exactly when the code is 70 or 71, the exits a profile can cause. *)
Theorem noteExit_next_boot code reason now w :
  wfGuard (guard w) -> canWrite w = true ->
  let g := guard w in
  let w' := settlePrevious (construct (file (noteExit code reason now w)) true) in
  field (m_previousExit (guard w')) "code" = Some (jint code) /\
  m_strikes (guard w') = (if m_armed g && ((code =? 70) || (code =? 71))
                          then Z.min (m_strikes g + 1) 3 else m_strikes g) /\
  m_armed (guard w') = false.
Proof.
  intros Hwf Hw. cbv zeta. unfold noteExit.
  match goal with |- context [save ?x] => set (w1 := x) end.
  assert (Hwf1 : wfGuard (guard w1)).
  { destruct Hwf as (W1 & W2 & W3 & W4 & W5 & W6). unfold w1. rewrite guard_onGuard. unfold wfGuard, in_int in *. simpl.
    split_and!; try done; try lia; destruct ((code =? CoreGaveUp) || (code =? Stuck)); try done; try lia; intros; try done; lia. }
  destruct (save_file w1 Hw) as [-> _].
  destruct (settle_spec _ (construct_canWrite (Root (saveRoot (guard w1))) true)) as (-> & _ & _).
  rewrite construct_saved by done. unfold reloaded, w1. rewrite guard_onGuard. simpl. unfold CoreGaveUp, Stuck.
  split; [done|]. split; [|done].
  destruct ((code =? 70) || (code =? 71)); [by rewrite andb_true_r|by rewrite andb_false_r].
Qed.

Example noteExit_next_boot_witness :
  let w := arm 5 1000 (construct NoFile true) in
  m_strikes (guard (settlePrevious (construct (file (noteExit 70 (u "gone") 1001 w)) true))) = 1 /\
  m_strikes (guard (settlePrevious (construct (file (noteExit 0 (u "stop") 1001 w)) true))) = 0.
Proof.
  cbv zeta.
  assert (H : wfGuard (guard (arm 5 1000 (construct NoFile true)))).
  { unfold wfGuard, kStrikesToSuppress, kResumeGuardMaxUnstableBoots, in_int. simpl. split_and!; intros; lia || done. }
  split.
  - destruct (noteExit_next_boot 70 (u "gone") 1001 _ H eq_refl) as (_ & E & _). exact E.
  - destruct (noteExit_next_boot 0 (u "stop") 1001 _ H eq_refl) as (_ & E & _). exact E.
Defined.

(** After a stable boot, the boot that follows [n] boots without a
    stable core counts [n] of them (up to a million), and stays up instead of
    exiting exactly from the third on. *)
Theorem boot_streak w n :
  wfGuard (guard w) -> canWrite w = true -> m_bootOpen (guard w) = true -> Z.of_nat n < 1000000 ->
  let w' := settlePrevious (construct (streakBoots n (file (markStable w))) true) in
  unstableBoots w' = Z.of_nat n /\ (stayUp w' = true <-> (3 <= n)%nat).
Proof.
  intros Hwf Hw Ho Hn. cbv zeta. unfold markStable. cbv zeta. rewrite Ho. simpl negb. simpl andb. cbv iota.
  match goal with |- context [save ?x] => destruct (save_file x Hw) as [-> _] end.
  rewrite guard_onGuard. set (g0 := setBoot false 0 (guard w)).
  assert (Hwf0 : wfGuard g0).
  { destruct Hwf as (W1 & W2 & W3 & W4 & W5 & W6). unfold wfGuard, g0, setBoot, kResumeGuardMaxUnstableBoots in *. simpl.
    split_and!; done || lia. }
  destruct (streak_record g0 n Hwf0 eq_refl eq_refl ltac:(lia)) as (g' & -> & Hw' & Ho' & Hu').
  destruct (settle_spec _ (construct_canWrite (Root (saveRoot g')) true)) as (Eg & _ & _).
  rewrite construct_saved in Eg by done.
  assert (E : unstableBoots (settlePrevious (construct (Root (saveRoot g')) true)) = Z.of_nat n).
  { unfold unstableBoots. rewrite Eg. unfold reloaded. simpl. rewrite Ho', Hu'.
    unfold kResumeGuardMaxUnstableBoots. destruct n; simpl negb; cbv iota; lia. }
  split; [done|]. unfold stayUp, kUnstableBootsToStayUp. rewrite E, Z.leb_le. lia.
Qed.

Example boot_streak_witness :
  let w := settlePrevious (construct NoFile true) in
  stayUp (settlePrevious (construct (streakBoots 3 (file (markStable w))) true)) = true /\
  stayUp (settlePrevious (construct (streakBoots 2 (file (markStable w))) true)) <> true.
Proof.
  cbv zeta.
  assert (H : wfGuard (guard (settlePrevious (construct NoFile true)))).
  { unfold wfGuard, kStrikesToSuppress, kResumeGuardMaxUnstableBoots, in_int. simpl. split_and!; intros; lia || done. }
  split.
  - apply (proj2 (boot_streak _ 3 H eq_refl eq_refl ltac:(lia))). lia.
  - intros E. apply (proj2 (boot_streak _ 2 H eq_refl eq_refl ltac:(lia))) in E. lia.
Defined.
