(* ===== verification/CoreStderr.v ===== *)
(** * CoreStderr: the cause line of a core that exits

    src/engine/supervisor/CoreSupervisor.cpp, lines 87-151: one core
    generation's stderr reassembled into lines, of which the first panic line
    or else the last plain one is kept as the cause.  Bytes and UTF-16 units
    are numbers; what needs Unicode tables ([fromUtf8], spaces, control
    characters) comes from [QtText] and [StderrText]. *)

From S2P Require Import Prelude Text.

Definition kCoreSupervisorErrorMaxChars : nat := 300.
Definition kCoreSupervisorStderrLineCap : Z := 4096.

(** [QChar::category() == Other_Control]. *)
Class StderrText := { isOtherControl : qchar -> bool }.

Record CoreSupervisorStderrTail := MkTail {
  gen : Z; partial : list Z; panic : qstring; last_ : qstring;
}.

Definition etaTail (t : CoreSupervisorStderrTail) := MkTail (gen t) (partial t) (panic t) (last_ t).
#[export] Instance set_partial : Setter partial := ltac:(setter etaTail).
#[export] Instance set_panic : Setter panic := ltac:(setter etaTail).
#[export] Instance set_last_ : Setter last_ := ltac:(setter etaTail).

Definition freshTail (g : Z) : CoreSupervisorStderrTail := MkTail g [] [] [].

Definition coreSupervisorIsPanicLine (line : qstring) : bool :=
  startsWith line (u "Core panicked:") || startsWith line (u "panic:") || startsWith line (u "fatal error:").

(** ** The two regular expressions *)

Definition isDigit (c : qchar) : bool := (48 <=? c) && (c <=? 57).
Definition isLower (c : qchar) : bool := (97 <=? c) && (c <=? 122).
Definition isHexLower (c : qchar) : bool := isDigit c || ((97 <=? c) && (c <=? 102)).
Definition isAsciiSpace (c : qchar) : bool := (c =? 32) || ((9 <=? c) && (c <=? 13)).

(** What follows a fixed pattern in front of [s]: one test per character. *)
Fixpoint eat (pat : list (qchar -> bool)) (s : qstring) : option qstring :=
  match pat, s with
  | [], _ => Some s
  | p :: pat, c :: s => if p c then eat pat s else None
  | _ :: _, [] => None
  end.

(** [\d{4}/\d{2}/\d{2} \d{2}:\d{2}:\d{2}]. *)
Definition stampDigits : list (qchar -> bool) :=
  let d := isDigit in
  [d; d; d; d; Z.eqb 47; d; d; Z.eqb 47; d; d; Z.eqb 32; d; d; Z.eqb 58; d; d; Z.eqb 58; d; d].

(** [(\.\d+)?] and the space after it. *)
Definition stampEnd (s : qstring) : option qstring :=
  match s with
  | 32 :: rest => Some rest
  | 46 :: frac =>
      let rest := dropWhile isDigit frac in
      if (length rest <? length frac)%nat then eat [Z.eqb 32] rest else None
  | _ => None
  end.

(** [text.remove(goLogStamp)]: the pattern is anchored, so one match at most. *)
Definition removeGoLogStamp (text : qstring) : qstring :=
  match eat stampDigits text with
  | Some rest => match stampEnd rest with Some rest => rest | None => text end
  | None => text
  end.

(** [^[a-z][a-z0-9]{0,7}\s+0x[0-9a-f]+$]. *)
Definition isRegisterDump (text : qstring) : bool :=
  match text with
  | [] => false
  | c :: s =>
      let rest := dropWhile (fun c => isLower c || isDigit c) s in
      let hex := dropWhile isAsciiSpace rest in
      isLower c && (length s - length rest <=? 7)%nat && (length hex <? length rest)%nat &&
      match eat [Z.eqb 48; Z.eqb 120] hex with
      | Some (d :: ds) => forallb isHexLower (d :: ds)
      | _ => false
      end
  end.

Section Lines.
Context `{Q : QtText} `{T : StderrText}.

(** [QString::simplified]: words joined by single spaces. *)
Definition simplified (s : qstring) : qstring :=
  joinWith 32 (filter (fun w => w <> []) (splitWhen isSpace s)).

Definition coreSupervisorOneLine (text : qstring) : qstring :=
  let text := simplified (map (fun c => if isOtherControl c then 32 else c) text) in
  if (kCoreSupervisorErrorMaxChars <? length text)%nat
  then take (kCoreSupervisorErrorMaxChars - 3) text ++ u "..." else text.

Definition chopCr (line : list Z) : list Z := if endsWithChar line 13 then removelast line else line.

Definition coreSupervisorNoteStderrLine (tail : CoreSupervisorStderrTail) (line : list Z) :
    CoreSupervisorStderrTail :=
  if negb (bool_decide (panic tail = [])) then tail
  else
    let line := chopCr line in
    if bool_decide (line = []) || startsWith line (u " ") || startsWith line [9] then tail
    else
      let text := coreSupervisorOneLine (removeGoLogStamp (fromUtf8 line)) in
      if bool_decide (text = []) then tail
      else if coreSupervisorIsPanicLine text then tail <| panic := text |>
      else if startsWith text (u "goroutine ") || isRegisterDump text then tail
      else tail <| last_ := text |>.

(** The complete lines of a buffer and what follows the last newline. *)
Fixpoint noteLines (tail : CoreSupervisorStderrTail) (lines : list (list Z)) :
    CoreSupervisorStderrTail * list Z :=
  match lines with
  | [] => (tail, [])
  | [rest] => (tail, rest)
  | line :: lines => noteLines (coreSupervisorNoteStderrLine tail line) lines
  end.

Definition coreSupervisorFeedStderr (tail : CoreSupervisorStderrTail) (g : Z) (chunk : list Z) :
    CoreSupervisorStderrTail :=
  let tail := if negb (gen tail =? g) then freshTail g else tail in
  if negb (bool_decide (panic tail = [])) then tail
  else
    let '(tail, rest) := noteLines tail (splitOn 10 (partial tail ++ chunk)) in
    tail <| partial := if kCoreSupervisorStderrLineCap <? Z.of_nat (length rest) then [] else rest |>.

Definition coreSupervisorStderrCause (tail : CoreSupervisorStderrTail) (g : Z) :
    qstring * CoreSupervisorStderrTail :=
  if negb (gen tail =? g) then ([], tail)
  else
    let tail := if bool_decide (partial tail = []) then tail
                else coreSupervisorNoteStderrLine (tail <| partial := [] |>) (partial tail) in
    (if bool_decide (panic tail = []) then last_ tail else panic tail, tail).
End Lines.

(** ** Facts *)

Lemma splitOn_cons_shape c s : exists p ps, splitOn c s = p :: ps.
Proof. pose proof (splitOn_not_nil c s). destruct (splitOn c s) as [|p ps]; [done|eauto]. Qed.

(** The pieces of a longer text: those complete so far, then those of the rest. *)
Lemma splitOn_extend c a b :
  splitOn c (a ++ b) = removelast (splitOn c a) ++ splitOn c (List.last (splitOn c a) [] ++ b).
Proof.
  induction a as [|x a IH]; [done|].
  destruct (splitOn_cons_shape c a) as (p & ps & Ea).
  destruct (splitOn_cons_shape c (a ++ b)) as (p' & ps' & Eb).
  rewrite <- app_comm_cons. unfold splitOn in *. cbn [splitWhen]. rewrite IH. rewrite Ea in *.
  destruct (c =? x) eqn:Ex.
  - rewrite <- IH, Eb. cbn [removelast List.last]. rewrite IH in Eb. by rewrite <- Eb.
  - destruct ps as [|q qs].
    + simpl. by rewrite Ex.
    + cbn [removelast List.last app]. destruct qs; done.
Qed.

Lemma last_piece c s : c ∉ List.last (splitOn c s) [].
Proof.
  pose proof (splitOn_fields c s) as H. destruct (splitOn_cons_shape c s) as (p & ps & E). rewrite E in *.
  rewrite Forall_forall in H. apply H. clear. revert p.
  induction ps as [|q qs IH]; intros p; [by left|]. right. apply IH.
Qed.

Lemma splitOn_first c x s : c ∉ x -> exists y ys, splitOn c (x ++ s) = (x ++ y) :: ys.
Proof.
  intros H. induction x as [|a x IH]; [apply splitOn_cons_shape|].
  apply not_elem_of_cons in H as [Ha Hx]. destruct (IH Hx) as (y & ys & E). exists y, ys.
  rewrite <- !app_comm_cons. unfold splitOn in *. cbn [splitWhen]. rewrite E.
  by destruct (Z.eqb_spec c a).
Qed.

Section Facts.
Context `{Q : QtText} `{T : StderrText}.

Lemma noteLines_eq tail ls :
  ls <> [] ->
  noteLines tail ls = (fold_left coreSupervisorNoteStderrLine (removelast ls) tail, List.last ls []).
Proof.
  revert tail. induction ls as [|l ls IH]; intros tail H; [done|].
  destruct ls as [|l' ls]; [done|]. change (noteLines tail (l :: l' :: ls)) with (noteLines (coreSupervisorNoteStderrLine tail l) (l' :: ls)).
  by rewrite IH.
Qed.

Lemma noteLine_partial tail line p :
  coreSupervisorNoteStderrLine (tail <| partial := p |>) line =
  (coreSupervisorNoteStderrLine tail line) <| partial := p |>.
Proof. unfold coreSupervisorNoteStderrLine. simpl. repeat case_match; done. Qed.

Lemma noteLines_partial tail ls p :
  fold_left coreSupervisorNoteStderrLine ls (tail <| partial := p |>) =
  (fold_left coreSupervisorNoteStderrLine ls tail) <| partial := p |>.
Proof. revert tail. induction ls as [|l ls IH]; intros tail; [done|]. simpl. by rewrite noteLine_partial. Qed.

Lemma noteLine_gen tail line : gen (coreSupervisorNoteStderrLine tail line) = gen tail.
Proof. unfold coreSupervisorNoteStderrLine. repeat case_match; done. Qed.

Lemma noteLine_panicked tail line : panic tail <> [] -> coreSupervisorNoteStderrLine tail line = tail.
Proof. intros H. unfold coreSupervisorNoteStderrLine. by rewrite bool_decide_false. Qed.

Lemma noteLines_panicked tail ls : panic tail <> [] -> fold_left coreSupervisorNoteStderrLine ls tail = tail.
Proof. intros H. induction ls as [|l ls IH]; [done|]. simpl. by rewrite noteLine_panicked. Qed.

Lemma noteLines_gen tail ls : gen (fold_left coreSupervisorNoteStderrLine ls tail) = gen tail.
Proof. revert tail. induction ls as [|l ls IH]; intros tail; [done|]. simpl. by rewrite IH, noteLine_gen. Qed.

(** What is kept of the complete lines of a text. *)
Definition kept (g : Z) (s : list Z) : CoreSupervisorStderrTail :=
  fold_left coreSupervisorNoteStderrLine (removelast (splitOn 10 s)) (freshTail g).

Definition rest (s : list Z) : list Z := List.last (splitOn 10 s) [].

(** The tail after the bytes [s]: [kept], and the rest while no panic was seen. *)
Definition tailAfter (g : Z) (s : list Z) (t : CoreSupervisorStderrTail) : Prop :=
  gen t = g /\ panic t = panic (kept g s) /\ last_ t = last_ (kept g s) /\
  (panic (kept g s) = [] -> t = (kept g s) <| partial := rest s |>).

Lemma removelast_app_pieces (a b : list (list Z)) : b <> [] -> removelast (a ++ b) = a ++ removelast b.
Proof. intros H. by apply removelast_app. Qed.

Lemma kept_extend g s chunk :
  kept g (s ++ chunk) =
    fold_left coreSupervisorNoteStderrLine (removelast (splitOn 10 (rest s ++ chunk))) (kept g s) /\
  rest (s ++ chunk) = rest (rest s ++ chunk).
Proof.
  unfold kept, rest. rewrite (splitOn_extend 10 s chunk).
  set (l := List.last (splitOn 10 s) []). pose proof (splitOn_not_nil 10 (l ++ chunk)) as Hne. split.
  - rewrite removelast_app_pieces by done. by rewrite fold_left_app.
  - destruct (exists_last Hne) as (i & x & E). rewrite E, app_assoc. by rewrite !last_last.
Qed.

Lemma feed_tailAfter g s t chunk :
  tailAfter g s t -> Z.of_nat (length (rest (s ++ chunk))) <= 4096 ->
  tailAfter g (s ++ chunk) (coreSupervisorFeedStderr t g chunk).
Proof.
  intros (Hg & Hp & Hl & Ht) Hcap. destruct (kept_extend g s chunk) as [Ek Er].
  unfold coreSupervisorFeedStderr. rewrite Hg, Z.eqb_refl. simpl negb. cbv iota.
  destruct (bool_decide_reflect (panic t = [])) as [E|E]; simpl negb; cbv iota.
  - rewrite Hp in E. specialize (Ht E). rewrite noteLines_eq by apply splitOn_not_nil.
    rewrite Ht. change (partial ((kept g s) <| partial := rest s |>)) with (rest s).
    rewrite noteLines_partial, <- Ek. fold (rest (rest s ++ chunk)). rewrite <- Er.
    unfold kCoreSupervisorStderrLineCap.
    destruct (Z.ltb_spec 4096 (Z.of_nat (length (rest (s ++ chunk))))); [lia|].
    split_and!; try done. simpl. unfold kept. by rewrite noteLines_gen.
  - assert (Hk : panic (kept g s) <> []) by (by rewrite <- Hp).
    assert (E2 : kept g (s ++ chunk) = kept g s) by (rewrite Ek; by apply noteLines_panicked).
    unfold tailAfter. rewrite E2. split_and!; try done. 
Qed.

Lemma rest_short s chunk :
  Forall (fun l => Z.of_nat (length l) <= 4096) (splitOn 10 (s ++ chunk)) -> Z.of_nat (length (rest s)) <= 4096.
Proof.
  rewrite splitOn_extend. intros H. apply Forall_app in H as [_ H]. fold (rest s) in H.
  destruct (splitOn_first 10 (rest s) chunk (last_piece 10 s)) as (y & ys & E). rewrite E in H.
  apply Forall_cons in H as [H _]. rewrite length_app in H. lia.
Qed.

Lemma feed_chunks g chunks s t :
  tailAfter g s t -> Forall (fun l => Z.of_nat (length l) <= 4096) (splitOn 10 (s ++ concat chunks)) ->
  tailAfter g (s ++ concat chunks) (fold_left (fun t c => coreSupervisorFeedStderr t g c) chunks t).
Proof.
  revert s t. induction chunks as [|c cs IH]; intros s t Ht Hc; simpl.
  - by rewrite app_nil_r.
  - simpl in Hc. rewrite app_assoc in *. apply IH; [|done]. apply feed_tailAfter; [done|].
    by apply (rest_short (s ++ c) (concat cs)).
Qed.

Lemma fresh_tailAfter g : tailAfter g [] (freshTail g).
Proof. by split_and!. Qed.

Lemma cause_tailAfter g s t :
  tailAfter g s t ->
  (coreSupervisorStderrCause t g).1 =
    let k := coreSupervisorNoteStderrLine (kept g s) (rest s) in
    if bool_decide (panic k = []) then last_ k else panic k.
Proof.
  intros (Hg & Hp & Hl & Ht). unfold coreSupervisorStderrCause. rewrite Hg, Z.eqb_refl. simpl negb. cbv iota zeta.
  destruct (bool_decide_reflect (panic (kept g s) = [])) as [E|E].
  - rewrite (Ht E). cbn [fst].
    change (partial ((kept g s) <| partial := rest s |>)) with (rest s).
    destruct (bool_decide_reflect (rest s = [])) as [Er|Er].
    + rewrite Er. assert (En : coreSupervisorNoteStderrLine (kept g s) [] = kept g s).
      { unfold coreSupervisorNoteStderrLine. by rewrite E. }
      by rewrite En.
    + change ((kept g s) <| partial := rest s |> <| partial := [] |>) with ((kept g s) <| partial := [] |>).
      by rewrite noteLine_partial.
  - rewrite (noteLine_panicked (kept g s)) by done. cbn [fst].
    destruct (bool_decide (partial t = [])).
    + by rewrite Hp, Hl.
    + rewrite noteLine_partial, noteLine_panicked by (by rewrite Hp). simpl. by rewrite Hp, Hl.
Qed.
End Facts.

(** ** Property *)

(** The cause reported for a core does not depend on how its stderr
    was cut into reads, as long as no line exceeds the 4096-byte cap: it is the
    one of the whole text, namely the first panic line, or else the last plain
    line, the unterminated one included. *)
Theorem stderrCause_chunks {Q : QtText} {T : StderrText} g chunks :
  Forall (fun l => Z.of_nat (length l) <= 4096) (splitOn 10 (concat chunks)) ->
  (coreSupervisorStderrCause (fold_left (fun t c => coreSupervisorFeedStderr t g c) chunks (freshTail g)) g).1 =
  let k := fold_left coreSupervisorNoteStderrLine (splitOn 10 (concat chunks)) (freshTail g) in
  if bool_decide (panic k = []) then last_ k else panic k.
Proof.
  intros H. pose proof (feed_chunks g chunks [] (freshTail g) (fresh_tailAfter g) H) as Ht.
  rewrite (cause_tailAfter _ _ _ Ht). simpl app. unfold kept, rest.
  destruct (exists_last (splitOn_not_nil 10 (concat chunks))) as (i & x & E). rewrite E.
  rewrite removelast_last, last_last, fold_left_app. done.
Qed.

#[export] Instance asciiStderr : StderrText := {| isOtherControl c := (c <? 32) || (c =? 127) |}.

Example stderrCause_chunks_witness :
  let chunks := [u "2024/01/02 03:04:05 start"; [10; 112]; u "anic: boom" ++ [13; 10]; u "goroutine 1 [running]:"] in
  (coreSupervisorStderrCause (Q := asciiText)
     (fold_left (fun t c => coreSupervisorFeedStderr t 3 c) chunks (freshTail 3)) 3).1 = u "panic: boom".
Proof.
  cbv zeta. rewrite (stderrCause_chunks (Q := asciiText)).
  - vm_compute. reflexivity.
  - vm_compute. repeat (apply Forall_cons; split); try apply Forall_nil_2; discriminate.
Defined.
