(* ===== verification/CoreSupervisor.v ===== *)
(** * CoreSupervisor: the restart policy of the core process

    src/engine/supervisor/CoreSupervisor.cpp and CoreSupervisor.h: the main
    thread's state machine.  A handler is a function on the supervisor's state;
    what it posts to the DS_cores thread is a queue of tasks ([dsTasks]), what
    it posts to the main thread another ([mainPosts]), and what it emits a
    trace ([signals], oldest first).  Timers hold their delay while active.
    [now] is the monotonic clock in milliseconds. *)

From S2P Require Import Prelude Text CoreStderr.

Inductive CoreState := NotStarted | Starting | Connected | Backoff | GaveUp | ListenFailed | ShuttingDown.

#[export] Instance CoreState_eq_dec : EqDecision CoreState.
Proof. solve_decision. Defined.

(** What a restart does on DS_cores before respawning. *)
Inductive Before := NoStop | StopCrash | StopForGuard.

Inductive Task :=
  | TaskStart
  | TaskRestart (before : Before)
  | TaskResetKill
  | TaskTimeoutKill (gen : Z)
  | TaskKillForExit.

Inductive MainPost := PostRestartDead.

Inductive Signal :=
  | StateChanged (state : CoreState)
  | RpcConnected
  | CoreStarted (profileId : Z)
  | CoreGaveUpSignal (reason : qstring)
  | ListenFailedSignal (error : qstring)
  | CoreExitedSignal (wasConnected : bool)
  | ResumeCancelled
  | ProbeStarted (gen attempt : Z)
  | ProbeRetryArmed (gen attempt : Z)
  | IdentityUnsupported (detail : qstring)
  | ProfileStopped (before : Before)
  | ProcessKilled.

Definition NoProfileId : Z := -1919.

Definition kConnectTimeoutMs : Z := 20000.
Definition kStableMs : Z := 60000.
Definition kBackoffFirstMs : Z := 500.
Definition kBackoffCapMs : Z := 30000.
Definition kGiveUpAfter : Z := 5.
Definition kProfileCrashWindowMs : Z := 10000.
Definition kIntentRestartDelayMs : Z := 200.
Definition kPrivilegeProbeRetries : Z := 2.
Definition kCoreIdentityExitCode : Z := 86.

(** [m_process] is the generation of the process, absent before it exists.
    The last fields are the settings and the kill switch flag shared with other
    components. *)
Record Sup := MkSup {
  m_state : CoreState; m_server : bool; m_process : option Z; m_startWhenUp : Z; m_probing : bool;
  m_failures : Z; m_startFailures : Z; m_lastCoreError : qstring; m_lastCoreErrorGen : Z;
  m_handledExitGen : Z; m_acceptedGen : Z; m_connectGen : Z; m_timedOutGen : Z;
  m_connectedAt : option Z; m_profileCrashTimer : option Z; m_lastFailure : qstring; m_restartCount : Z;
  m_expectedExitGen : Z; m_restartTimer : option Z; m_connectTimer : option Z;
  dsTasks : list Task; mainPosts : list MainPost; signals : list Signal;
  started_id : Z; prepare_exit : bool; core_running : bool; identityUnsupported : bool;
}.

Definition etaSup (s : Sup) : Sup :=
  MkSup (m_state s) (m_server s) (m_process s) (m_startWhenUp s) (m_probing s) (m_failures s)
    (m_startFailures s) (m_lastCoreError s) (m_lastCoreErrorGen s) (m_handledExitGen s) (m_acceptedGen s)
    (m_connectGen s) (m_timedOutGen s) (m_connectedAt s) (m_profileCrashTimer s) (m_lastFailure s)
    (m_restartCount s) (m_expectedExitGen s) (m_restartTimer s) (m_connectTimer s) (dsTasks s)
    (mainPosts s) (signals s) (started_id s) (prepare_exit s) (core_running s) (identityUnsupported s).

#[export] Instance set_m_state : Setter m_state := ltac:(setter etaSup).
#[export] Instance set_m_server : Setter m_server := ltac:(setter etaSup).
#[export] Instance set_m_process : Setter m_process := ltac:(setter etaSup).
#[export] Instance set_m_startWhenUp : Setter m_startWhenUp := ltac:(setter etaSup).
#[export] Instance set_m_probing : Setter m_probing := ltac:(setter etaSup).
#[export] Instance set_m_failures : Setter m_failures := ltac:(setter etaSup).
#[export] Instance set_m_startFailures : Setter m_startFailures := ltac:(setter etaSup).
#[export] Instance set_m_lastCoreError : Setter m_lastCoreError := ltac:(setter etaSup).
#[export] Instance set_m_lastCoreErrorGen : Setter m_lastCoreErrorGen := ltac:(setter etaSup).
#[export] Instance set_m_handledExitGen : Setter m_handledExitGen := ltac:(setter etaSup).
#[export] Instance set_m_acceptedGen : Setter m_acceptedGen := ltac:(setter etaSup).
#[export] Instance set_m_connectGen : Setter m_connectGen := ltac:(setter etaSup).
#[export] Instance set_m_timedOutGen : Setter m_timedOutGen := ltac:(setter etaSup).
#[export] Instance set_m_connectedAt : Setter m_connectedAt := ltac:(setter etaSup).
#[export] Instance set_m_profileCrashTimer : Setter m_profileCrashTimer := ltac:(setter etaSup).
#[export] Instance set_m_lastFailure : Setter m_lastFailure := ltac:(setter etaSup).
#[export] Instance set_m_restartCount : Setter m_restartCount := ltac:(setter etaSup).
#[export] Instance set_m_expectedExitGen : Setter m_expectedExitGen := ltac:(setter etaSup).
#[export] Instance set_m_restartTimer : Setter m_restartTimer := ltac:(setter etaSup).
#[export] Instance set_m_connectTimer : Setter m_connectTimer := ltac:(setter etaSup).
#[export] Instance set_dsTasks : Setter dsTasks := ltac:(setter etaSup).
#[export] Instance set_mainPosts : Setter mainPosts := ltac:(setter etaSup).
#[export] Instance set_signals : Setter signals := ltac:(setter etaSup).
#[export] Instance set_started_id : Setter started_id := ltac:(setter etaSup).
#[export] Instance set_prepare_exit : Setter prepare_exit := ltac:(setter etaSup).
#[export] Instance set_core_running : Setter core_running := ltac:(setter etaSup).
#[export] Instance set_identityUnsupported : Setter identityUnsupported := ltac:(setter etaSup).

(** The object as constructed. *)
Definition initialSup : Sup :=
  MkSup NotStarted false None (-1) false 0 0 [] 0 0 0 0 0 None None [] 0 0 None None [] [] [] NoProfileId false
    false false.

(** ** Small steps *)

Definition emit (x : Signal) (s : Sup) : Sup := s <| signals := signals s ++ [x] |>.
Definition postTask (t : Task) (s : Sup) : Sup := s <| dsTasks := dsTasks s ++ [t] |>.

Definition setState (state : CoreState) (s : Sup) : Sup :=
  let s' := s <| m_state := state |> in
  if bool_decide (m_state s = state) then s' else emit (StateChanged state) s'.

Definition exiting (s : Sup) : bool := bool_decide (m_state s = ShuttingDown) || prepare_exit s.

Definition canStartCore (s : Sup) : bool :=
  negb (bool_decide (m_state s = ListenFailed)) && negb (bool_decide (m_state s = ShuttingDown)).

Definition currentGeneration (s : Sup) : Z := default 0 (m_process s).

Definition stopTimers (s : Sup) : Sup := s <| m_restartTimer := None |> <| m_connectTimer := None |>.

Definition scheduleRestart (delayMs : Z) (s : Sup) : Sup :=
  (setState Backoff s) <| m_restartTimer := Some delayMs |>.

Definition beginRestart (s : Sup) : Sup :=
  setState Starting
    ((stopTimers (s <| m_probing := false |>))
       <| m_failures := 0 |> <| m_startFailures := 0 |> <| m_lastFailure := [] |> <| m_lastCoreError := [] |>).

Definition postProcessRestart (before : Before) (s : Sup) : Sup :=
  postTask (TaskRestart before)
    (s <| m_handledExitGen := Z.max (m_handledExitGen s) (currentGeneration s) |>
       <| m_restartCount := m_restartCount s + 1 |>).

Definition emitCoreStarted (s : Sup) : Sup :=
  let id := m_startWhenUp s in
  emit (CoreStarted id) (s <| m_startFailures := 0 |> <| m_startWhenUp := -1 |>).

Section Supervisor.
(** The platform branches: Windows builds, and the GUI application. *)
Context (isWin isGui : bool).

(** ** Requests *)

Definition listen (listenError : option qstring) (s : Sup) : bool * Sup :=
  let s := s <| m_server := true |> in
  match listenError with
  | None => (true, s)
  | Some error =>
      let s := s <| m_lastFailure :=
        u "Throne could not open the local channel the core connects to (" ++ error ++
        u "), so no profile can start." |> in
      (false, emit (ListenFailedSignal error) (setState ListenFailed s))
  end.

Definition start (startWhenUpProfileId : Z) (s : Sup) : Sup :=
  if negb (bool_decide (m_state s = NotStarted)) || negb (m_server s) then s
  else
    let s := if 0 <=? startWhenUpProfileId then s <| m_startWhenUp := startWhenUpProfileId |> else s in
    postTask TaskStart (setState Starting s).

(** A task of the DS_cores queue: the closures the main thread posts with
    [QMetaObject::invokeMethod], by the function that posts them ([start],
    [postProcessRestart], [resetCore], [onConnectTimeout], [killForExit]). *)
Definition runTask (t : Task) (s : Sup) : Sup :=
  match t with
  | TaskStart => s <| m_process := Some 1 |>
  | TaskRestart before =>
      match m_process s with
      | None => s
      | Some gen =>
          if prepare_exit s then s
          else
            let s := match before with NoStop => s | _ => emit (ProfileStopped before) s end in
            s <| m_process := Some (gen + 1) |> <| core_running := false |>
      end
  | TaskResetKill =>
      match m_process s with
      | None => s
      | Some gen =>
          emit ProcessKilled
            ((emit (ProfileStopped StopCrash) s) <| started_id := NoProfileId |> <| m_expectedExitGen := gen |>)
      end
  | TaskTimeoutKill gen =>
      if bool_decide (m_process s = Some gen) then emit ProcessKilled s else s
  | TaskKillForExit => match m_process s with None => s | Some _ => emit ProcessKilled s end
  end.

Definition drainTasks (s : Sup) : Sup :=
  fold_left (fun s t => runTask t s) (dsTasks s) (s <| dsTasks := [] |>).

(** The wait for the kill first lets DS_cores finish what was posted. *)
Definition shutdown (s : Sup) : Sup :=
  let s := stopTimers ((setState ShuttingDown s) <| m_probing := false |>) in
  let s := drainTasks s in
  let s := match m_process s with None => s | Some _ => emit ProcessKilled s end in
  s <| m_server := false |>.

Definition killForExit (s : Sup) : Sup :=
  postTask TaskKillForExit (stopTimers ((setState ShuttingDown s) <| m_probing := false |>)).

Definition resetCore (s : Sup) : bool * Sup :=
  if negb (canStartCore s) || exiting s then (false, s)
  else
    let was := m_state s in
    let s := beginRestart s in
    if bool_decide (was = Backoff) || bool_decide (was = GaveUp) then
      (true, postProcessRestart StopCrash (s <| m_startWhenUp := -1 |> <| started_id := NoProfileId |>))
    else (true, postTask TaskResetKill s).

Definition restartNotListening (profileId : Z) (s : Sup) : bool * Sup :=
  if negb (canStartCore s) || exiting s then (false, s)
  else (true, postProcessRestart NoStop ((beginRestart s) <| m_startWhenUp := profileId |>)).

Definition restartForGuard (s : Sup) : Sup :=
  if negb (canStartCore s) || exiting s then s
  else postProcessRestart StopForGuard (beginRestart s).

(** The kill waits for DS_cores, so it happens before the call returns. *)
Definition killForPrivilegeChange (s : Sup) : Sup :=
  if bool_decide (m_state s = ListenFailed) || bool_decide (m_state s = ShuttingDown) then s
  else if bool_decide (m_state s = Backoff) || bool_decide (m_state s = GaveUp)
    then s <| mainPosts := mainPosts s ++ [PostRestartDead] |>
  else
    let s := drainTasks s in
    match m_process s with
    | None => s
    | Some gen => emit ProcessKilled (s <| m_expectedExitGen := gen |>)
    end.

Definition setStartWhenUp (profileId : Z) (s : Sup) : bool * Sup :=
  match m_process s with
  | None => (false, s)
  | Some _ => (true, s <| m_startWhenUp := profileId |>)
  end.

Definition cancelResume (s : Sup) : Sup :=
  emit ResumeCancelled (s <| m_startWhenUp := -1 |> <| started_id := NoProfileId |>).

(** ** Connections *)

(** [pidOk]: [verifyCorePid], which refuses when there is no process. *)
Definition onNewConnection (pidOk : bool) (now : Z) (s : Sup) : Sup :=
  match m_process s with
  | None => s
  | Some gen =>
      if negb pidOk then s
      else if (gen <=? m_handledExitGen s) || (gen <=? m_timedOutGen s) then s
      else
        let s := (emit RpcConnected s) <| core_running := true |> in
        if exiting s then s
        else
          let s := if m_acceptedGen s <? gen
                   then s <| m_acceptedGen := gen |> <| m_connectedAt := Some now |> else s in
          let s := setState Connected (s <| m_connectTimer := None |>) in
          if isWin then emitCoreStarted s
          else emit (ProbeStarted (m_acceptedGen s) 0) (s <| m_probing := true |>)
  end.

(** The answer to a probe; [rpcUp] is [defaultClient->IsConnected()]. *)
Definition onPrivilegeProbed (gen : Z) (ok rpcUp : bool) (attempt : Z) (s : Sup) : Sup :=
  if ((attempt =? 0) && negb (m_probing s)) || negb (gen =? m_acceptedGen s) ||
     negb (bool_decide (m_state s = Connected)) || exiting s then s
  else if negb ok && negb rpcUp then s
  else
    let s := if negb ok && (attempt <? kPrivilegeProbeRetries) then emit (ProbeRetryArmed gen attempt) s else s in
    if 0 <? attempt then s
    else emitCoreStarted (s <| m_probing := false |>).

Definition probeRetryFired (gen attempt : Z) (s : Sup) : Sup :=
  if (gen =? m_acceptedGen s) && bool_decide (m_state s = Connected) && negb (exiting s)
  then emit (ProbeStarted gen (attempt + 1)) s else s.

Definition onCoreSpawned (gen : Z) (s : Sup) : Sup :=
  if negb (bool_decide (m_state s = Starting)) || (gen <=? m_acceptedGen s) || exiting s then s
  else s <| m_connectGen := gen |> <| m_connectTimer := Some kConnectTimeoutMs |>.

Definition onConnectTimeout (s : Sup) : Sup :=
  if negb (bool_decide (m_state s = Starting)) || exiting s then s
  else
    let gen := m_connectGen s in
    if (gen <=? m_acceptedGen s) || negb (gen =? currentGeneration s) then s
    else postTask (TaskTimeoutKill gen) (s <| m_timedOutGen := gen |>).

(** ** Exits *)

Definition noteCoreError (gen : Z) (line : qstring) (s : Sup) : Sup :=
  if (gen <=? m_handledExitGen s) || (gen <? m_lastCoreErrorGen s) || (m_expectedExitGen s =? gen) then s
  else
    s <| m_lastCoreErrorGen := gen |>
      <| m_lastCoreError :=
           if (gen =? m_timedOutGen s) && negb (coreSupervisorIsPanicLine line)
           then u "did not connect within " ++ number 10 (kConnectTimeoutMs / 1000) ++ u " s" else line |>.

(** The exit was asked for: restart without counting it. *)
Definition expectedExit (wasProbing : bool) (s : Sup) : Sup :=
  let s := s <| m_failures := 0 |> <| m_startFailures := 0 |> in
  let s := if negb wasProbing || (m_startWhenUp s <? 0) then s <| m_startWhenUp := started_id s |> else s in
  scheduleRestart kIntentRestartDelayMs s.

(** The crash timer of a connected core: whether two exits came within the window. *)
Definition profileCrash (wasConnected : bool) (now : Z) (s : Sup) : bool * Sup :=
  if negb wasConnected then (false, s)
  else match m_profileCrashTimer s with
       | None => (false, s <| m_profileCrashTimer := Some now |>)
       | Some since =>
           if now - since <? kProfileCrashWindowMs
           then (true, s <| m_profileCrashTimer := None |>)
           else (false, s <| m_profileCrashTimer := Some now |>)
       end.

Definition giveUpReason (gen : Z) (wasConnected : bool) (s : Sup) : qstring :=
  if isGui then u "The core keeps exiting, so it is no longer restarted. Use Restart Core to try again."
  else
    let base := if negb wasConnected && (kGiveUpAfter <=? m_startFailures s)
                then u "the core exited " ++ number 10 (m_startFailures s) ++ u " times without connecting"
                else u "the core kept exiting" in
    if (m_lastCoreErrorGen s =? gen) && negb (bool_decide (m_lastCoreError s = []))
    then base ++ u "; last error: " ++ m_lastCoreError s else base.

Definition backoffDelay (failures : Z) : Z :=
  Z.min (Z.shiftl kBackoffFirstMs (Z.min (failures - 1) 6)) kBackoffCapMs.

(** The counting of an unexpected exit, then give up or back off. *)
Definition unexpectedExit (gen : Z) (wasConnected : bool) (now : Z) (s : Sup) : Sup :=
  let stable := wasConnected &&
    match m_connectedAt s with Some at_ => kStableMs <=? now - at_ | None => false end in
  let s := s <| m_failures := (if stable then 0 else m_failures s) + 1 |> in
  let s := if negb wasConnected then s <| m_startFailures := m_startFailures s + 1 |> else s in
  let '(tooFrequent, s) := profileCrash wasConnected now s in
  let s :=
    if wasConnected || (m_startWhenUp s <? 0) then
      if tooFrequent && (0 <=? started_id s)
      then s <| m_startWhenUp := -1 |> <| started_id := NoProfileId |>
      else s <| m_startWhenUp := started_id s |>
    else s in
  let s := emit (CoreExitedSignal wasConnected) s in
  if ((kGiveUpAfter <=? m_failures s) && (m_startWhenUp s <? 0)) ||
     (negb wasConnected && (kGiveUpAfter <=? m_startFailures s)) then
    let s := s <| m_startWhenUp := -1 |> <| started_id := NoProfileId |> in
    let reason := giveUpReason gen wasConnected s in
    emit (CoreGaveUpSignal reason) (setState GaveUp (s <| m_lastFailure := reason |>))
  else scheduleRestart (backoffDelay (m_failures s)) s.

Definition onCoreExited (gen : Z) (failedToStart : bool) (exitCode : Z) (now : Z) (s : Sup) : Sup :=
  if gen <=? m_handledExitGen s then s
  else
    let s := s <| m_handledExitGen := gen |> in
    let wasProbing := m_probing s && (gen =? m_acceptedGen s) in
    let s := if wasProbing then s <| m_probing := false |> else s in
    if exiting s then s
    else
      let s := s <| m_connectTimer := None |> in
      if m_expectedExitGen s =? gen then expectedExit wasProbing s
      else
        let wasConnected := negb failedToStart && (gen =? m_acceptedGen s) && negb wasProbing in
        if negb wasConnected && (exitCode =? kCoreIdentityExitCode) && negb (identityUnsupported s) then
          let detail := if (m_lastCoreErrorGen s =? gen) && negb (bool_decide (m_lastCoreError s = []))
                        then m_lastCoreError s else u "kill switch: cannot adopt the guard group" in
          scheduleRestart kIntentRestartDelayMs
            (emit (IdentityUnsupported detail) (s <| identityUnsupported := true |>))
        else unexpectedExit gen wasConnected now s.

(** An exit report: its cause line first, then the exit. *)
Definition postExit (gen : Z) (failedToStart : bool) (exitCode : Z) (cause : qstring) (now : Z) (s : Sup) : Sup :=
  onCoreExited gen failedToStart exitCode now (noteCoreError gen cause s).

Definition postRestart (s : Sup) : Sup :=
  if negb (bool_decide (m_state s = Backoff)) || exiting s then s
  else postProcessRestart NoStop (setState Starting s).

Definition restartDeadCore (startWhenUpProfileId : Z) (s : Sup) : Sup :=
  if (negb (bool_decide (m_state s = Backoff)) && negb (bool_decide (m_state s = GaveUp))) || exiting s then s
  else postProcessRestart NoStop ((beginRestart s) <| m_startWhenUp := startWhenUpProfileId |>).

(** ** Events *)

Inductive Event :=
  | EStart (profileId : Z) | EShutdown | EKillForExit | EResetCore | ERestartNotListening (profileId : Z)
  | ERestartForGuard | EKillForPrivilegeChange | ESetStartWhenUp (profileId : Z) | ECancelResume
  | EConnection (pidOk : bool) (now : Z) | EProbed (gen : Z) (ok rpcUp : bool) (attempt : Z)
  | EProbeRetry (gen attempt : Z) | ESpawned (gen : Z)
  | EExit (gen : Z) (failedToStart : bool) (exitCode : Z) (cause : qstring) (now : Z)
  | EConnectTimer | ERestartTimer | ETask | EMainPost
  | EPrepareExit | EStartedId (profileId : Z) | ENotRunning.

(** A single-shot timer fires only while active; a queue gives its first. *)
Definition handle (e : Event) (s : Sup) : Sup :=
  match e with
  | EStart id => start id s
  | EShutdown => shutdown s
  | EKillForExit => killForExit s
  | EResetCore => (resetCore s).2
  | ERestartNotListening id => (restartNotListening id s).2
  | ERestartForGuard => restartForGuard s
  | EKillForPrivilegeChange => killForPrivilegeChange s
  | ESetStartWhenUp id => (setStartWhenUp id s).2
  | ECancelResume => cancelResume s
  | EConnection pidOk now => onNewConnection pidOk now s
  | EProbed gen ok rpcUp attempt => onPrivilegeProbed gen ok rpcUp attempt s
  | EProbeRetry gen attempt => probeRetryFired gen attempt s
  | ESpawned gen => onCoreSpawned gen s
  | EExit gen failed code cause now => postExit gen failed code cause now s
  | EConnectTimer =>
      match m_connectTimer s with Some _ => onConnectTimeout (s <| m_connectTimer := None |>) | None => s end
  | ERestartTimer =>
      match m_restartTimer s with Some _ => postRestart (s <| m_restartTimer := None |>) | None => s end
  | ETask => match dsTasks s with t :: ts => runTask t (s <| dsTasks := ts |>) | [] => s end
  | EMainPost =>
      match mainPosts s with
      | PostRestartDead :: ps => restartDeadCore (started_id s) (s <| mainPosts := ps |>)
      | [] => s
      end
  | EPrepareExit => s <| prepare_exit := true |>
  | EStartedId id => s <| started_id := id |>
  | ENotRunning => s <| core_running := false |>
  end.

Definition run (es : list Event) (s : Sup) : Sup := fold_left (fun s e => handle e s) es s.
End Supervisor.
