(* ===== verification/CoreSupervisorLaws.v ===== *)
(** * CoreSupervisorLaws: the promises of the restart policy

    The theorems about CoreSupervisor.v: an exit is handled once and its core
    never accepted again, shutting down is final, a pending restart always has
    its timer, a core that never connects is given up at the fifth exit, a
    profile that keeps bringing its core down is no longer resumed, and
    restarts that were asked for are not counted as failures. *)

From S2P Require Import Prelude Text CoreStderr CoreSupervisor CoreSupervisorProps.

Section Laws.
Context (isWin isGui : bool).

Abbreviation handle := (CoreSupervisor.handle isWin isGui).
Abbreviation run := (CoreSupervisor.run isWin isGui).

(** ** The handled generation only grows *)

Lemma setState_handled st s : m_handledExitGen (setState st s) = m_handledExitGen s.
Proof. unfold setState, emit. by case_match. Qed.

Lemma begin_handled s : m_handledExitGen (beginRestart s) = m_handledExitGen s.
Proof. unfold beginRestart. by rewrite setState_handled. Qed.

Lemma runTask_handled t s : m_handledExitGen (runTask t s) = m_handledExitGen s.
Proof. destruct t; simpl; repeat case_match; done. Qed.

Lemma drain_handled s : m_handledExitGen (drainTasks s) = m_handledExitGen s.
Proof.
  unfold drainTasks. transitivity (m_handledExitGen (s <| dsTasks := [] |>)); [|done].
  generalize (s <| dsTasks := [] |>). induction (dsTasks s) as [|t ts IH]; intros s0; [done|].
  simpl. by rewrite IH, runTask_handled.
Qed.

Lemma post_handled b s : m_handledExitGen s <= m_handledExitGen (postProcessRestart b s).
Proof. unfold postProcessRestart, postTask. simpl. lia. Qed.

Lemma unexpected_handled g c now s : m_handledExitGen (unexpectedExit isGui g c now s) = m_handledExitGen s.
Proof.
  unfold unexpectedExit. set (s1 := s <| m_failures := _ |>). set (s2 := if negb c then _ else s1).
  assert (E2 : m_handledExitGen s2 = m_handledExitGen s) by (unfold s2, s1; by destruct c).
  clearbody s2. destruct (profileCrash c now s2) as [often s3] eqn:E.
  assert (E3 : m_handledExitGen s3 = m_handledExitGen s)
    by (rewrite <- E2; unfold profileCrash in E; repeat case_match; simplify_eq; done).
  clear E. set (s4 := if c || _ then _ else s3).
  assert (E4 : m_handledExitGen s4 = m_handledExitGen s) by (rewrite <- E3; unfold s4; repeat case_match; done).
  clearbody s4. rewrite <- E4. case_match.
  - unfold emit at 1. simpl. by rewrite setState_handled.
  - unfold scheduleRestart. simpl. by rewrite setState_handled.
Qed.

Lemma noteCoreError_handled g line s : m_handledExitGen (noteCoreError g line s) = m_handledExitGen s.
Proof. unfold noteCoreError. by case_match. Qed.

Lemma exit_handled g failed code cause now s :
  m_handledExitGen (postExit isGui g failed code cause now s) = Z.max (m_handledExitGen s) g.
Proof.
  unfold postExit, onCoreExited. rewrite <- (noteCoreError_handled g cause s).
  generalize (noteCoreError g cause s). intros s1. destruct (Z.leb_spec g (m_handledExitGen s1)) as [H|H]; [lia|].
  set (probing := m_probing _ && _). set (s2 := if probing then _ else _).
  assert (E2 : m_handledExitGen s2 = g) by (unfold s2; by destruct probing).
  clearbody s2. replace (Z.max _ g) with g by lia. destruct (exiting s2); [done|].
  case_match; [|case_match].
  - unfold expectedExit, scheduleRestart. simpl. rewrite setState_handled. case_match; done.
  - unfold scheduleRestart. simpl. rewrite setState_handled. done.
  - rewrite unexpected_handled. done.
Qed.

Abbreviation grows s s' := (m_handledExitGen s <= m_handledExitGen s').

Lemma start_handled id s : grows s (start id s).
Proof. unfold start. case_match; [lia|]. unfold postTask. simpl. rewrite setState_handled. case_match; simpl; lia. Qed.

Lemma shutdown_handled s : grows s (shutdown s).
Proof.
  unfold shutdown. set (s0 := stopTimers _).
  assert (E : m_handledExitGen s0 = m_handledExitGen s)
    by (unfold s0, stopTimers; simpl; by rewrite setState_handled).
  clearbody s0. rewrite <- E, <- (drain_handled s0). generalize (drainTasks s0). intros s1. by case_match.
Qed.

Lemma killForExit_handled s : grows s (killForExit s).
Proof.
  unfold killForExit. rewrite <- (setState_handled ShuttingDown s). generalize (setState ShuttingDown s).
  intros s1. unfold postTask, stopTimers. simpl. lia.
Qed.

Lemma resetCore_handled s : grows s (resetCore s).2.
Proof.
  unfold resetCore. destruct (_ || _); [reflexivity|]. rewrite <- (begin_handled s) at 1.
  generalize (beginRestart s). intros s1. destruct (_ || _); cbn [snd]; [|unfold postTask; simpl; lia].
  etransitivity; [|apply post_handled]. simpl. lia.
Qed.

Lemma notListening_handled id s : grows s (restartNotListening id s).2.
Proof.
  unfold restartNotListening. destruct (_ || _); [reflexivity|]. rewrite <- (begin_handled s) at 1.
  generalize (beginRestart s). intros s1. cbn [snd]. etransitivity; [|apply post_handled]. simpl. lia.
Qed.

Lemma forGuard_handled s : grows s (restartForGuard s).
Proof.
  unfold restartForGuard. destruct (_ || _); [reflexivity|]. rewrite <- (begin_handled s) at 1. apply post_handled.
Qed.

Lemma dead_handled id s : grows s (restartDeadCore id s).
Proof.
  unfold restartDeadCore. destruct (_ || _); [reflexivity|]. rewrite <- (begin_handled s) at 1.
  generalize (beginRestart s). intros s1. etransitivity; [|apply post_handled]. simpl. lia.
Qed.

Lemma privilege_handled s : grows s (killForPrivilegeChange s).
Proof.
  unfold killForPrivilegeChange. destruct (_ || _); [reflexivity|]. destruct (_ || _); [simpl; lia|].
  rewrite <- (drain_handled s). generalize (drainTasks s). intros s1. by destruct (m_process s1).
Qed.

Lemma connection_handled pidOk now s : grows s (onNewConnection isWin pidOk now s).
Proof.
  unfold onNewConnection. destruct (m_process s) as [g|]; [|lia]. destruct (negb pidOk); [lia|].
  destruct (_ || _); [lia|]. set (s1 := _ <| core_running := true |>).
  assert (E1 : m_handledExitGen s1 = m_handledExitGen s) by done. clearbody s1. rewrite <- E1. clear E1.
  destruct (exiting s1); [lia|]. set (s2 := if m_acceptedGen s1 <? g then _ else s1).
  assert (E2 : m_handledExitGen s2 = m_handledExitGen s1) by (unfold s2; by case_match).
  clearbody s2. rewrite <- E2. set (s3 := setState Connected _).
  assert (E3 : m_handledExitGen s3 = m_handledExitGen s2) by (unfold s3; by rewrite setState_handled).
  clearbody s3. rewrite <- E3. destruct isWin; unfold emitCoreStarted, emit; simpl; lia.
Qed.

Lemma probed_handled g ok up attempt s : grows s (onPrivilegeProbed g ok up attempt s).
Proof. unfold onPrivilegeProbed, emitCoreStarted, emit. repeat case_match; simpl; lia. Qed.

Lemma timeout_handled s : grows s (onConnectTimeout s).
Proof. unfold onConnectTimeout, postTask. repeat case_match; simpl; lia. Qed.

Lemma postRestart_handled s : grows s (postRestart s).
Proof.
  unfold postRestart. destruct (_ || _); [reflexivity|]. rewrite <- (setState_handled Starting s) at 1.
  apply post_handled.
Qed.

Lemma handle_handled e s : grows s (handle e s).
Proof.
  destruct e; cbn [CoreSupervisor.handle].
  - apply start_handled.
  - apply shutdown_handled.
  - apply killForExit_handled.
  - apply resetCore_handled.
  - apply notListening_handled.
  - apply forGuard_handled.
  - apply privilege_handled.
  - unfold setStartWhenUp. case_match; simpl; lia.
  - unfold cancelResume, emit. simpl. lia.
  - apply connection_handled.
  - apply probed_handled.
  - unfold probeRetryFired, emit. case_match; simpl; lia.
  - unfold onCoreSpawned. case_match; simpl; lia.
  - rewrite exit_handled. lia.
  - case_match; [|lia]. etransitivity; [|apply timeout_handled]. simpl. lia.
  - case_match; [|lia]. etransitivity; [|apply postRestart_handled]. simpl. lia.
  - case_match; [lia|]. rewrite runTask_handled. simpl. lia.
  - case_match; [lia|]. case_match. etransitivity; [|apply dead_handled]. simpl. lia.
  - simpl. lia.
  - simpl. lia.
  - simpl. lia.
Qed.

Lemma run_handled es s : m_handledExitGen s <= m_handledExitGen (run es s).
Proof.
  revert s. induction es as [|e es IH]; intros s; [reflexivity|]. simpl.
  etransitivity; [apply (handle_handled e)|apply IH].
Qed.

(** A report of a generation already handled changes nothing. *)
Lemma exit_stale g failed code cause now s :
  g <= m_handledExitGen s -> postExit isGui g failed code cause now s = s.
Proof.
  intros H. unfold postExit, onCoreExited, noteCoreError. rewrite (proj2 (Z.leb_le _ _) H). simpl.
  by rewrite (proj2 (Z.leb_le _ _) H).
Qed.

(** A connection of a generation already handled is refused. *)
Lemma connection_stale g pidOk now s :
  m_process s = Some g -> g <= m_handledExitGen s -> onNewConnection isWin pidOk now s = s.
Proof.
  intros E H. unfold onNewConnection. rewrite E, (proj2 (Z.leb_le _ _) H). by destruct pidOk.
Qed.

(** C15: one exit of a core is reported on up to two paths, in either
    order.  Once an exit of generation [g] has been seen, whatever happens
    next, every later report of [g] or of an older generation changes
    nothing, and as long as the process is still that generation every
    connection it makes is refused. *)
Theorem exit_handled_once g failed code cause now es s :
  let s' := run (EExit g failed code cause now :: es) s in
  forall g', g' <= g ->
    (forall failed' code' cause' now', handle (EExit g' failed' code' cause' now') s' = s') /\
    (m_process s' = Some g' -> forall pidOk now', handle (EConnection pidOk now') s' = s').
Proof.
  intros s' g' Hg. assert (H : g' <= m_handledExitGen s').
  { etransitivity; [|apply (run_handled es)]. cbn [CoreSupervisor.handle]. rewrite exit_handled. lia. }
  split; intros.
  - by apply exit_stale.
  - by apply connection_stale with g'.
Qed.

(** C9: [shutdown] is final.  Whatever is delivered afterwards, a restart
    already queued, a timer, an exit report, a late connection or a request,
    the state stays [ShuttingDown], no further core is spawned, and nothing
    is announced any more: no start, no state change, no give-up. *)
Theorem shutdown_final es s :
  let s0 := shutdown s in
  let s' := run es s0 in
  m_state s' = ShuttingDown /\ m_process s' = m_process s0 /\
  exists new, signals s' = signals s0 ++ new /\ Forall quiet new.
Proof.
  intros s0 s'. destruct (run_down isWin isGui es s0 (shutdown_down s)) as ([E _] & E2 & E3). done.
Qed.

Lemma initial_timerOk err : timerOk (listen err initialSup).2.
Proof.
  unfold listen, setState, emit. destruct err; simpl; split_and!; simpl; done || lia.
Qed.

(** From the constructor on, after [listen] and any events, a core
    waiting in [Backoff] has its restart timer running, with a delay of 200 ms
    to 30 s, unless the application is exiting; and the timer firing then
    starts the core: the state becomes [Starting] and a restart is posted. *)
Theorem backoff_restarts err es :
  let s := run es (listen err initialSup).2 in
  (forall d, m_restartTimer s = Some d -> 200 <= d <= 30000) /\
  (m_state s = Backoff -> prepare_exit s = false ->
   is_Some (m_restartTimer s) /\
   let s' := handle ERestartTimer s in
   m_state s' = Starting /\ dsTasks s' = dsTasks s ++ [TaskRestart NoStop] /\
   m_restartTimer s' = None /\ m_restartCount s' = m_restartCount s + 1).
Proof.
  intros s. destruct (run_timerOk isWin isGui es _ (initial_timerOk err)) as (_ & _ & H3 & H4).
  fold s in H3, H4. split; [done|]. intros Hb Hp. destruct (H4 Hb) as [?|Ht]; [congruence|].
  split; [done|]. destruct Ht as [d Ht]. cbn [CoreSupervisor.handle]. rewrite Ht.
  unfold postRestart, exiting, postProcessRestart, setState, emit, postTask. simpl. rewrite Hb, Hp. simpl. done.
Qed.

(** ** A core that never connects *)

(** Core [g] is starting, after [k] failed starts in a row. *)
Record coreDown (s : Sup) (g k : Z) : Prop := MkCoreDown {
  down_state : m_state s = Starting; down_process : m_process s = Some g;
  down_failures : m_failures s = k; down_starts : m_startFailures s = k;
  down_handled : m_handledExitGen s < g; down_accepted : m_acceptedGen s < g; down_expected : m_expectedExitGen s < g;
  down_probing : m_probing s = false; down_exit : prepare_exit s = false; down_tasks : dsTasks s = [];
  down_timer : m_restartTimer s = None;
}.

(** An exit report, less its generation. *)
Record Exit := MkExit { failedToStart : bool; exitCode : Z; cause : qstring; at_ : Z }.

Definition reportOf (g : Z) (x : Exit) : Event := EExit g (failedToStart x) (exitCode x) (cause x) (at_ x).

(** Exits of the cores [g], [g+1], ... each followed by its restart. *)
Fixpoint failedStarts (g : Z) (xs : list Exit) : list Event :=
  match xs with
  | [] => []
  | x :: xs => [reportOf g x; ERestartTimer; ETask] ++ failedStarts (g + 1) xs
  end.

Lemma noteCoreError_frame g line s :
  exists e eg, noteCoreError g line s = s <| m_lastCoreErrorGen := eg |> <| m_lastCoreError := e |>.
Proof.
  unfold noteCoreError. case_match; [|by do 2 eexists].
  exists (m_lastCoreError s), (m_lastCoreErrorGen s). by destruct s.
Qed.

#[local] Arguments u : simpl never.
#[local] Arguments backoffDelay : simpl never.

(** Computes field accesses and updates, and the case analyses they decide. *)
Ltac sup_cbv :=
 cbv beta iota zeta delta [set_field
   set_m_state set_m_server set_m_process set_m_startWhenUp set_m_probing set_m_failures
   set_m_startFailures set_m_lastCoreError set_m_lastCoreErrorGen set_m_handledExitGen
   set_m_acceptedGen set_m_connectGen set_m_timedOutGen set_m_connectedAt set_m_profileCrashTimer
   set_m_lastFailure set_m_restartCount set_m_expectedExitGen set_m_restartTimer set_m_connectTimer
   set_dsTasks set_mainPosts set_signals set_started_id set_prepare_exit set_core_running
   set_identityUnsupported
   m_state m_server m_process m_startWhenUp m_probing m_failures m_startFailures m_lastCoreError
   m_lastCoreErrorGen m_handledExitGen m_acceptedGen m_connectGen m_timedOutGen m_connectedAt
   m_profileCrashTimer m_lastFailure m_restartCount m_expectedExitGen m_restartTimer m_connectTimer
   dsTasks mainPosts signals started_id prepare_exit core_running identityUnsupported
   negb andb orb fst snd].

(** Spells the state out. *)
Ltac open_state :=
  match goal with s : Sup |- _ => destruct s end; simpl in *; subst.

(** Computes the state [t] once, for all that is said of it. *)
Ltac name_result t :=
  pattern t;
  match goal with |- ?P _ => enough (exists s', t = s' /\ P s') as (? & -> & ?); [assumption|cbv beta] end.

(** Decides the comparisons of a generation with the ones seen before. *)
Ltac decide_gen :=
  repeat (match goal with
  | |- context [?a <=? ?b] => first [rewrite (proj2 (Z.leb_gt a b)) by lia | rewrite (proj2 (Z.leb_le a b)) by lia]
  | |- context [?a <? ?b] => first [rewrite (proj2 (Z.ltb_lt a b)) by lia | rewrite (proj2 (Z.ltb_ge a b)) by lia]
  | |- context [?a =? ?a] => rewrite (Z.eqb_refl a)
  | |- context [?a =? ?b] => rewrite (proj2 (Z.eqb_neq a b)) by lia
  | |- context [bool_decide (?x = ?x)] => rewrite (bool_decide_eq_true_2 (x = x)) by reflexivity
  | |- context [bool_decide ?P] => rewrite (bool_decide_eq_false_2 P) by discriminate
  end; sup_cbv).

(** The exit report of a state spelled out. *)
Ltac open_exit :=
  cbv beta iota zeta delta [CoreSupervisor.handle]; unfold postExit, onCoreExited, exiting;
  match goal with |- context [noteCoreError ?g ?l ?s] =>
    let e := fresh "e" in let eg := fresh "eg" in let E := fresh "E" in
    destruct (noteCoreError_frame g l s) as (e & eg & E); rewrite E; clear E end;
  sup_cbv.

(** The report of a core that is down reaches the counting. *)
Ltac open_down H x :=
  destruct H as [Hst Hpr Hf Hsf Hh Ha He Hpb Hex Hts Htm]; unfold reportOf; open_state; open_exit;
  destruct (failedToStart x); decide_gen; unfold unexpectedExit, profileCrash; sup_cbv;
  match goal with |- context [?w <? 0] => destruct (w <? 0) end; sup_cbv; unfold emit; sup_cbv.

(** Core [g] has exited and its successor waits [d] ms. *)
Record waiting (s : Sup) (g k d : Z) : Prop := MkWaiting {
  wait_state : m_state s = Backoff; wait_process : m_process s = Some g;
  wait_failures : m_failures s = k; wait_starts : m_startFailures s = k;
  wait_handled : m_handledExitGen s = g; wait_accepted : m_acceptedGen s <= g;
  wait_expected : m_expectedExitGen s <= g; wait_probing : m_probing s = false; wait_exit : prepare_exit s = false;
  wait_tasks : dsTasks s = []; wait_timer : m_restartTimer s = Some d;
}.

Lemma waiting_restart s g k d : waiting s g k d -> coreDown (run [ERestartTimer; ETask] s) (g + 1) k.
Proof.
  intros [Hst Hpr Hf Hsf Hh Ha He Hpb Hex Hts Htm].
  name_result (run [ERestartTimer; ETask] s).
  open_state. eexists. split.
  - cbn [fold_left CoreSupervisor.run CoreSupervisor.handle]. sup_cbv. unfold postRestart, exiting. decide_gen.
    unfold postProcessRestart, currentGeneration, setState, postTask, emit. decide_gen. unfold default. simpl app.
    unfold runTask. sup_cbv. reflexivity.
  - constructor; simpl; lia || done.
Qed.

Lemma failed_exit_waiting s g k x :
  coreDown s g k -> 0 <= k < 4 -> exitCode x <> kCoreIdentityExitCode ->
  waiting (handle (reportOf g x) s) g (k + 1) (kBackoffFirstMs * 2 ^ k).
Proof.
  intros H Hk Hx.
  assert (Hd : backoffDelay (k + 1) = kBackoffFirstMs * 2 ^ k).
  { unfold backoffDelay, kBackoffFirstMs, kBackoffCapMs. rewrite Z.shiftl_mul_pow2 by lia.
    assert (k = 0 \/ k = 1 \/ k = 2 \/ k = 3) as [->|[->|[->| ->]]] by lia; reflexivity. }
  assert (F : (kGiveUpAfter <=? k + 1) = false) by (unfold kGiveUpAfter; lia).
  name_result (handle (reportOf g x) s).
  open_down H x; rewrite F; sup_cbv; rewrite Hd; unfold scheduleRestart, setState, emit; decide_gen;
    (eexists; split; [reflexivity|]); constructor; simpl; lia || done.
Qed.

Lemma failed_exit_step s g k x :
  coreDown s g k -> 0 <= k < 4 -> exitCode x <> kCoreIdentityExitCode ->
  let s1 := handle (reportOf g x) s in
  m_state s1 = Backoff /\ m_restartTimer s1 = Some (kBackoffFirstMs * 2 ^ k) /\
  coreDown (run [ERestartTimer; ETask] s1) (g + 1) (k + 1).
Proof.
  intros H Hk Hx. cbv zeta. pose proof (failed_exit_waiting s g k x H Hk Hx) as Hw.
  split; [apply Hw|]. split; [apply Hw|]. by eapply waiting_restart.
Qed.

Lemma fifth_exit s g x :
  coreDown s g 4 -> exitCode x <> kCoreIdentityExitCode ->
  let s1 := handle (reportOf g x) s in
  m_state s1 = GaveUp /\ m_restartTimer s1 = None /\ m_startWhenUp s1 = -1 /\
  started_id s1 = NoProfileId /\ dsTasks s1 = [] /\ last (signals s1) = Some (CoreGaveUpSignal (m_lastFailure s1)).
Proof.
  intros H Hx. cbv zeta. name_result (handle (reportOf g x) s).
  open_down H x; change (kGiveUpAfter <=? 4 + 1) with true; sup_cbv; try destruct (_ <? 0);
    unfold emit, setState; decide_gen;
    (eexists; split; [reflexivity|]); simpl; split_and!; try done; by rewrite last_snoc.
Qed.

Lemma failed_starts_down xs s g k :
  coreDown s g k -> 0 <= k -> k + Z.of_nat (length xs) <= 4 ->
  Forall (fun x => exitCode x <> kCoreIdentityExitCode) xs ->
  let n := Z.of_nat (length xs) in coreDown (run (failedStarts g xs) s) (g + n) (k + n).
Proof.
  revert s g k. induction xs as [|x xs IH]; intros s g k H Hk Hn Hx; cbv zeta.
  { simpl. by rewrite !Z.add_0_r. }
  cbn [length] in *. apply Forall_cons in Hx as [Hx Hxs].
  destruct (failed_exit_step s g k x H) as (_ & _ & H1); [lia|done|].
  specialize (IH _ _ _ H1 ltac:(lia) ltac:(lia) Hxs). cbv zeta in IH.
  cbn [failedStarts]. rewrite run_app.
  replace (g + Z.of_nat (S (length xs))) with (g + 1 + Z.of_nat (length xs)) by lia.
  replace (k + Z.of_nat (S (length xs))) with (k + 1 + Z.of_nat (length xs)) by lia. exact IH.
Qed.

(** C5: a core that never connects.  From a starting core [g], however
    its attempts end (failed to start, any code but the identity one, any
    cause, any time): each of the first four exits is followed by a backoff
    of 500, 1000, 2000 and 4000 ms and, when the timer fires, by the next
    core; the fifth gives up.  Then no restart is pending and the waiting
    start is dropped, so nothing runs until somebody asks, and the reason is
    the last thing announced. *)
Theorem dead_core_given_up s g xs x :
  coreDown s g 0 -> length xs = 4%nat ->
  Forall (fun x => exitCode x <> kCoreIdentityExitCode) (xs ++ [x]) ->
  (forall i y, xs !! i = Some y ->
     let si := run (failedStarts g (take i xs) ++ [reportOf (g + Z.of_nat i) y]) s in
     m_state si = Backoff /\ m_restartTimer si = Some (500 * 2 ^ Z.of_nat i)) /\
  m_process (run (failedStarts g xs) s) = Some (g + 4) /\
  let s5 := run (failedStarts g xs ++ [reportOf (g + 4) x]) s in
  m_state s5 = GaveUp /\ m_restartTimer s5 = None /\ m_startWhenUp s5 = -1 /\
  started_id s5 = NoProfileId /\ dsTasks s5 = [] /\ last (signals s5) = Some (CoreGaveUpSignal (m_lastFailure s5)).
Proof.
  intros H Hl Hx. apply Forall_app in Hx as [Hxs Hx]. rewrite Forall_singleton in Hx.
  pose proof (failed_starts_down xs s g 0 H ltac:(lia) ltac:(lia) Hxs) as H4.
  rewrite Hl in H4. change (coreDown (run (failedStarts g xs) s) (g + 4) 4) in H4.
  split; [|split; [apply H4|cbv zeta; rewrite run_app; exact (fifth_exit _ _ _ H4 Hx)]].
  intros i y Hi. cbv zeta. rewrite run_app. pose proof (lookup_lt_Some _ _ _ Hi) as Hlt.
  pose proof (failed_starts_down (take i xs) s g 0 H ltac:(lia)
    ltac:(rewrite length_take; lia) ltac:(by apply Forall_take)) as Hd.
  rewrite length_take, Nat.min_l in Hd by lia. cbv zeta in Hd. rewrite Z.add_0_l in Hd.
  destruct (failed_exit_step _ _ _ y Hd) as (E1 & E2 & _); [lia|exact (Forall_lookup_1 _ _ _ _ Hxs Hi)|].
  done.
Qed.

(** ** Restarts that were asked for *)

(** Core [g] is up or starting, with nothing pending. *)
Record coreUp (s : Sup) (g : Z) : Prop := MkCoreUp {
  up_state : m_state s = Starting \/ m_state s = Connected; up_process : m_process s = Some g;
  up_handled : m_handledExitGen s < g; up_accepted : m_acceptedGen s <= g; up_expected : m_expectedExitGen s <= g;
  up_timedOut : m_timedOutGen s <= g; up_probing : m_probing s = true -> m_acceptedGen s = g;
  up_exit : prepare_exit s = false; up_tasks : dsTasks s = [];
}.

(** The exit of a core killed on purpose is expected. *)
Lemma killed_exit s g x :
  coreUp s g -> m_expectedExitGen s = g ->
  let s' := handle (reportOf g x) s in
  waiting s' g 0 kIntentRestartDelayMs /\ started_id s' = started_id s /\
  m_startWhenUp s' =
    (if m_probing s && (0 <=? m_startWhenUp s) then m_startWhenUp s else started_id s) /\
  signals s' = signals s ++ [StateChanged Backoff].
Proof.
  intros [Hst Hpr Hh Ha He Hto Hpb Hex Hts] Heq. cbv zeta. name_result (handle (reportOf g x) s).
  open_state. unfold reportOf. open_exit.
  destruct m_probing; [specialize (Hpb eq_refl); subst|clear Hpb].
  - destruct (Z.leb_spec 0 m_startWhenUp); destruct Hst as [-> | ->]; decide_gen; unfold expectedExit; sup_cbv; decide_gen;
      unfold scheduleRestart, setState, emit; decide_gen; (eexists; split; [reflexivity|]); simpl; split_and!; try done; constructor; simpl; lia || done.
  - destruct Hst as [-> | ->]; decide_gen; unfold expectedExit; sup_cbv; decide_gen;
      unfold scheduleRestart, setState, emit; decide_gen; (eexists; split; [reflexivity|]); simpl; split_and!; try done; constructor; simpl; lia || done.
Qed.

Lemma reset_killed s g :
  coreUp s g ->
  let s' := run [EResetCore; ETask] s in
  coreUp s' g /\ m_expectedExitGen s' = g /\ started_id s' = NoProfileId /\ m_probing s' = false /\
  signals s' = signals s ++ (if bool_decide (m_state s = Connected) then [StateChanged Starting] else []) ++
               [ProfileStopped StopCrash; ProcessKilled].
Proof.
  intros [Hst Hpr Hh Ha He Hto Hpb Hex Hts]. cbv zeta. name_result (run [EResetCore; ETask] s).
  open_state. unfold CoreSupervisor.run. cbn [fold_left]. cbn [CoreSupervisor.handle].
  unfold resetCore, canStartCore, exiting.
  destruct Hst as [-> | ->]; decide_gen; unfold beginRestart, stopTimers, setState, postTask, emit; decide_gen; simpl app;
    sup_cbv; unfold runTask, emit; sup_cbv; (eexists; split; [reflexivity|]); simpl; rewrite <- ?app_assoc;
    split_and!; try done; constructor; simpl; lia || auto.
Qed.

Lemma privilege_killed s g :
  coreUp s g ->
  let s' := handle EKillForPrivilegeChange s in
  coreUp s' g /\ m_expectedExitGen s' = g /\ started_id s' = started_id s /\ m_probing s' = m_probing s /\
  m_startWhenUp s' = m_startWhenUp s /\ signals s' = signals s ++ [ProcessKilled].
Proof.
  intros [Hst Hpr Hh Ha He Hto Hpb Hex Hts]. cbv zeta. name_result (handle EKillForPrivilegeChange s).
  open_state. cbn [CoreSupervisor.handle]. unfold killForPrivilegeChange, drainTasks.
  destruct Hst as [-> | ->]; decide_gen; simpl fold_left; unfold emit; sup_cbv; (eexists; split; [reflexivity|]); simpl;
    split_and!; try done; constructor; simpl; lia || auto.
Qed.

(** Restarts that were asked for.  When a user resets the core, and
    when a privilege change kills it, the exit that follows, whatever it
    reports, is not counted: the failure counters are zero, neither an exit
    nor a give-up is announced, and the next core starts after 200 ms.
    A reset resumes nothing; a privilege change resumes the started profile,
    or the start still waiting for a core that was being probed. *)
Theorem intentional_restart s g x :
  coreUp s g ->
  (let s1 := run [EResetCore; ETask; reportOf g x] s in
   waiting s1 g 0 200 /\ m_startWhenUp s1 = NoProfileId /\ started_id s1 = NoProfileId /\
   signals s1 = signals s ++ (if bool_decide (m_state s = Connected) then [StateChanged Starting] else []) ++
                [ProfileStopped StopCrash; ProcessKilled; StateChanged Backoff] /\
   coreDown (run [ERestartTimer; ETask] s1) (g + 1) 0) /\
  (let s2 := run [EKillForPrivilegeChange; reportOf g x] s in
   waiting s2 g 0 200 /\ started_id s2 = started_id s /\
   m_startWhenUp s2 = (if m_probing s && (0 <=? m_startWhenUp s) then m_startWhenUp s else started_id s) /\
   signals s2 = signals s ++ [ProcessKilled; StateChanged Backoff] /\
   coreDown (run [ERestartTimer; ETask] s2) (g + 1) 0).
Proof.
  intros H. split; cbv zeta.
  - destruct (reset_killed s g H) as (H1 & E1 & S1 & P1 & G1). cbv zeta in *.
    change [EResetCore; ETask; reportOf g x] with ([EResetCore; ETask] ++ [reportOf g x]). rewrite run_app.
    destruct (killed_exit _ g x H1 E1) as (W & S2 & U & G2).
    split; [exact W|]. split; [|split; [|split]].
    + etransitivity; [exact U|]. by rewrite P1, S1.
    + etransitivity; [exact S2|exact S1].
    + etransitivity; [exact G2|]. rewrite G1, <- !app_assoc. done.
    + by eapply waiting_restart.
  - destruct (privilege_killed s g H) as (H1 & E1 & S1 & P1 & U1 & G1). cbv zeta in *.
    destruct (killed_exit _ g x H1 E1) as (W & S2 & U & G2).
    split; [exact W|]. split; [|split; [|split]].
    + etransitivity; [exact S2|exact S1].
    + etransitivity; [exact U|]. by rewrite P1, S1, U1.
    + etransitivity; [exact G2|]. rewrite G1, <- !app_assoc. done.
    + by eapply waiting_restart.
Qed.

(** ** A profile that brings its core down *)

(** Core [g] serves profile [id]; its last exit under a profile was at [t]. *)
Record serving (s : Sup) (g id : Z) (t : option Z) : Prop := MkServing {
  serving_state : m_state s = Connected; serving_process : m_process s = Some g;
  serving_accepted : m_acceptedGen s = g; serving_handled : m_handledExitGen s < g;
  serving_expected : m_expectedExitGen s < g; serving_timedOut : m_timedOutGen s <= g;
  serving_probing : m_probing s = false; serving_exiting : prepare_exit s = false; serving_tasks : dsTasks s = [];
  serving_id : started_id s = id; serving_crash : m_profileCrashTimer s = t;
}.

(** The core of a profile [id] has exited at [now] and the profile waits for the next core. *)
Record resuming (s : Sup) (g id now : Z) : Prop := MkResuming {
  resuming_state : m_state s = Backoff; resuming_process : m_process s = Some g;
  resuming_timer : is_Some (m_restartTimer s); resuming_accepted : m_acceptedGen s <= g;
  resuming_handled : m_handledExitGen s = g; resuming_expected : m_expectedExitGen s < g;
  resuming_timedOut : m_timedOutGen s <= g; resuming_probing : m_probing s = false;
  resuming_exiting : prepare_exit s = false; resuming_tasks : dsTasks s = []; resuming_started : started_id s = id;
  resuming_waiting : m_startWhenUp s = id; resuming_crash : m_profileCrashTimer s = Some now;
}.

Definition crashedOften (t : option Z) (now : Z) : bool :=
  match t with Some since => now - since <? kProfileCrashWindowMs | None => false end.

Lemma serving_exit s g id t code cause now :
  serving s g id t -> 0 <= id ->
  let s' := handle (EExit g false code cause now) s in
  if crashedOften t now then m_startWhenUp s' = -1 /\ started_id s' = NoProfileId /\ m_profileCrashTimer s' = None
  else resuming s' g id now.
Proof.
  intros [Hst Hpr Ha Hh He Hto Hpb Hex Hts Hid Hct] H0. cbv zeta. name_result (handle (EExit g false code cause now) s).
  open_state. open_exit. decide_gen. unfold unexpectedExit, profileCrash, crashedOften. sup_cbv.
  match goal with |- context [(if ?c then 0 else ?f) + 1] => generalize ((if c then 0 else f) + 1); intros n end.
  destruct t as [since|]; [destruct (now - since <? kProfileCrashWindowMs)|]; sup_cbv; decide_gen; unfold emit at 1; sup_cbv.
  - destruct (kGiveUpAfter <=? n); decide_gen; sup_cbv; unfold scheduleRestart, setState, emit; decide_gen;
      (eexists; split; [reflexivity|]); done.
  - destruct (kGiveUpAfter <=? n); decide_gen; sup_cbv; unfold scheduleRestart, setState, emit; decide_gen;
      (eexists; split; [reflexivity|]); constructor; simpl; lia || by eauto.
  - destruct (kGiveUpAfter <=? n); decide_gen; sup_cbv; unfold scheduleRestart, setState, emit; decide_gen;
      (eexists; split; [reflexivity|]); constructor; simpl; lia || by eauto.
Qed.

(** Core [g] has been started for profile [id]. *)
Record upcoming (s : Sup) (g id : Z) (t : option Z) : Prop := MkUpcoming {
  upcoming_state : m_state s = Starting; upcoming_process : m_process s = Some g;
  upcoming_accepted : m_acceptedGen s < g; upcoming_handled : m_handledExitGen s < g;
  upcoming_expected : m_expectedExitGen s < g; upcoming_timedOut : m_timedOutGen s < g;
  upcoming_probing : m_probing s = false; upcoming_exiting : prepare_exit s = false; upcoming_tasks : dsTasks s = [];
  upcoming_started : started_id s = id; upcoming_waiting : m_startWhenUp s = id;
  upcoming_crash : m_profileCrashTimer s = t;
}.

Lemma resuming_restart s g id now :
  resuming s g id now -> upcoming (run [ERestartTimer; ETask] s) (g + 1) id (Some now).
Proof.
  intros [Hst Hpr [d Htm] Ha Hh He Hto Hpb Hex Hts Hid Hw Hct]. name_result (run [ERestartTimer; ETask] s).
  open_state. eexists. split.
  - cbn [fold_left CoreSupervisor.run CoreSupervisor.handle]. sup_cbv. unfold postRestart, exiting. decide_gen.
    unfold postProcessRestart, currentGeneration, setState, postTask, emit. decide_gen. unfold default. simpl app.
    unfold runTask. sup_cbv. reflexivity.
  - constructor; simpl; lia || done.
Qed.

(** A new core is accepted. *)
Lemma connection_accept s g now :
  m_process s = Some g -> m_handledExitGen s < g -> m_timedOutGen s < g -> m_acceptedGen s < g ->
  m_state s <> Connected -> exiting s = false ->
  onNewConnection isWin true now s =
    let s1 := emit (StateChanged Connected)
      ((emit RpcConnected s) <| core_running := true |> <| m_acceptedGen := g |> <| m_connectedAt := Some now |>
         <| m_connectTimer := None |> <| m_state := Connected |>) in
    if isWin then emitCoreStarted s1 else emit (ProbeStarted g 0) (s1 <| m_probing := true |>).
Proof.
  intros E1 E2 E3 E4 E5 E6. unfold onNewConnection. rewrite E1. simpl negb. cbv iota.
  rewrite (proj2 (Z.leb_gt g _)), (proj2 (Z.leb_gt g _)) by done. simpl orb. cbv iota zeta.
  match goal with |- context [if exiting ?x then _ else _] => change (exiting x) with (exiting s) end.
  rewrite E6. match goal with |- context [?a <? g] => change a with (m_acceptedGen s) end.
  rewrite (proj2 (Z.ltb_lt _ _)) by done. unfold setState.
  match goal with |- context [bool_decide (?a = Connected)] => change a with (m_state s) end.
  rewrite bool_decide_eq_false_2 by done. reflexivity.
Qed.

(** It answers the probe, and gets the profile. *)
Lemma probe_answered s g rpcUp :
  m_probing s = true -> m_acceptedGen s = g -> m_state s = Connected -> exiting s = false ->
  onPrivilegeProbed g true rpcUp 0 s = emitCoreStarted (s <| m_probing := false |>).
Proof.
  intros E1 E2 E3 E4. unfold onPrivilegeProbed. rewrite E1, E2, E3, E4, !Z.eqb_refl. done.
Qed.

Lemma probe_not_pending s g ok rpcUp : m_probing s = false -> onPrivilegeProbed g ok rpcUp 0 s = s.
Proof. intros E. unfold onPrivilegeProbed. by rewrite E. Qed.

Lemma upcoming_serves s g id t now rpcUp :
  upcoming s g id t ->
  let s' := run [EConnection true now; EProbed g true rpcUp 0] s in
  serving s' g id t /\ last (signals s') = Some (CoreStarted id).
Proof.
  intros [Hst Hpr Ha Hh He Hto Hpb Hex Hts Hid Hw Hct]. cbv zeta.
  name_result (run [EConnection true now; EProbed g true rpcUp 0] s).
  cbn [fold_left CoreSupervisor.run CoreSupervisor.handle].
  rewrite (connection_accept s g now) by (done || congruence || (unfold exiting; by rewrite Hst)).
  cbv zeta. open_state. unfold emit. sup_cbv. destruct isWin.
  - unfold emitCoreStarted, emit. sup_cbv. rewrite probe_not_pending by done. eexists. split; [reflexivity|]. split.
    + constructor; simpl; lia || done.
    + simpl. by rewrite last_snoc.
  - rewrite probe_answered by done. unfold emitCoreStarted, emit. sup_cbv. eexists. split; [reflexivity|]. split.
    + constructor; simpl; lia || done.
    + simpl. by rewrite last_snoc.
Qed.

(** A connected core that exits resumes its profile: the next core
    is started, accepted, and sent the same profile.  If that core too exits,
    within ten seconds of the first exit, the profile is blamed: it is neither
    started again nor remembered as the started one; after ten seconds it is
    resumed once more. *)
Theorem profile_crash_window s g id code cause now code' cause' now' up rpcUp :
  serving s g id None -> 0 <= id ->
  let s1 := run [EExit g false code cause now; ERestartTimer; ETask; EConnection true up;
                 EProbed (g + 1) true rpcUp 0] s in
  serving s1 (g + 1) id (Some now) /\ last (signals s1) = Some (CoreStarted id) /\
  let s2 := handle (EExit (g + 1) false code' cause' now') s1 in
  if now' - now <? 10000
  then m_startWhenUp s2 = -1 /\ started_id s2 = NoProfileId /\ m_profileCrashTimer s2 = None
  else resuming s2 (g + 1) id now'.
Proof.
  intros H H0. cbv zeta.
  change [EExit g false code cause now; ERestartTimer; ETask; EConnection true up; EProbed (g + 1) true rpcUp 0]
    with ([EExit g false code cause now] ++ [ERestartTimer; ETask] ++ [EConnection true up; EProbed (g + 1) true rpcUp 0]).
  rewrite !run_app. pose proof (serving_exit s g id None code cause now H H0) as H1.
  change (resuming (run [EExit g false code cause now] s) g id now) in H1.
  apply resuming_restart in H1. apply (upcoming_serves _ _ _ _ up rpcUp) in H1 as [H2 H3].
  split; [exact H2|]. split; [exact H3|].
  exact (serving_exit _ _ _ _ code' cause' now' H2 H0).
Qed.
End Laws.

(** ** Instances *)

(** A first core, started for profile 7. *)
Definition firstCore : Sup := run false false [EStart 7; ETask; EStartedId 7] (listen None initialSup).2.

(** The same core, accepted and serving. *)
Definition firstServing : Sup := run false false [EConnection true 0; EProbed 1 true true 0] firstCore.

Lemma firstCore_down : coreDown firstCore 1 0.
Proof. constructor; reflexivity. Qed.

Lemma firstServing_serving : serving firstServing 1 7 None.
Proof. constructor; reflexivity || (vm_compute; discriminate). Qed.

Lemma dead_core_given_up_witness :
  let x := MkExit false 1 (u "bind: address in use") 100 in
  m_process (run false false (failedStarts 1 [x; x; x; x]) firstCore) = Some 5 /\
  m_state (run false false (failedStarts 1 [x; x; x; x] ++ [reportOf 5 x]) firstCore) = GaveUp.
Proof.
  cbv zeta. pose proof (dead_core_given_up false false firstCore 1
    (replicate 4 (MkExit false 1 (u "bind: address in use") 100)) (MkExit false 1 (u "bind: address in use") 100)
    firstCore_down eq_refl ltac:(repeat constructor; discriminate)) as (_ & H1 & H2 & _).
  split; [exact H1|exact H2].
Defined.

Lemma backoff_restarts_witness :
  let s := run false false [EStart 7; ETask; EExit 1 true (-1) [] 5] (listen None initialSup).2 in
  m_restartTimer s = Some 500 /\ m_state (handle false false ERestartTimer s) = Starting.
Proof.
  cbv zeta. destruct (backoff_restarts false false None [EStart 7; ETask; EExit 1 true (-1) [] 5]) as [_ H].
  destruct (H ltac:(vm_compute; reflexivity) ltac:(vm_compute; reflexivity)) as (_ & H1 & _).
  split; [vm_compute; reflexivity|exact H1].
Defined.

Lemma exit_handled_once_witness :
  let s := run false false [EExit 1 false 1 (u "boom") 50; ERestartTimer; ETask] firstServing in
  handle false false (EExit 1 true (-1) [] 60) s = s.
Proof.
  assert (H : 1 <= 1) by lia.
  pose proof (exit_handled_once false false 1 false 1 (u "boom") 50 [ERestartTimer; ETask] firstServing 1 H) as [H1 _].
  exact (H1 true (-1) [] 60).
Defined.

Lemma intentional_restart_witness :
  m_startWhenUp (run false false [EResetCore; ETask; EExit 1 false 0 [] 9] firstServing) = NoProfileId /\
  m_startWhenUp (run false false [EKillForPrivilegeChange; EExit 1 false 0 [] 9] firstServing) = 7.
Proof.
  destruct (intentional_restart false false firstServing 1 (MkExit false 0 [] 9)) as [(_ & H1 & _) (_ & _ & H2 & _)].
  - constructor; try reflexivity; try (vm_compute; discriminate). by right.
  - split; [exact H1|etransitivity; [exact H2|reflexivity]].
Defined.

Lemma profile_crash_window_witness :
  let s1 := run false false [EExit 1 false 2 [] 1000; ERestartTimer; ETask; EConnection true 1500;
                 EProbed 2 true true 0] firstServing in
  last (signals s1) = Some (CoreStarted 7) /\
  started_id (handle false false (EExit 2 false 2 [] 9000) s1) = NoProfileId /\
  started_id (handle false false (EExit 2 false 2 [] 90000) s1) = 7.
Proof.
  cbv zeta. pose proof (profile_crash_window false false firstServing 1 7 2 [] 1000 2 [] 9000 1500 true
    firstServing_serving ltac:(lia)) as H1. cbv zeta in H1. change (9000 - 1000 <? 10000) with true in H1.
  pose proof (profile_crash_window false false firstServing 1 7 2 [] 1000 2 [] 90000 1500 true
    firstServing_serving ltac:(lia)) as H2. cbv zeta in H2. change (90000 - 1000 <? 10000) with false in H2.
  split; [exact (proj1 (proj2 H1))|]. split; [exact (proj1 (proj2 (proj2 (proj2 H1))))|].
  exact (resuming_started _ _ _ _ (proj2 (proj2 H2))).
Defined.
