(* ===== verification/LogBuffer.v ===== *)
(** * LogBuffer: the user log kept in memory

    src/global/LogBuffer.cpp and include/global/LogBuffer.hpp: the ring behind
    the API's log endpoint.  The ring is [Ring]; [BufferUserLog] appends the
    lines of a chunk and evicts from the front; the readers slice it.  The
    theorems relate the ring to the whole history of logged lines: it holds the
    longest suffix within the two limits, and the readers page through it. *)

From S2P Require Import Prelude Text.

Definition kMaxLines : Z := 5000.
Definition kMaxBytes : Z := 4 * 1024 * 1024.
Definition kMaxLineLength : Z := 8192.

Record BufferedLine := Line { seq : Z; time : Z; text : qstring }.

Record BufferedSlice := Slice { slines : list BufferedLine; newestSeq : Z; oldestSeq : Z; more : bool }.

Record Ring := MkRing { lines : list BufferedLine; bytes : Z; lastSeq : Z }.

Definition emptyRing : Ring := MkRing [] 0 0.

(** [sizeof(QChar)] is 2. *)
Definition textBytes (text : qstring) : Z := Z.of_nat (length text) * 2.

Definition isHighSurrogate (c : qchar) : bool := (55296 <=? c) && (c <=? 56319).

Definition clipped (line : qstring) : qstring :=
  if Z.of_nat (length line) <=? kMaxLineLength then line
  else
    let keep := kMaxLineLength - 1 in
    let keep := if isHighSurrogate (List.nth (Z.to_nat (keep - 1)) line 0) then keep - 1 else keep in
    take (Z.to_nat keep) line ++ [8230].

Definition slice (ring : Ring) (first : nat) (limit : Z) : BufferedSlice :=
  let end_ := Nat.min (length (lines ring)) (first + Z.to_nat (Z.max limit 0)) in
  Slice (take (end_ - first) (drop first (lines ring)))
    (lastSeq ring) (match lines ring with l :: _ => seq l | [] => 0 end)
    (end_ <? length (lines ring))%nat.

(** The lines of a chunk: split at newlines, a trailing CR removed, empty ones dropped. *)
Definition chopReturn (line : qstring) : qstring := if endsWithChar line 13 then removelast line else line.

Definition chunkTexts (chunk : qstring) : list qstring :=
  map clipped (filter (fun line => line <> []) (map chopReturn (splitOn 10 chunk))).

(** The eviction loop; it runs at most once per held line. *)
Fixpoint evict (ls : list BufferedLine) (bytes : Z) : list BufferedLine * Z :=
  if (kMaxLines <? Z.of_nat (length ls)) || (kMaxBytes <? bytes) then
    match ls with
    | l :: ls => evict ls (bytes - textBytes (text l))
    | [] => ([], bytes)
    end
  else (ls, bytes).

Definition pushLine (now : Z) (ring : Ring) (t : qstring) : Ring :=
  let last := u64 (lastSeq ring + 1) in
  let '(ls, bs) := evict (lines ring ++ [Line last now t]) (bytes ring + textBytes t) in
  MkRing ls bs last.

Definition BufferUserLog (chunk : qstring) (now : Z) (ring : Ring) : Ring :=
  fold_left (pushLine now) (chunkTexts chunk) ring.

Definition BufferedLinesAfter (after limit : Z) (ring : Ring) : BufferedSlice :=
  match lines ring with
  | [] => slice ring 0 limit
  | front :: _ =>
      if lastSeq ring <=? after then slice ring (length (lines ring)) limit
      else slice ring (if after <? seq front then 0 else Z.to_nat (after - seq front + 1)) limit
  end.

Definition BufferedTail (limit : Z) (ring : Ring) : BufferedSlice :=
  let count := Nat.min (length (lines ring)) (Z.to_nat (Z.max limit 0)) in
  slice ring (length (lines ring) - count)%nat limit.

Definition BufferedNewestSeq (ring : Ring) : Z := lastSeq ring.

(** ** The history the ring abstracts *)

(** Every text logged so far, with its time. *)
Definition history := list (Z * qstring).

(** What a sequence of [BufferUserLog] calls logs. *)
Definition logged (calls : list (qstring * Z)) : history :=
  calls ≫= fun c => map (pair c.2) (chunkTexts c.1).

Definition runLog (calls : list (qstring * Z)) (ring : Ring) : Ring :=
  fold_left (fun r c => BufferUserLog c.1 c.2 r) calls ring.

(** Line [n] (from 1) of a history. *)
Definition numbered (n : Z) (h : history) : list BufferedLine :=
  imap (fun i e => Line (n + Z.of_nat i) e.1 e.2) h.

Definition sumBytes (h : history) : Z := fold_right (fun e a => textBytes e.2 + a) 0 h.

Definition fits (h : history) : Prop := Z.of_nat (length h) <= kMaxLines /\ sumBytes h <= kMaxBytes.

(** The ring holds the longest suffix of the history that fits. *)
Definition holds (r : Ring) (h : history) : Prop :=
  exists k, (k <= length h)%nat /\
    lines r = numbered (Z.of_nat k + 1) (drop k h) /\ bytes r = sumBytes (drop k h) /\
    lastSeq r = Z.of_nat (length h) /\ fits (drop k h) /\ forall k', (k' < k)%nat -> ~ fits (drop k' h).

Lemma sumBytes_app a b : sumBytes (a ++ b) = sumBytes a + sumBytes b.
Proof. induction a as [|e a IH]; simpl; [done|]. fold (sumBytes (a ++ b)) (sumBytes a). lia. Qed.

Lemma textBytes_nonneg t : 0 <= textBytes t.
Proof. unfold textBytes. lia. Qed.

Lemma sumBytes_nonneg h : 0 <= sumBytes h.
Proof. induction h as [|e h IH]; simpl; [done|]. pose proof (textBytes_nonneg e.2). fold (sumBytes h). lia. Qed.

Lemma numbered_length n h : length (numbered n h) = length h.
Proof. apply length_imap. Qed.

Lemma numbered_cons n e h : numbered n (e :: h) = Line n e.1 e.2 :: numbered (n + 1) h.
Proof.
  unfold numbered. simpl. f_equal; [f_equal; lia|]. apply imap_ext. intros i x _. simpl. f_equal. lia.
Qed.

Lemma numbered_app n a b : numbered n (a ++ b) = numbered n a ++ numbered (n + Z.of_nat (length a)) b.
Proof.
  unfold numbered. rewrite imap_app. f_equal. apply imap_ext. intros i x _. simpl. f_equal. lia.
Qed.

Lemma numbered_take m n h : take m (numbered n h) = numbered n (take m h).
Proof.
  revert n h. induction m as [|m IH]; intros n [|e h]; try done.
  rewrite numbered_cons. cbn [take]. rewrite numbered_cons. f_equal. apply IH.
Qed.

Lemma numbered_drop m n h : (m <= length h)%nat -> drop m (numbered n h) = numbered (n + Z.of_nat m) (drop m h).
Proof.
  revert n h. induction m as [|m IH]; intros n h Hm; [by rewrite Z.add_0_r|].
  destruct h as [|e h]; [done|]. rewrite numbered_cons. cbn [drop]. simpl in Hm. rewrite IH by lia. f_equal. lia.
Qed.

(** The loop stops at the first suffix that fits. *)
Lemma evict_spec n h :
  exists k, (k <= length h)%nat /\ evict (numbered n h) (sumBytes h) =
    (numbered (n + Z.of_nat k) (drop k h), sumBytes (drop k h)) /\
    fits (drop k h) /\ forall k', (k' < k)%nat -> ~ fits (drop k' h).
Proof.
  revert n. induction h as [|e h IH]; intros n.
  { exists 0%nat. split; [done|]. split; [done|]. split; [unfold fits, kMaxLines, kMaxBytes; simpl; lia|]. lia. }
  rewrite numbered_cons. cbn [evict]. cbn [length]. rewrite numbered_length.
  destruct (kMaxLines <? Z.of_nat (S (length h))) eqn:E1; rewrite ?orb_true_l, ?orb_false_l; [|destruct (kMaxBytes <? sumBytes (e :: h)) eqn:E2].
  1, 2: destruct (IH (n + 1)) as (k & Hk & E & Hf & Hmin); exists (S k);
    (split; [simpl; lia|]); replace (sumBytes (e :: h) - _) with (sumBytes h) by (simpl; lia);
    rewrite E; cbn [drop]; (split; [by replace (n + 1 + Z.of_nat k) with (n + Z.of_nat (S k)) by lia|]);
    (split; [done|]); intros [|k'] Hk'; [|apply Hmin; lia]; unfold fits; simpl.
  - apply Z.ltb_lt in E1. lia.
  - apply Z.ltb_lt in E2. simpl in E2. lia.
  - exists 0%nat. cbn [drop]. rewrite numbered_cons. rewrite !Z.add_0_r.
    split; [lia|]. split; [done|]. split; [|lia]. apply Z.ltb_ge in E1. apply Z.ltb_ge in E2. by split.
Qed.

Lemma fits_tail k h : fits h -> fits (drop k h).
Proof.
  intros [H1 H2]. split; [rewrite length_drop; lia|].
  rewrite <- (take_drop k h), sumBytes_app in H2. pose proof (sumBytes_nonneg (take k h)). lia.
Qed.

Lemma fits_app_inv h e : fits (h ++ e) -> fits h.
Proof.
  intros [H1 H2]. rewrite length_app in H1. rewrite sumBytes_app in H2. pose proof (sumBytes_nonneg e). split; lia.
Qed.

Lemma pushLine_holds now r h t :
  holds r h -> Z.of_nat (length h) + 1 < 2 ^ 64 -> holds (pushLine now r t) (h ++ [(now, t)]).
Proof.
  intros (k & Hk & El & Eb & Es & Hf & Hmin) Hn. unfold pushLine. rewrite Es.
  replace (u64 (Z.of_nat (length h) + 1)) with (Z.of_nat (length h) + 1)
    by (unfold wrap; rewrite Z.mod_small; lia).
  rewrite El, Eb.
  replace (numbered _ (drop k h) ++ _) with (numbered (Z.of_nat k + 1) (drop k h ++ [(now, t)])).
  2: { rewrite numbered_app. f_equal. rewrite length_drop. unfold numbered. simpl. f_equal. f_equal. lia. }
  replace (sumBytes (drop k h) + textBytes t) with (sumBytes (drop k h ++ [(now, t)])) by (rewrite sumBytes_app; simpl; lia).
  destruct (evict_spec (Z.of_nat k + 1) (drop k h ++ [(now, t)])) as (j & Hj & E & Hfj & Hminj). rewrite E.
  assert (Ed : forall i, drop i (drop k h ++ [(now, t)]) = drop (k + i) (h ++ [(now, t)])).
  { intros i. rewrite <- drop_drop. f_equal. symmetry. apply drop_app_le. lia. }
  rewrite length_app, length_drop in Hj. simpl in Hj.
  exists (k + j)%nat. rewrite !Ed in *. split; [rewrite length_app; simpl; lia|]. cbn [lines bytes lastSeq].
  split; [f_equal; lia|]. split; [done|]. split; [rewrite length_app; simpl; lia|]. split; [done|].
  intros k' Hk'. destruct (decide (k' < k)%nat) as [Hlt|Hge].
  - intros Hfit. apply (Hmin k' Hlt). rewrite drop_app_le in Hfit by lia. by eapply fits_app_inv.
  - specialize (Hminj (k' - k)%nat ltac:(lia)). rewrite Ed in Hminj. by replace (k + (k' - k))%nat with k' in Hminj by lia.
Qed.

Lemma pushLines_holds now ts : forall r h,
  holds r h -> Z.of_nat (length h + length ts) < 2 ^ 64 ->
  holds (fold_left (pushLine now) ts r) (h ++ map (pair now) ts).
Proof.
  induction ts as [|t ts IH]; intros r h H Hn; [by rewrite app_nil_r|]. cbn [fold_left map length] in *.
  change ((now, t) :: map (pair now) ts) with ([(now, t)] ++ map (pair now) ts). rewrite app_assoc. apply IH.
  - apply pushLine_holds; [done|lia].
  - rewrite length_app. simpl. lia.
Qed.

Lemma runLog_holds calls : forall r h,
  holds r h -> Z.of_nat (length (h ++ logged calls)) < 2 ^ 64 -> holds (runLog calls r) (h ++ logged calls).
Proof.
  induction calls as [|[chunk now] calls IH]; intros r h H Hn; [by rewrite app_nil_r|].
  unfold logged in *. cbn [mbind list_bind fst snd] in *. fold (logged calls) in *.
  rewrite app_assoc in *. apply IH; [|done]. rewrite !length_app in Hn. apply pushLines_holds; [done|].
  rewrite length_map in Hn. lia.
Qed.

Lemma empty_holds : holds emptyRing [].
Proof. exists 0%nat. unfold fits, kMaxBytes. simpl. split_and!; try done; lia. Qed.

(** ** Readers *)

Lemma filter_numbered a n h :
  filter (fun l => a < seq l) (numbered n h) = drop (Z.to_nat (a - n + 1)) (numbered n h).
Proof.
  revert n. induction h as [|e h IH]; intros n; [by destruct (Z.to_nat _)|]. rewrite numbered_cons.
  destruct (decide (a < n)) as [Hlt|Hge].
  - rewrite filter_cons_True by done. rewrite IH.
    replace (Z.to_nat (a - n + 1)) with 0%nat by lia. by replace (Z.to_nat (a - (n + 1) + 1)) with 0%nat by lia.
  - rewrite filter_cons_False by done. rewrite IH.
    by replace (Z.to_nat (a - n + 1)) with (S (Z.to_nat (a - (n + 1) + 1))) by lia.
Qed.

Lemma slice_spec r first limit :
  (first <= length (lines r))%nat ->
  slines (slice r first limit) = take (Z.to_nat limit) (drop first (lines r)) /\
  (more (slice r first limit) = true <-> (Z.to_nat limit < length (drop first (lines r)))%nat).
Proof.
  intros H. unfold slice. cbn [slines more]. replace (Z.to_nat (Z.max limit 0)) with (Z.to_nat limit) by lia.
  rewrite length_drop, Nat.ltb_lt. split; [|lia].
  destruct (decide (first + Z.to_nat limit <= length (lines r))%nat) as [Hle|Hgt].
  - f_equal. lia.
  - rewrite !take_ge; [done|rewrite length_drop; lia..].
Qed.

(** What a ring that [holds] a history answers as its two bounds. *)
Lemma slice_bounds r h first limit :
  holds r h -> newestSeq (slice r first limit) = Z.of_nat (length h) /\
  oldestSeq (slice r first limit) = default 0 (seq <$> head (lines r)).
Proof. intros (k & _ & _ & _ & E & _). split; [exact E|]. unfold slice. simpl. by destruct (lines r). Qed.

(** ** The texts of a chunk *)

Lemma clipped_length line :
  line <> [] -> (0 < length (clipped line))%nat /\ Z.of_nat (length (clipped line)) <= kMaxLineLength.
Proof.
  intros Hne. unfold clipped, kMaxLineLength. destruct (Z.leb_spec (Z.of_nat (length line)) 8192) as [H|H].
  - destruct line; [done|]. simpl in *. lia.
  - rewrite length_app, length_take. destruct (isHighSurrogate _); cbn [length]; lia.
Qed.

Lemma clipped_chars line c : c ∈ clipped line -> c ∈ line \/ c = 8230.
Proof.
  unfold clipped. case_match; [by left|]. rewrite elem_of_app. intros [H1|H1]; [left|right].
  - apply elem_of_take in H1 as (i & Hi & _). by eapply list_elem_of_lookup_2.
  - by apply list_elem_of_singleton in H1.
Qed.

Lemma splitOn_pieces c s : Forall (fun p => c ∉ p) (splitOn c s).
Proof.
  induction s as [|x s IH]; [repeat constructor; by intros ?%elem_of_nil|]. unfold splitOn in *. simpl.
  destruct (Z.eqb_spec c x) as [->|Hne]; [constructor; [by intros ?%elem_of_nil|done]|].
  destruct (splitWhen _ s) as [|p ps]; [repeat constructor; intros [->|?%elem_of_nil]%elem_of_cons; done|].
  apply Forall_cons in IH as [Hp Hps]. constructor; [|done]. intros [->|?]%elem_of_cons; done.
Qed.

Lemma chopReturn_sub line c : c ∈ chopReturn line -> c ∈ line.
Proof.
  unfold chopReturn. case_match; [|done]. intros Hc. destruct line as [|x line _] using rev_ind; [done|].
  rewrite removelast_last in Hc. apply elem_of_app. by left.
Qed.

Lemma chunkTexts_ok chunk :
  Forall (fun t => (0 < length t)%nat /\ Z.of_nat (length t) <= kMaxLineLength /\ 10 ∉ t) (chunkTexts chunk).
Proof.
  unfold chunkTexts. apply Forall_map, Forall_forall. intros line [Hne Hin]%list_elem_of_filter.
  apply list_elem_of_In, in_map_iff in Hin as (p & <- & Hp%list_elem_of_In).
  destruct (clipped_length _ Hne) as [H1 H2]. split; [done|]. split; [done|].
  intros [Hc|?]%clipped_chars; [|done]. apply chopReturn_sub in Hc.
  pose proof (splitOn_pieces 10 chunk) as Hall. rewrite Forall_forall in Hall. by apply (Hall p).
Qed.

Lemma logged_ok calls :
  Forall (fun e => (0 < length e.2)%nat /\ Z.of_nat (length e.2) <= kMaxLineLength /\ 10 ∉ e.2) (logged calls).
Proof.
  induction calls as [|[chunk now] calls IH]; [constructor|]. unfold logged. cbn [mbind list_bind].
  apply Forall_app. split; [|exact IH]. apply Forall_map, chunkTexts_ok.
Qed.

(** After any calls the ring holds the longest suffix of everything
    logged that stays within 5000 lines and 4 MiB of text, numbered without
    gaps up to the count of lines ever logged, with the byte count exact; every
    held line has 1 to 8192 characters and no newline. *)
Theorem runLog_suffix calls :
  Z.of_nat (length (logged calls)) < 2 ^ 64 ->
  let r := runLog calls emptyRing in
  holds r (logged calls) /\ BufferedNewestSeq r = Z.of_nat (length (logged calls)) /\
  Forall (fun l => (0 < length (text l))%nat /\ Z.of_nat (length (text l)) <= kMaxLineLength /\ 10 ∉ text l) (lines r).
Proof.
  intros Hn r. pose proof (runLog_holds calls emptyRing [] empty_holds Hn) as H. fold r in H. simpl in H.
  split; [exact H|]. destruct H as (k & _ & El & _ & Es & _). split; [exact Es|]. rewrite El.
  apply Forall_lookup. intros i l Hl. unfold numbered in Hl. rewrite list_lookup_imap in Hl.
  destruct (drop k (logged calls) !! i) as [e|] eqn:E; [|done]. simpl in Hl. simplify_eq. simpl.
  pose proof (Forall_drop _ k _ (logged_ok calls)) as Ho. by eapply (Forall_lookup_1 _ _ _ _ Ho).
Qed.

(** Readers of a ring.  [BufferedLinesAfter] answers the held lines
    numbered above [after], oldest first, at most [limit] (none for a negative
    limit), and [more] exactly when held lines follow; [BufferedTail] answers
    the last [limit] held lines.  Both report the newest number ever given and
    the oldest still held. *)
Theorem Buffered_readers r h after limit :
  holds r h ->
  let page := BufferedLinesAfter after limit r in
  let tail := BufferedTail limit r in
  let above := filter (fun l => after < seq l) (lines r) in
  slines page = take (Z.to_nat limit) above /\
  (more page = true <-> (Z.to_nat limit < length above)%nat) /\
  slines tail = drop (length (lines r) - Z.to_nat limit) (lines r) /\ more tail = false /\
  newestSeq page = Z.of_nat (length h) /\ newestSeq tail = Z.of_nat (length h) /\
  oldestSeq page = default 0 (seq <$> head (lines r)) /\ oldestSeq tail = default 0 (seq <$> head (lines r)).
Proof.
  intros H page tail above. pose proof H as (k & Hk & El & _ & Es & _).
  assert (Hp : exists f, (f <= length (lines r))%nat /\ page = slice r f limit /\ above = drop f (lines r)).
  { unfold page, above, BufferedLinesAfter. rewrite El, filter_numbered, numbered_length, length_drop.
    destruct (drop k h) as [|e h'] eqn:Ed; [exists 0%nat; split; [lia|]; split; [done|]; by destruct (Z.to_nat _)|]. rewrite <- Ed.
    assert (Hh : length (e :: h') = (length h - k)%nat) by (rewrite <- Ed; apply length_drop). simpl in Hh.
    destruct (numbered _ (drop k h)) as [|front ls] eqn:En; [by rewrite Ed, numbered_cons in En|].
    assert (Ef : seq front = Z.of_nat k + 1) by (rewrite Ed, numbered_cons in En; by simplify_eq).
    destruct (Z.leb_spec (lastSeq r) after) as [Hle|Hgt].
    - exists (length (front :: ls)). rewrite <- En, numbered_length, length_drop. split; [lia|]. split; [done|].
      rewrite !drop_ge; [done|rewrite numbered_length, length_drop; lia..].
    - rewrite Ef. destruct (Z.ltb_spec after (Z.of_nat k + 1)) as [H1|H1].
      + exists 0%nat. split; [lia|]. split; [done|]. by replace (Z.to_nat _) with 0%nat by lia.
      + eexists. split; [|split; [reflexivity|reflexivity]]. lia. }
  destruct Hp as (f & Hf & -> & ->). destruct (slice_spec r f limit Hf) as [S1 S2].
  destruct (slice_bounds r h f limit H) as [B1 B2].
  unfold tail, BufferedTail. set (c := (length (lines r) - Nat.min _ _)%nat).
  assert (Hc : c = (length (lines r) - Z.to_nat limit)%nat) by (unfold c; lia).
  destruct (slice_spec r c limit ltac:(lia)) as [T1 T2]. destruct (slice_bounds r h c limit H) as [B3 B4].
  split_and!; try done.
  - rewrite T1, take_ge; [by rewrite Hc|rewrite length_drop; lia].
  - apply not_true_iff_false. intros Hm%T2. rewrite length_drop in Hm. lia.
Qed.

Example runLog_suffix_witness :
  let r := runLog [(u "one", 5); ([116; 119; 111; 13; 10; 10; 51], 6)] emptyRing in
  lines r = [Line 1 5 (u "one"); Line 2 6 (u "two"); Line 3 6 (u "3")] /\ BufferedNewestSeq r = 3.
Proof.
  split; [vm_compute; reflexivity|].
  apply (runLog_suffix [(u "one", 5); ([116; 119; 111; 13; 10; 10; 51], 6)]). vm_compute. reflexivity.
Defined.

Example Buffered_readers_witness :
  let r := runLog [(u "a", 1); (u "b", 2); (u "c", 3)] emptyRing in
  map text (slines (BufferedLinesAfter 1 1 r)) = [u "b"] /\ more (BufferedLinesAfter 1 1 r) = true /\
  map text (slines (BufferedTail 2 r)) = [u "b"; u "c"] /\ newestSeq (BufferedTail 2 r) = 3.
Proof.
  split; [vm_compute; reflexivity|]. split; [vm_compute; reflexivity|]. split; [vm_compute; reflexivity|].
  pose proof (runLog_suffix [(u "a", 1); (u "b", 2); (u "c", 3)] ltac:(vm_compute; reflexivity)) as [H _].
  pose proof (Buffered_readers _ _ 1 2 H) as H1. exact (proj1 (proj2 (proj2 (proj2 (proj2 (proj2 H1)))))).
Defined.
