(* ===== verification/Reconcile.v ===== *)
(** * Reconcile: the diff of a subscription refresh

    src/configs/sub/SubscriptionReconcile.cpp and the structs of
    include/configs/sub/SubscriptionReconcile.hpp.  A refresh first claims old
    profiles by content as the arrivals are parsed ([claim]), then pairs what is
    left by identity ([Reconcile]).  Digests are byte strings; a QHash of lists is
    a [gmap] of lists.  The theorems: which old profile each arrival gets, and
    that a plan loses and duplicates no id. *)

From S2P Require Import Prelude Text.

Abbreviation digest := (list Z) (only parsing).

Record ProfileKeys := Keys { content : digest; identity : digest }.

Record OldEntry := Old { oid : Z; okeys : ProfileKeys; odisplay : qstring }.

Record NewEntry := New { nid : Z; reused : bool; contentKnown : bool; nkeys : ProfileKeys; ndisplay : qstring }.

Record ContentIndex := Index {
  unclaimed : gmap digest (list Z);
  known : gset digest;
  arrivals : gset digest;
  claimedIds : gset Z }.

(** [hash[key].append(id)] *)
Definition appendAt (hash : gmap digest (list Z)) (key : digest) (id : Z) : gmap digest (list Z) :=
  <[key := default [] (hash !! key) ++ [id]]> hash.

(** [it = hash.find(key)], and [it->takeFirst()] when there is one. *)
Definition takeFirst (hash : gmap digest (list Z)) (key : digest) : option (Z * gmap digest (list Z)) :=
  match hash !! key with
  | Some (id :: rest) => Some (id, <[key := rest]> hash)
  | _ => None
  end.

Definition indexOld (index : ContentIndex) (entry : OldEntry) : ContentIndex :=
  Index (appendAt (unclaimed index) (content (okeys entry)) (oid entry))
    ({[content (okeys entry)]} ∪ known index) (arrivals index) (claimedIds index).

Definition newIndex (old : list OldEntry) : ContentIndex := fold_left indexOld old (Index ∅ ∅ ∅ ∅).

Definition knows (index : ContentIndex) (c : digest) : bool := bool_decide (c ∈ known index).

Definition claim (index : ContentIndex) (c : digest) : option Z * ContentIndex :=
  match takeFirst (unclaimed index) c with
  | None => (None, index)
  | Some (id, rest) => (Some id, Index rest (known index) (arrivals index) ({[id]} ∪ claimedIds index))
  end.

Definition noteArrival (index : ContentIndex) (c : digest) : ContentIndex :=
  Index (unclaimed index) (known index) ({[c]} ∪ arrivals index) (claimedIds index).

Definition arrived (index : ContentIndex) (c : digest) : bool := bool_decide (c ∈ arrivals index).

Definition isClaimed (index : ContentIndex) (id : Z) : bool := bool_decide (id ∈ claimedIds index).

Record ReconcilePlan := Plan {
  order : list Z;
  updates : list (Z * Z);
  stale : list Z;
  added : list qstring;
  updated : list qstring;
  deleted : list qstring }.

(** The old profiles the content pass never saw, by identity. *)
Definition leftoverStep (index : ContentIndex) (hash : gmap digest (list Z)) (entry : OldEntry) : gmap digest (list Z) :=
  if isClaimed index (oid entry) || arrived index (content (okeys entry)) then hash
  else appendAt hash (identity (okeys entry)) (oid entry).

Record Pairing := MkPairing {
  leftoverByIdentity : gmap digest (list Z);
  pairs : list (Z * Z);
  pairNames : list qstring;
  supersededBy : gmap Z Z;
  matchedOld : gset Z }.

Definition pairStep (p : Pairing) (entry : NewEntry) : Pairing :=
  if (nid entry <? 0) || reused entry || contentKnown entry then p
  else
    match takeFirst (leftoverByIdentity p) (identity (nkeys entry)) with
    | None => p
    | Some (oldId, rest) =>
        MkPairing rest (pairs p ++ [(oldId, nid entry)]) (pairNames p ++ [ndisplay entry])
          (<[nid entry := oldId]> (supersededBy p)) ({[oldId]} ∪ matchedOld p)
    end.

Definition staleStep (index : ContentIndex) (matched : gset Z) (plan : ReconcilePlan) (entry : OldEntry) : ReconcilePlan :=
  if isClaimed index (oid entry) || bool_decide (oid entry ∈ matched) then plan
  else Plan (order plan) (updates plan) (stale plan ++ [oid entry]) (added plan) (updated plan)
    (deleted plan ++ [odisplay entry]).

Definition orderStep (superseded : gmap Z Z) (plan : ReconcilePlan) (entry : NewEntry) : ReconcilePlan :=
  if nid entry <? 0 then plan
  else if reused entry then
    Plan (order plan ++ [nid entry]) (updates plan) (stale plan) (added plan) (updated plan) (deleted plan)
  else
    match superseded !! nid entry with
    | Some oldId =>
        Plan (order plan ++ [oldId]) (updates plan) (stale plan ++ [nid entry]) (added plan) (updated plan) (deleted plan)
    | None =>
        Plan (order plan ++ [nid entry]) (updates plan) (stale plan) (added plan ++ [ndisplay entry]) (updated plan)
          (deleted plan)
    end.

Definition Reconcile (old : list OldEntry) (incoming : list NewEntry) (index : ContentIndex) : ReconcilePlan :=
  let leftover := fold_left (leftoverStep index) old ∅ in
  let p := fold_left pairStep incoming (MkPairing leftover [] [] ∅ ∅) in
  let plan := Plan [] (pairs p) [] [] (pairNames p) [] in
  let plan := fold_left (staleStep index (matchedOld p)) old plan in
  fold_left (orderStep (supersededBy p)) incoming plan.

(** ** Queues of ids by digest *)

(** The answers of successive [takeFirst]s. *)
Fixpoint takes (hash : gmap digest (list Z)) (keys : list digest) : list (option Z) :=
  match keys with
  | [] => []
  | key :: keys =>
      match takeFirst hash key with
      | Some (id, rest) => Some id :: takes rest keys
      | None => None :: takes hash keys
      end
  end.

Definition pileOf (hash : gmap digest (list Z)) (key : digest) : list Z := default [] (hash !! key).

Definition occurrences (key : digest) (keys : list digest) : nat := length (filter (fun k => k = key) keys).

Lemma pileOf_append hash key id k :
  pileOf (appendAt hash key id) k = pileOf hash k ++ (if decide (key = k) then [id] else []).
Proof.
  unfold pileOf, appendAt. case_decide as E.
  - subst. by rewrite lookup_insert_eq.
  - rewrite lookup_insert_ne by done. by rewrite app_nil_r.
Qed.

Lemma takeFirst_spec hash key :
  match takeFirst hash key with
  | Some (id, rest) => pileOf hash key = id :: pileOf rest key /\ (forall k, k <> key -> pileOf rest k = pileOf hash k)
  | None => pileOf hash key = []
  end.
Proof.
  unfold takeFirst, pileOf. destruct (hash !! key) as [[|id rest]|] eqn:E; [done| |done].
  split; [by rewrite lookup_insert_eq|]. intros k Hk. by rewrite lookup_insert_ne.
Qed.

(** The n-th request for a key is served the n-th id filed under it. *)
Lemma takes_spec keys hash i key :
  keys !! i = Some key -> takes hash keys !! i = Some (pileOf hash key !! occurrences key (take i keys)).
Proof.
  revert hash i. induction keys as [|k0 keys IH]; intros hash i Hi; [done|].
  pose proof (takeFirst_spec hash k0) as Hspec. cbn [takes].
  destruct i as [|i]; simpl in Hi.
  - injection Hi as ->. destruct (takeFirst hash key) as [[id rest]|].
    + destruct Hspec as [E _]. unfold occurrences. simpl. by rewrite E.
    + unfold occurrences. simpl. by rewrite Hspec.
  - unfold occurrences in *. simpl. destruct (takeFirst hash k0) as [[id rest]|].
    + destruct Hspec as [E Hne]. simpl. rewrite (IH _ _ Hi), filter_cons. case_decide as Ek.
      * subst. by rewrite E.
      * by rewrite (Hne key) by congruence.
    + simpl. rewrite (IH _ _ Hi), filter_cons. case_decide as Ek; [|done]. subst. by rewrite Hspec.
Qed.

Lemma takes_length hash keys : length (takes hash keys) = length keys.
Proof.
  revert hash. induction keys as [|k keys IH]; intros hash; [done|].
  cbn [takes]. by destruct (takeFirst hash k) as [[id rest]|]; simpl; rewrite IH.
Qed.

(** No id is filed twice. *)
Definition filedOnce (hash : gmap digest (list Z)) : Prop :=
  (forall k, NoDup (pileOf hash k)) /\
  (forall k k' id, id ∈ pileOf hash k -> id ∈ pileOf hash k' -> k = k').

Lemma takeFirst_filedOnce hash key id rest :
  filedOnce hash -> takeFirst hash key = Some (id, rest) ->
  filedOnce rest /\ (forall k, id ∉ pileOf rest k) /\ (forall k id', id' ∈ pileOf rest k -> id' ∈ pileOf hash k).
Proof.
  intros [Hnd Hdis] E. pose proof (takeFirst_spec hash key) as Hspec. rewrite E in Hspec. destruct Hspec as [Hk Hne].
  assert (Hsub : forall k id', id' ∈ pileOf rest k -> id' ∈ pileOf hash k).
  { intros k id' Hin. destruct (decide (k = key)) as [->|Hk']; [rewrite Hk; by right|by rewrite <- Hne]. }
  pose proof (Hnd key) as Hn. rewrite Hk in Hn. apply NoDup_cons in Hn as [Hnot Hn].
  split; [split|split; [|done]].
  - intros k. destruct (decide (k = key)) as [->|Hk']; [done|rewrite Hne by done; apply Hnd].
  - intros k k' id' H1 H2. by apply (Hdis k k' id'); apply Hsub.
  - intros k Hin. destruct (decide (k = key)) as [->|Hk']; [done|].
    apply Hk'. apply (Hdis k key id); [by apply Hsub|rewrite Hk; by left].
Qed.

Lemma takes_filed keys hash id : Some id ∈ takes hash keys -> exists k, k ∈ keys /\ id ∈ pileOf hash k.
Proof.
  intros Hin. apply list_elem_of_lookup in Hin as [i Hi].
  destruct (lookup_lt_is_Some_2 keys i) as [k Hk].
  { rewrite <- (takes_length hash). by eapply lookup_lt_Some. }
  rewrite (takes_spec _ _ _ _ Hk) in Hi. injection Hi as Hi.
  exists k. split; by eapply list_elem_of_lookup_2.
Qed.

Lemma takes_NoDup keys hash : filedOnce hash -> NoDup (omap id (takes hash keys)).
Proof.
  revert hash. induction keys as [|k keys IH]; intros hash Hf; [by apply NoDup_nil|].
  cbn [takes]. destruct (takeFirst hash k) as [[x rest]|] eqn:E; simpl; [|by apply IH].
  destruct (takeFirst_filedOnce _ _ _ _ Hf E) as (Hf' & Hnot & _).
  apply NoDup_cons. split; [|by apply IH].
  intros Hin. apply list_elem_of_omap in Hin as (o & Ho & Hid). cbv [id] in Hid. subst o.
  apply takes_filed in Ho as (k' & _ & Hk'). by apply (Hnot k').
Qed.

Lemma filedOnce_append hash key id :
  filedOnce hash -> (forall k, id ∉ pileOf hash k) -> filedOnce (appendAt hash key id).
Proof.
  intros [Hnd Hdis] Hid. split.
  - intros k. rewrite pileOf_append. case_decide; [|by rewrite app_nil_r].
    apply NoDup_app. split_and!; [done| |apply NoDup_singleton].
    intros x Hx ->%list_elem_of_singleton. by apply (Hid k).
  - intros k k' x. rewrite !pileOf_append. rewrite !elem_of_app.
    intros [H1|H1] [H2|H2]; repeat case_decide; subst; try (by apply elem_of_nil in H1); try (by apply elem_of_nil in H2).
    + by apply (Hdis k k' x).
    + apply list_elem_of_singleton in H2 as ->. by destruct (Hid k).
    + apply list_elem_of_singleton in H1 as ->. by destruct (Hid k').
    + done.
Qed.

(** ** Claims *)

Definition idsWithContent (c : digest) (old : list OldEntry) : list Z :=
  map oid (filter (fun e => content (okeys e) = c) old).

Lemma elem_idsWithContent c old x :
  x ∈ idsWithContent c old <-> exists e, e ∈ old /\ oid e = x /\ content (okeys e) = c.
Proof.
  unfold idsWithContent. rewrite list_elem_of_fmap. setoid_rewrite list_elem_of_filter. naive_solver.
Qed.

Lemma idsWithContent_NoDup c old : NoDup (map oid old) -> NoDup (idsWithContent c old).
Proof. apply NoDup_map_filter. Qed.

Lemma idsWithContent_inj c c' old x :
  NoDup (map oid old) -> x ∈ idsWithContent c old -> x ∈ idsWithContent c' old -> c = c'.
Proof.
  intros Hnd (e & He & Hx & Hc)%elem_idsWithContent (e' & He' & Hx' & Hc')%elem_idsWithContent.
  assert (e = e') as -> by (eapply (NoDup_map_inj oid); eauto; congruence). congruence.
Qed.

Lemma fold_indexOld old index :
  let index' := fold_left indexOld old index in
  (forall c, pileOf (unclaimed index') c = pileOf (unclaimed index) c ++ idsWithContent c old) /\
  (forall c, c ∈ known index' <-> c ∈ known index \/ c ∈ map (fun e => content (okeys e)) old) /\
  arrivals index' = arrivals index /\ claimedIds index' = claimedIds index.
Proof.
  revert index. induction old as [|e old IH]; intros index.
  - simpl. split_and!; try done; intros c; [by rewrite app_nil_r|]. rewrite elem_of_nil. tauto.
  - cbn [fold_left]. destruct (IH (indexOld index e)) as (H1 & H2 & H3 & H4). cbv zeta in *.
    split_and!; [|intros c|by rewrite H3|by rewrite H4].
    + intros c. rewrite H1. simpl. rewrite pileOf_append. unfold idsWithContent. rewrite filter_cons.
      case_decide; [by rewrite <- app_assoc|by rewrite app_nil_r].
    + rewrite H2. simpl. rewrite elem_of_cons. set_solver.
Qed.

Lemma newIndex_spec old :
  (forall c, pileOf (unclaimed (newIndex old)) c = idsWithContent c old) /\
  (forall c, c ∈ known (newIndex old) <-> c ∈ map (fun e => content (okeys e)) old) /\
  arrivals (newIndex old) = ∅ /\ claimedIds (newIndex old) = ∅.
Proof.
  destruct (fold_indexOld old (Index ∅ ∅ ∅ ∅)) as (H1 & H2 & H3 & H4). fold (newIndex old) in *.
  split_and!; try done. intros c. rewrite H2. simpl. set_solver.
Qed.

(** One arrival of the content pass, as the import does it. *)
Definition arrive (index : ContentIndex) (c : digest) : option Z * ContentIndex := claim (noteArrival index c) c.

Fixpoint arriveAll (index : ContentIndex) (cs : list digest) : list (option Z) * ContentIndex :=
  match cs with
  | [] => ([], index)
  | c :: cs =>
      let '(id, index) := arrive index c in
      let '(ids, index) := arriveAll index cs in
      (id :: ids, index)
  end.

Lemma arriveAll_takes cs index : (arriveAll index cs).1 = takes (unclaimed index) cs.
Proof.
  revert index. induction cs as [|c cs IH]; intros index; [done|].
  cbn [arriveAll takes]. unfold arrive, claim. simpl.
  destruct (takeFirst (unclaimed index) c) as [[id rest]|]; simpl.
  - destruct (arriveAll (Index rest _ _ _) cs) as [ids index'] eqn:E. specialize (IH (Index rest (known index) ({[c]} ∪ arrivals index) ({[id]} ∪ claimedIds index))).
    rewrite E in IH. simpl in *. by rewrite IH.
  - destruct (arriveAll (noteArrival index c) cs) as [ids index'] eqn:E. specialize (IH (noteArrival index c)).
    rewrite E in IH. simpl in *. by rewrite IH.
Qed.

(** Equal profiles are claimed in group order by equal arrivals in
    arrival order: the n-th arrival with a given content claims the n-th old
    profile with that content, and none once they run out; so with distinct ids
    no old profile is claimed twice. *)
Theorem arriveAll_in_order old cs :
  NoDup (map oid old) ->
  (forall i c, cs !! i = Some c ->
     (arriveAll (newIndex old) cs).1 !! i = Some (idsWithContent c old !! occurrences c (take i cs))) /\
  NoDup (omap id (arriveAll (newIndex old) cs).1).
Proof.
  intros Hnd. rewrite arriveAll_takes. destruct (newIndex_spec old) as (Hpile & _).
  assert (Hat : forall i c, cs !! i = Some c ->
    takes (unclaimed (newIndex old)) cs !! i = Some (idsWithContent c old !! occurrences c (take i cs))).
  { intros i c Hi. by rewrite (takes_spec _ _ _ _ Hi), Hpile. }
  split; [done|]. apply takes_NoDup. split.
  - intros c. rewrite Hpile. by apply idsWithContent_NoDup.
  - intros c c' x. rewrite !Hpile. by apply idsWithContent_inj.
Qed.

(** ** Closed forms of the passes *)

Definition isLeft (index : ContentIndex) (e : OldEntry) : bool :=
  negb (isClaimed index (oid e) || arrived index (content (okeys e))).

Definition idsWithIdentity (index : ContentIndex) (d : digest) (old : list OldEntry) : list Z :=
  map oid (filter (fun e => isLeft index e = true /\ identity (okeys e) = d) old).

Definition eligible (e : NewEntry) : bool := negb ((nid e <? 0) || reused e || contentKnown e).

Definition stored (e : NewEntry) : bool := 0 <=? nid e.

Definition fresh (e : NewEntry) : bool := stored e && negb (reused e).

Definition freshIds (incoming : list NewEntry) : list Z := map nid (filter (fun e => fresh e = true) incoming).

Definition slot (superseded : gmap Z Z) (e : NewEntry) : Z :=
  if reused e then nid e else default (nid e) (superseded !! nid e).

Lemma fold_leftover index old hash d :
  pileOf (fold_left (leftoverStep index) old hash) d = pileOf hash d ++ idsWithIdentity index d old.
Proof.
  revert hash. induction old as [|e old IH]; intros hash; [by rewrite app_nil_r|].
  cbn [fold_left]. rewrite IH. unfold leftoverStep, idsWithIdentity, isLeft. rewrite filter_cons.
  destruct (_ || _) eqn:E; cbn [negb].
  - by rewrite decide_False by (intros [? _]; done).
  - rewrite pileOf_append. repeat case_decide; try tauto; [by rewrite <- app_assoc|by rewrite app_nil_r].
Qed.

(** The pairs the identity pass appends. *)
Definition served (os : list (option Z)) (es : list NewEntry) : list (Z * Z) :=
  omap (fun '(o, e) => (fun o => (o, nid e)) <$> o) (zip os es).

Lemma pairStep_eligible p e :
  pairStep p e =
  if eligible e then
    match takeFirst (leftoverByIdentity p) (identity (nkeys e)) with
    | None => p
    | Some (oldId, rest) =>
        MkPairing rest (pairs p ++ [(oldId, nid e)]) (pairNames p ++ [ndisplay e])
          (<[nid e := oldId]> (supersededBy p)) ({[oldId]} ∪ matchedOld p)
    end
  else p.
Proof. unfold pairStep, eligible. by destruct (_ || _). Qed.

Lemma fold_pairStep incoming p :
  let es := filter (fun e => eligible e = true) incoming in
  let os := takes (leftoverByIdentity p) (map (fun e => identity (nkeys e)) es) in
  let p' := fold_left pairStep incoming p in
  let us := served os es in
  pairs p' = pairs p ++ us /\
  length (pairNames p') = (length (pairNames p) + length us)%nat /\
  matchedOld p' = list_to_set (map fst us) ∪ matchedOld p /\
  supersededBy p' = fold_left (fun m '(o, n) => <[n := o]> m) us (supersededBy p).
Proof.
  revert p. induction incoming as [|e incoming IH]; intros p.
  - simpl. rewrite app_nil_r. split_and!; try done; try lia. by rewrite (left_id_L ∅ (∪)).
  - cbn [fold_left]. rewrite filter_cons, pairStep_eligible. case_decide as E.
    + rewrite E. cbn [map takes].
      destruct (takeFirst (leftoverByIdentity p) (identity (nkeys e))) as [[o rest]|] eqn:Et; [|apply IH].
      destruct (IH (MkPairing rest (pairs p ++ [(o, nid e)]) (pairNames p ++ [ndisplay e])
        (<[nid e := o]> (supersededBy p)) ({[o]} ∪ matchedOld p))) as (H1 & H2 & H3 & H4).
      cbn [leftoverByIdentity pairs pairNames supersededBy matchedOld] in *.
      unfold served in *. simpl. split_and!.
      * by rewrite H1, <- app_assoc.
      * rewrite H2, length_app, <- Nat.add_assoc. done.
      * rewrite H3. set_solver.
      * done.
    + destruct (eligible e); [done|]. apply IH.
Qed.

Lemma fold_staleStep index matched old plan :
  let gone := filter (fun e => isClaimed index (oid e) || bool_decide (oid e ∈ matched) = false) old in
  fold_left (staleStep index matched) old plan =
  Plan (order plan) (updates plan) (stale plan ++ map oid gone) (added plan) (updated plan)
    (deleted plan ++ map odisplay gone).
Proof.
  revert plan. induction old as [|e old IH]; intros plan; simpl.
  - rewrite !app_nil_r. by destruct plan.
  - rewrite IH. unfold staleStep. rewrite filter_cons. destruct (_ || _) eqn:E.
    + by rewrite decide_False.
    + rewrite decide_True by done. simpl. by rewrite <- !app_assoc.
Qed.

Lemma fold_orderStep sup incoming plan :
  let es := filter (fun e => stored e = true) incoming in
  fold_left (orderStep sup) incoming plan =
  Plan (order plan ++ map (slot sup) es) (updates plan)
    (stale plan ++ map nid (filter (fun e => reused e = false /\ is_Some (sup !! nid e)) es))
    (added plan ++ map ndisplay (filter (fun e => reused e = false /\ ~ is_Some (sup !! nid e)) es))
    (updated plan) (deleted plan).
Proof.
  revert plan. induction incoming as [|e incoming IH]; intros plan; simpl.
  - rewrite !app_nil_r. by destruct plan.
  - rewrite IH. unfold orderStep, stored. rewrite (filter_cons _ e incoming).
    destruct (Z.ltb_spec (nid e) 0) as [Hneg|Hpos].
    { rewrite decide_False by lia. done. }
    rewrite decide_True by lia. rewrite !filter_cons. cbn [map]. unfold slot at 2.
    destruct (reused e).
    + rewrite !decide_False by (intros [? _]; done). simpl. by rewrite <- !app_assoc.
    + destruct (sup !! nid e) as [o|].
      * rewrite decide_True by (split; [done|by eexists]).
        rewrite decide_False by (intros [_ H]; apply H; by eexists). simpl. by rewrite <- !app_assoc.
      * rewrite decide_False by (intros [_ [? ?]]; done).
        rewrite decide_True by (split; [done|by intros [? ?]]). simpl. by rewrite <- !app_assoc.
Qed.

(** ** The plan *)

Definition reusedIds (incoming : list NewEntry) : list Z := map nid (filter (fun e => reused e = true) incoming).

(** What the content pass of one import leaves: the ids of the stored arrivals
    are distinct, the reused ones are exactly the claimed old ids, the others
    are new. *)
Record Coherent (old : list OldEntry) (incoming : list NewEntry) (index : ContentIndex) : Prop := {
  coh_old : NoDup (map oid old);
  coh_ids : NoDup (map nid (filter (fun e => stored e = true) incoming));
  coh_reused : Forall (fun e => reused e = true -> stored e = true) incoming;
  coh_claimed : forall i, i ∈ claimedIds index <-> i ∈ reusedIds incoming;
  coh_claimed_old : forall i, i ∈ claimedIds index -> i ∈ map oid old;
  coh_fresh : forall i, i ∈ freshIds incoming -> i ∉ map oid old }.

Lemma served_snd os es : sublist (map snd (served os es)) (map nid es).
Proof.
  revert es. induction os as [|[o|] os IH]; intros [|e es]; cbn; try by apply sublist_nil_l.
  - apply sublist_skip, IH.
  - apply sublist_cons, IH.
Qed.

Lemma served_fst os es : length os = length es -> map fst (served os es) = omap id os.
Proof.
  revert es. induction os as [|[o|] os IH]; intros [|e es] E; try done; cbn in *; injection E as E.
  - f_equal. by apply IH.
  - by apply IH.
Qed.

Lemma elem_served os es o n :
  (o, n) ∈ served os es -> exists i e, os !! i = Some (Some o) /\ es !! i = Some e /\ nid e = n.
Proof.
  unfold served. intros ([o' e] & Hin & E)%list_elem_of_omap.
  destruct o' as [o'|]; [|done]. injection E as -> <-.
  apply list_elem_of_lookup in Hin as [i Hi]. apply lookup_zip_with_Some in Hi as (x & y & [= <- <-] & H1 & H2).
  by exists i, e.
Qed.

Lemma fold_superseded (us : list (Z * Z)) (m : gmap Z Z) n o :
  NoDup (map snd us) ->
  fold_left (fun m '(o, n) => <[n := o]> m) us m !! n = Some o <->
  (o, n) ∈ us \/ (n ∉ map snd us) /\ m !! n = Some o.
Proof.
  revert m. induction us as [|[o' n'] us IH]; intros m Hnd.
  - cbn. rewrite !elem_of_nil. tauto.
  - cbn [fold_left map snd] in *. apply NoDup_cons in Hnd as [Hnot Hnd]. rewrite IH by done.
    rewrite !elem_of_cons. destruct (decide (n = n')) as [->|Hne].
    + rewrite lookup_insert_eq. split; [intros [H|[_ [= ->]]]; by auto|].
      intros [[[= ->]|H]|[H _]]; [by right|by left|by destruct H; left].
    + rewrite lookup_insert_ne by done. split; [intros [H|[H H']]; [by auto|]|].
      { right. split; [|done]. by intros [?|?]. }
      intros [[[= -> ->]|H]|[H H']]; [done|by left|]. right. split; [|done]. intros ?. apply H. by right.
Qed.

Section plan_facts.
Context (old : list OldEntry) (incoming : list NewEntry) (index : ContentIndex).
Hypothesis Hc : Coherent old incoming index.

Let leftover := fold_left (leftoverStep index) old ∅.
Let es := filter (fun e => eligible e = true) incoming.
Let us := served (takes leftover (map (fun e => identity (nkeys e)) es)) es.
Let sup := fold_left (fun (m : gmap Z Z) '(o, n) => <[n := o]> m) us ∅.
Let es_stored := filter (fun e => stored e = true) incoming.

Lemma leftover_pile d : pileOf leftover d = idsWithIdentity index d old.
Proof. unfold leftover. by rewrite fold_leftover. Qed.

Lemma elem_idsWithIdentity d x :
  x ∈ idsWithIdentity index d old <->
  exists e, e ∈ old /\ oid e = x /\ isLeft index e = true /\ identity (okeys e) = d.
Proof. unfold idsWithIdentity. rewrite list_elem_of_fmap. setoid_rewrite list_elem_of_filter. naive_solver. Qed.

Lemma leftover_once : filedOnce leftover.
Proof.
  split.
  - intros d. rewrite leftover_pile. apply NoDup_map_filter, (coh_old _ _ _ Hc).
  - intros d d' x. rewrite !leftover_pile, !elem_idsWithIdentity.
    intros (e & He & Hx & _ & Hd) (e' & He' & Hx' & _ & Hd').
    assert (e = e') as -> by (eapply (NoDup_map_inj oid); [apply (coh_old _ _ _ Hc)|done|done|congruence]).
    congruence.
Qed.

Lemma eligible_fresh e : eligible e = true -> fresh e = true.
Proof.
  unfold eligible, fresh, stored. rewrite negb_true_iff. intros H. bool_to_prop.
  apply andb_true_iff. split; [by apply Z.leb_le|by apply negb_true_iff].
Qed.

Lemma eligible_stored : es = filter (fun e => eligible e = true) es_stored.
Proof.
  unfold es, es_stored. rewrite list_filter_filter. apply list_filter_iff. intros e. split; [|tauto].
  intros He. split; [done|]. apply eligible_fresh in He. unfold fresh in He. by apply andb_true_iff in He as [].
Qed.

Lemma es_ids : NoDup (map nid es).
Proof. rewrite eligible_stored. apply NoDup_map_filter, (coh_ids _ _ _ Hc). Qed.

Lemma us_snd : NoDup (map snd us) /\ (forall n, n ∈ map snd us -> n ∈ freshIds incoming).
Proof.
  assert (Hsub : sublist (map snd us) (map nid es)) by apply served_snd. split.
  - eapply sublist_NoDup; [apply es_ids|exact Hsub].
  - intros n Hn. eapply elem_of_sublist in Hn; [|exact Hsub].
    apply list_elem_of_fmap in Hn as (e & -> & He). apply list_elem_of_filter in He as [He Hin].
    apply list_elem_of_fmap_2, list_elem_of_filter. split; [by apply eligible_fresh|done].
Qed.

Lemma us_fst : NoDup (map fst us).
Proof.
  unfold us. rewrite served_fst by (by rewrite takes_length, length_map).
  apply takes_NoDup, leftover_once.
Qed.

Lemma sup_spec n o : sup !! n = Some o <-> (o, n) ∈ us.
Proof.
  unfold sup. rewrite fold_superseded by apply us_snd. split; [intros [H|[_ H]]; [done|done]|by left].
Qed.

Lemma us_sound o n :
  (o, n) ∈ us -> exists e e', e ∈ old /\ oid e = o /\ isLeft index e = true /\ e' ∈ incoming /\ nid e' = n /\
    eligible e' = true /\ identity (okeys e) = identity (nkeys e').
Proof.
  intros (i & e' & Ho & He & Hn)%elem_served. apply list_elem_of_lookup_2 in He as Hin.
  apply list_elem_of_filter in Hin as [Hel Hin].
  rewrite (takes_spec _ _ _ (identity (nkeys e'))) in Ho by (by rewrite list_lookup_fmap, He).
  injection Ho as Ho. apply list_elem_of_lookup_2 in Ho. rewrite leftover_pile in Ho.
  apply elem_idsWithIdentity in Ho as (e & H1 & H2 & H3 & H4). by exists e, e'.
Qed.

Lemma Reconcile_eq :
  Reconcile old incoming index =
  let gone := filter (fun e => isClaimed index (oid e) || bool_decide (oid e ∈ (list_to_set (map fst us) : gset Z)) = false) old in
  Plan (map (slot sup) es_stored) us
    (map oid gone ++ map nid (filter (fun e => reused e = false /\ is_Some (sup !! nid e)) es_stored))
    (map ndisplay (filter (fun e => reused e = false /\ ~ is_Some (sup !! nid e)) es_stored))
    (pairNames (fold_left pairStep incoming (MkPairing leftover [] [] ∅ ∅))) (map odisplay gone).
Proof.
  unfold Reconcile. fold leftover.
  destruct (fold_pairStep incoming (MkPairing leftover [] [] ∅ ∅)) as (H1 & _ & H3 & H4).
  cbn [pairs matchedOld supersededBy leftoverByIdentity] in H1, H3, H4. fold es us in H1, H3, H4.
  cbn zeta. rewrite fold_orderStep, fold_staleStep. cbn [order updates stale added updated deleted].
  rewrite H1, H3, H4, (right_id_L ∅ (∪)). done.
Qed.

Lemma stored_split : es_stored ≡ₚ filter (fun e => reused e = true) incoming ++ filter (fun e => fresh e = true) incoming.
Proof.
  unfold es_stored. rewrite <- (filter_app_complement (fun e => reused e = true) (filter _ incoming)).
  rewrite !list_filter_filter. pose proof (coh_reused _ _ _ Hc) as Hr. rewrite Forall_forall in Hr.
  f_equiv.
  - apply reflexive_eq, filter_ext_elem. intros e He. split; [tauto|]. intros H. split; [done|by apply Hr].
  - apply reflexive_eq, filter_ext_elem. intros e He. unfold fresh. rewrite andb_true_iff, negb_true_iff.
    destruct (reused e); intuition congruence.
Qed.

Lemma freshIds_NoDup : NoDup (freshIds incoming).
Proof.
  pose proof (coh_ids _ _ _ Hc) as H. fold es_stored in H. rewrite (Permutation_map nid stored_split) in H.
  rewrite map_app in H. by apply NoDup_app in H as (_ & _ & H).
Qed.

Lemma superseded_fresh :
  map nid (filter (fun e => is_Some (sup !! nid e)) (filter (fun e => fresh e = true) incoming)) ≡ₚ map snd us.
Proof.
  apply NoDup_Permutation.
  - apply NoDup_map_filter, freshIds_NoDup.
  - apply us_snd.
  - intros n. rewrite list_elem_of_fmap. setoid_rewrite list_elem_of_filter. split.
    + intros (e & -> & [o Ho] & _). apply sup_spec in Ho. by apply (list_elem_of_fmap_2 snd _ _) in Ho.
    + intros Hn. pose proof Hn as Hf. apply us_snd in Hf.
      apply list_elem_of_fmap in Hf as (e & -> & He). apply list_elem_of_filter in He as [Hfr Hin].
      apply list_elem_of_fmap in Hn as ([o n] & En & Hon). simpl in En. subst n.
      exists e. split_and!; try done; [by exists o; apply sup_spec|by apply list_elem_of_filter].
Qed.

Lemma sup_snd : map (fun n => default n (sup !! n)) (map snd us) = map fst us.
Proof.
  rewrite map_map. apply map_ext_in. intros [o n] Hin. apply list_elem_of_In, sup_spec in Hin. simpl in *.
  by rewrite Hin.
Qed.

(** The slots of the order, with the superseded rows, are the matched old ids
    and every stored id. *)
Lemma slots_perm :
  map (slot sup) es_stored ++
  map nid (filter (fun e => reused e = false /\ is_Some (sup !! nid e)) es_stored)
  ≡ₚ (reusedIds incoming ++ map fst us) ++ freshIds incoming.
Proof.
  set (fs := filter (fun e => fresh e = true) incoming).
  assert (Hfs : forall e, e ∈ fs -> reused e = false).
  { intros e [He _]%list_elem_of_filter. unfold fresh in He. by destruct (reused e), (stored e). }
  assert (E1 : map nid (filter (fun e => reused e = false /\ is_Some (sup !! nid e)) es_stored) ≡ₚ
               map nid (filter (fun e => is_Some (sup !! nid e)) fs)).
  { rewrite stored_split, filter_app, filter_none.
    - cbn [app]. apply reflexive_eq. f_equal. apply filter_ext_elem. intros e He. specialize (Hfs e He). tauto.
    - intros e [He _]%list_elem_of_filter. intros [? _]. congruence. }
  assert (E2 : map (slot sup) fs ≡ₚ map fst us ++ map nid (filter (fun e => ~ is_Some (sup !! nid e)) fs)).
  { rewrite <- (filter_app_complement (fun e => is_Some (sup !! nid e)) fs) at 1. rewrite map_app. f_equiv.
    - rewrite <- sup_snd, <- superseded_fresh, map_map. apply reflexive_eq, map_ext_in.
      intros e He%list_elem_of_In. apply list_elem_of_filter in He as [_ He]. unfold slot. by rewrite (Hfs e He).
    - apply reflexive_eq, map_ext_in. intros e He%list_elem_of_In. apply list_elem_of_filter in He as [Hn He].
      unfold slot. rewrite (Hfs e He). destruct (sup !! nid e); [by destruct Hn; eexists|done]. }
  rewrite E1, (Permutation_map (slot sup) stored_split), map_app. fold fs. rewrite E2, <- !app_assoc. f_equiv.
  - apply reflexive_eq, map_ext_in. intros e He%list_elem_of_In. apply list_elem_of_filter in He as [He _].
    unfold slot. by rewrite He.
  - f_equiv. rewrite (Permutation_app_comm _ (map nid (filter _ fs))), <- map_app, filter_app_complement. done.
Qed.

(** The old ids are the reused ones, the matched ones and the stale ones. *)
Lemma old_perm :
  map oid old ≡ₚ map oid (filter (fun e => isClaimed index (oid e) || bool_decide (oid e ∈ (list_to_set (map fst us) : gset Z)) = false) old)
    ++ (reusedIds incoming ++ map fst us).
Proof.
  set (P := fun e => isClaimed index (oid e) || bool_decide (oid e ∈ (list_to_set (map fst us) : gset Z)) = false).
  rewrite <- (filter_app_complement P old) at 1. rewrite map_app. f_equiv.
  assert (Hmatched : forall x, x ∈ map fst us -> x ∈ map oid old /\ x ∉ claimedIds index).
  { intros x ([o n] & -> & Hon)%list_elem_of_fmap. apply us_sound in Hon as (e & e' & He & <- & Hl & _).
    simpl. split; [by apply (list_elem_of_fmap_2 oid)|]. unfold isLeft, isClaimed in Hl. intros Hx.
    by rewrite bool_decide_true in Hl. }
  apply NoDup_Permutation.
  - apply NoDup_map_filter, (coh_old _ _ _ Hc).
  - apply NoDup_app. split_and!; [|intros x Hx Hm|by apply us_fst].
    + pose proof (coh_ids _ _ _ Hc) as H. fold es_stored in H. rewrite (Permutation_map nid stored_split) in H.
      rewrite map_app in H. by apply NoDup_app in H as (H & _ & _).
    + apply Hmatched in Hm as [_ Hm]. by apply Hm, (coh_claimed _ _ _ Hc).
  - intros x. rewrite list_elem_of_fmap, elem_of_app. setoid_rewrite list_elem_of_filter. unfold P, isClaimed. split.
    + intros (e & -> & Hp & He). apply not_false_iff_true, orb_true_iff in Hp. rewrite !bool_decide_eq_true in Hp.
      rewrite elem_of_list_to_set, (coh_claimed _ _ _ Hc) in Hp. done.
    + intros Hx. assert (Hin : x ∈ map oid old).
      { destruct Hx as [Hx|Hx]; [|by apply Hmatched]. by apply (coh_claimed_old _ _ _ Hc), (coh_claimed _ _ _ Hc). }
      apply list_elem_of_fmap in Hin as (e & -> & He). exists e. split_and!; [done| |done].
      apply not_false_iff_true, orb_true_iff. rewrite !bool_decide_eq_true.
      by rewrite elem_of_list_to_set, (coh_claimed _ _ _ Hc).
Qed.

(** The identity pass serves leftovers in group order to eligible arrivals in
    arrival order. *)
Lemma us_in_order i e :
  es !! i = Some e ->
  forall o, (o, nid e) ∈ us <->
    idsWithIdentity index (identity (nkeys e)) old !!
      occurrences (identity (nkeys e)) (map (fun e => identity (nkeys e)) (take i es)) = Some o.
Proof.
  intros Hi o. set (d := identity (nkeys e)).
  assert (Ht : takes leftover (map (fun e => identity (nkeys e)) es) !! i =
    Some (idsWithIdentity index d old !! occurrences d (map (fun e => identity (nkeys e)) (take i es)))).
  { rewrite (takes_spec _ _ _ d) by (by rewrite list_lookup_fmap, Hi). rewrite leftover_pile.
    do 3 f_equal. symmetry. apply fmap_take. }
  split.
  - intros (j & e' & Ho & He & En)%elem_served.
    assert (i = j) as <-.
    { eapply (NoDup_lookup (map nid es)); [apply es_ids| |]; rewrite list_lookup_fmap.
      - by rewrite Hi.
      - by rewrite He, <- En. }
    rewrite Ht in Ho. by injection Ho.
  - intros Ho. unfold us, served. apply list_elem_of_omap. exists (Some o, e). split; [|done].
    apply (list_elem_of_lookup_2 _ i). apply lookup_zip_with_Some. exists (Some o), e. rewrite Ht, Ho. done.
Qed.
End plan_facts.

Lemma plan_partition old incoming index :
  Coherent old incoming index ->
  let plan := Reconcile old incoming index in
  order plan ++ stale plan ≡ₚ map oid old ++ freshIds incoming /\
  NoDup (order plan ++ stale plan) /\
  length (order plan) = length (filter (fun e => stored e = true) incoming) /\
  (forall i e, filter (fun e => stored e = true) incoming !! i = Some e ->
     exists x, order plan !! i = Some x /\
       (x = nid e /\ (reused e = true \/ forall o, (o, nid e) ∉ updates plan) \/
        reused e = false /\ (x, nid e) ∈ updates plan)).
Proof.
  intros Hc. cbv zeta. rewrite Reconcile_eq. cbv zeta. cbn [order stale updates].
  set (gone := filter _ old). set (sup := fold_left _ _ ∅). set (us := served _ _).
  assert (Hp : map (slot sup) (filter (fun e => stored e = true) incoming) ++
    (map oid gone ++ map nid (filter (fun e => reused e = false /\ is_Some (sup !! nid e))
       (filter (fun e => stored e = true) incoming))) ≡ₚ map oid old ++ freshIds incoming).
  { rewrite (Permutation_app_comm (map oid gone)), app_assoc.
    etransitivity; [apply Permutation_app_tail, slots_perm; done|].
    rewrite (old_perm old incoming index Hc). fold us gone.
    by rewrite (Permutation_app_comm _ (map oid gone)), app_assoc. }
  split_and!; [done| |by rewrite length_map|].
  - rewrite Hp. apply NoDup_app. split_and!.
    + apply (coh_old _ _ _ Hc).
    + intros x Hx Hf. by apply (coh_fresh _ _ _ Hc) in Hf.
    + by eapply freshIds_NoDup.
  - intros i e Hi. exists (slot sup e). split; [by rewrite list_lookup_fmap, Hi|].
    assert (Hsup : forall n o, sup !! n = Some o <-> (o, n) ∈ us) by (intros; by apply sup_spec).
    unfold slot. destruct (reused e); [left; by auto|].
    destruct (sup !! nid e) as [o|] eqn:E; simpl.
    + right. split; [done|]. by apply Hsup.
    + left. split; [done|]. right. intros o Ho. apply Hsup in Ho. congruence.
Qed.

(** The updates pair distinct old ids with distinct new ones. *)
Lemma plan_updates old incoming index :
  Coherent old incoming index ->
  let us := updates (Reconcile old incoming index) in
  NoDup (map fst us) /\ NoDup (map snd us) /\
  (forall o, o ∈ map fst us -> o ∈ map oid old /\ o ∉ claimedIds index) /\
  (forall n, n ∈ map snd us -> n ∈ freshIds incoming).
Proof.
  intros Hc. cbv zeta. rewrite Reconcile_eq. cbv zeta. cbn [updates].
  split_and!; [by apply us_fst|by apply us_snd| |by apply us_snd].
  intros o ([o' n] & -> & Hon)%list_elem_of_fmap.
  apply us_sound in Hon as (e & _ & He & <- & Hl & _). simpl. split; [by apply (list_elem_of_fmap_2 oid)|].
  intros Hin. unfold isLeft, isClaimed in Hl. by rewrite bool_decide_true in Hl.
Qed.

(** C7: A plan loses and duplicates no profile: its order and its stale list
    together hold every old id and every newly stored id exactly once, and the
    order has one slot per stored arrival, in arrival order: the reused id, the
    old id it updates, or its own. *)
Theorem Reconcile_partition old incoming index :
  Coherent old incoming index ->
  let plan := Reconcile old incoming index in
  order plan ++ stale plan ≡ₚ map oid old ++ freshIds incoming /\
  NoDup (order plan ++ stale plan) /\
  length (order plan) = length (filter (fun e => stored e = true) incoming) /\
  (forall i e, filter (fun e => stored e = true) incoming !! i = Some e ->
     exists x, order plan !! i = Some x /\
       (x = nid e /\ (reused e = true \/ forall o, (o, nid e) ∉ updates plan) \/
        reused e = false /\ (x, nid e) ∈ updates plan)).
Proof. apply plan_partition. Qed.

(** C31: What is left is paired by identity: the n-th eligible arrival with an
    identity updates the n-th unclaimed old profile with that identity whose
    content never arrived, and there are no other updates. *)
Theorem Reconcile_pairs old incoming index :
  Coherent old incoming index ->
  let plan := Reconcile old incoming index in
  let es := filter (fun e => eligible e = true) incoming in
  (forall i e o, es !! i = Some e ->
     (o, nid e) ∈ updates plan <->
     idsWithIdentity index (identity (nkeys e)) old !!
       occurrences (identity (nkeys e)) (map (fun e => identity (nkeys e)) (take i es)) = Some o) /\
  (forall o n, (o, n) ∈ updates plan -> exists e, e ∈ es /\ nid e = n) /\
  length (updated plan) = length (updates plan).
Proof.
  intros Hc. cbv zeta. split_and!.
  - intros i e o Hi. rewrite Reconcile_eq. by apply us_in_order.
  - intros o n. rewrite Reconcile_eq. cbv zeta. cbn [updates]. intros H.
    apply us_sound in H as (e & e' & _ & _ & _ & Hin & Hn & Hel & _). exists e'.
    split; [by apply list_elem_of_filter|done].
  - rewrite Reconcile_eq. cbv zeta. cbn [updates updated].
    destruct (fold_pairStep incoming (MkPairing (fold_left (leftoverStep index) old ∅) [] [] ∅ ∅)) as (_ & H & _).
    done.
Qed.

(** ** Witnesses *)

Definition keysOf (c i : string) : ProfileKeys := Keys (u c) (u i).

Definition old0 : list OldEntry :=
  [Old 3 (keysOf "a" "x") (u "A"); Old 4 (keysOf "a" "x") (u "A2"); Old 5 (keysOf "b" "y") (u "B"); Old 6 (keysOf "c" "z") (u "C")].

(** The subscription sends [a] once, [b] changed, and [d]. *)
Definition incoming0 : list NewEntry :=
  [New 3 true true (keysOf "a" "") (u "A"); New 7 false false (keysOf "b2" "y") (u "B"); New 8 false false (keysOf "d" "w") (u "D")].

Definition index0 : ContentIndex := (arriveAll (newIndex old0) [u "a"; u "b2"; u "d"]).2.

Lemma arriveAll_in_order_witness :
  (arriveAll (newIndex old0) [u "a"; u "a"; u "a"]).1 = [Some 3; Some 4; None] /\ NoDup (map oid old0) /\
  NoDup (omap id (arriveAll (newIndex old0) [u "a"; u "a"; u "a"]).1).
Proof.
  assert (H : NoDup (map oid old0)) by by apply (bool_decide_unpack _).
  split; [vm_compute; reflexivity|]. split; [exact H|]. exact (proj2 (arriveAll_in_order old0 _ H)).
Defined.

Lemma coherent0 : Coherent old0 incoming0 index0.
Proof.
  split.
  - by apply (bool_decide_unpack _).
  - by apply (bool_decide_unpack _).
  - by apply (bool_decide_unpack _).
  - intros i. assert (claimedIds index0 = list_to_set (reusedIds incoming0)) as ->.
    { apply (bool_decide_unpack _). vm_compute. exact I. }
    apply elem_of_list_to_set.
  - assert (claimedIds index0 ⊆ list_to_set (map oid old0)) as H.
    { apply (bool_decide_unpack _). vm_compute. exact I. }
    intros i Hi. by apply H, elem_of_list_to_set in Hi.
  - apply Forall_forall, (bool_decide_unpack _). vm_compute. exact I.
Qed.

Lemma Reconcile_partition_witness :
  order (Reconcile old0 incoming0 index0) = [3; 5; 8] /\ stale (Reconcile old0 incoming0 index0) = [4; 6; 7] /\
  NoDup (order (Reconcile old0 incoming0 index0) ++ stale (Reconcile old0 incoming0 index0)).
Proof.
  split; [vm_compute; reflexivity|]. split; [vm_compute; reflexivity|].
  exact (proj1 (proj2 (Reconcile_partition old0 incoming0 index0 coherent0))).
Defined.

Lemma Reconcile_pairs_witness :
  updates (Reconcile old0 incoming0 index0) = [(5, 7)] /\
  length (updated (Reconcile old0 incoming0 index0)) = length (updates (Reconcile old0 incoming0 index0)).
Proof.
  split; [vm_compute; reflexivity|].
  exact (proj2 (proj2 (Reconcile_pairs old0 incoming0 index0 coherent0))).
Defined.
