(* ===== verification/GroupOptions.v ===== *)
(** * GroupOptions: the subscription data of a group

    src/database/entities/Group.cpp, [SubUserInfo] and [SubscriptionOptions]:
    the JSON they are stored as.  [QVariant::toLongLong] of a JSON value is a
    library call; what is relied on is its value on an integer.  The theorems are
    the two round trips. *)

From S2P Require Import Prelude Text Json.

(** [QJsonValue::toVariant().toLongLong()] *)
Class QtVariant := { toLongLong : option json -> Z }.

Class QtVariantLaws (V : QtVariant) : Prop := {
  toLongLong_int : forall z, i64 z -> toLongLong (Some (jint z)) = z;
  toLongLong_none : toLongLong None = 0 }.

Record SubUserInfo := UserInfo {
  valid : bool; has_quota : bool;
  upload : Z; download : Z; total : Z; expire : Z;
  title : qstring; web_url : qstring; support_url : qstring; announce : qstring;
  server_interval : Z }.

Definition noUserInfo : SubUserInfo := UserInfo false false 0 0 0 0 [] [] [] [] 0.

Definition isEmpty (s : qstring) : bool := match s with [] => true | _ => false end.

Definition used (i : SubUserInfo) : Z := upload i + download i.

Definition remaining (i : SubUserInfo) : Z := if used i <? total i then total i - used i else 0.

Definition isExpired (now : Z) (i : SubUserInfo) : bool := if expire i <=? 0 then false else expire i <? now.

Definition SubUserInfo_toJson (i : SubUserInfo) : jobject :=
  if negb (valid i) then ∅
  else
    let json := <["has_quota" := JBool (has_quota i)]> (<["valid" := JBool (valid i)]> ∅) in
    let json := putIf (0 <? upload i) "upload" (jint (upload i)) json in
    let json := putIf (0 <? download i) "download" (jint (download i)) json in
    let json := putIf (0 <? total i) "total" (jint (total i)) json in
    let json := putIf (0 <? expire i) "expire" (jint (expire i)) json in
    let json := putIf (negb (isEmpty (title i))) "title" (JString (title i)) json in
    let json := putIf (negb (isEmpty (web_url i))) "web_url" (JString (web_url i)) json in
    let json := putIf (negb (isEmpty (support_url i))) "support_url" (JString (support_url i)) json in
    let json := putIf (negb (isEmpty (announce i))) "announce" (JString (announce i)) json in
    putIf (0 <? server_interval i) "server_interval" (jint (server_interval i)) json.

Definition SubUserInfo_fromJson `{QtVariant} (json : jobject) : SubUserInfo :=
  if bool_decide (json = ∅) then noUserInfo
  else
    UserInfo (toBool (field json "valid") false) (toBool (field json "has_quota") false)
      (toLongLong (field json "upload")) (toLongLong (field json "download"))
      (toLongLong (field json "total")) (toLongLong (field json "expire"))
      (toQString (field json "title") []) (toQString (field json "web_url") [])
      (toQString (field json "support_url") []) (toQString (field json "announce") [])
      (toInt (field json "server_interval") 0).

(** ** Options *)

Inductive subTlsVersion := tlsAutomatic | tls12 | tls13.

Inductive subHttpVersion := httpAutomatic | http11.

Inductive sendHwid := keepDefault | hwidOn | hwidOff.

Definition tlsInt (v : subTlsVersion) : Z := match v with tlsAutomatic => 0 | tls12 => 1 | tls13 => 2 end.

Definition httpInt (v : subHttpVersion) : Z := match v with httpAutomatic => 0 | http11 => 1 end.

Definition hwidInt (v : sendHwid) : Z := match v with keepDefault => 0 | hwidOn => 1 | hwidOff => 2 end.

Record SubscriptionOptions := Options {
  user_agent : qstring;
  tls_version : option subTlsVersion;
  http_version : option subHttpVersion;
  send_hwid : sendHwid;
  hwid : qstring; hwid_os : qstring; hwid_os_version : qstring; hwid_model : qstring;
  update_interval : Z;
  respect_server_interval : option bool;
  keep_working : bool; remove_duplicates : bool; remove_insecure : bool; remove_invalid : bool;
  url_test : bool; remove_unavailable : bool; sort_by_latency : bool }.

Definition putText (k : string) (s : qstring) : jobject -> jobject := putIf (negb (isEmpty s)) k (JString s).

Definition putSome (k : string) (v : option json) (o : jobject) : jobject :=
  match v with Some v => <[k := v]> o | None => o end.

Definition ToJson (o : SubscriptionOptions) : jobject :=
  let json := putText "user_agent" (user_agent o) ∅ in
  let json := putSome "tls_version" ((fun v => jint (tlsInt v)) <$> tls_version o) json in
  let json := putSome "http_version" ((fun v => jint (httpInt v)) <$> http_version o) json in
  let json := putIf (negb (hwidInt (send_hwid o) =? hwidInt keepDefault)) "send_hwid" (jint (hwidInt (send_hwid o))) json in
  let json := putText "hwid" (hwid o) json in
  let json := putText "hwid_os" (hwid_os o) json in
  let json := putText "hwid_os_version" (hwid_os_version o) json in
  let json := putText "hwid_model" (hwid_model o) json in
  let json := putIf (0 <? update_interval o) "update_interval" (jint (update_interval o)) json in
  let json := putSome "respect_server_interval" (JBool <$> respect_server_interval o) json in
  let json := putIf (keep_working o) "keep_working" (JBool true) json in
  let json := putIf (remove_duplicates o) "remove_duplicates" (JBool true) json in
  let json := putIf (remove_insecure o) "remove_insecure" (JBool true) json in
  let json := putIf (remove_invalid o) "remove_invalid" (JBool true) json in
  let json := putIf (url_test o) "url_test" (JBool true) json in
  let json := putIf (remove_unavailable o) "remove_unavailable" (JBool true) json in
  putIf (sort_by_latency o) "sort_by_latency" (JBool true) json.

(** [static_cast] of an int in the enum's range. *)
Definition tlsOf (z : Z) : subTlsVersion := if z =? 0 then tlsAutomatic else if z =? 1 then tls12 else tls13.

Definition httpOf (z : Z) : subHttpVersion := if z =? 0 then httpAutomatic else http11.

Definition FromJson (json : jobject) : SubscriptionOptions :=
  let tls := toInt (field json "tls_version") (-1) in
  let http := toInt (field json "http_version") (-1) in
  let mode := toInt (field json "send_hwid") 0 in
  Options (toQString (field json "user_agent") [])
    (if (0 <=? tls) && (tls <=? tlsInt tls13) then Some (tlsOf tls) else None)
    (if (0 <=? http) && (http <=? httpInt http11) then Some (httpOf http) else None)
    (if mode =? hwidInt hwidOn then hwidOn else if mode =? hwidInt hwidOff then hwidOff else keepDefault)
    (toQString (field json "hwid") []) (toQString (field json "hwid_os") [])
    (toQString (field json "hwid_os_version") []) (toQString (field json "hwid_model") [])
    (Z.max (toInt (field json "update_interval") 0) 0)
    (match field json "respect_server_interval" with Some (JBool b) => Some b | _ => None end)
    (toBool (field json "keep_working") false) (toBool (field json "remove_duplicates") false)
    (toBool (field json "remove_insecure") false) (toBool (field json "remove_invalid") false)
    (toBool (field json "url_test") false) (toBool (field json "remove_unavailable") false)
    (toBool (field json "sort_by_latency") false).

(** ** Round trips *)

(** An object built by optional insertions, as the list of its members. *)
Definition buildObject (fields : list (string * option json)) : jobject :=
  fold_left (fun o '(k, v) => putSome k v o) fields ∅.

Fixpoint memberOf (k : string) (fields : list (string * option json)) (v : option json) : option json :=
  match fields with
  | [] => v
  | (k', v') :: fields => memberOf k fields (if String.eqb k' k then match v' with Some _ => v' | None => v end else v)
  end.

Lemma field_putSome k v o k' :
  field (putSome k v o) k' = if String.eqb k k' then match v with Some _ => v | None => field o k' end else field o k'.
Proof. destruct v; [apply (field_putIf true)|]. simpl. by destruct (String.eqb k k'). Qed.

Lemma field_build fields k : field (buildObject fields) k = memberOf k fields None.
Proof.
  unfold buildObject. change (@None json) with (field ∅ k). generalize (∅ : jobject).
  induction fields as [|[k' v] fields IH]; intros o; [done|]. cbn [fold_left memberOf].
  by rewrite IH, field_putSome.
Qed.

Lemma putIf_some c k v o : putIf c k v o = putSome k (if c then Some v else None) o.
Proof. by destruct c. Qed.

Lemma insert_some k v (o : jobject) : <[k := v]> o = putSome k (Some v) o.
Proof. done. Qed.

(** Reads the fields of an object given as a list of members. *)
Ltac read_fields := rewrite !field_build; cbn [memberOf String.eqb Ascii.eqb Bool.eqb].

Definition textMember (s : qstring) : option json := if negb (isEmpty s) then Some (JString s) else None.

Definition positiveMember (z : Z) : option json := if 0 <? z then Some (jint z) else None.

Definition flagMember (b : bool) : option json := if b then Some (JBool true) else None.

Definition infoFields (i : SubUserInfo) : list (string * option json) :=
  [("valid", Some (JBool true)); ("has_quota", Some (JBool (has_quota i)));
   ("upload", positiveMember (upload i)); ("download", positiveMember (download i));
   ("total", positiveMember (total i)); ("expire", positiveMember (expire i));
   ("title", textMember (title i)); ("web_url", textMember (web_url i));
   ("support_url", textMember (support_url i)); ("announce", textMember (announce i));
   ("server_interval", positiveMember (server_interval i))]%string.

Lemma SubUserInfo_toJson_fields i :
  SubUserInfo_toJson i = if valid i then buildObject (infoFields i) else ∅.
Proof.
  unfold SubUserInfo_toJson. destruct (valid i); [|done]. cbn [negb]. rewrite !putIf_some, !insert_some. done.
Qed.

Definition optionFields (o : SubscriptionOptions) : list (string * option json) :=
  [("user_agent", textMember (user_agent o));
   ("tls_version", (fun v => jint (tlsInt v)) <$> tls_version o);
   ("http_version", (fun v => jint (httpInt v)) <$> http_version o);
   ("send_hwid", if negb (hwidInt (send_hwid o) =? hwidInt keepDefault)%Z then Some (jint (hwidInt (send_hwid o))) else None);
   ("hwid", textMember (hwid o)); ("hwid_os", textMember (hwid_os o));
   ("hwid_os_version", textMember (hwid_os_version o)); ("hwid_model", textMember (hwid_model o));
   ("update_interval", positiveMember (update_interval o));
   ("respect_server_interval", JBool <$> respect_server_interval o);
   ("keep_working", flagMember (keep_working o)); ("remove_duplicates", flagMember (remove_duplicates o));
   ("remove_insecure", flagMember (remove_insecure o)); ("remove_invalid", flagMember (remove_invalid o));
   ("url_test", flagMember (url_test o)); ("remove_unavailable", flagMember (remove_unavailable o));
   ("sort_by_latency", flagMember (sort_by_latency o))]%string.

Lemma ToJson_fields o : ToJson o = buildObject (optionFields o).
Proof. unfold ToJson, putText. rewrite !putIf_some. done. Qed.

Lemma toQString_text s : toQString (textMember s) [] = s.
Proof. by destruct s. Qed.

Definition atLeast0 (z : Z) : Z := Z.max z 0.

(** What a stored user info means: nothing unless it is valid; a negative
    counter reads as 0. *)
Definition normalInfo (i : SubUserInfo) : SubUserInfo :=
  if valid i then
    UserInfo true (has_quota i) (atLeast0 (upload i)) (atLeast0 (download i)) (atLeast0 (total i)) (atLeast0 (expire i))
      (title i) (web_url i) (support_url i) (announce i) (atLeast0 (server_interval i))
  else noUserInfo.

Definition sizedInfo (i : SubUserInfo) : Prop :=
  i64 (upload i) /\ i64 (download i) /\ i64 (total i) /\ i64 (expire i) /\ i32 (server_interval i).

Lemma read_text s : match textMember s with Some _ => textMember s | None => None end = textMember s.
Proof. by destruct (textMember s). Qed.

Lemma read_positive z : match positiveMember z with Some _ => positiveMember z | None => None end = positiveMember z.
Proof. by destruct (positiveMember z). Qed.

Lemma toLongLong_positive `{QtVariantLaws} z :
  i64 z -> toLongLong (positiveMember z) = atLeast0 z.
Proof.
  unfold atLeast0, positiveMember. intros Hz. destruct (Z.ltb_spec 0 z); [rewrite toLongLong_int by done|rewrite toLongLong_none]; lia.
Qed.

Lemma toInt_positive z : i32 z -> toInt (positiveMember z) 0 = atLeast0 z.
Proof.
  unfold atLeast0, positiveMember. intros Hz. destruct (Z.ltb_spec 0 z); [rewrite toInt_jint by done; lia|]. cbn [toInt]. lia.
Qed.

(** The subscription quota data read back is what was stored: all of
    it when it is valid (a negative counter reads as 0), nothing when it is not. *)
Theorem SubUserInfo_roundtrip `{QtVariantLaws} (i : SubUserInfo) :
  sizedInfo i -> SubUserInfo_fromJson (SubUserInfo_toJson i) = normalInfo i.
Proof.
  intros (H1 & H2 & H3 & H4 & H5). rewrite SubUserInfo_toJson_fields. unfold normalInfo.
  destruct (valid i); [|done].
  unfold SubUserInfo_fromJson. rewrite bool_decide_false.
  2:{ intros E. apply (f_equal (fun o => field o "valid")) in E. revert E. by read_fields. }
  unfold infoFields. read_fields. rewrite !read_text, !read_positive.
  rewrite !toLongLong_positive, toInt_positive, !toQString_text by done. done.
Qed.

(** A group's subscription options survive [ToJson] and [FromJson]. *)
Theorem SubscriptionOptions_roundtrip (o : SubscriptionOptions) :
  i32 (update_interval o) -> 0 <= update_interval o -> FromJson (ToJson o) = o.
Proof.
  intros Hi Hpos. destruct o as [ua tls http hw h1 h2 h3 h4 ui rsi b1 b2 b3 b4 b5 b6 b7]. cbn [update_interval] in *.
  rewrite ToJson_fields. unfold FromJson, optionFields.
  cbn [user_agent tls_version http_version send_hwid hwid hwid_os hwid_os_version hwid_model
    update_interval respect_server_interval keep_working remove_duplicates remove_insecure remove_invalid url_test
    remove_unavailable sort_by_latency].
  read_fields. rewrite !read_text, read_positive, !toQString_text.
  f_equal; try (rewrite toInt_positive by done; unfold atLeast0; lia);
    [by destruct tls as [[]|]|by destruct http as [[]|]|by destruct hw|by destruct rsi as [[]|]
    |by destruct b1|by destruct b2|by destruct b3|by destruct b4|by destruct b5|by destruct b6|by destruct b7].
Qed.

(** ** Witnesses *)

Definition plainVariant : QtVariant :=
  {| toLongLong := fun v => match v with Some (JNum z _) => z | _ => 0 end |}.

Lemma plainVariant_laws : QtVariantLaws plainVariant.
Proof. by split. Qed.

Definition info0 : SubUserInfo :=
  UserInfo true true 1024 (2 ^ 40) (2 ^ 41) 1893456000 (u "Title") [] [] (u "news") 12.

Lemma SubUserInfo_roundtrip_witness :
  sizedInfo info0 /\ @SubUserInfo_fromJson plainVariant (SubUserInfo_toJson info0) = info0.
Proof.
  assert (H : sizedInfo info0) by (unfold sizedInfo, in_int; cbn; lia). split; [exact H|].
  exact (@SubUserInfo_roundtrip plainVariant plainVariant_laws info0 H).
Defined.

Definition options0 : SubscriptionOptions :=
  Options (u "agent") (Some tls13) (Some httpAutomatic) hwidOff [] (u "os") [] [] 45 (Some false)
    true false true false true true false.

Lemma SubscriptionOptions_roundtrip_witness : FromJson (ToJson options0) = options0.
Proof. apply (SubscriptionOptions_roundtrip options0); unfold in_int; cbn; lia. Defined.
