(* ===== verification/Group.v ===== *)
(** * Group: the listing of a group and its kept order

    src/database/entities/Group.cpp from [bitrateToBps] on.  A group lists the
    ids of its profiles; the table operations edit the list, and the kept sort
    rearranges it ([ProfileIdComesBefore], [SortProfileIdList], [Resort]).
    Profiles and the disabled flags are read through the repositories, which are
    lookup functions here; the conversion of a speed text ([bitrateToBps], double
    arithmetic) is a parameter.  [Resort] sorts a copy without the lock, so other
    threads' writes are explicit: one per attempt. *)

From Stdlib Require Import QArith.
From S2P Require Import Prelude Text StableSort ProfileMetrics.
#[global] Open Scope Z_scope.

Inductive GroupSortMethod :=
  | Raw | ByType | ByAddress | ByName | ByTestResult | ById | ByTraffic | BySecurity | ByLatency.

#[export] Instance GroupSortMethod_eq_dec : EqDecision GroupSortMethod.
Proof. solve_decision. Defined.

Record GroupSortAction := SortAction { method : GroupSortMethod; descending : bool }.

Inductive testBy := latency | txSpeed | rxSpeed | connectTime | siteScore.

Inductive trafficBy := tx | rx.

Inductive SortInput := Membership | Config | TestResult | Traffic.

(** What the sorts read of a profile. *)
Record Profile := MkProfile {
  displayType : qstring; oname : qstring; displayAddress : qstring;
  secLevel : Z; secTransport : qstring; secLabel : qstring;
  platency : Z; performance_test_status : PerformanceTestStatus;
  ul_speed : qstring; rx_speed_mbps : Q; connect_time_ms : Z; site_score : Q;
  traffic_downlink : Z; traffic_uplink : Z }.

Record Group := MkGroup {
  profiles : list Z;
  sort : GroupSortAction;
  test_sort_by : testBy;
  traffic_sort_by : trafficBy }.

(** [QString]'s [<]: code units, lexicographically. *)
Fixpoint qstring_lt (s t : qstring) : bool :=
  match s, t with
  | [], [] => false
  | [], _ :: _ => true
  | _ :: _, [] => false
  | a :: s, b :: t => if a <? b then true else if b <? a then false else qstring_lt s t
  end.

Section Sorting.
Context (GetProfile : Z -> option Profile) (IsProfileDisabled : Z -> bool) (bitrateToBps : qstring -> Q).

Definition statusForSort (testSortBy : testBy) (profile : Profile) : PerformanceTestStatus :=
  match testSortBy with
  | latency =>
      if 0 <? platency profile then Success else if platency profile =? 0 then Untested else Error
  | _ => performance_test_status profile
  end.

Definition valueForSort (testSortBy : testBy) (profile : Profile) : Q :=
  match testSortBy with
  | latency => inject_Z (platency profile)
  | txSpeed => bitrateToBps (ul_speed profile)
  | rxSpeed => rx_speed_mbps profile
  | connectTime => inject_Z (connect_time_ms profile)
  | siteScore => site_score profile
  end.

Definition compareText (descending : bool) (a b : qstring) : bool :=
  if descending then qstring_lt b a else qstring_lt a b.

Definition compareZ (descending : bool) (a b : Z) : bool := if descending then b <? a else a <? b.

(** The body once both profiles are loaded. *)
Definition profileComesBefore (profA profB : Profile) (sortAction : GroupSortAction)
    (testSortBy : testBy) (trafficSortBy : trafficBy) : bool :=
  match method sortAction with
  | ByType => compareText (descending sortAction) (displayType profA) (displayType profB)
  | ByName => compareText (descending sortAction) (oname profA) (oname profB)
  | ByAddress => compareText (descending sortAction) (displayAddress profA) (displayAddress profB)
  | BySecurity =>
      if negb (secLevel profA =? secLevel profB) then compareZ (descending sortAction) (secLevel profA) (secLevel profB)
      else compareText (descending sortAction) (secTransport profA ++ secLabel profA) (secTransport profB ++ secLabel profB)
  | ByTestResult | ByLatency =>
      let testSortBy := match method sortAction with ByLatency => latency | _ => testSortBy end in
      PerformanceComesBefore (statusForSort testSortBy profA) (valueForSort testSortBy profA)
        (statusForSort testSortBy profB) (valueForSort testSortBy profB) (descending sortAction)
  | ByTraffic =>
      let valueA := match trafficSortBy with rx => traffic_downlink profA | tx => traffic_uplink profA end in
      let valueB := match trafficSortBy with rx => traffic_downlink profB | tx => traffic_uplink profB end in
      if valueA =? valueB then false else compareZ (descending sortAction) valueA valueB
  | Raw | ById => compareText (descending sortAction) [] []
  end.

Definition ProfileIdComesBefore (sortAction : GroupSortAction) (testSortBy : testBy) (trafficSortBy : trafficBy)
    (idA idB : Z) : bool :=
  match GetProfile idA, GetProfile idB with
  | Some profA, Some profB => profileComesBefore profA profB sortAction testSortBy trafficSortBy
  | profA, _ => match profA with Some _ => true | None => false end
  end.

(** [std::stable_partition] *)
Definition stablePartition (p : Z -> bool) (ids : list Z) : list Z :=
  filter (fun id => p id = true) ids ++ filter (fun id => ~ p id = true) ids.

Definition SortProfileIdList (ids : list Z) (sortAction : GroupSortAction) (testSortBy : testBy)
    (trafficSortBy : trafficBy) : list Z :=
  let ids :=
    match method sortAction with
    | Raw | ById => ids
    | _ => stable_sort (ProfileIdComesBefore sortAction testSortBy trafficSortBy) ids
    end in
  stablePartition (fun id => negb (IsProfileDisabled id)) ids.

Definition SortReads (g : Group) (input : SortInput) : bool :=
  match method (sort g) with
  | Raw | ById => false
  | ByTestResult | ByLatency => match input with Membership | TestResult => true | _ => false end
  | ByTraffic => match input with Membership | Traffic => true | _ => false end
  | _ => match input with Membership | Config => true | _ => false end
  end.

Definition KeepsSorted (g : Group) : bool := SortReads g Membership.

Definition withProfiles (g : Group) (ids : list Z) : Group :=
  MkGroup ids (sort g) (test_sort_by g) (traffic_sort_by g).

Definition SetSort (g : Group) (action : GroupSortAction) : Group :=
  MkGroup (profiles g) action (test_sort_by g) (traffic_sort_by g).

Definition sortedProfiles (g : Group) : list Z :=
  SortProfileIdList (profiles g) (sort g) (test_sort_by g) (traffic_sort_by g).

(** The attempts of [Resort]; [others] is what other threads do to the group
    between the snapshot and the second lock of each attempt. *)
Fixpoint resortLoop (attempts : nat) (others : list (Group -> Group)) (g : Group) : bool * Group :=
  match attempts with
  | O => (false, g)
  | S attempts =>
      if negb (KeepsSorted g) then (false, g)
      else
        let after := sortedProfiles g in
        let g' := (match others with f :: _ => f g | [] => g end) in
        if negb (bool_decide (profiles g' = profiles g)) || negb (bool_decide (method (sort g') = method (sort g)))
           || negb (Bool.eqb (descending (sort g')) (descending (sort g)))
        then resortLoop attempts (tail others) g'
        else if bool_decide (profiles g' = after) then (false, g')
        else (true, withProfiles g' after)
  end.

Definition Resort (others : list (Group -> Group)) (g : Group) : bool * Group := resortLoop 3 others g.

Definition SortProfiles (others : list (Group -> Group)) (g : Group) (action : GroupSortAction) : bool * Group :=
  Resort others (SetSort g action).

Definition Reposition (others : list (Group -> Group)) (g : Group) (changed : list Z) : bool * Group :=
  match changed with [] => (false, g) | _ => Resort others g end.
End Sorting.

(** ** The table's operations *)

Definition HasProfile (g : Group) (ID : Z) : bool := bool_decide (ID ∈ profiles g).

Definition ReplaceProfiles (g : Group) (ids : list Z) : bool * Group := (true, withProfiles g ids).

Definition AddProfile (g : Group) (ID : Z) : bool * Group :=
  if HasProfile g ID then (false, g) else (true, withProfiles g (profiles g ++ [ID])).

(** The ids listed before the call are looked up, not those it adds. *)
Definition AddProfileBatch (g : Group) (IDs : list Z) : bool * Group :=
  (true, withProfiles g (profiles g ++ filter (fun ID => ID ∉ profiles g) IDs)).

Definition RemoveProfile (g : Group) (ID : Z) : bool * Group :=
  if HasProfile g ID then (true, withProfiles g (filter (fun id => id <> ID) (profiles g))) else (false, g).

Definition RemoveProfileBatch (g : Group) (IDs : list Z) : bool * Group :=
  (true, withProfiles g (filter (fun id => id ∉ IDs) (profiles g))).

(** [None]: an index out of range, undefined behaviour of QList. *)
Definition SwapProfiles (g : Group) (idx1 idx2 : Z) : option (bool * Group) :=
  let n := Z.of_nat (length (profiles g)) in
  if (n <=? idx1) || (n <=? idx2) then Some (false, g)
  else if (idx1 <? 0) || (idx2 <? 0) then None
  else
    match profiles g !! Z.to_nat idx1, profiles g !! Z.to_nat idx2 with
    | Some a, Some b => Some (true, withProfiles g (<[Z.to_nat idx2 := a]> (<[Z.to_nat idx1 := b]> (profiles g))))
    | _, _ => None
    end.

(** [QList::insert] and [QList::remove] at an index in range. *)
Definition insertAt (l : list Z) (i : Z) (x : Z) : list Z := take (Z.to_nat i) l ++ x :: drop (Z.to_nat i) l.

Definition removeAt (l : list Z) (i : Z) : list Z := take (Z.to_nat i) l ++ drop (S (Z.to_nat i)) l.

Definition EmplaceProfile (g : Group) (idx newIdx : Z) : option (bool * Group) :=
  let n := Z.of_nat (length (profiles g)) in
  if (n <=? idx) || (n <=? newIdx) then Some (false, g)
  else if (idx <? 0) || (newIdx <? -1) then None
  else
    match profiles g !! Z.to_nat idx with
    | None => None
    | Some x =>
        let inserted := insertAt (profiles g) (newIdx + 1) x in
        Some (true, withProfiles g (if idx <? newIdx then removeAt inserted idx else removeAt inserted (idx + 1)))
    end.

(** ** The comparator is a strict weak order *)

Lemma qstring_lt_strictWeak : StrictWeak qstring_lt.
Proof.
  split.
  - induction x as [|a x IH]; [done|]. simpl. by rewrite Z.ltb_irrefl.
  - induction x as [|a x IH]; intros [|b y]; simpl; try done.
    destruct (Z.ltb_spec a b), (Z.ltb_spec b a); try done; [lia|apply IH].
  - induction x as [|a x IH]; intros [|b y] [|c z]; simpl; auto.
    destruct (Z.ltb_spec a c), (Z.ltb_spec c a), (Z.ltb_spec a b), (Z.ltb_spec b a), (Z.ltb_spec b c), (Z.ltb_spec c b);
      try done; try (by auto); lia.
Qed.

Lemma constFalse_strictWeak {A} : StrictWeak (fun _ _ : A => false).
Proof. by split. Qed.

Section SortFacts.
Context (GetProfile : Z -> option Profile) (IsProfileDisabled : Z -> bool) (bitrateToBps : qstring -> Q).

Abbreviation before := (ProfileIdComesBefore GetProfile bitrateToBps).

Lemma compareText_strictWeak {A} d (f : A -> qstring) : StrictWeak (fun a b => compareText d (f a) (f b)).
Proof.
  unfold compareText. destruct d; [apply (strictWeak_flip (fun a b => qstring_lt (f a) (f b)))|];
    apply strictWeak_key, qstring_lt_strictWeak.
Qed.

Lemma compareZ_lex {A} d (f : A -> Z) lt :
  StrictWeak lt -> StrictWeak (fun a b => if negb (f a =? f b) then compareZ d (f a) (f b) else lt a b).
Proof. intros H. destruct d; (apply strictWeak_lex; [by auto|done]). Qed.

Lemma profileComesBefore_strictWeak action tests traffic :
  StrictWeak (fun a b => profileComesBefore bitrateToBps a b action tests traffic).
Proof.
  unfold profileComesBefore. destruct (method action).
  1,2,3,4,6: apply compareText_strictWeak.
  - apply (strictWeak_key (fun p => (statusForSort tests p, valueForSort bitrateToBps tests p))
      (fun a b => PerformanceComesBefore a.1 a.2 b.1 b.2 _)), PerformanceComesBefore_order.
  - pose proof (compareZ_lex (descending action)
      (fun p => match traffic with rx => traffic_downlink p | tx => traffic_uplink p end) _ constFalse_strictWeak) as H.
    destruct H as [H1 H2 H3]. split; intros *; [specialize (H1 x)|specialize (H2 x y)|specialize (H3 x y z)]; simpl in *;
      repeat destruct (_ =? _); done || auto.
  - apply (compareZ_lex (descending action) secLevel), compareText_strictWeak.
  - apply (strictWeak_key (fun p => (statusForSort latency p, valueForSort bitrateToBps latency p))
      (fun a b => PerformanceComesBefore a.1 a.2 b.1 b.2 _)), PerformanceComesBefore_order.
Qed.

Lemma before_strictWeak action tests traffic : StrictWeak (before action tests traffic).
Proof. apply strictWeak_option, profileComesBefore_strictWeak. Qed.

Lemma stablePartition_perm p ids : stablePartition p ids ≡ₚ ids.
Proof. apply filter_app_complement. Qed.

Lemma SortProfileIdList_perm ids action tests traffic :
  SortProfileIdList GetProfile IsProfileDisabled bitrateToBps ids action tests traffic ≡ₚ ids.
Proof. unfold SortProfileIdList. rewrite stablePartition_perm. destruct (method action); try done; by rewrite sort_perm. Qed.

Definition enabled (id : Z) : Prop := IsProfileDisabled id = false.

#[local] Instance enabled_dec id : Decision (enabled id) := decide (IsProfileDisabled id = false).

Lemma stablePartition_enabled ids :
  stablePartition (fun id => negb (IsProfileDisabled id)) ids =
  filter enabled ids ++ filter (fun id => ~ enabled id) ids.
Proof.
  unfold stablePartition, enabled. f_equal; apply list_filter_iff; intros id; by destruct (IsProfileDisabled id).
Qed.

(** A kept sort is well defined (its comparator is a strict weak
    order for every method, whatever the profiles) and stable: the enabled
    profiles sorted, then the disabled ones sorted, no id lost or duplicated; the
    manual methods only move the disabled ones last. *)
Theorem SortProfileIdList_spec ids action tests traffic :
  StrictWeak (before action tests traffic) /\
  let r := SortProfileIdList GetProfile IsProfileDisabled bitrateToBps ids action tests traffic in
  r ≡ₚ ids /\
  exists on off, r = on ++ off /\ on ≡ₚ filter enabled ids /\ off ≡ₚ filter (fun id => ~ enabled id) ids /\
    match method action with
    | Raw | ById => on = filter enabled ids /\ off = filter (fun id => ~ enabled id) ids
    | _ => stableSortOf (before action tests traffic) (filter enabled ids) on /\
           stableSortOf (before action tests traffic) (filter (fun id => ~ enabled id) ids) off
    end.
Proof.
  pose proof (before_strictWeak action tests traffic) as Hsw.
  split; [done|]. cbv zeta. split; [apply SortProfileIdList_perm|].
  unfold SortProfileIdList. rewrite stablePartition_enabled.
  set (manual := match method action with Raw | ById => True | _ => False end).
  assert (manual \/ ~ manual) as [Hm|Hm] by (unfold manual; destruct (method action); tauto); unfold manual in Hm.
  - exists (filter enabled ids), (filter (fun id => ~ enabled id) ids). by destruct (method action).
  - exists (stable_sort (before action tests traffic) (filter enabled ids)),
      (stable_sort (before action tests traffic) (filter (fun id => ~ enabled id) ids)).
    destruct (method action); try by destruct Hm.
    all: rewrite !stable_sort_filter by done; split_and!; try done; apply sort_perm || by apply stable_sort_spec.
Qed.

(** ** Resort under interference *)

Definition applyAll (fs : list (Group -> Group)) (g : Group) : Group := fold_left (fun g f => f g) fs g.

Abbreviation resort := (Resort GetProfile IsProfileDisabled bitrateToBps).

Abbreviation attempt := (resortLoop GetProfile IsProfileDisabled bitrateToBps).

Abbreviation sorted := (sortedProfiles GetProfile IsProfileDisabled bitrateToBps).

Lemma resortLoop_spec n others g :
  exists k, (k <= n)%nat /\
  let g' := applyAll (take k others) g in
  attempt n others g = (false, g') \/
  exists after tests traffic, attempt n others g = (true, withProfiles g' after) /\ after <> profiles g' /\
    after = SortProfileIdList GetProfile IsProfileDisabled bitrateToBps (profiles g') (sort g') tests traffic.
Proof.
  revert others g. induction n as [|n IH]; intros others g.
  - exists 0%nat. split; [done|]. by left.
  - cbn [resortLoop]. destruct (KeepsSorted g); simpl negb; cbn iota; [|exists 0%nat; split; [lia|by left]].
    set (g' := match others with f :: _ => f g | [] => g end).
    assert (Hg : forall k, applyAll (take k (tail others)) g' = applyAll (take (S k) others) g).
    { intros k. unfold g'. destruct others; [by destruct k|done]. }
    destruct (_ || _) eqn:E.
    + destruct (IH (tail others) g') as (k & Hk & H). exists (S k). split; [lia|]. by rewrite Hg in H.
    + apply orb_false_iff in E as [E E3]. apply orb_false_iff in E as [E1 E2]. rewrite negb_false_iff in E1, E2, E3.
      apply bool_decide_eq_true in E1, E2. apply eqb_prop in E3.
      assert (Es : sort g' = sort g) by (destruct (sort g'), (sort g); cbn in *; congruence).
      exists 1%nat. split; [lia|]. rewrite <- Hg. cbn [take applyAll fold_left]. case_bool_decide as E4; [by left|].
      right. exists (sorted g), (test_sort_by g), (traffic_sort_by g). split_and!; [done|done|].
      change (applyAll (take 0 (tail others)) g') with g'. unfold sortedProfiles. by rewrite E1, Es.
Qed.

Lemma Resort_alone g :
  resort [] g =
  if KeepsSorted g then (negb (bool_decide (sorted g = profiles g)), withProfiles g (sorted g)) else (false, g).
Proof.
  unfold Resort. cbn [resortLoop]. destruct (KeepsSorted g); simpl negb; cbn iota; [|done].
  rewrite !bool_decide_true, eqb_reflx by done. simpl. case_bool_decide as E.
  - rewrite bool_decide_true by done. simpl. rewrite <- E. by destruct g.
  - by rewrite bool_decide_false by congruence.
Qed.

(** Whatever other threads do to the group while a copy is sorted,
    [Resort] loses none of it: it leaves the group as they left it, or replaces
    the listing they left by its own rearrangement in the kept order; alone, it
    installs the sorted listing and says whether the order moved. *)
Theorem Resort_keeps_updates others g :
  (exists k, (k <= 3)%nat /\
   let g' := applyAll (take k others) g in
   resort others g = (false, g') \/
   exists after tests traffic, resort others g = (true, withProfiles g' after) /\ after ≡ₚ profiles g' /\
     after = SortProfileIdList GetProfile IsProfileDisabled bitrateToBps (profiles g') (sort g') tests traffic) /\
  (resort [] g =
   if KeepsSorted g then (negb (bool_decide (sorted g = profiles g)), withProfiles g (sorted g)) else (false, g)).
Proof.
  split.
  - destruct (resortLoop_spec 3 others g) as (k & Hk & [H|(after & tests & traffic & H & _ & Ha)]); exists k;
      (split; [done|]); [by left|right]. exists after, tests, traffic. split_and!; [done| |done].
    rewrite Ha. apply SortProfileIdList_perm.
  - apply Resort_alone.
Qed.
End SortFacts.

(** ** Moving one profile *)

Lemma insertAt_perm l i x : insertAt l i x ≡ₚ x :: l.
Proof. unfold insertAt. by rewrite <- Permutation_middle, take_drop. Qed.

Lemma removeAt_perm l i x : 0 <= i -> l !! Z.to_nat i = Some x -> x :: removeAt l i ≡ₚ l.
Proof.
  intros Hi H. unfold removeAt. rewrite Permutation_middle.
  by rewrite <- (take_drop_middle _ _ _ H) at 3.
Qed.

Lemma insertAt_app a b i x : i = Z.of_nat (length a) -> insertAt (a ++ b) i x = a ++ x :: b.
Proof. intros ->. unfold insertAt. by rewrite Nat2Z.id, take_app_length, drop_app_length. Qed.

Lemma removeAt_app a b i x : i = Z.of_nat (length a) -> removeAt (a ++ x :: b) i = a ++ b.
Proof.
  intros ->. unfold removeAt. rewrite Nat2Z.id, take_app_length.
  replace (S (length a)) with (length (a ++ [x])) by (rewrite length_app; simpl; lia).
  replace (a ++ x :: b) with ((a ++ [x]) ++ b) by (by rewrite <- app_assoc). by rewrite drop_app_length.
Qed.

(** The listing around two positions. *)
Lemma split_two (l : list Z) i j :
  0 <= i <= j -> j <= Z.of_nat (length l) ->
  exists a b c, l = a ++ b ++ c /\ Z.of_nat (length a) = i /\ Z.of_nat (length b) = j - i.
Proof.
  intros Hi Hj. exists (take (Z.to_nat i) l), (take (Z.to_nat (j - i)) (drop (Z.to_nat i) l)), (drop (Z.to_nat (j - i)) (drop (Z.to_nat i) l)).
  rewrite !take_drop, !length_take, length_drop. split_and!; [done|lia|lia].
Qed.

Lemma emplace_down (l : list Z) idx newIdx x :
  0 <= idx <= newIdx -> newIdx < Z.of_nat (length l) -> l !! Z.to_nat idx = Some x ->
  (if idx <? newIdx then removeAt (insertAt l (newIdx + 1) x) idx else removeAt (insertAt l (newIdx + 1) x) (idx + 1))
  = insertAt (removeAt l idx) newIdx x.
Proof.
  intros Hi Hn Hx. destruct (split_two l (idx) (newIdx + 1)) as (a & b & c & -> & Ha & Hb); [lia|lia|].
  destruct b as [|y b]; [simpl in Hb; lia|]. cbn [length] in Hb.
  rewrite lookup_app_r, <- Ha, Nat2Z.id, Nat.sub_diag in Hx by lia. injection Hx as ->.
  assert (insertAt (a ++ (x :: b) ++ c) (newIdx + 1) x = a ++ x :: b ++ x :: c) as ->.
  { rewrite app_assoc, insertAt_app by (rewrite length_app; cbn [length]; lia). by rewrite <- app_assoc. }
  assert (removeAt (a ++ (x :: b) ++ c) idx = a ++ b ++ c) as -> by (apply removeAt_app; lia).
  assert (insertAt (a ++ b ++ c) newIdx x = a ++ b ++ x :: c) as ->.
  { rewrite app_assoc, insertAt_app by (rewrite length_app; lia). by rewrite <- app_assoc. }
  destruct (Z.ltb_spec idx newIdx).
  - apply removeAt_app. lia.
  - destruct b; [|cbn [length] in Hb; lia]. cbn [app].
    change (a ++ x :: x :: c) with (a ++ [x] ++ x :: c). rewrite app_assoc.
    rewrite removeAt_app by (rewrite length_app; simpl; lia). by rewrite <- app_assoc.
Qed.

Lemma emplace_up (l : list Z) idx newIdx x :
  -1 <= newIdx < idx -> idx < Z.of_nat (length l) -> l !! Z.to_nat idx = Some x ->
  removeAt (insertAt l (newIdx + 1) x) (idx + 1) = insertAt (removeAt l idx) (newIdx + 1) x.
Proof.
  intros Hn Hi Hx. destruct (split_two l (newIdx + 1) idx) as (a & b & c & -> & Ha & Hb); [lia|lia|].
  destruct c as [|y c]; [rewrite !length_app in Hi; simpl in Hi; lia|].
  rewrite app_assoc, lookup_app_r in Hx by (rewrite length_app; lia).
  replace (Z.to_nat idx - length (a ++ b))%nat with 0%nat in Hx by (rewrite length_app; lia). injection Hx as ->.
  rewrite insertAt_app by lia.
  replace (a ++ x :: b ++ x :: c) with ((a ++ x :: b) ++ x :: c) by (by rewrite <- app_assoc).
  rewrite removeAt_app by (rewrite length_app; cbn [length]; lia).
  rewrite (app_assoc a b), removeAt_app by (rewrite length_app; lia). rewrite <- !app_assoc, insertAt_app by lia. done.
Qed.

(** Within range, [EmplaceProfile] takes the profile out and puts it
    right after the one that stood at the target index (at the target itself
    when it is not moved up), keeping the rest in order; out of range it changes
    nothing. *)
Theorem EmplaceProfile_moves g idx newIdx x :
  0 <= idx -> -1 <= newIdx < Z.of_nat (length (profiles g)) -> profiles g !! Z.to_nat idx = Some x ->
  exists l, EmplaceProfile g idx newIdx = Some (true, withProfiles g l) /\
    l = insertAt (removeAt (profiles g) idx) (if idx <=? newIdx then newIdx else newIdx + 1) x /\
    l ≡ₚ profiles g.
Proof.
  intros Hi Hn Hx. assert (Hlen : (Z.to_nat idx < length (profiles g))%nat) by by eapply lookup_lt_Some.
  eexists. split; [|split; [reflexivity|rewrite insertAt_perm; by apply removeAt_perm]].
  unfold EmplaceProfile. rewrite Hx.
  replace ((_ <=? idx) || _) with false by lia. replace ((idx <? 0) || _) with false by lia.
  do 3 f_equal. destruct (Z.leb_spec idx newIdx); [apply emplace_down; [lia|lia|done]|].
  replace (idx <? newIdx) with false by lia. apply emplace_up; [lia|lia|done].
Qed.

(** ** Witness *)

Lemma EmplaceProfile_moves_witness :
  let g := MkGroup [10; 11; 12; 13] (SortAction Raw false) siteScore tx in
  EmplaceProfile g 0 2 = Some (true, withProfiles g [11; 12; 10; 13]) /\
  exists l, EmplaceProfile g 3 0 = Some (true, withProfiles g l) /\
    l = insertAt (removeAt (profiles g) 3) (if 3 <=? 0 then 0 else 0 + 1) 13 /\ l ≡ₚ profiles g.
Proof.
  cbv zeta. split; [reflexivity|].
  apply (EmplaceProfile_moves (MkGroup [10; 11; 12; 13] (SortAction Raw false) siteScore tx) 3 0 13);
    [lia|simpl; lia|reflexivity].
Defined.
