(* ===== verification/SubscriptionRefresh.v ===== *)
(** * SubscriptionRefresh: applying a downloaded subscription to its group

    src/configs/sub/GroupUpdater.cpp ([deleteProfiles], [ImportSink],
    [removeFlagged], [GroupUpdater::applyRefresh], [reconnectSuccessor]) with the
    repository calls it makes ([ProfilesRepo::AddProfileBatch],
    [BatchDeleteProfiles], src/database/ProfilesRepo.cpp).  The database is the
    map of rows, the listings and the id counter; whether a delete transaction
    fails is the next element of [faults]; what the group keeps of its subscription
    is a [SubState].  What the parser emits for the body is
    an argument, as are the digests and texts of each outbound and the core's
    verdict on a profile ([IsValid]).  The job runs alone, so the group is not
    deleted under it. *)

From Stdlib Require Import QArith.
From S2P Require Import Prelude Text StableSort ProfileMetrics Group GroupOptions Reconcile.
#[global] Open Scope Z_scope.

(** What the refresh reads of an outbound. *)
Record Outbound := MkOutbound {
  obkeys : ProfileKeys; obtype : qstring; obname : qstring; obdisplay : qstring;
  oblink : qstring; obinsecure : bool }.

Record DbRow := MkDbRow { rout : Outbound; rgid : Z; rselector : bool; rworking : bool }.

(** A profile the parser emits. *)
Record Parsed := MkParsed { pout : Outbound; pselector : bool }.

Record Repo := MkRepo {
  lastId : Z;
  rows : gmap Z DbRow;
  groups : gmap Z Group;
  startedId : Z;
  faults : list bool }.

Record Settings := MkSettings {
  current_group : Z;
  allow_stopping_active_profile : bool;
  sub_clear : bool;
  (** [started_id] once the running profile has been stopped *)
  stoppedId : Z }.

Section Refresh.
Context (settings : Settings) (IsValid : DbRow -> option bool).

(** What the group's sort reads. *)
Context (GetProfile : Z -> option Profile) (IsProfileDisabled : Z -> bool) (bitrateToBps : qstring -> Q).

(** ** The repository *)

(** The rows of a batch, from [first] on. *)
Fixpoint insertRows (first gid : Z) (ps : list Parsed) (m : gmap Z DbRow) : gmap Z DbRow :=
  match ps with
  | [] => m
  | p :: ps => insertRows (first + 1) gid ps (<[first := MkDbRow (pout p) gid (pselector p) false]> m)
  end.

Definition NewProfileIDRange (n : Z) (repo : Repo) : Z * Repo :=
  if n <=? 0 then (0, repo)
  else (lastId repo + n - n + 1, MkRepo (lastId repo + n) (rows repo) (groups repo) (startedId repo) (faults repo)).

(** New profiles only: the ids the batch got, [None] when the group is gone. *)
Definition AddProfileBatch (ps : list Parsed) (gid : Z) (repo : Repo) : option (list Z) * Repo :=
  let gid := if gid <? 0 then current_group settings else gid in
  match groups repo !! gid with
  | None => (None, repo)
  | Some group =>
      match ps with
      | [] => (Some [], repo)
      | _ =>
          let n := Z.of_nat (length ps) in
          let '(firstId, repo) := NewProfileIDRange n repo in
          let ids := seqZ firstId n in
          (Some ids, MkRepo (lastId repo) (insertRows firstId gid ps (rows repo))
             (<[gid := (Group.AddProfileBatch group ids).2]> (groups repo)) (startedId repo) (faults repo))
      end
  end.

(** [GetProfileBatch]: the rows there are, in the order of the ids. *)
Definition GetProfileBatch (repo : Repo) (ids : list Z) : list (Z * DbRow) :=
  omap (fun id => (fun row => (id, row)) <$> rows repo !! id) ids.

Definition nextFault (repo : Repo) : bool * Repo :=
  match faults repo with
  | [] => (false, repo)
  | f :: rest => (f, MkRepo (lastId repo) (rows repo) (groups repo) (startedId repo) rest)
  end.

Definition setStarted (repo : Repo) (id : Z) : Repo :=
  MkRepo (lastId repo) (rows repo) (groups repo) id (faults repo).

(** The result, the ids as the caller's list is left, the repository. *)
Definition BatchDeleteProfiles (ids : list Z) (stopRunningProfile : bool) (repo : Repo) : bool * list Z * Repo :=
  let running := bool_decide (startedId repo ∈ ids) in
  let started := startedId repo in
  let repo := if running && stopRunningProfile then setStarted repo (stoppedId settings) else repo in
  let ids := if running && negb stopRunningProfile then filter (fun id => id <> started) ids else ids in
  match ids with
  | [] => (true, ids, repo)
  | _ =>
      let groupIDs : gset Z := list_to_set (map (fun '(_, row) => rgid row) (GetProfileBatch repo ids)) in
      let '(failed, repo) := nextFault repo in
      if failed then (false, ids, repo)
      else
        (true, ids, MkRepo (lastId repo) (filter (fun '(id, _) => id ∉ ids) (rows repo))
           (map_imap (fun gid g => Some (if bool_decide (gid ∈ groupIDs) then (RemoveProfileBatch g ids).2 else g)) (groups repo))
           (startedId repo) (faults repo))
  end.

(** ** [deleteProfiles] *)

Record DeleteOutcome := MkOutcome { ok : bool; odeleted : list Z; kept : list Z; stopped : option (Z * DbRow) }.

Definition nothingDeleted : DeleteOutcome := MkOutcome true [] [] None.

Definition deleteProfiles (ids : list Z) (repo : Repo) : DeleteOutcome * Repo :=
  let requested := remove_dups ids in
  let started := startedId repo in
  let running :=
    if allow_stopping_active_profile settings && bool_decide (started ∈ requested)
    then (fun row => (started, row)) <$> rows repo !! started else None in
  let '(done_, ids, repo) := BatchDeleteProfiles ids (allow_stopping_active_profile settings) repo in
  (MkOutcome done_ ids (filter (fun id => id ∉ ids) requested)
     (if done_ && bool_decide (started ∈ ids) then running else None), repo).

(** ** [ImportSink] *)

Definition kInsertChunk : Z := 500.

Record Sink := MkSink {
  entries : list NewEntry;
  sgid : Z;
  destination : Z;
  sadded : list Z;
  sindex : option ContentIndex;
  chunk : list Parsed;
  entryIndex : list nat }.

Definition newSink (gid : Z) (index : option ContentIndex) : Sink := MkSink [] gid (-1) [] index [] [].

Definition setId (id : Z) (e : NewEntry) : NewEntry := New id (reused e) (contentKnown e) (nkeys e) (ndisplay e).

(** [entries[entryIndex[i]].id = chunk[i]->id] for each [i] *)
Definition assignIds (idx : list nat) (ids : list Z) (es : list NewEntry) : list NewEntry :=
  fold_left (fun es '(i, id) => alter (setId id) i es) (zip idx ids) es.

Definition flush (s : Sink) (repo : Repo) : Sink * Repo :=
  match chunk s with
  | [] => (s, repo)
  | _ =>
      match AddProfileBatch (chunk s) (sgid s) repo with
      | (Some ids, repo) =>
          (MkSink (assignIds (entryIndex s) ids (entries s)) (sgid s)
             (if sgid s <? 0 then current_group settings else sgid s) (sadded s ++ ids) (sindex s) [] [], repo)
      | (None, repo) => (MkSink (entries s) (sgid s) (destination s) (sadded s) (sindex s) [] [], repo)
      end
  end.

(** [add] up to its flush. *)
Definition push (p : Parsed) (s : Sink) : Sink :=
  let display := obdisplay (pout p) in
  let enqueue entry index :=
    MkSink (entries s ++ [entry]) (sgid s) (destination s) (sadded s) index (chunk s ++ [p])
      (entryIndex s ++ [length (entries s)]) in
  match sindex s with
  | None => enqueue (New (-1) false false (Keys [] []) display) None
  | Some index =>
      let c := content (obkeys (pout p)) in
      let index := noteArrival index c in
      let isKnown := knows index c in
      match claim index c with
      | (Some oldId, index) =>
          MkSink (entries s ++ [New oldId true isKnown (Keys c []) display]) (sgid s) (destination s) (sadded s)
            (Some index) (chunk s) (entryIndex s)
      | (None, index) =>
          enqueue (New (-1) false isKnown (Keys c (if isKnown then [] else identity (obkeys (pout p)))) display) (Some index)
      end
  end.

(** A reused arrival returns before the size check. *)
Definition add (p : Parsed) (st : Sink * Repo) : Sink * Repo :=
  let s := push p st.1 in
  if (length (chunk st.1) <? length (chunk s))%nat && (kInsertChunk <=? Z.of_nat (length (chunk s)))
  then flush s st.2 else (s, st.2).

(** What the import does with the parser's profiles: [ParseDocument] into the sink, then [flush]. *)
Definition import (ps : list Parsed) (s : Sink) (repo : Repo) : Sink * Repo :=
  let st := fold_left (fun st p => add p st) ps (s, repo) in
  flush st.1 st.2.

Definition storedCount (s : Sink) : Z := Z.of_nat (length (filter (fun e => stored e = true) (entries s))).

Definition storedIds (s : Sink) : list Z := map nid (filter (fun e => stored e = true) (entries s)).

(** ** [removeFlagged] *)

(** [ProfileFilter::Uniq], keeping the first of each link. *)
Fixpoint uniqLoop (seen : gset qstring) (ps : list (Z * DbRow)) : list (Z * DbRow) :=
  match ps with
  | [] => []
  | (id, row) :: ps =>
      if bool_decide (oblink (rout row) ∈ seen) then uniqLoop seen ps
      else (id, row) :: uniqLoop ({[oblink (rout row)]} ∪ seen) ps
  end.

Definition Uniq (ps : list (Z * DbRow)) : list (Z * DbRow) := uniqLoop ∅ ps.

(** [collect]: the ids it adds to [flagged], which are those of [doomed]. *)
Definition collect (matches : Z * DbRow -> bool) (flagged : list Z) (ps : list (Z * DbRow)) : list Z :=
  fold_left (fun flagged p =>
    if bool_decide (p.1 ∈ flagged) || negb (matches p) then flagged else flagged ++ [p.1]) ps flagged.

(** [None]: a check did not reach the core. *)
Definition invalidProfiles (ps : list (Z * DbRow)) : option (list Z) :=
  if existsb (fun '(_, row) => match IsValid row with None => true | Some _ => false end) ps then None
  else Some (map fst (filter (fun '(_, row) => IsValid row = Some false) ps)).

Definition doomedProfiles (ps : list (Z * DbRow)) (options : SubscriptionOptions) : list Z :=
  let flagged := [] in
  let flagged :=
    if remove_duplicates options then
      let keep := map fst (Uniq ps) in
      collect (fun p => negb (bool_decide (p.1 ∈ keep))) flagged ps
    else flagged in
  let flagged :=
    if remove_insecure options then collect (fun p => obinsecure (rout p.2)) flagged ps else flagged in
  if remove_invalid options then
    match invalidProfiles (filter (fun p => p.1 ∉ flagged) ps) with
    | None => flagged
    | Some invalid => collect (fun p => bool_decide (p.1 ∈ invalid)) flagged ps
    end
  else flagged.

Definition removeFlagged (ids : list Z) (options : SubscriptionOptions) (repo : Repo) : DeleteOutcome * Repo :=
  if negb (remove_duplicates options) && negb (remove_insecure options) && negb (remove_invalid options)
  then (nothingDeleted, repo)
  else
    match doomedProfiles (GetProfileBatch repo ids) options with
    | [] => (nothingDeleted, repo)
    | doomed => deleteProfiles doomed repo
    end.

(** ** [applyRefresh] *)

Inductive Failure := None_ | Fetch | Empty | Database.

Record Result := MkResult {
  failure : Failure;
  radded : Z; rupdated : Z; rremoved : Z; rkept : Z;
  disturbed : list Z;
  stoppedRunning : option (Z * DbRow) }.

Definition failed (f : Failure) : Result := MkResult f 0 0 0 0 [] None.

Definition listing (gid : Z) (repo : Repo) : list Z :=
  match groups repo !! gid with Some g => profiles g | None => [] end.

Definition setListing (gid : Z) (ids : list Z) (repo : Repo) : Repo :=
  match groups repo !! gid with
  | Some g => MkRepo (lastId repo) (rows repo) (<[gid := withProfiles g ids]> (groups repo)) (startedId repo) (faults repo)
  | None => repo
  end.

Definition isSelector (repo : Repo) (id : Z) : bool :=
  match rows repo !! id with Some row => rselector row | None => false end.

(** Auto selectors stay where they are: their positions and ids. *)
Definition stickyOf (gid : Z) (repo : Repo) : list (nat * Z) :=
  filter (fun '(_, id) => isSelector repo id = true) (imap pair (listing gid repo)).

Definition members (sticky : list (nat * Z)) (gid : Z) (repo : Repo) : list Z :=
  filter (fun id => id ∉ map snd sticky) (listing gid repo).

Definition workingIds (ps : list (Z * DbRow)) : list Z := map fst (filter (fun '(_, row) => rworking row = true) ps).

(** The [sub_clear] part: [None] when the delete failed, else whether the group
    is empty, the ids deleted and the profile stopped. *)
Definition clearMembers (sticky : list (nat * Z)) (gid : Z) (options : SubscriptionOptions) (repo : Repo) :
    option (bool * DeleteOutcome) * Repo :=
  if negb (sub_clear settings) then (Some (false, nothingDeleted), repo)
  else
    let doomed := members sticky gid repo in
    let doomed :=
      if keep_working options then filter (fun id => id ∉ workingIds (GetProfileBatch repo doomed)) doomed
      else doomed in
    let '(outcome, repo) := deleteProfiles doomed repo in
    if negb (ok outcome) then (None, repo)
    else (Some (bool_decide (members sticky gid repo = []), outcome), repo).

Definition oldEntryOf (p : Z * DbRow) : OldEntry := Old p.1 (obkeys (rout p.2)) (obdisplay (rout p.2)).

(** An update moves the new row's outbound to the old row. *)
Definition applyUpdate (m : gmap Z DbRow) (pair : Z * Z) : gmap Z DbRow :=
  match m !! pair.1, m !! pair.2 with
  | Some oldEnt, Some newEnt =>
      <[pair.1 := MkDbRow (rout newEnt) (rgid oldEnt) (rselector oldEnt) (rworking oldEnt)]> m
  | _, _ => m
  end.

Definition insertSticky (ids : list Z) (sticky : nat * Z) : list Z :=
  insertAt ids (Z.of_nat (Nat.min sticky.1 (length ids))) sticky.2.

Fixpoint indexOfId (id : Z) (ids : list Z) : option nat :=
  match ids with
  | [] => None
  | x :: ids => if x =? id then Some 0%nat else S <$> indexOfId id ids
  end.

Definition restore (previousOrder ids : list Z) (id : Z) : list Z :=
  if bool_decide (id ∈ ids) then ids
  else
    insertAt ids (Z.of_nat (match indexOfId id previousOrder with
      | None => length ids | Some position => Nat.min position (length ids) end)) id.

(** The diff path: what it adds to the result (whether the delete failed, the
    counts, the kept ids). *)
Record DiffOutcome := MkDiff {
  deleteFailed : bool; plan : ReconcilePlan; ddeleted : DeleteOutcome; dkept : list Z }.

Definition applyPlan (sticky : list (nat * Z)) (gid : Z) (working : list Z) (thePlan : ReconcilePlan) (repo : Repo) :
    DiffOutcome * Repo :=
  let repo := MkRepo (lastId repo) (fold_left applyUpdate (updates thePlan) (rows repo)) (groups repo)
                (startedId repo) (faults repo) in
  let keptWorking := filter (fun id => id ∈ working) (stale thePlan) in
  let staleIds := filter (fun id => id ∉ working) (stale thePlan) in
  let previousOrder := listing gid repo in
  let repo := setListing gid (fold_left insertSticky sticky (order thePlan)) repo in
  let '(outcome, repo) := deleteProfiles staleIds repo in
  let ids := fold_left (restore previousOrder) (kept outcome ++ keptWorking) (listing gid repo) in
  (MkDiff (negb (ok outcome)) thePlan outcome (kept outcome ++ keptWorking), setListing gid ids repo).

(** The part of a refresh that touches the rows and the listing, from the selectors
    kept out of the diff to [Resort]; [None] when the clearing failed, which ends it. *)
Definition refreshProfiles (gid : Z) (options : SubscriptionOptions) (parsed : list Parsed) (repo : Repo) :
    option Result * Repo :=
  let sticky := stickyOf gid repo in
  match clearMembers sticky gid options repo with
  | (None, repo) => (None, repo)
  | (Some (cleared, clearing), repo) =>
      let current := if cleared then [] else GetProfileBatch repo (members sticky gid repo) in
      let old := map oldEntryOf current in
      let working := if keep_working options then workingIds current else [] in
      let index := newIndex old in
      let '(sink, repo) := import parsed (newSink gid (if cleared then None else Some index)) repo in
      let '(addedCount, updatedCount, removed, keptIds, deletedIds, stopped1, deleteFailed1, repo) :=
        if cleared then
          (storedCount sink, 0, Z.of_nat (length (odeleted clearing)), [], odeleted clearing, stopped clearing, false, repo)
        else
          let index := default index (sindex sink) in
          let thePlan := Reconcile old (entries sink) index in
          let '(d, repo) := applyPlan sticky gid working thePlan repo in
          (Z.of_nat (length (added thePlan)), Z.of_nat (length (updates thePlan)),
           Z.of_nat (length (odeleted clearing)) +
             Z.of_nat (length (filter (fun e => oid e ∈ odeleted (ddeleted d)) old)),
           dkept d, odeleted clearing ++ map fst (updates thePlan) ++ odeleted (ddeleted d),
           match stopped (ddeleted d) with Some r => Some r | None => stopped clearing end, deleteFailed d, repo) in
      let '(flagged, repo) := removeFlagged (members sticky gid repo) options repo in
      let repo :=
        match groups repo !! gid with
        | Some g => MkRepo (lastId repo) (rows repo) (<[gid := (Resort GetProfile IsProfileDisabled bitrateToBps [] g).2]> (groups repo)) (startedId repo) (faults repo)
        | None => repo
        end in
      (Some (MkResult (if deleteFailed1 || negb (ok flagged) then Database else None_)
         addedCount updatedCount (removed + Z.of_nat (length (odeleted flagged)))
         (Z.of_nat (length (remove_dups (keptIds ++ kept flagged))))
         (deletedIds ++ odeleted flagged)
         match stopped flagged with Some r => Some r | None => stopped1 end), repo)
  end.

(** What the group keeps of its subscription: the announced usage data, the older
    text form of it and the time of the last refresh that went through. *)
Record SubState := MkSub { sub_info : SubUserInfo; info : qstring; sub_last_update : Z }.

(** [group->sub_info = subInfo; group->info.clear()] *)
Definition announced (subInfo : SubUserInfo) (sub : SubState) : SubState := MkSub subInfo [] (sub_last_update sub).

(** [parsed] is what the parser emits for the body; [sameUrl] whether the group
    still has the URL that was fetched; [subInfo] what the response announced; [now]
    the clock. *)
Definition applyRefresh (gid : Z) (options : SubscriptionOptions) (sameUrl : bool) (subInfo : SubUserInfo) (now : Z)
    (parsed : list Parsed) (sub : SubState) (repo : Repo) : Result * SubState * Repo :=
  if negb sameUrl then (failed Fetch, sub, repo)
  else
    match parsed with
    | [] => (failed Empty, if valid subInfo then announced subInfo sub else sub, repo)
    | _ =>
        let sub := announced subInfo sub in
        match refreshProfiles gid options parsed repo with
        | (None, repo) => (failed Database, sub, repo)
        | (Some result, repo) => (result, MkSub (sub_info sub) (info sub) now, repo)
        end
    end.

(** The only profile of the same type and name, if it is the only one. *)
Definition reconnectSuccessor (ids : list Z) (stoppedRow : DbRow) (repo : Repo) : option Z :=
  let name := obname (rout stoppedRow) in
  let matches :=
    if isEmpty name then []
    else map fst (filter (fun '(_, row) => obtype (rout row) = obtype (rout stoppedRow) /\ obname (rout row) = name)
           (GetProfileBatch repo ids)) in
  match matches with [id] => Some id | _ => None end.
End Refresh.
