(* ===== verification/SubscriptionImport.v ===== *)
(** * SubscriptionImport: what the import of a subscription does

    The theorems on the [ImportSink] of SubscriptionRefresh.v: inserting in chunks
    is inserting one profile at a time ([import_one_by_one]), in closed form
    ([import_eq]); the index and the entries it leaves are what [Reconcile]
    expects ([arr_coherent]). *)

From Stdlib Require Import QArith.
From S2P Require Import Prelude Text StableSort ProfileMetrics Group GroupOptions Reconcile SubscriptionRefresh.
#[global] Open Scope Z_scope.

(** ** The import does not depend on its chunks *)

Lemma assignIds_length idx ids es : length (assignIds idx ids es) = length es.
Proof.
  unfold assignIds. revert es. induction (zip idx ids) as [|[i id] l IH]; intros es; [done|].
  simpl. by rewrite IH, length_alter.
Qed.

Lemma assignIds_snoc idx ids es e :
  Forall (fun i => (i < length es)%nat) idx -> assignIds idx ids (es ++ [e]) = assignIds idx ids es ++ [e].
Proof.
  revert ids es. induction idx as [|i idx IH]; intros [|id ids] es Hlt; try done.
  apply Forall_cons in Hlt as [Hi Hlt]. unfold assignIds in *. cbn [zip zip_with fold_left].
  rewrite alter_app_l by done. apply IH. by rewrite length_alter.
Qed.

Lemma assignIds_app idx1 idx2 ids1 ids2 es :
  length idx1 = length ids1 -> assignIds (idx1 ++ idx2) (ids1 ++ ids2) es = assignIds idx2 ids2 (assignIds idx1 ids1 es).
Proof. intros H. unfold assignIds. by rewrite zip_with_app, fold_left_app. Qed.

Section Storing.
Context (settings : Settings).

Abbreviation addBatch := (SubscriptionRefresh.AddProfileBatch settings).
Abbreviation doFlush := (flush settings).

(** Ids are given out in increasing order. *)
Definition idsBelow (gid : Z) (repo : Repo) : Prop :=
  0 <= gid /\ is_Some (groups repo !! gid) /\ 0 <= lastId repo /\ Forall (fun id => id <= lastId repo) (listing gid repo).

Lemma insertRows_below first gid ps m id : id < first -> insertRows first gid ps m !! id = m !! id.
Proof.
  revert first m. induction ps as [|p ps IH]; intros first m Hlt; [done|].
  cbn [insertRows]. rewrite IH by lia. by rewrite lookup_insert_ne by lia.
Qed.

Lemma insertRows_dom first gid ps m id row :
  insertRows first gid ps m !! id = Some row ->
  m !! id = Some row \/ first <= id < first + Z.of_nat (length ps) /\ rgid row = gid.
Proof.
  revert first m. induction ps as [|p ps IH]; intros first m H; [by left|].
  cbn [insertRows length] in *. apply IH in H as [H|[H ?]]; [|right; split; [lia|done]].
  destruct (decide (id = first)) as [->|Hne]; [|rewrite lookup_insert_ne in H by done; by left].
  rewrite lookup_insert_eq in H. injection H as <-. right. split; [lia|done].
Qed.

Lemma insertRows_some first gid ps m id :
  first <= id < first + Z.of_nat (length ps) ->
  exists row, insertRows first gid ps m !! id = Some row /\ rgid row = gid.
Proof.
  revert first m. induction ps as [|p ps IH]; intros first m H; cbn [length] in H; [lia|].
  cbn [insertRows]. destruct (decide (id = first)) as [->|Hne]; [|apply IH; lia].
  rewrite insertRows_below, lookup_insert_eq by lia. by eexists.
Qed.

Lemma insertRows_at first gid ps m i p :
  ps !! i = Some p ->
  insertRows first gid ps m !! (first + Z.of_nat i) = Some (MkDbRow (pout p) gid (pselector p) false).
Proof.
  revert first m i. induction ps as [|p' ps IH]; intros first m i Hi; [done|]. cbn [insertRows].
  destruct i as [|i]; cbn in Hi.
  - injection Hi as ->. rewrite insertRows_below by lia. rewrite Z.add_0_r. apply lookup_insert_eq.
  - replace (first + Z.of_nat (S i)) with (first + 1 + Z.of_nat i) by lia. by apply IH.
Qed.

Lemma insertRows_app first gid a b m :
  insertRows first gid (a ++ b) m = insertRows (first + Z.of_nat (length a)) gid b (insertRows first gid a m).
Proof.
  revert first m. induction a as [|p a IH]; intros first m; [simpl; by rewrite Z.add_0_r|].
  cbn [app insertRows]. rewrite IH. f_equal. cbn [length]. lia.
Qed.

(** What a nonempty batch does to an existing group. *)
Lemma addBatch_eq ps gid repo :
  idsBelow gid repo -> ps <> [] ->
  exists g, groups repo !! gid = Some g /\
  addBatch ps gid repo =
  (Some (seqZ (lastId repo + 1) (Z.of_nat (length ps))),
   MkRepo (lastId repo + Z.of_nat (length ps)) (insertRows (lastId repo + 1) gid ps (rows repo))
     (<[gid := withProfiles g (profiles g ++ seqZ (lastId repo + 1) (Z.of_nat (length ps)))]> (groups repo))
     (startedId repo) (faults repo)).
Proof.
  intros (Hgid & [g Hg] & Hl & Hids) Hne. exists g. split; [done|].
  unfold SubscriptionRefresh.AddProfileBatch. replace (gid <? 0) with false by lia. rewrite Hg.
  assert (Hn : 0 < Z.of_nat (length ps)) by (destruct ps; [done|simpl; lia]).
  destruct ps as [|p ps]; [done|]. unfold NewProfileIDRange. set (n := Z.of_nat (length (p :: ps))) in *.
  clearbody n. destruct (Z.leb_spec n 0); [lia|]. cbn [lastId rows groups startedId faults].
  replace (lastId repo + n - n + 1) with (lastId repo + 1) by lia.
  do 2 f_equal. unfold Group.AddProfileBatch. cbn [snd]. rewrite filter_all; [done|].
  intros x Hx%elem_of_seqZ Hin. unfold listing in Hids. rewrite Hg in Hids. rewrite Forall_forall in Hids.
  specialize (Hids x Hin). lia.
Qed.

Lemma addBatch_below ps gid repo ids repo' :
  idsBelow gid repo -> addBatch ps gid repo = (Some ids, repo') -> ps <> [] -> idsBelow gid repo'.
Proof.
  intros Hb E Hne. destruct (addBatch_eq ps gid repo Hb Hne) as (g & Hg & E'). rewrite E' in E.
  injection E as <- <-. destruct Hb as (Hgid & _ & Hl & Hids). unfold idsBelow, listing in *. cbn [lastId groups].
  rewrite Hg in Hids. rewrite lookup_insert_eq. split_and!; [done|by eexists|lia|].
  apply Forall_app. split; [eapply Forall_impl; [done|]; cbn; lia|].
  apply Forall_forall. intros x Hx%elem_of_seqZ. lia.
Qed.

Lemma addBatch_app a b gid repo :
  idsBelow gid repo -> a <> [] -> b <> [] ->
  exists ids1 repo1 ids2 repo2,
    addBatch a gid repo = (Some ids1, repo1) /\ addBatch b gid repo1 = (Some ids2, repo2) /\
    length ids1 = length a /\ length ids2 = length b /\
    addBatch (a ++ b) gid repo = (Some (ids1 ++ ids2), repo2).
Proof.
  intros Hb Ha Hb'. destruct (addBatch_eq a gid repo Hb Ha) as (g & Hg & E1).
  pose proof (addBatch_below _ _ _ _ _ Hb E1 Ha) as Hb1.
  destruct (addBatch_eq b gid _ Hb1 Hb') as (g1 & Hg1 & E2).
  destruct (addBatch_eq (a ++ b) gid repo Hb) as (g2 & Hg2 & E3); [by destruct a|].
  cbn [groups lastId rows startedId faults] in *. rewrite lookup_insert_eq in Hg1. injection Hg1 as <-.
  assert (g2 = g) as -> by congruence.
  eexists _, _, _, _. split_and!; [exact E1|exact E2|by rewrite length_seqZ, Nat2Z.id|by rewrite length_seqZ, Nat2Z.id|].
  rewrite E3, length_app, Nat2Z.inj_add, seqZ_app, insert_insert_eq, insertRows_app by lia.
  unfold withProfiles. cbn [profiles sort test_sort_by traffic_sort_by].
  replace (lastId repo + 1 + Z.of_nat (length a)) with (lastId repo + Z.of_nat (length a) + 1) by lia.
  rewrite <- app_assoc. do 2 f_equal. lia.
Qed.

(** The sink between two adds. *)
Definition sinkOk (s : Sink) (repo : Repo) : Prop :=
  idsBelow (sgid s) repo /\ length (chunk s) = length (entryIndex s) /\
  Forall (fun i => (i < length (entries s))%nat) (entryIndex s).

Lemma flush_empty s repo : chunk s = [] -> doFlush s repo = (s, repo).
Proof. unfold flush. by intros ->. Qed.

(** A flush of a good sink, in one equation. *)
Lemma flush_eq s repo :
  sinkOk s repo -> chunk s <> [] ->
  exists ids repo', addBatch (chunk s) (sgid s) repo = (Some ids, repo') /\ length ids = length (chunk s) /\
    idsBelow (sgid s) repo' /\
    doFlush s repo = (MkSink (assignIds (entryIndex s) ids (entries s)) (sgid s) (sgid s) (sadded s ++ ids)
      (sindex s) [] [], repo').
Proof.
  intros (Hb & Hl & Hi) Hne. destruct (addBatch_eq _ _ _ Hb Hne) as (g & Hg & E).
  eexists _, _. split_and!; [exact E|by rewrite length_seqZ, Nat2Z.id|by eapply addBatch_below|].
  unfold flush. rewrite E. destruct (chunk s); [done|]. destruct Hb as (Hgid & _).
  by replace (sgid s <? 0) with false by lia.
Qed.

Lemma flush_ok s repo :
  sinkOk s repo -> let st := doFlush s repo in sinkOk st.1 st.2 /\ chunk st.1 = [] /\ sindex st.1 = sindex s /\
    sgid st.1 = sgid s /\ length (entries st.1) = length (entries s).
Proof.
  intros Hs. destruct (decide (chunk s = [])) as [E|E].
  - rewrite flush_empty by done. done.
  - destruct (flush_eq s repo Hs E) as (ids & repo' & _ & _ & Hb & ->). cbn. split_and!; try done.
    by rewrite assignIds_length.
Qed.

(** The entry, the new index, and whether the profile waits for its row: a
    function of the index alone. *)
Definition pushEntry (p : Parsed) (index : option ContentIndex) : NewEntry * option ContentIndex * bool :=
  let s := push p (MkSink [] 0 0 [] index [] []) in
  (match entries s with e :: _ => e | [] => New 0 false false (Keys [] []) [] end, sindex s,
   match chunk s with [] => false | _ => true end).

Lemma push_eq p s :
  let '(e, index, pending) := pushEntry p (sindex s) in
  push p s = MkSink (entries s ++ [e]) (sgid s) (destination s) (sadded s) index
    (if pending then chunk s ++ [p] else chunk s)
    (if pending then entryIndex s ++ [length (entries s)] else entryIndex s).
Proof.
  unfold pushEntry, push. cbn [sindex entries chunk sgid destination sadded entryIndex app].
  destruct (sindex s) as [index|]; [|done].
  destruct (claim (noteArrival index (content (obkeys (pout p)))) (content (obkeys (pout p)))) as [[id|] index']; done.
Qed.

Lemma push_ok p s repo : sinkOk s repo -> sinkOk (push p s) repo.
Proof.
  intros (Hb & Hl & Hi). pose proof (push_eq p s) as E. destruct (pushEntry p (sindex s)) as [[e index] pending].
  rewrite E. unfold sinkOk. cbn [sgid chunk entryIndex entries]. split_and!; [done| |].
  - destruct pending; [by rewrite !length_app, Hl|done].
  - rewrite length_app. destruct pending; [apply Forall_app; split|]; simpl;
      [eapply Forall_impl; [done|]; cbn; lia|apply Forall_singleton; lia|eapply Forall_impl; [done|]; cbn; lia].
Qed.

(** Flushing early changes nothing. *)
Lemma flush_push p s repo :
  sinkOk s repo -> doFlush (push p s) repo = doFlush (push p (doFlush s repo).1) (doFlush s repo).2.
Proof.
  intros Hs. destruct (decide (chunk s = [])) as [E|E]; [by rewrite (flush_empty s)|].
  destruct (flush_eq s repo Hs E) as (ids & repo1 & Ea & Hlen & Hb1 & ->). cbn [fst snd].
  pose proof (push_ok p s repo Hs) as Hp.
  pose proof (push_eq p s) as E1.
  pose proof (push_eq p (MkSink (assignIds (entryIndex s) ids (entries s)) (sgid s) (sgid s) (sadded s ++ ids) (sindex s) [] [])) as E2.
  cbn [sindex entries sgid destination sadded chunk entryIndex] in E2.
  destruct (pushEntry p (sindex s)) as [[e index] pending]. destruct Hs as (Hb & Hl & Hi).
  rewrite E2. destruct pending.
  - destruct (addBatch_app (chunk s) [p] (sgid s) repo Hb E ltac:(done)) as (ids1 & r1 & ids2 & r2 & A1 & A2 & L1 & L2 & A3).
    assert (r1 = repo1 /\ ids1 = ids) as [-> ->] by (split; congruence).
    destruct (flush_eq (push p s) repo Hp) as (ids' & r' & A4 & _ & _ & ->); [rewrite E1; by destruct (chunk s)|].
    rewrite E1 in A4 |- *. cbn [chunk sgid entryIndex entries sadded sindex] in *.
    assert (ids' = ids ++ ids2 /\ r' = r2) as [-> ->] by (split; congruence).
    unfold flush at 1. cbn [chunk sgid entryIndex entries sadded sindex app]. rewrite A2.
    destruct Hb as (Hgid & _). replace (sgid s <? 0) with false by lia.
    rewrite assignIds_app by lia. rewrite assignIds_snoc by done. rewrite assignIds_length, app_assoc. done.
  - destruct (flush_eq (push p s) repo Hp) as (ids' & r' & A4 & _ & _ & ->); [by rewrite E1|].
    rewrite E1 in A4 |- *. cbn [chunk sgid entryIndex entries sadded sindex] in *.
    assert (ids' = ids /\ r' = repo1) as [-> ->] by (split; congruence).
    rewrite flush_empty by done. by rewrite assignIds_snoc.
Qed.

(** One profile at a time: the specification of the chunked import. *)
Definition addNow (p : Parsed) (st : Sink * Repo) : Sink * Repo := doFlush (push p st.1) st.2.

Lemma flush_add p s repo :
  sinkOk s repo ->
  let st := SubscriptionRefresh.add settings p (s, repo) in
  sinkOk st.1 st.2 /\ doFlush st.1 st.2 = addNow p (doFlush s repo).
Proof.
  intros Hs. unfold SubscriptionRefresh.add, addNow. cbn [fst snd].
  pose proof (push_ok p s repo Hs) as Hp. rewrite <- flush_push by done.
  destruct (_ && _); [|done]. destruct (flush_ok _ _ Hp) as (H1 & H2 & _). split; [done|]. by rewrite flush_empty, <- surjective_pairing.
Qed.

Lemma import_one_by_one ps s repo :
  sinkOk s repo ->
  SubscriptionRefresh.import settings ps s repo = fold_left (fun st p => addNow p st) ps (doFlush s repo).
Proof.
  unfold SubscriptionRefresh.import. revert s repo. induction ps as [|p ps IH]; intros s repo Hs; [done|].
  cbn [fold_left]. destruct (flush_add p s repo Hs) as [H1 H2]. cbv zeta in *.
  rewrite (surjective_pairing (SubscriptionRefresh.add settings p (s, repo))). rewrite IH by done. by rewrite H2.
Qed.

(** ** The import in closed form *)

(** The entries of a whole import, when the next free id is [next]. *)
Fixpoint arrivalsOf (index : option ContentIndex) (next : Z) (ps : list Parsed) : list NewEntry * option ContentIndex :=
  match ps with
  | [] => ([], index)
  | p :: ps =>
      let '(e, index, pending) := pushEntry p index in
      let '(es, index) := arrivalsOf index (if pending then next + 1 else next) ps in
      ((if pending then setId next e else e) :: es, index)
  end.

(** The profiles that get a row of their own. *)
Fixpoint freshOf (index : option ContentIndex) (ps : list Parsed) : list Parsed :=
  match ps with
  | [] => []
  | p :: ps =>
      let '(_, index, pending) := pushEntry p index in
      (if pending then [p] else []) ++ freshOf index ps
  end.

Definition withFresh (gid : Z) (g : Group) (ps : list Parsed) (repo : Repo) : Repo :=
  MkRepo (lastId repo + Z.of_nat (length ps)) (insertRows (lastId repo + 1) gid ps (rows repo))
    (<[gid := withProfiles g (profiles g ++ seqZ (lastId repo + 1) (Z.of_nat (length ps)))]> (groups repo))
    (startedId repo) (faults repo).

Lemma withFresh_nil gid g repo : groups repo !! gid = Some g -> withFresh gid g [] repo = repo.
Proof.
  intros Hg. unfold withFresh. cbn [length insertRows]. rewrite Z.add_0_r. cbn [seqZ Z.to_nat fmap seq].
  change (seqZ (lastId repo + 1) (Z.of_nat 0)) with (@nil Z). rewrite app_nil_r. unfold withProfiles.
  replace (MkGroup (profiles g) (sort g) (test_sort_by g) (traffic_sort_by g)) with g by by destruct g.
  rewrite insert_id by done. by destruct repo.
Qed.

Lemma withFresh_cons gid g p ps repo :
  withFresh gid g (p :: ps) repo =
  withFresh gid (withProfiles g (profiles g ++ [lastId repo + 1])) ps (withFresh gid g [p] repo).
Proof.
  unfold withFresh. cbn [lastId rows groups startedId faults insertRows length withProfiles profiles sort test_sort_by traffic_sort_by].
  replace (Z.of_nat (S (length ps))) with (1 + Z.of_nat (length ps)) by lia.
  rewrite seqZ_app, insert_insert_eq by lia. rewrite <- app_assoc. change (Z.of_nat 1) with 1.
  replace (lastId repo + 1 + 1) with (lastId repo + (1 + 1)) by lia. unfold withProfiles.
  cbn [profiles sort test_sort_by traffic_sort_by].
  f_equal. lia.
Qed.

Lemma import_closed gid ps s repo g :
  idsBelow gid repo -> groups repo !! gid = Some g -> sgid s = gid -> chunk s = [] -> entryIndex s = [] ->
  let st := fold_left (fun st p => addNow p st) ps (s, repo) in
  entries st.1 = entries s ++ (arrivalsOf (sindex s) (lastId repo + 1) ps).1 /\
  sindex st.1 = (arrivalsOf (sindex s) (lastId repo + 1) ps).2 /\
  st.2 = withFresh gid g (freshOf (sindex s) ps) repo.
Proof.
  revert s repo g. induction ps as [|p ps IH]; intros s repo g Hb Hg Hgid Hc Hi.
  - cbn. by rewrite app_nil_r, withFresh_nil.
  - cbn [fold_left arrivalsOf freshOf]. unfold addNow at 2 4 6. cbn [fst snd].
    pose proof (push_eq p s) as E. destruct (pushEntry p (sindex s)) as [[e index] pending].
    rewrite Hc, Hi in E. destruct pending; rewrite E.
    + destruct (flush_eq (push p s) repo) as (ids & repo1 & Ea & Hlen & Hb1 & Ef).
      { apply push_ok. unfold sinkOk. rewrite Hc, Hi, Hgid. by split_and!. }
      { by rewrite E. }
      destruct (addBatch_eq [p] gid repo Hb ltac:(done)) as (g' & Hg' & Ea'). assert (g' = g) as -> by congruence.
      rewrite E in Ea, Ef, Hb1. cbn [chunk sgid entryIndex entries sadded sindex app] in *. rewrite Hgid in *.
      rewrite Ea in Ea'. injection Ea' as -> Er. change (Z.of_nat 1) with 1 in Er.
      rewrite Ef. specialize (IH (MkSink (assignIds [length (entries s)] (seqZ (lastId repo + 1) (Z.of_nat 1)) (entries s ++ [e]))
        gid gid (sadded s ++ seqZ (lastId repo + 1) (Z.of_nat 1)) index [] []) repo1 (withProfiles g (profiles g ++ [lastId repo + 1]))).
      cbn [sgid chunk entryIndex entries sindex] in IH. cbv zeta in IH.
      assert (Hrepo : repo1 = withFresh gid g [p] repo) by done.
      assert (Hl1 : lastId repo1 = lastId repo + 1) by (by rewrite Hrepo).
      destruct IH as (I1 & I2 & I3); try done.
      { rewrite Hrepo. unfold withFresh. cbn [groups length]. by rewrite lookup_insert_eq. }
      rewrite Hl1 in I1, I2. destruct (arrivalsOf index (lastId repo + 1 + 1) ps) as [es index'] eqn:Ear.
      cbn [fst snd] in *. split_and!.
      * rewrite I1. change (seqZ (lastId repo + 1) (Z.of_nat 1)) with [lastId repo + 1]. unfold assignIds.
        cbn [zip zip_with fold_left]. rewrite alter_app_r_alt by lia.
        by rewrite Nat.sub_diag, <- app_assoc.
      * done.
      * rewrite I3, withFresh_cons, <- Hrepo. done.
    + rewrite flush_empty by done.
      specialize (IH (MkSink (entries s ++ [e]) (sgid s) (destination s) (sadded s) index [] []) repo g Hb Hg Hgid eq_refl eq_refl).
      cbn [entries sindex] in IH. cbv zeta in IH. destruct IH as (I1 & I2 & I3).
      destruct (arrivalsOf index (lastId repo + 1) ps) as [es index'] eqn:Ear. cbn [fst snd] in *.
      split_and!; [by rewrite I1, <- app_assoc|done|done].
Qed.

(** The import in one equation. *)
Lemma import_eq gid ps index repo g :
  idsBelow gid repo -> groups repo !! gid = Some g ->
  let st := SubscriptionRefresh.import settings ps (newSink gid index) repo in
  entries st.1 = (arrivalsOf index (lastId repo + 1) ps).1 /\
  sindex st.1 = (arrivalsOf index (lastId repo + 1) ps).2 /\
  st.2 = withFresh gid g (freshOf index ps) repo.
Proof.
  intros Hb Hg. rewrite import_one_by_one by (split_and!; [done|done|by apply Forall_nil]).
  rewrite flush_empty by done. by apply (import_closed gid ps (newSink gid index) repo g).
Qed.
End Storing.

(** ** Entries and claims *)

(** The entries of an import against the claims: a claimed old id, or the next
    new one. *)
Inductive Arr : Z -> list Parsed -> list (option Z) -> list NewEntry -> list Parsed -> Prop :=
  | arr_nil next : Arr next [] [] [] []
  | arr_claimed next p ps id os k keys es fr :
      Arr next ps os es fr -> Arr next (p :: ps) (Some id :: os) (New id true k keys (obdisplay (pout p)) :: es) fr
  | arr_new next p ps os k keys es fr :
      Arr (next + 1) ps os es fr ->
      Arr next (p :: ps) (None :: os) (New next false k keys (obdisplay (pout p)) :: es) (p :: fr).

Lemma arrivalsOf_claims index next ps :
  let a := arriveAll index (map (fun p => content (obkeys (pout p))) ps) in
  Arr next ps a.1 (arrivalsOf (Some index) next ps).1 (freshOf (Some index) ps) /\
  (arrivalsOf (Some index) next ps).2 = Some a.2.
Proof.
  cbv zeta. revert index next. induction ps as [|p ps IH]; intros index next; [by split; [constructor|]|].
  cbn [map arriveAll arrivalsOf freshOf]. unfold pushEntry, push, arrive. cbn [sindex app].
  set (c := content (obkeys (pout p))).
  destruct (claim (noteArrival index c) c) as [[id|] index'] eqn:E; cbn [entries sindex chunk app].
  - destruct (IH index' next) as [I1 I2].
    destruct (arriveAll index' _) as [os ix], (arrivalsOf (Some index') next ps) as [es ix']. cbn [fst snd] in *.
    split; [by constructor|done].
  - destruct (IH index' (next + 1)) as [I1 I2].
    destruct (arriveAll index' _) as [os ix], (arrivalsOf (Some index') (next + 1) ps) as [es ix']. cbn [fst snd] in *.
    split; [by constructor|done].
Qed.

(** Without an index nothing is claimed. *)
Lemma arrivalsOf_none next ps :
  Arr next ps (map (fun _ => None) ps) (arrivalsOf None next ps).1 (freshOf None ps) /\ freshOf None ps = ps.
Proof.
  revert next. induction ps as [|p ps IH]; intros next; [by split; [constructor|]|].
  cbn. destruct (IH (next + 1)) as [I1 I2]. destruct (arrivalsOf None (next + 1) ps) as [es ix]. cbn [fst snd] in *.
  split; [by constructor|by rewrite I2].
Qed.

Lemma arr_reused next ps os es fr : Arr next ps os es fr -> reusedIds es = omap id os.
Proof.
  unfold reusedIds. induction 1 as [|? ? ? ? ? ? ? ? ? ? IH|? ? ? ? ? ? ? ? ? IH]; [done| |]; rewrite filter_cons.
  - rewrite decide_True by done. cbn. by rewrite IH.
  - rewrite decide_False by done. by rewrite IH.
Qed.

Lemma arr_fresh next ps os es fr :
  0 <= next -> Arr next ps os es fr -> freshIds es = seqZ next (Z.of_nat (length fr)).
Proof.
  unfold freshIds. intros Hn Ha. induction Ha as [|? ? ? ? ? ? ? ? ? Ha IH|next p ps os k keys es fr Ha IH]; [done| |].
  - rewrite filter_cons, decide_False by (unfold fresh; cbn; by rewrite andb_false_r). by apply IH.
  - rewrite filter_cons, decide_True by (unfold fresh, stored; cbn; lia).
    cbn [map length nid]. rewrite IH by lia.
    rewrite (seqZ_cons next) by lia. f_equal. f_equal; lia.
Qed.

Lemma arr_stored next ps os es fr :
  0 <= next -> Arr next ps os es fr -> (forall id, Some id ∈ os -> 0 <= id) -> filter (fun e => stored e = true) es = es.
Proof.
  intros Hn Ha Hos. apply filter_all. induction Ha as [|? ? ? ? ? ? ? ? ? Ha IH|next p ps os k keys es fr Ha IH].
  - intros x Hx. by apply elem_of_nil in Hx.
  - intros x [->|Hx]%elem_of_cons; [|apply IH; [done| |done]; intros; apply Hos; by right].
    unfold stored. cbn. pose proof (Hos id ltac:(by left)). lia.
  - intros x [->|Hx]%elem_of_cons; [unfold stored; cbn; lia|].
    apply IH; [lia| |done]. intros; apply Hos; by right.
Qed.

Lemma arr_length next ps os es fr : Arr next ps os es fr -> length es = length ps /\ length os = length ps.
Proof. induction 1; cbn; intuition lia. Qed.

(** Each entry of the import: its claim, or its new row. *)
Lemma arr_at next ps os es fr gid m i p :
  Arr next ps os es fr -> ps !! i = Some p ->
  exists e o, es !! i = Some e /\ os !! i = Some o /\
    match o with
    | Some id => reused e = true /\ nid e = id
    | None => reused e = false /\ insertRows next gid fr m !! nid e = Some (MkDbRow (pout p) gid (pselector p) false)
    end.
Proof.
  intros Ha. revert i m. induction Ha as [|? ? ? ? ? ? ? ? ? Ha IH|next p' ps os k keys es fr Ha IH]; intros i m Hi; [done| |].
  - destruct i as [|i]; [injection Hi as ->; by eexists _, _|]. by apply IH.
  - destruct i as [|i]; [|cbn [insertRows]; by apply IH]. injection Hi as ->. eexists _, _. split_and!; [done..|].
    cbn [nid reused insertRows]. split; [done|]. rewrite insertRows_below by lia. by rewrite lookup_insert_eq.
Qed.

(** ** The import is coherent *)

Lemma arriveAll_claimed index cs :
  let a := arriveAll index cs in
  forall x, x ∈ claimedIds a.2 <-> x ∈ claimedIds index \/ x ∈ omap id a.1.
Proof.
  cbv zeta. revert index. induction cs as [|c cs IH]; intros index x; [cbn; rewrite elem_of_nil; tauto|].
  cbn [arriveAll]. unfold arrive, claim.
  destruct (takeFirst (unclaimed (noteArrival index c)) c) as [[i rest]|].
  - specialize (IH (Index rest (known (noteArrival index c)) (arrivals (noteArrival index c)) ({[i]} ∪ claimedIds (noteArrival index c))) x).
    destruct (arriveAll _ cs) as [os ix]. cbn [fst snd claimedIds] in *. rewrite IH. cbn. rewrite elem_of_cons. set_solver.
  - specialize (IH (noteArrival index c) x). destruct (arriveAll _ cs) as [os ix]. exact IH.
Qed.

Lemma claims_old old cs x :
  x ∈ omap id (arriveAll (newIndex old) cs).1 -> x ∈ map oid old.
Proof.
  rewrite arriveAll_takes. intros (o & Ho & Hid)%list_elem_of_omap. cbv [id] in Hid. subst o.
  apply takes_filed in Ho as (c & _ & Hc). destruct (newIndex_spec old) as (Hpile & _).
  rewrite Hpile in Hc. apply elem_idsWithContent in Hc as (e & He & <- & _). by apply list_elem_of_fmap_2.
Qed.

Lemma claims_NoDup old cs : NoDup (map oid old) -> NoDup (omap id (arriveAll (newIndex old) cs).1).
Proof.
  intros Hnd. rewrite arriveAll_takes. destruct (newIndex_spec old) as (Hpile & _).
  apply takes_NoDup. split; intros *; rewrite !Hpile; [by apply idsWithContent_NoDup|by apply idsWithContent_inj].
Qed.

(** A claimed profile has the content of the arrival. *)
Lemma claims_content old cs i c x :
  cs !! i = Some c -> (arriveAll (newIndex old) cs).1 !! i = Some (Some x) ->
  exists e, e ∈ old /\ oid e = x /\ content (okeys e) = c.
Proof.
  intros Hi. rewrite arriveAll_takes, (takes_spec _ _ _ _ Hi). destruct (newIndex_spec old) as (-> & _).
  intros [= H]. apply list_elem_of_lookup_2 in H. by apply elem_idsWithContent.
Qed.

Section Coherence.
Context (old : list OldEntry) (next : Z) (ps : list Parsed).
Hypothesis Hnd : NoDup (map oid old).
Hypothesis Hids : forall x, x ∈ map oid old -> 0 <= x < next.

Let cs := map (fun p => content (obkeys (pout p))) ps.
Let a := arriveAll (newIndex old) cs.
Let es := (arrivalsOf (Some (newIndex old)) next ps).1.

Lemma entries_stored : 0 <= next -> filter (fun e => stored e = true) es = es.
Proof.
  intros Hn. destruct (arrivalsOf_claims (newIndex old) next ps) as [Ha _]. eapply arr_stored; [done|exact Ha|].
  intros x Hx. assert (x ∈ map oid old) as Hin; [|by apply Hids in Hin; lia].
  apply (claims_old old cs). apply list_elem_of_omap. by exists (Some x).
Qed.

Lemma arr_coherent : 0 <= next -> Coherent old es a.2.
Proof.
  intros Hn. destruct (arrivalsOf_claims (newIndex old) next ps) as [Ha _]. fold cs a es in Ha.
  assert (Hr : reusedIds es = omap id a.1) by (eapply arr_reused; exact Ha).
  assert (Hf : freshIds es = seqZ next (Z.of_nat (length (freshOf (Some (newIndex old)) ps)))) by (by eapply arr_fresh).
  assert (Hc : forall x, x ∈ claimedIds a.2 <-> x ∈ omap id a.1).
  { intros x. unfold a. rewrite arriveAll_claimed. destruct (newIndex_spec old) as (_ & _ & _ & ->). set_solver. }
  split.
  - done.
  - rewrite entries_stored by done.
    assert (map nid es ≡ₚ reusedIds es ++ freshIds es) as ->.
    { unfold reusedIds, freshIds. rewrite <- map_app. apply Permutation_map.
      rewrite <- (filter_app_complement (fun e => reused e = true) es) at 1. f_equiv.
      apply reflexive_eq, filter_ext_elem. intros e He. rewrite <- (entries_stored Hn) in He.
      apply list_elem_of_filter in He as [He _]. unfold fresh. rewrite He. by destruct (reused e). }
    rewrite Hr, Hf. apply NoDup_app. split_and!; [by apply claims_NoDup| |apply NoDup_seqZ].
    intros x Hx%claims_old Hx'%elem_of_seqZ. apply Hids in Hx. lia.
  - apply Forall_forall. intros e He _. rewrite <- (entries_stored Hn) in He. by apply list_elem_of_filter in He as [].
  - intros x. rewrite Hr. apply Hc.
  - intros x Hx. by apply Hc, claims_old in Hx.
  - intros x. rewrite Hf. intros Hx%elem_of_seqZ Hx'%Hids. lia.
Qed.
End Coherence.

(** An import into an existing group stores every profile the parser
    emits, one entry each in document order: a profile whose content the group
    already has takes over an old row, any other gets the next id and a place at
    the end of the listing; inserting in chunks of 500 is inserting one at a
    time, and the index it leaves is coherent with the entries. *)
Theorem import_stores_all settings gid old ps repo g :
  idsBelow gid repo -> groups repo !! gid = Some g ->
  NoDup (map oid old) -> (forall x, x ∈ map oid old -> 0 <= x <= lastId repo) ->
  let st := SubscriptionRefresh.import settings ps (newSink gid (Some (newIndex old))) repo in
  st = fold_left (fun st p => flush settings (push p st.1) st.2) ps (newSink gid (Some (newIndex old)), repo) /\
  length (entries st.1) = length ps /\ storedCount st.1 = Z.of_nat (length ps) /\
  freshIds (entries st.1) = seqZ (lastId repo + 1) (lastId st.2 - lastId repo) /\
  listing gid st.2 = listing gid repo ++ freshIds (entries st.1) /\
  Coherent old (entries st.1) (default (newIndex old) (sindex st.1)).
Proof.
  intros Hb Hg Hnd Hids. cbv zeta. pose proof Hb as (Hgid & _ & Hl & _).
  split.
  { rewrite import_one_by_one by (split_and!; [done|done|by apply Forall_nil]). by rewrite flush_empty. }
  unfold storedCount. destruct (import_eq settings gid ps (Some (newIndex old)) repo g Hb Hg) as (-> & -> & ->).
  destruct (arrivalsOf_claims (newIndex old) (lastId repo + 1) ps) as [Ha Hx].
  assert (Hids' : forall x, x ∈ map oid old -> 0 <= x < lastId repo + 1) by (intros x Hin; apply Hids in Hin; lia).
  split_and!.
  - by apply arr_length in Ha as [].
  - rewrite (entries_stored old (lastId repo + 1) ps Hids' ltac:(lia)). f_equal. by apply arr_length in Ha as [].
  - rewrite (arr_fresh (lastId repo + 1) _ _ _ _ ltac:(lia) Ha). unfold withFresh. cbn [lastId]. f_equal. lia.
  - rewrite (arr_fresh (lastId repo + 1) _ _ _ _ ltac:(lia) Ha). unfold listing, withFresh. cbn [groups].
    by rewrite lookup_insert_eq, Hg.
  - rewrite Hx. apply arr_coherent; [done|done|lia].
Qed.

Definition outbound0 (c i : string) : Outbound := MkOutbound (keysOf c i) (u "vless") (u c) (u c) (u c) false.

Definition group0 (ids : list Z) : Group := MkGroup ids (SortAction Raw false) siteScore tx.

(** A group with the rows of [old0]. *)
Definition repo0 : Repo :=
  MkRepo 6
    (list_to_map (map (fun e => (oid e, MkDbRow (MkOutbound (okeys e) (u "vless") (odisplay e) (odisplay e) (odisplay e) false) 1 false (oid e =? 6))) old0))
    {[1 := group0 [3; 4; 5; 6]]} (-1) [].

Definition settings0 : Settings := MkSettings 1 false false (-1).

Definition parsed0 : list Parsed :=
  [MkParsed (outbound0 "a" "x") false; MkParsed (outbound0 "b2" "y") false; MkParsed (outbound0 "d" "w") false].

Lemma repo0_below : idsBelow 1 repo0.
Proof.
  split_and!; [lia|by eexists|done|]. apply Forall_forall. intros x. change (listing 1 repo0) with [3; 4; 5; 6].
  rewrite !elem_of_cons, elem_of_nil. cbn [lastId repo0]. lia.
Qed.

Lemma import_stores_all_witness :
  let st := SubscriptionRefresh.import settings0 parsed0 (newSink 1 (Some (newIndex old0))) repo0 in
  storedIds st.1 = [3; 7; 8] /\ storedCount st.1 = Z.of_nat (length parsed0).
Proof.
  cbv zeta. split; [vm_compute; reflexivity|].
  refine (proj1 (proj2 (proj2 (import_stores_all settings0 1 old0 parsed0 repo0 (group0 [3; 4; 5; 6]) repo0_below _ _ _)))).
  - reflexivity.
  - by apply (bool_decide_unpack _).
  - intros x. change (map oid old0) with [3; 4; 5; 6]. rewrite !elem_of_cons, elem_of_nil. cbn [lastId repo0]. lia.
Defined.
