(* ===== verification/SubscriptionRefreshProps.v ===== *)
(** * SubscriptionRefreshProps: what a refresh guarantees

    The theorems on [applyRefresh]: when no delete transaction fails, the group
    lists exactly its rows afterwards, once each, and its subscription data is what
    the response announced; its contents are those of the
    subscription; and what must survive survives.  One lemma per stage: the
    deletion ([deleteProfiles_spec]), the import ([withFresh_consistent]), the
    plan ([applyPlan_spec]), the clearing and the flagged profiles. *)

From Stdlib Require Import QArith.
From S2P Require Import Prelude Text StableSort ProfileMetrics Group GroupOptions Reconcile SubscriptionRefresh SubscriptionImport.
#[global] Open Scope Z_scope.

(** The group lists exactly its rows, once each, and the ids were given out by
    the counter. *)
Record Consistent (gid : Z) (repo : Repo) : Prop := {
  con_gid : 0 <= gid;
  con_group : is_Some (groups repo !! gid);
  con_nodup : NoDup (listing gid repo);
  con_listed : forall id, id ∈ listing gid repo <-> exists row, rows repo !! id = Some row /\ rgid row = gid;
  con_last : 0 <= lastId repo;
  con_ids : forall id row, rows repo !! id = Some row -> 0 <= id <= lastId repo }.

Section Props.
Context (settings : Settings).

(** ** Deletion *)

Record DeleteSpec (gid : Z) (ids : list Z) (repo : Repo) (o : DeleteOutcome) (repo' : Repo) : Prop := {
  ds_ok : ok o = true;
  ds_faults : faults repo' = [];
  ds_last : lastId repo' = lastId repo;
  ds_rows : forall id, rows repo' !! id = if decide (id ∈ odeleted o) then None else rows repo !! id;
  ds_listing :
    listing gid repo' = filter (fun id => id ∉ odeleted o) (listing gid repo) \/
    listing gid repo' = listing gid repo /\
      forall id row, id ∈ odeleted o -> rows repo !! id = Some row -> rgid row <> gid;
  ds_group : forall g, groups repo !! gid = Some g -> exists g', groups repo' !! gid = Some g' /\ sort g' = sort g;
  ds_running : forall id, id ∈ odeleted o -> id = startedId repo -> allow_stopping_active_profile settings = true;
  ds_started : allow_stopping_active_profile settings = false -> startedId repo' = startedId repo;
  ds_split : forall id, id ∈ ids <-> id ∈ odeleted o \/ id ∈ kept o;
  ds_disjoint : forall id, id ∈ kept o -> id ∉ odeleted o;
  ds_kept : forall id, id ∈ kept o -> id = startedId repo /\ allow_stopping_active_profile settings = false }.

Lemma nothingDeleted_spec gid repo : faults repo = [] -> DeleteSpec gid [] repo nothingDeleted repo.
Proof.
  intros Hf. split; cbn.
  - done.
  - done.
  - done.
  - intros id. by rewrite decide_False by apply not_elem_of_nil.
  - right. split; [done|]. intros id row Hin. by apply elem_of_nil in Hin.
  - intros g Hg. by exists g.
  - intros id Hin. by apply elem_of_nil in Hin.
  - done.
  - intros id. rewrite !elem_of_nil. tauto.
  - intros id Hin. by apply elem_of_nil in Hin.
  - intros id Hin. by apply elem_of_nil in Hin.
Qed.

Lemma batchDelete_spec gid ids stop repo :
  faults repo = [] ->
  let ids' := if bool_decide (startedId repo ∈ ids) && negb stop then filter (fun id => id <> startedId repo) ids else ids in
  exists repo', BatchDeleteProfiles settings ids stop repo = (true, ids', repo') /\
    faults repo' = [] /\ lastId repo' = lastId repo /\
    (forall id, rows repo' !! id = if decide (id ∈ ids') then None else rows repo !! id) /\
    (listing gid repo' = filter (fun id => id ∉ ids') (listing gid repo) \/
     listing gid repo' = listing gid repo /\ forall id row, id ∈ ids' -> rows repo !! id = Some row -> rgid row <> gid) /\
    (forall g, groups repo !! gid = Some g -> exists g', groups repo' !! gid = Some g' /\ sort g' = sort g) /\
    (stop = false -> startedId repo' = startedId repo).
Proof.
  intros Hf. cbv zeta. unfold BatchDeleteProfiles.
  set (ids' := if bool_decide (startedId repo ∈ ids) && negb stop then filter (fun id => id <> startedId repo) ids else ids).
  set (repo1 := if bool_decide (startedId repo ∈ ids) && stop then setStarted repo (stoppedId settings) else repo).
  assert (Hr1 : rows repo1 = rows repo /\ groups repo1 = groups repo /\ faults repo1 = faults repo /\ lastId repo1 = lastId repo /\
    (stop = false -> startedId repo1 = startedId repo)).
  { unfold repo1. destruct stop; [case_match; done|]. by rewrite andb_false_r. }
  clearbody repo1 ids'. destruct Hr1 as (Hr & Hg & Hf1 & Hl & Hst). destruct ids' as [|x l].
  - exists repo1. split; [done|]. rewrite Hf1, Hr, Hl. split_and!; [done|done| | | |done].
    + intros id. by rewrite decide_False by apply not_elem_of_nil.
    + right. unfold listing. rewrite Hg. split; [done|]. intros id row Hin. by apply elem_of_nil in Hin.
    + rewrite Hg. intros g H. by exists g.
  - set (del := x :: l) in *. clearbody del. unfold nextFault. rewrite Hf1, Hf.
    set (gids := list_to_set (map _ (GetProfileBatch repo1 del)) : gset Z).
    eexists. split; [done|]. cbn [faults lastId rows groups]. rewrite Hr, Hl. split_and!; [by rewrite Hf1|done| | | |done].
    + intros id. case_decide as Hin.
      * apply map_lookup_filter_None_2. right. intros row _ Hn. by apply Hn.
      * destruct (rows repo !! id) as [row|] eqn:Erow.
        -- by apply map_lookup_filter_Some_2.
        -- apply map_lookup_filter_None_2. by left.
    + unfold listing. cbn [groups]. rewrite map_lookup_imap, Hg. destruct (groups repo !! gid) as [g|]; [|by left].
      cbn. case_bool_decide as Hin; [by left|]. right. split; [done|]. intros id row Hid Hrow Hgid.
      apply Hin. unfold gids. apply elem_of_list_to_set, list_elem_of_fmap. exists (id, row). split; [done|].
      unfold GetProfileBatch. apply list_elem_of_omap. exists id. split; [done|]. by rewrite Hr, Hrow.
    + intros g H. rewrite map_lookup_imap, Hg, H. cbn. eexists. split; [done|]. by destruct (bool_decide _).
Qed.

Lemma deleteProfiles_spec gid ids repo :
  faults repo = [] ->
  let '(o, repo') := deleteProfiles settings ids repo in DeleteSpec gid ids repo o repo'.
Proof.
  intros Hf. unfold deleteProfiles.
  destruct (batchDelete_spec gid ids (allow_stopping_active_profile settings) repo Hf)
    as (repo' & -> & H1 & H2 & H3 & H4 & H5 & H6).
  set (ids' := if bool_decide (startedId repo ∈ ids) && negb (allow_stopping_active_profile settings)
    then filter (fun id => id <> startedId repo) ids else ids) in *.
  assert (Hids' : forall id, id ∈ ids' <-> id ∈ ids /\
    (id = startedId repo -> allow_stopping_active_profile settings = true)).
  { intros id. unfold ids'. case_bool_decide as Hs; [|cbn; split; [intros H; split; [done|by intros ->]|tauto]].
    destruct (allow_stopping_active_profile settings); cbn; [tauto|]. rewrite list_elem_of_filter. intuition congruence. }
  assert (Hcase : forall id, id = startedId repo /\ allow_stopping_active_profile settings = false \/
    (id = startedId repo -> allow_stopping_active_profile settings = true)).
  { intros id. destruct (decide (id = startedId repo)); [|by right]. destruct (allow_stopping_active_profile settings); by auto. }
  split; cbn; [done|done|done|done|done|done| |done| | |].
  - intros id Hid. apply Hids' in Hid as [_ Hid]. exact Hid.
  - intros id. rewrite list_elem_of_filter, elem_of_remove_dups, Hids'. destruct (Hcase id) as [(-> & E)|H]; [|tauto].
    rewrite E. split; [intros H; right; split; [|done]|tauto]. intros [_ Hn]. by specialize (Hn eq_refl).
  - intros id (Hk & _)%list_elem_of_filter. done.
  - intros id (Hk & Hin)%list_elem_of_filter. rewrite elem_of_remove_dups in Hin. rewrite Hids' in Hk.
    destruct (Hcase id) as [H|H]; [done|]. destruct Hk. by split.
Qed.

Lemma delete_consistent gid ids repo o repo' :
  DeleteSpec gid ids repo o repo' -> Consistent gid repo ->
  Consistent gid repo' /\ listing gid repo' = filter (fun id => id ∉ odeleted o) (listing gid repo).
Proof.
  intros Hd Hc.
  assert (Hl : listing gid repo' = filter (fun id => id ∉ odeleted o) (listing gid repo)).
  { destruct (ds_listing _ _ _ _ _ Hd) as [H|[H Hno]]; [done|]. rewrite H. symmetry. apply filter_all.
    intros id Hin Hdel. apply (con_listed _ _ Hc) in Hin as (row & Hrow & Hg). by apply (Hno id row). }
  split; [|done]. split.
  - apply (con_gid _ _ Hc).
  - destruct (con_group _ _ Hc) as [g Hg]. apply (ds_group _ _ _ _ _ Hd) in Hg as (g' & Hg' & _). by exists g'.
  - rewrite Hl. apply NoDup_filter, (con_nodup _ _ Hc).
  - intros id. rewrite Hl, list_elem_of_filter, (con_listed _ _ Hc), (ds_rows _ _ _ _ _ Hd).
    case_decide; [|naive_solver]. split; [by intros [? _]|by intros (? & ? & _)].
  - rewrite (ds_last _ _ _ _ _ Hd). apply (con_last _ _ Hc).
  - intros id row. rewrite (ds_rows _ _ _ _ _ Hd), (ds_last _ _ _ _ _ Hd). case_decide; [done|]. apply (con_ids _ _ Hc).
Qed.

(** ** Import *)

Lemma consistent_below gid repo : Consistent gid repo -> idsBelow gid repo.
Proof.
  intros Hc. split_and!; [apply (con_gid _ _ Hc)|apply (con_group _ _ Hc)|apply (con_last _ _ Hc)|].
  apply Forall_forall. intros id Hin. apply (con_listed _ _ Hc) in Hin as (row & Hrow & _).
  apply (con_ids _ _ Hc) in Hrow. lia.
Qed.

Lemma listing_withFresh gid g ps repo :
  groups repo !! gid = Some g ->
  listing gid (withFresh gid g ps repo) = listing gid repo ++ seqZ (lastId repo + 1) (Z.of_nat (length ps)).
Proof. intros Hg. unfold listing, withFresh. cbn [groups]. by rewrite lookup_insert_eq, Hg. Qed.

Lemma withFresh_consistent gid g ps repo :
  Consistent gid repo -> groups repo !! gid = Some g -> Consistent gid (withFresh gid g ps repo).
Proof.
  intros Hc Hg. pose proof (listing_withFresh gid g ps repo Hg) as Hl. split.
  - apply (con_gid _ _ Hc).
  - unfold withFresh. cbn [groups]. rewrite lookup_insert_eq. by eexists.
  - rewrite Hl. apply NoDup_app. split_and!; [apply (con_nodup _ _ Hc)| |apply NoDup_seqZ].
    intros id Hin Hs%elem_of_seqZ. apply (con_listed _ _ Hc) in Hin as (row & Hrow & _).
    apply (con_ids _ _ Hc) in Hrow. lia.
  - intros id. rewrite Hl, elem_of_app, (con_listed _ _ Hc), elem_of_seqZ. unfold withFresh. cbn [rows]. split.
    + intros [(row & Hrow & Hgid)|Hin].
      * exists row. split; [|done]. rewrite insertRows_below; [done|]. apply (con_ids _ _ Hc) in Hrow. lia.
      * destruct (insertRows_some (lastId repo + 1) gid ps (rows repo) id) as (row & H1 & H2); [lia|]. by exists row.
    + intros (row & Hrow & Hgid). apply insertRows_dom in Hrow as [H|[H _]]; [left; by exists row|right; lia].
  - unfold withFresh. cbn [lastId]. pose proof (con_last _ _ Hc). lia.
  - intros id row Hrow. unfold withFresh in *. cbn [lastId rows] in *.
    apply insertRows_dom in Hrow as [H|[H _]]; [apply (con_ids _ _ Hc) in H; lia|].
    pose proof (con_last _ _ Hc). lia.
Qed.

(** ** Moving the selectors back, and the survivors *)

Lemma insertSticky_perm ids sticky : fold_left insertSticky sticky ids ≡ₚ ids ++ map snd sticky.
Proof.
  revert ids. induction sticky as [|[i x] sticky IH]; intros ids; [by rewrite app_nil_r|].
  cbn [fold_left map snd]. rewrite IH. unfold insertSticky at 1. cbn [snd]. rewrite insertAt_perm.
  by rewrite <- Permutation_middle.
Qed.

Lemma filter_insertAt (P : Z -> Prop) `{!forall x, Decision (P x)} l i x :
  ~ P x -> filter P (insertAt l i x) = filter P l.
Proof.
  intros Hn. unfold insertAt. rewrite filter_app, filter_cons_False by done. by rewrite <- filter_app, take_drop.
Qed.

Lemma insertSticky_filter ids sticky :
  filter (fun id => id ∉ map snd sticky) (fold_left insertSticky sticky ids) = filter (fun id => id ∉ map snd sticky) ids.
Proof.
  enough (H : forall s, (forall p, p ∈ s -> p ∈ sticky) ->
    forall ids, filter (fun id => id ∉ map snd sticky) (fold_left insertSticky s ids) = filter (fun id => id ∉ map snd sticky) ids)
    by (by apply H).
  clear ids. induction s as [|p s IH]; intros Hs ids; [done|]. cbn [fold_left]. rewrite IH by (intros; apply Hs; by right).
  apply filter_insertAt. intros Hn. apply Hn. apply list_elem_of_fmap_2, Hs. by left.
Qed.

Lemma restore_spec prev ids id :
  NoDup ids -> NoDup (restore prev ids id) /\ (forall x, x ∈ restore prev ids id <-> x ∈ ids \/ x = id).
Proof.
  intros Hnd. unfold restore. case_bool_decide as Hin; [split; [done|]; naive_solver|].
  rewrite insertAt_perm. split; [by apply NoDup_cons|]. intros x. rewrite insertAt_perm, elem_of_cons. tauto.
Qed.

Lemma restores_spec prev l ids :
  NoDup ids ->
  NoDup (fold_left (restore prev) l ids) /\ (forall x, x ∈ fold_left (restore prev) l ids <-> x ∈ ids \/ x ∈ l).
Proof.
  revert ids. induction l as [|id l IH]; intros ids Hnd.
  - cbn. split; [done|]. intros x. rewrite elem_of_nil. tauto.
  - cbn [fold_left]. destruct (restore_spec prev ids id Hnd) as [H1 H2].
    destruct (IH _ H1) as [H3 H4]. split; [done|]. intros x. rewrite H4, H2, elem_of_cons. tauto.
Qed.

(** ** Updates *)

Lemma applyUpdate_dom m pair id :
  (forall gid, (exists row, m !! id = Some row /\ rgid row = gid) <->
     exists row, applyUpdate m pair !! id = Some row /\ rgid row = gid).
Proof.
  intros gid. unfold applyUpdate. destruct (m !! pair.1) as [old|] eqn:E1; [|done]. destruct (m !! pair.2); [|done].
  destruct (decide (id = pair.1)) as [->|Hne]; [|by rewrite lookup_insert_ne].
  rewrite lookup_insert_eq, E1. split; [intros (row & [= <-] & H)|intros (row & [= <-] & H)]; by eexists.
Qed.

Lemma applyUpdates_dom us m id gid :
  (exists row, m !! id = Some row /\ rgid row = gid) <->
  exists row, fold_left applyUpdate us m !! id = Some row /\ rgid row = gid.
Proof.
  revert m. induction us as [|p us IH]; intros m; [done|]. cbn [fold_left]. by rewrite <- IH, <- applyUpdate_dom.
Qed.

Lemma applyUpdates_at us m :
  NoDup (map fst us) -> (forall n, n ∈ map snd us -> n ∉ map fst us) ->
  forall x,
    (x ∉ map fst us -> fold_left applyUpdate us m !! x = m !! x) /\
    (forall n old new, (x, n) ∈ us -> m !! x = Some old -> m !! n = Some new ->
       fold_left applyUpdate us m !! x = Some (MkDbRow (rout new) (rgid old) (rselector old) (rworking old))).
Proof.
  revert m. induction us as [|[o n] us IH]; intros m Hnd Hdis x.
  - split; [done|]. intros n old new Hin. by apply elem_of_nil in Hin.
  - cbn [map fst snd] in *. apply NoDup_cons in Hnd as [Hnot Hnd]. cbn [fold_left].
    destruct (IH (applyUpdate m (o, n)) Hnd) with (x := x) as [I1 I2].
    { intros n' Hn' Hf. apply (Hdis n'); by right. }
    assert (Hother : forall y, y <> o -> applyUpdate m (o, n) !! y = m !! y).
    { intros y Hy. unfold applyUpdate. cbn. do 2 (case_match; [|done]). by rewrite lookup_insert_ne. }
    split.
    + rewrite elem_of_cons. intros Hx. rewrite I1 by tauto. apply Hother. tauto.
    + intros n' old new [[= -> ->]|Hin]%elem_of_cons Ho Hn.
      * rewrite I1 by done. unfold applyUpdate. cbn. rewrite Ho, Hn. by rewrite lookup_insert_eq.
      * assert (x <> o) by (intros ->; apply Hnot; by apply (list_elem_of_fmap_2 fst us (o, n'))).
        assert (n' <> o).
        { intros ->. apply (Hdis o); [right|by left]. by apply (list_elem_of_fmap_2 snd us (x, o)). }
        apply (I2 n'); [done|by rewrite Hother|by rewrite Hother].
Qed.

(** ** The plan *)

Lemma setListing_spec gid ids repo g :
  groups repo !! gid = Some g ->
  setListing gid ids repo =
  MkRepo (lastId repo) (rows repo) (<[gid := withProfiles g ids]> (groups repo)) (startedId repo) (faults repo).
Proof. unfold setListing. by intros ->. Qed.

Record PlanSpec (gid : Z) (working : list Z) (sticky : list (nat * Z)) (p : ReconcilePlan) (repo : Repo)
    (d : DiffOutcome) (repo' : Repo) : Prop := {
  pl_consistent : Consistent gid repo';
  pl_faults : faults repo' = [];
  pl_ok : deleteFailed d = false;
  pl_last : lastId repo' = lastId repo;
  pl_deleted : forall id, id ∈ odeleted (ddeleted d) ->
    id ∈ stale p /\ (id ∉ working) /\
    (id = startedId repo -> allow_stopping_active_profile settings = true);
  pl_rows : forall id, rows repo' !! id =
    if decide (id ∈ odeleted (ddeleted d)) then None else fold_left applyUpdate (updates p) (rows repo) !! id;
  pl_kept : forall id, id ∈ dkept d <-> id ∈ stale p /\ id ∉ odeleted (ddeleted d);
  pl_all : forall id, id ∈ stale p -> id ∉ working ->
    (id = startedId repo -> allow_stopping_active_profile settings = true) -> id ∈ odeleted (ddeleted d);
  pl_listing : dkept d = [] -> listing gid repo' = fold_left insertSticky sticky (order p);
  pl_group : forall g, groups repo !! gid = Some g -> exists g', groups repo' !! gid = Some g' /\ sort g' = sort g;
  pl_started : allow_stopping_active_profile settings = false -> startedId repo' = startedId repo }.

Lemma applyPlan_spec gid working sticky p repo :
  Consistent gid repo -> faults repo = [] -> order p ++ stale p ++ map snd sticky ≡ₚ listing gid repo ->
  let '(d, repo') := applyPlan settings sticky gid working p repo in PlanSpec gid working sticky p repo d repo'.
Proof.
  intros Hc Hf Hp. unfold applyPlan. destruct (con_group _ _ Hc) as [g Hg].
  erewrite setListing_spec by exact Hg. cbn [lastId rows groups startedId faults].
  set (repo1 := MkRepo _ _ (<[gid := _]> (groups repo)) _ _).
  set (staleIds := filter (fun id => id ∉ working) (stale p)).
  pose proof (deleteProfiles_spec gid staleIds repo1 Hf) as Hd.
  destruct (deleteProfiles settings staleIds repo1) as [o repo2].
  set (placed := fold_left insertSticky sticky (order p)).
  set (keptIds := kept o ++ filter (fun id => id ∈ working) (stale p)).
  set (prev := listing gid (MkRepo _ _ (groups repo) _ _)).
  destruct (ds_group _ _ _ _ _ Hd (withProfiles g placed)) as (g2 & Hg2 & Hs2);
    [unfold repo1; cbn [groups]; apply lookup_insert_eq|].
  erewrite setListing_spec by exact Hg2.
  assert (Hplaced : placed ≡ₚ order p ++ map snd sticky) by apply insertSticky_perm.
  assert (Hall : placed ++ stale p ≡ₚ listing gid repo).
  { rewrite Hplaced, <- Hp, <- app_assoc. f_equiv. apply Permutation_app_comm. }
  pose proof (con_nodup _ _ Hc) as Hnd. rewrite <- Hall in Hnd. apply NoDup_app in Hnd as (Hnd1 & Hdis & Hnd3).
  assert (Hl1 : listing gid repo1 = placed) by (unfold listing, repo1; cbn [groups]; by rewrite lookup_insert_eq).
  assert (Hdel : forall id, id ∈ odeleted o -> id ∈ stale p /\ id ∉ working).
  { intros id Hid. assert (id ∈ staleIds) as Hs by (apply (ds_split _ _ _ _ _ Hd); by left).
    apply list_elem_of_filter in Hs. tauto. }
  assert (Hl2 : listing gid repo2 = placed).
  { destruct (ds_listing _ _ _ _ _ Hd) as [H|[H _]]; rewrite H, Hl1; [|done]. apply filter_all.
    intros id Hin Hid. apply Hdel in Hid as [Hid _]. by apply (Hdis id). }
  assert (Hkept : forall id, id ∈ keptIds <-> id ∈ stale p /\ id ∉ odeleted o).
  { intros id. unfold keptIds. rewrite elem_of_app, list_elem_of_filter. split.
    - intros [Hk|[Hw Hst]].
      + split; [|by apply (ds_disjoint _ _ _ _ _ Hd)].
        assert (id ∈ staleIds) as Hs by (apply (ds_split _ _ _ _ _ Hd); by right). by apply list_elem_of_filter in Hs as [].
      + split; [done|]. intros Hid. by apply Hdel in Hid as [_ []].
    - intros [Hst Hno]. destruct (decide (id ∈ working)); [by right|]. left.
      assert (id ∈ staleIds) as Hs by by apply list_elem_of_filter. apply (ds_split _ _ _ _ _ Hd) in Hs as [Hs|Hs]; done. }
  rewrite Hl2. destruct (restores_spec prev keptIds placed Hnd1) as [Hr1 Hr2].
  set (final := fold_left (restore prev) keptIds placed) in *.
  assert (Hlf : listing gid (MkRepo (lastId repo2) (rows repo2) (<[gid := withProfiles g2 final]> (groups repo2))
    (startedId repo2) (faults repo2)) = final) by (unfold listing; cbn [groups]; by rewrite lookup_insert_eq).
  assert (Hrows : forall id, rows repo2 !! id =
    if decide (id ∈ odeleted o) then None else fold_left applyUpdate (updates p) (rows repo) !! id)
    by (intros id; by rewrite (ds_rows _ _ _ _ _ Hd)).
  split; cbn [deleteFailed ddeleted dkept lastId rows groups startedId faults].
  - split; cbn [lastId rows groups]; [apply (con_gid _ _ Hc)|rewrite lookup_insert_eq; by eexists| | | |].
    + by rewrite Hlf.
    + intros id. rewrite Hlf, Hr2, Hkept, Hrows.
      assert (Hin : id ∈ listing gid repo <-> id ∈ placed \/ id ∈ stale p) by (rewrite <- Hall; apply elem_of_app).
      rewrite (con_listed _ _ Hc), (applyUpdates_dom (updates p)) in Hin.
      case_decide as Hid; [|rewrite Hin; tauto].
      split; [|by intros (row & ? & _)]. intros [Hpl|[_ Hno]]; [|done]. apply Hdel in Hid as [Hid _]. by destruct (Hdis id).
    + rewrite (ds_last _ _ _ _ _ Hd). apply (con_last _ _ Hc).
    + intros id row. rewrite Hrows, (ds_last _ _ _ _ _ Hd). case_decide; [done|]. intros Hrow.
      destruct (applyUpdates_dom (updates p) (rows repo) id (rgid row)) as [_ Hback].
      destruct Hback as (row' & Hrow' & _); [by exists row|]. by apply (con_ids _ _ Hc) in Hrow'.
  - apply (ds_faults _ _ _ _ _ Hd).
  - by rewrite (ds_ok _ _ _ _ _ Hd).
  - apply (ds_last _ _ _ _ _ Hd).
  - intros id Hid. pose proof (Hdel id Hid) as [H1 H2]. split_and!; [done|done|]. intros E.
    by apply (ds_running _ _ _ _ _ Hd id Hid).
  - exact Hrows.
  - exact Hkept.
  - intros id Hst Hw Hrun. assert (id ∈ staleIds) as Hs by by apply list_elem_of_filter.
    apply (ds_split _ _ _ _ _ Hd) in Hs as [Hs|Hs]; [done|].
    apply (ds_kept _ _ _ _ _ Hd) in Hs as [E Ha]. by rewrite Hrun in Ha.
  - intros Hk. rewrite Hlf. unfold final. by rewrite Hk.
  - intros g0 Hg0. assert (g0 = g) as -> by congruence. rewrite lookup_insert_eq. eexists. split; [done|]. exact Hs2.
  - apply (ds_started _ _ _ _ _ Hd).
Qed.

(** ** Members and selectors *)

Definition stickyIds (gid : Z) (repo : Repo) : list Z := filter (fun id => isSelector repo id = true) (listing gid repo).

Lemma stickyOf_ids gid repo : map snd (stickyOf gid repo) = stickyIds gid repo.
Proof.
  unfold stickyOf, stickyIds. generalize (listing gid repo). intros l.
  enough (H : forall k, map snd (filter (fun '(_, id) => isSelector repo id = true) (imap (fun i x => ((k + i)%nat, x)) l)) =
    filter (fun id => isSelector repo id = true) l) by apply (H 0%nat).
  induction l as [|x l IH]; intros k; [done|]. cbn [imap]. rewrite !filter_cons.
  assert (Ht : imap ((fun i x => ((k + i)%nat, x)) ∘ S) l = imap (fun i x => ((S k + i)%nat, x)) l).
  { apply imap_ext. intros i y _. cbn. f_equal. lia. }
  rewrite Ht. repeat case_decide; cbn [map snd]; rewrite ?IH; done.
Qed.

Lemma members_split gid repo repo1 :
  NoDup (listing gid repo) -> NoDup (listing gid repo1) ->
  (forall id, id ∈ stickyIds gid repo -> id ∈ listing gid repo1) ->
  listing gid repo1 ≡ₚ members (stickyOf gid repo) gid repo1 ++ map snd (stickyOf gid repo).
Proof.
  intros Hnd Hnd1 Hin. unfold members. rewrite stickyOf_ids.
  rewrite <- (filter_app_complement (fun id => id ∉ stickyIds gid repo) (listing gid repo1)) at 1. f_equiv.
  apply NoDup_Permutation; [by apply NoDup_filter|by apply NoDup_filter|].
  intros id. rewrite list_elem_of_filter. split; [|intros H; split; [|by apply Hin]; tauto].
  intros [H _]. destruct (decide (id ∈ stickyIds gid repo)); [done|]. by destruct H.
Qed.

Lemma batch_ids repo ids :
  (forall id, id ∈ ids -> is_Some (rows repo !! id)) -> map fst (GetProfileBatch repo ids) = ids.
Proof.
  unfold GetProfileBatch. induction ids as [|id ids IH]; intros H; [done|]. cbn.
  destruct (H id ltac:(by left)) as [row Hrow]. rewrite Hrow. cbn. f_equal. apply IH. intros x Hx. apply H. by right.
Qed.

Lemma elem_batch repo ids p : p ∈ GetProfileBatch repo ids <-> p.1 ∈ ids /\ rows repo !! p.1 = Some p.2.
Proof.
  unfold GetProfileBatch. rewrite list_elem_of_omap. destruct p as [id row]. cbn. split.
  - intros (x & Hx & E). destruct (rows repo !! x) as [r|] eqn:Er; [|done]. by injection E as -> ->.
  - intros [Hin Hrow]. exists id. by rewrite Hrow.
Qed.

Lemma members_listed sticky gid repo id : id ∈ members sticky gid repo -> id ∈ listing gid repo.
Proof. unfold members. by intros [_ H]%list_elem_of_filter. Qed.

Lemma members_batch sticky gid repo :
  Consistent gid repo -> map fst (GetProfileBatch repo (members sticky gid repo)) = members sticky gid repo.
Proof.
  intros Hc. apply batch_ids. intros id Hin%members_listed. apply (con_listed _ _ Hc) in Hin as (row & H & _). by exists row.
Qed.

(** ** Flagged profiles and clearing *)

Section Stages.
Context (IsValid : DbRow -> option bool).
Context (GetProfile : Z -> option Profile) (IsProfileDisabled : Z -> bool) (bitrateToBps : qstring -> Q).

Lemma collect_sub matches flagged ps x : x ∈ collect matches flagged ps -> x ∈ flagged \/ x ∈ map fst ps.
Proof.
  unfold collect. revert flagged. induction ps as [|p ps IH]; intros flagged; [by left|].
  cbn [fold_left map]. intros [Hx|Hx]%IH; [|by right; right].
  destruct (_ || _); [by left|]. apply elem_of_app in Hx as [Hx|Hx%list_elem_of_singleton]; [by left|].
  right. subst. by left.
Qed.

Lemma doomed_sub ps options x : x ∈ doomedProfiles IsValid ps options -> x ∈ map fst ps.
Proof.
  unfold doomedProfiles. intros H.
  assert (Hd : forall x, x ∈ (if remove_duplicates options
    then collect (fun p => negb (bool_decide (p.1 ∈ map fst (Uniq ps)))) [] ps else []) -> x ∈ map fst ps).
  { intros y. destruct (remove_duplicates options); [|by intros Hy%elem_of_nil].
    intros [Hy%elem_of_nil|Hy]%collect_sub; done. }
  assert (Hi : forall fl, (forall x, x ∈ fl -> x ∈ map fst ps) -> forall x,
    x ∈ (if remove_insecure options then collect (fun p => obinsecure (rout p.2)) fl ps else fl) -> x ∈ map fst ps).
  { intros fl Hfl y. destruct (remove_insecure options); [|by apply Hfl].
    intros [Hy|Hy]%collect_sub; [by apply Hfl|done]. }
  specialize (Hi _ Hd). destruct (remove_invalid options); [|by apply Hi].
  destruct (invalidProfiles _ _) as [invalid|]; [|by apply Hi].
  apply collect_sub in H as [H|H]; [by apply Hi|done].
Qed.

Definition noFlags (options : SubscriptionOptions) : Prop :=
  remove_duplicates options = false /\ remove_insecure options = false /\ remove_invalid options = false.

Lemma removeFlagged_spec gid ids options repo :
  faults repo = [] ->
  let '(o, repo') := removeFlagged settings IsValid ids options repo in
  exists doomed, DeleteSpec gid doomed repo o repo' /\ (forall id, id ∈ doomed -> id ∈ ids) /\
    (noFlags options -> doomed = []).
Proof.
  intros Hf. unfold removeFlagged. destruct (_ && _) eqn:E.
  { exists []. split_and!; [by apply nothingDeleted_spec|by intros id Hin%elem_of_nil|done]. }
  destruct (doomedProfiles _ _ _) as [|x doomed] eqn:Ed.
  { exists []. split_and!; [by apply nothingDeleted_spec|by intros id Hin%elem_of_nil|done]. }
  pose proof (deleteProfiles_spec gid (x :: doomed) repo Hf) as H.
  destruct (deleteProfiles settings (x :: doomed) repo) as [o repo']. exists (x :: doomed). split_and!; [done| |].
  - intros id Hin. rewrite <- Ed in Hin. apply doomed_sub in Hin. apply list_elem_of_fmap in Hin as (p & -> & Hp).
    by apply elem_batch in Hp as [].
  - intros (H1 & H2 & H3). by rewrite H1, H2, H3 in E.
Qed.

Lemma clearMembers_spec sticky gid options repo :
  faults repo = [] ->
  exists cleared o doomed repo', clearMembers settings sticky gid options repo = (Some (cleared, o), repo') /\
    DeleteSpec gid doomed repo o repo' /\ (forall id, id ∈ doomed -> id ∈ members sticky gid repo) /\
    (keep_working options = true -> forall id row, id ∈ doomed -> rows repo !! id = Some row -> rworking row = false) /\
    (cleared = true -> members sticky gid repo' = []).
Proof.
  intros Hf. unfold clearMembers. destruct (sub_clear settings); cbn [negb].
  - set (doomed := if keep_working options then _ else _).
    pose proof (deleteProfiles_spec gid doomed repo Hf) as Hd.
    destruct (deleteProfiles settings doomed repo) as [o repo']. rewrite (ds_ok _ _ _ _ _ Hd). cbn [negb].
    eexists _, o, doomed, repo'. split_and!; [done|done| | |by intros H%bool_decide_eq_true].
    + intros id. unfold doomed. destruct (keep_working options); [|done]. by intros [_ H]%list_elem_of_filter.
    + intros Hk id row Hin Hrow. unfold doomed in Hin. rewrite Hk in Hin. apply list_elem_of_filter in Hin as [Hno Hin].
      destruct (rworking row) eqn:E; [|done]. destruct Hno. apply list_elem_of_fmap. exists (id, row). split; [done|].
      apply list_elem_of_filter. split; [done|]. by apply elem_batch.
  - exists false, nothingDeleted, [], repo. split_and!; [done|by apply nothingDeleted_spec|by intros id Hin%elem_of_nil| |done].
    intros _ id row Hin. by apply elem_of_nil in Hin.
Qed.

(** ** The stages of a refresh *)

Definition oldOf (sticky : list (nat * Z)) (gid : Z) (repo : Repo) : list OldEntry :=
  map oldEntryOf (GetProfileBatch repo (members sticky gid repo)).

Definition entriesOf (sticky : list (nat * Z)) (gid : Z) (parsed : list Parsed) (repo : Repo) : list NewEntry :=
  (arrivalsOf (Some (newIndex (oldOf sticky gid repo))) (lastId repo + 1) parsed).1.

Definition planOf (sticky : list (nat * Z)) (gid : Z) (parsed : list Parsed) (repo : Repo) : ReconcilePlan :=
  Reconcile (oldOf sticky gid repo) (entriesOf sticky gid parsed repo)
    (arriveAll (newIndex (oldOf sticky gid repo)) (map (fun p => content (obkeys (pout p))) parsed)).2.

Definition freshParsed (sticky : list (nat * Z)) (gid : Z) (parsed : list Parsed) (repo : Repo) : list Parsed :=
  freshOf (Some (newIndex (oldOf sticky gid repo))) parsed.

Definition workingOf (sticky : list (nat * Z)) (gid : Z) (options : SubscriptionOptions) (repo : Repo) : list Z :=
  if keep_working options then workingIds (GetProfileBatch repo (members sticky gid repo)) else [].

(** What the middle of a refresh does, after clearing and before the flags. *)
Definition middle (cleared : bool) (gid : Z) (sticky : list (nat * Z)) (options : SubscriptionOptions)
    (parsed : list Parsed) (repo1 repo3 : Repo) : Prop :=
  exists g, groups repo1 !! gid = Some g /\
  if cleared then members sticky gid repo1 = [] /\ repo3 = withFresh gid g parsed repo1
  else exists d, PlanSpec gid (workingOf sticky gid options repo1) sticky (planOf sticky gid parsed repo1)
         (withFresh gid g (freshParsed sticky gid parsed repo1) repo1) d repo3.

Lemma oldOf_ids sticky gid repo : Consistent gid repo -> map oid (oldOf sticky gid repo) = members sticky gid repo.
Proof. intros Hc. unfold oldOf. rewrite map_map. cbn. by apply members_batch. Qed.

Lemma oldOf_range sticky gid repo :
  Consistent gid repo -> NoDup (map oid (oldOf sticky gid repo)) /\
  forall x, x ∈ map oid (oldOf sticky gid repo) -> 0 <= x < lastId repo + 1.
Proof.
  intros Hc. rewrite oldOf_ids by done. split; [apply NoDup_filter, (con_nodup _ _ Hc)|].
  intros x Hx%members_listed. apply (con_listed _ _ Hc) in Hx as (row & Hrow & _).
  apply (con_ids _ _ Hc) in Hrow. lia.
Qed.

Lemma planOf_coherent sticky gid parsed repo :
  Consistent gid repo ->
  Coherent (oldOf sticky gid repo) (entriesOf sticky gid parsed repo)
    (arriveAll (newIndex (oldOf sticky gid repo)) (map (fun p => content (obkeys (pout p))) parsed)).2.
Proof.
  intros Hc. destruct (oldOf_range sticky gid repo Hc) as [H1 H2]. apply arr_coherent; [done|done|].
  pose proof (con_last _ _ Hc). lia.
Qed.

Lemma planOf_perm sticky gid parsed repo g :
  Consistent gid repo -> groups repo !! gid = Some g ->
  listing gid repo ≡ₚ members sticky gid repo ++ map snd sticky ->
  order (planOf sticky gid parsed repo) ++ stale (planOf sticky gid parsed repo) ++ map snd sticky
    ≡ₚ listing gid (withFresh gid g (freshParsed sticky gid parsed repo) repo).
Proof.
  intros Hc Hg Hl. rewrite (listing_withFresh gid g _ _ Hg), Hl.
  destruct (plan_partition _ _ _ (planOf_coherent sticky gid parsed repo Hc)) as (Hp & _).
  fold (planOf sticky gid parsed repo) in Hp. rewrite (app_assoc (order _)), Hp, oldOf_ids by done.
  destruct (arrivalsOf_claims (newIndex (oldOf sticky gid repo)) (lastId repo + 1) parsed) as [Ha _].
  unfold entriesOf. rewrite (arr_fresh (lastId repo + 1) _ _ _ _ ltac:(pose proof (con_last _ _ Hc); lia) Ha).
  unfold freshParsed. rewrite <- !app_assoc. f_equiv. apply Permutation_app_comm.
Qed.

Record Stages (gid : Z) (options : SubscriptionOptions) (parsed : list Parsed) (repo : Repo)
    (cleared : bool) (o1 : DeleteOutcome) (repo1 repo3 : Repo) (o4 : DeleteOutcome) (repo4 repo5 : Repo) : Prop := {
  st_clear : exists doomed, DeleteSpec gid doomed repo o1 repo1 /\
    (forall id, id ∈ doomed -> id ∈ members (stickyOf gid repo) gid repo) /\
    (keep_working options = true -> forall id row, id ∈ doomed -> rows repo !! id = Some row -> rworking row = false);
  st_con1 : Consistent gid repo1;
  st_sticky1 : listing gid repo1 ≡ₚ members (stickyOf gid repo) gid repo1 ++ map snd (stickyOf gid repo);
  st_middle : middle cleared gid (stickyOf gid repo) options parsed repo1 repo3;
  st_con3 : Consistent gid repo3;
  st_flag : exists doomed, DeleteSpec gid doomed repo3 o4 repo4 /\
    (forall id, id ∈ doomed -> id ∈ members (stickyOf gid repo) gid repo3) /\ (noFlags options -> doomed = []);
  st_rows5 : rows repo5 = rows repo4 /\ lastId repo5 = lastId repo4 /\ faults repo5 = [];
  st_group5 : exists g4 g5, groups repo4 !! gid = Some g4 /\ groups repo5 !! gid = Some g5 /\
    profiles g5 ≡ₚ profiles g4 /\ sort g5 = sort g4 /\ (KeepsSorted g4 = false -> g5 = g4) }.

Lemma profiles_stages gid options parsed repo :
  Consistent gid repo -> faults repo = [] ->
  exists result cleared o1 repo1 repo3 o4 repo4 repo5,
    refreshProfiles settings IsValid GetProfile IsProfileDisabled bitrateToBps gid options parsed repo = (Some result, repo5) /\
    failure result = None_ /\
    Stages gid options parsed repo cleared o1 repo1 repo3 o4 repo4 repo5.
Proof.
  intros Hc Hf. unfold refreshProfiles. set (sticky := stickyOf gid repo).
  destruct (clearMembers_spec sticky gid options repo Hf) as (cleared & o1 & doomed1 & repo1 & -> & Hd1 & Hm1 & Hw1 & Hcl).
  destruct (delete_consistent _ _ _ _ _ Hd1 Hc) as [Hc1 Hl1].
  destruct (con_group _ _ Hc1) as [g1 Hg1]. pose proof (ds_faults _ _ _ _ _ Hd1) as Hf1.
  assert (Hst1 : listing gid repo1 ≡ₚ members sticky gid repo1 ++ map snd sticky).
  { apply members_split; [apply (con_nodup _ _ Hc)|apply (con_nodup _ _ Hc1)|].
    intros id Hid. rewrite Hl1. apply list_elem_of_filter. split; [|by apply list_elem_of_filter in Hid as []].
    intros Hdel. assert (id ∈ doomed1) as H by (apply (ds_split _ _ _ _ _ Hd1); by left).
    apply Hm1 in H. unfold members in H. apply list_elem_of_filter in H as [H _].
    apply H. unfold sticky. by rewrite stickyOf_ids. }
  set (current := if cleared then [] else _). set (old := map oldEntryOf current).
  destruct (import_eq settings gid parsed (if cleared then None else Some (newIndex old)) repo1 g1
    (consistent_below _ _ Hc1) Hg1) as (He & Hi & Hr).
  destruct (SubscriptionRefresh.import settings parsed _ repo1) as [sink repo2]. cbn [fst snd] in He, Hi, Hr. subst repo2.
  set (mid := if cleared then _ else _).
  assert (Hmid : exists x1 x2 x3 x4 x5 x6 repo3, mid = (x1, x2, x3, x4, x5, x6, false, repo3) /\
    middle cleared gid sticky options parsed repo1 repo3 /\ Consistent gid repo3 /\ faults repo3 = []).
  { unfold mid. destruct cleared.
    - destruct (arrivalsOf_none (lastId repo1 + 1) parsed) as [_ Hfr]. rewrite Hfr.
      eexists _, _, _, _, _, _, _. split; [reflexivity|]. split_and!; [|by apply withFresh_consistent|done].
      exists g1. split; [done|]. split; [by apply Hcl|done].
    - assert (Hold : old = oldOf sticky gid repo1) by done. rewrite Hold in *.
      destruct (arrivalsOf_claims (newIndex (oldOf sticky gid repo1)) (lastId repo1 + 1) parsed) as [_ Hix].
      rewrite Hi, Hix, He. cbn [default from_option id].
      fold (entriesOf sticky gid parsed repo1). fold (planOf sticky gid parsed repo1).
      fold (freshParsed sticky gid parsed repo1).
      set (repo2 := withFresh gid g1 (freshParsed sticky gid parsed repo1) repo1).
      pose proof (applyPlan_spec gid (workingOf sticky gid options repo1) sticky (planOf sticky gid parsed repo1) repo2
        (withFresh_consistent _ _ _ _ Hc1 Hg1) Hf1 (planOf_perm _ _ _ _ _ Hc1 Hg1 Hst1)) as Hps.
      destruct (applyPlan settings sticky gid _ _ repo2) as [d repo3].
      rewrite (pl_ok _ _ _ _ _ _ _ Hps).
      eexists _, _, _, _, _, _, _. split; [reflexivity|].
      split_and!; [|apply (pl_consistent _ _ _ _ _ _ _ Hps)|apply (pl_faults _ _ _ _ _ _ _ Hps)].
      exists g1. split; [done|]. by exists d. }
  destruct Hmid as (x1 & x2 & x3 & x4 & x5 & x6 & repo3 & -> & Hmid & Hc3 & Hf3).
  pose proof (removeFlagged_spec gid (members sticky gid repo3) options repo3 Hf3) as Hfl.
  destruct (removeFlagged settings IsValid (members sticky gid repo3) options repo3) as [o4 repo4].
  destruct Hfl as (doomed4 & Hd4 & Hm4 & Hn4). destruct (delete_consistent _ _ _ _ _ Hd4 Hc3) as [Hc4 _].
  destruct (con_group _ _ Hc4) as [g4 Hg4]. rewrite Hg4, (ds_ok _ _ _ _ _ Hd4). cbn [negb orb].
  eexists _, cleared, o1, repo1, repo3, o4, repo4, _. split; [reflexivity|]. split; [done|].
  split; [by exists doomed1|done|done|done|done|by exists doomed4|split_and!; [done|done|apply (ds_faults _ _ _ _ _ Hd4)]|].
  exists g4. eexists. split; [done|]. cbn [groups]. split; [apply lookup_insert_eq|].
  pose proof (Resort_alone GetProfile IsProfileDisabled bitrateToBps g4) as ->.
  destruct (KeepsSorted g4); cbn [snd]; [|done]. split_and!; [apply SortProfileIdList_perm|done|done].
Qed.

(** ** Consistency *)

Abbreviation doRefresh := (applyRefresh settings IsValid GetProfile IsProfileDisabled bitrateToBps).

(** A body with profiles goes through all stages and is stamped. *)
Lemma refresh_stages gid options subInfo now parsed sub repo :
  Consistent gid repo -> faults repo = [] -> parsed <> [] ->
  exists result cleared o1 repo1 repo3 o4 repo4 repo5,
    doRefresh gid options true subInfo now parsed sub repo = (result, MkSub subInfo [] now, repo5) /\
    failure result = None_ /\
    Stages gid options parsed repo cleared o1 repo1 repo3 o4 repo4 repo5.
Proof.
  intros Hc Hf Hp. destruct (profiles_stages gid options parsed repo Hc Hf)
    as (r & cleared & o1 & repo1 & repo3 & o4 & repo4 & repo5 & Hr & H).
  exists r, cleared, o1, repo1, repo3, o4, repo4, repo5. split; [|exact H].
  unfold applyRefresh. cbn [negb]. destruct parsed as [|p0 parsed0]; [done|]. by rewrite Hr.
Qed.

Lemma stages_con5 gid options parsed repo cleared o1 repo1 repo3 o4 repo4 repo5 :
  Stages gid options parsed repo cleared o1 repo1 repo3 o4 repo4 repo5 ->
  Consistent gid repo5 /\ listing gid repo5 ≡ₚ listing gid repo4 /\
  listing gid repo4 = filter (fun id => id ∉ odeleted o4) (listing gid repo3).
Proof.
  intros Hs. destruct (st_flag _ _ _ _ _ _ _ _ _ _ _ Hs) as (doomed & Hd & _ & _).
  destruct (delete_consistent _ _ _ _ _ Hd (st_con3 _ _ _ _ _ _ _ _ _ _ _ Hs)) as [Hc4 Hl4].
  destruct (st_rows5 _ _ _ _ _ _ _ _ _ _ _ Hs) as (Hr & Hla & Hf).
  destruct (st_group5 _ _ _ _ _ _ _ _ _ _ _ Hs) as (g4 & g5 & Hg4 & Hg5 & Hp & _).
  assert (Hl : listing gid repo5 ≡ₚ listing gid repo4) by (unfold listing; by rewrite Hg4, Hg5).
  split; [|by split]. split; rewrite ?Hr, ?Hla.
  - apply (con_gid _ _ Hc4).
  - by exists g5.
  - rewrite Hl. apply (con_nodup _ _ Hc4).
  - intros id. rewrite Hl. apply (con_listed _ _ Hc4).
  - apply (con_last _ _ Hc4).
  - apply (con_ids _ _ Hc4).
Qed.

(** C2: A refresh that meets no database failure keeps the group
    consistent: it lists exactly the rows it has, once each, so no profile is
    orphaned and no listed id is dangling.  A changed URL or a body without
    profiles leaves every row and the listing as they were and says so: the first
    also leaves the group's subscription data, the second stores the announced data
    if it is valid; only a refresh that went through is stamped with the time. *)
Theorem refresh_consistent gid options sameUrl subInfo now parsed sub repo :
  Consistent gid repo -> faults repo = [] ->
  let '(r, sub', repo') := doRefresh gid options sameUrl subInfo now parsed sub repo in
  Consistent gid repo' /\
  failure r = (if sameUrl then match parsed with [] => Empty | _ => None_ end else Fetch) /\
  (failure r <> None_ -> repo' = repo) /\
  sub' =
    match failure r with
    | None_ => MkSub subInfo [] now
    | Empty => if valid subInfo then MkSub subInfo [] (sub_last_update sub) else sub
    | _ => sub
    end.
Proof.
  intros Hc Hf. destruct sameUrl; [|by cbn]. destruct (decide (parsed = [])) as [->|Hne]; [by cbn|].
  destruct (refresh_stages gid options subInfo now parsed sub repo Hc Hf Hne)
    as (r & cleared & o1 & repo1 & repo3 & o4 & repo4 & repo5 & -> & Hr & Hs).
  destruct (stages_con5 _ _ _ _ _ _ _ _ _ _ _ Hs) as [Hc5 _]. rewrite Hr. split_and!; [done| |done|done].
  by destruct parsed.
Qed.

(** ** Survival *)

(** What a refresh must not delete. *)
Definition protected (options : SubscriptionOptions) (repo : Repo) (id : Z) (row : DbRow) : Prop :=
  rselector row = true \/
  id = startedId repo /\ allow_stopping_active_profile settings = false \/
  keep_working options = true /\ noFlags options /\ rworking row = true.

Lemma middle_survives gid options parsed repo cleared o1 repo1 repo3 o4 repo4 repo5 id :
  Stages gid options parsed repo cleared o1 repo1 repo3 o4 repo4 repo5 ->
  id ∈ listing gid repo1 ->
  id ∈ map snd (stickyOf gid repo) \/ id ∈ workingOf (stickyOf gid repo) gid options repo1 \/
    id = startedId repo1 /\ allow_stopping_active_profile settings = false ->
  id ∈ listing gid repo3.
Proof.
  intros Hs Hin Hkeep. pose proof (st_con1 _ _ _ _ _ _ _ _ _ _ _ Hs) as Hc1.
  destruct (st_middle _ _ _ _ _ _ _ _ _ _ _ Hs) as (g & Hg & Hm). destruct cleared.
  - destruct Hm as [_ ->]. rewrite listing_withFresh by done. apply elem_of_app. by left.
  - destruct Hm as [d Hps]. apply (con_listed _ _ (st_con3 _ _ _ _ _ _ _ _ _ _ _ Hs)).
    rewrite (pl_rows _ _ _ _ _ _ _ Hps). rewrite decide_False.
    + apply applyUpdates_dom. apply (con_listed _ _ (withFresh_consistent _ _ _ _ Hc1 Hg)).
      rewrite listing_withFresh by done. apply elem_of_app. by left.
    + intros Hdel. apply (pl_deleted _ _ _ _ _ _ _ Hps) in Hdel as (Hst & Hw & Hrun).
      destruct Hkeep as [Hk|[Hk|[-> Hk]]]; [|done|].
      * pose proof (planOf_perm _ _ parsed _ g Hc1 Hg (st_sticky1 _ _ _ _ _ _ _ _ _ _ _ Hs)) as Hp.
        pose proof (con_nodup _ _ (withFresh_consistent gid g (freshParsed (stickyOf gid repo) gid parsed repo1) _ Hc1 Hg)) as Hnd.
        rewrite <- Hp in Hnd. apply NoDup_app in Hnd as (_ & _ & Hnd). apply NoDup_app in Hnd as (_ & Hdis & _).
        by apply (Hdis id).
      * unfold withFresh in Hrun. cbn [startedId] in Hrun. by specialize (Hrun eq_refl); congruence.
Qed.

Lemma middle_started gid options parsed repo cleared o1 repo1 repo3 o4 repo4 repo5 :
  Stages gid options parsed repo cleared o1 repo1 repo3 o4 repo4 repo5 ->
  allow_stopping_active_profile settings = false -> startedId repo3 = startedId repo1.
Proof.
  intros Hs Ha. destruct (st_middle _ _ _ _ _ _ _ _ _ _ _ Hs) as (g & Hg & Hm). destruct cleared.
  - by destruct Hm as [_ ->].
  - destruct Hm as [d Hps]. by rewrite (pl_started _ _ _ _ _ _ _ Hps Ha).
Qed.

(** C16: A refresh never deletes an auto selector of the group, nor the
    running profile unless it may be stopped, nor, with keep-working and no
    removal option, a profile that works: they stay rows of the group and
    listed. *)
Theorem refresh_protects gid options sameUrl subInfo now parsed sub repo id row :
  Consistent gid repo -> faults repo = [] ->
  rows repo !! id = Some row -> rgid row = gid -> protected options repo id row ->
  let '(_, _, repo') := doRefresh gid options sameUrl subInfo now parsed sub repo in
  id ∈ listing gid repo' /\ is_Some (rows repo' !! id).
Proof.
  intros Hc Hf Hrow Hgid Hprot.
  assert (Hin : id ∈ listing gid repo) by (apply (con_listed _ _ Hc); by exists row).
  destruct sameUrl; [|by cbn]. destruct (decide (parsed = [])) as [->|Hne]; [by cbn|].
  destruct (refresh_stages gid options subInfo now parsed sub repo Hc Hf Hne)
    as (r & cleared & o1 & repo1 & repo3 & o4 & repo4 & repo5 & -> & _ & Hs).
  destruct (stages_con5 _ _ _ _ _ _ _ _ _ _ _ Hs) as (Hc5 & Hl5 & Hl4).
  enough (id ∈ listing gid repo5) as H5.
  { split; [done|]. apply (con_listed _ _ Hc5) in H5 as (row' & H & _). by exists row'. }
  rewrite Hl5, Hl4. apply list_elem_of_filter.
  destruct (st_clear _ _ _ _ _ _ _ _ _ _ _ Hs) as (doomed1 & Hd1 & Hm1 & Hw1).
  destruct (delete_consistent _ _ _ _ _ Hd1 Hc) as [Hc1 Hl1].
  destruct (st_flag _ _ _ _ _ _ _ _ _ _ _ Hs) as (doomed4 & Hd4 & Hm4 & Hn4).
  assert (Hsticky : rselector row = true -> id ∈ map snd (stickyOf gid repo)).
  { intros Hsel. rewrite stickyOf_ids. apply list_elem_of_filter. split; [|done]. unfold isSelector. by rewrite Hrow. }
  assert (Hnot1 : id ∉ odeleted o1).
  { intros Hdel. assert (id ∈ doomed1) as Hdm by (apply (ds_split _ _ _ _ _ Hd1); by left).
    destruct Hprot as [Hsel|[[-> Ha]|(Hk & _ & Hwk)]].
    - apply Hm1, list_elem_of_filter in Hdm as [Hno _]. by apply Hno, Hsticky.
    - apply (ds_running _ _ _ _ _ Hd1) in Hdel; [congruence|done].
    - apply (Hw1 Hk id row) in Hdm; [congruence|done]. }
  assert (Hin1 : id ∈ listing gid repo1) by (rewrite Hl1; by apply list_elem_of_filter).
  assert (Hrow1 : rows repo1 !! id = Some row) by (rewrite (ds_rows _ _ _ _ _ Hd1); by rewrite decide_False).
  assert (Hin3 : id ∈ listing gid repo3).
  { eapply middle_survives; [exact Hs|done|]. destruct Hprot as [Hsel|[[-> Ha]|(Hk & _ & Hwk)]]; [left; by apply Hsticky| |].
    - right. right. split; [|done]. symmetry. by apply (ds_started _ _ _ _ _ Hd1).
    - destruct (decide (id ∈ map snd (stickyOf gid repo))) as [|Hno]; [by left|right; left].
      unfold workingOf. rewrite Hk. apply list_elem_of_fmap. exists (id, row). split; [done|].
      apply list_elem_of_filter. split; [done|]. apply elem_batch. split; [|done]. by apply list_elem_of_filter. }
  split; [|done]. intros Hdel. assert (id ∈ doomed4) as Hdm by (apply (ds_split _ _ _ _ _ Hd4); by left).
  destruct Hprot as [Hsel|[[-> Ha]|(Hk & Hn & Hwk)]].
  - apply Hm4, list_elem_of_filter in Hdm as [Hno _]. by apply Hno, Hsticky.
  - apply (ds_running _ _ _ _ _ Hd4) in Hdel; [congruence|].
    rewrite <- (ds_started _ _ _ _ _ Hd1 Ha). symmetry. eapply middle_started; [exact Hs|done].
  - rewrite (Hn4 Hn) in Hdm. by apply elem_of_nil in Hdm.
Qed.

(** ** Contents *)

Definition contentAt (repo : Repo) (id : Z) : option (list Z) := (fun row => content (obkeys (rout row))) <$> rows repo !! id.

Lemma oldOf_content sticky gid repo e :
  e ∈ oldOf sticky gid repo -> contentAt repo (oid e) = Some (content (okeys e)).
Proof.
  intros ([id row] & -> & Hp)%list_elem_of_fmap. apply elem_batch in Hp as [_ Hrow]. cbn in *.
  unfold contentAt. by rewrite Hrow.
Qed.

(** The order of the plan holds, slot by slot, the contents of the subscription. *)
Lemma plan_contents sticky gid parsed repo g :
  Consistent gid repo -> groups repo !! gid = Some g ->
  let m := fold_left applyUpdate (updates (planOf sticky gid parsed repo))
             (rows (withFresh gid g (freshParsed sticky gid parsed repo) repo)) in
  map (fun id => (fun row => content (obkeys (rout row))) <$> m !! id) (order (planOf sticky gid parsed repo)) =
  map (fun p => Some (content (obkeys (pout p)))) parsed.
Proof.
  intros Hc Hg m. set (old := oldOf sticky gid repo). set (es := entriesOf sticky gid parsed repo).
  set (cs := map (fun p => content (obkeys (pout p))) parsed).
  pose proof (planOf_coherent sticky gid parsed repo Hc) as Hcoh.
  destruct (plan_partition _ _ _ Hcoh) as (_ & _ & Hlen & Hslots).
  destruct (plan_updates _ _ _ Hcoh) as (Hnd1 & Hnd2 & Hus1 & Hus2).
  fold (planOf sticky gid parsed repo) in *. fold old es cs in Hcoh, Hlen, Hslots, Hus1, Hus2.
  destruct (oldOf_range sticky gid repo Hc) as [Hnd Hrange]. fold old in Hnd, Hrange.
  destruct (arrivalsOf_claims (newIndex old) (lastId repo + 1) parsed) as [Ha _].
  fold cs in Ha. change (arrivalsOf (Some (newIndex old)) (lastId repo + 1) parsed).1 with es in Ha.
  assert (Hst : filter (fun e => stored e = true) es = es).
  { apply (entries_stored old (lastId repo + 1) parsed Hrange). pose proof (con_last _ _ Hc). lia. }
  rewrite Hst in Hlen, Hslots.
  assert (Hfresh : forall n, n ∈ freshIds es -> lastId repo < n).
  { intros n. rewrite (arr_fresh (lastId repo + 1) _ _ _ _ ltac:(pose proof (con_last _ _ Hc); lia) Ha). intros Hn%elem_of_seqZ. lia. }
  assert (Hdis : forall n, n ∈ map snd (updates (planOf sticky gid parsed repo)) -> n ∉ map fst (updates (planOf sticky gid parsed repo))).
  { intros n Hn%Hus2%Hfresh Hf%Hus1. destruct Hf as [Hf _]. apply Hrange in Hf. lia. }
  apply list_eq. intros i. rewrite !list_lookup_fmap.
  destruct (parsed !! i) as [p|] eqn:Ep.
  2:{ rewrite (lookup_ge_None_2 (order _)); [done|]. rewrite Hlen. destruct (arr_length _ _ _ _ _ Ha) as [-> _].
      by apply lookup_ge_None_1. }
  destruct (arr_at _ _ _ _ _ gid (rows repo) i p Ha Ep) as (e & o & He & Ho & Hcase).
  destruct (Hslots i e He) as (x & Hx & Hslot). rewrite Hx. cbn. f_equal.
  destruct (applyUpdates_at (updates (planOf sticky gid parsed repo))
    (rows (withFresh gid g (freshParsed sticky gid parsed repo) repo)) Hnd1 Hdis x) as [Hsame Hmoved].
  fold m in Hsame, Hmoved. unfold withFresh in Hsame, Hmoved. cbn [rows] in Hsame, Hmoved.
  assert (Hin : e ∈ es) by (by eapply list_elem_of_lookup_2).
  destruct o as [id|].
  - destruct Hcase as [Hr <-]. destruct Hslot as [[-> _]|[Hr' _]]; [|congruence].
    assert (Hcl : nid e ∈ claimedIds (arriveAll (newIndex old) cs).2).
    { apply (coh_claimed _ _ _ Hcoh). apply list_elem_of_fmap_2, list_elem_of_filter. done. }
    rewrite Hsame by (intros Hf%Hus1; by destruct Hf as [_ []]).
    apply (claims_content old cs i (content (obkeys (pout p)))) in Ho as (e' & He' & Hid & Hcont);
      [|unfold cs; by rewrite list_lookup_fmap, Ep].
    rewrite insertRows_below.
    + rewrite <- Hid. pose proof (oldOf_content sticky gid repo e' He') as H. unfold contentAt in H. by rewrite H, Hcont.
    + assert (nid e ∈ map oid old) as H by by apply (coh_claimed_old _ _ _ Hcoh). apply Hrange in H. lia.
  - destruct Hcase as [Hr Hrow]. destruct Hslot as [[-> [Hr'|Hno]]|[_ Hup]]; [congruence| |].
    + rewrite Hsame.
      * change (freshParsed sticky gid parsed repo) with (freshOf (Some (newIndex old)) parsed). by rewrite Hrow.
      * intros Hf%Hus1. destruct Hf as [Hf _]. apply Hrange in Hf.
        assert (nid e ∈ freshIds es) as Hfr%Hfresh; [|lia]. apply list_elem_of_fmap_2, list_elem_of_filter. split; [|done].
        unfold fresh. rewrite Hr, andb_true_r. rewrite <- Hst in Hin. by apply list_elem_of_filter in Hin as [].
    + assert (Hx1 : x ∈ map oid old) by (apply Hus1; by apply (list_elem_of_fmap_2 fst _ (x, nid e))).
      apply list_elem_of_fmap in Hx1 as (e' & -> & He').
      assert (is_Some (rows repo !! oid e')) as [row Hrow'].
      { pose proof (oldOf_content sticky gid repo e' He') as H. unfold contentAt in H.
        destruct (rows repo !! oid e'); [by eexists|done]. }
      rewrite (Hmoved (nid e) row (MkDbRow (pout p) gid (pselector p) false)); [done|done| |].
      * rewrite insertRows_below; [done|]. assert (oid e' ∈ map oid old) as H by by apply (list_elem_of_fmap_2 oid).
        apply Hrange in H. lia.
      * exact Hrow.
Qed.

Lemma sticky_range gid repo id :
  Consistent gid repo -> id ∈ map snd (stickyOf gid repo) -> id <= lastId repo.
Proof.
  intros Hc. rewrite stickyOf_ids. intros [_ H]%list_elem_of_filter. apply (con_listed _ _ Hc) in H as (row & H & _).
  apply (con_ids _ _ Hc) in H. lia.
Qed.

Lemma cleared_contents sticky gid parsed repo g :
  groups repo !! gid = Some g -> members sticky gid repo = [] ->
  (forall id, id ∈ map snd sticky -> id <= lastId repo) ->
  let repo' := withFresh gid g parsed repo in
  map (contentAt repo') (members sticky gid repo') = map (fun p => Some (content (obkeys (pout p)))) parsed.
Proof.
  intros Hg Hm Hs repo'. unfold members in *. unfold repo'. rewrite listing_withFresh by done.
  rewrite filter_app, Hm, filter_all by (intros x Hx%elem_of_seqZ Hin%Hs; lia). cbn [app].
  apply list_eq. intros i. rewrite !list_lookup_fmap. destruct (parsed !! i) as [p|] eqn:Ep.
  - rewrite lookup_seqZ_lt by (apply lookup_lt_Some in Ep; lia). cbn. f_equal.
    unfold contentAt, withFresh. cbn [rows]. by rewrite (insertRows_at _ _ _ _ i p Ep).
  - rewrite lookup_seqZ_ge by (apply lookup_ge_None_1 in Ep; lia). done.
Qed.

Lemma middle_contents gid options parsed repo cleared o1 repo1 repo3 o4 repo4 repo5 :
  Stages gid options parsed repo cleared o1 repo1 repo3 o4 repo4 repo5 -> Consistent gid repo ->
  keep_working options = false ->
  allow_stopping_active_profile settings = true \/ (startedId repo ∉ listing gid repo) /\ startedId repo <= lastId repo ->
  map (contentAt repo3) (members (stickyOf gid repo) gid repo3) = map (fun p => Some (content (obkeys (pout p)))) parsed.
Proof.
  intros Hs Hc Hk Hrun. set (sticky := stickyOf gid repo).
  pose proof (st_con1 _ _ _ _ _ _ _ _ _ _ _ Hs) as Hc1.
  destruct (st_clear _ _ _ _ _ _ _ _ _ _ _ Hs) as (doomed1 & Hd1 & _).
  destruct (delete_consistent _ _ _ _ _ Hd1 Hc) as [_ Hl1].
  destruct (st_middle _ _ _ _ _ _ _ _ _ _ _ Hs) as (g & Hg & Hm). fold sticky in Hm. destruct cleared.
  - destruct Hm as [Hm ->]. apply cleared_contents; [done|done|]. intros id Hid.
    rewrite (ds_last _ _ _ _ _ Hd1). by apply (sticky_range gid).
  - destruct Hm as [d Hps]. set (p := planOf sticky gid parsed repo1) in *.
    pose proof (planOf_perm sticky gid parsed repo1 g Hc1 Hg (st_sticky1 _ _ _ _ _ _ _ _ _ _ _ Hs)) as Hp. fold p in Hp.
    pose proof (con_nodup _ _ (withFresh_consistent gid g (freshParsed sticky gid parsed repo1) _ Hc1 Hg)) as Hnd.
    rewrite <- Hp in Hnd. apply NoDup_app in Hnd as (_ & Hdis & _).
    assert (Hall : forall id, id ∈ stale p -> id ∈ odeleted (ddeleted d)).
    { intros id Hst. apply (pl_all _ _ _ _ _ _ _ Hps); [done|unfold workingOf; rewrite Hk; apply not_elem_of_nil|].
      unfold withFresh. cbn [startedId]. intros ->. destruct Hrun as [Ha|[Hno Hle]]; [done|].
      destruct (allow_stopping_active_profile settings) eqn:Ha; [done|]. exfalso.
      assert (startedId repo1 ∈ listing gid (withFresh gid g (freshParsed sticky gid parsed repo1) repo1)) as Hin
        by (rewrite <- Hp, !elem_of_app; by auto).
      rewrite listing_withFresh, elem_of_app, elem_of_seqZ, (ds_started _ _ _ _ _ Hd1 Ha), (ds_last _ _ _ _ _ Hd1) in Hin by done.
      destruct Hin as [Hin|?]; [|lia]. rewrite Hl1 in Hin. by apply list_elem_of_filter in Hin as []. }
    assert (Hkept : dkept d = []).
    { destruct (dkept d) as [|x l] eqn:E; [done|]. assert (x ∈ dkept d) as Hx by (rewrite E; by left).
      apply (pl_kept _ _ _ _ _ _ _ Hps) in Hx as [Hx Hno]. by destruct Hno; apply Hall. }
    unfold members. rewrite (pl_listing _ _ _ _ _ _ _ Hps Hkept), insertSticky_filter, filter_all.
    2:{ intros id Hid Hst. apply (Hdis id Hid), elem_of_app. by right. }
    rewrite <- (plan_contents sticky gid parsed repo1 g Hc1 Hg). fold p. apply map_ext_in.
    intros id Hid%list_elem_of_In. unfold contentAt. rewrite (pl_rows _ _ _ _ _ _ _ Hps), decide_False; [done|].
    intros Hdel. apply (pl_deleted _ _ _ _ _ _ _ Hps) in Hdel as (Hst & _). apply (Hdis id Hid), elem_of_app. by left.
Qed.

(** C12: With no profile to keep (none running or stoppable, keep-working
    off) and no removal option, the group holds after a refresh exactly the
    contents of the subscription, duplicates included, its auto selectors aside:
    in the subscription's order when the group keeps no sort, in some order
    otherwise. *)
Theorem refresh_contents gid options subInfo now parsed sub repo :
  Consistent gid repo -> faults repo = [] -> parsed <> [] ->
  noFlags options -> keep_working options = false ->
  allow_stopping_active_profile settings = true \/ (startedId repo ∉ listing gid repo) /\ startedId repo <= lastId repo ->
  let '(_, _, repo') := doRefresh gid options true subInfo now parsed sub repo in
  let contents := map (contentAt repo') (members (stickyOf gid repo) gid repo') in
  contents ≡ₚ map (fun p => Some (content (obkeys (pout p)))) parsed /\
  ((forall g', groups repo' !! gid = Some g' -> KeepsSorted g' = false) ->
     contents = map (fun p => Some (content (obkeys (pout p)))) parsed).
Proof.
  intros Hc Hf Hne Hn Hk Hrun.
  destruct (refresh_stages gid options subInfo now parsed sub repo Hc Hf Hne)
    as (r & cleared & o1 & repo1 & repo3 & o4 & repo4 & repo5 & -> & _ & Hs).
  cbv zeta. rewrite <- (middle_contents _ _ _ _ _ _ _ _ _ _ _ Hs Hc Hk Hrun).
  destruct (stages_con5 _ _ _ _ _ _ _ _ _ _ _ Hs) as (_ & _ & Hl4).
  destruct (st_flag _ _ _ _ _ _ _ _ _ _ _ Hs) as (doomed4 & Hd4 & _ & Hn4). rewrite (Hn4 Hn) in Hd4.
  assert (Hno : forall id, id ∉ odeleted o4).
  { intros id Hid. assert (id ∈ @nil Z) as H by (apply (ds_split _ _ _ _ _ Hd4); by left). by apply elem_of_nil in H. }
  rewrite filter_all in Hl4 by (intros; apply Hno).
  destruct (st_rows5 _ _ _ _ _ _ _ _ _ _ _ Hs) as (Hr & _).
  assert (Hcont : forall ids, map (contentAt repo5) ids = map (contentAt repo3) ids).
  { intros ids. apply map_ext. intros id. unfold contentAt. rewrite Hr, (ds_rows _ _ _ _ _ Hd4).
    by rewrite decide_False by apply Hno. }
  destruct (st_group5 _ _ _ _ _ _ _ _ _ _ _ Hs) as (g4 & g5 & Hg4 & Hg5 & Hp & Hso & Heq).
  assert (Hm : forall l l', l ≡ₚ l' -> filter (fun id => id ∉ map snd (stickyOf gid repo)) l ≡ₚ
    filter (fun id => id ∉ map snd (stickyOf gid repo)) l') by (intros l l' ->; done).
  unfold members. rewrite Hcont, <- Hl4. split.
  - apply Permutation_map, Hm. unfold listing. by rewrite Hg4, Hg5.
  - intros Hsort. specialize (Hsort g5 Hg5). unfold listing. rewrite Hg4, Hg5, Heq; [done|].
    unfold KeepsSorted, SortReads in *. by rewrite <- Hso.
Qed.
End Stages.
End Props.

(** ** Witnesses *)

Lemma repo0_consistent : Consistent 1 repo0.
Proof.
  split.
  - lia.
  - by eexists.
  - apply (bool_decide_unpack _). vm_compute. exact I.
  - intros id. change (listing 1 repo0) with [3; 4; 5; 6].
    assert (Hrow : forall k row, rows repo0 !! k = Some row -> k ∈ [3; 4; 5; 6] /\ rgid row = 1).
    { intros k row H. apply elem_of_list_to_map_2 in H. apply list_elem_of_fmap in H as (e & E & He).
      injection E as -> ->. cbn. split; [|done]. by apply (list_elem_of_fmap_2 oid) in He. }
    split; [|intros (row & H & _); by apply Hrow in H as []].
    assert (Hall : Forall (fun k => is_Some (rows repo0 !! k)) [3; 4; 5; 6]) by (repeat constructor; vm_compute; by eexists).
    intros Hin. rewrite Forall_forall in Hall. destruct (Hall id Hin) as [row H]. exists row. split; [done|].
    by apply Hrow in H as [].
  - done.
  - intros id row H. apply elem_of_list_to_map_2 in H. apply list_elem_of_fmap in H as (e & E & He).
    injection E as -> _. cbn [lastId repo0]. unfold old0 in He.
    repeat (apply elem_of_cons in He as [->|He]; [cbn; lia|]). by apply elem_of_nil in He.
Qed.

Definition optionsWith (keep : bool) : SubscriptionOptions :=
  Options [] None None keepDefault [] [] [] [] 0 None keep false false false false false false.

Definition usage0 : SubUserInfo := UserInfo true true 10 20 100 0 [] [] [] [] 0.

Definition sub0 : SubState := MkSub noUserInfo (u "old") 5.

Definition refresh0 (keep : bool) : Result * SubState * Repo :=
  applyRefresh settings0 (fun _ => Some true) (fun _ => None) (fun _ => false) (fun _ => 0%Q) 1 (optionsWith keep) true
    usage0 70 parsed0 sub0 repo0.

Lemma refresh_consistent_witness :
  listing 1 (refresh0 false).2 = [3; 5; 8] /\ Consistent 1 (refresh0 false).2 /\
  (refresh0 false).1.2 = MkSub usage0 [] 70.
Proof.
  split; [vm_compute; reflexivity|]. split; [|vm_compute; reflexivity].
  pose proof (refresh_consistent settings0 (fun _ => Some true) (fun _ => None) (fun _ => false) (fun _ => 0%Q) 1
    (optionsWith false) true usage0 70 parsed0 sub0 repo0 repo0_consistent eq_refl) as H.
  revert H. unfold refresh0. destruct (applyRefresh _ _ _ _ _ _ _ _ _ _ _ _ _) as [[r sub'] repo']. intros H. exact (proj1 H).
Defined.

Lemma refresh_protects_witness :
  listing 1 (refresh0 true).2 = [3; 5; 8; 6] /\ 6 ∈ listing 1 (refresh0 true).2.
Proof.
  split; [vm_compute; reflexivity|].
  pose proof (refresh_protects settings0 (fun _ => Some true) (fun _ => None) (fun _ => false) (fun _ => 0%Q) 1
    (optionsWith true) true usage0 70 parsed0 sub0 repo0 6 _ repo0_consistent eq_refl eq_refl eq_refl) as H.
  revert H. unfold refresh0. destruct (applyRefresh _ _ _ _ _ _ _ _ _ _ _ _ _) as [[r sub'] repo']. intros H. apply H.
  right. right. split; [reflexivity|]. split; [|reflexivity]. split; [reflexivity|]. split; reflexivity.
Defined.

Lemma refresh_contents_witness :
  map (contentAt (refresh0 false).2) (members (stickyOf 1 repo0) 1 (refresh0 false).2) = [Some (u "a"); Some (u "b2"); Some (u "d")].
Proof.
  pose proof (refresh_contents settings0 (fun _ => Some true) (fun _ => None) (fun _ => false) (fun _ => 0%Q) 1
    (optionsWith false) usage0 70 parsed0 sub0 repo0 repo0_consistent eq_refl ltac:(discriminate)) as H.
  assert (Hs : forall g, groups (refresh0 false).2 !! 1 = Some g -> KeepsSorted g = false).
  { intros g Hg. vm_compute in Hg. injection Hg as <-. reflexivity. }
  revert H Hs. unfold refresh0. destruct (applyRefresh _ _ _ _ _ _ _ _ _ _ _ _ _) as [[r sub'] repo']. intros H Hs.
  apply H; [split; [reflexivity|split; reflexivity]|reflexivity| |exact Hs].
  right. split; [|cbn; lia]. apply (bool_decide_unpack _). vm_compute. exact I.
Defined.

(** When the delete of the stale rows fails, they are already off the listing
    (and counted as removed): the rows of [old0] that are not in the new plan stay
    in the database with nothing listing them. *)
Lemma failed_delete_orphans :
  let '(r, _, repo') := applyRefresh settings0 (fun _ => Some true) (fun _ => None) (fun _ => false) (fun _ => 0%Q) 1
    (optionsWith false) true usage0 70 parsed0 sub0 (MkRepo (lastId repo0) (rows repo0) (groups repo0) (startedId repo0) [true]) in
  failure r = Database /\ rremoved r = 2 /\ listing 1 repo' = [3; 5; 8] /\ is_Some (rows repo' !! 4) /\ is_Some (rows repo' !! 6).
Proof. vm_compute. split_and!; [done|done|done|by eexists|by eexists]. Qed.
