(* ===== verification/UpdaterQueue.v ===== *)
(** * UpdaterQueue: the jobs of the subscription updater

    src/configs/sub/GroupUpdater.cpp ([RefreshGroup], [RefreshWithOutcome],
    [RefreshAll], [enqueue], [drain], [IsBusy], [IsIdle], the automatic updates) and
    the fields of include/configs/sub/GroupUpdater.hpp.  Callers on any thread and
    the worker interleave; everything done under the mutex is one step.  A job's
    body is its result: the outcome it ends with, [Internal] when it throws.  The
    callbacks and waiters are numbered, and the ghost fields [asked], [finished],
    [expected] and [answered] log who was promised a call and who got it. *)

From S2P Require Import Prelude.

(** An outcome is opaque here, apart from the two the queue itself makes. *)
Inductive Outcome := Internal | NoGroup | Ended (result : Z).

Record Job := MkJob { jgid : Z; jbatch : bool; jfinish : option Z }.

(** Where the worker is. *)
Inductive Phase :=
  | NoWorker
  | Taking
  | Running (job : Job)
  | Finishing (job : Job) (outcome : Outcome)
  | Releasing (job : Job) (outcome : Outcome)
  | Delivering (waiting : list Z) (outcome : Outcome).

Record Updater := MkUpdater {
  queue : list Job;
  pending : gset Z;
  waiters : gmap Z (list Z);
  pendingBatch : Z;
  running : bool;
  phase : Phase;
  asked : list Z;
  finished : list Z;
  expected : list Z;
  answered : list (Z * Outcome) }.

Definition idleUpdater : Updater := MkUpdater [] ∅ ∅ 0 false NoWorker [] [] [] [].

Definition eta (u : Updater) : Updater :=
  MkUpdater (queue u) (pending u) (waiters u) (pendingBatch u) (running u) (phase u) (asked u) (finished u) (expected u) (answered u).

#[export] Instance set_queue : Setter queue := ltac:(setter eta).
#[export] Instance set_pending : Setter pending := ltac:(setter eta).
#[export] Instance set_waiters : Setter waiters := ltac:(setter eta).
#[export] Instance set_pendingBatch : Setter pendingBatch := ltac:(setter eta).
#[export] Instance set_running : Setter running := ltac:(setter eta).
#[export] Instance set_phase : Setter phase := ltac:(setter eta).
#[export] Instance set_asked : Setter asked := ltac:(setter eta).
#[export] Instance set_finished : Setter finished := ltac:(setter eta).
#[export] Instance set_expected : Setter expected := ltac:(setter eta).
#[export] Instance set_answered : Setter answered := ltac:(setter eta).

(** [if (finish != nullptr) finish()] *)
Definition callFinish (finish : option Z) (u : Updater) : Updater :=
  u <| finished := finished u ++ option_list finish |>.

Definition askFinish (finish : option Z) (u : Updater) : Updater :=
  u <| asked := asked u ++ option_list finish |>.

Definition enqueueLocked (job : Job) (u : Updater) : Updater :=
  let u := u <| queue := queue u ++ [job] |> in
  if running u then u else (u <| running := true |>) <| phase := Taking |>.

(** Imports, new subscriptions and clones. *)
Definition enqueue (finish : option Z) (u : Updater) : Updater :=
  enqueueLocked (MkJob (-1) false finish) (askFinish finish u).

Definition refreshJob (gid : Z) (batch : bool) (finish : option Z) : Job := MkJob gid batch finish.

Definition RefreshGroup (gid : Z) (finish : option Z) (u : Updater) : Updater :=
  let u := askFinish finish u in
  if bool_decide (gid ∈ pending u) then callFinish finish u
  else enqueueLocked (refreshJob gid false finish) (u <| pending := {[gid]} ∪ pending u |>).

Definition RefreshWithOutcome (gid : Z) (done_ : option Z) (u : Updater) : Updater :=
  let u := u <| expected := expected u ++ option_list done_ |> in
  if gid <? 0 then u <| answered := answered u ++ ((fun w => (w, NoGroup)) <$> option_list done_) |>
  else
    let u :=
      match done_ with
      | Some w => u <| waiters := <[gid := default [] (waiters u !! gid) ++ [w]]> (waiters u) |>
      | None => u
      end in
    if bool_decide (gid ∈ pending u) then u
    else enqueueLocked (refreshJob gid false None) (u <| pending := {[gid]} ∪ pending u |>).

Definition IsBusy (gid : Z) (u : Updater) : bool := bool_decide (gid ∈ pending u).

Definition IsIdle (u : Updater) : bool := negb (running u) && bool_decide (length (queue u) = 0%nat).

(** One group of [RefreshAll]. *)
Definition refreshAllStep (u : Updater) (gid : Z) : Updater :=
  if bool_decide (gid ∈ pending u) then u
  else
    enqueueLocked (refreshJob gid true None)
      ((u <| pending := {[gid]} ∪ pending u |>) <| pendingBatch := pendingBatch u + 1 |>).

(** [gids]: the groups the tabs list that exist, have a URL and are not archived or
    skipped. *)
Definition RefreshAll (gids : list Z) (u : Updater) : Updater :=
  if 0 <? pendingBatch u then u else fold_left refreshAllStep gids u.

(** ** [drain] *)

Definition takeJob (u : Updater) : Updater :=
  match queue u with
  | [] => (u <| running := false |>) <| phase := NoWorker |>
  | job :: rest => (u <| queue := rest |>) <| phase := Running job |>
  end.

(** The part under the lock after a job: its pending mark and its waiters. *)
Definition releaseJob (job : Job) (outcome : Outcome) (u : Updater) : Updater :=
  let '(waiting, u) :=
    if 0 <=? jgid job then
      (default [] (waiters u !! jgid job),
       (u <| pending := pending u ∖ {[jgid job]} |>) <| waiters := delete (jgid job) (waiters u) |>)
    else ([], u) in
  let u := if jbatch job then u <| pendingBatch := pendingBatch u - 1 |> else u in
  u <| phase := Delivering waiting outcome |>.

(** One step of the worker; [result] is how a running job's body ends. *)
Definition workerStep (result : Outcome) (u : Updater) : Updater :=
  match phase u with
  | NoWorker => u
  | Taking => takeJob u
  | Running job => u <| phase := Finishing job result |>
  | Finishing job outcome => (callFinish (jfinish job) u) <| phase := Releasing job outcome |>
  | Releasing job outcome => releaseJob job outcome u
  | Delivering [] outcome => u <| phase := Taking |>
  | Delivering (w :: waiting) outcome =>
      (u <| answered := answered u ++ [(w, outcome)] |>) <| phase := Delivering waiting outcome |>
  end.

Inductive step : Updater -> Updater -> Prop :=
  | step_enqueue finish u : step u (enqueue finish u)
  | step_refresh gid finish u : step u (RefreshGroup gid finish u)
  | step_outcome gid done_ u : step u (RefreshWithOutcome gid done_ u)
  | step_all gids u : step u (RefreshAll gids u)
  | step_worker result u : step u (workerStep result u).

Definition reachable (u : Updater) : Prop := rtc step idleUpdater u.

(** ** The invariant *)

Definition currentJobs (p : Phase) : list Job :=
  match p with Running j | Finishing j _ | Releasing j _ => [j] | _ => [] end.

(** The job whose finish has not been called yet. *)
Definition unfinishedJobs (p : Phase) : list Job :=
  match p with Running j | Finishing j _ => [j] | _ => [] end.

Definition delivering (p : Phase) : list Z := match p with Delivering ws _ => ws | _ => [] end.

Definition outstanding (u : Updater) : list Job := currentJobs (phase u) ++ queue u.

Definition waitingAll (m : gmap Z (list Z)) : list Z := map_to_list m ≫= snd.

Definition refreshGids (jobs : list Job) : list Z := filter (fun gid => 0 <= gid) (map jgid jobs).

Definition batchCount (jobs : list Job) : Z := Z.of_nat (length (filter (fun j => jbatch j = true) jobs)).

Definition finishesOf (jobs : list Job) : list Z := jobs ≫= (fun j => option_list (jfinish j)).

Record Inv (u : Updater) : Prop := {
  inv_running : running u = true <-> phase u <> NoWorker;
  inv_idle : phase u = NoWorker -> queue u = [];
  inv_pending : forall gid, 0 <= gid -> gid ∈ pending u <-> gid ∈ refreshGids (outstanding u);
  inv_once : NoDup (refreshGids (outstanding u));
  inv_batch : pendingBatch u = batchCount (outstanding u);
  inv_waiters : forall gid, is_Some (waiters u !! gid) -> 0 <= gid /\ gid ∈ pending u;
  inv_finish : asked u ≡ₚ finished u ++ finishesOf (unfinishedJobs (phase u) ++ queue u);
  inv_answer : expected u ≡ₚ map fst (answered u) ++ delivering (phase u) ++ waitingAll (waiters u) }.

Lemma waitingAll_append m gid w :
  waitingAll (<[gid := default [] (m !! gid) ++ [w]]> m) ≡ₚ w :: waitingAll m.
Proof.
  unfold waitingAll. destruct (m !! gid) as [ws|] eqn:E; cbn.
  - rewrite <- (insert_id m gid ws E) at 2. rewrite <- (insert_delete_eq m gid ws), <- (insert_delete_eq m gid (ws ++ [w])).
    rewrite !map_to_list_insert by apply lookup_delete_eq. rewrite !bind_cons. cbn [snd].
    rewrite <- app_assoc. cbn. by rewrite <- Permutation_middle.
  - rewrite map_to_list_insert by done. by rewrite bind_cons.
Qed.

Lemma waitingAll_delete m gid : waitingAll m ≡ₚ default [] (m !! gid) ++ waitingAll (delete gid m).
Proof.
  unfold waitingAll. destruct (m !! gid) as [ws|] eqn:E; cbn.
  - rewrite <- (insert_id m gid ws E) at 1. rewrite <- (insert_delete_eq m gid ws).
    rewrite map_to_list_insert by apply lookup_delete_eq. by rewrite bind_cons.
  - by rewrite delete_id.
Qed.

Lemma batchCount_app a b : batchCount (a ++ b) = batchCount a + batchCount b.
Proof. unfold batchCount. rewrite filter_app, length_app. lia. Qed.

Lemma batchCount_cons j jobs : batchCount (j :: jobs) = (if jbatch j then 1 else 0) + batchCount jobs.
Proof.
  unfold batchCount. rewrite filter_cons. case_decide; destruct (jbatch j); try done. cbn [length]. lia.
Qed.

Lemma enqueueLocked_fields job u :
  let u' := enqueueLocked job u in
  queue u' = queue u ++ [job] /\ pending u' = pending u /\ waiters u' = waiters u /\ pendingBatch u' = pendingBatch u /\
  running u' = true /\ phase u' = (if running u then phase u else Taking) /\
  asked u' = asked u /\ finished u' = finished u /\ expected u' = expected u /\ answered u' = answered u.
Proof. destruct u as [q p w b r ph a f e an]. destruct r; cbv -[app]; tauto. Qed.

(** Adding a job whose gid, mark, batch count and callback are accounted for. *)
Lemma inv_add u job :
  Inv u ->
  forall p b a,
  (0 <= jgid job -> jgid job ∉ pending u) ->
  (forall gid, 0 <= gid -> gid ∈ p <-> gid ∈ pending u \/ gid = jgid job) ->
  (forall gid, gid ∈ pending u -> gid ∈ p) ->
  b = pendingBatch u + (if jbatch job then 1 else 0) ->
  a = asked u ++ option_list (jfinish job) ->
  Inv (enqueueLocked job (((u <| pending := p |>) <| pendingBatch := b |>) <| asked := a |>)).
Proof.
  intros Hi p b a Hnew Hp Hsub -> ->.
  destruct (enqueueLocked_fields job (((u <| pending := p |>) <| pendingBatch := pendingBatch u + (if jbatch job then 1 else 0) |>)
    <| asked := asked u ++ option_list (jfinish job) |>)) as (F1 & F2 & F3 & F4 & F5 & F6 & F7 & F8 & F9 & F10).
  set (u' := enqueueLocked job _) in *. clearbody u'. cbn in F1, F2, F3, F4, F6, F7, F8, F9, F10.
  assert (Hphase : phase u' = phase u \/ phase u = NoWorker /\ phase u' = Taking).
  { destruct (running u) eqn:E; [by left|right]. split; [|done]. destruct (phase u) eqn:Ep; try done;
      (assert (running u = true) by (apply (inv_running _ Hi); by rewrite Ep); congruence). }
  assert (Hout : outstanding u' = outstanding u ++ [job]).
  { unfold outstanding. rewrite F1, app_assoc. do 2 f_equal. destruct Hphase as [->|[-> ->]]; done. }
  assert (Hun : unfinishedJobs (phase u') = unfinishedJobs (phase u)) by (destruct Hphase as [->|[-> ->]]; done).
  assert (Hdel : delivering (phase u') = delivering (phase u)) by (destruct Hphase as [->|[-> ->]]; done).
  assert (Hg : refreshGids (outstanding u') = refreshGids (outstanding u) ++ refreshGids [job])
    by (unfold refreshGids; by rewrite Hout, map_app, filter_app).
  assert (Hj : forall gid, gid ∈ refreshGids [job] <-> 0 <= gid /\ gid = jgid job).
  { intros gid. unfold refreshGids. rewrite list_elem_of_filter. cbn. by rewrite list_elem_of_singleton. }
  split.
  - rewrite F5. split; [|done]. intros _ E. destruct Hphase as [Hq|[_ Hq]]; [|congruence].
    rewrite E in Hq. rewrite <- Hq in F6. destruct (running u) eqn:Er; [|congruence].
    by apply (inv_running _ Hi) in Er.
  - intros E. destruct Hphase as [Hq|[_ Hq]]; [|congruence]. rewrite E in Hq.
    assert (running u = true) as Hr; [|by apply (inv_running _ Hi) in Hr].
    destruct (running u); [done|congruence].
  - intros gid Hgid. rewrite F2, Hp, Hg, elem_of_app, Hj, (inv_pending _ Hi) by done. tauto.
  - rewrite Hg. apply NoDup_app. split_and!; [apply (inv_once _ Hi)| |].
    + intros gid Hin Hgj. apply Hj in Hgj as [Hge ->]. apply (Hnew Hge). by apply (inv_pending _ Hi).
    + apply NoDup_filter. cbn. apply NoDup_singleton.
  - rewrite F4, Hout, batchCount_app, batchCount_cons, (inv_batch _ Hi). change (batchCount []) with 0. lia.
  - intros gid Hw. rewrite F3 in Hw. apply (inv_waiters _ Hi) in Hw as [H1 H2]. split; [done|]. rewrite F2. by apply Hsub.
  - rewrite F7, F8, Hun, F1, (inv_finish _ Hi). unfold finishesOf. rewrite !bind_app, <- !app_assoc. cbn.
    by rewrite app_nil_r.
  - rewrite F9, F10, Hdel, F3. apply (inv_answer _ Hi).
Qed.

#[local] Arguments refreshGids : simpl never.
#[local] Arguments batchCount : simpl never.

Lemma refreshGids_cons j jobs :
  refreshGids (j :: jobs) = (if decide (0 <= jgid j) then [jgid j] else []) ++ refreshGids jobs.
Proof. unfold refreshGids. cbn [map]. rewrite filter_cons. by case_decide. Qed.

Lemma inv_enqueue finish u : Inv u -> Inv (enqueue finish u).
Proof.
  intros Hi. pose proof (inv_add u (MkJob (-1) false finish) Hi (pending u) (pendingBatch u) (asked u ++ option_list finish)) as H.
  unfold enqueue, askFinish. replace (u <| asked := asked u ++ option_list finish |>) with
    (((u <| pending := pending u |>) <| pendingBatch := pendingBatch u |>) <| asked := asked u ++ option_list finish |>)
    by by destruct u.
  apply H; [cbn; lia| |done|cbn; lia|done]. intros gid Hgid. cbn. intuition lia.
Qed.

Lemma inv_mark u gid batch finish :
  Inv u -> gid ∉ pending u ->
  Inv (enqueueLocked (refreshJob gid batch finish)
    (((u <| pending := {[gid]} ∪ pending u |>) <| pendingBatch := pendingBatch u + (if batch then 1 else 0) |>)
     <| asked := asked u ++ option_list finish |>)).
Proof. intros Hi Hno. apply (inv_add u (refreshJob gid batch finish) Hi); cbn; try done; set_solver. Qed.

Lemma inv_called u finish : Inv u -> Inv (callFinish finish (askFinish finish u)).
Proof.
  intros [H1 H2 H3 H4 H5 H6 H7 H8]. destruct u as [q p w b r ph a f e an]. cbn in *. split; cbn; try done.
  rewrite H7, <- !app_assoc. f_equiv. apply Permutation_app_comm.
Qed.

Lemma inv_RefreshGroup gid finish u : Inv u -> Inv (RefreshGroup gid finish u).
Proof.
  intros Hi. unfold RefreshGroup. change (pending (askFinish finish u)) with (pending u).
  case_bool_decide as Hp; [by apply inv_called|].
  pose proof (inv_mark u gid false finish Hi Hp) as H. destruct u as [q p w b r ph a f e an].
  unfold askFinish in *. cbn in *. by rewrite Z.add_0_r in H.
Qed.

Lemma inv_expect u gid w :
  Inv u -> 0 <= gid -> gid ∈ pending u ->
  Inv ((u <| expected := expected u ++ [w] |>) <| waiters := <[gid := default [] (waiters u !! gid) ++ [w]]> (waiters u) |>).
Proof.
  intros [H1 H2 H3 H4 H5 H6 H7 H8] Hge Hp. destruct u as [q p ws b r ph a f e an]. cbn in *. split; cbn; try done.
  - intros g Hg. destruct (decide (g = gid)) as [->|Hne]; [done|]. apply H6. by rewrite lookup_insert_ne in Hg.
  - rewrite waitingAll_append, H8, <- !app_assoc. do 2 f_equiv. by rewrite <- Permutation_cons_append.
Qed.

Lemma inv_RefreshWithOutcome gid done_ u : Inv u -> Inv (RefreshWithOutcome gid done_ u).
Proof.
  intros Hi. unfold RefreshWithOutcome. destruct (Z.ltb_spec gid 0) as [Hneg|Hge].
  - destruct Hi as [H1 H2 H3 H4 H5 H6 H7 H8]. destruct u as [q p w b r ph a f e an]. cbn in *. split; cbn; try done.
    rewrite H8, map_app, <- !app_assoc. f_equiv. destruct done_; cbn; [|by rewrite app_nil_r].
    rewrite app_assoc. symmetry. apply Permutation_cons_append.
  - destruct done_ as [w|].
    + case_bool_decide as Hp; [by apply (inv_expect u gid w Hi Hge Hp)|].
      pose proof (inv_mark u gid false None Hi Hp) as H.
      pose proof (inv_expect _ gid w H Hge) as H'. clear H Hi. destruct u as [q p ws b r ph a f e an].
      unfold enqueueLocked in *. cbn in *. rewrite Z.add_0_r, app_nil_r in H'.
      destruct r; cbn in *; apply H'; set_solver.
    + cbn [option_list]. rewrite app_nil_r.
      replace (u <| expected := expected u |>) with u by by destruct u.
      case_bool_decide as Hp; [done|].
      pose proof (inv_mark u gid false None Hi Hp) as H. destruct u as [q p ws b r ph a f e an].
      cbn in *. by rewrite Z.add_0_r, app_nil_r in H.
Qed.

Lemma inv_RefreshAll gids u : Inv u -> Inv (RefreshAll gids u).
Proof.
  unfold RefreshAll. destruct (0 <? pendingBatch u); [done|].
  revert u. induction gids as [|gid gids IH]; intros u Hi; [done|]. cbn [fold_left]. apply IH. unfold refreshAllStep.
  case_bool_decide as Hp; [done|]. pose proof (inv_mark u gid true None Hi Hp) as H.
  destruct u as [q p ws b r ph a f e an]. cbn in *. by rewrite app_nil_r in H.
Qed.

Lemma inv_release job outcome u : Inv u -> phase u = Releasing job outcome -> Inv (releaseJob job outcome u).
Proof.
  intros [H1 H2 H3 H4 H5 H6 H7 H8] Hph. destruct u as [q p ws b r ph a f e an]. cbn in *. subst ph.
  unfold outstanding in *. cbn in *. rewrite refreshGids_cons in H4. rewrite batchCount_cons in H5.
  assert (Hb : (if jbatch job then b - 1 else b) = batchCount q) by (destruct (jbatch job); lia).
  unfold releaseJob. destruct (Z.leb_spec 0 (jgid job)) as [Hge|Hneg]; cbn.
  - rewrite decide_True in H4 by done. apply NoDup_cons in H4 as [Hnot H4].
    assert (Hpend : forall gid, 0 <= gid -> gid ∈ p ∖ {[jgid job]} <-> gid ∈ refreshGids q).
    { intros gid Hgid. rewrite elem_of_difference, H3, refreshGids_cons, decide_True by done. cbn.
      rewrite elem_of_cons, elem_of_singleton. split; [intros [[?|?] ?]; done|]. intros Hin. split; [by right|]. by intros ->. }
    destruct (jbatch job); cbn; (split; unfold outstanding; cbn; try done; [split; [done|by intros _; apply H1]| |]).
    all: try (intros gid Hw; rewrite lookup_delete_is_Some in Hw; destruct Hw as [Hne Hw]; apply H6 in Hw; set_solver).
    all: by rewrite H8, (waitingAll_delete ws (jgid job)).
  - rewrite decide_False in H4 by lia.
    assert (Hpend : forall gid, 0 <= gid -> gid ∈ p <-> gid ∈ refreshGids q)
      by (intros gid Hgid; rewrite H3, refreshGids_cons, decide_False by lia; done).
    destruct (jbatch job); cbn; (split; unfold outstanding; cbn; try done; split; [done|by intros _; apply H1]).
Qed.

Lemma inv_worker result u : Inv u -> Inv (workerStep result u).
Proof.
  intros Hi. unfold workerStep. destruct (phase u) as [| |job|job oc|job oc|[|w l] oc] eqn:Hph; [done| | | | | |].
  5, 6: idtac.
  - unfold takeJob. destruct Hi as [H1 H2 H3 H4 H5 H6 H7 H8]. destruct u as [q p ws b r ph a f e an]. cbn in *. subst ph.
    destruct q as [|job rest]; cbn; (split; unfold outstanding in *; cbn in *; try done).
    split; [done|by intros _; apply H1].
  - destruct Hi as [H1 H2 H3 H4 H5 H6 H7 H8]. destruct u as [q p ws b r ph a f e an]. cbn in *. subst ph.
    split; unfold outstanding in *; cbn in *; try done. split; [done|by intros _; apply H1].
  - destruct Hi as [H1 H2 H3 H4 H5 H6 H7 H8]. destruct u as [q p ws b r ph a f e an]. cbn in *. subst ph.
    split; unfold outstanding in *; cbn in *; try done; [split; [done|by intros _; apply H1]|].
    rewrite H7. unfold finishesOf. cbn. by rewrite <- app_assoc.
  - by apply inv_release.
  - destruct Hi as [H1 H2 H3 H4 H5 H6 H7 H8]. destruct u as [q p ws b r ph a f e an]. cbn in *. subst ph.
    split; unfold outstanding in *; cbn in *; try done. split; [done|by intros _; apply H1].
  - destruct Hi as [H1 H2 H3 H4 H5 H6 H7 H8]. destruct u as [q p ws b r ph a f e an]. cbn in *. subst ph.
    split; unfold outstanding in *; cbn in *; try done; [split; [done|by intros _; apply H1]|].
    rewrite H8, map_app, <- !app_assoc. cbn. done.
Qed.

Lemma inv_idleUpdater : Inv idleUpdater.
Proof.
  split; cbn; try done.
  - intros gid _. split; [set_solver|by intros H%elem_of_nil].
  - apply NoDup_nil_2.
  - intros gid [ws H]. by rewrite lookup_empty in H.
Qed.

Lemma reachable_inv u : reachable u -> Inv u.
Proof.
  intros H. unfold reachable in H. remember idleUpdater as u0 eqn:E.
  assert (Inv u0) as Hi by (subst; apply inv_idleUpdater). clear E.
  induction H as [|u0 u1 u2 Hs _ IH]; [done|]. apply IH.
  destruct Hs; [by apply inv_enqueue|by apply inv_RefreshGroup|by apply inv_RefreshWithOutcome|by apply inv_RefreshAll|by apply inv_worker].
Qed.

Lemma idle_no_waiters u : Inv u -> phase u = NoWorker -> waiters u = ∅.
Proof.
  intros Hi Hp. apply map_empty. intros gid. destruct (waiters u !! gid) as [ws|] eqn:E; [|done]. exfalso.
  destruct (inv_waiters _ Hi gid) as [Hge Hpend]; [by exists ws|]. apply (inv_pending _ Hi) in Hpend; [|done].
  unfold outstanding in Hpend. rewrite Hp, (inv_idle _ Hi Hp) in Hpend. by apply elem_of_nil in Hpend.
Qed.

(** However callers and the worker interleave, a group is busy exactly
    while a job of it is queued or running, never two of them; the batch counter
    counts the batch's jobs; there is a worker exactly while [running] is set,
    and an idle updater owes nothing. *)
Theorem jobs_invariant u :
  reachable u ->
  (forall gid, 0 <= gid -> IsBusy gid u = true <-> exists job, job ∈ outstanding u /\ jgid job = gid) /\
  NoDup (refreshGids (outstanding u)) /\
  pendingBatch u = batchCount (outstanding u) /\
  (running u = true <-> phase u <> NoWorker) /\
  (IsIdle u = true -> outstanding u = [] /\ waiters u = ∅ /\ pendingBatch u = 0).
Proof.
  intros Hr%reachable_inv. split_and!; [|apply (inv_once _ Hr)|apply (inv_batch _ Hr)|apply (inv_running _ Hr)|].
  - intros gid Hge. unfold IsBusy. rewrite bool_decide_eq_true, (inv_pending _ Hr) by done.
    unfold refreshGids. rewrite list_elem_of_filter, list_elem_of_fmap. split; [intros (_ & j & -> & Hj)|intros (j & Hj & <-)].
    + by exists j.
    + split; [done|]. by exists j.
  - unfold IsIdle. intros H. apply andb_true_iff in H as [H1 H2]. apply negb_true_iff in H1.
    apply bool_decide_eq_true, length_zero_iff_nil in H2.
    assert (Hp : phase u = NoWorker).
    { destruct (phase u) eqn:E; [done| | | | |]; exfalso;
        (assert (running u = true); [apply (inv_running _ Hr); by rewrite E|congruence]). }
    assert (Hout : outstanding u = []) by (unfold outstanding; by rewrite Hp, H2).
    split_and!; [done|by apply idle_no_waiters|by rewrite (inv_batch _ Hr), Hout].
Qed.

(** The calls still owed. *)
Definition owedFinishes (u : Updater) : list Z := finishesOf (unfinishedJobs (phase u) ++ queue u).

Definition owedAnswers (u : Updater) : list Z := delivering (phase u) ++ waitingAll (waiters u).

(** C6: Every callback and every waiter is called exactly once: at any moment
    those promised a call are those already called and those still owed one, and
    an idle updater owes none. *)
Theorem calls_exactly_once u :
  reachable u ->
  asked u ≡ₚ finished u ++ owedFinishes u /\
  expected u ≡ₚ map fst (answered u) ++ owedAnswers u /\
  (phase u = NoWorker -> owedFinishes u = [] /\ owedAnswers u = []).
Proof.
  intros Hr%reachable_inv. split_and!; [apply (inv_finish _ Hr)|apply (inv_answer _ Hr)|].
  intros Hp. unfold owedFinishes, owedAnswers. rewrite Hp, (inv_idle _ Hr Hp). split; [done|].
  by rewrite idle_no_waiters.
Qed.

(** ** The worker drains the queue *)

Definition phaseCost (p : Phase) : nat :=
  match p with
  | NoWorker => 0
  | Taking => 1
  | Running _ => 5
  | Finishing _ _ => 4
  | Releasing _ _ => 3
  | Delivering ws _ => 2 + length ws
  end.

Definition work (u : Updater) : nat := 5 * length (queue u) + length (waitingAll (waiters u)) + phaseCost (phase u).

Fixpoint workerRun (n : nat) (results : nat -> Outcome) (u : Updater) : Updater :=
  match n with
  | O => u
  | S n => workerRun n (fun i => results (S i)) (workerStep (results 0%nat) u)
  end.

Lemma worker_works result u : phase u <> NoWorker -> (work (workerStep result u) < work u)%nat.
Proof.
  intros Hp. unfold workerStep, work. destruct u as [q p ws b r ph a f e an]. cbn in Hp |- *.
  destruct ph as [| |job|job oc|job oc|[|w l] oc]; [done| | | | | |]; cbn.
  - unfold takeJob. cbn. destruct q; cbn; lia.
  - lia.
  - lia.
  - unfold releaseJob. cbn. pose proof (Permutation_length (waitingAll_delete ws (jgid job))) as Hl.
    rewrite length_app in Hl. destruct (0 <=? jgid job); destruct (jbatch job); cbn; lia.
  - lia.
  - lia.
Qed.

(** C27: Left alone, the worker of a reachable updater runs every queued job,
    whatever they end with, and ends idle after at most [work u] steps, with every
    callback and every waiter called. *)
Theorem worker_drains u results :
  reachable u ->
  let u' := workerRun (work u) results u in
  IsIdle u' = true /\ asked u' ≡ₚ finished u' /\ expected u' ≡ₚ map fst (answered u').
Proof.
  intros Hr. cbv zeta.
  assert (Hrun : forall n v rs, Inv v -> (work v <= n)%nat -> Inv (workerRun n rs v) /\ phase (workerRun n rs v) = NoWorker).
  { induction n as [|n IH]; intros v rs Hi Hw.
    - split; [done|]. unfold work in Hw. cbn. destruct (phase v); [done|cbn in Hw; lia..].
    - cbn [workerRun]. apply IH; [by apply inv_worker|].
      destruct (decide (phaseCost (phase v) = 0%nat)) as [E|E].
      + assert (phase v = NoWorker) as Ep by (by destruct (phase v)).
        unfold workerStep. rewrite Ep. unfold work. rewrite (inv_idle _ Hi Ep), idle_no_waiters, Ep by done.
        change (waitingAll ∅) with (@nil Z). cbn. lia.
      + assert (phase v <> NoWorker) as Hp by (by intros Hp; rewrite Hp in E). pose proof (worker_works (rs 0%nat) v Hp). lia. }
  destruct (Hrun (work u) u results (reachable_inv _ Hr) ltac:(lia)) as [Hi Hp].
  set (u' := workerRun (work u) results u) in *. clearbody u'.
  assert (Hw : waitingAll (waiters u') = []) by by rewrite idle_no_waiters.
  split_and!.
  - unfold IsIdle. rewrite (inv_idle _ Hi Hp). destruct (running u') eqn:E; [by apply (inv_running _ Hi) in E|done].
  - rewrite (inv_finish _ Hi), Hp, (inv_idle _ Hi Hp). cbn. by rewrite app_nil_r.
  - rewrite (inv_answer _ Hi), Hp, Hw. cbn. by rewrite app_nil_r.
Qed.

(** ** Automatic updates *)

(** What [ResolveAutoUpdate] and [autoUpdateDue] read of a group. *)
Record AutoGroup := MkAutoGroup {
  agid : Z; hasUrl : bool; archive : bool; skip_auto_update : bool; sub_last_update : Z;
  server_interval : Z; update_interval : Z; respect_server_interval : option bool }.

Record AutoSettings := MkAutoSettings { sub_auto_update : Z; sub_respect_server_interval : bool }.

Inductive Source := off | global | group | server.

Definition ResolveAutoUpdate (settings : AutoSettings) (g : AutoGroup) : Z * Source :=
  if (sub_auto_update settings <? 30) || negb (hasUrl g) || archive g || skip_auto_update g then (0, off)
  else if default (sub_respect_server_interval settings) (respect_server_interval g) && (0 <? server_interval g)
  then (server_interval g * 3600, server)
  else if 0 <? update_interval g then (Z.max (update_interval g) 30 * 60, group)
  else (sub_auto_update settings * 60, global).

Definition autoUpdateDue (attempts : gmap Z Z) (g : AutoGroup) (interval : Z) : Z :=
  let last := Z.max (sub_last_update g) (default 0 (attempts !! agid g)) in
  if last <=? 0 then 0 else last + interval.

(** The groups it refreshes, in tab order, and the attempts it notes. *)
Definition CheckAutoUpdate (settings : AutoSettings) (now : Z) (groups : list AutoGroup) (attempts : gmap Z Z) :
    list Z * gmap Z Z :=
  fold_left (fun '(gids, attempts) g =>
    let interval := (ResolveAutoUpdate settings g).1 in
    if (interval <=? 0) || (now <? autoUpdateDue attempts g interval) then (gids, attempts)
    else (gids ++ [agid g], <[agid g := now]> attempts)) groups ([], attempts).

Definition NextAutoUpdate (settings : AutoSettings) (groups : list AutoGroup) (attempts : gmap Z Z) : Z :=
  fold_left (fun next g =>
    let interval := (ResolveAutoUpdate settings g).1 in
    if interval <=? 0 then next
    else
      let due := autoUpdateDue attempts g interval in
      if (next <? 0) || (due <? next) then due else next) groups (-1).

Definition interval (settings : AutoSettings) (g : AutoGroup) : Z := (ResolveAutoUpdate settings g).1.

Lemma interval_bounds settings g : interval settings g = 0 \/ 1800 <= interval settings g.
Proof.
  unfold interval, ResolveAutoUpdate. destruct (Z.ltb_spec (sub_auto_update settings) 30); cbn [orb fst]; [by left|].
  destruct (_ || _); [by left|]. destruct (_ && _) eqn:E; [apply andb_true_iff in E as [_ E]; right; cbn; lia|].
  destruct (0 <? update_interval g); right; cbn; lia.
Qed.

Lemma due_next_poll attempts g i now : 0 < now -> 0 < i -> now < autoUpdateDue (<[agid g := now]> attempts) g i.
Proof. unfold autoUpdateDue. rewrite lookup_insert_eq. cbn. intros. destruct (Z.leb_spec (Z.max (sub_last_update g) now) 0); lia. Qed.

Lemma due_mono attempts gid g i now :
  0 < now -> 0 < i -> now < autoUpdateDue attempts g i -> now < autoUpdateDue (<[gid := now]> attempts) g i.
Proof.
  intros Hn Hi H. destruct (decide (gid = agid g)) as [->|Hne]; [by apply due_next_poll|].
  unfold autoUpdateDue in *. by rewrite lookup_insert_ne.
Qed.

Lemma check_spec settings now groups attempts gids0 :
  0 < now -> NoDup (map agid groups) ->
  let '(gids, attempts') := fold_left (fun '(gids, attempts) g =>
    let i := (ResolveAutoUpdate settings g).1 in
    if (i <=? 0) || (now <? autoUpdateDue attempts g i) then (gids, attempts)
    else (gids ++ [agid g], <[agid g := now]> attempts)) groups (gids0, attempts) in
  gids = gids0 ++ map agid (filter (fun g => 0 < interval settings g /\ autoUpdateDue attempts g (interval settings g) <= now) groups) /\
  (forall g, 0 < interval settings g -> g ∈ groups \/ now < autoUpdateDue attempts g (interval settings g) ->
     now < autoUpdateDue attempts' g (interval settings g)).
Proof.
  intros Hn. revert attempts gids0. induction groups as [|g groups IH]; intros attempts gids0 Hnd.
  - cbn. rewrite app_nil_r. split; [done|]. intros g _ [H|H]; [by apply elem_of_nil in H|done].
  - cbn [fold_left]. apply NoDup_cons in Hnd as [Hnot Hnd]. fold (interval settings g). rewrite filter_cons.
    destruct (_ || _) eqn:E.
    + rewrite decide_False by lia. specialize (IH attempts gids0 Hnd).
      destruct (fold_left _ groups _) as [gids attempts']. destruct IH as [I1 I2]. split; [done|].
      intros g' Hg' [[->|Hin]%elem_of_cons|Hd]; apply I2; try done; [|by left|by right]. right. lia.
    + rewrite decide_True by lia. specialize (IH (<[agid g := now]> attempts) (gids0 ++ [agid g]) Hnd).
      destruct (fold_left _ groups _) as [gids attempts']. destruct IH as [I1 I2]. split.
      * rewrite I1. cbn [map]. rewrite <- app_assoc. f_equal. cbn [app]. do 2 f_equal. apply filter_ext_elem.
        intros g' Hg'. unfold autoUpdateDue. rewrite lookup_insert_ne; [done|]. intros Eq. apply Hnot. fold (map agid groups).
        rewrite Eq. by apply list_elem_of_fmap_2.
      * intros g' Hg' Hcase. apply I2; [done|]. destruct Hcase as [[->|Hin]%elem_of_cons|Hd]; [|by left|].
        -- right. by apply due_next_poll.
        -- right. by apply due_mono.
Qed.

Lemma next_spec settings now groups attempts next0 :
  0 <= now ->
  (forall g, g ∈ groups -> 0 < interval settings g -> now < autoUpdateDue attempts g (interval settings g)) ->
  (next0 = -1 \/ now < next0) ->
  let next := fold_left (fun next g =>
    let i := (ResolveAutoUpdate settings g).1 in
    if i <=? 0 then next
    else let due := autoUpdateDue attempts g i in if (next <? 0) || (due <? next) then due else next) groups next0 in
  (next = -1 <-> next0 = -1 /\ forall g, g ∈ groups -> interval settings g = 0) /\ (next = -1 \/ now < next).
Proof.
  intros Hnow. revert next0. induction groups as [|g groups IH]; intros next0 Hdue H0.
  - cbn. split; [|done]. split; [|tauto]. intros ->. split; [done|]. intros g Hg. by apply elem_of_nil in Hg.
  - cbn [fold_left]. fold (interval settings g). cbv zeta in *.
    pose proof (interval_bounds settings g) as Hb.
    assert (Htail : forall g', g' ∈ groups -> 0 < interval settings g' -> now < autoUpdateDue attempts g' (interval settings g'))
      by (intros g' Hg'; apply Hdue; by right).
    destruct (Z.leb_spec (interval settings g) 0) as [Hz|Hpos].
    + destruct (IH next0 Htail H0) as [I1 I2]. split; [|done]. rewrite I1. split.
      * intros [-> Hall]. split; [done|]. intros g' [->|Hin]%elem_of_cons; [lia|by apply Hall].
      * intros [-> Hall]. split; [done|]. intros g' Hin. apply Hall. by right.
    + assert (Hd : now < autoUpdateDue attempts g (interval settings g)) by (apply Hdue; [by left|done]).
      set (next1 := if _ || _ then _ else next0).
      assert (H1 : now < next1) by (unfold next1; destruct (_ || _) eqn:E; [done|lia]).
      destruct (IH next1 Htail (or_intror H1)) as [I1 I2]. split; [|done]. rewrite I1. split.
      * intros [-> _]. lia.
      * intros [_ Hall]. specialize (Hall g ltac:(by left)). lia.
Qed.

(** A poll refreshes, in tab order, exactly the groups whose interval
    (at least half an hour) has passed since their last update or attempt, and
    none of them is due again before it passes anew: right after the poll the
    next update lies in the future, or no group updates automatically. *)
Theorem CheckAutoUpdate_spec settings now groups attempts :
  0 < now -> NoDup (map agid groups) ->
  let '(gids, attempts') := CheckAutoUpdate settings now groups attempts in
  gids = map agid (filter (fun g => 0 < interval settings g /\ autoUpdateDue attempts g (interval settings g) <= now) groups) /\
  (forall g, interval settings g = 0 \/ 1800 <= interval settings g) /\
  (NextAutoUpdate settings groups attempts' = -1 <-> forall g, g ∈ groups -> interval settings g = 0) /\
  (NextAutoUpdate settings groups attempts' = -1 \/ now < NextAutoUpdate settings groups attempts').
Proof.
  intros Hn Hnd. pose proof (check_spec settings now groups attempts [] Hn Hnd) as H. unfold CheckAutoUpdate.
  destruct (fold_left _ groups _) as [gids attempts']. destruct H as [H1 H2].
  destruct (next_spec settings now groups attempts' (-1) ltac:(lia)) as [H3 H4];
    [intros g Hg Hi; apply H2; by auto|by left|].
  split_and!; [done|apply interval_bounds| |done]. unfold NextAutoUpdate. rewrite H3. tauto.
Qed.

(** ** Witnesses *)

(** A refresh with a waiter, a second caller and an import, the first job running. *)
Definition busy0 : Updater :=
  workerStep (Ended 1) (enqueue (Some 20) (RefreshWithOutcome 4 (Some 30) (RefreshGroup 4 (Some 10) idleUpdater))).

Lemma busy0_reachable : reachable busy0.
Proof.
  unfold reachable, busy0. eapply rtc_l; [apply step_refresh|]. eapply rtc_l; [apply step_outcome|].
  eapply rtc_l; [apply step_enqueue|]. apply rtc_once, step_worker.
Qed.

Lemma jobs_invariant_witness : IsBusy 4 busy0 = true /\ NoDup (refreshGids (outstanding busy0)).
Proof. split; [vm_compute; reflexivity|]. exact (proj1 (proj2 (jobs_invariant busy0 busy0_reachable))). Defined.

Lemma calls_exactly_once_witness :
  owedFinishes busy0 = [10; 20] /\ owedAnswers busy0 = [30] /\ asked busy0 ≡ₚ finished busy0 ++ owedFinishes busy0.
Proof.
  split; [vm_compute; reflexivity|]. split; [vm_compute; reflexivity|].
  exact (proj1 (calls_exactly_once busy0 busy0_reachable)).
Defined.

Lemma worker_drains_witness :
  answered (workerRun (work busy0) (fun _ => Ended 7) busy0) = [(30, Ended 7)] /\
  IsIdle (workerRun (work busy0) (fun _ => Ended 7) busy0) = true.
Proof.
  split; [vm_compute; reflexivity|]. exact (proj1 (worker_drains busy0 (fun _ => Ended 7) busy0_reachable)).
Defined.

Definition groups0 : list AutoGroup :=
  [MkAutoGroup 1 true false false 1000 0 0 None; MkAutoGroup 2 true false false 90000 12 45 (Some true);
   MkAutoGroup 3 false false false 0 0 0 None].

Lemma CheckAutoUpdate_spec_witness :
  let '(gids, attempts) := CheckAutoUpdate (MkAutoSettings 60 false) 100000 groups0 ∅ in
  gids = [1] /\ 100000 < NextAutoUpdate (MkAutoSettings 60 false) groups0 attempts.
Proof.
  assert (Hnd : NoDup (map agid groups0)) by by apply (bool_decide_unpack _).
  pose proof (CheckAutoUpdate_spec (MkAutoSettings 60 false) 100000 groups0 ∅ ltac:(lia) Hnd) as H.
  assert (E : (CheckAutoUpdate (MkAutoSettings 60 false) 100000 groups0 ∅).1 = [1]) by (vm_compute; reflexivity).
  destruct (CheckAutoUpdate (MkAutoSettings 60 false) 100000 groups0 ∅) as [gids attempts].
  destruct H as (_ & _ & H3 & H4). split; [exact E|]. destruct H4 as [H4|H4]; [|exact H4]. exfalso.
  pose proof (proj1 H3 H4 (MkAutoGroup 1 true false false 1000 0 0 None) ltac:(by left)) as H. vm_compute in H. discriminate.
Defined.
