(* ===== verification/OtpBase32.v ===== *)
(** * OtpBase32: the base32 codec of one-time-password secrets

    src/global/OTP.cpp, Base32Decode, Base32Encode and NormalizeSecret.  Bytes
    are integers 0..255 and the 32-bit shift register is kept at its width.

    The reference is RFC 4648 on bit strings: [encode32] cuts the bits of the
    bytes into fives and pads the last one with zeros, [decode32] cuts the bits
    of the digits into eights and drops an incomplete last one.  The loops of the
    source are shown equal to it ([Base32Encode_rfc], [Base32Decode_rfc]), and
    the round trips follow from the reference. *)

From S2P Require Import Prelude Text.

Definition BASE32_ALPHABET : qstring := u "ABCDEFGHIJKLMNOPQRSTUVWXYZ234567".

(** ** Decoding *)

(** [QChar::toLatin1]: 0 outside Latin-1. *)
Definition toLatin1 (c : qchar) : Z := if c <? 256 then c else 0.

(** Characters that are skipped: space, [-], [_], tab, carriage return, newline
    and the padding [=]. *)
Definition base32Skips (c : Z) : bool :=
  (c =? 32) || (c =? 45) || (c =? 95) || (c =? 9) || (c =? 13) || (c =? 10) || (c =? 61).

Definition base32Value (c : Z) : option Z :=
  if (65 <=? c) && (c <=? 90) then Some (c - 65)
  else if (97 <=? c) && (c <=? 122) then Some (c - 97)
  else if (50 <=? c) && (c <=? 55) then Some (c - 50 + 26)
  else None.

(** The locals of the two loops. *)
Record Register := { buffer : Z; bitsLeft : Z; out : list Z }.

Definition emptyRegister : Register := {| buffer := 0; bitsLeft := 0; out := [] |}.

(** One accepted character. *)
Definition takeDigit (v : Z) (r : Register) : Register :=
  let buf := u32 (Z.lor (Z.shiftl (buffer r) 5) v) in
  let n := bitsLeft r + 5 in
  if 8 <=? n then
    {| buffer := buf; bitsLeft := n - 8; out := out r ++ [Z.land (Z.shiftr buf (n - 8)) 255] |}
  else {| buffer := buf; bitsLeft := n; out := out r |}.

Fixpoint decodeLoop (input : qstring) (r : Register) : option (list Z) :=
  match input with
  | [] => Some (out r)
  | qc :: input =>
      let c := toLatin1 qc in
      if base32Skips c then decodeLoop input r
      else match base32Value c with
           | Some v => decodeLoop input (takeDigit v r)
           | None => None
           end
  end.

(** [None] is an empty result with [ok] false. *)
Definition Base32Decode (input : qstring) : option (list Z) := decodeLoop input emptyRegister.

(** ** Encoding *)

Definition alphabetAt (i : Z) : qchar := nth (Z.to_nat i) BASE32_ALPHABET 0.

(** The inner loop of the encoder; a register holds at most 12 bits there, so
    two rounds are enough. *)
Fixpoint emitDigits (fuel : nat) (r : Register) : Register :=
  match fuel with
  | O => r
  | S f =>
      if 5 <=? bitsLeft r then
        let n := bitsLeft r - 5 in
        emitDigits f {| buffer := buffer r; bitsLeft := n;
                        out := out r ++ [alphabetAt (Z.land (Z.shiftr (buffer r) n) 31)] |}
      else r
  end.

Definition takeByte (r : Register) (c : Z) : Register :=
  emitDigits 2 {| buffer := u32 (Z.lor (Z.shiftl (buffer r) 8) c); bitsLeft := bitsLeft r + 8; out := out r |}.

Definition Base32Encode (input : list Z) : qstring :=
  let r := fold_left takeByte input emptyRegister in
  if 0 <? bitsLeft r then out r ++ [alphabetAt (Z.land (u32 (Z.shiftl (buffer r) (5 - bitsLeft r))) 31)]
  else out r.

(** The canonical spelling of a secret; empty when it is not a usable one. *)
Definition NormalizeSecret (secret : qstring) : qstring :=
  match Base32Decode secret with
  | Some [] | None => []
  | Some decoded => Base32Encode decoded
  end.

(** ** The reference: RFC 4648 on bit strings *)

(** The low [k] bits of [x], most significant first. *)
Fixpoint bits (k : nat) (x : Z) : list bool :=
  match k with
  | O => []
  | S k => Z.testbit x (Z.of_nat k) :: bits k x
  end.

Definition bitsOf (k : nat) (xs : list Z) : list bool := concat (map (bits k) xs).

Definition number2 (bs : list bool) : Z := fold_left (fun v b => 2 * v + Z.b2z b) bs 0.

(** The complete groups of [k] bits, as numbers. *)
Fixpoint groups (fuel k : nat) (bs : list bool) : list Z :=
  match fuel with
  | O => []
  | S f => if (length bs <? k)%nat then [] else number2 (take k bs) :: groups f k (drop k bs)
  end.

Definition bitGroups (k : nat) (bs : list bool) : list Z := groups (length bs) k bs.

(** Zeros up to a multiple of five bits. *)
Definition pad5 (bs : list bool) : list bool := replicate ((5 - length bs mod 5) mod 5) false.

Definition encode32 (bytes : list Z) : qstring :=
  map alphabetAt (bitGroups 5 (bitsOf 8 bytes ++ pad5 (bitsOf 8 bytes))).

(** The digits a text spells; none when it holds a foreign character. *)
Fixpoint digitsOf (input : qstring) : option (list Z) :=
  match input with
  | [] => Some []
  | c :: input =>
      if base32Skips (toLatin1 c) then digitsOf input
      else v ← base32Value (toLatin1 c); vs ← digitsOf input; Some (v :: vs)
  end.

Definition decode32 (input : qstring) : option (list Z) :=
  digits ← digitsOf input; Some (bitGroups 8 (bitsOf 5 digits)).

(** ** Bit strings *)

Lemma bits_length k x : length (bits k x) = k.
Proof. induction k; simpl; lia. Qed.

Lemma bits_ext k x y :
  (forall i, 0 <= i < Z.of_nat k -> Z.testbit x i = Z.testbit y i) -> bits k x = bits k y.
Proof.
  induction k as [|k IH]; intros H; [done|]. simpl. f_equal; [apply H; lia|]. apply IH. intros i Hi. apply H. lia.
Qed.

Lemma bits_app k j x : bits (k + j) x = bits k (Z.shiftr x (Z.of_nat j)) ++ bits j x.
Proof.
  induction k as [|k IH]; [done|]. simpl. rewrite IH, Z.shiftr_spec by lia. do 2 f_equal. lia.
Qed.

Lemma number2_app a bs : number2 (a ++ bs) = number2 a * 2 ^ Z.of_nat (length bs) + number2 bs.
Proof.
  unfold number2. rewrite fold_left_app. generalize (fold_left (fun v b => 2 * v + Z.b2z b) a 0) as v.
  induction bs as [|b bs IH] using rev_ind; intros v; [simpl; lia|].
  rewrite !fold_left_app, IH, length_app, Nat2Z.inj_add, Z.pow_add_r by lia. simpl. lia.
Qed.

Lemma number2_range bs : 0 <= number2 bs < 2 ^ Z.of_nat (length bs).
Proof.
  induction bs as [|b bs IH] using rev_ind; [done|].
  rewrite number2_app, length_app, Nat2Z.inj_add, Z.pow_add_r by lia.
  unfold number2 at 2 4. simpl. destruct b; simpl; lia.
Qed.

Lemma number2_bits k x : number2 (bits k x) = x mod 2 ^ Z.of_nat k.
Proof.
  revert x. induction k as [|k IH]; intros x; [by rewrite Z.mod_1_r|].
  replace (S k) with (k + 1)%nat by lia. rewrite bits_app, number2_app, bits_length, IH.
  unfold number2. simpl fold_left. rewrite Z.shiftr_div_pow2 by lia.
  replace (Z.of_nat (k + 1)) with (1 + Z.of_nat k) by lia. rewrite Z.pow_add_r by lia.
  change (2 ^ Z.of_nat 1) with 2. change (2 ^ 1) with 2. rewrite Z.rem_mul_r by lia.
  rewrite (Zmod_odd x). destruct (Z.odd x); simpl Z.b2z; lia.
Qed.

Lemma bits_number2 bs : bits (length bs) (number2 bs) = bs.
Proof.
  induction bs as [|b bs IH] using rev_ind; [done|]. rewrite length_app. simpl length. rewrite bits_app, number2_app.
  change (number2 [b]) with (Z.b2z b). change (2 ^ Z.of_nat (length [b])) with 2. change (Z.of_nat 1) with 1.
  f_equal.
  - rewrite <- IH at 3. f_equal. rewrite Z.shiftr_div_pow2 by lia. change (2 ^ 1) with 2.
    rewrite Z.div_add_l by lia. replace (Z.b2z b / 2) with 0 by (by destruct b). lia.
  - simpl. f_equal. rewrite Z.odd_add, Z.odd_mul.
    rewrite andb_false_r. by destruct b.
Qed.

Lemma bits_small k x : 0 <= x < 2 ^ Z.of_nat k -> number2 (bits k x) = x.
Proof. intros H. by rewrite number2_bits, Z.mod_small. Qed.

(** Shifting [j] bits into a 32-bit register that holds [n]. *)
Lemma shift_in n j buf v :
  (n + j <= 32)%nat -> 0 <= v < 2 ^ Z.of_nat j ->
  bits (n + j) (u32 (Z.lor (Z.shiftl buf (Z.of_nat j)) v)) = bits n buf ++ bits j v.
Proof.
  intros Hn Hv. rewrite bits_app. unfold wrap. f_equal; apply bits_ext; intros i Hi.
  - rewrite Z.shiftr_spec by lia. rewrite Z.mod_pow2_bits_low by lia.
    rewrite Z.lor_spec, Z.shiftl_spec by lia. replace (i + Z.of_nat j - Z.of_nat j) with i by lia.
    by rewrite (testbit_above v (Z.of_nat j)), orb_false_r by lia.
  - rewrite Z.mod_pow2_bits_low by lia. by rewrite Z.lor_spec, Z.shiftl_spec_low by lia.
Qed.

(** ** Groups *)

Lemma groups_fuel f k bs : (0 < k)%nat -> (length bs <= f)%nat -> groups f k bs = bitGroups k bs.
Proof.
  intros Hk. enough (forall n f g bs, (length bs <= n)%nat -> (length bs <= f)%nat -> (length bs <= g)%nat ->
    groups f k bs = groups g k bs) as H by (intros Hf; by apply (H (length bs))).
  clear f bs. induction n as [|n IH]; intros f g bs Hn Hf Hg.
  - destruct bs; [|simpl in Hn; lia]. destruct f, g; simpl; try done; destruct k; try done; lia.
  - destruct f, g; simpl; case_ifs; try done; bool_to_prop.
    + apply Nat.ltb_ge in Heqb. lia.
    + apply Nat.ltb_ge in Heqb. lia.
    + apply Nat.ltb_ge in Heqb. f_equal. apply IH; rewrite length_drop; lia.
Qed.

Lemma bitGroups_cons k g bs : (0 < k)%nat -> length g = k -> bitGroups k (g ++ bs) = number2 g :: bitGroups k bs.
Proof.
  intros Hk Hg. unfold bitGroups at 1. destruct (length (g ++ bs)) as [|f] eqn:E; rewrite length_app in E; [lia|].
  simpl. rewrite length_app. destruct (Nat.ltb_spec (length g + length bs) k); [lia|].
  rewrite take_app_length', drop_app_length' by done. f_equal. apply groups_fuel; lia.
Qed.

Lemma bitGroups_short k bs : (length bs < k)%nat -> bitGroups k bs = [].
Proof.
  intros H. unfold bitGroups. destruct (length bs) eqn:E; [done|]. simpl. rewrite E.
  by destruct (Nat.ltb_spec (S n) k); [|lia].
Qed.

Lemma bitGroups_bitsOf k xs rest :
  (0 < k)%nat -> Forall (fun x => 0 <= x < 2 ^ Z.of_nat k) xs -> (length rest < k)%nat ->
  bitGroups k (bitsOf k xs ++ rest) = xs.
Proof.
  intros Hk Hxs Hrest. induction Hxs as [|x xs Hx Hxs IH]; [by apply bitGroups_short|].
  unfold bitsOf in *. simpl. rewrite <- app_assoc, bitGroups_cons by (done || apply bits_length).
  by rewrite bits_small, IH.
Qed.

(** Induction on a bit string, [k] bits at a time. *)
Lemma groups_induction k (P : list bool -> Prop) :
  (0 < k)%nat -> (forall bs, (length bs < k)%nat -> P bs) ->
  (forall g bs, length g = k -> P bs -> P (g ++ bs)) -> forall bs, P bs.
Proof.
  intros Hk Hshort Hstep bs. induction bs as [bs IH] using (well_founded_induction (well_founded_ltof _ length)). unfold ltof in IH.
  destruct (Nat.ltb_spec (length bs) k); [by apply Hshort|].
  rewrite <- (take_drop k bs). apply Hstep; [rewrite length_take; lia|]. apply IH. rewrite length_drop. lia.
Qed.

Lemma bitsOf_cons k x xs : bitsOf k (x :: xs) = bits k x ++ bitsOf k xs.
Proof. done. Qed.

#[local] Arguments bits : simpl never.
#[local] Arguments bitsOf : simpl never.

Lemma bitsOf_length k xs : length (bitsOf k xs) = (k * length xs)%nat.
Proof. induction xs; rewrite ?bitsOf_cons, ?length_app, ?bits_length; simpl; lia. Qed.

Lemma bitGroups_range k bs : (0 < k)%nat -> Forall (fun x => 0 <= x < 2 ^ Z.of_nat k) (bitGroups k bs).
Proof.
  intros Hk. revert bs. apply (groups_induction k); [done|intros bs Hs; by rewrite bitGroups_short|intros g bs Hg IH].
  rewrite bitGroups_cons by done. constructor; [|done]. rewrite <- Hg. apply number2_range.
Qed.

(** A whole number of groups is a lossless reading of the bits. *)
Lemma bitsOf_groupsOf k bs : (0 < k)%nat -> (length bs mod k = 0)%nat -> bitsOf k (bitGroups k bs) = bs.
Proof.
  intros Hk. revert bs.
  refine (groups_induction k (fun bs => _ -> _) Hk _ _); [intros bs Hs|intros g bs Hg IH].
  - rewrite Nat.mod_small by done. intros H. by destruct bs.
  - rewrite length_app, Hg. replace (k + length bs)%nat with (length bs + 1 * k)%nat by lia.
    rewrite Nat.Div0.mod_add. intros H. rewrite bitGroups_cons by done.
    rewrite bitsOf_cons, IH by done. rewrite <- Hg at 1. by rewrite bits_number2.
Qed.

(** ** The loops compute the reference *)

Lemma base32Value_range c v : base32Value c = Some v -> 0 <= v < 32.
Proof. unfold base32Value. case_ifs; intros [= <-]; bool_to_prop; lia. Qed.

Lemma land_mod x k : 0 <= k -> Z.land x (Z.ones k) = x mod 2 ^ k.
Proof. apply Z.land_ones. Qed.

(** Accepting a digit completes an octet exactly when eight bits are there. *)
Lemma takeDigit_groups v r rest :
  0 <= bitsLeft r < 8 -> 0 <= v < 32 ->
  let held r := bits (Z.to_nat (bitsLeft r)) (buffer r) in
  0 <= bitsLeft (takeDigit v r) < 8 /\
  out (takeDigit v r) ++ bitGroups 8 (held (takeDigit v r) ++ rest) =
  out r ++ bitGroups 8 (held r ++ bits 5 v ++ rest).
Proof.
  intros Hn Hv held. pose proof (shift_in (Z.to_nat (bitsLeft r)) 5 (buffer r) v ltac:(lia) Hv) as Hs.
  change (Z.of_nat 5) with 5 in Hs. subst held. cbv beta. rewrite app_assoc, <- Hs.
  unfold takeDigit. set (buf := u32 _). cbv zeta. destruct (Z.leb_spec 8 (bitsLeft r + 5)); cbn [bitsLeft buffer out].
  - split; [lia|]. replace (Z.to_nat (bitsLeft r) + 5)%nat with (8 + Z.to_nat (bitsLeft r + 5 - 8))%nat by lia.
    rewrite bits_app, <- !app_assoc, (bitGroups_cons 8 (bits 8 _)) by (lia || apply bits_length).
    rewrite number2_bits, Z2Nat.id by lia.
    by rewrite (land_255 (Z.shiftr buf _)).
  - split; [lia|]. by replace (Z.to_nat (bitsLeft r + 5)) with (Z.to_nat (bitsLeft r) + 5)%nat by lia.
Qed.

Lemma decodeLoop_groups input r :
  0 <= bitsLeft r < 8 ->
  decodeLoop input r =
  (digits ← digitsOf input; Some (out r ++ bitGroups 8 (bits (Z.to_nat (bitsLeft r)) (buffer r) ++ bitsOf 5 digits))).
Proof.
  revert r. induction input as [|c input IH]; intros r Hr; simpl.
  - rewrite app_nil_r, bitGroups_short, app_nil_r by (rewrite bits_length; lia). done.
  - destruct (base32Skips _); [by apply IH|]. destruct (base32Value _) as [v|] eqn:Ev; [|done]. simpl.
    apply base32Value_range in Ev.
    pose proof (takeDigit_groups v r) as Hd. cbv zeta in Hd.
    rewrite IH by apply (Hd [] Hr Ev). destruct (digitsOf input) as [ds|]; [|done]. simpl. f_equal.
    apply (Hd (bitsOf 5 ds) Hr Ev).
Qed.

Lemma Base32Decode_rfc input : Base32Decode input = decode32 input.
Proof. unfold Base32Decode. by rewrite decodeLoop_groups. Qed.

(** What a register will have spelled once [rest] follows its bits. *)
Definition spelled (r : Register) (rest : list bool) : qstring :=
  out r ++ map alphabetAt (bitGroups 5 (bits (Z.to_nat (bitsLeft r)) (buffer r) ++ rest)).

Lemma emitDigits_spelled f r rest :
  0 <= bitsLeft r < 5 * Z.of_nat (S f) ->
  spelled (emitDigits f r) rest = spelled r rest /\ 0 <= bitsLeft (emitDigits f r) < 5 /\
  bitsLeft (emitDigits f r) mod 5 = bitsLeft r mod 5.
Proof.
  revert r. induction f as [|f IH]; intros r Hr; [split_and!; [done|simpl; lia..|done]|].
  simpl. destruct (Z.leb_spec 5 (bitsLeft r)); [|split_and!; [done|lia..|done]].
  edestruct IH as (-> & Hb & ->); [|split; [|split; [done|]]]; simpl; [lia| |].
  - unfold spelled. cbn [out bitsLeft buffer].
    assert (Z.to_nat (bitsLeft r) = (5 + Z.to_nat (bitsLeft r - 5))%nat) as -> by lia.
    rewrite bits_app, <- !app_assoc, (bitGroups_cons 5 (bits 5 _)) by (lia || apply bits_length).
    rewrite number2_bits, Z2Nat.id by lia. simpl app. do 2 f_equal.
    change 31 with (Z.ones 5). by rewrite land_mod.
  - rewrite <- (Z_mod_plus_full (bitsLeft r - 5) 1 5). f_equal. lia.
Qed.

Lemma takeByte_spelled r c rest :
  0 <= bitsLeft r < 5 -> 0 <= c < 256 ->
  spelled (takeByte r c) rest = spelled r (bits 8 c ++ rest) /\ 0 <= bitsLeft (takeByte r c) < 5 /\
  bitsLeft (takeByte r c) mod 5 = (bitsLeft r + 8) mod 5.
Proof.
  intros Hr Hc. unfold takeByte. set (r' := {| buffer := _ |}).
  destruct (emitDigits_spelled 2 r' rest) as (-> & Hb & Hm); [simpl; lia|]. split_and!; [|apply Hb..|exact Hm].
  unfold spelled, r'. cbn [out bitsLeft buffer]. rewrite (app_assoc _ (bits 8 c)). do 4 f_equal.
  replace (Z.to_nat (bitsLeft r + 8)) with (Z.to_nat (bitsLeft r) + 8)%nat by lia.
  apply (shift_in _ 8); [lia|done].
Qed.

Lemma takeBytes_spelled bytes r rest :
  0 <= bitsLeft r < 5 -> Forall (fun c => 0 <= c < 256) bytes ->
  let r' := fold_left takeByte bytes r in
  spelled r' rest = spelled r (bitsOf 8 bytes ++ rest) /\ 0 <= bitsLeft r' < 5 /\
  bitsLeft r' mod 5 = (bitsLeft r + 8 * Z.of_nat (length bytes)) mod 5.
Proof.
  intros Hr Hbs. revert r Hr. induction Hbs as [|c bytes Hc Hbs IH]; intros r Hr; cbn [fold_left length].
  - split_and!; [done|lia..|f_equal; lia].
  - destruct (takeByte_spelled r c (bitsOf 8 bytes ++ rest) Hr Hc) as (E & Hb & Hm).
    destruct (IH (takeByte r c) Hb) as (E' & Hb' & Hm'). cbv zeta in *. rewrite E', E, bitsOf_cons, <- app_assoc.
    split_and!; [done|lia..|]. rewrite Hm'.
    rewrite Z.add_mod, Hm, <- Z.add_mod by lia. f_equal. lia.
Qed.

Definition bytes (bs : list Z) : Prop := Forall (fun c => 0 <= c < 256) bs.

Lemma bytes_app xs ys : bytes xs -> bytes ys -> bytes (xs ++ ys).
Proof. apply Forall_app_2. Qed.

#[export] Hint Resolve bytes_app : wd.

Lemma pad5_spec bs : (length (pad5 bs) < 5)%nat /\ (length (bs ++ pad5 bs) mod 5 = 0)%nat.
Proof.
  unfold pad5. rewrite length_app, length_replicate.
  pose proof (Nat.mod_upper_bound (length bs) 5). split; [apply Nat.mod_upper_bound; lia|].
  rewrite Nat.Div0.add_mod_idemp_r, <- Nat.Div0.add_mod_idemp_l.
  by replace (length bs mod 5 + (5 - length bs mod 5))%nat with 5%nat by lia.
Qed.

Lemma Base32Encode_rfc input : bytes input -> Base32Encode input = encode32 input.
Proof.
  intros Hbs. unfold Base32Encode, encode32.
  destruct (takeBytes_spelled input emptyRegister (pad5 (bitsOf 8 input)) ltac:(done) Hbs) as (E & Hb & Hm).
  change (spelled emptyRegister ?x) with (map alphabetAt (bitGroups 5 x)) in E. cbv zeta in *. rewrite <- E.
  set (r := fold_left _ _ _) in *. unfold spelled, pad5. rewrite bitsOf_length.
  assert (Hn : Z.to_nat (bitsLeft r) = (8 * length input mod 5)%nat) 
    by (change (bitsLeft emptyRegister) with 0 in Hm; rewrite Z.mod_small, Z.add_0_l in Hm by done;
        apply Nat2Z.inj; rewrite Nat2Z.inj_mod, Nat2Z.inj_mul, Z2Nat.id by lia; exact Hm).
  rewrite <- Hn. destruct (Z.ltb_spec 0 (bitsLeft r)).
  - f_equal. rewrite Nat.mod_small by lia. rewrite <- (app_nil_r (_ ++ replicate _ _)), bitGroups_cons;
      [|lia|rewrite length_app, bits_length, length_replicate; lia].
    rewrite bitGroups_short by (simpl; lia). simpl map. do 2 f_equal.
    pose proof (shift_in (Z.to_nat (bitsLeft r)) (5 - Z.to_nat (bitsLeft r)) (buffer r) 0 ltac:(lia) ltac:(lia)) as Hs.
    rewrite Z.lor_0_r in Hs. replace (Z.of_nat (5 - Z.to_nat (bitsLeft r))) with (5 - bitsLeft r) in Hs by lia.
    replace (bits (5 - Z.to_nat (bitsLeft r)) 0) with (replicate (5 - Z.to_nat (bitsLeft r)) false) in Hs
      by (generalize (5 - Z.to_nat (bitsLeft r))%nat as k; induction k as [|k IH]; [done|]; unfold bits; fold bits; by rewrite <- IH, Z.bits_0).
    rewrite <- Hs. replace (Z.to_nat (bitsLeft r) + (5 - Z.to_nat (bitsLeft r)))%nat with 5%nat by lia.
    rewrite number2_bits. change 31 with (Z.ones 5). by rewrite land_mod.
  - replace (Z.to_nat (bitsLeft r)) with O by lia. by rewrite app_nil_r.
Qed.

(** Every digit's character is read back as the digit. *)
Lemma alphabet_digit v :
  0 <= v < 32 -> base32Skips (toLatin1 (alphabetAt v)) = false /\ base32Value (toLatin1 (alphabetAt v)) = Some v.
Proof.
  intros Hv. enough (Forall (fun v => base32Skips (toLatin1 (alphabetAt v)) = false /\
    base32Value (toLatin1 (alphabetAt v)) = Some v) (seqZ 0 32)) as H.
  - rewrite Forall_forall in H. apply H. by apply elem_of_seqZ.
  - vm_compute. repeat (constructor; [done|]). constructor.
Qed.

Lemma digitsOf_alphabet vs : Forall (fun v => 0 <= v < 32) vs -> digitsOf (map alphabetAt vs) = Some vs.
Proof.
  induction 1 as [|v vs Hv Hvs IH]; [done|]. simpl.
  destruct (alphabet_digit v Hv) as [-> ->]. simpl. by rewrite IH.
Qed.

Lemma Base32_roundtrip input : bytes input -> Base32Decode (Base32Encode input) = Some input.
Proof.
  intros Hbs. rewrite Base32Decode_rfc, Base32Encode_rfc by done. unfold encode32, decode32.
  rewrite digitsOf_alphabet by (apply (bitGroups_range 5); lia). cbn [mbind option_bind].
  destruct (pad5_spec (bitsOf 8 input)) as [Hp Hm]. rewrite bitsOf_groupsOf by (exact Hm || lia).
  rewrite bitGroups_bitsOf by (exact Hbs || lia). done.
Qed.

Lemma Base32Decode_bytes input key : Base32Decode input = Some key -> bytes key.
Proof.
  rewrite Base32Decode_rfc. unfold decode32. destruct (digitsOf input); intros [= <-].
  apply (bitGroups_range 8). lia.
Qed.

Lemma Base32Encode_not_nil input : bytes input -> input <> [] -> Base32Encode input <> [].
Proof. intros Hbs Hne E. apply Base32_roundtrip in Hbs. rewrite E in Hbs. vm_compute in Hbs. congruence. Qed.

Lemma NormalizeSecret_key secret :
  match Base32Decode secret with
  | Some (b :: key) => Base32Decode (NormalizeSecret secret) = Some (b :: key)
  | _ => NormalizeSecret secret = []
  end.
Proof.
  unfold NormalizeSecret. destruct (Base32Decode secret) as [[|b key]|] eqn:E; [done| |done].
  apply Base32_roundtrip. by eapply Base32Decode_bytes.
Qed.

(** C33: The codec of secrets is RFC 4648's: [Base32Decode] refuses a text
    with a foreign character and otherwise answers the complete octets of its
    digits' bits, case and separators ignored; [Base32Encode] spells the bits of
    the bytes, zero-padded to a whole digit; what is encoded is decoded back. *)
Theorem Base32_rfc4648 (input : qstring) (key : list Z) :
  bytes key ->
  Base32Decode input = decode32 input /\ Base32Encode key = encode32 key /\
  Base32Decode (Base32Encode key) = Some key.
Proof.
  intros Hkey. split_and!; [apply Base32Decode_rfc|by apply Base32Encode_rfc|by apply Base32_roundtrip].
Qed.

Lemma Base32_rfc4648_witness :
  bytes (u "Hello!") /\ Base32Decode (u "jbsw y3dp-ee==") = Some (u "Hello!") /\
  Base32Decode (Base32Encode (u "Hello!")) = Some (u "Hello!") /\ Base32Encode (u "Hello!") = u "JBSWY3DPEE".
Proof.
  assert (bytes (u "Hello!")) as H by (unfold bytes; simpl; repeat (constructor; [lia|]); constructor).
  destruct (Base32_rfc4648 (u "jbsw y3dp-ee==") (u "Hello!") H) as (E1 & E2 & E3).
  rewrite E1, E3, E2. by split_and!.
Defined.

(** Normalizing a usable secret keeps its key and gives one spelling
    per key: two secrets are normalized alike exactly when they stand for the
    same key, and a normalized secret is left alone; an unusable one gives
    nothing. *)
Theorem NormalizeSecret_canonical (s t : qstring) (b : Z) (key : list Z) :
  Base32Decode s = Some (b :: key) ->
  NormalizeSecret s <> [] /\ Base32Decode (NormalizeSecret s) = Some (b :: key) /\
  NormalizeSecret (NormalizeSecret s) = NormalizeSecret s /\
  (NormalizeSecret t = NormalizeSecret s <-> Base32Decode t = Some (b :: key)) /\
  (NormalizeSecret t = [] <-> Base32Decode t = None \/ Base32Decode t = Some []).
Proof.
  intros Hs. pose proof (NormalizeSecret_key s) as Hk. rewrite Hs in Hk.
  assert (E : NormalizeSecret s = Base32Encode (b :: key)) by (unfold NormalizeSecret; by rewrite Hs).
  assert (Hempty : forall x, NormalizeSecret x = [] <-> Base32Decode x = None \/ Base32Decode x = Some []).
  { intros x. unfold NormalizeSecret. destruct (Base32Decode x) as [[|c k]|] eqn:Ex; [tauto| |tauto].
    split; [|intros [?|?]; done]. intros En. destruct (Base32Encode_not_nil (c :: k)); [|done|done].
    by eapply Base32Decode_bytes. }
  split_and!; [|done| | |apply Hempty].
  - rewrite Hempty, Hs. by intros [?|?].
  - unfold NormalizeSecret at 1. by rewrite Hk, E.
  - split; intros Ht.
    + pose proof (NormalizeSecret_key t) as Hkt. rewrite Ht in Hkt.
      destruct (Base32Decode t) as [[|c k]|]; [rewrite Hkt in Hk; by vm_compute in Hk|congruence|rewrite Hkt in Hk; by vm_compute in Hk].
    + unfold NormalizeSecret at 1. by rewrite Ht, E.
Qed.

Lemma NormalizeSecret_canonical_witness :
  NormalizeSecret (u "jbsw y3dp ee======") = NormalizeSecret (u "JBSWY3DPEE").
Proof.
  eapply (NormalizeSecret_canonical (u "JBSWY3DPEE")); reflexivity.
Defined.
