(* ===== verification/OtpCodes.v ===== *)
(** * OtpCodes: one-time passwords

    include/global/OTP.hpp (Entry and its limits) and src/global/OTP.cpp,
    Validate, GenerateHOTP, GenerateCode and SecondsRemaining.  The keyed hash is
    Qt's ([QMessageAuthenticationCode::hash]), the class [Hmac], of which only
    the sizes of the digests are used ([HmacLaws]); the clock is an argument.
    An empty [QString] is [[]].

    [hotp] is the value RFC 4226 defines; [GenerateHOTP] is shown to print it
    ([GenerateHOTP_rfc4226]), and [GenerateCode] to show one code per period,
    ending when [SecondsRemaining] says ([GenerateCode_window]). *)

From S2P Require Import Prelude Text OtpBase32.

Inductive Algorithm := SHA1 | SHA256 | SHA512.

Inductive Type_ := TOTP | HOTP.

Definition DEFAULT_DIGITS : Z := 6.
Definition DEFAULT_PERIOD : Z := 30.
Definition MIN_DIGITS : Z := 4.
Definition MAX_DIGITS : Z := 10.
Definition MIN_PERIOD : Z := 1.
Definition MAX_PERIOD : Z := 3600.

Record Entry := {
  name : qstring; issuer : qstring; secret : qstring;
  algorithm : Algorithm; type : Type_;
  digits : Z; period : Z; counter : Z }.

(** [Entry entry;] *)
Definition newEntry : Entry :=
  {| name := []; issuer := []; secret := []; algorithm := SHA1; type := TOTP;
     digits := DEFAULT_DIGITS; period := DEFAULT_PERIOD; counter := 0 |}.

Definition etaEntry (r : Entry) : Entry :=
  {| name := name r; issuer := issuer r; secret := secret r; algorithm := algorithm r; type := type r;
     digits := digits r; period := period r; counter := counter r |}.

#[export] Instance set_name : Setter name := ltac:(setter etaEntry).
#[export] Instance set_issuer : Setter issuer := ltac:(setter etaEntry).
#[export] Instance set_secret : Setter secret := ltac:(setter etaEntry).
#[export] Instance set_algorithm : Setter algorithm := ltac:(setter etaEntry).
#[export] Instance set_type : Setter type := ltac:(setter etaEntry).
#[export] Instance set_digits : Setter digits := ltac:(setter etaEntry).
#[export] Instance set_period : Setter period := ltac:(setter etaEntry).
#[export] Instance set_counter : Setter counter := ltac:(setter etaEntry).

#[export] Instance Algorithm_eqdec : EqDecision Algorithm.
Proof. solve_decision. Defined.
#[export] Instance Type_eqdec : EqDecision Type_.
Proof. solve_decision. Defined.

#[export] Instance Entry_eqdec : EqDecision Entry.
Proof. solve_decision. Defined.

(** ** Validation *)

(** The reasons [Validate] gives. *)
Inductive Unusable := SecretEmpty | SecretNotBase32 | SecretTooShort | DigitsRange | PeriodRange.

Definition isEmpty (s : qstring) : bool := match s with [] => true | _ => false end.

(** [None]: usable. *)
Definition Validate `{QtText} (entry : Entry) : option Unusable :=
  if isEmpty (trimmed (secret entry)) then Some SecretEmpty
  else match Base32Decode (secret entry) with
       | None => Some SecretNotBase32
       | Some key =>
           if isEmpty key then Some SecretTooShort
           else if (digits entry <? MIN_DIGITS) || (MAX_DIGITS <? digits entry) then Some DigitsRange
           else if bool_decide (type entry = TOTP) && ((period entry <? MIN_PERIOD) || (MAX_PERIOD <? period entry))
           then Some PeriodRange
           else None
       end.

(** ** HOTP *)

(** [QMessageAuthenticationCode::hash(message, key, toHash(algorithm))] *)
Class Hmac := { hmac : Algorithm -> list Z -> list Z -> list Z }.

Definition digestSize (algorithm : Algorithm) : nat :=
  match algorithm with SHA1 => 20 | SHA256 => 32 | SHA512 => 64 end.

Class HmacLaws (M : Hmac) : Prop := {
  hmac_length : forall algorithm message key, length (hmac algorithm message key) = digestSize algorithm;
  hmac_bytes : forall algorithm message key, bytes (hmac algorithm message key) }.

(** The loop that fills the message from its last byte to its first; [i] bytes
    are still to be filled. *)
Fixpoint fillMessage (i : nat) (counter : Z) (message : list Z) : list Z :=
  match i with
  | O => message
  | S i => fillMessage i (Z.shiftr counter 8) (Z.land counter 255 :: message)
  end.

Definition byteAt (mac : list Z) (i : Z) : Z := nth (Z.to_nat i) mac 0.

(** RFC 4226 dynamic truncation. *)
Definition truncation (mac : list Z) : Z :=
  let offset := Z.land (byteAt mac (Z.of_nat (length mac) - 1)) 15 in
  Z.lor (Z.lor (Z.lor
    (u32 (Z.shiftl (Z.land (byteAt mac offset) 127) 24))
    (u32 (Z.shiftl (byteAt mac (offset + 1)) 16)))
    (u32 (Z.shiftl (byteAt mac (offset + 2)) 8)))
    (byteAt mac (offset + 3)).

(** [for (int i = 0; i < digits; ++i) modulus *= 10;] in 64 bits. *)
Definition modulusOf (digits : Z) : Z := Nat.iter (Z.to_nat digits) (fun m => u64 (m * 10)) 1.

(** [QString("%1").arg(n, width, 10, QLatin1Char('0'))] for [n >= 0]. *)
Definition argPadded (n width : Z) : qstring :=
  let s := number 10 n in replicate (Z.to_nat width - length s) 48 ++ s.

Definition GenerateHOTP `{Hmac} (key : list Z) (counter : Z) (algorithm : Algorithm) (digits : Z) : qstring :=
  if isEmpty key || (digits <? MIN_DIGITS) || (MAX_DIGITS <? digits) then []
  else
    let mac := hmac algorithm (fillMessage 8 counter []) key in
    if Z.of_nat (length mac) <? 20 then []
    else argPadded (truncation mac mod modulusOf digits) digits.

(** ** Codes *)

Definition nowOf (clock unixTime : Z) : Z := if unixTime <? 0 then clock else unixTime.

Definition GenerateCode `{QtText} `{Hmac} (clock : Z) (entry : Entry) (unixTime : Z) : qstring :=
  match Validate entry with
  | Some _ => []
  | None =>
      let key := default [] (Base32Decode (secret entry)) in
      match type entry with
      | HOTP => GenerateHOTP key (u64 (counter entry)) (algorithm entry) (digits entry)
      | TOTP => GenerateHOTP key (u64 (Z.quot (nowOf clock unixTime) (period entry))) (algorithm entry) (digits entry)
      end
  end.

Definition SecondsRemaining (clock : Z) (entry : Entry) (unixTime : Z) : Z :=
  if bool_decide (type entry = HOTP) || (period entry <? MIN_PERIOD) then 0
  else period entry - Z.rem (nowOf clock unixTime) (period entry).

(** ** The reference *)

(** RFC 4226, section 5.3: the 31-bit number at the offset the last digest byte
    names. *)
Definition hotp (mac : list Z) : Z :=
  value 256 (take 4 (drop (Z.to_nat (List.last mac 0 mod 16)) mac)) mod 2 ^ 31.

(** The eight bytes of a counter, most significant first. *)
Definition counterBytes (counter : Z) : list Z := fillMessage 8 counter [].

(** A text of decimal digits and the number it spells. *)
Definition decimal (s : qstring) : Prop := Forall (fun c => 48 <= c <= 57) s.

Definition spells (s : qstring) : Z := value 10 (map (fun c => c - 48) s).

(** ** Facts *)

Lemma value_app b x y : value b (x ++ y) = value b x * b ^ Z.of_nat (length y) + value b y.
Proof.
  induction y as [|d y IH] using rev_ind; [rewrite app_nil_r; unfold value at 3; simpl; lia|].
  rewrite app_assoc, !value_snoc, IH, length_app, Nat2Z.inj_add, Z.pow_add_r by lia. simpl. lia.
Qed.

Lemma fillMessage_value i counter message :
  value 256 (fillMessage i counter message) =
  counter mod 256 ^ Z.of_nat i * 256 ^ Z.of_nat (length message) + value 256 message /\
  length (fillMessage i counter message) = (i + length message)%nat /\
  (bytes message -> bytes (fillMessage i counter message)).
Proof.
  revert counter message. induction i as [|i IH]; intros counter message.
  - cbn [fillMessage]. rewrite Z.mod_1_r. split_and!; [lia|done|done].
  - cbn [fillMessage]. destruct (IH (Z.shiftr counter 8) (Z.land counter 255 :: message)) as (-> & -> & Hb).
    rewrite land_255 in *. split_and!; [|simpl; lia|].
    + change (counter mod 256 :: message) with ([counter mod 256] ++ message).
      rewrite (value_app 256 [counter mod 256] message), length_app. cbn [length Nat.add].
      rewrite Z.shiftr_div_pow2, !Nat2Z.inj_succ, !Z.pow_succ_r, Z.rem_mul_r by lia. change (2 ^ 8) with 256.
      unfold value at 1. simpl. lia.
    + intros Hm. apply Hb. constructor; [apply Z.mod_pos_bound; lia|done].
Qed.

(** Bytes shifted into place and or-ed together are their number. *)
Lemma or_bytes a b c d :
  0 <= a < 256 -> 0 <= b < 256 -> 0 <= c < 256 -> 0 <= d < 256 ->
  Z.lor (Z.lor (Z.lor (u32 (Z.shiftl (Z.land a 127) 24)) (u32 (Z.shiftl b 16))) (u32 (Z.shiftl c 8))) d =
  value 256 [a; b; c; d] mod 2 ^ 31.
Proof.
  intros Ha Hb Hc Hd. change 127 with (Z.ones 7). rewrite Z.land_ones by lia.
  assert (0 <= a mod 2 ^ 7 < 2 ^ 7) by (apply Z.mod_pos_bound; lia).
  rewrite !wrap_small by (rewrite Z.shiftl_mul_pow2; lia).
  rewrite <- !Z.lor_assoc, (lor_disjoint c) by lia.
  rewrite (lor_disjoint b) by lia. rewrite lor_disjoint by lia.
  pose proof (Z.div_mod a (2 ^ 7) ltac:(lia)) as Ea. set (q := a / 2 ^ 7) in *. set (r := a mod 2 ^ 7) in *.
  change (value 256 [a; b; c; d]) with ((((0 * 256 + a) * 256 + b) * 256 + c) * 256 + d).
  apply Z.mod_unique with q; lia.
Qed.

Lemma truncation_hotp mac : bytes mac -> (20 <= length mac)%nat -> truncation mac = hotp mac.
Proof.
  intros Hm Hlen. unfold truncation, hotp, byteAt.
  assert (Hbyte : forall i, 0 <= nth i mac 0 < 256).
  { intros i. destruct (nth_in_or_default i mac 0) as [Hin| ->]; [|lia].
    rewrite <- list_elem_of_In in Hin. unfold bytes in Hm. rewrite Forall_forall in Hm. by apply Hm. }
  replace (nth (Z.to_nat (Z.of_nat (length mac) - 1)) mac 0) with (List.last mac 0).
  2:{ destruct mac as [|x mac _] using rev_ind; [simpl in Hlen; lia|]. rewrite last_last.
      rewrite length_app. simpl. rewrite app_nth2 by lia. by replace (_ - _)%nat with O by lia. }
  change 15 with (Z.ones 4). rewrite Z.land_ones by lia. change (2 ^ 4) with 16.
  pose proof (Z.mod_pos_bound (List.last mac 0) 16). set (o := List.last mac 0 mod 16) in *. clearbody o.
  rewrite or_bytes by apply Hbyte. do 2 f_equal. set (k := Z.to_nat o).
  replace (Z.to_nat (o + 1)) with (k + 1)%nat by lia. replace (Z.to_nat (o + 2)) with (k + 2)%nat by lia.
  replace (Z.to_nat (o + 3)) with (k + 3)%nat by lia. assert (Hk : (k + 4 <= length mac)%nat) by lia. clearbody k.
  assert (Hnth : forall i, nth (k + i) mac 0 = nth i (drop k mac) 0) by (intros i; symmetry; apply nth_skipn).
  rewrite !Hnth. replace (nth k mac 0) with (nth 0 (drop k mac) 0) by (rewrite <- Hnth; f_equal; lia).
  assert (Hd : (4 <= length (drop k mac))%nat) by (rewrite length_drop; lia).
  by destruct (drop k mac) as [|? [|? [|? [|? ?]]]]; simpl in Hd; try lia.
Qed.

Lemma modulusOf_pow digits : 0 <= digits <= 10 -> modulusOf digits = 10 ^ digits.
Proof.
  intros Hd. assert (forallb (fun d => modulusOf d =? 10 ^ d) (map Z.of_nat (seq 0 11)) = true) as H by reflexivity.
  rewrite forallb_forall in H. apply Z.eqb_eq, H, in_map_iff. exists (Z.to_nat digits). split; [lia|].
  apply in_seq. lia.
Qed.

Lemma spells_number n : 0 <= n -> spells (number 10 n) = n.
Proof.
  intros Hn. unfold spells. rewrite number_nonneg by done. rewrite <- (value_digs 10 ltac:(lia) n Hn) at 2.
  f_equal. rewrite map_map. pose proof (digs_range 10 ltac:(lia) n Hn) as H. induction H as [|d ds Hd H IH]; [done|].
  simpl. rewrite IH, digit_decimal by done. f_equal. lia.
Qed.

Lemma argPadded_spec n width :
  1 <= width -> 0 <= n < 10 ^ width ->
  Z.of_nat (length (argPadded n width)) = width /\ decimal (argPadded n width) /\ spells (argPadded n width) = n.
Proof.
  intros Hw Hn. pose proof (number_length 10 n width ltac:(lia) Hw Hn). unfold argPadded.
  rewrite length_app, length_replicate. split_and!; [lia| |].
  - apply Forall_app. split; [apply Forall_replicate; lia|]. apply number_decimal_chars. lia.
  - rewrite <- (spells_number n) at 3 by lia. unfold spells. rewrite map_app, value_app.
    replace (value 10 (map _ (replicate _ 48))) with 0; [lia|].
    generalize (Z.to_nat width - length (number 10 n))%nat as k. induction k as [|k IH]; [done|].
    rewrite replicate_S_end, map_app, value_app, <- IH. done.
Qed.

Section Codes.
Context {Q : QtText} {M : Hmac} {L : HmacLaws M}.

Lemma GenerateHOTP_code key counter algorithm digits :
  key <> [] -> MIN_DIGITS <= digits <= MAX_DIGITS ->
  let code := GenerateHOTP key counter algorithm digits in
  Z.of_nat (length code) = digits /\ decimal code /\
  spells code = hotp (hmac algorithm (counterBytes counter) key) mod 10 ^ digits.
Proof.
  unfold GenerateHOTP, MIN_DIGITS, MAX_DIGITS. fold (counterBytes counter). intros Hk Hd.
  destruct key as [|b key]; [done|]. cbn [isEmpty orb]. cbv zeta. set (mac := hmac _ _ _).
  assert (20 <= length mac)%nat by (unfold mac; rewrite hmac_length; destruct algorithm; simpl; lia).
  replace (digits <? 4) with false by lia. replace (10 <? digits) with false by lia.
  replace (Z.of_nat (length mac) <? 20) with false by lia. cbn [orb].
  rewrite truncation_hotp, modulusOf_pow by (done || lia || apply hmac_bytes).
  apply argPadded_spec; [lia|]. apply Z.mod_pos_bound. lia.
Qed.

(** C37: For a usable key and digit count a code is RFC 4226's: the keyed
    hash of the counter's eight big-endian bytes, cut to the 31 bits its last
    byte points at, reduced to the digits asked for and printed with exactly
    that many; for any other key or digit count it is empty. *)
Theorem GenerateHOTP_rfc4226 (key : list Z) (counter : Z) (algorithm : Algorithm) (digits : Z) :
  0 <= counter < 2 ^ 64 ->
  let code := GenerateHOTP key counter algorithm digits in
  length (counterBytes counter) = 8%nat /\ bytes (counterBytes counter) /\ value 256 (counterBytes counter) = counter /\
  (key <> [] -> MIN_DIGITS <= digits <= MAX_DIGITS ->
   Z.of_nat (length code) = digits /\ decimal code /\
   spells code = hotp (hmac algorithm (counterBytes counter) key) mod 10 ^ digits) /\
  (code = [] <-> key = [] \/ ~ MIN_DIGITS <= digits <= MAX_DIGITS).
Proof.
  intros Hc code. destruct (fillMessage_value 8 counter []) as (Hv & Hl & Hb).
  change (256 ^ Z.of_nat 8) with (2 ^ 64) in Hv. rewrite Z.mod_small in Hv by done.
  split_and!; [exact Hl|apply Hb; constructor|unfold counterBytes; rewrite Hv; unfold value; simpl; lia|by apply GenerateHOTP_code|].
  unfold MIN_DIGITS, MAX_DIGITS in *. split.
  - intros Hcode. destruct key as [|b key]; [by left|]. right. intros Hd. destruct (GenerateHOTP_code (b :: key) counter algorithm digits) as [Hlen _]; [done..|].
    fold code in Hlen. rewrite Hcode in Hlen. simpl in Hlen. lia.
  - unfold code, GenerateHOTP, MIN_DIGITS, MAX_DIGITS. intros [->|Hd]; [done|].
    by replace (isEmpty key || (digits <? 4) || (10 <? digits)) with true by lia.
Qed.

(** A usable time-based entry shows one code per period.  Its code is
    the HOTP code of the number of periods since the epoch;
    [SecondsRemaining] is between one second and the period, the code stays for
    that long and the next period starts right then.  An entry shows no code
    exactly when it is not usable. *)
Theorem GenerateCode_window (clock : Z) (entry : Entry) (t : Z) :
  Validate entry = None -> type entry = TOTP -> 0 <= t < 2 ^ 63 ->
  let left := SecondsRemaining clock entry t in
  1 <= left <= period entry /\
  (t + left) / period entry = t / period entry + 1 /\
  (forall t', t - (period entry - left) <= t' < t + left -> GenerateCode clock entry t' = GenerateCode clock entry t) /\
  GenerateCode clock entry t =
    GenerateHOTP (default [] (Base32Decode (secret entry))) (t / period entry) (algorithm entry) (digits entry) /\
  Z.of_nat (length (GenerateCode clock entry t)) = digits entry.
Proof.
  intros Hval Ht Hr.
  assert (Hp : 1 <= period entry /\ MIN_DIGITS <= digits entry <= MAX_DIGITS /\
               exists b key, Base32Decode (secret entry) = Some (b :: key)).
  { revert Hval. unfold Validate, MIN_DIGITS, MAX_DIGITS, MIN_PERIOD. rewrite (bool_decide_true (type entry = TOTP)) by done.
    destruct (isEmpty _); [done|]. destruct (Base32Decode _) as [[|b key]|]; [done| |done]. cbn [isEmpty].
    case_ifs; try done. intros _. bool_to_prop. split_and!; [lia..|by exists b, key]. }
  destruct Hp as (Hp & Hd & b & key & Hkey). set (p := period entry) in *.
  assert (Hcode : forall t', 0 <= t' < 2 ^ 63 -> GenerateCode clock entry t' =
    GenerateHOTP (b :: key) (t' / p) (algorithm entry) (digits entry)).
  { intros t' Ht'. unfold GenerateCode, nowOf. rewrite Hval, Ht, Hkey. replace (t' <? 0) with false by lia.
    cbn [default]. fold p. rewrite Z.quot_div_nonneg by lia. rewrite wrap_small; [done|].
    split; [apply Z.div_pos; lia|]. apply Z.le_lt_trans with t'; [apply Z.div_le_upper_bound; nia|lia]. }
  unfold SecondsRemaining, nowOf, MIN_PERIOD. fold p. rewrite bool_decide_false by congruence.
  replace (t <? 0) with false by lia. replace (p <? 1) with false by lia. cbn [orb].
  rewrite Z.rem_mod_nonneg by lia. pose proof (Z.mod_pos_bound t p ltac:(lia)). pose proof (Z.div_mod t p ltac:(lia)) as Et.
  cbv zeta. set (r := t mod p) in *. set (k := t / p) in *. rewrite Hkey. cbn [default].
  split_and!; [lia|lia| | |by apply Hcode|].
  - symmetry. apply Z.div_unique with 0; lia.
  - intros t' Ht'. assert (0 <= p * k) by (apply Z.mul_nonneg_nonneg; [lia|apply Z.div_pos; lia]).
    assert (Hk : t' / p = k) by (symmetry; apply Z.div_unique with (t' - p * k); lia).
    destruct (Z_lt_le_dec t' (2 ^ 63)) as [Hlt|Hge]; [by rewrite !Hcode, Hk by lia|].
    unfold GenerateCode, nowOf. rewrite Hval, Ht. replace (t' <? 0) with false by lia. replace (t <? 0) with false by lia.
    fold p. by rewrite !Z.quot_div_nonneg, Hk by lia.
  - rewrite Hcode by lia. by apply GenerateHOTP_code.
Qed.
End Codes.

(** A keyed hash of the right sizes, for concrete evaluations: the message, then
    the key, then zeros. *)
#[export] Instance toyHmac : Hmac := {|
  hmac algorithm message key :=
    take (digestSize algorithm) (map (fun b => b mod 256) (message ++ key) ++ replicate 64 0) |}.

#[export] Instance toyHmacLaws : HmacLaws toyHmac.
Proof.
  split; intros algorithm message key; cbn [hmac toyHmac].
  - rewrite length_take, length_app, length_replicate. destruct algorithm; cbn [digestSize]; lia.
  - apply Forall_take, Forall_app. split; [|apply Forall_replicate; lia].
    apply Forall_map, Forall_true. intros b. apply Z.mod_pos_bound. lia.
Qed.

Definition sampleEntry : Entry := newEntry <| secret := u "JBSWY3DPEE" |>.

Lemma GenerateHOTP_rfc4226_witness :
  (u "Hello!") <> [] /\ GenerateHOTP (u "Hello!") 5 SHA1 6 = u "000000" /\
  spells (GenerateHOTP (u "Hello!") 5 SHA1 6) = hotp (hmac SHA1 (counterBytes 5) (u "Hello!")) mod 10 ^ 6.
Proof.
  split_and!; [done|reflexivity|].
  eapply (GenerateHOTP_rfc4226 (u "Hello!") 5 SHA1 6); [lia|done|unfold MIN_DIGITS, MAX_DIGITS; lia].
Defined.

Lemma GenerateCode_window_witness :
  SecondsRemaining 0 sampleEntry 59 = 1 /\
  GenerateCode 0 sampleEntry 30 = GenerateCode 0 sampleEntry 59.
Proof.
  split; [reflexivity|].
  destruct (GenerateCode_window 0 sampleEntry 59) as (_ & _ & Hwindow & _); [reflexivity|reflexivity|lia|].
  apply Hwindow. change (SecondsRemaining 0 sampleEntry 59) with 1. change (period sampleEntry) with 30. lia.
Defined.
