(* ===== verification/OtpLinks.v ===== *)
(** * OtpLinks: reading and writing one-time-password entries

    src/global/OTP.cpp: the spelled names of algorithms and types, the problems
    reported to the user, otpauth:// links (ExportToLink, ParseFromLink), the
    JSON form of an entry, and ParseAny for pasted text.

    What Qt provides is a class with its documented behaviour: case mapping
    ([QtCase]), [QString::toLongLong] ([QtNumber]) and [QUrl]/[QUrlQuery]
    ([QtUrl]), which split a link into fully decoded components.  A translated
    message is the constructor of [Problem] with the arguments put into it;
    [tr] is the translator. *)

From S2P Require Import Prelude Text Json OtpBase32 OtpCodes.

(** ** Qt *)

Class QtCase := { toUpperCase : qstring -> qstring; toLowerCase : qstring -> qstring }.

Definition ascii (s : qstring) : Prop := Forall (fun c => 0 <= c < 128) s.

Class QtCaseLaws (C : QtCase) : Prop := {
  toUpperCase_ascii s : ascii s -> toUpperCase s = map (fun c => if (97 <=? c) && (c <=? 122) then c - 32 else c) s;
  toLowerCase_ascii s : ascii s -> toLowerCase s = map (fun c => if (65 <=? c) && (c <=? 90) then c + 32 else c) s }.

(** [QString::toLongLong(&ok)]; [None] when [ok] is false. *)
Class QtNumber := { textToLongLong : qstring -> option Z }.

Class QtNumberLaws (N : QtNumber) : Prop := {
  textToLongLong_number z : i64 z -> textToLongLong (number 10 z) = Some z }.

(** [QString::toInt(&ok)]: the same, in the range of [int]. *)
Definition textToInt `{QtNumber} (s : qstring) : option Z :=
  match textToLongLong s with
  | Some z => if (- 2 ^ 31 <=? z) && (z <? 2 ^ 31) then Some z else None
  | None => None
  end.

(** A URL and its query, fully decoded. *)
Record Url := { scheme : qstring; host : qstring; path : qstring; query : list (qstring * qstring) }.

(** [parseUrl] is [QUrl(text)] with [isValid]; [formatUrl] is
    [toString(QUrl::FullyEncoded)] of a URL put together with the setters. *)
Class QtUrl := { parseUrl : qstring -> option Url; formatUrl : Url -> qstring }.

(** Printable ASCII, without the percent sign: [addQueryItem] takes a percent
    sign in a value for an encoded character. *)
Definition plain (s : qstring) : Prop := Forall (fun c => 32 <= c < 127 /\ c <> 37) s.

(** A scheme or a host: lower-case letters and dashes. *)
Definition lowerName (s : qstring) : Prop := s <> [] /\ Forall (fun c => 97 <= c <= 122 \/ c = 45) s.

Definition plainUrl (url : Url) : Prop :=
  lowerName (scheme url) /\ lowerName (host url) /\
  (path url = [] \/ head (path url) = Some 47) /\ plain (path url) /\
  NoDup (map fst (query url)) /\ Forall (fun item => plain item.1 /\ item.1 <> [] /\ plain item.2) (query url).

Class QtUrlLaws (U : QtUrl) : Prop := {
  parseUrl_empty : parseUrl [] = None;
  parse_formatUrl url : plainUrl url -> parseUrl (formatUrl url) = Some url;
  formatUrl_scheme url : plainUrl url -> exists rest, formatUrl url = scheme url ++ u "://" ++ rest;
  formatUrl_visible url : plainUrl url -> Forall (fun c => 33 <= c < 127) (formatUrl url) }.

(** [hasQueryItem] and [queryItemValue(key, FullyDecoded)]: the first item. *)
Fixpoint itemOf (items : list (qstring * qstring)) (key : qstring) : option qstring :=
  match items with
  | [] => None
  | (k, v) :: items => if decide (k = key) then Some v else itemOf items key
  end.

Definition queryItemValue (url : Url) (key : string) : qstring := default [] (itemOf (query url) (u key)).

(** [QJsonDocument]'s text of a value that is not a string. *)
Class QtJsonText := { numberText : json -> qstring; compactText : json -> qstring }.

(** [QCoreApplication::translate]. *)
Class Translator := { tr : string -> qstring }.

(** ** Problems *)

(** The messages of the anonymous namespace and of [ParseAny], with the texts
    put into them. *)
Inductive Problem :=
  | BadAlgorithm (label value : qstring)
  | BadDigits (label value : qstring)
  | BadPeriod (label value : qstring)
  | BadCounter (label value : qstring)
  | BadType (label value : qstring)
  | NoSecret (label : qstring)
  | BadSecret (label : qstring)
  | BadDigitsCode (label value : qstring)
  | NotAnEntry
  | NotAnExport
  | UnreadableMigration
  | UnreadableLink
  | ShortSecret (characters : Z)
  | NotBase32Line
  | NotALine (start : qstring).

Definition otpEntryLabel `{Translator} (entry : Entry) : qstring :=
  if negb (isEmpty (name entry)) then name entry
  else if negb (isEmpty (issuer entry)) then issuer entry
  else tr "Unnamed entry".

(** [if (!value) return fail(problem);] *)
Definition orFail {A B} (value : option A) (problem : Problem) (k : A -> Problem + B) : Problem + B :=
  match value with Some a => k a | None => inl problem end.

Notation "'let!' x := v 'orfail' p 'in' k" := (orFail v p (fun x => k))
  (at level 10, x binder, v at level 100, p at level 100, k at level 200).

Definition guard (b : bool) : option unit := if b then Some tt else None.

#[export] Instance Problem_eqdec : EqDecision Problem.
Proof. solve_decision. Defined.

(** ** Names *)

Definition AlgorithmToString (algorithm : Algorithm) : qstring :=
  match algorithm with SHA256 => u "SHA256" | SHA512 => u "SHA512" | SHA1 => u "SHA1" end.

(** [None] when [ok] is false. *)
Definition AlgorithmFromString `{QtText} `{QtCase} (s : qstring) : option Algorithm :=
  let normalized := filter (fun c => c <> 45) (toUpperCase (trimmed s)) in
  if decide (normalized = u "SHA256") then Some SHA256
  else if decide (normalized = u "SHA512") then Some SHA512
  else if bool_decide (normalized = u "SHA1") || isEmpty normalized then Some SHA1
  else None.

Definition TypeToString (type : Type_) : qstring :=
  match type with HOTP => u "hotp" | TOTP => u "totp" end.

Definition TypeFromString `{QtText} `{QtCase} (s : qstring) : option Type_ :=
  let normalized := toLowerCase (trimmed s) in
  if decide (normalized = u "hotp") then Some HOTP
  else if bool_decide (normalized = u "totp") || isEmpty normalized then Some TOTP
  else None.

(** ** Links *)

Definition ExportToLink `{QtUrl} (entry : Entry) : qstring :=
  formatUrl {|
    scheme := u "otpauth"; host := TypeToString (type entry);
    path := 47 :: (if isEmpty (issuer entry) then name entry else issuer entry ++ 58 :: name entry);
    query :=
      [(u "secret", secret entry)] ++
      (if isEmpty (issuer entry) then [] else [(u "issuer", issuer entry)]) ++
      [(u "algorithm", AlgorithmToString (algorithm entry)); (u "digits", number 10 (digits entry));
       match type entry with
       | HOTP => (u "counter", number 10 (counter entry))
       | TOTP => (u "period", number 10 (period entry))
       end] |}.

(** [false] without a problem, [false] with one, or the entry. *)
Inductive LinkResult := NotALink | Refused (problem : Problem) | Parsed (entry : Entry).

(** The label of a link, and the issuer of its query over the label's. *)
Definition labelOf `{QtText} (url : Url) : Entry :=
  let label := match path url with 47 :: label => label | label => label end in
  let entry :=
    match indexOfChar 58 label with
    | Some sep => newEntry <| issuer := trimmed (take sep label) |> <| name := trimmed (drop (S sep) label) |>
    | None => newEntry <| name := trimmed label |>
    end in
  let issuerItem := trimmed (queryItemValue url "issuer") in
  let entry := if isEmpty issuerItem then entry else entry <| issuer := issuerItem |> in
  if isEmpty (name entry) then entry <| name := issuer entry |> else entry.

Section Read.
Context `{QtText} `{QtCase} `{QtNumber} `{Translator}.

(** The optional items: absent ones leave the entry as it is. *)
Definition readAlgorithm (url : Url) (entry : Entry) : Problem + Entry :=
  match itemOf (query url) (u "algorithm") with
  | None => inr entry
  | Some value =>
      let! a := AlgorithmFromString value orfail BadAlgorithm (otpEntryLabel entry) value in
      inr (entry <| algorithm := a |>)
  end.

Definition readDigits (url : Url) (entry : Entry) : Problem + Entry :=
  match itemOf (query url) (u "digits") with
  | None => inr entry
  | Some value =>
      let value := trimmed value in
      let! d := textToInt value orfail BadDigits (otpEntryLabel entry) value in
      let! _ := guard ((MIN_DIGITS <=? d) && (d <=? MAX_DIGITS)) orfail BadDigits (otpEntryLabel entry) value in
      inr (entry <| digits := d |>)
  end.

Definition readPeriod (url : Url) (entry : Entry) : Problem + Entry :=
  match type entry, itemOf (query url) (u "period") with
  | TOTP, Some value =>
      let value := trimmed value in
      let! p := textToInt value orfail BadPeriod (otpEntryLabel entry) value in
      let! _ := guard ((MIN_PERIOD <=? p) && (p <=? MAX_PERIOD)) orfail BadPeriod (otpEntryLabel entry) value in
      inr (entry <| period := p |>)
  | _, _ => inr entry
  end.

Definition readCounter (url : Url) (entry : Entry) : Problem + Entry :=
  match type entry, itemOf (query url) (u "counter") with
  | HOTP, Some value =>
      let value := trimmed value in
      let! c := textToLongLong value orfail BadCounter (otpEntryLabel entry) value in
      let! _ := guard (0 <=? c) orfail BadCounter (otpEntryLabel entry) value in
      inr (entry <| counter := c |>)
  | _, _ => inr entry
  end.

Definition andThen (r : Problem + Entry) (k : Entry -> Problem + Entry) : Problem + Entry :=
  match r with inl p => inl p | inr e => k e end.

Definition readUrl (url : Url) : Problem + Entry :=
  let entry := labelOf url in
  let! t := TypeFromString (host url) orfail BadType (otpEntryLabel entry) (host url) in
  let entry := entry <| type := t |> in
  let value := queryItemValue url "secret" in
  let! _ := guard (negb (isEmpty (trimmed value))) orfail NoSecret (otpEntryLabel entry) in
  let entry := entry <| secret := NormalizeSecret value |> in
  let! _ := guard (negb (isEmpty (secret entry))) orfail BadSecret (otpEntryLabel entry) in
  andThen (readAlgorithm url entry) (fun entry =>
  andThen (readDigits url entry) (fun entry =>
  andThen (readPeriod url entry) (readCounter url))).

Definition ParseFromLink `{QtUrl} (link : qstring) : LinkResult :=
  match parseUrl (trimmed link) with
  | Some url =>
      if equalsCI (scheme url) (u "otpauth") then
        match readUrl url with inl problem => Refused problem | inr entry => Parsed entry end
      else NotALink
  | None => NotALink
  end.

(** ** JSON *)

(** A number or a numeric string; the number is read through [double], and the
    cast back is not defined outside [qint64]. *)
Definition otpJsonInteger (value : json) : option Z :=
  match value with
  | JString s => textToLongLong (trimmed s)
  | JNum z false => let z := doubleOf z in if (- 2 ^ 63 <=? z) && (z <? 2 ^ 63) then Some z else None
  | _ => None
  end.

Definition otpJsonText `{QtJsonText} (value : json) : qstring :=
  match value with
  | JString s => s
  | JNum _ _ => numberText value
  | _ => take 40 (compactText value)
  end.

(** [if (object.contains(key)) ...]: an integer member within its limits. *)
Definition readMember `{QtJsonText} (object : jobject) (key : string) (lo : Z) (hi : option Z)
    (bad : qstring -> Problem) (entry : Entry) (k : Z -> Entry) : Problem + Entry :=
  match object !! key with
  | None => inr entry
  | Some value =>
      let! z := otpJsonInteger value orfail bad (otpJsonText value) in
      let! _ := guard ((lo <=? z) && match hi with Some h => z <=? h | None => true end) orfail bad (otpJsonText value) in
      inr (k z)
  end.

Definition entryFromJsonObject `{QtJsonText} (object : jobject) : Problem + Entry :=
  let entry := newEntry <| name := toQString (field object "name") [] |>
                        <| issuer := toQString (field object "issuer") [] |> in
  let value := toQString (field object "secret") [] in
  let! _ := guard (negb (isEmpty (trimmed value))) orfail NoSecret (otpEntryLabel entry) in
  let entry := entry <| secret := NormalizeSecret value |> in
  let! _ := guard (negb (isEmpty (secret entry))) orfail BadSecret (otpEntryLabel entry) in
  let value := toQString (field object "algorithm") [] in
  let! a := AlgorithmFromString value orfail BadAlgorithm (otpEntryLabel entry) value in
  let entry := entry <| algorithm := a |> in
  let value := toQString (field object "type") [] in
  let! t := TypeFromString value orfail BadType (otpEntryLabel entry) value in
  let entry := entry <| type := t |> in
  andThen (readMember object "digits" MIN_DIGITS (Some MAX_DIGITS) (BadDigits (otpEntryLabel entry)) entry
             (fun z => entry <| digits := z |>)) (fun entry =>
  match type entry with
  | TOTP => readMember object "period" MIN_PERIOD (Some MAX_PERIOD) (BadPeriod (otpEntryLabel entry)) entry
              (fun z => entry <| period := z |>)
  | HOTP => readMember object "counter" 0 None (BadCounter (otpEntryLabel entry)) entry
              (fun z => entry <| counter := z |>)
  end).

(** One item of the array of [ParseFromJson]: an entry, or a problem. *)
Definition parseItem `{QtJsonText} (acc : list Entry * list Problem) (value : json) : list Entry * list Problem :=
  match value with
  | JObject object =>
      match entryFromJsonObject object with
      | inl problem => (acc.1, acc.2 ++ [problem])
      | inr entry => (acc.1 ++ [entry], acc.2)
      end
  | _ => (acc.1, acc.2 ++ [NotAnEntry])
  end.

Definition parseItems `{QtJsonText} (items : list json) : list Entry * list Problem :=
  fold_left parseItem items ([], []).
End Read.

Definition entryToJsonObject (entry : Entry) : jobject :=
  let object := <["name" := JString (name entry)]> ∅ in
  let object := putIf (negb (isEmpty (issuer entry))) "issuer" (JString (issuer entry)) object in
  let object := <["digits" := jint (digits entry)]> (<["type" := JString (TypeToString (type entry))]>
    (<["algorithm" := JString (AlgorithmToString (algorithm entry))]>
    (<["secret" := JString (secret entry)]> object))) in
  match type entry with
  | TOTP => <["period" := jint (period entry)]> object
  | HOTP => <["counter" := jint (counter entry)]> object
  end.
