(* ===== verification/OtpLinksProps.v ===== *)
(** * OtpLinksProps: what survives a link, a JSON record or a paste

    The round trips of OtpLinks: an otpauth:// link gives back the entry it was
    written from exactly when its label can be split again
    ([ParseFromLink_ExportToLink]), and the JSON record gives back every usable
    entry ([entry_json_roundtrip]). *)

From S2P Require Import Prelude Text Json OtpBase32 OtpCodes OtpLinks.

(** ** Trimming *)

Section Trimming.
Context `{QtText}.

Definition visible (s : qstring) : Prop := Forall (fun c => isSpace c = false) s.

Lemma filter_rev (P : Z -> Prop) `{!forall x, Decision (P x)} (s : qstring) : filter P (rev s) = rev (filter P s).
Proof.
  induction s as [|x s IH]; [done|]. simpl. rewrite filter_app, IH, !filter_cons. case_decide; [done|].
  by rewrite app_nil_r.
Qed.

Lemma trimmed_visible s : visible s -> trimmed s = s.
Proof. apply trimmed_no_space. Qed.

Lemma dropWhile_keeps c s : isSpace c = false -> filter (fun x => x = c) (dropWhile isSpace s) = filter (fun x => x = c) s.
Proof.
  intros Hc. induction s as [|x s IH]; [done|]. simpl. destruct (isSpace x) eqn:E; [|done].
  rewrite IH, (filter_cons_False _ x) by congruence. done.
Qed.

(** Trimming loses no visible character. *)
Lemma trimmed_count c s : isSpace c = false -> count (trimmed s) c = count s c.
Proof.
  intros Hc. unfold count, trimmed, dropWhileEnd. rewrite <- (dropWhile_keeps c s) by done.
  generalize (dropWhile isSpace s) as t. intros t.
  rewrite !filter_rev, length_rev, dropWhile_keeps, filter_rev by done. apply length_rev.
Qed.

End Trimming.

(** ** Plain texts *)

Lemma plain_app s t : plain s -> plain t -> plain (s ++ t).
Proof. apply Forall_app_2. Qed.

Lemma number_plain n : 0 <= n -> plain (number 10 n).
Proof. intros Hn. eapply Forall_impl; [by apply number_decimal_chars|]. simpl. lia. Qed.

(** The spelling of a key is visible, plain text. *)
Lemma NormalizeSecret_chars s : Forall (fun c => 50 <= c <= 55 \/ 65 <= c <= 90) (NormalizeSecret s).
Proof.
  unfold NormalizeSecret. destruct (Base32Decode s) as [[|b key]|] eqn:E; [constructor| |constructor].
  rewrite Base32Encode_rfc by (by eapply Base32Decode_bytes). unfold encode32. apply Forall_map.
  eapply Forall_impl; [apply (bitGroups_range 5); lia|]. simpl. intros v Hv.
  assert (forallb (fun v => let c := alphabetAt v in (50 <=? c) && (c <=? 55) || (65 <=? c) && (c <=? 90))
            (map Z.of_nat (seq 0 32)) = true) as Ha by reflexivity.
  rewrite forallb_forall in Ha. specialize (Ha v). cbv zeta in Ha.
  assert (In v (map Z.of_nat (seq 0 32))) as Hin by (apply in_map_iff; exists (Z.to_nat v); split; [lia|apply in_seq; lia]).
  specialize (Ha Hin). lia.
Qed.

Lemma NormalizeSecret_plain s : plain (NormalizeSecret s).
Proof. eapply Forall_impl; [apply NormalizeSecret_chars|]. simpl. lia. Qed.

#[export] Hint Resolve plain_app number_plain NormalizeSecret_plain : wd.

(** ** Names *)

Section Names.
Context `{QtTextLaws} `{QtCaseLaws}.

Lemma visible_between s : Forall (fun c => 33 <= c < 127) s -> visible s.
Proof.
  intros Hs. eapply Forall_impl; [exact Hs|]. simpl. intros c Hc. rewrite isSpace_ascii by lia. lia.
Qed.

Lemma trimmed_number n : 0 <= n -> trimmed (number 10 n) = number 10 n.
Proof.
  intros Hn. apply trimmed_visible, visible_between. eapply Forall_impl; [by apply number_decimal_chars|]. simpl. lia.
Qed.

Lemma AlgorithmFromString_ToString a : AlgorithmFromString (AlgorithmToString a) = Some a.
Proof.
  unfold AlgorithmFromString. rewrite trimmed_visible, toUpperCase_ascii; [by destruct a| |apply visible_between];
    destruct a; repeat (constructor; [simpl; lia|]); constructor.
Qed.

Lemma TypeFromString_ToString t : TypeFromString (TypeToString t) = Some t.
Proof.
  unfold TypeFromString. rewrite trimmed_visible, toLowerCase_ascii; [by destruct t| |apply visible_between];
    destruct t; repeat (constructor; [simpl; lia|]); constructor.
Qed.
End Names.

(** ** Usable entries *)

(** An entry as the program keeps it: a normalized secret, its numbers in
    range, and the number its type does not use left at the default. *)
Definition wellFormed (e : Entry) : Prop :=
  NormalizeSecret (secret e) = secret e /\ secret e <> [] /\
  MIN_DIGITS <= digits e <= MAX_DIGITS /\
  match type e with
  | TOTP => MIN_PERIOD <= period e <= MAX_PERIOD /\ counter e = 0
  | HOTP => period e = DEFAULT_PERIOD /\ 0 <= counter e < 2 ^ 63
  end.

(** A label of plain, trimmed texts; a name is there. *)
Definition plainLabel `{QtText} (e : Entry) : Prop :=
  plain (name e) /\ plain (issuer e) /\ trimmed (name e) = name e /\ trimmed (issuer e) = issuer e /\ name e <> [].

Definition exportUrl (e : Entry) : Url :=
  {| scheme := u "otpauth"; host := TypeToString (type e);
     path := 47 :: (if isEmpty (issuer e) then name e else issuer e ++ 58 :: name e);
     query :=
       [(u "secret", secret e)] ++ (if isEmpty (issuer e) then [] else [(u "issuer", issuer e)]) ++
       [(u "algorithm", AlgorithmToString (algorithm e)); (u "digits", number 10 (digits e));
        match type e with
        | HOTP => (u "counter", number 10 (counter e))
        | TOTP => (u "period", number 10 (period e))
        end] |}.

Section Links.
Context `{QtTextLaws} `{QtCaseLaws} `{QtNumberLaws} `{QtUrlLaws} `{Translator}.

Ltac plain_text := repeat (constructor; [simpl; lia|]); constructor.

Lemma exportUrl_plain e : wellFormed e -> plainLabel e -> plainUrl (exportUrl e).
Proof.
  intros (Hs & _ & Hd & Ht) (Hn & Hi & _). unfold plainUrl, exportUrl, MIN_DIGITS, MIN_PERIOD in *.
  cbn [scheme host path query]. split_and!.
  - split; [done|]. plain_text.
  - split; [by destruct (type e)|]. destruct (type e); plain_text.
  - by right.
  - constructor; [lia|]. destruct (isEmpty (issuer e)); [done|]. apply plain_app; [done|]. constructor; [lia|done].
  - apply (bool_decide_unpack _). by destruct (isEmpty (issuer e)), (type e); vm_compute.
  - assert (plain (secret e)) by (rewrite <- Hs; apply NormalizeSecret_plain).
    assert (plain (AlgorithmToString (algorithm e))) by (destruct (algorithm e); plain_text).
    assert (plain (number 10 (digits e))) by solve_wd.
    repeat (apply Forall_app_2 || apply Forall_cons_2 || apply Forall_nil_2); cbn [fst snd];
      destruct (isEmpty (issuer e)), (type e); repeat (apply Forall_cons_2 || apply Forall_nil_2); cbn [fst snd];
      split_and!; try done; try solve_wd; plain_text.
Qed.

Lemma exportUrl_items e :
  queryItemValue (exportUrl e) "secret" = secret e /\
  queryItemValue (exportUrl e) "issuer" = issuer e /\
  itemOf (query (exportUrl e)) (u "algorithm") = Some (AlgorithmToString (algorithm e)) /\
  itemOf (query (exportUrl e)) (u "digits") = Some (number 10 (digits e)) /\
  match type e with
  | HOTP => itemOf (query (exportUrl e)) (u "counter") = Some (number 10 (counter e))
  | TOTP => itemOf (query (exportUrl e)) (u "period") = Some (number 10 (period e))
  end.
Proof.
  unfold queryItemValue, exportUrl. cbn [query]. destruct (issuer e), (type e); split_and!; reflexivity.
Qed.

Lemma textToInt_number z : 0 <= z < 2 ^ 31 -> textToInt (number 10 z) = Some z.
Proof.
  intros Hz. unfold textToInt. rewrite textToLongLong_number by (unfold in_int; lia).
  replace (- 2 ^ 31 <=? z) with true by lia. by replace (z <? 2 ^ 31) with true by lia.
Qed.

Lemma labelOf_fields url :
  labelOf url = newEntry <| name := name (labelOf url) |> <| issuer := issuer (labelOf url) |>.
Proof.
  unfold labelOf. destruct (indexOfChar _ _), (isEmpty (trimmed _)); cbv zeta;
    match goal with |- context [if isEmpty ?x then _ else _] => by destruct (isEmpty x) end.
Qed.

(** Everything but the label is read back. *)
Lemma readUrl_export e :
  wellFormed e ->
  readUrl (exportUrl e) =
  inr (e <| name := name (labelOf (exportUrl e)) |> <| issuer := issuer (labelOf (exportUrl e)) |>).
Proof.
  intros (Hs & Hne & Hd & Ht). destruct (exportUrl_items e) as (Hsec & _ & Ha & Hdig & Htyp).
  unfold MIN_DIGITS, MAX_DIGITS, MIN_PERIOD, MAX_PERIOD in *.
  assert (Hvis : visible (secret e)).
  { rewrite <- Hs. apply visible_between. eapply Forall_impl; [apply NormalizeSecret_chars|]. simpl. lia. }
  unfold readUrl. rewrite labelOf_fields. set (l := labelOf (exportUrl e)). clearbody l.
  change (host (exportUrl e)) with (TypeToString (type e)). rewrite TypeFromString_ToString. cbn [orFail].
  rewrite Hsec, trimmed_visible, Hs by done. destruct (secret e) as [|c sec] eqn:Esec; [done|]. cbn [isEmpty negb guard orFail].
  unfold readAlgorithm. rewrite Ha, AlgorithmFromString_ToString. cbn [orFail andThen].
  unfold readDigits. rewrite Hdig, trimmed_number, textToInt_number by lia. cbn [orFail].
  replace ((MIN_DIGITS <=? digits e) && (digits e <=? MAX_DIGITS)) with true by (unfold MIN_DIGITS, MAX_DIGITS; lia).
  cbn [guard orFail andThen]. unfold readPeriod, readCounter, MIN_PERIOD, MAX_PERIOD.
  destruct e as [en ei es ea [] ed ep ec]; cbn in *; subst; rewrite Htyp.
  - rewrite trimmed_number, textToInt_number by lia. cbn [orFail].
    replace ((1 <=? ep) && (ep <=? 3600)) with true by lia. cbn. by destruct Ht as [_ ->].
  - destruct Ht as [-> Ht]. rewrite trimmed_number, textToLongLong_number by (unfold in_int; lia). cbn [orFail].
    by replace (0 <=? ec) with true by lia.
Qed.

Lemma Parse_export e :
  wellFormed e -> plainLabel e ->
  ParseFromLink (ExportToLink e) =
  Parsed (e <| name := name (labelOf (exportUrl e)) |> <| issuer := issuer (labelOf (exportUrl e)) |>).
Proof.
  intros Hw Hp. pose proof (exportUrl_plain e Hw Hp) as Hu. unfold ParseFromLink, ExportToLink. fold (exportUrl e).
  rewrite trimmed_visible by by apply visible_between, formatUrl_visible. rewrite parse_formatUrl by done.
  unfold equalsCI. rewrite bool_decide_true by done. by rewrite readUrl_export.
Qed.

(** The label can be split at its colon again: there is none in the issuer, or
    in the name when there is no issuer. *)
Definition splittable (e : Entry) : Prop := 58 ∉ (if isEmpty (issuer e) then name e else issuer e).

Lemma isSpace_colon : isSpace 58 = false.
Proof. by rewrite isSpace_ascii by lia. Qed.

Lemma name_set e n : name (e <| name := n |>) = n.
Proof. done. Qed.

(** What stands before and after the first colon. *)
Lemma split_count s sep :
  s = take sep s ++ 58 :: drop (S sep) s /\ (58 ∉ take sep s) ->
  count (take sep s) 58 = 0%nat /\ (1 + count (drop (S sep) s) 58 = count s 58)%nat.
Proof.
  intros [E Hfront]. apply count_none in Hfront. split; [done|]. rewrite E at 2.
  change (58 :: drop (S sep) s) with ([58] ++ drop (S sep) s). rewrite !count_app, Hfront.
  change (count [58] 58) with 1%nat. lia.
Qed.

Lemma label_without_issuer e :
  plainLabel e -> issuer e = [] ->
  (58 ∉ name e -> name (labelOf (exportUrl e)) = name e /\ issuer (labelOf (exportUrl e)) = []) /\
  (58 ∈ name e -> name (labelOf (exportUrl e)) <> name e).
Proof.
  intros (_ & _ & Hn & _ & Hne) Hi. destruct (exportUrl_items e) as (_ & Hitem & _). unfold labelOf. rewrite Hitem.
  cbn [path exportUrl]. rewrite Hi. cbn [isEmpty]. split.
  - intros Hc. apply indexOfChar_None in Hc. rewrite Hc, Hn. cbn. by destruct (name e).
  - intros Hc. destruct (indexOfChar 58 (name e)) as [sep|] eqn:E; [|by apply indexOfChar_None in E].
    apply indexOfChar_Some, split_count in E as [Hfront Hcount]. cbn. intros Heq.
    apply (f_equal (fun s => count s 58)) in Heq. revert Heq.
    destruct (isEmpty (trimmed (drop (S sep) (name e)))); rewrite name_set, trimmed_count by apply isSpace_colon; lia.
Qed.

Lemma label_with_issuer e :
  plainLabel e -> issuer e <> [] ->
  issuer (labelOf (exportUrl e)) = issuer e /\
  (58 ∉ issuer e -> name (labelOf (exportUrl e)) = name e) /\
  (58 ∈ issuer e -> name (labelOf (exportUrl e)) <> name e).
Proof.
  intros (_ & _ & Hn & Hti & Hne) Hi. destruct (exportUrl_items e) as (_ & Hitem & _). unfold labelOf. rewrite Hitem, Hti.
  cbn [path exportUrl]. destruct (issuer e) as [|c rest] eqn:Eiss; [done|]. cbn [isEmpty]. rewrite <- Eiss.
  destruct (indexOfChar 58 (issuer e ++ 58 :: name e)) as [sep|] eqn:E.
  2:{ apply indexOfChar_None in E. destruct E. apply elem_of_app. right. by left. }
  cbn [isEmpty]. split_and!.
  - by destruct (isEmpty _).
  - intros Hc. rewrite indexOfChar_app in E by done. injection E as <-.
    replace (drop _ _) with (name e); [cbn; rewrite Hn; by destruct (name e)|].
    rewrite (cons_middle 58), app_assoc. by rewrite drop_app_length' by (rewrite length_app; simpl; lia).
  - intros Hc. apply indexOfChar_Some in E. intros Heq.
    assert (Hcount : (count (issuer e) 58 + 1 + count (name e) 58 = 1 + count (drop (S sep) (issuer e ++ 58%Z :: name e)) 58)%nat).
    { apply split_count in E as [_ Hcount]. rewrite Hcount.
      change (58 :: name e) with ([58] ++ name e). rewrite !count_app. change (count [58] 58) with 1%nat. lia. }
    assert (0 < count (issuer e) 58)%nat.
    { unfold count. destruct (filter (fun x => x = 58) (issuer e)) eqn:Ef; [|simpl; lia].
      assert (58 ∈ filter (fun x => x = 58) (issuer e)) as Hin by by apply list_elem_of_filter. rewrite Ef in Hin. by apply elem_of_nil in Hin. }
    set (b := drop _ _) in *. pose proof (trimmed_count 58 b isSpace_colon) as Ht.
    destruct (trimmed b) as [|x xs] eqn:Et; [change (count [] 58) with 0%nat in Ht; lia|].
    cbn in Heq. rewrite <- Heq in Hcount. lia.
Qed.

Lemma Parse_export_splittable e :
  wellFormed e -> plainLabel e -> ParseFromLink (ExportToLink e) = Parsed e <-> splittable e.
Proof.
  intros Hw Hp. rewrite Parse_export by done. unfold splittable.
  destruct (issuer e) as [|c i] eqn:Ei; cbn [isEmpty].
  - destruct (label_without_issuer e Hp Ei) as [Hno Hyes]. split.
    + intros [= Heq] Hc. apply (Hyes Hc). by rewrite <- Heq at 2.
    + intros Hc. destruct (Hno Hc) as [-> ->]. rewrite <- Ei. by destruct e.
  - destruct (label_with_issuer e Hp) as (Hiss & Hno & Hyes); [by rewrite Ei|]. rewrite <- Ei. split.
    + intros [= Heq] Hc. apply (Hyes Hc). by rewrite <- Heq at 2.
    + intros Hc. rewrite Hiss, Hno by done. by destruct e.
Qed.

(** C36: An exported link is read back with the same secret, algorithm,
    type, digits, period and counter, whatever the label; and with the same name
    and issuer exactly when there is no colon in the issuer (in the name, when
    there is no issuer). *)
Theorem ParseFromLink_ExportToLink (e : Entry) :
  wellFormed e -> plainLabel e ->
  (exists n i, ParseFromLink (ExportToLink e) = Parsed (e <| name := n |> <| issuer := i |>)) /\
  (ParseFromLink (ExportToLink e) = Parsed e <-> splittable e).
Proof.
  intros Hw Hp. split; [|by apply Parse_export_splittable]. rewrite Parse_export by done. eauto.
Qed.
End Links.

Section JsonRecords.
Context `{QtTextLaws} `{QtCaseLaws} `{QtNumberLaws} `{Translator} `{QtJsonText}.

Lemma entryToJson_fields e :
  let o := entryToJsonObject e in
  toQString (field o "name") [] = name e /\ toQString (field o "issuer") [] = issuer e /\
  toQString (field o "secret") [] = secret e /\
  toQString (field o "algorithm") [] = AlgorithmToString (algorithm e) /\
  toQString (field o "type") [] = TypeToString (type e) /\
  o !! "digits" = Some (jint (digits e)) /\
  match type e with
  | TOTP => o !! "period" = Some (jint (period e))
  | HOTP => o !! "counter" = Some (jint (counter e))
  end.
Proof.
  unfold entryToJsonObject, field, putIf. cbv zeta.
  destruct (issuer e), (type e); simpl; split_and!; simplify_map_eq; reflexivity.
Qed.

(** An integer is read back when a double can hold it. *)
Definition exact (z : Z) : Prop := doubleOf z = z.

Lemma exact_small z : Z.abs z < 2 ^ 53 -> exact z.
Proof. apply doubleOf_small. Qed.

Lemma otpJsonInteger_exact z : i64 z -> otpJsonInteger (jint z) = Some z <-> exact z.
Proof.
  unfold otpJsonInteger, jint, in_int, exact. intros Hz. destruct (_ && _) eqn:E; split; try done.
  - by intros [= ->].
  - by intros ->.
  - intros Heq. rewrite Heq in E. lia.
Qed.

Lemma readMember_exact o key lo hi bad e k z :
  o !! key = Some (jint z) -> i64 z -> exact z -> lo <= z -> (forall h, hi = Some h -> z <= h) ->
  readMember o key lo hi bad e k = inr (k z).
Proof.
  intros Ho Hz Hex Hlo Hhi. unfold readMember. rewrite Ho, (proj2 (otpJsonInteger_exact z Hz) Hex). cbn [orFail].
  replace (lo <=? z) with true by lia. destruct hi as [h|]; [|done].
  specialize (Hhi h eq_refl). by replace (z <=? h) with true by lia.
Qed.

Ltac member_side :=
  unfold MIN_DIGITS, MAX_DIGITS, MIN_PERIOD, MAX_PERIOD, in_int; intros; simplify_eq;
  (done || lia || (apply exact_small; lia)).

(** Everything but the last member is read back. *)
Lemma entryFromJson_toJson e :
  wellFormed e ->
  entryFromJsonObject (entryToJsonObject e) =
  match type e with
  | TOTP => inr e
  | HOTP => readMember (entryToJsonObject e) "counter" 0 None (BadCounter (otpEntryLabel e)) (e <| counter := 0 |>)
              (fun z => e <| counter := z |>)
  end.
Proof.
  intros (Hs & Hne & Hd & Ht). destruct (entryToJson_fields e) as (En & Ei & Es & Ea & Et & Ed & Ex).
  unfold MIN_DIGITS, MAX_DIGITS, MIN_PERIOD, MAX_PERIOD in *.
  assert (Hvis : visible (secret e)).
  { rewrite <- Hs. apply visible_between. eapply Forall_impl; [apply NormalizeSecret_chars|]. simpl. lia. }
  unfold entryFromJsonObject. set (o := entryToJsonObject e) in *. clearbody o.
  rewrite En, Ei, Es, Ea, Et, trimmed_visible, Hs, AlgorithmFromString_ToString, TypeFromString_ToString by done.
  destruct (secret e) as [|c sec] eqn:Esec; [done|]. cbn [isEmpty negb guard orFail].
  rewrite (readMember_exact o "digits" _ _ _ _ _ (digits e)) by member_side.
  cbn [andThen]. destruct e as [en ei es ea [] ed ep ec]; cbn in *; subst.
  - rewrite (readMember_exact o "period" _ _ _ _ _ ep) by member_side. cbn. by destruct Ht as [_ ->].
  - by destruct Ht as [-> _].
Qed.

Lemma entry_json_exact e :
  wellFormed e -> entryFromJsonObject (entryToJsonObject e) = inr e <-> exact (counter e).
Proof.
  intros Hw. rewrite entryFromJson_toJson by done. destruct Hw as (_ & _ & _ & Ht).
  destruct (entryToJson_fields e) as (_ & _ & _ & _ & _ & _ & Ex). destruct (type e).
  - split; [|done]. intros _. destruct Ht as [_ ->]. by apply exact_small.
  - destruct Ht as [_ Hc]. split.
    + unfold readMember. rewrite Ex. intros Heq. apply otpJsonInteger_exact; [unfold in_int; lia|].
      destruct (otpJsonInteger _) as [z|]; [|done]. cbn [orFail] in Heq. destruct (0 <=? z); [|done].
      injection Heq as Heq. apply (f_equal counter) in Heq. by rewrite <- Heq at 1.
    + intros Hex. rewrite (readMember_exact _ _ _ _ _ _ _ (counter e)) by member_side. by destruct e.
Qed.

(** The items of an export are read back in order, with nothing skipped. *)
Lemma parseItems_export (entries : list Entry) :
  (forall e, e ∈ entries -> wellFormed e /\ exact (counter e)) ->
  parseItems (map (fun e => JObject (entryToJsonObject e)) entries) = (entries, []).
Proof.
  intros Hall. unfold parseItems.
  enough (forall acc, fold_left parseItem (map (fun e => JObject (entryToJsonObject e)) entries) (acc, []) =
                      (acc ++ entries, [])) as H' by apply H'.
  induction entries as [|e entries IH]; intros acc; [by rewrite app_nil_r|]. simpl.
  destruct (Hall e ltac:(by left)) as [Hw Hex]. rewrite (proj2 (entry_json_exact e Hw) Hex). cbn [fst snd].
  rewrite IH by (intros e' He'; apply Hall; by right). by rewrite <- app_assoc.
Qed.
End JsonRecords.

(** ** Qt on ASCII, for concrete evaluations *)

#[export] Instance asciiCase : QtCase := {|
  toUpperCase := map (fun c => if (97 <=? c) && (c <=? 122) then c - 32 else c);
  toLowerCase := map (fun c => if (65 <=? c) && (c <=? 90) then c + 32 else c) |}.

#[export] Instance asciiCaseLaws : QtCaseLaws asciiCase.
Proof. by split. Qed.

#[export] Instance decimalNumber : QtNumber := {|
  textToLongLong s :=
    let '(sign, ds) := if bool_decide (head s = Some 45) then (-1, tail s) else (1, s) in
    if isEmpty ds || existsb (fun c => negb ((48 <=? c) && (c <=? 57))) ds then None else Some (sign * spells ds) |}.

#[export] Instance decimalNumberLaws : QtNumberLaws decimalNumber.
Proof.
  split. intros z _. cbn [textToLongLong decimalNumber].
  assert (Hnat : forall n, 0 <= n ->
    isEmpty (number 10 n) = false /\ existsb (fun c => negb ((48 <=? c) && (c <=? 57))) (number 10 n) = false).
  { intros n Hn. split; [by destruct (number 10 n) eqn:E; [apply number_not_nil in E|]|].
    pose proof (number_decimal_chars n Hn) as Hc. induction Hc as [|c s Hc Hs IH]; [done|]. simpl. rewrite IH.
    by replace ((48 <=? c) && (c <=? 57)) with true by lia. }
  destruct (Z_lt_le_dec z 0) as [Hneg|Hpos].
  - assert (number 10 z = 45 :: number 10 (- z)) as -> by (unfold number; by destruct (Z.ltb_spec z 0), (Z.ltb_spec (- z) 0); try lia).
    rewrite bool_decide_true by done. cbn [tail]. destruct (Hnat (- z) ltac:(lia)) as [-> ->]. cbn [orb]. f_equal. rewrite spells_number by lia. lia.
  - destruct (Hnat z Hpos) as [E1 E2]. pose proof (number_decimal_chars z Hpos) as Hc.
    rewrite bool_decide_false, E1, E2 by (destruct Hc as [|c s Hc Hs]; intros [= ->]; lia).
    cbn [orb]. f_equal. rewrite spells_number by done. lia.
Qed.

#[export] Instance sourceText : Translator := {| tr := u |}.

(** A URL as its scheme and the binary digits of a code for its components. *)
#[export] Instance Url_eqdec : EqDecision Url.
Proof. solve_decision. Defined.

#[export] Instance Url_countable : Countable Url.
Proof.
  apply (inj_countable' (fun r => (scheme r, host r, path r, query r)) (fun '(s, h, p, q) => {| scheme := s; host := h; path := p; query := q |})).
  by intros [].
Defined.

Fixpoint bitText (p : positive) : qstring :=
  match p with xH => [] | xO p => 48 :: bitText p | xI p => 49 :: bitText p end.

Fixpoint readBits (s : qstring) (p : positive) : positive :=
  match s with
  | 48 :: s => readBits s p~0
  | 49 :: s => readBits s p~1
  | _ => p
  end.

#[export] Instance codedUrl : QtUrl := {|
  formatUrl url := scheme url ++ u "://" ++ bitText (encode url);
  parseUrl s := if isEmpty s then None else decode (readBits (rev s) 1) |}.

Lemma readBits_bitText p t : readBits (rev (bitText p) ++ t) 1 = readBits t p.
Proof. revert t. induction p as [p IH|p IH|]; intros t; simpl; rewrite <- ?app_assoc, ?IH; done. Qed.

#[export] Instance codedUrlLaws : QtUrlLaws codedUrl.
Proof.
  split; [done| | |].
  - intros url _. cbn [parseUrl formatUrl codedUrl]. replace (isEmpty _) with false by (by destruct (scheme url)).
    rewrite !rev_app_distr, <- app_assoc, readBits_bitText. apply decode_encode.
  - intros url _. by eexists.
  - intros url ((_ & Hs) & _). cbn [formatUrl codedUrl]. repeat apply Forall_app_2.
    + eapply Forall_impl; [exact Hs|]. simpl. lia.
    + repeat (constructor; [simpl; lia|]); constructor.
    + induction (encode url) as [p IH|p IH|]; simpl; [constructor; [lia|done]..|constructor].
Qed.

Definition issuedEntry : Entry := sampleEntry <| name := u "alice" |> <| issuer := u "Example" |>.
Definition colonEntry : Entry := sampleEntry <| name := u "alice" |> <| issuer := u "a:b" |>.

Ltac plain_closed := repeat (constructor; [simpl; lia|]); constructor.

Lemma issuedEntry_usable : wellFormed issuedEntry /\ plainLabel issuedEntry /\ plainLabel colonEntry.
Proof.
  unfold wellFormed, plainLabel, MIN_DIGITS, MAX_DIGITS, MIN_PERIOD, MAX_PERIOD.
  split_and!; try done; try reflexivity; try (simpl; lia); plain_closed.
Qed.

Lemma ParseFromLink_ExportToLink_witness :
  ParseFromLink (ExportToLink issuedEntry) = Parsed issuedEntry /\ ParseFromLink (ExportToLink colonEntry) <> Parsed colonEntry.
Proof.
  destruct issuedEntry_usable as (Hw & Hp & Hc). split.
  - apply (ParseFromLink_ExportToLink issuedEntry Hw Hp). vm_compute. set_solver.
  - intros E. apply (ParseFromLink_ExportToLink colonEntry Hw Hc) in E. apply E. vm_compute. set_solver.
Defined.
