(* ===== verification/OtpMigration.v ===== *)
(** * OtpMigration: Google Authenticator's transfer format

    src/global/OTP.cpp: the protocol-buffer reader and writer of the anonymous
    namespace, ExportToMigrationLink and ParseFromMigrationLink.

    A writer is the bytes it appends to its buffer.  A reader's cursor ([pos] in
    the source) is the rest of the buffer from it on; [None] is a [false] result,
    after which the source reads no further.  Both loops over fields are bounded
    by the length of what they read, since a field takes at least one byte
    ([pbReadField_progress]).  UTF-8 and Base64 are Qt's ([QtCodec]). *)

From S2P Require Import Prelude Text OtpBase32 OtpCodes OtpLinks OtpLinksProps.

(** ** Qt *)

Class QtCodec := { toUtf8 : qstring -> list Z; toBase64 : list Z -> list Z; fromBase64 : list Z -> list Z }.

(** The documented behaviour the round trips use, for texts of plain ASCII. *)
Class QtCodecLaws (C : QtCodec) : Prop := {
  toUtf8_plain s : plain s -> toUtf8 s = s;
  toBase64_plain bs : bytes bs -> plain (toBase64 bs) /\ (toBase64 bs = [] -> bs = []);
  fromBase64_toBase64 bs : bytes bs -> fromBase64 (toBase64 bs) = bs }.

(** ** Varints *)

(** [do ... while (value != 0)]: a 64-bit value takes at most ten rounds. *)
Fixpoint writeVarint (fuel : nat) (value : Z) : list Z :=
  match fuel with
  | O => []
  | S f =>
      let byte := Z.land value 127 in
      let value := Z.shiftr value 7 in
      if value =? 0 then [byte] else Z.lor byte 128 :: writeVarint f value
  end.

Definition pbWriteVarint (value : Z) : list Z := writeVarint 10 value.

Definition pbWriteTag (field wireType : Z) : list Z := pbWriteVarint (Z.lor (u64 (Z.shiftl field 3)) wireType).

Definition pbWriteBytes (field : Z) (value : list Z) : list Z :=
  pbWriteTag field 2 ++ pbWriteVarint (Z.of_nat (length value)) ++ value.

Definition pbWriteUint (field value : Z) : list Z := pbWriteTag field 0 ++ pbWriteVarint value.

Fixpoint readVarint (rest : list Z) (shift value : Z) : option (Z * list Z) :=
  match rest with
  | [] => None
  | byte :: rest =>
      let value := Z.lor value (u64 (Z.shiftl (Z.land byte 127) shift)) in
      if Z.land byte 128 =? 0 then Some (value, rest)
      else if 63 <? shift + 7 then None
      else readVarint rest (shift + 7) value
  end.

Definition pbReadVarint (rest : list Z) : option (Z * list Z) := readVarint rest 0 0.

(** ** Fields *)

(** [static_cast<int>] of a 64-bit value. *)
Definition toInt32 (z : Z) : Z := (z + 2 ^ 31) mod 2 ^ 32 - 2 ^ 31.

Record Field := { fieldNumber : Z; wireType : Z; varint : Z; payload : list Z }.

Definition skipBytes (n : nat) (field : Field) (rest : list Z) : option (Field * list Z) :=
  if (length rest <? n)%nat then None else Some (field, drop n rest).

Definition pbReadField (rest : list Z) : option (Field * list Z) :=
  '(tag, rest) ← pbReadVarint rest;
  let field := {| fieldNumber := toInt32 (Z.shiftr tag 3); wireType := Z.land tag 7; varint := 0; payload := [] |} in
  match wireType field with
  | 0 =>
      '(value, rest) ← pbReadVarint rest;
      Some ({| fieldNumber := fieldNumber field; wireType := 0; varint := value; payload := [] |}, rest)
  | 1 => skipBytes 8 field rest
  | 2 =>
      '(len, rest) ← pbReadVarint rest;
      if Z.of_nat (length rest) <? len then None
      else Some ({| fieldNumber := fieldNumber field; wireType := 2; varint := 0; payload := take (Z.to_nat len) rest |},
                 drop (Z.to_nat len) rest)
  | 5 => skipBytes 4 field rest
  | _ => None
  end.

(** [while (pos < in.size()) { if (!pbReadField(...)) return false; ... }] *)
Fixpoint readFields {A} (fuel : nat) (step : A -> Field -> option A) (rest : list Z) (acc : A) : option A :=
  match rest, fuel with
  | [], _ => Some acc
  | _, O => None
  | _, S f =>
      '(field, rest) ← pbReadField rest;
      acc ← step acc field;
      readFields f step rest acc
  end.

Definition eachField {A} (step : A -> Field -> option A) (buffer : list Z) (acc : A) : option A :=
  readFields (length buffer) step buffer acc.

(** ** Export *)

Definition migrationAlgorithmValue (algorithm : Algorithm) : Z :=
  match algorithm with SHA256 => 2 | SHA512 => 3 | SHA1 => 1 end.

Section Migration.
Context `{QtText} `{QtCodec}.

Definition migrationParameters (entry : Entry) (key : list Z) : list Z :=
  pbWriteBytes 1 key ++ pbWriteBytes 2 (toUtf8 (name entry)) ++
  (if isEmpty (issuer entry) then [] else pbWriteBytes 3 (toUtf8 (issuer entry))) ++
  pbWriteUint 4 (migrationAlgorithmValue (algorithm entry)) ++
  pbWriteUint 5 (if digits entry =? 8 then 2 else 1) ++
  pbWriteUint 6 (match type entry with HOTP => 1 | TOTP => 2 end) ++
  match type entry with HOTP => pbWriteUint 7 (u64 (counter entry)) | TOTP => [] end.

(** An entry without a usable secret is left out. *)
Definition migrationEntry (entry : Entry) : list Z :=
  match Base32Decode (secret entry) with
  | Some (b :: key) => pbWriteBytes 1 (migrationParameters entry (b :: key))
  | _ => []
  end.

(** The payload; empty when no entry is written. *)
Definition migrationPayload (entries : list Entry) : list Z :=
  let payload := concat (map migrationEntry entries) in
  if isEmpty payload then [] else payload ++ pbWriteUint 2 1 ++ pbWriteUint 3 1 ++ pbWriteUint 4 0.

Definition ExportToMigrationLink `{QtUrl} (entries : list Entry) : qstring :=
  let payload := migrationPayload entries in
  if isEmpty payload then []
  else formatUrl {| scheme := u "otpauth-migration"; host := u "offline"; path := [];
                    query := [(u "data", fromUtf8 (toBase64 payload))] |}.

(** ** Import *)

(** Google's enum; 4 is MD5. *)
Definition migrationAlgorithm (value : Z) : option Algorithm :=
  match value with
  | 0 | 1 => Some SHA1
  | 2 => Some SHA256
  | 3 => Some SHA512
  | _ => None
  end.

(** The locals of the inner loop. *)
Record Draft := {
  entry : Entry; haveSecret : bool;
  badAlgorithm : option Z; badDigits : option Z; badType : option Z }.

Definition newDraft : Draft :=
  {| entry := newEntry; haveSecret := false; badAlgorithm := None; badDigits := None; badType := None |}.

Definition etaDraft (d : Draft) : Draft :=
  {| entry := entry d; haveSecret := haveSecret d;
     badAlgorithm := badAlgorithm d; badDigits := badDigits d; badType := badType d |}.

#[local] Instance set_entry : Setter entry := ltac:(setter etaDraft).
#[local] Instance set_haveSecret : Setter haveSecret := ltac:(setter etaDraft).
#[local] Instance set_badAlgorithm : Setter badAlgorithm := ltac:(setter etaDraft).
#[local] Instance set_badDigits : Setter badDigits := ltac:(setter etaDraft).
#[local] Instance set_badType : Setter badType := ltac:(setter etaDraft).

(** [static_cast<qint64>]. *)
Definition toInt64 (z : Z) : Z := (z + 2 ^ 63) mod 2 ^ 64 - 2 ^ 63.

Definition parameterStep (d : Draft) (field : Field) : option Draft :=
  let b := payload field in
  let v := varint field in
  let e := entry d in
  Some match fieldNumber field with
  | 1 => d <| entry := e <| secret := Base32Encode b |> |> <| haveSecret := negb (isEmpty b) |>
  | 2 => d <| entry := e <| name := fromUtf8 b |> |>
  | 3 => d <| entry := e <| issuer := fromUtf8 b |> |>
  | 4 => match migrationAlgorithm v with
         | Some a => d <| entry := e <| algorithm := a |> |>
         | None => d <| badAlgorithm := Some v |>
         end
  | 5 => if v <=? 2 then d <| entry := e <| digits := if v =? 2 then 8 else DEFAULT_DIGITS |> |>
         else d <| badDigits := Some v |>
  | 6 => if v <=? 2 then d <| entry := e <| type := if v =? 1 then HOTP else TOTP |> |>
         else d <| badType := Some v |>
  | 7 => d <| entry := e <| counter := toInt64 v |> |>
  | _ => d
  end.

(** The verdict on a message once its fields are read. *)
Definition settleDraft `{Translator} (d : Draft) (acc : list Entry * list Problem) : list Entry * list Problem :=
  let e := if isEmpty (name (entry d)) then (entry d) <| name := issuer (entry d) |> else entry d in
  let skip problem := (acc.1, acc.2 ++ [problem]) in
  if negb (haveSecret d) then skip (NoSecret (otpEntryLabel e))
  else match badAlgorithm d with
       | Some a => skip (BadAlgorithm (otpEntryLabel e) (if a =? 4 then u "MD5" else number 10 a))
       | None =>
           match badDigits d with
           | Some v => skip (BadDigitsCode (otpEntryLabel e) (number 10 v))
           | None =>
               match badType d with
               | Some v => skip (BadType (otpEntryLabel e) (number 10 v))
               | None => (acc.1 ++ [e], acc.2)
               end
           end
       end.

Definition messageStep `{Translator} (acc : list Entry * list Problem) (field : Field) : option (list Entry * list Problem) :=
  if negb (fieldNumber field =? 1) || negb (wireType field =? 2) then Some acc
  else d ← eachField parameterStep (payload field) newDraft; Some (settleDraft d acc).

Definition readPayload `{Translator} (payload : list Z) : option (list Entry * list Problem) :=
  eachField messageStep payload ([], []).

(** The result, [out] and [problems] (when asked for) after the call. *)
Definition ParseFromMigrationLink `{QtUrl} `{Translator} (link : qstring) (out : list Entry) (problems : list Problem)
    : bool * list Entry * list Problem :=
  match parseUrl (trimmed link) with
  | Some url =>
      if negb (equalsCI (scheme url) (u "otpauth-migration")) then (false, out, problems)
      else
        let data := queryItemValue url "data" in
        if isEmpty data then (false, out, problems)
        else
          let payload := fromBase64 (toUtf8 data) in
          if isEmpty payload then (false, out, problems)
          else match readPayload payload with
               | None => (false, out, problems)
               | Some (entries, skipped) =>
                   if decide (entries = []) then (false, out, problems ++ skipped)
                   else (true, entries, problems ++ skipped)
               end
  | None => (false, out, problems)
  end.
End Migration.

(** ** The writers' output is read back *)

Lemma writeVarint_bytes f v : 0 <= v -> bytes (writeVarint f v).
Proof.
  revert v. induction f as [|f IH]; intros v Hv; [constructor|]. cbn [writeVarint]. cbv zeta.
  assert (H7 : 0 <= Z.land v 127 < 128) by (change 127 with (Z.ones 7); rewrite Z.land_ones by lia; apply Z.mod_pos_bound; lia).
  destruct (_ =? 0); (constructor; [|]); [lia|constructor| |by apply IH, Z.shiftr_nonneg].
  change 128 with (Z.shiftl 1 7). rewrite Z.lor_comm, lor_disjoint by lia. lia.
Qed.

(** The continuation bit of a byte, and its seven bits. *)
Lemma varint_byte v :
  0 <= v ->
  let lo := Z.land v 127 in
  0 <= lo < 128 /\ v = lo + 128 * Z.shiftr v 7 /\ Z.land lo 128 = 0 /\ Z.land lo 127 = lo /\
  Z.land (Z.lor lo 128) 128 = 128 /\ Z.land (Z.lor lo 128) 127 = lo.
Proof.
  intros Hv lo. assert (E : lo = v mod 2 ^ 7) by (unfold lo; change 127 with (Z.ones 7); by rewrite Z.land_ones by lia).
  pose proof (Z.mod_pos_bound v (2 ^ 7) ltac:(lia)). rewrite Z.shiftr_div_pow2 by lia.
  pose proof (Z.div_mod v (2 ^ 7) ltac:(lia)). rewrite E in *. clear E lo. set (lo := v mod 2 ^ 7) in *. clearbody lo.
  assert (forallb (fun x => (Z.land x 128 =? 0) && (Z.land x 127 =? x) && (Z.land (Z.lor x 128) 128 =? 128) &&
    (Z.land (Z.lor x 128) 127 =? x)) (map Z.of_nat (seq 0 128)) = true) as Hb by reflexivity.
  rewrite forallb_forall in Hb. specialize (Hb lo).
  assert (In lo (map Z.of_nat (seq 0 128))) as Hin by (apply in_map_iff; exists (Z.to_nat lo); split; [lia|apply in_seq; lia]).
  specialize (Hb Hin). cbv beta in Hb. bool_to_prop. split_and!; lia.
Qed.

Lemma readVarint_write f v shift acc rest :
  0 <= v < 2 ^ (64 - shift) -> 0 <= shift <= 63 -> 0 <= acc < 2 ^ shift -> 64 <= 7 * Z.of_nat f + shift ->
  readVarint (writeVarint f v ++ rest) shift acc = Some (acc + v * 2 ^ shift, rest).
Proof.
  revert v shift acc. induction f as [|f IH]; intros v shift acc Hv Hs Hacc Hf; [lia|].
  destruct (varint_byte v ltac:(lia)) as (Hlo & Ev & E1 & E2 & E3 & E4). cbv zeta in *.
  set (lo := Z.land v 127) in *. set (hi := Z.shiftr v 7) in *. cbn [writeVarint]. fold lo hi. cbv zeta.
  assert (Hhi : 0 <= hi) by (apply Z.shiftr_nonneg; lia).
  assert (Hor : Z.lor acc (u64 (Z.shiftl lo shift)) = acc + lo * 2 ^ shift).
  { rewrite Z.shiftl_mul_pow2, wrap_small by lia || (split; [nia|]; apply Z.le_lt_trans with (v * 2 ^ shift); [nia|];
      replace (2 ^ 64) with (2 ^ (64 - shift) * 2 ^ shift) by (rewrite <- Z.pow_add_r by lia; f_equal; lia); nia).
    rewrite <- Z.shiftl_mul_pow2, Z.lor_comm, lor_disjoint, Z.shiftl_mul_pow2 by lia. lia. }
  destruct (Z.eqb_spec hi 0) as [Hz|Hz]; cbn [app readVarint]; cbv zeta.
  - rewrite E1, E2, Hor. rewrite Hz in Ev. change (0 =? 0) with true. cbv iota. do 2 f_equal. nia.
  - rewrite E3, E4, Hor. change (128 =? 0) with false. cbv iota.
    assert (Hbig : shift + 7 < 64).
    { destruct (Z_lt_le_dec (shift + 7) 64); [done|]. assert (2 ^ (64 - shift) <= 2 ^ 7) by (apply Z.pow_le_mono_r; lia). lia. }
    replace (63 <? shift + 7) with false by lia.
    assert (Hp : 2 ^ (64 - shift) = 2 ^ (64 - (shift + 7)) * 128)
      by (change 128 with (2 ^ 7); rewrite <- Z.pow_add_r by lia; f_equal; lia).
    assert (Hp' : 2 ^ (shift + 7) = 2 ^ shift * 128) by (rewrite Z.pow_add_r by lia; done).
    rewrite IH; [f_equal; f_equal; rewrite Hp'; nia|nia|lia|nia|lia].
Qed.

(** ** Progress and fuel *)

Lemma readVarint_progress rest shift acc v rest' :
  readVarint rest shift acc = Some (v, rest') -> (length rest' < length rest)%nat.
Proof.
  revert shift acc. induction rest as [|b rest IH]; intros shift acc; [done|]. cbn [readVarint length]. cbv zeta.
  destruct (_ =? 0); [intros [= _ <-]; lia|]. destruct (63 <? _); [done|]. intros E. apply IH in E. lia.
Qed.

Lemma pbReadField_progress rest field rest' :
  pbReadField rest = Some (field, rest') -> (length rest' < length rest)%nat.
Proof.
  unfold pbReadField, pbReadVarint. destruct (readVarint rest 0 0) as [[tag r]|] eqn:E; [|done]. cbn [mbind option_bind].
  apply readVarint_progress in E. cbv zeta. cbn [wireType fieldNumber].
  assert (Hskip : forall n f, skipBytes n f r = Some (field, rest') -> (length rest' < length rest)%nat).
  { intros n f. unfold skipBytes. destruct (_ <? _)%nat; [done|]. intros [= _ <-]. rewrite length_drop. lia. }
  destruct (Z.land tag 7) as [|p|p]; [| |done].
  - destruct (readVarint r 0 0) as [[v r2]|] eqn:E2; [|done]. cbn [mbind option_bind].
    intros [= _ <-]. apply readVarint_progress in E2. lia.
  - repeat (destruct p as [p|p|]; try done); try by apply Hskip.
    destruct (readVarint r 0 0) as [[v r2]|] eqn:E2; [|done]. cbn [mbind option_bind].
    destruct (_ <? v); [done|]. intros [= _ <-]. apply readVarint_progress in E2. rewrite length_drop. lia.
Qed.

(** Fuel for the length of the buffer is enough. *)
Lemma readFields_fuel {A} f (step : A -> Field -> option A) rest acc :
  (length rest <= f)%nat -> readFields f step rest acc = eachField step rest acc.
Proof.
  unfold eachField. enough (forall n f g rest acc, (length rest <= n)%nat -> (length rest <= f)%nat -> (length rest <= g)%nat ->
    readFields f step rest acc = readFields g step rest acc) as H by (intros Hf; by apply (H (length rest))).
  clear. induction n as [|n IH]; intros f g rest acc Hn Hf Hg; (destruct rest as [|b rest]; [by destruct f, g|]); [simpl in Hn; lia|].
  destruct f as [|f], g as [|g]; try (simpl in *; lia). cbn [readFields].
  destruct (pbReadField (b :: rest)) as [[field rest']|] eqn:E; [|done]. cbn [mbind option_bind].
  apply pbReadField_progress in E. destruct (step acc field) as [acc'|]; [|done]. cbn [mbind option_bind].
  simpl in *. apply IH; lia.
Qed.

Lemma eachField_cons {A} (step : A -> Field -> option A) rest field rest' acc :
  pbReadField rest = Some (field, rest') ->
  eachField step rest acc = (acc ← step acc field; eachField step rest' acc).
Proof.
  intros E. pose proof (pbReadField_progress _ _ _ E) as Hp. unfold eachField at 1.
  destruct rest as [|b rest]; [done|]. cbn [length readFields]. rewrite E. cbn [mbind option_bind].
  destruct (step acc field); [|done]. cbn [mbind option_bind]. apply readFields_fuel. simpl in Hp. lia.
Qed.

(** ** Fields *)

Lemma pbReadVarint_write v rest : 0 <= v < 2 ^ 64 -> pbReadVarint (pbWriteVarint v ++ rest) = Some (v, rest).
Proof.
  intros Hv. unfold pbReadVarint, pbWriteVarint. rewrite readVarint_write by (simpl; lia). do 2 f_equal. lia.
Qed.

(** The number and the wire type of a written tag. *)
Lemma tag_parts f w :
  0 <= f < 2 ^ 20 -> 0 <= w < 8 ->
  let tag := Z.lor (u64 (Z.shiftl f 3)) w in
  0 <= tag < 2 ^ 64 /\ toInt32 (Z.shiftr tag 3) = f /\ Z.land tag 7 = w.
Proof.
  intros Hf Hw. cbv zeta. rewrite wrap_small by (rewrite Z.shiftl_mul_pow2; lia).
  rewrite lor_disjoint by lia. change 7 with (Z.ones 3). rewrite Z.land_ones, Z.shiftr_div_pow2 by lia.
  rewrite Z.div_add_l, (Z.div_small w), Z.add_0_r, Z.add_comm, Z.mod_add, Z.mod_small by lia.
  split_and!; [lia|lia| |done]. unfold toInt32. rewrite Z.mod_small; lia.
Qed.

Lemma pbReadField_uint f v rest :
  0 <= f < 2 ^ 20 -> 0 <= v < 2 ^ 64 ->
  pbReadField (pbWriteUint f v ++ rest) = Some ({| fieldNumber := f; wireType := 0; varint := v; payload := [] |}, rest).
Proof.
  intros Hf Hv. unfold pbReadField, pbWriteUint, pbWriteTag. destruct (tag_parts f 0 Hf ltac:(lia)) as (Ht & E1 & E2).
  rewrite <- app_assoc, pbReadVarint_write by done. cbn [mbind option_bind]. cbv zeta. cbn [wireType fieldNumber].
  rewrite E1, E2, pbReadVarint_write by done. done.
Qed.

Lemma pbReadField_bytes f bs rest :
  0 <= f < 2 ^ 20 -> Z.of_nat (length bs) < 2 ^ 64 ->
  pbReadField (pbWriteBytes f bs ++ rest) = Some ({| fieldNumber := f; wireType := 2; varint := 0; payload := bs |}, rest).
Proof.
  intros Hf Hv. unfold pbReadField, pbWriteBytes, pbWriteTag. destruct (tag_parts f 2 Hf ltac:(lia)) as (Ht & E1 & E2).
  rewrite <- !app_assoc, pbReadVarint_write by done. cbn [mbind option_bind]. cbv zeta. cbn [wireType fieldNumber].
  rewrite E1, E2, pbReadVarint_write by lia. cbn [mbind option_bind].
  rewrite length_app. destruct (Z.ltb_spec (Z.of_nat (length bs + length rest)) (Z.of_nat (length bs))); [lia|].
  by rewrite Nat2Z.id, take_app_length, drop_app_length.
Qed.

Lemma eachField_uint {A} (step : A -> Field -> option A) f v rest acc :
  0 <= f < 2 ^ 20 -> 0 <= v < 2 ^ 64 ->
  eachField step (pbWriteUint f v ++ rest) acc =
  (acc ← step acc {| fieldNumber := f; wireType := 0; varint := v; payload := [] |}; eachField step rest acc).
Proof. intros. by apply eachField_cons, pbReadField_uint. Qed.

Lemma eachField_bytes {A} (step : A -> Field -> option A) f bs rest acc :
  0 <= f < 2 ^ 20 -> Z.of_nat (length bs) < 2 ^ 64 ->
  eachField step (pbWriteBytes f bs ++ rest) acc =
  (acc ← step acc {| fieldNumber := f; wireType := 2; varint := 0; payload := bs |}; eachField step rest acc).
Proof. intros. by apply eachField_cons, pbReadField_bytes. Qed.

Lemma tag_nonneg f w : 0 <= f -> 0 <= w -> 0 <= Z.lor (u64 (Z.shiftl f 3)) w.
Proof. intros. apply Z.lor_nonneg. split; [|done]. by apply wrap_range. Qed.

Lemma pbWriteBytes_bytes f bs : 0 <= f -> bytes bs -> bytes (pbWriteBytes f bs).
Proof.
  intros Hf Hbs. repeat apply Forall_app_2; [apply writeVarint_bytes, tag_nonneg; lia|apply writeVarint_bytes; lia|done].
Qed.

Lemma pbWriteUint_bytes f v : 0 <= f -> 0 <= v -> bytes (pbWriteUint f v).
Proof. intros Hf Hv. apply Forall_app_2; apply writeVarint_bytes; [apply tag_nonneg; lia|lia]. Qed.

Lemma pbWriteUint_length f v : (2 <= length (pbWriteUint f v))%nat.
Proof.
  unfold pbWriteUint, pbWriteTag, pbWriteVarint. rewrite length_app. cbn [writeVarint]. cbv zeta.
  repeat case_match; simpl; lia.
Qed.

Lemma pbWriteBytes_length f bs : (length bs < length (pbWriteBytes f bs))%nat.
Proof.
  unfold pbWriteBytes, pbWriteTag, pbWriteVarint. rewrite !length_app. cbn [writeVarint]. cbv zeta.
  repeat case_match; simpl; lia.
Qed.

#[export] Hint Resolve pbWriteBytes_bytes pbWriteUint_bytes : wd.

(** ** What an entry becomes *)

(** The format has no room for other digit counts than six and eight, nor for
    another period than 30 seconds; a nameless entry takes its issuer's name. *)
Definition migrated (e : Entry) : Entry :=
  {| name := if isEmpty (name e) then issuer e else name e; issuer := issuer e; secret := NormalizeSecret (secret e);
     algorithm := algorithm e; type := type e; digits := if digits e =? 8 then 8 else 6;
     period := DEFAULT_PERIOD; counter := match type e with HOTP => counter e | TOTP => 0 end |}.

(** An entry whose secret holds a key. *)
Definition usable (e : Entry) : Prop := NormalizeSecret (secret e) <> [].

#[export] Instance usable_dec e : Decision (usable e).
Proof. unfold usable. apply _. Defined.

Section RoundTrip.
Context `{QtTextLaws} `{QtCodecLaws} `{QtUrlLaws} `{Translator}.

(** Texts of plain ASCII and a 64-bit counter. *)
Definition portable (e : Entry) : Prop := plain (name e) /\ plain (issuer e) /\ i64 (counter e).

Lemma plain_bytes s : plain s -> bytes s.
Proof. intros Hs. eapply Forall_impl; [exact Hs|]. simpl. lia. Qed.

Hint Resolve plain_bytes : wd.

Lemma fromUtf8_plain s : plain s -> fromUtf8 s = s.
Proof. intros Hs. apply fromUtf8_ascii. eapply Forall_impl; [exact Hs|]. simpl. lia. Qed.

Lemma usable_key e :
  match Base32Decode (secret e) with
  | Some (b :: key) => usable e /\ NormalizeSecret (secret e) = Base32Encode (b :: key)
  | _ => ~ usable e
  end.
Proof.
  unfold usable, NormalizeSecret. destruct (Base32Decode (secret e)) as [[|b key]|] eqn:E; [tauto| |tauto].
  split; [|done]. apply Base32Encode_not_nil; [|done]. by eapply Base32Decode_bytes.
Qed.

Lemma toInt64_u64 z : i64 z -> toInt64 (u64 z) = z.
Proof.
  unfold toInt64, wrap, in_int. intros Hz. rewrite Z.add_mod_idemp_l by lia. rewrite Z.mod_small; lia.
Qed.

Lemma migrationAlgorithm_value a : migrationAlgorithm (migrationAlgorithmValue a) = Some a.
Proof. by destruct a. Qed.

Lemma readParameters e key :
  portable e -> Z.of_nat (length (migrationParameters e key)) < 2 ^ 64 ->
  eachField parameterStep (migrationParameters e key) newDraft =
  Some {| entry := {| name := name e; issuer := issuer e; secret := Base32Encode key; algorithm := algorithm e; type := type e;
                      digits := if digits e =? 8 then 8 else 6; period := DEFAULT_PERIOD;
                      counter := match type e with HOTP => counter e | TOTP => 0 end |};
          haveSecret := negb (isEmpty key); badAlgorithm := None; badDigits := None; badType := None |}.
Proof.
  intros (Hn & Hi & Hc) Hlen. unfold migrationParameters in *. rewrite !toUtf8_plain in * by done.
  rewrite !length_app in Hlen. pose proof (pbWriteBytes_length 1 key). pose proof (pbWriteBytes_length 2 (name e)).
  pose proof (pbWriteBytes_length 3 (issuer e)).
  assert (0 <= migrationAlgorithmValue (algorithm e) < 2 ^ 64) by (destruct (algorithm e); simpl; lia).
  pose proof (wrap_range 64 (counter e) ltac:(lia)).
  rewrite eachField_bytes by lia. cbn [parameterStep fieldNumber mbind option_bind].
  rewrite eachField_bytes by lia. cbn [parameterStep fieldNumber mbind option_bind payload].
  rewrite fromUtf8_plain by done.
  assert (Hd : ((if digits e =? 8 then 2 else 1) <=? 2) = true) by (by destruct (digits e =? 8)).
  destruct e as [en ei es ea et ed ep ec]; cbn [name issuer secret algorithm type digits period counter] in *.
  destruct (isEmpty ei) eqn:Ei; [destruct ei; [cbn [app]|done]|rewrite eachField_bytes by lia];
    cbn [parameterStep fieldNumber mbind option_bind payload]; rewrite ?fromUtf8_plain by done;
    rewrite eachField_uint by lia; cbn [parameterStep fieldNumber mbind option_bind varint];
    rewrite migrationAlgorithm_value, eachField_uint by (destruct (ed =? 8); lia);
    cbn [parameterStep fieldNumber mbind option_bind varint]; rewrite Hd, eachField_uint by (destruct et; lia);
    (destruct et; [|rewrite <- (app_nil_r (pbWriteUint 7 _))]);
    cbn [parameterStep fieldNumber mbind option_bind varint]; rewrite ?eachField_uint by lia;
    cbn [parameterStep fieldNumber mbind option_bind varint]; rewrite ?toInt64_u64 by done;
    by destruct (ed =? 8).
Qed.

(** One message of the payload. *)
Lemma readMessage e b key rest acc :
  portable e -> Base32Decode (secret e) = Some (b :: key) ->
  Z.of_nat (length (pbWriteBytes 1 (migrationParameters e (b :: key)))) < 2 ^ 64 ->
  eachField messageStep (pbWriteBytes 1 (migrationParameters e (b :: key)) ++ rest) acc =
  eachField messageStep rest (acc.1 ++ [migrated e], acc.2).
Proof.
  intros Hp Hkey Hlen. pose proof (pbWriteBytes_length 1 (migrationParameters e (b :: key))).
  rewrite eachField_bytes by lia.
  replace (messageStep acc _) with (Some (acc.1 ++ [migrated e], acc.2)); [done|].
  unfold messageStep. cbn [fieldNumber wireType payload]. change (1 =? 1) with true. change (2 =? 2) with true. cbn [negb orb].
  rewrite readParameters by (done || lia). cbn [mbind option_bind]. f_equal.
  unfold settleDraft, migrated. cbn [entry haveSecret badAlgorithm badDigits badType isEmpty negb].
  pose proof (usable_key e) as Hu. rewrite Hkey in Hu. destruct Hu as [_ ->].
  cbn [name]. by destruct (isEmpty (name e)).
Qed.

Lemma migrationEntry_usable e :
  (usable e -> exists b key, Base32Decode (secret e) = Some (b :: key) /\
                             migrationEntry e = pbWriteBytes 1 (migrationParameters e (b :: key))) /\
  (~ usable e -> migrationEntry e = []).
Proof.
  pose proof (usable_key e) as Hu. unfold migrationEntry. destruct (Base32Decode (secret e)) as [[|b key]|]; split; try tauto.
  intros _. by exists b, key.
Qed.

Lemma readMessages es rest acc :
  (forall e, e ∈ es -> portable e) -> Z.of_nat (length (concat (map migrationEntry es))) < 2 ^ 64 ->
  eachField messageStep (concat (map migrationEntry es) ++ rest) acc =
  eachField messageStep rest (acc.1 ++ map migrated (filter usable es), acc.2).
Proof.
  revert acc. induction es as [|e es IH]; intros acc Hp Hlen.
  - rewrite app_nil_r. by destruct acc.
  - cbn [map concat] in *. rewrite length_app in Hlen. destruct (migrationEntry_usable e) as [Hyes Hno].
    rewrite filter_cons. destruct (decide (usable e)) as [Hu|Hu].
    + destruct (Hyes Hu) as (b & key & Hkey & E). rewrite E in *. rewrite <- app_assoc.
      rewrite readMessage by (done || lia || (apply Hp; by left)).
      rewrite IH by (lia || (intros e' He'; apply Hp; by right)). cbn [fst snd map]. by rewrite <- app_assoc.
    + rewrite (Hno Hu) in *. apply IH; [intros e' He'; apply Hp; by right|simpl in Hlen; lia].
Qed.

Lemma migrationPayload_spec es :
  (forall e, e ∈ es -> portable e) -> Z.of_nat (length (migrationPayload es)) < 2 ^ 64 ->
  (filter usable es = [] -> migrationPayload es = []) /\
  (filter usable es <> [] ->
     migrationPayload es <> [] /\ readPayload (migrationPayload es) = Some (map migrated (filter usable es), [])).
Proof.
  intros Hp Hlen.
  assert (Hempty : filter usable es = [] <-> concat (map migrationEntry es) = []).
  { clear Hp Hlen. induction es as [|e es IH]; [done|]. cbn [map concat]. rewrite filter_cons.
    destruct (migrationEntry_usable e) as [Hyes Hno]. destruct (decide (usable e)) as [Hu|Hu].
    - destruct (Hyes Hu) as (b & key & _ & E). rewrite E. split; [done|]. intros Heq. apply app_eq_nil in Heq as [Heq _].
      pose proof (pbWriteBytes_length 1 (migrationParameters e (b :: key))) as Hl. rewrite Heq in Hl. simpl in Hl. lia.
    - by rewrite (Hno Hu). }
  unfold migrationPayload, readPayload in *. split; intros Hf.
  - by rewrite (proj1 Hempty Hf).
  - assert (Hne : concat (map migrationEntry es) <> []) by (intros E; by apply Hf, Hempty).
    replace (isEmpty (concat (map migrationEntry es))) with false in * by (by destruct (concat (map migrationEntry es))).
    split; [intros E; by apply app_eq_nil in E as [E _]|]. rewrite length_app in Hlen.
    rewrite readMessages by (done || lia). reflexivity.
Qed.

#[local] Opaque pbWriteBytes pbWriteUint.

Lemma migrationPayload_bytes es : (forall e, e ∈ es -> portable e) -> bytes (migrationPayload es).
Proof.
  intros Hp. unfold migrationPayload. destruct (isEmpty _); [constructor|].
  repeat apply Forall_app_2; try (apply pbWriteUint_bytes; lia).
  apply Forall_concat, Forall_map, Forall_forall. intros e He. destruct (Hp e He) as (Hn & Hi & Hc).
  unfold migrationEntry. destruct (Base32Decode (secret e)) as [[|b key]|] eqn:Ek; [constructor| |constructor].
  apply Base32Decode_bytes in Ek. apply pbWriteBytes_bytes; [lia|]. unfold migrationParameters. rewrite !toUtf8_plain by done.
  pose proof (wrap_range 64 (counter e) ltac:(lia)) as Hw. fold (wrap 64 (counter e)) in Hw.
  repeat apply bytes_app; try solve_wd.
  - destruct (isEmpty (issuer e)); [constructor|solve_wd].
  - apply pbWriteUint_bytes; [lia|]. destruct (algorithm e); simpl; lia.
  - apply pbWriteUint_bytes; [lia|]. destruct (digits e =? 8); lia.
  - apply pbWriteUint_bytes; [lia|]. destruct (type e); lia.
  - destruct (type e); [constructor|]. apply pbWriteUint_bytes; lia.
Qed.

End RoundTrip.

(** ** Concrete evaluations *)

(** Base32 in place of Base64, and UTF-8 of ASCII. *)
#[export] Instance asciiCodec : QtCodec := {|
  toUtf8 s := s; toBase64 := Base32Encode; fromBase64 s := default [] (Base32Decode s) |}.

#[export] Instance asciiCodecLaws : QtCodecLaws asciiCodec.
Proof.
  split; cbn [toUtf8 toBase64 fromBase64 asciiCodec]; [done| |].
  - intros bs Hbs. destruct (decide (bs = [])) as [->|Hne]; [by split; [constructor|]|]. split.
    + assert (Base32Encode bs = NormalizeSecret (Base32Encode bs)) as ->; [|apply NormalizeSecret_plain].
      unfold NormalizeSecret. rewrite Base32_roundtrip by done. by destruct bs.
    + intros E. by apply Base32Encode_not_nil in E.
  - intros bs Hbs. by rewrite Base32_roundtrip.
Qed.

Definition counterEntry : Entry :=
  issuedEntry <| type := HOTP |> <| digits := 7 |> <| counter := 41 |>.

