(* ===== verification/OtpPaste.v ===== *)
(** * OtpPaste: what the user pastes

    src/global/OTP.cpp: ExportToJson, ParseFromJson, LooksLikeBareSecret and
    ParseAny, which reads a JSON export, or lines of otpauth links, transfer links
    and bare secrets.  Callers that pass no list of problems get the same
    entries.  The text of a JSON document is Qt's ([QtJsonDocument]). *)

From S2P Require Import Prelude Text Json OtpBase32 OtpCodes OtpLinks OtpLinksProps OtpMigration.

Class QtJsonDocument := {
  (** [QJsonDocument::fromJson]; [None] on a parse error. *)
  fromJson : list Z -> option json;
  (** [QJsonDocument(root).toJson(QJsonDocument::Indented)] *)
  toJson : json -> list Z }.

Definition exportDocument (entries : list Entry) : json :=
  JObject (<["otp" := JArray (map (fun e => JObject (entryToJsonObject e)) entries)]> (<["version" := jint 1]> ∅)).

Definition ExportToJson `{QtJsonDocument} (entries : list Entry) : list Z := toJson (exportDocument entries).

Definition MIN_BARE_SECRET_BYTES : Z := 10.

(** The pieces of [line.split(QRegularExpression("[\\s-]+"), Qt::SkipEmptyParts)]. *)
Definition pieces (sep : qchar -> bool) (s : qstring) : list qstring :=
  filter (fun p => p <> []) (splitWhen sep s).

Definition groupBreak (c : qchar) : bool := (c =? 32) || ((9 <=? c) && (c <=? 13)) || (c =? 45).

Definition LooksLikeBareSecret (line : qstring) : bool :=
  match pieces groupBreak line with
  | [] => false
  | [_] => true
  | first :: groups =>
      if (8 <? length first)%nat then false
      else forallb (fun group => Nat.eqb (length group) (length first)) (first :: groups)
  end.

Section Paste.
Context `{QtText} `{QtCase} `{QtNumber} `{QtUrl} `{QtCodec} `{Translator} `{QtJsonText} `{QtJsonDocument}.

(** The result, [out] and [problems] after the call. *)
Definition ParseFromJson (text : list Z) (out : list Entry) (problems : list Problem) : bool * list Entry * list Problem :=
  match fromJson text with
  | None => (false, out, problems)
  | Some document =>
      let array :=
        match document with
        | JArray items => items
        | JObject root => toArray (field root "otp")
        | _ => []
        end in
      if decide (array = []) then (false, out, problems)
      else
        let '(entries, skipped) := parseItems array in
        if decide (entries = []) then (false, out, problems ++ skipped) else (true, entries, problems ++ skipped)
  end.

(** A line that is neither a transfer link nor a readable link. *)
Definition parseBare (line : qstring) (acc : list Entry * list Problem) : list Entry * list Problem :=
  let report problem := (acc.1, acc.2 ++ [problem]) in
  let key := if LooksLikeBareSecret line then NormalizeSecret line else [] in
  if negb (isEmpty key) then
    if MIN_BARE_SECRET_BYTES <=? Z.of_nat (length (default [] (Base32Decode key)))
    then (acc.1 ++ [newEntry <| secret := key |>], acc.2)
    else report (ShortSecret (Z.quot (MIN_BARE_SECRET_BYTES * 8 + 4) 5))
  else report (if LooksLikeBareSecret line then NotBase32Line else NotALine (take 40 line)).

Definition pasteLine (acc : list Entry * list Problem) (rawLine : qstring) : list Entry * list Problem :=
  let line := trimmed rawLine in
  if isEmpty line then acc
  else if startsWithCI line (u "otpauth-migration://") then
    let '(ok, batch, skipped) := ParseFromMigrationLink line [] [] in
    if ok then (acc.1 ++ batch, acc.2 ++ skipped)
    else (acc.1, acc.2 ++ (if decide (skipped = []) then [UnreadableMigration] else []) ++ skipped)
  else match ParseFromLink line with
       | Parsed entry => (acc.1 ++ [entry], acc.2)
       | Refused problem => (acc.1, acc.2 ++ [problem])
       | NotALink =>
           if startsWithCI line (u "otpauth://") then (acc.1, acc.2 ++ [UnreadableLink]) else parseBare line acc
       end.

Definition lineBreak (c : qchar) : bool := (c =? 13) || (c =? 10).

Definition ParseAny (text : qstring) : list Entry * list Problem :=
  let text := trimmed text in
  if isEmpty text then ([], [])
  else if (match text with 123 :: _ | 91 :: _ => true | _ => false end) then
    let '(parsed, result, skipped) := ParseFromJson (toUtf8 text) [] [] in
    (result, (if negb parsed && bool_decide (skipped = []) then [NotAnExport] else []) ++ skipped)
  else fold_left pasteLine (pieces lineBreak text) ([], []).
End Paste.

(** ** Lines *)

Lemma splitWhen_not_nil sep s : splitWhen sep s <> [].
Proof. induction s as [|c s IH]; [done|]. simpl. destruct (sep c); [done|]. by destruct (splitWhen sep s). Qed.

Lemma splitWhen_clean sep s : Forall (fun c => sep c = false) s -> splitWhen sep s = [s].
Proof. induction 1 as [|c s Hc Hs IH]; [done|]. simpl. by rewrite Hc, IH. Qed.

(** Lines joined by newlines are the pieces between the line breaks. *)
Lemma pieces_join ls :
  (forall l, l ∈ ls -> l <> [] /\ Forall (fun c => lineBreak c = false) l) -> pieces lineBreak (joinWith 10 ls) = ls.
Proof.
  unfold pieces. induction ls as [|l ls IH]; intros Hls; [done|].
  destruct (Hls l) as [Hne Hl]; [by left|]. destruct (decide (ls = [])) as [->|Hls'].
  - simpl. by rewrite splitWhen_clean, filter_cons_True.
  - rewrite joinWith_cons, splitWhen_app, filter_cons_True by done. f_equal. apply IH. intros l' Hl'. apply Hls. by right.
Qed.

Section Trim.
Context `{QtText}.

(** A text whose ends are visible is left alone. *)
Lemma trimmed_ends x s y t :
  isSpace x = false -> isSpace y = false -> x :: s = t ++ [y] -> trimmed (x :: s) = x :: s.
Proof.
  intros Hx Hy E. unfold trimmed, dropWhileEnd. simpl dropWhile. rewrite Hx, E, rev_app_distr. simpl. rewrite Hy.
  simpl. by rewrite rev_involutive.
Qed.
End Trim.

(** ** What is never echoed *)

Definition isEcho (p : Problem) : Prop := match p with NotALine _ => True | _ => False end.

Lemma readFields_invariant {A} (P : A -> Prop) (step : A -> Field -> option A) f rest acc acc' :
  (forall a field a', P a -> step a field = Some a' -> P a') ->
  P acc -> readFields f step rest acc = Some acc' -> P acc'.
Proof.
  intros Hstep. revert rest acc. induction f as [|f IH]; intros rest acc Hacc; (destruct rest as [|b rest]; simpl; [by intros [= <-]|]); [done|].
  destruct (pbReadField (b :: rest)) as [[field rest']|]; [|done]. cbn [mbind option_bind].
  destruct (step acc field) as [a|] eqn:E; [|done]. cbn [mbind option_bind]. intros Hr. by eapply IH; [eapply Hstep|].
Qed.

Section Safety.
Context `{QtText} `{QtCase} `{QtNumber} `{QtUrl} `{QtCodec} `{Translator} `{QtJsonText} `{QtJsonDocument}.

Ltac no_echo :=
  lazymatch goal with
  | |- inl _ = inl _ -> _ => intros [= <-]; by intros []
  | |- inr _ = inl _ -> _ => done
  | |- orFail ?v _ _ = _ -> _ => destruct v; cbn [orFail]; no_echo
  | |- andThen ?r _ = _ -> _ => let E := fresh in destruct r eqn:E; cbn [andThen]; [intros [= <-]; revert E; no_echo|no_echo]
  | |- (match ?x with _ => _ end) = _ -> _ => destruct x; no_echo
  end.

Lemma readUrl_no_echo url p : readUrl url = inl p -> ~ isEcho p.
Proof. unfold readUrl, readAlgorithm, readDigits, readPeriod, readCounter. cbv zeta. no_echo. Qed.

Lemma settleDraft_cases d acc :
  (exists e, settleDraft d acc = (acc.1 ++ [e], acc.2)) \/ (exists p, settleDraft d acc = (acc.1, acc.2 ++ [p]) /\ ~ isEcho p).
Proof.
  unfold settleDraft. cbv zeta. destruct (negb _); [right; eexists; split; [done|by intros []]|].
  destruct (badAlgorithm d); [right; eexists; split; [done|by intros []]|].
  destruct (badDigits d); [right; eexists; split; [done|by intros []]|].
  destruct (badType d); [right; eexists; split; [done|by intros []]|]. left. by eexists.
Qed.

Lemma ParseFromMigrationLink_no_echo link ok batch skipped p :
  ParseFromMigrationLink link [] [] = (ok, batch, skipped) -> (ok = true -> batch <> []) /\ (p ∈ skipped -> ~ isEcho p).
Proof.
  assert (Hnil : forall p : Problem, p ∈ [] -> ~ isEcho p) by (intros q Hq; by apply elem_of_nil in Hq).
  unfold ParseFromMigrationLink. destruct (parseUrl _) as [url|]; [|intros [= <- <- <-]; by split; [|apply Hnil]].
  destruct (negb _); [intros [= <- <- <-]; by split; [|apply Hnil]|]. cbv zeta.
  destruct (isEmpty _); [intros [= <- <- <-]; by split; [|apply Hnil]|].
  destruct (isEmpty _); [intros [= <- <- <-]; by split; [|apply Hnil]|].
  destruct (readPayload _) as [[es sk]|] eqn:E; [|intros [= <- <- <-]; by split; [|apply Hnil]].
  assert (Hsk : forall q, q ∈ sk -> ~ isEcho q).
  { change (forall q, q ∈ (es, sk).2 -> ~ isEcho q). revert E.
    apply (readFields_invariant (fun acc => forall q, q ∈ acc.2 -> ~ isEcho q)); [|apply Hnil].
    intros a field a' Ha. unfold messageStep. destruct (_ || _); [by intros [= <-]|].
    destruct (eachField _ _ _) as [d|]; [|done]. cbn [mbind option_bind]. intros [= <-].
    destruct (settleDraft_cases d a) as [[e ->]|(q & -> & Hq)]; cbn [snd]; [done|].
    intros q' [Hq'|Hq']%elem_of_app; [by apply Ha|]. by apply list_elem_of_singleton in Hq' as ->. }
  case_decide; intros [= <- <- <-]; split; try done; apply Hsk.
Qed.

(** What one line adds: something, and an echo only of a line that is neither a
    link nor a possible secret. *)
Lemma pasteLine_adds acc raw :
  exists es ps, pasteLine acc raw = (acc.1 ++ es, acc.2 ++ ps) /\
    (trimmed raw <> [] -> (1 <= length es + length ps)%nat) /\
    (forall s, NotALine s ∈ ps ->
       trimmed raw <> [] /\ s = take 40 (trimmed raw) /\ startsWithCI (trimmed raw) (u "otpauth://") = false /\
       startsWithCI (trimmed raw) (u "otpauth-migration://") = false /\ LooksLikeBareSecret (trimmed raw) = false).
Proof.
  destruct acc as [es0 ps0]. unfold pasteLine. cbv zeta. set (line := trimmed raw). cbn [fst snd].
  assert (Hone : forall (e : Entry), exists es ps, (es0 ++ [e], ps0) = (es0 ++ es, ps0 ++ ps) /\
    (line <> [] -> (1 <= length es + length ps)%nat) /\ (forall s, NotALine s ∈ ps -> False)).
  { intros e. exists [e], []. rewrite app_nil_r. split_and!; [done|simpl; lia|]. intros s Hs. by apply elem_of_nil in Hs. }
  assert (Hprob : forall p : Problem, ~ isEcho p -> exists es ps, (es0, ps0 ++ [p]) = (es0 ++ es, ps0 ++ ps) /\
    (line <> [] -> (1 <= length es + length ps)%nat) /\ (forall s, NotALine s ∈ ps -> False)).
  { intros p Hp. exists [], [p]. rewrite app_nil_r. split_and!; [done|simpl; lia|].
    intros s Hs. apply list_elem_of_singleton in Hs. subst p. by apply Hp. }
  destruct (isEmpty line) eqn:El.
  { exists [], []. rewrite !app_nil_r. split_and!; [done|by destruct line|]. intros s Hs. by apply elem_of_nil in Hs. }
  destruct (startsWithCI line (u "otpauth-migration://")) eqn:Em.
  { destruct (ParseFromMigrationLink line [] []) as [[ok batch] skipped] eqn:E.
    assert (Hno : forall s, NotALine s ∈ skipped -> False).
    { intros s Hs. exact (proj2 (ParseFromMigrationLink_no_echo _ _ _ _ (NotALine s) E) Hs I). }
    destruct (ParseFromMigrationLink_no_echo _ _ _ _ NotAnEntry E) as [Hok _]. destruct ok.
    - exists batch, skipped. split_and!; [done| |by intros s Hs%Hno]. specialize (Hok eq_refl). destruct batch; [done|simpl; lia].
    - exists [], ((if decide (skipped = []) then [UnreadableMigration] else []) ++ skipped). rewrite app_nil_r.
      split_and!; [done| |].
      + intros _. case_decide; [simpl; lia|]. destruct skipped; [done|simpl; lia].
      + intros s [Hs|Hs]%elem_of_app; [|by apply Hno in Hs]. case_decide; [|by apply elem_of_nil in Hs].
        by apply list_elem_of_singleton in Hs. }
  assert (Hweak : forall r : list Entry * list Problem,
    (exists es ps, r = (es0 ++ es, ps0 ++ ps) /\ (line <> [] -> (1 <= length es + length ps)%nat) /\
                   (forall s, NotALine s ∈ ps -> False)) ->
    exists es ps, r = (es0 ++ es, ps0 ++ ps) /\ (line <> [] -> (1 <= length es + length ps)%nat) /\
      (forall s, NotALine s ∈ ps -> line <> [] /\ s = take 40 line /\ startsWithCI line (u "otpauth://") = false /\
         false = false /\ LooksLikeBareSecret line = false)).
  { intros r (es & ps & Hr & Hn & Hno). exists es, ps. split_and!; [done..|]. by intros s Hs%Hno. }
  unfold ParseFromLink. destruct (parseUrl _) as [url|]; [destruct (equalsCI _ _); [destruct (readUrl url) as [p|e] eqn:Er|]|].
  1:{ apply Hweak, Hprob. by apply readUrl_no_echo in Er. }
  1:{ apply Hweak, Hone. }
  all: destruct (startsWithCI line (u "otpauth://")) eqn:Eo; [apply Hweak, Hprob; by intros []|];
    unfold parseBare; cbv zeta; destruct (negb _); [destruct (_ <=? _); [apply Hweak, Hone|apply Hweak, Hprob; by intros []]|];
    destruct (LooksLikeBareSecret line) eqn:Eb; [apply Hweak, Hprob; by intros []|];
    exists [], [NotALine (take 40 line)]; rewrite app_nil_r; (split_and!; [done|simpl; lia|]);
    intros s Hs; apply list_elem_of_singleton in Hs; injection Hs as ->; (split; [by destruct line|done]).
Qed.
End Safety.

(** ** Theorems *)

Section Theorems.
Context `{QtTextLaws} `{QtCaseLaws} `{QtNumberLaws} `{QtUrlLaws} `{QtCodec} `{Translator} `{QtJsonText} {D : QtJsonDocument}.

(** [text] is not taken for a JSON export. *)
Definition isExport (text : qstring) : bool := match text with 123 :: _ | 91 :: _ => true | _ => false end.

(** No line vanishes and no secret is shown.  Pasted text that is not
    JSON gives at least one entry or one problem for every line that is not
    blank; a problem repeats text only of a line that is no otpauth or transfer
    link and does not look like a bare secret, and at most 40 characters of it. *)
Theorem ParseAny_lines (text : qstring) :
  isExport (trimmed text) = false ->
  let lines := filter (fun l => trimmed l <> []) (pieces lineBreak (trimmed text)) in
  let '(entries, problems) := ParseAny text in
  (length lines <= length entries + length problems)%nat /\
  (forall s, NotALine s ∈ problems -> exists line, line ∈ lines /\ s = take 40 (trimmed line) /\
     startsWithCI (trimmed line) (u "otpauth://") = false /\
     startsWithCI (trimmed line) (u "otpauth-migration://") = false /\ LooksLikeBareSecret (trimmed line) = false).
Proof.
  intros Hjson lines. unfold ParseAny, lines. cbv zeta. set (t := trimmed text) in *. clearbody t. clear text lines.
  destruct (isEmpty t) eqn:Et.
  { destruct t; [|done]. split; [done|]. intros s Hs. by apply elem_of_nil in Hs. }
  unfold isExport in Hjson. rewrite Hjson. clear Hjson Et. set (ls := pieces lineBreak t). clearbody ls. clear t.
  induction ls as [|l ls IH] using rev_ind; [split; [done|]; intros s Hs; by apply elem_of_nil in Hs|].
  rewrite fold_left_app. simpl fold_left. destruct (fold_left pasteLine ls ([], [])) as [es ps].
  destruct (pasteLine_adds (es, ps) l) as (es' & ps' & -> & Hn & Hecho). cbn [fst snd]. destruct IH as [IHn IHecho].
  rewrite filter_app, !length_app, filter_cons. split.
  - case_decide as Hl; simpl; [specialize (Hn Hl); lia|lia].
  - intros s [Hs|Hs]%elem_of_app.
    + destruct (IHecho s Hs) as (line & Hin & Hrest). exists line. split; [|done]. apply elem_of_app. by left.
    + destruct (Hecho s Hs) as (Hl & Es & E1 & E2 & E3). exists l. split_and!; try done. apply elem_of_app. right.
      rewrite decide_True by done. by left.
Qed.

Lemma startsWith_mismatch s c d t r : c <> d -> startsWith (s ++ c :: t) (s ++ d :: r) = false.
Proof. intros Hcd. induction s as [|x s IH]; simpl; [by replace (c =? d) with false by lia|]. by rewrite Z.eqb_refl. Qed.

(** What the line of an exported link is like. *)
Lemma exported_line e :
  wellFormed e -> plainLabel e ->
  Forall (fun c => 33 <= c < 127) (ExportToLink e) /\ (exists s, ExportToLink e = u "otpauth" ++ 58 :: s).
Proof.
  intros Hw Hp. pose proof (exportUrl_plain e Hw Hp) as Hu. unfold ExportToLink. fold (exportUrl e).
  split; [by apply formatUrl_visible|]. destruct (formatUrl_scheme _ Hu) as [rest ->]. by eexists.
Qed.

Lemma pasteLine_link e acc :
  wellFormed e -> plainLabel e -> splittable e -> pasteLine acc (ExportToLink e) = (acc.1 ++ [e], acc.2).
Proof.
  intros Hw Hp Hs. destruct (exported_line e Hw Hp) as (Hv & s & E). unfold pasteLine. cbv zeta.
  rewrite trimmed_visible by by apply visible_between.
  replace (isEmpty (ExportToLink e)) with false by by rewrite E.
  replace (startsWithCI (ExportToLink e) _) with false.
  - by rewrite (proj2 (Parse_export_splittable e Hw Hp) Hs).
  - rewrite E. unfold startsWithCI. change (u "otpauth-migration://") with (u "otpauth" ++ 45 :: u "migration://").
    rewrite !map_app. simpl map. symmetry. apply (startsWith_mismatch (map toCaseFolded (u "otpauth"))).
    rewrite !toCaseFolded_ascii by lia. done.
Qed.

Lemma joinWith_last ls :
  ls <> [] -> (forall l, l ∈ ls -> l <> [] /\ Forall (fun c => 33 <= c < 127) l) ->
  exists t y, joinWith 10 ls = t ++ [y] /\ 33 <= y < 127.
Proof.
  intros Hne Hls. induction ls as [|l ls IH]; [done|]. destruct (decide (ls = [])) as [->|Hne'].
  - destruct (Hls l) as [Hl Hv]; [by left|]. destruct l as [|y t _] using rev_ind; [done|]. exists t, y.
    split; [done|]. apply Forall_app in Hv as [_ Hv]. by apply Forall_inv in Hv.
  - destruct IH as (t & y & E & Hy); [done|intros l' Hl'; apply Hls; by right|].
    exists (l ++ 10 :: t), y. by rewrite joinWith_cons, E, <- app_assoc by done.
Qed.

(** Exported links, one per line, are pasted back as the same entries in
    the same order, with nothing reported. *)
Theorem ParseAny_links (entries : list Entry) :
  (forall e, e ∈ entries -> wellFormed e /\ plainLabel e /\ splittable e) ->
  ParseAny (joinWith 10 (map ExportToLink entries)) = (entries, []).
Proof.
  intros Hall. destruct (decide (entries = [])) as [->|Hne]; [done|].
  assert (Hlines : forall l, l ∈ map ExportToLink entries -> l <> [] /\ Forall (fun c => 33 <= c < 127) l).
  { intros l (e & -> & He)%list_elem_of_fmap. destruct (Hall e He) as (Hw & Hp & _).
    destruct (exported_line e Hw Hp) as (Hv & s & E). split; [by rewrite E|done]. }
  destruct (joinWith_last (map ExportToLink entries)) as (t & y & Ey & Hy); [by destruct entries|done|].
  assert (Ehead : exists s, joinWith 10 (map ExportToLink entries) = 111 :: s).
  { destruct entries as [|e es]; [done|]. destruct (Hall e ltac:(by left)) as (Hw & Hp & _).
    destruct (exported_line e Hw Hp) as (_ & s & E). destruct es as [|e' es]; simpl; rewrite E; by eexists. }
  destruct Ehead as [s Es]. unfold ParseAny. cbv zeta.
  rewrite Es, (trimmed_ends 111 s y t), <- Es by (by rewrite <- Es || (rewrite isSpace_ascii by lia; lia)).
  rewrite Es at 1. cbn [isEmpty]. rewrite pieces_join.
  - clear Hne Hlines t y Ey Hy s Es. enough (forall acc, fold_left pasteLine (map ExportToLink entries) (acc, []) = (acc ++ entries, [])) as Hf by apply Hf.
    induction entries as [|e es IH]; intros acc; [by rewrite app_nil_r|]. cbn [map fold_left].
    destruct (Hall e ltac:(by left)) as (Hw & Hp & Hs). rewrite pasteLine_link by done. cbn [fst snd].
    rewrite IH by (intros e' He'; apply Hall; by right). by rewrite <- app_assoc.
  - intros l Hl. destruct (Hlines l Hl) as [Hne' Hv]. split; [done|]. eapply Forall_impl; [exact Hv|]. simpl.
    intros c Hc. unfold lineBreak. lia.
Qed.

(** An export of usable entries whose counters a double holds (all
    below 2^53) is read back as the same entries with nothing reported, when
    Qt reads the document it wrote; and an entry whose counter a double does not
    hold does not survive. *)
Theorem otp_json_roundtrip (entries out : list Entry) (problems : list Problem) :
  (forall e, e ∈ entries -> wellFormed e) -> entries <> [] ->
  fromJson (ExportToJson entries) = Some (exportDocument entries) ->
  (forall e, e ∈ entries -> entryFromJsonObject (entryToJsonObject e) = inr e <-> exact (counter e)) /\
  ((forall e, e ∈ entries -> exact (counter e)) ->
   ParseFromJson (ExportToJson entries) out problems = (true, entries, problems)) /\
  (forall e, e ∈ entries -> counter e < 2 ^ 53 -> exact (counter e)).
Proof.
  intros Hall Hne Hdoc. split_and!.
  - intros e He. by apply entry_json_exact, Hall.
  - intros Hex. unfold ParseFromJson. rewrite Hdoc. unfold exportDocument. cbv zeta.
    unfold field. rewrite lookup_insert_eq. cbn [toArray].
    rewrite decide_False by (by destruct entries). rewrite parseItems_export by (intros e He; split; [by apply Hall|by apply Hex]).
    rewrite decide_False by done. by rewrite app_nil_r.
  - intros e He Hc. apply exact_small. destruct (Hall e He) as (_ & _ & _ & Ht). destruct (type e); lia.
Qed.
End Theorems.

(** ** Concrete evaluations *)

#[export] Instance plainJsonText : QtJsonText := {| numberText := fun _ => []; compactText := fun _ => [] |}.

(** A document store: the export of [issuedEntry], whatever the text. *)
Definition storedDocument : QtJsonDocument :=
  {| fromJson := fun _ => Some (exportDocument [issuedEntry]); toJson := fun _ => u "{}" |}.

Lemma ParseAny_lines_witness :
  let '(entries, problems) := @ParseAny _ _ _ _ _ _ _ storedDocument (u "hello there, otpauth") in
  entries = [] /\ problems = [NotALine (u "hello there, otpauth")] /\
  (length (pieces lineBreak (u "hello there, otpauth")) <= length entries + length problems)%nat.
Proof.
  pose proof (ParseAny_lines (D := storedDocument) (u "hello there, otpauth") eq_refl) as H.
  vm_compute in H. vm_compute. split; [reflexivity|split; [reflexivity|apply H]].
Defined.

Lemma ParseAny_links_witness :
  wellFormed issuedEntry /\
  @ParseAny _ _ _ _ _ _ _ storedDocument (joinWith 10 (map ExportToLink [issuedEntry; issuedEntry])) =
    ([issuedEntry; issuedEntry], []).
Proof.
  destruct issuedEntry_usable as (Hw & Hp & _). split; [exact Hw|].
  apply (ParseAny_links (D := storedDocument) [issuedEntry; issuedEntry]). intros e He.
  assert (e = issuedEntry) as ->.
  { rewrite !elem_of_cons in He. destruct He as [->|[->|He]]; [done|done|by apply elem_of_nil in He]. }
  split_and!; [exact Hw|exact Hp|]. vm_compute. set_solver.
Defined.

Lemma otp_json_roundtrip_witness :
  @ParseFromJson _ _ _ _ _ storedDocument (@ExportToJson storedDocument [issuedEntry]) [] [] = (true, [issuedEntry], []).
Proof.
  destruct issuedEntry_usable as (Hw & _ & _).
  assert (Hall : forall e, e ∈ [issuedEntry] -> wellFormed e) by (intros e He; apply list_elem_of_singleton in He as ->; exact Hw).
  destruct (otp_json_roundtrip (D := storedDocument) [issuedEntry] [] [] Hall) as (_ & H & _); [done|reflexivity|].
  apply H. intros e He. apply list_elem_of_singleton in He as ->. apply exact_small. simpl. lia.
Defined.
