(* ===== verification/EngineTypes.v ===== *)
(** * EngineTypes: the vocabulary of the engine

    include/engine/EngineTypes.h: connection states, start outcomes, start and
    stop requests, mode changes and restart reasons, and the states of the kill
    switch. *)

From S2P Require Import Prelude.

Inductive ConnectionState := Idle | Connecting | Running | Stopping.

Inductive StartOutcome :=
  | Started | Exiting | NotFound | GroupUnavailable | KillSwitchInactive | Superseded | CoreUnavailable
  | BuildFailed | Busy | ExtraCoreBlocked | GeoAssetsMissing | StrictRouteUnavailable | TunFailed | StartFailed.

#[export] Instance ConnectionState_eq_dec : EqDecision ConnectionState.
Proof. solve_decision. Defined.

#[export] Instance StartOutcome_eq_dec : EqDecision StartOutcome.
Proof. solve_decision. Defined.

Record StartRequest := MkRequest { profileId : Z; interactive : bool; serial : Z }.

#[export] Instance StartRequest_eq_dec : EqDecision StartRequest.
Proof. solve_decision. Defined.

(** [StartRequest{}], and [StartRequest{id}]. *)
Definition noRequest : StartRequest := MkRequest (-1) true 0.
Definition requestFor (id : Z) : StartRequest := MkRequest id true 0.

Record StopOptions := MkStop {
  crash : bool; block : bool; manual : bool; stopInteractive : bool; rpcTimeoutMs : Z; skipTests : bool }.

Record ModeChange := MkChange { save : bool; changeInteractive : bool; restart : bool; restartSerial : Z }.

Inductive RunMarker := MarkStarted | MarkSwitched | MarkStopped.

Inductive RestartReason := ReasonSettings | ReasonRouting | ReasonProfile | ReasonGroup.

#[export] Instance RestartReason_eq_dec : EqDecision RestartReason.
Proof. solve_decision. Defined.

(** [Sys::KillSwitch::State], include/sys/KillSwitch.hpp. *)
Inductive KillSwitchState := KsDisabled | KsArming | KsArmed | KsFailed.

#[export] Instance KillSwitchState_eq_dec : EqDecision KillSwitchState.
Proof. solve_decision. Defined.

Definition allowsStart (state : KillSwitchState) : bool :=
  bool_decide (state = KsDisabled) || bool_decide (state = KsArmed).
