(* ===== verification/KillSwitch.v ===== *)
(** * KillSwitch: the guard processes that block traffic outside the proxy

    src/sys/KillSwitch.cpp and KillSwitch.hpp.  The class is the record [Switch];
    its guard processes are a table from their number to [Guard].  A handler of
    the main thread that calls back other code is cut into frames ([todo], the
    rest of the handlers in progress, innermost first): a callback may show a
    modal notice, whose nested event loop takes further events.  [calls] logs the
    callbacks of [whenSettled], [answers] the promises of [permitExtraCore],
    [launches] what was written to each guard, [respawns] when a guard that broke
    was started again.  Log lines are left out. *)

From S2P Require Import Prelude Text Json EngineTypes.

Definition kReadyTimeoutMs : Z := 15000.
Definition kRespawnIntervalMs : Z := 30000.

Definition kPrivilege := u "privilege".
Definition kUnsupported := u "unsupported".
Definition kConfig := u "config".
Definition kInternal := u "internal".
Definition kCrash := u "crash".
Definition kTimeout := u "timeout".
Definition kOverridden := u "overridden".

(** What Qt and the platform answer: the two directions of [QJsonDocument], and
    the absolute, cleaned native form of a path that is not blank. *)
Class Platform := {
  toCompact : jobject -> qstring;
  parseObject : qstring -> jobject;
  absoluteNative : qstring -> qstring }.

(** The settings it reads. *)
Record KsSettings := MkKsSettings {
  ksOn : bool; ksPrepareExit : bool; privateRangeBypassOff : bool; l3Bridge : bool;
  tunIpv4Cidr : qstring; tunIpv6Cidr : qstring; extraCorePaths : list qstring }.

Record GuardConfig := MkGuardConfig { configJson : qstring; configPaths : list qstring }.

(** What [QProcess::state] distinguishes here. *)
Inductive ProcState := PsStarting | PsRunning | PsNotRunning.

#[export] Instance ProcState_eq_dec : EqDecision ProcState.
Proof. solve_decision. Defined.

(** [graceTimer]: the [singleShot] of [closeGuard]; [inputClosed]: its end of the
    guard's input; [stopSent]: [stopHard] was called. *)
Record Guard := MkGuard {
  gConfig : qstring; gLaunch : qstring; gPaths : list qstring; gProc : ProcState; gReadyTimer : bool;
  gReady : bool; gClosing : bool; gInputClosed : bool; gGraceTimer : bool; gStopSent : bool }.

Definition etaGuard (g : Guard) : Guard :=
  MkGuard (gConfig g) (gLaunch g) (gPaths g) (gProc g) (gReadyTimer g) (gReady g) (gClosing g) (gInputClosed g)
    (gGraceTimer g) (gStopSent g).

#[export] Instance set_gProc : Setter gProc := ltac:(setter etaGuard).
#[export] Instance set_gReadyTimer : Setter gReadyTimer := ltac:(setter etaGuard).
#[export] Instance set_gReady : Setter gReady := ltac:(setter etaGuard).
#[export] Instance set_gClosing : Setter gClosing := ltac:(setter etaGuard).
#[export] Instance set_gInputClosed : Setter gInputClosed := ltac:(setter etaGuard).
#[export] Instance set_gGraceTimer : Setter gGraceTimer := ltac:(setter etaGuard).
#[export] Instance set_gStopSent : Setter gStopSent := ltac:(setter etaGuard).

(** Who waits: a caller of [whenSettled], with the number of its context object if
    it gave one, or the promise of [permitExtraCore] ([idle]). *)
Inductive Waiter := WSettled (context : option nat) (id : nat) | WIdle (id : nat) (path : qstring).

Definition isIdle (w : Waiter) : bool := match w with WIdle _ _ => true | WSettled _ _ => false end.
Definition waiterId (w : Waiter) : nat := match w with WIdle id _ => id | WSettled _ id => id end.

(** The rest of a handler.  [FReturn]: the end of a callback of [whenSettled]; the
    event loop it may run takes events while this is the innermost frame. *)
Inductive Frame :=
  | FApplyRest
  | FSettle (waiting : list Waiter)
  | FPermitRest (id : nat) (path : qstring)
  | FLine (guard : nat) (line : qstring)
  | FFinished (guard : nat) (exitCode : Z) (crashed : bool)
  | FReturn.

Record Switch := MkSwitch {
  state_ : KillSwitchState; identityUnsupported_ : bool; identityDetail_ : qstring; overridden_ : bool;
  active_ : option nat; pending_ : option nat; failureCode_ : qstring; failureMessage_ : qstring;
  lastRespawn_ : option Z; waiters_ : list Waiter; shutdown_ : bool;
  guards : gmap nat Guard; nextGuard : nat; retryTimers : nat; portPosts : nat; permitPosts : list (nat * qstring);
  apiPort : Z;
  settings : KsSettings; todo : list Frame; goneContexts : list nat; nextId : nat;
  calls : list (nat * bool); dropped : list nat; answers : list (nat * qstring * bool); launches : list (nat * qstring);
  respawns : list Z; changes : list KillSwitchState }.

Definition etaSwitch (s : Switch) : Switch :=
  MkSwitch (state_ s) (identityUnsupported_ s) (identityDetail_ s) (overridden_ s) (active_ s) (pending_ s)
    (failureCode_ s) (failureMessage_ s) (lastRespawn_ s) (waiters_ s) (shutdown_ s) (guards s) (nextGuard s)
    (retryTimers s) (portPosts s) (permitPosts s) (apiPort s) (settings s) (todo s) (goneContexts s) (nextId s) (calls s) (dropped s)
    (answers s) (launches s) (respawns s) (changes s).

#[export] Instance set_state_ : Setter state_ := ltac:(setter etaSwitch).
#[export] Instance set_identityUnsupported_ : Setter identityUnsupported_ := ltac:(setter etaSwitch).
#[export] Instance set_identityDetail_ : Setter identityDetail_ := ltac:(setter etaSwitch).
#[export] Instance set_overridden_ : Setter overridden_ := ltac:(setter etaSwitch).
#[export] Instance set_active_ : Setter active_ := ltac:(setter etaSwitch).
#[export] Instance set_pending_ : Setter pending_ := ltac:(setter etaSwitch).
#[export] Instance set_failureCode_ : Setter failureCode_ := ltac:(setter etaSwitch).
#[export] Instance set_failureMessage_ : Setter failureMessage_ := ltac:(setter etaSwitch).
#[export] Instance set_lastRespawn_ : Setter lastRespawn_ := ltac:(setter etaSwitch).
#[export] Instance set_waiters_ : Setter waiters_ := ltac:(setter etaSwitch).
#[export] Instance set_shutdown_ : Setter shutdown_ := ltac:(setter etaSwitch).
#[export] Instance set_guards : Setter guards := ltac:(setter etaSwitch).
#[export] Instance set_nextGuard : Setter nextGuard := ltac:(setter etaSwitch).
#[export] Instance set_retryTimers : Setter retryTimers := ltac:(setter etaSwitch).
#[export] Instance set_portPosts : Setter portPosts := ltac:(setter etaSwitch).
#[export] Instance set_permitPosts : Setter permitPosts := ltac:(setter etaSwitch).
#[export] Instance set_apiPort : Setter apiPort := ltac:(setter etaSwitch).
#[export] Instance set_settings : Setter settings := ltac:(setter etaSwitch).
#[export] Instance set_todo : Setter todo := ltac:(setter etaSwitch).
#[export] Instance set_goneContexts : Setter goneContexts := ltac:(setter etaSwitch).
#[export] Instance set_nextId : Setter nextId := ltac:(setter etaSwitch).
#[export] Instance set_calls : Setter calls := ltac:(setter etaSwitch).
#[export] Instance set_dropped : Setter dropped := ltac:(setter etaSwitch).
#[export] Instance set_answers : Setter answers := ltac:(setter etaSwitch).
#[export] Instance set_launches : Setter launches := ltac:(setter etaSwitch).
#[export] Instance set_respawns : Setter respawns := ltac:(setter etaSwitch).
#[export] Instance set_changes : Setter changes := ltac:(setter etaSwitch).

(** ** Reading the state *)

Definition failedForPrivileges (s : Switch) : bool :=
  bool_decide (state_ s = KsFailed) && bool_decide (failureCode_ s = kPrivilege).

Definition failedPersistently (s : Switch) : bool :=
  bool_decide (state_ s = KsFailed) &&
  bool_decide (failureCode_ s ∈ [kPrivilege; kUnsupported; kConfig; kOverridden]).

Definition failedForIdentity (s : Switch) : bool :=
  bool_decide (state_ s = KsFailed) && bool_decide (failureCode_ s = kUnsupported) && identityUnsupported_ s &&
  (bool_decide (is_Some (active_ s)) || bool_decide (is_Some (pending_ s))).

Definition killSwitchIdentityMessage (detail : qstring) : qstring :=
  u "the core cannot adopt the kill-switch group 1950896719 here (it needs CAP_SETGID and that GID mapped in this user namespace); the kill switch keeps blocking traffic, and profiles stay refused until kill_switch is turned off" ++
  (if bool_decide (detail = []) then [] else u "; the core reported: " ++ detail).

Definition overriddenMessage : qstring :=
  u "turned off for this run by --no-kill-switch (THRONE_KILL_SWITCH); profiles stay refused until kill_switch is turned off".

(** ** Small steps *)

Definition next (fs : list Frame) (s : Switch) : Switch := s <| todo := fs ++ todo s |>.

Definition updateGuard (f : Guard -> Guard) (g : nat) (s : Switch) : Switch := s <| guards := alter f g (guards s) |>.

(** [deleteLater]. *)
Definition deleteGuard (g : nat) (s : Switch) : Switch := s <| guards := delete g (guards s) |>.

Definition stopHard (g : nat) (s : Switch) : Switch := updateGuard (fun r => r <| gStopSent := true |>) g s.

Definition setState (state : KillSwitchState) (s : Switch) : Switch :=
  let s := if bool_decide (state = KsFailed) then s else (s <| failureCode_ := [] |>) <| failureMessage_ := [] |> in
  if bool_decide (state_ s = state) then s
  else (s <| state_ := state |>) <| changes := changes s ++ [state] |>.

Definition settle (s : Switch) : Switch := next [FSettle (waiters_ s)] (s <| waiters_ := [] |>).

Definition fail (code message : qstring) (s : Switch) : Switch :=
  settle (setState KsFailed ((s <| failureCode_ := code |>) <| failureMessage_ := message |>)).

Definition failIdentity (s : Switch) : Switch :=
  let message := killSwitchIdentityMessage (identityDetail_ s) in
  let s :=
    if bool_decide (state_ s = KsFailed) && bool_decide (failureCode_ s = kUnsupported) && bool_decide (failureMessage_ s = message)
    then s
    else setState KsFailed ((s <| failureCode_ := kUnsupported |>) <| failureMessage_ := message |>) in
  settle s.

Definition closeGuard (g : option nat) (s : Switch) : Switch :=
  match g with
  | None => s
  | Some g =>
      match guards s !! g with
      | None => s
      | Some r =>
          if gClosing r then s
          else if bool_decide (gProc r = PsNotRunning) then deleteGuard g s
          else updateGuard (fun r => (((r <| gClosing := true |>) <| gReadyTimer := false |>) <| gInputClosed := true |>)
                                       <| gGraceTimer := true |>) g s
      end
  end.

(** [closeGuard(std::exchange(pending_, nullptr))], and of [active_]. *)
Definition closePending (s : Switch) : Switch := closeGuard (pending_ s) (s <| pending_ := None |>).
Definition closeActive (s : Switch) : Switch := closeGuard (active_ s) (s <| active_ := None |>).

Inductive Os := Linux | MacOS | Windows.

#[export] Instance Os_eq_dec : EqDecision Os.
Proof. solve_decision. Defined.

Section KillSwitch.
Context `{QtText} `{Platform} (os : Os).

(** ** The configuration of a guard *)

Definition tunName : qstring := if bool_decide (os = MacOS) then [] else u "throne-tun".

Definition bridgeName (p : KsSettings) : qstring :=
  if bool_decide (os = Linux) && l3Bridge p then u "throne-br" else [].

Definition nativePath (path : qstring) : qstring :=
  if bool_decide (trimmed path = []) then [] else absoluteNative (trimmed path).

Definition containsPath (paths : list qstring) (path : qstring) : bool := existsb (fun p => equalsCI p path) paths.

Definition listsPath (paths : list qstring) (path : qstring) : bool := containsPath paths (nativePath path).

Definition buildPaths (p : KsSettings) : list qstring :=
  if bool_decide (os = Windows) then
    fold_left (fun paths path =>
      let native := nativePath path in
      if negb (bool_decide (native = [])) && negb (containsPath paths native) then paths ++ [native] else paths)
      (extraCorePaths p) []
  else [].

Definition buildConfig (s : Switch) : GuardConfig :=
  let p := settings s in
  let paths := buildPaths p in
  MkGuardConfig
    (toCompact (list_to_map
      [("allow_lan"%string, JBool (negb (privateRangeBypassOff p))); ("tun_name"%string, JString tunName);
       ("tun_cidrs"%string, JArray [JString (tunIpv4Cidr p); JString (tunIpv6Cidr p)]);
       ("extra_paths"%string, JArray (map JString paths)); ("bridge_name"%string, JString (bridgeName p));
       ("api_port"%string, jint (apiPort s))]))
    paths.

(** ** Starting and closing guards *)

(** Up to the request to start the process; a start that fails at once is an
    [EStartFailed] that follows. *)
Definition spawn (config : GuardConfig) (s : Switch) : Switch :=
  let s := closePending s in
  let g := nextGuard s in
  let launch :=
    if bool_decide (is_Some (active_ s))
    then toCompact (<["keep_states"%string := JBool true]> (parseObject (configJson config)))
    else configJson config in
  let r := MkGuard (configJson config) launch (configPaths config) PsStarting true false false false false false in
  let s := ((s <| guards := <[g := r]> (guards s) |>) <| nextGuard := Datatypes.S g |>) <| pending_ := Some g |> in
  if negb (bool_decide (is_Some (active_ s))) && negb (identityUnsupported_ s) then setState KsArming s else s.

(** The rest of [apply], once an identity failure was reported. *)
Definition applyRest (s : Switch) : Switch :=
  let config := buildConfig s in
  let has o := bool_decide (fmap gConfig (o ≫= fun g => guards s !! g) = Some (configJson config)) in
  if has (pending_ s) then s
  else if has (active_ s) then
    (if bool_decide (is_Some (pending_ s)) then settle (closePending s) else s)
  else spawn config s.

Definition apply (s : Switch) : Switch :=
  if shutdown_ s then s
  else if negb (ksOn (settings s)) then
    let s := (s <| identityUnsupported_ := false |>) <| identityDetail_ := [] |> in
    settle (setState KsDisabled (closeActive (closePending s)))
  else if overridden_ s then
    let s := closeActive (closePending s) in
    if bool_decide (state_ s = KsFailed) && bool_decide (failureCode_ s = kOverridden) &&
       bool_decide (failureMessage_ s = overriddenMessage)
    then settle s else fail kOverridden overriddenMessage s
  else if identityUnsupported_ s && bool_decide (state_ s = KsArmed) then failIdentity (next [FApplyRest] s)
  else applyRest s.

Definition noteIdentityUnsupported (detail : qstring) (s : Switch) : Switch :=
  apply ((s <| identityDetail_ := detail |>) <| identityUnsupported_ := true |>).

(** [SetApiPort], on any thread, and what it posts. *)
Definition SetApiPort (port : Z) (s : Switch) : Switch :=
  if apiPort s =? port then s else (s <| apiPort := port |>) <| portPosts := Datatypes.S (portPosts s) |>.

Definition apiPortChanged (s : Switch) : Switch :=
  if negb (bool_decide (state_ s = KsArming)) && negb (bool_decide (state_ s = KsArmed)) &&
     negb (bool_decide (is_Some (active_ s))) && negb (bool_decide (is_Some (pending_ s))) then s
  else if ksPrepareExit (settings s) then s
  else apply s.

(** ** Waiting *)

Definition activeLists (path : qstring) (s : Switch) : bool :=
  match active_ s ≫= fun g => guards s !! g with
  | Some r => listsPath (gPaths r) path
  | None => false
  end.

Definition answerSettled (id : nat) (s : Switch) : Switch :=
  s <| calls := calls s ++ [(id, bool_decide (state_ s = KsArmed))] |>.

(** The callback [permitExtraCore] gives to [whenIdle]. *)
Definition answerPermit (id : nat) (path : qstring) (s : Switch) : Switch :=
  s <| answers := answers s ++ [(id, path, bool_decide (state_ s = KsArmed) && activeLists path s)] |>.

Definition freshId (s : Switch) : nat * Switch := (nextId s, s <| nextId := Datatypes.S (nextId s) |>).

Definition whenSettled (context : option nat) (s : Switch) : Switch :=
  let '(id, s) := freshId s in
  if bool_decide (state_ s = KsArming) then s <| waiters_ := waiters_ s ++ [WSettled context id] |> else answerSettled id s.

Definition whenIdle (id : nat) (path : qstring) (s : Switch) : Switch :=
  if bool_decide (is_Some (pending_ s)) then s <| waiters_ := waiters_ s ++ [WIdle id path] |> else answerPermit id path s.

(** Whether a waiter must wait on. *)
Definition waitsOn (w : Waiter) (s : Switch) : bool :=
  if isIdle w then bool_decide (is_Some (pending_ s)) else bool_decide (state_ s = KsArming).

Definition contextGone (w : Waiter) (s : Switch) : bool :=
  match w with WSettled (Some o) _ => bool_decide (o ∈ goneContexts s) | _ => false end.

Definition callWaiter (w : Waiter) (s : Switch) : Switch :=
  match w with
  | WSettled _ id => next [FReturn] (answerSettled id s)
  | WIdle id path => answerPermit id path s
  end.

(** One turn of [settle]'s loop. *)
Definition settleTurn (waiting : list Waiter) (s : Switch) : Switch :=
  match waiting with
  | [] => s
  | w :: ws =>
      let s := next [FSettle ws] s in
      if waitsOn w s then s <| waiters_ := waiters_ s ++ [w] |>
      else if contextGone w s then s <| dropped := dropped s ++ [waiterId w] |>
      else callWaiter w s
  end.

(** [permitExtraCore] on its worker thread, and what it posts. *)
Definition permitExtraCore (path : qstring) (s : Switch) : Switch :=
  let '(id, s) := freshId s in
  if negb (bool_decide (os = Windows)) || bool_decide (state_ s = KsDisabled)
  then s <| answers := answers s ++ [(id, path, true)] |>
  else s <| permitPosts := permitPosts s ++ [(id, path)] |>.

(** [SettingsRepo::AddExtraCorePath]. *)
Definition AddExtraCorePath (path : qstring) (p : KsSettings) : KsSettings :=
  if bool_decide (path ∈ extraCorePaths p) then p
  else MkKsSettings (ksOn p) (ksPrepareExit p) (privateRangeBypassOff p) (l3Bridge p) (tunIpv4Cidr p) (tunIpv6Cidr p)
         (extraCorePaths p ++ [path]).

Definition permitOnUi (id : nat) (path : qstring) (s : Switch) : Switch :=
  if bool_decide (state_ s = KsDisabled) || activeLists path s
  then s <| answers := answers s ++ [(id, path, true)] |>
  else apply (next [FPermitRest id path] (s <| settings := AddExtraCorePath path (settings s) |>)).

(** ** Failures *)

Definition unfixable (code : qstring) : bool := bool_decide (code ∈ [kPrivilege; kUnsupported; kConfig]).

Definition armFailed (code message : qstring) (s : Switch) : Switch :=
  if bool_decide (is_Some (active_ s)) then
    let s := if unfixable code then s else s <| retryTimers := Datatypes.S (retryTimers s) |> in settle s
  else fail code message s.

(** The timer of [armFailed]. *)
Definition retryFired (s : Switch) : Switch :=
  if shutdown_ s || bool_decide (is_Some (pending_ s)) || negb (bool_decide (is_Some (active_ s))) then s
  else if ksPrepareExit (settings s) then s
  else apply s.

Definition protectionLost (code message : qstring) (now : Z) (s : Switch) : Switch :=
  if shutdown_ s then s
  else if negb (ksOn (settings s)) then apply s
  else if bool_decide (is_Some (pending_ s)) then
    settle (if identityUnsupported_ s then s else setState KsArming s)
  else if negb (unfixable code) && (match lastRespawn_ s with Some at_ => kRespawnIntervalMs <? now - at_ | None => true end)
  then spawn (buildConfig s) ((s <| lastRespawn_ := Some now |>) <| respawns := respawns s ++ [now] |>)
  else fail code message s.

(** A guard that is [active_] or [pending_] and failed. *)
Definition guardLost (g : nat) (s : Switch) : bool * bool * Switch :=
  let wasActive := bool_decide (active_ s = Some g) in
  let wasPending := bool_decide (pending_ s = Some g) in
  let s := if wasActive then s <| active_ := None |> else s in
  let s := if wasPending then s <| pending_ := None |> else s in
  (wasActive, wasPending, s).

(** ** What a guard says *)

Definition onReady (g : nat) (s : Switch) : Switch :=
  match guards s !! g with
  | None => s
  | Some r =>
      if negb (bool_decide (pending_ s = Some g)) || gReady r then s
      else
        let s := updateGuard (fun r => (r <| gReady := true |>) <| gReadyTimer := false |>) g s in
        let previous := active_ s in
        let s := closeGuard previous ((s <| active_ := Some g |>) <| pending_ := None |>) in
        if identityUnsupported_ s then failIdentity s else settle (setState KsArmed s)
  end.

(** [line.section(' ', 0, 0)] and [line.section(' ', 1)]. *)
Definition firstWord (line : qstring) : qstring :=
  match indexOfChar 32 line with Some i => take i line | None => line end.

Definition afterWord (line : qstring) : qstring :=
  match indexOfChar 32 line with Some i => drop (Datatypes.S i) line | None => [] end.

Definition handleLine (g : nat) (line : qstring) (now : Z) (s : Switch) : Switch :=
  let verb := firstWord line in
  let rest := afterWord line in
  if bool_decide (verb = u "WARN") then s
  else if bool_decide (verb = u "READY") then onReady g s
  else if negb (bool_decide (verb = u "ERROR")) && negb (bool_decide (verb = u "FAIL")) then s
  else
    match guards s !! g with
    | None => s
    | Some r =>
        if gClosing r then s
        else
          let '(wasActive, wasPending, s) := guardLost g s in
          let s := closeGuard (Some g) s in
          if wasActive then protectionLost (firstWord rest) (afterWord rest) now s
          else if wasPending then armFailed (firstWord rest) (afterWord rest) s
          else s
    end.

(** [readOutput], with the lines that can be read. *)
Definition readOutput (g : nat) (lines : list qstring) (s : Switch) : Switch :=
  next (map (FLine g) (filter (fun l => l <> []) (map trimmed lines))) s.

Definition onReadyTimeout (g : nat) (s : Switch) : Switch :=
  match guards s !! g with
  | None => s
  | Some r =>
      if negb (bool_decide (pending_ s = Some g)) || gReady r then s
      else
        let s := stopHard g (closeGuard (Some g) (s <| pending_ := None |>)) in
        armFailed kTimeout (u "the kill switch did not respond within " ++ number 10 (kReadyTimeoutMs / 1000) ++ u " seconds") s
  end.

Definition onStartFailed (g : nat) (message : qstring) (s : Switch) : Switch :=
  match guards s !! g with
  | None => s
  | Some r =>
      let wasPending := negb (gClosing r) && bool_decide (pending_ s = Some g) in
      let s := if wasPending then s <| pending_ := None |> else s in
      let s := deleteGuard g s in
      if wasPending then armFailed kInternal message s else s
  end.

(** After its last output was read. *)
Definition finishedRest (g : nat) (exitCode : Z) (crashed : bool) (now : Z) (s : Switch) : Switch :=
  let open := match guards s !! g with Some r => negb (gClosing r) | None => false end in
  let '(wasActive, wasPending, s) := if open then guardLost g s else (false, false, s) in
  let s := deleteGuard g s in
  let exited := u "the kill switch process exited with code " ++ number 10 exitCode in
  if wasActive then
    protectionLost kCrash (if crashed then u "the kill switch process crashed" else exited) now s
  else if wasPending then
    armFailed kCrash (if crashed then u "the kill switch process crashed before it was ready"
                      else exited ++ u " before it was ready") s
  else s.

(** The process is over when this runs; its object stays until it returns. *)
Definition onFinished (g : nat) (lines : list qstring) (exitCode : Z) (crashed : bool) (s : Switch) : Switch :=
  readOutput g lines
    (next [FFinished g exitCode crashed] (updateGuard (fun r => r <| gProc := PsNotRunning |>) g s)).

(** ** [shutdown] *)

Definition closeForExit (r : Guard) : Guard :=
  let r := (r <| gClosing := true |>) <| gReadyTimer := false |> in
  if bool_decide (gProc r = PsNotRunning) then r else r <| gInputClosed := true |>.

(** [inTime]: the guards that exit before the deadline; the others are stopped. *)
Definition stopLate (inTime : list nat) (g : nat) (r : Guard) : option Guard :=
  if bool_decide (g ∈ inTime) || bool_decide (gProc r = PsNotRunning) then None else Some (r <| gStopSent := true |>).

Definition shutdown (inTime : list nat) (s : Switch) : Switch :=
  if shutdown_ s then s
  else
    let ids := map waiterId (waiters_ s) in
    let s := (((s <| shutdown_ := true |>) <| waiters_ := [] |>) <| active_ := None |>) <| pending_ := None |> in
    let s := s <| dropped := dropped s ++ ids |> in
    s <| guards := map_imap (stopLate inTime) (closeForExit <$> guards s) |>.

(** ** The machine *)

(** [EGone]: an object given to [whenSettled] was destroyed.  [EContinue]: the
    main thread goes on with the innermost handler in progress. *)
Inductive Event :=
  | EApply | EIdentity (detail : qstring) | EOverride (overridden : bool) | EApiPort (port : Z) | EPortPost
  | EWhenSettled (context : option nat) | EGone (context : nat) | EPermit (path : qstring) | EPermitPost
  | EStarted (guard : nat) | EStartFailed (guard : nat) (message : qstring) | EOutput (guard : nat) (lines : list qstring)
  | EFinished (guard : nat) (lines : list qstring) (exitCode : Z) (crashed : bool)
  | EReadyTimer (guard : nat) | EGraceTimer (guard : nat) | ERetryTimer
  | EShutdown (inTime : list nat) | ESettings (p : KsSettings) | EContinue.

Definition runFrame (f : Frame) (now : Z) (s : Switch) : Switch :=
  match f with
  | FApplyRest => applyRest s
  | FSettle waiting => settleTurn waiting s
  | FPermitRest id path => whenIdle id path s
  | FLine g line => handleLine g line now s
  | FFinished g exitCode crashed => finishedRest g exitCode crashed now s
  | FReturn => s
  end.

(** [QProcess::started]. *)
Definition onStarted (g : nat) (s : Switch) : Switch :=
  match guards s !! g with
  | Some r =>
      let s := updateGuard (fun r => r <| gProc := PsRunning |>) g s in
      if gClosing r then s else s <| launches := launches s ++ [(g, gLaunch r)] |>
  | None => s
  end.

Definition procOf (g : nat) (s : Switch) : ProcState :=
  match guards s !! g with Some r => gProc r | None => PsNotRunning end.

Definition flagOf (f : Guard -> bool) (g : nat) (s : Switch) : bool :=
  match guards s !! g with Some r => f r | None => false end.

(** An event of the main thread, while it is in its event loop.  A process that
    could not be started has written nothing, so its guard is not ready. *)
Definition onMain (s : Switch) : bool := match todo s with [] | FReturn :: _ => true | _ => false end.

Definition handleMain (e : Event) (s : Switch) : Switch :=
  match e with
  | EApply => apply s
  | EIdentity detail => noteIdentityUnsupported detail s
  | EOverride overridden => s <| overridden_ := overridden |>
  | EPortPost => match portPosts s with O => s | Datatypes.S n => apiPortChanged (s <| portPosts := n |>) end
  | EWhenSettled context => whenSettled context s
  | EGone context => s <| goneContexts := context :: goneContexts s |>
  | EPermitPost =>
      match permitPosts s with (id, path) :: ps => permitOnUi id path (s <| permitPosts := ps |>) | [] => s end
  | EStarted g => if bool_decide (procOf g s = PsStarting) then onStarted g s else s
  | EStartFailed g message =>
      if bool_decide (procOf g s = PsStarting) && negb (flagOf gReady g s) then onStartFailed g message s else s
  | EOutput g lines => if bool_decide (procOf g s = PsRunning) then readOutput g lines s else s
  | EFinished g lines exitCode crashed =>
      if bool_decide (procOf g s = PsRunning) then onFinished g lines exitCode crashed s else s
  | EReadyTimer g =>
      if flagOf gReadyTimer g s then onReadyTimeout g (updateGuard (fun r => r <| gReadyTimer := false |>) g s) else s
  | EGraceTimer g =>
      if flagOf gGraceTimer g s then
        let s := updateGuard (fun r => r <| gGraceTimer := false |>) g s in
        if bool_decide (procOf g s = PsNotRunning) then s else stopHard g s
      else s
  | ERetryTimer => match retryTimers s with O => s | Datatypes.S n => retryFired (s <| retryTimers := n |>) end
  | EShutdown inTime => shutdown inTime s
  | ESettings p => s <| settings := p |>
  | EApiPort _ | EPermit _ | EContinue => s
  end.

Definition handle (now : Z) (e : Event) (s : Switch) : Switch :=
  match e with
  | EApiPort port => SetApiPort port s
  | EPermit path => permitExtraCore path s
  | EContinue => match todo s with f :: fs => runFrame f now (s <| todo := fs |>) | [] => s end
  | _ => if onMain s then handleMain e s else s
  end.

Definition run (es : list (Z * Event)) (s : Switch) : Switch := fold_left (fun s e => handle e.1 e.2 s) es s.

Lemma run_cons now e es s : run ((now, e) :: es) s = run es (handle now e s).
Proof. done. Qed.

Lemma switch_run_app es1 es2 s : run (es1 ++ es2) s = run es2 (run es1 s).
Proof. unfold run. apply fold_left_app. Qed.

(** As constructed. *)
Definition newSwitch (p : KsSettings) : Switch :=
  MkSwitch KsDisabled false [] false None None [] [] None [] false ∅ O O O [] 0 p [] [] O [] [] [] [] [] [].

Definition reachable (s : Switch) : Prop := exists p es, s = run es (newSwitch p).

Lemma switch_reachable_ind (P : Switch -> Prop) :
  (forall p, P (newSwitch p)) -> (forall now e s, reachable s -> P s -> P (handle now e s)) -> forall s, reachable s -> P s.
Proof.
  intros Hnew Hs s (p & es & ->). induction es as [|[now e] es IH] using rev_ind; [apply Hnew|].
  unfold run. rewrite fold_left_app. cbn. apply Hs; [|exact IH]. by exists p, es.
Qed.

Lemma reachable_handle now e s : reachable s -> reachable (handle now e s).
Proof. intros (p & es & ->). exists p, (es ++ [(now, e)]). unfold run. by rewrite fold_left_app. Qed.
End KillSwitch.
