(* ===== verification/KillSwitchProps.v ===== *)
(** * KillSwitchProps: what the kill switch guarantees

    The invariant of its guards, state and waiters, and what follows: starts are
    allowed only behind a ready guard or with the switch off, protection ends only
    for a cause, every waiter is answered once. *)

From S2P Require Import Prelude Text Json EngineTypes KillSwitch.

(** ** The table of guards *)

Section Table.
Implicit Types (a p : option nat) (gs : gmap nat Guard) (n : nat) (r : Guard).

(** A guard being closed: its input is closed and it will be stopped if it does
    not exit. *)
Definition closed (r : Guard) : Prop :=
  gReadyTimer r = false /\
  (gProc r <> PsNotRunning -> gInputClosed r = true /\ (gGraceTimer r = true \/ gStopSent r = true)).

Record Table a p gs n : Prop := MkTable {
  tb_fresh g r : gs !! g = Some r -> (g < n)%nat;
  tb_closed g r : gs !! g = Some r -> gClosing r = true -> closed r;
  tb_active g : a = Some g -> exists r, gs !! g = Some r /\ gReady r = true /\ gClosing r = false;
  tb_pending g : p = Some g -> exists r, gs !! g = Some r /\ gReady r = false /\ gClosing r = false /\ gReadyTimer r = true;
  tb_owned g r : gs !! g = Some r -> gClosing r = false -> a = Some g \/ p = Some g;
  tb_timer g r : gs !! g = Some r -> gReadyTimer r = true -> p = Some g }.

Lemma table_distinct a p gs n g : Table a p gs n -> a = Some g -> p = Some g -> False.
Proof. intros T Ha Hp. destruct (tb_active _ _ _ _ T g Ha) as (r & E & Hr & _), (tb_pending _ _ _ _ T g Hp) as (r' & E' & Hr' & _). congruence. Qed.

(** The table once a guard that is let go is closed or deleted. *)
Definition closedRecord r : Guard :=
  (((r <| gClosing := true |>) <| gReadyTimer := false |>) <| gInputClosed := true |>) <| gGraceTimer := true |>.

Definition closeIn (g : option nat) gs : gmap nat Guard :=
  match g with
  | None => gs
  | Some g =>
      match gs !! g with
      | Some r => if gClosing r then gs else if bool_decide (gProc r = PsNotRunning) then delete g gs else alter closedRecord g gs
      | None => gs
      end
  end.

Lemma closeIn_lookup g gs g' r' :
  closeIn g gs !! g' = Some r' ->
  (g <> Some g' /\ gs !! g' = Some r') \/
  (g = Some g' /\ ((gs !! g' = Some r' /\ gClosing r' = true) \/ exists r, gs !! g' = Some r /\ gClosing r = false /\ r' = closedRecord r)).
Proof.
  unfold closeIn. destruct g as [g|]; [|intros E; left; split; [done|exact E]].
  destruct (gs !! g) as [r|] eqn:Eg; [|intros E; left; split; [congruence|done]].
  destruct (gClosing r) eqn:Ec.
  { intros E. destruct (decide (g = g')) as [->|]; [|left; split; [congruence|done]]. right. split; [done|]. left.
    split; [done|]. congruence. }
  case_bool_decide.
  - intros [? E]%lookup_delete_Some. left. split; [congruence|done].
  - intros E. destruct (decide (g = g')) as [->|Hne].
    + rewrite lookup_alter_eq, Eg in E. injection E as <-. right. split; [done|]. right. by exists r.
    + rewrite lookup_alter_ne in E by done. left. split; [congruence|done].
Qed.

Lemma closeIn_other g gs g' : g <> Some g' -> closeIn g gs !! g' = gs !! g'.
Proof.
  intros Hne. unfold closeIn. destruct g as [g|]; [|done]. destruct (gs !! g) as [r|]; [|done]. destruct (gClosing r); [done|].
  case_bool_decide; [rewrite lookup_delete_ne by congruence; done|rewrite lookup_alter_ne by congruence; done].
Qed.

(** Letting go of the active guard, of the pending one, or both. *)
Lemma table_close a p a' p' gs n g :
  Table a p gs n -> (forall x, a' = Some x -> a = Some x /\ g <> Some x) -> (forall x, p' = Some x -> p = Some x /\ g <> Some x) ->
  (forall x, a = Some x -> a' = Some x \/ g = Some x) -> (forall x, p = Some x -> p' = Some x \/ g = Some x) ->
  Table a' p' (closeIn g gs) n.
Proof.
  intros T Ha Hp Ha' Hp'. split.
  - intros x r' [[_ E]|[_ [[E _]|(r & E & _)]]]%closeIn_lookup; by eapply tb_fresh.
  - intros x r' [[_ E]|[_ [[E _]|(r & E & _ & ->)]]]%closeIn_lookup Hc; [by eapply tb_closed|by eapply tb_closed|].
    split; [done|]. intros _. split; [done|]. by left.
  - intros x Hx. destruct (Ha x Hx) as [E Hne]. rewrite closeIn_other by done. by eapply tb_active.
  - intros x Hx. destruct (Hp x Hx) as [E Hne]. rewrite closeIn_other by done. by eapply tb_pending.
  - intros x r' [[Hne E]|[-> [[E Hc]|(r & E & _ & ->)]]]%closeIn_lookup Hc'; [|congruence|done].
    destruct (tb_owned _ _ _ _ T x r' E Hc') as [H|H]; [destruct (Ha' x H)|destruct (Hp' x H)]; tauto.
  - intros x r' [[Hne E]|[-> [[E Hc]|(r & E & _ & ->)]]]%closeIn_lookup Ht; [| |done].
    + destruct (Hp' x (tb_timer _ _ _ _ T x r' E Ht)); tauto.
    + destruct (tb_closed _ _ _ _ T x r' E Hc) as [H _]. congruence.
Qed.
End Table.

Lemma guards_closeGuard g s : guards (closeGuard g s) = closeIn g (guards s).
Proof.
  unfold closeGuard, closeIn. destruct g as [g|]; [|done]. destruct (guards s !! g) as [r|]; [|done].
  destruct (gClosing r); [done|]. by case_bool_decide.
Qed.

(** What a step leaves alone. *)
Definition sameBut (s s' : Switch) : Prop :=
  shutdown_ s' = shutdown_ s /\ state_ s' = state_ s /\ identityUnsupported_ s' = identityUnsupported_ s /\
  waiters_ s' = waiters_ s /\ settings s' = settings s /\ overridden_ s' = overridden_ s /\ nextGuard s' = nextGuard s /\ todo s' = todo s.

Lemma closeGuard_frame g s :
  sameBut s (closeGuard g s) /\ active_ (closeGuard g s) = active_ s /\ pending_ (closeGuard g s) = pending_ s.
Proof.
  unfold closeGuard, sameBut. destruct g as [g|]; [|done]. destruct (guards s !! g) as [r|]; [|done].
  destruct (gClosing r); [done|]. by case_bool_decide.
Qed.

(** ** The invariant *)

(** State, guards and identity failure fit together. *)
Record Core (s : Switch) : Prop := MkCore {
  core_table : Table (active_ s) (pending_ s) (guards s) (nextGuard s);
  core_down : shutdown_ s = true -> active_ s = None /\ pending_ s = None;
  core_active : shutdown_ s = false -> is_Some (active_ s) ->
    state_ s = KsArmed \/ state_ s = KsFailed /\ identityUnsupported_ s = true;
  core_armed : shutdown_ s = false -> state_ s = KsArmed -> is_Some (active_ s) /\ identityUnsupported_ s = false;
  core_arming : shutdown_ s = false -> state_ s = KsArming -> is_Some (pending_ s) }.

(** Whoever waits waits for something that is still to come. *)
Definition Waits (s : Switch) : Prop := shutdown_ s = false -> Forall (fun w => waitsOn w s = true) (waiters_ s).

Definition Inv (s : Switch) : Prop := Core s /\ Waits s.

Definition coreFields (s : Switch) :=
  (active_ s, pending_ s, guards s, nextGuard s, shutdown_ s, state_ s, identityUnsupported_ s).

Lemma core_ext s s' : coreFields s' = coreFields s -> Core s -> Core s'.
Proof.
  unfold coreFields. intros [= E1 E2 E3 E4 E5 E6 E7] [H1 H2 H3 H4 H5].
  split; rewrite ?E1, ?E2, ?E3, ?E4, ?E5, ?E6, ?E7; assumption.
Qed.

Lemma waits_ext s s' :
  (waiters_ s', pending_ s', shutdown_ s', state_ s') = (waiters_ s, pending_ s, shutdown_ s, state_ s) -> Waits s -> Waits s'.
Proof. intros [= E1 E2 E3 E4]. unfold Waits, waitsOn. by rewrite E1, E2, E3, E4. Qed.

Lemma inv_ext s s' : coreFields s' = coreFields s -> waiters_ s' = waiters_ s -> Inv s -> Inv s'.
Proof.
  intros E Ew [Hc Hw]. split; [by eapply core_ext|]. unfold coreFields in E. injection E as ? ? ? ? ? ? ?.
  eapply waits_ext; [|exact Hw]. congruence.
Qed.

Lemma core_settle s : Core s -> Inv (settle s).
Proof. intros Hc. split; [by apply (core_ext s)|]. intros _. constructor. Qed.

Lemma setState_fields st s :
  state_ (setState st s) = st /\ sameBut (s <| state_ := st |>) (setState st s) /\
  active_ (setState st s) = active_ s /\ pending_ (setState st s) = pending_ s /\ guards (setState st s) = guards s.
Proof.
  unfold setState, sameBut. cbv zeta. destruct (bool_decide (st = KsFailed)).
  all: case_bool_decide as E; split_and!; by try rewrite <- E.
Qed.

(** A failed arming with no active guard, whatever it had. *)
Lemma core_fail code message s :
  Table (active_ s) (pending_ s) (guards s) (nextGuard s) -> shutdown_ s = false -> active_ s = None ->
  Inv (fail code message s).
Proof.
  intros T Hd Ha. apply core_settle.
  destruct (setState_fields KsFailed ((s <| failureCode_ := code |>) <| failureMessage_ := message |>))
    as (Es & (Ed & _ & Ei & _ & _ & _ & En & _) & Ea & Ep & Eg).
  set (s' := setState _ _) in *. clearbody s'. cbn in *.
  split; rewrite ?Es, ?Ed, ?Ei, ?Ea, ?Ep, ?Eg, ?En; try congruence. rewrite Ha. by intros _ [? ?].
Qed.

Lemma core_failIdentity s :
  Table (active_ s) (pending_ s) (guards s) (nextGuard s) -> shutdown_ s = false -> identityUnsupported_ s = true ->
  Inv (failIdentity s).
Proof.
  intros T Hd Hi. unfold failIdentity. cbv zeta. apply core_settle.
  match goal with |- Core (if ?b then s else ?x) => assert (Hs : exists s', s' = (if b then s else x) /\ state_ s' = KsFailed /\
    sameBut (s <| state_ := KsFailed |>) s' /\ active_ s' = active_ s /\ pending_ s' = pending_ s /\ guards s' = guards s) end.
  { eexists. split; [reflexivity|]. match goal with |- context [if ?b then _ else _] => destruct b eqn:Eb end.
    - apply andb_true_iff in Eb as [[Eb%bool_decide_eq_true _]%andb_true_iff _]. unfold sameBut. by rewrite Eb.
    - match goal with |- state_ (setState _ ?x) = _ /\ _ => exact (setState_fields KsFailed x) end. }
  destruct Hs as (s' & <- & Es & (Ed & _ & Ei & _ & _ & _ & En & _) & Ea & Ep & Eg). clear -T Hd Hi Es Ed Ei En Ea Ep Eg. cbn in *.
  split; rewrite ?Es, ?Ed, ?Ei, ?Ea, ?Ep, ?Eg, ?En, ?Hi; try congruence. intros _ _. by right.
Qed.

Section Machine.
Context `{QtText} `{Platform} (os : Os).

(** Both guards let go. *)
Lemma closeBoth_fields s :
  sameBut s (closeActive (closePending s)) /\ active_ (closeActive (closePending s)) = None /\
  pending_ (closeActive (closePending s)) = None /\
  guards (closeActive (closePending s)) = closeIn (active_ s) (closeIn (pending_ s) (guards s)).
Proof.
  unfold closeActive, closePending.
  destruct (closeGuard_frame (pending_ s) (s <| pending_ := None |>)) as (F & Ea & Ep).
  pose proof (guards_closeGuard (pending_ s) (s <| pending_ := None |>)) as Eg. cbn in Ea, Ep, Eg.
  set (s1 := closeGuard _ _) in *. clearbody s1.
  destruct (closeGuard_frame (active_ s1) (s1 <| active_ := None |>)) as (F' & Ea' & Ep').
  pose proof (guards_closeGuard (active_ s1) (s1 <| active_ := None |>)) as Eg'. cbn in Ea', Ep', Eg'.
  set (s2 := closeGuard _ _) in *. clearbody s2. unfold sameBut in *. cbn in *.
  rewrite Ea', Ep', Ep, Eg', Eg, Ea. destruct F as (? & ? & ? & ? & ? & ? & ? & ?), F' as (? & ? & ? & ? & ? & ? & ? & ?).
  split; [|done]. split_and!; congruence.
Qed.

Lemma table_closeBoth s :
  Table (active_ s) (pending_ s) (guards s) (nextGuard s) ->
  Table None None (closeIn (active_ s) (closeIn (pending_ s) (guards s))) (nextGuard s).
Proof.
  intros T. eapply (table_close (active_ s) None None None); [|done|done| |]; [|intros x ->; by right|done].
  eapply (table_close (active_ s) (pending_ s)); [exact T| |done| |].
  - intros x Hx. split; [done|]. intros Hp. by eapply table_distinct.
  - intros x ->. by left.
  - intros x ->. by right.
Qed.

Lemma core_apply_off s :
  Table (active_ s) (pending_ s) (guards s) (nextGuard s) -> shutdown_ s = false -> ksOn (settings s) = false ->
  Inv (apply os s).
Proof.
  intros T Hd Hk. unfold apply. rewrite Hd, Hk. cbn [negb]. cbv zeta. apply core_settle.
  set (s0 := (s <| identityUnsupported_ := false |>) <| identityDetail_ := [] |>).
  destruct (closeBoth_fields s0) as ((Ed & _ & Ei & _ & _ & _ & En & _) & Ea & Ep & Eg).
  assert (T0 : Table None None (guards (closeActive (closePending s0))) (nextGuard s)) by (rewrite Eg; exact (table_closeBoth s T)).
  set (s1 := closeActive _) in *. clearbody s1.
  destruct (setState_fields KsDisabled s1) as (Es' & (Ed' & _ & Ei' & _ & _ & _ & En' & _) & Ea' & Ep' & Eg').
  set (s2 := setState _ _) in *. clearbody s2. cbn in *.
  split; rewrite ?Es', ?Ed', ?Ei', ?Ea', ?Ep', ?Eg', ?En', ?Ea, ?Ep, ?En; try congruence. by intros _ [? ?].
Qed.

Lemma core_apply_overridden s :
  Table (active_ s) (pending_ s) (guards s) (nextGuard s) -> shutdown_ s = false -> ksOn (settings s) = true ->
  overridden_ s = true -> Inv (apply os s).
Proof.
  intros T Hd Hk Ho. unfold apply. rewrite Hd, Hk, Ho. cbn [negb]. cbv zeta.
  destruct (closeBoth_fields s) as ((Ed & Es & Ei & _ & _ & _ & En & _) & Ea & Ep & Eg).
  apply table_closeBoth in T. rewrite <- Eg, <- En in T. set (s1 := closeActive _) in *. clearbody s1.
  destruct (bool_decide (state_ s1 = KsFailed)) eqn:Ef; cbn [andb].
  2: { apply core_fail; [by rewrite Ea, Ep|congruence|done]. }
  apply bool_decide_eq_true in Ef. destruct (_ && _); [|apply core_fail; [by rewrite Ea, Ep|congruence|done]].
  apply core_settle. split; rewrite ?Ea, ?Ep; try congruence. by intros _ [? ?].
Qed.

Lemma table_spawn a p gs n r :
  Table a p gs n -> gReady r = false -> gClosing r = false -> gReadyTimer r = true ->
  Table a (Some n) (<[n := r]> (closeIn p gs)) (Datatypes.S n).
Proof.
  intros T Hr Hc Ht.
  assert (T' : Table a None (closeIn p gs) n).
  { eapply (table_close a p); [exact T| |done| |].
    - intros x Hx. split; [done|]. intros Hp. by eapply table_distinct.
    - intros x ->. by left.
    - intros x ->. by right. }
  assert (Hn : forall g r', closeIn p gs !! g = Some r' -> g <> n) by (intros g r' E ->; apply (tb_fresh _ _ _ _ T') in E; lia).
  split.
  - intros g r' [[-> _]|[_ E]]%lookup_insert_Some; [lia|]. apply (tb_fresh _ _ _ _ T') in E. lia.
  - intros g r' [[-> ->]|[_ E]]%lookup_insert_Some Hcl; [congruence|by eapply (tb_closed _ _ _ _ T')].
  - intros g Hg. destruct (tb_active _ _ _ _ T' g Hg) as (r' & E & ?). exists r'. rewrite lookup_insert_ne; [done|].
    intros ->. by eapply Hn.
  - intros g [= <-]. exists r. by rewrite lookup_insert_eq.
  - intros g r' [[-> _]|[_ E]]%lookup_insert_Some Hcl; [by right|]. destruct (tb_owned _ _ _ _ T' g r' E Hcl); [by left|done].
  - intros g r' [[-> _]|[_ E]]%lookup_insert_Some Htm; [done|]. by apply (tb_timer _ _ _ _ T') in E.
Qed.

(** What [spawn] and [protectionLost] need of the state. *)
Definition Ready (s : Switch) : Prop :=
  (is_Some (active_ s) -> state_ s = KsArmed /\ identityUnsupported_ s = false \/ state_ s = KsFailed /\ identityUnsupported_ s = true) /\
  (active_ s = None -> identityUnsupported_ s = true -> state_ s <> KsArmed).

Definition Waits' (s : Switch) : Prop := Forall (fun w => isIdle w = false -> state_ s = KsArming) (waiters_ s).

Lemma inv_ready s : Core s -> shutdown_ s = false -> Ready s.
Proof.
  intros C Hd. split.
  - intros Ha. destruct (core_active s C Hd Ha) as [E|E]; [left|by right]. split; [done|]. by apply (core_armed s C).
  - intros Ha _ E. destruct (core_armed s C Hd E) as [[? ?] _]. congruence.
Qed.

Lemma waits_waits' s : Waits s -> shutdown_ s = false -> Waits' s.
Proof.
  intros Hw Hd. eapply Forall_impl; [exact (Hw Hd)|]. intros w Hx Hi. unfold waitsOn in Hx. rewrite Hi in Hx.
  by apply bool_decide_eq_true in Hx.
Qed.

Lemma inv_spawn config s :
  Table (active_ s) (pending_ s) (guards s) (nextGuard s) -> shutdown_ s = false -> Ready s -> Waits' s -> Inv (spawn config s).
Proof.
  intros T Hd [Hr1 Hr2] Hw. unfold spawn. cbv zeta.
  destruct (closeGuard_frame (pending_ s) (s <| pending_ := None |>)) as ((Ed & Es & Ei & Ew & _ & _ & En & _) & Ea & Ep).
  pose proof (guards_closeGuard (pending_ s) (s <| pending_ := None |>)) as Eg.
  change (closeGuard (pending_ s) (s <| pending_ := None |>)) with (closePending s) in *. set (s1 := closePending s) in *. clearbody s1.
  cbn in Ed, Es, Ei, Ew, En, Ea, Ep, Eg.
  set (r := MkGuard _ _ _ _ _ _ _ _ _ _).
  assert (Tr : Table (active_ s1) (Some (nextGuard s1)) (<[nextGuard s1 := r]> (guards s1)) (Datatypes.S (nextGuard s1))).
  { rewrite Ea, En, Eg. by apply table_spawn. }
  clearbody r. set (s2 := ((s1 <| guards := <[nextGuard s1 := r]> (guards s1) |>) <| nextGuard := Datatypes.S (nextGuard s1) |>)
    <| pending_ := Some (nextGuard s1) |>).
  assert (F : active_ s2 = active_ s /\ pending_ s2 = Some (nextGuard s1) /\ guards s2 = <[nextGuard s1 := r]> (guards s1) /\
    nextGuard s2 = Datatypes.S (nextGuard s1) /\ shutdown_ s2 = false /\ state_ s2 = state_ s /\
    identityUnsupported_ s2 = identityUnsupported_ s /\ waiters_ s2 = waiters_ s).
  { split_and!; try done; cbn; congruence. }
  clearbody s2. destruct F as (Fa & Fp & Fg & Fn & Fd & Fs & Fi & Fw). rewrite Ea in Tr. rewrite Fa, Fi.
  destruct (bool_decide (is_Some (active_ s))) eqn:Ha; cbn [negb andb].
  - apply bool_decide_eq_true in Ha. split.
    + split; rewrite ?Fa, ?Fp, ?Fg, ?Fn, ?Fd, ?Fs, ?Fi; try done.
      * intros _ _. destruct (Hr1 Ha) as [[-> _]|[-> ->]]; auto.
      * intros _ E. destruct (Hr1 Ha) as [[_ ->]|[E' _]]; [done|congruence].
    + intros _. unfold waitsOn. rewrite Fw, Fp, Fs. eapply Forall_impl; [exact Hw|]. intros w Hx. cbn beta in Hx.
      destruct (isIdle w); [done|]. rewrite Hx by done. done.
  - apply bool_decide_eq_false in Ha. destruct (active_ s) as [g|] eqn:Eact; [destruct Ha; by eexists|].
    destruct (identityUnsupported_ s) eqn:Eid; cbn [negb].
    + split.
      * split; rewrite ?Fa, ?Fp, ?Fg, ?Fn, ?Fd, ?Fs, ?Fi; try done.
        intros _ E. by destruct (Hr2 eq_refl eq_refl).
      * intros _. unfold waitsOn. rewrite Fw, Fp, Fs. eapply Forall_impl; [exact Hw|]. intros w Hx. cbn beta in Hx.
        destruct (isIdle w); [done|]. rewrite Hx by done. done.
    + destruct (setState_fields KsArming s2) as (Gs & (Gd & _ & Gi & Gw & _ & _ & Gn & _) & Ga & Gp & Gg).
      set (s3 := setState _ _) in *. clearbody s3. cbn in Gd, Gi, Gw, Gn. split.
      * split; rewrite ?Gs, ?Gd, ?Gi, ?Gn, ?Ga, ?Gp, ?Gg, ?Fa, ?Fp, ?Fg, ?Fn, ?Fd, ?Fi; done.
      * intros _. unfold waitsOn. rewrite Gw, Fw, Gs, Gp, Fp. eapply Forall_impl; [exact Hw|]. intros w _. by destruct (isIdle w).
Qed.

(** ** What is left to do *)

(** A step adds frames, none of them the rest of an [apply]. *)
Definition Grows (s s' : Switch) : Prop := exists fs, todo s' = fs ++ todo s /\ FApplyRest ∉ fs.

Lemma grows_same s s' : todo s' = todo s -> Grows s s'.
Proof. intros E. exists []. split; [done|]. by intros ?%elem_of_nil. Qed.

Lemma grows_settle s s' : todo s' = todo s -> Grows s (settle s').
Proof.
  intros E. eexists [_]. split; [cbn; rewrite E; done|]. by intros ?%list_elem_of_singleton.
Qed.

Lemma todo_setState st s : todo (setState st s) = todo s.
Proof. by destruct (setState_fields st s) as (_ & (_ & _ & _ & _ & _ & _ & _ & ->) & _). Qed.

Lemma todo_closeGuard g s : todo (closeGuard g s) = todo s.
Proof. by destruct (closeGuard_frame g s) as ((_ & _ & _ & _ & _ & _ & _ & ->) & _). Qed.

Lemma todo_closeBoth s : todo (closeActive (closePending s)) = todo s.
Proof. unfold closeActive. rewrite todo_closeGuard. exact (todo_closeGuard _ _). Qed.

Lemma todo_spawn config s : todo (spawn config s) = todo s.
Proof.
  unfold spawn. cbv zeta. assert (E : todo (closePending s) = todo s) by exact (todo_closeGuard _ _).
  rewrite <- E. set (s1 := closePending s). clearbody s1. set (r := MkGuard _ _ _ _ _ _ _ _ _ _). clearbody r.
  match goal with |- todo (if ?b then _ else _) = _ => destruct b end; by rewrite ?todo_setState.
Qed.

Lemma grows_fail code message s : Grows s (fail code message s).
Proof. unfold fail. apply grows_settle. by rewrite todo_setState. Qed.

Lemma grows_failIdentity s : Grows s (failIdentity s).
Proof.
  unfold failIdentity. cbv zeta. apply grows_settle.
  match goal with |- todo (if ?b then _ else _) = _ => destruct b end; by rewrite ?todo_setState.
Qed.

Lemma grows_apply_off s : shutdown_ s = false -> ksOn (settings s) = false -> Grows s (apply os s).
Proof.
  intros Hd Hk. unfold apply. rewrite Hd, Hk. cbn [negb]. cbv zeta. apply grows_settle.
  by rewrite todo_setState, todo_closeBoth.
Qed.

(** The rest of an [apply] runs right after the waiters of [permitExtraCore]. *)
Definition AppTop (s : Switch) : Prop :=
  FApplyRest ∉ todo s \/
  shutdown_ s = false /\ exists fs, (FApplyRest ∉ fs) /\
    (todo s = FApplyRest :: fs \/ exists ws, Forall (fun w => isIdle w = true) ws /\ todo s = FSettle ws :: FApplyRest :: fs).

Definition Whole (s : Switch) : Prop := Inv s /\ AppTop s.

Lemma whole_grows s s' : FApplyRest ∉ todo s -> Inv s' -> Grows s s' -> Whole s'.
Proof. intros Hn Hi (fs & E & Hf). split; [done|]. left. rewrite E, elem_of_app. tauto. Qed.

(** ** [apply] *)

Lemma inv_applyRest s : Inv s -> shutdown_ s = false -> Inv (applyRest os s) /\ Grows s (applyRest os s).
Proof.
  intros [Hc Hw] Hd. unfold applyRest. cbv zeta. destruct (bool_decide (_ <$> (pending_ s ≫= _) = _)).
  { split; [by split|]. by apply grows_same. }
  destruct (bool_decide (_ <$> (active_ s ≫= _) = _)) eqn:Ea.
  2: { split; [|apply grows_same, todo_spawn]. apply inv_spawn; [apply Hc|done|by apply inv_ready|by apply waits_waits']. }
  destruct (bool_decide (is_Some (pending_ s))); [|split; [by split|by apply grows_same]].
  split; [|apply grows_settle; exact (todo_closeGuard _ _)]. apply core_settle.
  destruct (closeGuard_frame (pending_ s) (s <| pending_ := None |>)) as ((Fd & Fs & Fi & _ & _ & _ & Fn & _) & Fa & Fp).
  pose proof (guards_closeGuard (pending_ s) (s <| pending_ := None |>)) as Fg.
  change (closeGuard (pending_ s) (s <| pending_ := None |>)) with (closePending s) in *. set (s1 := closePending s) in *. clearbody s1.
  cbn in Fd, Fs, Fi, Fn, Fa, Fp, Fg. apply bool_decide_eq_true in Ea. destruct (active_ s) as [g|] eqn:Eg; [|done].
  split; rewrite ?Fd, ?Fs, ?Fi, ?Fn, ?Fa, ?Fp, ?Fg, ?Hd; try done.
  - eapply (table_close (Some g) (pending_ s)); [rewrite <- Eg; apply Hc| |done| |].
    + intros x Hx. split; [done|]. intros Hpx. eapply table_distinct; [apply Hc| |exact Hpx]. congruence.
    + intros x ->. by left.
    + intros x ->. by right.
  - intros _ _. apply (core_active s Hc Hd). by rewrite Eg.
  - intros _ E. destruct (core_armed s Hc Hd E). done.
  - intros _ E. destruct (core_active s Hc Hd) as [E'|[E' _]]; [by rewrite Eg|congruence..].
Qed.

(** The identity failure may have just been noted. *)
Definition Noted (s : Switch) : Prop :=
  Table (active_ s) (pending_ s) (guards s) (nextGuard s) /\
  (shutdown_ s = true -> active_ s = None /\ pending_ s = None) /\
  (shutdown_ s = false -> is_Some (active_ s) -> state_ s = KsArmed \/ state_ s = KsFailed /\ identityUnsupported_ s = true) /\
  (shutdown_ s = false -> state_ s = KsArmed -> is_Some (active_ s)) /\
  (shutdown_ s = false -> state_ s = KsArming -> is_Some (pending_ s)).

Lemma core_noted s : Core s -> Noted s.
Proof. intros [H1 H2 H3 H4 H5]. split_and!; try done. intros Hd Hs. by apply H4. Qed.

Lemma noted_core s : Noted s -> (shutdown_ s = false -> state_ s = KsArmed -> identityUnsupported_ s = false) -> Core s.
Proof. intros (H1 & H2 & H3 & H4 & H5) Hi. split; try done. intros Hd Hs. auto. Qed.

Lemma noted_detail d s : Core s -> Noted ((s <| identityDetail_ := d |>) <| identityUnsupported_ := true |>).
Proof.
  intros [H1 H2 H3 H4 H5]. split_and!; cbn; try done.
  - intros Hd Ha. destruct (H3 Hd Ha) as [|[]]; auto.
  - intros Hd Hs. by apply H4.
Qed.

Lemma whole_apply s : Noted s -> Waits s -> FApplyRest ∉ todo s -> (shutdown_ s = true -> Core s) -> Whole (apply os s).
Proof.
  intros Hn Hw Hf Hdown. destruct (shutdown_ s) eqn:Hd.
  { unfold apply. rewrite Hd. split; [by split; [apply Hdown|]|by left]. }
  destruct (ksOn (settings s)) eqn:Hk.
  2: { apply (whole_grows s); [done|apply core_apply_off; try done; apply Hn|by apply grows_apply_off]. }
  destruct (overridden_ s) eqn:Ho.
  { apply (whole_grows s); [done|apply core_apply_overridden; try done; apply Hn|].
    unfold apply. rewrite Hd, Hk, Ho. cbn [negb]. cbv zeta. case_match; [apply grows_settle, todo_closeBoth|].
    unfold fail. apply grows_settle. rewrite todo_setState. exact (todo_closeBoth s). }
  unfold apply. rewrite Hd, Hk, Ho. cbn [negb].
  destruct (identityUnsupported_ s && bool_decide (state_ s = KsArmed)) eqn:Eia.
  - apply andb_true_iff in Eia as [Ei Es%bool_decide_eq_true].
    assert (Hidle : Forall (fun w => isIdle w = true) (waiters_ s)).
    { eapply Forall_impl; [exact (Hw Hd)|]. intros w Hx. cbn in Hx. unfold waitsOn in Hx. destruct (isIdle w); [done|].
      apply bool_decide_eq_true in Hx. congruence. }
    split; [by apply core_failIdentity; [apply Hn| |]|]. right.
    unfold failIdentity. cbv zeta. cbn [state_ next]. rewrite bool_decide_false by (cbn; congruence). cbn [andb].
    set (s0 := ((next [FApplyRest] s) <| failureCode_ := _ |>) <| failureMessage_ := _ |>).
    destruct (setState_fields KsFailed s0) as (_ & (Gd & _ & _ & Gw & _ & _ & _ & Gt) & _).
    set (s1 := setState _ _) in *. clearbody s1. cbn in Gd, Gw, Gt. split; [exact (eq_trans Gd Hd)|].
    exists (todo s). split; [done|]. right. exists (waiters_ s). split; [done|]. unfold settle. cbn. by rewrite Gt, Gw.
  - assert (Hc : Core s).
    { apply noted_core; [done|]. intros _ Es. rewrite Es, bool_decide_true in Eia by done. by rewrite andb_true_r in Eia. }
    destruct (inv_applyRest s (conj Hc Hw) Hd) as [Hi Hg]. by apply (whole_grows s).
Qed.

(** ** A guard that is gone *)

Lemma table_delete a p a' p' gs n g :
  Table a p gs n -> (forall x, a' = Some x -> a = Some x /\ x <> g) -> (forall x, p' = Some x -> p = Some x /\ x <> g) ->
  (forall x, a = Some x -> a' = Some x \/ x = g) -> (forall x, p = Some x -> p' = Some x \/ x = g) ->
  Table a' p' (delete g gs) n.
Proof.
  intros T Ha Hp Ha' Hp'. split.
  - intros x r [_ E]%lookup_delete_Some. by eapply tb_fresh.
  - intros x r [_ E]%lookup_delete_Some. by eapply tb_closed.
  - intros x Hx. destruct (Ha x Hx) as [E Hne]. rewrite lookup_delete_ne by done. by eapply tb_active.
  - intros x Hx. destruct (Hp x Hx) as [E Hne]. rewrite lookup_delete_ne by done. by eapply tb_pending.
  - intros x r [Hne E]%lookup_delete_Some Hc. destruct (tb_owned _ _ _ _ T x r E Hc) as [Hx|Hx];
      [left; destruct (Ha' x Hx)|right; destruct (Hp' x Hx)]; congruence.
  - intros x r [Hne E]%lookup_delete_Some Ht. destruct (Hp' x (tb_timer _ _ _ _ T x r E Ht)); congruence.
Qed.

Lemma guardLost_fields g s :
  exists s', guardLost g s = (bool_decide (active_ s = Some g), bool_decide (pending_ s = Some g), s') /\
    sameBut s s' /\ guards s' = guards s /\
    active_ s' = (if bool_decide (active_ s = Some g) then None else active_ s) /\
    pending_ s' = (if bool_decide (pending_ s = Some g) then None else pending_ s).
Proof.
  unfold guardLost. eexists. split; [reflexivity|]. unfold sameBut.
  destruct (bool_decide (active_ s = Some g)); cbn; destruct (bool_decide (pending_ s = Some g)); done.
Qed.

Lemma unless_some (o : option nat) g x :
  (if bool_decide (o = Some g) then None else o) = Some x <-> o = Some x /\ x <> g.
Proof. case_bool_decide; split; [done|intros []; congruence|intros ->; split; [done|congruence]|by intros []]. Qed.

(** The guard [g] is neither active nor pending any more. *)
Record LetGo (g : nat) (s s' : Switch) : Prop := MkLetGo {
  lg_same : sameBut s s';
  lg_table : Table (active_ s') (pending_ s') (guards s') (nextGuard s');
  lg_active : active_ s' = (if bool_decide (active_ s = Some g) then None else active_ s);
  lg_pending : pending_ s' = (if bool_decide (pending_ s = Some g) then None else pending_ s) }.

Lemma core_letGo_none g s s' :
  LetGo g s s' -> Core s -> active_ s <> Some g -> pending_ s <> Some g -> Core s'.
Proof.
  intros [(Ed & Es & Ei & _ & _ & _ & En & _) T Ea Ep] [H1 H2 H3 H4 H5] Na Np.
  rewrite bool_decide_false in Ea, Ep by done. split; [done|..]; rewrite ?Ed, ?Es, ?Ei, ?Ea, ?Ep; done.
Qed.

Lemma inv_armFailed code message s :
  Table (active_ s) (pending_ s) (guards s) (nextGuard s) -> shutdown_ s = false ->
  (is_Some (active_ s) -> state_ s = KsArmed \/ state_ s = KsFailed /\ identityUnsupported_ s = true) ->
  (state_ s = KsArmed -> is_Some (active_ s) /\ identityUnsupported_ s = false) ->
  Inv (armFailed code message s) /\ Grows s (armFailed code message s).
Proof.
  intros T Hd H3 H4. unfold armFailed. case_bool_decide as Ha.
  - cbv zeta. split; [|apply grows_settle; by destruct (unfixable code)]. apply core_settle.
    apply (core_ext s); [by destruct (unfixable code)|]. split; try done; [congruence|].
    intros _ E. destruct (H3 Ha) as [E'|[E' _]]; congruence.
  - split; [|apply grows_fail]. apply core_fail; [done|done|]. destruct (active_ s); [destruct Ha; by eexists|done].
Qed.

Lemma inv_protectionLost code message now s :
  Table (active_ s) (pending_ s) (guards s) (nextGuard s) -> shutdown_ s = false -> active_ s = None ->
  (state_ s = KsArmed /\ identityUnsupported_ s = false \/ state_ s = KsFailed /\ identityUnsupported_ s = true) ->
  Waits s -> Inv (protectionLost os code message now s) /\ Grows s (protectionLost os code message now s).
Proof.
  intros T Hd Ha Hs Hw. unfold protectionLost. rewrite Hd. destruct (ksOn (settings s)) eqn:Hk; cbn [negb].
  2: { split; [by apply core_apply_off|by apply grows_apply_off]. }
  case_bool_decide as Hp.
  - split; [|apply grows_settle; destruct (identityUnsupported_ s); by rewrite ?todo_setState]. apply core_settle.
    destruct (identityUnsupported_ s) eqn:Ei.
    + destruct Hs as [[_ ?]|[Es _]]; [done|]. split; rewrite ?Hd, ?Ha, ?Es; try done; try (by intros _ [? ?]); by rewrite <- Ha.
    + destruct (setState_fields KsArming s) as (Gs & (Gd & _ & Gi & _ & _ & _ & Gn & _) & Ga & Gp & Gg).
      set (s3 := setState _ _) in *. clearbody s3. cbn in Gd, Gi, Gn.
      split; rewrite ?Gs, ?Gd, ?Gi, ?Gn, ?Ga, ?Gp, ?Gg, ?Ha; try done; try congruence; try (by intros _ [? ?]); by rewrite <- Ha.
  - match goal with |- context [if ?b then _ else _] => destruct b end.
    + set (s1 := (s <| lastRespawn_ := Some now |>) <| respawns := respawns s ++ [now] |>).
      split; [|apply grows_same; by rewrite todo_spawn]. apply inv_spawn; [done|done| |].
      * split; cbn; [rewrite Ha; by intros [? ?]|]. intros _ Ei. destruct Hs as [[_ ?]|[-> _]]; [congruence|done].
      * eapply (Forall_impl _ _ _ (Hw Hd)). intros w Hx Hi. cbn in Hx. unfold waitsOn in Hx. rewrite Hi in Hx.
        by apply bool_decide_eq_true in Hx.
    + split; [by apply core_fail|apply grows_fail].
Qed.

(** What becomes of a guard that failed. *)
Definition lostStep (wasActive wasPending : bool) (code message message' : qstring) (now : Z) (s : Switch) : Switch :=
  if wasActive then protectionLost os code message now s else if wasPending then armFailed code message' s else s.

Lemma inv_lostStep g code message message' now s s' :
  LetGo g s s' -> Inv s -> shutdown_ s = false ->
  let s'' := lostStep (bool_decide (active_ s = Some g)) (bool_decide (pending_ s = Some g)) code message message' now s' in
  Inv s'' /\ Grows s' s''.
Proof.
  intros L [C W] Hd. pose proof L as [(Ed & Es & Ei & Ew & _ & _ & En & _) T Ea Ep]. unfold lostStep. cbv zeta.
  destruct (bool_decide (active_ s = Some g)) eqn:Ba.
  - apply bool_decide_eq_true in Ba.
    assert (Hp : pending_ s <> Some g) by (intros Hp; eapply table_distinct; [apply C|exact Ba|exact Hp]).
    rewrite bool_decide_false in Ep by done. apply inv_protectionLost; [done|congruence|done| |].
    + rewrite Es, Ei. assert (Hi : is_Some (active_ s)) by (rewrite Ba; by eexists).
      destruct (core_active s C Hd Hi) as [E|E]; [left|by right]. split; [done|]. by apply (core_armed s C).
    + eapply waits_ext; [|exact W]. congruence.
  - apply bool_decide_eq_false in Ba. destruct (bool_decide (pending_ s = Some g)) eqn:Bp.
    + apply inv_armFailed; [done|congruence|..].
      * rewrite Ea, Es, Ei. apply (core_active s C Hd).
      * rewrite Ea, Es, Ei. apply (core_armed s C Hd).
    + apply bool_decide_eq_false in Bp. split; [|by apply grows_same]. split; [by eapply core_letGo_none|].
      eapply waits_ext; [|exact W]. congruence.
Qed.

(** Letting go by closing or deleting. *)
Lemma letGo_close g s : Inv s -> LetGo g s (closeGuard (Some g) (guardLost g s).2).
Proof.
  intros [C _]. destruct (guardLost_fields g s) as (s1 & -> & F & Eg & Ea & Ep). cbn [snd].
  destruct (closeGuard_frame (Some g) s1) as (F' & Ea' & Ep'). pose proof (guards_closeGuard (Some g) s1) as Eg'.
  set (s2 := closeGuard _ _) in *. clearbody s2. unfold sameBut in *.
  destruct F as (? & ? & ? & ? & ? & ? & En & ?), F' as (? & ? & ? & ? & ? & ? & En' & ?).
  split; [split_and!; congruence| |congruence..]. rewrite Ea', Ep', Ea, Ep, En', En, Eg', Eg.
  eapply (table_close (active_ s) (pending_ s)); [apply C|..].
  all: intros x; rewrite unless_some; try (intros []; split; congruence).
  all: intros Hx; destruct (decide (x = g)); [right; congruence|by left].
Qed.

Lemma letGo_delete g s : Inv s -> LetGo g s (deleteGuard g (guardLost g s).2).
Proof.
  intros [C _]. destruct (guardLost_fields g s) as (s1 & -> & F & Eg & Ea & Ep). cbn [snd].
  split; [done| |done|done]. cbn. rewrite Ea, Ep, Eg. destruct F as (_ & _ & _ & _ & _ & _ & -> & _).
  eapply (table_delete (active_ s) (pending_ s)); [apply C|..].
  all: intros x; rewrite unless_some; try (intros []; split; congruence).
  all: intros Hx; destruct (decide (x = g)); [right; congruence|by left].
Qed.

(** ** The handlers *)

(** A change that keeps what the table is about. *)
Lemma table_alter a p gs n f g :
  Table a p gs n ->
  (forall r, gs !! g = Some r -> gReady (f r) = gReady r /\ gClosing (f r) = gClosing r /\ gReadyTimer (f r) = gReadyTimer r /\
    (gClosing r = true -> closed r -> closed (f r))) ->
  Table a p (alter f g gs) n.
Proof.
  intros T Hf.
  assert (Hl : forall x r', alter f g gs !! x = Some r' -> exists r, gs !! x = Some r /\ gReady r' = gReady r /\
    gClosing r' = gClosing r /\ gReadyTimer r' = gReadyTimer r /\ (gClosing r = true -> closed r -> closed r')).
  { intros x r'. destruct (decide (x = g)) as [->|].
    - rewrite lookup_alter_eq. destruct (gs !! g) as [r|] eqn:E; [|done]. intros [= <-]. exists r. split; [done|]. by apply Hf.
    - rewrite lookup_alter_ne by done. intros E. by exists r'. }
  assert (Hl' : forall x r, gs !! x = Some r -> exists r', alter f g gs !! x = Some r' /\ gReady r' = gReady r /\
    gClosing r' = gClosing r /\ gReadyTimer r' = gReadyTimer r).
  { intros x r E. destruct (decide (x = g)) as [->|].
    - rewrite lookup_alter_eq, E. eexists. split; [done|]. destruct (Hf r E) as (? & ? & ? & _). done.
    - rewrite lookup_alter_ne by done. by exists r. }
  split.
  - intros x r' (r & E & _)%Hl. by eapply tb_fresh.
  - intros x r' (r & E & _ & Ec & _ & Hc)%Hl Hcl. apply Hc; [congruence|]. eapply tb_closed; [exact T|exact E|congruence].
  - intros x Hx. destruct (tb_active _ _ _ _ T x Hx) as (r & E & ? & ?). destruct (Hl' x r E) as (r' & E' & ? & ? & ?).
    exists r'. split_and!; [done|congruence..].
  - intros x Hx. destruct (tb_pending _ _ _ _ T x Hx) as (r & E & ? & ? & ?). destruct (Hl' x r E) as (r' & E' & ? & ? & ?).
    exists r'. split_and!; [done|congruence..].
  - intros x r' (r & E & _ & Ec & _)%Hl Hcl. eapply tb_owned; [exact T|exact E|congruence].
  - intros x r' (r & E & _ & _ & Et & _)%Hl Ht. eapply tb_timer; [exact T|exact E|congruence].
Qed.

Lemma inv_update f g s :
  Inv s ->
  (forall r, guards s !! g = Some r -> gReady (f r) = gReady r /\ gClosing (f r) = gClosing r /\ gReadyTimer (f r) = gReadyTimer r /\
    (gClosing r = true -> closed r -> closed (f r))) ->
  Inv (updateGuard f g s).
Proof.
  intros [[H1 H2 H3 H4 H5] W] Hf. split; [|by eapply waits_ext]. split; try done. cbn. by apply table_alter.
Qed.

Lemma table_ready a gs n g :
  Table a (Some g) gs n ->
  Table (Some g) None (closeIn a (alter (fun r => (r <| gReady := true |>) <| gReadyTimer := false |>) g gs)) n.
Proof.
  intros T. destruct (tb_pending _ _ _ _ T g eq_refl) as (r & E & Hr & Hc & Ht).
  assert (Hag : a <> Some g) by (intros ->; by eapply (table_distinct (Some g) (Some g))).
  set (gs' := alter _ g gs).
  assert (Eg : gs' !! g = Some ((r <| gReady := true |>) <| gReadyTimer := false |>)) by (unfold gs'; by rewrite lookup_alter_eq, E).
  assert (Eo : forall x, x <> g -> gs' !! x = gs !! x) by (intros x Hx; unfold gs'; by rewrite lookup_alter_ne).
  clearbody gs'. split.
  - intros x r' [[_ E']|[-> Hx]]%closeIn_lookup.
    + destruct (decide (x = g)) as [->|]; [by eapply tb_fresh|]. rewrite Eo in E' by done. by eapply tb_fresh.
    + destruct (tb_active _ _ _ _ T x eq_refl) as (r0 & E0 & _). by eapply tb_fresh.
  - intros x r' [[Hne E']|[-> [[E' Hc']|(r0 & E' & _ & ->)]]]%closeIn_lookup Hcl.
    + destruct (decide (x = g)) as [->|]; [rewrite Eg in E'; injection E' as <-; cbn in Hcl; congruence|].
      rewrite Eo in E' by done. by eapply tb_closed.
    + rewrite Eo in E' by congruence. by eapply tb_closed.
    + split; [done|]. intros _. split; [done|by left].
  - intros x [= <-]. rewrite closeIn_other by done. eexists. split; [exact Eg|]. done.
  - done.
  - intros x r' [[Hne E']|[-> [[E' Hc']|(r0 & E' & _ & ->)]]]%closeIn_lookup Hcl; [|congruence|done].
    destruct (decide (x = g)) as [->|]; [by left|]. rewrite Eo in E' by done.
    destruct (tb_owned _ _ _ _ T x r' E' Hcl); congruence.
  - intros x r' [[Hne E']|[-> [[E' Hc']|(r0 & E' & _ & ->)]]]%closeIn_lookup Htm; [| |done].
    + destruct (decide (x = g)) as [->|]; [rewrite Eg in E'; injection E' as <-; cbn in Htm; congruence|].
      rewrite Eo in E' by done. apply (tb_timer _ _ _ _ T) in E'; congruence.
    + rewrite Eo in E' by congruence. apply (tb_timer _ _ _ _ T) in E'; congruence.
Qed.

Lemma inv_onReady g s : Inv s -> Inv (onReady g s) /\ Grows s (onReady g s).
Proof.
  intros I. pose proof I as [C W]. unfold onReady. destruct (guards s !! g) as [r|] eqn:E; [|split; [done|by apply grows_same]].
  destruct (bool_decide (pending_ s = Some g)) eqn:Ep; cbn [negb orb]; [|split; [done|by apply grows_same]].
  apply bool_decide_eq_true in Ep. destruct (gReady r); [split; [done|by apply grows_same]|]. cbv zeta.
  assert (Hd : shutdown_ s = false) by (destruct (shutdown_ s) eqn:Hd; [|done]; destruct (core_down s C Hd); congruence).
  pose proof (core_table s C) as T. rewrite Ep in T. apply table_ready in T.
  set (s1 := ((updateGuard _ g s) <| active_ := Some g |>) <| pending_ := None |>).
  change (active_ (updateGuard _ g s)) with (active_ s).
  destruct (closeGuard_frame (active_ s) s1) as ((Fd & Fs & Fi & Fw & _ & _ & Fn & Ft) & Fa & Fp).
  pose proof (guards_closeGuard (active_ s) s1) as Fg.
  set (s2 := closeGuard _ s1) in *. clearbody s2. cbn in Fd, Fs, Fi, Fw, Fn, Ft, Fa, Fp, Fg.
  destruct (identityUnsupported_ s2) eqn:Ei.
  - split; [apply core_failIdentity; [rewrite Fa, Fp, Fg, Fn; done|congruence|done]|].
    destruct (grows_failIdentity s2) as (fs & Ef & Hf). exists fs. by rewrite Ef, Ft.
  - split; [|apply grows_settle; by rewrite todo_setState]. apply core_settle.
    destruct (setState_fields KsArmed s2) as (Gs & (Gd & _ & Gi & _ & _ & _ & Gn & _) & Ga & Gp & Gg).
    set (s3 := setState _ _) in *. clearbody s3. cbn in Gd, Gi, Gn.
    split; rewrite ?Gs, ?Gd, ?Gi, ?Gn, ?Ga, ?Gp, ?Gg, ?Fa, ?Fp, ?Fg, ?Fn; try done; try congruence.
    intros _ _. by left.
Qed.

Lemma grows_trans s1 s2 s3 : Grows s1 s2 -> Grows s2 s3 -> Grows s1 s3.
Proof. intros (f1 & E1 & H1) (f2 & E2 & H2). exists (f2 ++ f1). rewrite E2, E1, app_assoc. split; [done|]. rewrite elem_of_app. tauto. Qed.

Lemma down_closing s g r : Inv s -> shutdown_ s = true -> guards s !! g = Some r -> gClosing r = true.
Proof.
  intros [C _] Hd E. destruct (gClosing r) eqn:Ec; [done|]. destruct (core_down s C Hd) as [Ha Hp].
  destruct (tb_owned _ _ _ _ (core_table s C) g r E Ec); congruence.
Qed.

Lemma todo_letGo g s s' : LetGo g s s' -> todo s' = todo s.
Proof. by intros [(_ & _ & _ & _ & _ & _ & _ & ?) _ _ _]. Qed.

Lemma inv_handleLine g line now s : Inv s -> Inv (handleLine os g line now s) /\ Grows s (handleLine os g line now s).
Proof.
  intros I. unfold handleLine. cbv zeta. assert (Hs : Inv s /\ Grows s s) by (split; [done|by apply grows_same]).
  case_match; [done|]. case_match; [by apply inv_onReady|]. case_match; [done|].
  destruct (guards s !! g) as [r|] eqn:E; [|done]. destruct (gClosing r) eqn:Ec; [done|].
  assert (Hd : shutdown_ s = false).
  { destruct (shutdown_ s) eqn:Hd; [|done]. pose proof (down_closing s g r I Hd E). congruence. }
  pose proof (letGo_close g s I) as L. destruct (guardLost_fields g s) as (s1 & El & _). rewrite El in *. cbn [snd] in L.
  destruct (inv_lostStep g (firstWord (afterWord line)) (afterWord (afterWord line)) (afterWord (afterWord line)) now s _ L I Hd)
    as [Hi Hg]. unfold lostStep in Hi, Hg. split; [done|]. eapply grows_trans; [|done]. apply grows_same. by eapply todo_letGo.
Qed.

Lemma inv_finishedRest g exitCode crashed now s :
  Inv s -> Inv (finishedRest os g exitCode crashed now s) /\ Grows s (finishedRest os g exitCode crashed now s).
Proof.
  intros I. unfold finishedRest. cbv zeta.
  pose proof (letGo_delete g s I) as L. destruct (guardLost_fields g s) as (s1 & El & _). rewrite El in *. cbn [snd] in L.
  destruct (guards s !! g) as [r|] eqn:E; cbn [negb].
  2: { split; [|by apply grows_same]. apply (inv_ext s); [|done|done]. unfold coreFields. cbn. by rewrite delete_id. }
  destruct (gClosing r) eqn:Ec; cbn [negb].
  - split; [|by apply grows_same]. destruct I as [C W]. split; [|by eapply waits_ext].
    assert (Ha : active_ s <> Some g) by (intros Ha; destruct (tb_active _ _ _ _ (core_table s C) g Ha) as (? & ? & _ & ?); congruence).
    assert (Hp : pending_ s <> Some g) by (intros Hp; destruct (tb_pending _ _ _ _ (core_table s C) g Hp) as (? & ? & _ & ? & _); congruence).
    apply (core_letGo_none g s); [|done..]. split; [done| |by rewrite bool_decide_false by done..].
    cbn. eapply (table_delete (active_ s) (pending_ s)); [apply C|..]; intros x Hx; try (split; congruence); by left.
  - assert (Hd : shutdown_ s = false).
    { destruct (shutdown_ s) eqn:Hd; [|done]. pose proof (down_closing s g r I Hd E). congruence. }
    destruct (inv_lostStep g kCrash
      (if crashed then u "the kill switch process crashed" else u "the kill switch process exited with code " ++ number 10 exitCode)
      (if crashed then u "the kill switch process crashed before it was ready"
       else (u "the kill switch process exited with code " ++ number 10 exitCode) ++ u " before it was ready") now s _ L I Hd)
      as [Hi Hg]. unfold lostStep in Hi, Hg. split; [done|]. eapply grows_trans; [|done]. apply grows_same. by eapply todo_letGo.
Qed.

Lemma inv_onStartFailed g message s :
  Inv s -> flagOf gReady g s = false -> Inv (onStartFailed g message s) /\ Grows s (onStartFailed g message s).
Proof.
  intros I Hf. unfold flagOf in Hf. unfold onStartFailed. destruct (guards s !! g) as [r|] eqn:E; [|split; [done|by apply grows_same]]. cbv zeta.
  pose proof I as [C W]. destruct (bool_decide (pending_ s = Some g)) eqn:Bp.
  - apply bool_decide_eq_true in Bp. destruct (tb_pending _ _ _ _ (core_table s C) g Bp) as (r' & E' & _ & Ec & _).
    assert (r' = r) as -> by congruence. rewrite Ec. cbn [negb andb].
    assert (Ha : active_ s <> Some g) by (intros Ha; by eapply (table_distinct (active_ s) (pending_ s)); [apply C| |]).
    assert (Hd : shutdown_ s = false) by (destruct (shutdown_ s) eqn:Hd; [|done]; destruct (core_down s C Hd); congruence).
    pose proof (letGo_delete g s I) as L. destruct (guardLost_fields g s) as (s1 & El & _).
    assert (Es : deleteGuard g (guardLost g s).2 = deleteGuard g (s <| pending_ := None |>)).
    { unfold guardLost. rewrite (bool_decide_false (active_ s = Some g)), bool_decide_true by done. done. }
    rewrite Es in L. destruct (inv_lostStep g kInternal message message 0 s _ L I Hd) as [Hi Hg]. unfold lostStep in Hi, Hg.
    rewrite (bool_decide_false (active_ s = Some g)), bool_decide_true in Hi, Hg by done. split; [done|].
    eapply grows_trans; [|done]. by apply grows_same.
  - rewrite andb_false_r. destruct (gClosing r) eqn:Ec.
    + split; [|by apply grows_same]. split; [|by eapply waits_ext]. apply bool_decide_eq_false in Bp.
      assert (Ha : active_ s <> Some g) by (intros Ha; destruct (tb_active _ _ _ _ (core_table s C) g Ha) as (? & ? & _ & ?); congruence).
      apply (core_letGo_none g s); [|done..]. split; [done| |by rewrite bool_decide_false by done..].
      cbn. eapply (table_delete (active_ s) (pending_ s)); [apply C|..]; intros x Hx; try (split; congruence); by left.
    + exfalso. apply bool_decide_eq_false in Bp. destruct (tb_owned _ _ _ _ (core_table s C) g r E Ec) as [Ha|]; [|done].
      destruct (tb_active _ _ _ _ (core_table s C) g Ha) as (? & ? & ? & _). congruence.
Qed.

Lemma closeIn_timerOff g r gs :
  gs !! g = Some r -> gClosing r = false ->
  closeIn (Some g) (alter (fun r => r <| gReadyTimer := false |>) g gs) = closeIn (Some g) gs.
Proof.
  intros E Ec. unfold closeIn. rewrite lookup_alter_eq, E. cbn. rewrite Ec. case_bool_decide.
  - apply map_eq. intros x. destruct (decide (x = g)) as [->|]; [by rewrite !lookup_delete_eq|].
    by rewrite !lookup_delete_ne, lookup_alter_ne by done.
  - apply map_eq. intros x. destruct (decide (x = g)) as [->|]; [by rewrite !lookup_alter_eq, E|].
    by rewrite !lookup_alter_ne by done.
Qed.

Definition timerOff (g : nat) (s : Switch) : Switch := updateGuard (fun r => r <| gReadyTimer := false |>) g s.

Lemma inv_readyTimer g s :
  Inv s -> flagOf gReadyTimer g s = true ->
  let s' := onReadyTimeout g (timerOff g s) in
  Inv s' /\ Grows s s' /\ pending_ s' = None /\ shutdown_ s' = false /\ waiters_ s' = [] /\ state_ s' <> KsArming /\
  todo s' = FSettle (waiters_ s) :: todo s.
Proof.
  intros I Ht. pose proof I as [C W]. unfold flagOf in Ht. destruct (guards s !! g) as [r|] eqn:E; [|done].
  pose proof (tb_timer _ _ _ _ (core_table s C) g r E Ht) as Hp.
  destruct (tb_pending _ _ _ _ (core_table s C) g Hp) as (r' & E' & Hr & Hc & _). assert (r' = r) as -> by congruence.
  assert (Hd : shutdown_ s = false) by (destruct (shutdown_ s) eqn:Hd; [|done]; destruct (core_down s C Hd); congruence).
  assert (Ha : active_ s <> Some g) by (intros Ha; by eapply (table_distinct (active_ s) (pending_ s)); [apply C| |]).
  cbv zeta. unfold onReadyTimeout, timerOff. cbn [guards updateGuard].
  change (guards (updateGuard (fun r => r <| gReadyTimer := false |>) g s)) with (alter (fun r => r <| gReadyTimer := false |>) g (guards s)).
  rewrite lookup_alter_eq, E. cbn [fmap option_fmap option_map].
  change (pending_ (updateGuard _ g s)) with (pending_ s). rewrite Hp, bool_decide_true by done.
  change (gReady (r <| gReadyTimer := false |>)) with (gReady r). rewrite Hr. cbn [negb orb].
  set (s0 := (updateGuard _ g s) <| pending_ := None |>).
  destruct (closeGuard_frame (Some g) s0) as ((Fd & Fs & Fi & Fw & _ & _ & Fn & Ft) & Fa & Fp).
  pose proof (guards_closeGuard (Some g) s0) as Fg.
  change (guards s0) with (alter (fun r => r <| gReadyTimer := false |>) g (guards s)) in Fg.
  rewrite (closeIn_timerOff g r) in Fg by done.
  set (s1 := closeGuard _ s0) in *. clearbody s1. cbn in Fd, Fs, Fi, Fw, Fn, Ft, Fa, Fp. clear s0.
  assert (T : Table (active_ s1) (pending_ s1) (guards s1) (nextGuard s1)).
  { rewrite Fa, Fp, Fn, Fg. eapply (table_close (active_ s) (pending_ s)); [apply C|..].
    - intros x Hx. split; [done|]. congruence.
    - done.
    - intros x Hx. by left.
    - intros x Hx. right. congruence. }
  set (s2 := stopHard g s1).
  assert (T2 : Table (active_ s2) (pending_ s2) (guards s2) (nextGuard s2)).
  { unfold s2, stopHard. cbn. apply table_alter; [done|]. intros r0 _. split_and!; [done..|].
    intros _ [H1 H2]. split; [done|]. intros Hpr. split; [by apply H2|]. by right. }
  assert (G : active_ s2 = active_ s /\ pending_ s2 = None /\ shutdown_ s2 = false /\ state_ s2 = state_ s /\
    identityUnsupported_ s2 = identityUnsupported_ s /\ waiters_ s2 = waiters_ s /\ todo s2 = todo s).
  { split_and!; cbn; congruence. }
  clearbody s2. clear -C T2 G Hd. destruct G as (Ga & Gp & Gd & Gs & Gi & Gw & Gt).
  assert (Hlast : forall code message, todo (armFailed code message s2) = FSettle (waiters_ s2) :: todo s2 /\
    pending_ (armFailed code message s2) = None /\ shutdown_ (armFailed code message s2) = false /\
    waiters_ (armFailed code message s2) = [] /\ state_ (armFailed code message s2) <> KsArming).
  { intros code message. unfold armFailed. case_bool_decide as Hact.
    - cbv zeta. rewrite Ga in Hact. destruct (core_active s C Hd Hact) as [Es|[Es _]];
        destruct (unfixable code); split_and!; try done; cbn; congruence.
    - unfold fail.
      destruct (setState_fields KsFailed ((s2 <| failureCode_ := code |>) <| failureMessage_ := message |>))
        as (Es & (Ed & _ & _ & Ew & _ & _ & _ & Et) & _ & Ep & _).
      set (s3 := setState _ _) in *. clearbody s3. cbn in *. rewrite Ew, Et, Ep, Ed, Es. done. }
  match goal with |- context [armFailed ?code ?message s2] => destruct (Hlast code message) as (L1 & L2 & L3 & L4 & L5);
    destruct (inv_armFailed code message s2 T2 Gd) as [Hi Hg] end.
  - rewrite Ga, Gs, Gi. by apply (core_active s C).
  - rewrite Ga, Gs, Gi. by apply (core_armed s C).
  - split; [done|]. split; [eapply grows_trans; [by apply grows_same|done]|]. split_and!; try done. by rewrite L1, Gw, Gt.
Qed.

Lemma inv_shutdown inTime s : Inv s -> Inv (shutdown inTime s) /\ Grows s (shutdown inTime s).
Proof.
  intros I. unfold shutdown. destruct (shutdown_ s) eqn:Hd; [split; [done|by apply grows_same]|]. cbv zeta.
  split; [|by apply grows_same]. destruct I as [[T _ _ _ _] _]. split; [|by intros ?].
  split; [|by intros _|by intros ?..]. cbn.
  assert (Hl : forall g r', map_imap (stopLate inTime) (closeForExit <$> guards s) !! g = Some r' ->
    exists r, guards s !! g = Some r /\ gClosing r' = true /\ closed r').
  { intros g r'. rewrite map_lookup_imap, lookup_fmap. destruct (guards s !! g) as [r|]; [|done]. cbn.
    unfold stopLate, closeForExit. cbv zeta. destruct (bool_decide (g ∈ inTime)); [done|]. cbn [orb].
    intros Hx. exists r. split; [done|]. destruct r as [? ? ? [] ? ? ? ? ? ?]; vm_compute in Hx; [| |done].
    all: injection Hx as <-; split; [done|]; split; [done|]; intros _; split; [done|by right]. }
  split.
  - intros g r' (r & E & _)%Hl. by eapply tb_fresh.
  - intros g r' (r & E & _ & Hc)%Hl _. done.
  - done.
  - done.
  - intros g r' (r & E & Hc & _)%Hl Hc'. congruence.
  - intros g r' (r & E & _ & Ht & _)%Hl Ht'. congruence.
Qed.

(** ** Every event *)

Lemma inv_snoc w s : Inv s -> waitsOn w s = true -> Inv (s <| waiters_ := waiters_ s ++ [w] |>).
Proof.
  intros [C W] Hw. split; [by apply (core_ext s)|]. intros Hd. apply Forall_app. split; [exact (W Hd)|]. by constructor.
Qed.

Lemma inv_whenIdle id path s : Inv s -> Inv (whenIdle id path s) /\ Grows s (whenIdle id path s).
Proof.
  intros I. unfold whenIdle. case_bool_decide as Hp; (split; [|by apply grows_same]).
  - apply inv_snoc; [done|]. by apply bool_decide_eq_true.
  - by apply (inv_ext s).
Qed.

Lemma inv_settleTurn ws s : Inv s -> Inv (settleTurn ws s).
Proof.
  intros I. unfold settleTurn. destruct ws as [|w ws]; [done|]. cbv zeta.
  set (s1 := next [FSettle ws] s). assert (I1 : Inv s1) by by apply (inv_ext s). clearbody s1.
  destruct (waitsOn w s1) eqn:Ew; [by apply inv_snoc|]. destruct (contextGone w s1); [by apply (inv_ext s1)|].
  destruct w; by apply (inv_ext s1).
Qed.

(** The frames a turn leaves. *)
Lemma todo_settleTurn w ws s :
  todo (settleTurn (w :: ws) s) = FSettle ws :: todo s \/
  isIdle w = false /\ todo (settleTurn (w :: ws) s) = FReturn :: FSettle ws :: todo s.
Proof. unfold settleTurn. cbv zeta. destruct (waitsOn w _); [by left|]. destruct (contextGone w _); [by left|]. destruct w; [by right|by left]. Qed.

Lemma shutdown_settleTurn ws s : shutdown_ (settleTurn ws s) = shutdown_ s.
Proof.
  unfold settleTurn. destruct ws as [|w ws]; [done|]. cbv zeta. destruct (waitsOn w _); [done|]. destruct (contextGone w _); [done|].
  by destruct w.
Qed.

Lemma whole_runFrame f fs now s : Whole s -> todo s = f :: fs -> Whole (runFrame os f now (s <| todo := fs |>)).
Proof.
  intros [I A] E. set (s0 := s <| todo := fs |>).
  assert (I0 : Inv s0) by by apply (inv_ext s). assert (E0 : todo s0 = fs) by done.
  assert (D0 : shutdown_ s0 = shutdown_ s) by done. clearbody s0. unfold AppTop in A. rewrite E in A.
  destruct A as [Hn|(Hd & fs' & Hn & [[= -> ->]|(ws & Hw & [= -> ->])])].
  - assert (Hn' : FApplyRest ∉ todo s0) by (rewrite E0; intros Hx; apply Hn; by right).
    destruct f; cbn [runFrame].
    + exfalso. apply Hn. by left.
    + split; [by apply inv_settleTurn|]. left. destruct waiting as [|w ws]; [done|].
      destruct (todo_settleTurn w ws s0) as [->|[_ ->]]; rewrite !elem_of_cons; intros Hx; destruct_or!; done.
    + destruct (inv_whenIdle id path s0 I0). by eapply whole_grows.
    + destruct (inv_handleLine guard line now s0 I0). by eapply whole_grows.
    + destruct (inv_finishedRest guard exitCode crashed now s0 I0). by eapply whole_grows.
    + split; [done|by left].
  - cbn [runFrame]. destruct (inv_applyRest s0 I0) as [Hi Hg]; [congruence|].
    apply (whole_grows s0); [by rewrite E0|done|done].
  - cbn [runFrame]. split; [by apply inv_settleTurn|]. right. rewrite shutdown_settleTurn, D0. split; [done|].
    exists fs'. split; [done|]. destruct ws as [|w ws]; [left; by cbn|right]. inversion Hw as [|? ? Hi Hws]; subst.
    exists ws. split; [done|]. destruct (todo_settleTurn w ws s0) as [->|[Hf _]]; [by rewrite E0|congruence].
Qed.

Lemma inv_settings p s : Inv s -> Inv (s <| settings := p |>).
Proof. by apply inv_ext. Qed.

Lemma whole_permitOnUi id path s : Inv s -> FApplyRest ∉ todo s -> Whole (permitOnUi os id path s).
Proof.
  intros I Hn. unfold permitOnUi. destruct (_ || _); [split; [by apply (inv_ext s)|by left]|].
  assert (I' : Inv (next [FPermitRest id path] (s <| settings := AddExtraCorePath path (settings s) |>))) by by apply (inv_ext s).
  apply whole_apply; [apply core_noted, I'|apply I'| |intros _; apply I'].
  cbn. rewrite elem_of_cons. by intros [|].
Qed.

Lemma inv_onStarted g s : Inv s -> procOf g s = PsStarting -> Inv (onStarted g s) /\ Grows s (onStarted g s).
Proof.
  intros I Hp. unfold onStarted. unfold procOf in Hp. destruct (guards s !! g) as [r|] eqn:E; [|done].
  assert (I' : Inv (updateGuard (fun r => r <| gProc := PsRunning |>) g s)).
  { apply inv_update; [done|]. intros r' E'. split_and!; [done..|]. intros _ [H1 H2]. split; [done|]. intros _.
    apply H2. rewrite E in E'. injection E' as <-. by rewrite Hp. }
  cbv zeta. destruct (gClosing r); (split; [|by apply grows_same]); [done|]. refine (inv_ext _ _ _ _ I'); done.
Qed.

Lemma inv_grace g s :
  Inv s -> flagOf gGraceTimer g s = true ->
  let s' := updateGuard (fun r => r <| gGraceTimer := false |>) g s in
  let s'' := if bool_decide (procOf g s' = PsNotRunning) then s' else stopHard g s' in
  Inv s'' /\ Grows s s''.
Proof.
  intros I Hf. cbv zeta. unfold flagOf in Hf. unfold procOf. cbn [guards updateGuard].
  change (guards (updateGuard (fun r => r <| gGraceTimer := false |>) g s))
    with (alter (fun r => r <| gGraceTimer := false |>) g (guards s)).
  rewrite lookup_alter_eq. destruct (guards s !! g) as [r|] eqn:E; [|done]. cbn.
  case_bool_decide as Hp; (split; [|by apply grows_same]).
  - apply inv_update; [done|]. intros r' E'. rewrite E in E'. injection E' as <-. split_and!; [done..|].
    intros _ [H1 H2]. split; [done|]. done.
  - assert (Ec : stopHard g (updateGuard (fun r => r <| gGraceTimer := false |>) g s) =
      updateGuard (fun r => (r <| gGraceTimer := false |>) <| gStopSent := true |>) g s).
    { unfold stopHard, updateGuard. cbn. assert (Eg : forall x, alter (fun r => r <| gStopSent := true |>) g
        (alter (fun r => r <| gGraceTimer := false |>) g (guards s)) !! x =
        alter (fun r => (r <| gGraceTimer := false |>) <| gStopSent := true |>) g (guards s) !! x); [|by rewrite (map_eq _ _ Eg)].
      intros x. destruct (decide (x = g)) as [->|]; [by rewrite !lookup_alter_eq, E|by rewrite !lookup_alter_ne]. }
    rewrite Ec. apply inv_update; [done|]. intros r' _. split_and!; [done..|].
    intros _ [H1 H2]. split; [done|]. intros Hp'. split; [by apply H2|by right].
Qed.

Lemma inv_onFinished g lines exitCode crashed s :
  Inv s -> Inv (onFinished g lines exitCode crashed s) /\ Grows s (onFinished g lines exitCode crashed s).
Proof.
  intros I. unfold onFinished, readOutput. split.
  - eapply inv_ext; [..|apply (inv_update (fun r => r <| gProc := PsNotRunning |>) g s I)]; [done|done|].
    intros r _. split_and!; [done..|]. intros _ [H1 H2]. by split.
  - eexists (_ ++ [_]). split; [cbn; by rewrite <- app_assoc|]. rewrite elem_of_app, list_elem_of_singleton.
    intros [Hx|]; [|done]. apply list_elem_of_fmap in Hx as (? & ? & _). done.
Qed.

Lemma whole_handleMain e s : Whole s -> FApplyRest ∉ todo s -> Whole (handleMain os e s).
Proof.
  intros W Hn. pose proof W as [I _]. assert (Hok : forall s', Inv s' /\ Grows s s' -> Whole s') by (intros s' []; by eapply whole_grows).
  assert (Hsame : forall s', coreFields s' = coreFields s -> waiters_ s' = waiters_ s -> todo s' = todo s -> Whole s').
  { intros s' ? ? ?. apply Hok. split; [by eapply inv_ext|by apply grows_same]. }
  assert (Happ : forall s', coreFields s' = coreFields s -> waiters_ s' = waiters_ s -> todo s' = todo s -> Whole (apply os s')).
  { intros s' E1 E2 E3. assert (I' : Inv s') by by eapply inv_ext. apply whole_apply; [apply core_noted, I'|apply I'|by rewrite E3|].
    intros _. apply I'. }
  destruct e; cbn [handleMain]; try done.
  - by apply Happ.
  - unfold noteIdentityUnsupported. apply whole_apply; [by apply noted_detail, I|apply I|done|].
    cbn. intros Hd. destruct I as [[H1 H2 H3 H4 H5] _]. split; cbn; try done; congruence.
  - by apply Hsame.
  - destruct (portPosts s); [done|]. unfold apiPortChanged. case_match; [by apply Hsame|]. case_match; [by apply Hsame|]. by apply Happ.
  - unfold whenSettled. cbn [freshId]. cbn. case_bool_decide as Es; [|by apply Hsame].
    apply Hok. split; [|by apply grows_same].
    pose proof (inv_snoc (WSettled context (nextId s)) (s <| nextId := Datatypes.S (nextId s) |>)) as Hx. cbn in Hx. apply Hx.
    + by apply (inv_ext s).
    + by apply bool_decide_eq_true.
  - by apply Hsame.
  - destruct (permitPosts s) as [|[id path] ps]; [done|]. apply whole_permitOnUi; [by apply (inv_ext s)|done].
  - case_bool_decide as Hp; [|done]. by apply Hok, inv_onStarted.
  - case_bool_decide as Hp; [|done]. cbn [andb]. destruct (flagOf gReady guard s) eqn:Hf; [done|]. by apply Hok, inv_onStartFailed.
  - case_bool_decide as Hp; [|done]. apply Hok. split; [by apply (inv_ext s)|]. eexists. split; [done|].
    intros Hx. apply list_elem_of_fmap in Hx as (? & ? & _). done.
  - case_bool_decide as Hp; [|done]. by apply Hok, inv_onFinished.
  - destruct (flagOf gReadyTimer guard s) eqn:Hf; [|done]. destruct (inv_readyTimer guard s I Hf) as (Hi & Hg & _). by apply Hok.
  - destruct (flagOf gGraceTimer guard s) eqn:Hf; [|done]. by apply Hok, inv_grace.
  - destruct (retryTimers s); [done|]. unfold retryFired. case_match; [by apply Hsame|]. case_match; [by apply Hsame|]. by apply Happ.
  - by apply Hok, inv_shutdown.
  - by apply Hsame.
Qed.

Theorem whole_handle now e s : Whole s -> Whole (handle os now e s).
Proof.
  intros W. pose proof W as [I A].
  assert (Hsame : forall s', coreFields s' = coreFields s -> waiters_ s' = waiters_ s -> todo s' = todo s -> Whole s').
  { intros s' E1 E2 E3. split; [by eapply inv_ext|]. unfold AppTop. injection E1 as _ _ _ _ -> _ _. by rewrite E3. }
  assert (Hmain : Whole (if onMain s then handleMain os e s else s)).
  { destruct (onMain s) eqn:Em; [|done]. apply whole_handleMain; [done|]. unfold onMain in Em.
    destruct A as [|(_ & fs & _ & [Et|(ws & _ & Et)])]; [done|by rewrite Et in Em..]. }
  destruct e; try exact Hmain; clear Hmain; cbn [handle].
  - unfold SetApiPort. case_match; [done|]. by apply Hsame.
  - unfold permitExtraCore. cbn [freshId]. cbn. case_match; by apply Hsame.
  - destruct (todo s) as [|f fs] eqn:E; [done|]. by apply whole_runFrame.
Qed.

Lemma reachable_whole s : reachable os s -> Whole s.
Proof.
  apply switch_reachable_ind; [|intros now e s' _; apply whole_handle]. intros p. split; [|left; by intros ?%elem_of_nil].
  split; [|by intros _]. split; try done; try (by intros _ [? ?]).
Qed.
End Machine.
