(* ===== verification/KillSwitchLaws.v ===== *)
(** * KillSwitchLaws: the promises of the kill switch

    Consequences of the invariant of KillSwitchProps, and the ledger of its
    callbacks. *)

From S2P Require Import Prelude Text Json EngineTypes KillSwitch KillSwitchProps.

(** ** Callbacks *)

Definition frameIds (f : Frame) : list nat :=
  match f with
  | FSettle ws => map waiterId ws
  | FPermitRest id _ => [id]
  | _ => []
  end.

(** Every number handed out: answered, given up, or still to be answered. *)
Definition answered (s : Switch) : list nat :=
  map fst (calls s) ++ map (fun a => fst (fst a)) (answers s) ++ dropped s.

Definition waiting (s : Switch) : list nat :=
  map waiterId (waiters_ s) ++ (todo s ≫= frameIds) ++ map fst (permitPosts s).

Definition Keeps (s s' : Switch) : Prop :=
  answered s' ++ waiting s' ≡ₚ answered s ++ waiting s /\ nextId s' = nextId s.

Definition ledgerFields (s : Switch) := (calls s, answers s, dropped s, waiters_ s, todo s, permitPosts s, nextId s).

Lemma keeps_same s s' : ledgerFields s' = ledgerFields s -> Keeps s s'.
Proof. unfold ledgerFields, Keeps, answered, waiting. intros [= -> -> -> -> -> -> ->]. done. Qed.

Lemma keeps_trans s1 s2 s3 : Keeps s1 s2 -> Keeps s2 s3 -> Keeps s1 s3.
Proof. intros [P1 N1] [P2 N2]. split; [by rewrite P2|congruence]. Qed.

Lemma ledger_setState st s : ledgerFields (setState st s) = ledgerFields s.
Proof. unfold setState. cbv zeta. destruct (bool_decide (st = KsFailed)); by case_bool_decide. Qed.

Lemma ledger_closeGuard g s : ledgerFields (closeGuard g s) = ledgerFields s.
Proof.
  unfold closeGuard. destruct g as [g|]; [|done]. destruct (guards s !! g) as [r|]; [|done]. destruct (gClosing r); [done|].
  by case_bool_decide.
Qed.

Lemma ledger_closePending s : ledgerFields (closePending s) = ledgerFields s.
Proof. unfold closePending. by rewrite ledger_closeGuard. Qed.

Lemma ledger_closeBoth s : ledgerFields (closeActive (closePending s)) = ledgerFields s.
Proof. unfold closeActive. rewrite ledger_closeGuard. exact (ledger_closePending s). Qed.

Lemma keeps_settle s s' : ledgerFields s' = ledgerFields s -> Keeps s (settle s').
Proof.
  intros E. eapply keeps_trans; [by apply keeps_same|]. split; [|done]. unfold settle, answered, waiting. cbn.
  by rewrite <- !app_assoc.
Qed.

Lemma keeps_fail code message s : Keeps s (fail code message s).
Proof. apply keeps_settle. by rewrite ledger_setState. Qed.

Lemma keeps_failIdentity s : Keeps s (failIdentity s).
Proof.
  apply keeps_settle. match goal with |- ledgerFields (if ?b then _ else _) = _ => destruct b end; by rewrite ?ledger_setState.
Qed.

Lemma keeps_next_other f s : frameIds f = [] -> Keeps s (next [f] s).
Proof. intros E. split; [|done]. unfold answered, waiting. cbn. by rewrite E. Qed.

Section Ledger.
Context `{QtText} `{Platform} (os : Os).

Lemma ledger_spawn config s : ledgerFields (spawn config s) = ledgerFields s.
Proof.
  unfold spawn. cbv zeta. rewrite <- (ledger_closePending s). set (s1 := closePending s). clearbody s1.
  set (r := MkGuard _ _ _ _ _ _ _ _ _ _). clearbody r.
  match goal with |- ledgerFields (if ?b then _ else _) = _ => destruct b end; by rewrite ?ledger_setState.
Qed.

Lemma keeps_applyRest s : Keeps s (applyRest os s).
Proof.
  unfold applyRest. cbv zeta. case_match; [by apply keeps_same|].
  destruct (bool_decide (_ <$> (active_ s ≫= _) = _)); [|apply keeps_same, ledger_spawn].
  case_match; [apply keeps_settle, ledger_closePending|by apply keeps_same].
Qed.

Lemma keeps_apply s : Keeps s (apply os s).
Proof.
  unfold apply. destruct (shutdown_ s); [by apply keeps_same|]. destruct (negb _).
  { apply keeps_settle. rewrite ledger_setState. exact (ledger_closeBoth _). }
  destruct (overridden_ s).
  { cbv zeta. case_match; [apply keeps_settle, ledger_closeBoth|]. eapply keeps_trans; [|apply keeps_fail].
    apply keeps_same, ledger_closeBoth. }
  destruct (_ && _); [|apply keeps_applyRest]. eapply keeps_trans; [by apply (keeps_next_other FApplyRest)|apply keeps_failIdentity].
Qed.

Lemma keeps_armFailed code message s : Keeps s (armFailed code message s).
Proof. unfold armFailed. case_bool_decide; [|apply keeps_fail]. apply keeps_settle. by destruct (unfixable code). Qed.

Lemma keeps_protectionLost code message now s : Keeps s (protectionLost os code message now s).
Proof.
  unfold protectionLost. destruct (shutdown_ s); [by apply keeps_same|]. destruct (negb _); [apply keeps_apply|].
  case_bool_decide.
  { apply keeps_settle. destruct (identityUnsupported_ s); [done|apply ledger_setState]. }
  match goal with |- context [if ?b then _ else _] => destruct b end; [|apply keeps_fail].
  apply keeps_same. by rewrite ledger_spawn.
Qed.

Lemma ledger_guardLost g s : ledgerFields (guardLost g s).2 = ledgerFields s.
Proof. unfold guardLost. cbn. destruct (bool_decide (active_ s = Some g)); cbn; by destruct (bool_decide (pending_ s = Some g)). Qed.

Lemma keeps_onReady g s : Keeps s (onReady g s).
Proof.
  unfold onReady. destruct (guards s !! g) as [r|]; [|by apply keeps_same]. destruct (_ || _); [by apply keeps_same|]. cbv zeta.
  match goal with |- context [closeGuard ?p ?x] => assert (E : ledgerFields (closeGuard p x) = ledgerFields s)
    by (rewrite ledger_closeGuard; done); set (s2 := closeGuard p x) in *; clearbody s2 end.
  destruct (identityUnsupported_ s2); [eapply keeps_trans; [by apply keeps_same|apply keeps_failIdentity]|].
  apply keeps_settle. by rewrite ledger_setState.
Qed.

Lemma keeps_lost (wa wp : bool) code message message' now s s' :
  ledgerFields s' = ledgerFields s -> Keeps s (lostStep os wa wp code message message' now s').
Proof.
  intros E. eapply keeps_trans; [by apply keeps_same|]. unfold lostStep.
  destruct wa; [apply keeps_protectionLost|]. destruct wp; [apply keeps_armFailed|by apply keeps_same].
Qed.

Lemma keeps_handleLine g line now s : Keeps s (handleLine os g line now s).
Proof.
  unfold handleLine. cbv zeta. case_match; [by apply keeps_same|]. case_match; [apply keeps_onReady|]. case_match; [by apply keeps_same|].
  destruct (guards s !! g) as [r|]; [|by apply keeps_same]. destruct (gClosing r); [by apply keeps_same|].
  pose proof (ledger_guardLost g s) as E. destruct (guardLost g s) as [[wa wp] s1]. cbn [snd] in E.
  apply (keeps_lost wa wp). by rewrite ledger_closeGuard.
Qed.

Lemma keeps_onReadyTimeout g s : Keeps s (onReadyTimeout g s).
Proof.
  unfold onReadyTimeout. destruct (guards s !! g) as [r|]; [|by apply keeps_same]. destruct (_ || _); [by apply keeps_same|]. cbv zeta.
  eapply keeps_trans; [|apply keeps_armFailed]. apply keeps_same.
  change (ledgerFields (stopHard g ?x)) with (ledgerFields x). by rewrite ledger_closeGuard.
Qed.

Lemma keeps_onStartFailed g message s : Keeps s (onStartFailed g message s).
Proof.
  unfold onStartFailed. destruct (guards s !! g) as [r|]; [|by apply keeps_same]. cbv zeta. destruct (_ && _); [|by apply keeps_same].
  eapply keeps_trans; [|apply keeps_armFailed]. by apply keeps_same.
Qed.

Lemma keeps_finishedRest g exitCode crashed now s : Keeps s (finishedRest os g exitCode crashed now s).
Proof.
  unfold finishedRest. cbv zeta. destruct (match guards s !! g with Some r => negb (gClosing r) | None => false end).
  - pose proof (ledger_guardLost g s) as E. destruct (guardLost g s) as [[wa wp] s1]. cbn [snd] in E. by apply (keeps_lost wa wp).
  - by apply keeps_same.
Qed.

Lemma keeps_shutdown inTime s : Keeps s (shutdown inTime s).
Proof.
  unfold shutdown. destruct (shutdown_ s); [by apply keeps_same|]. split; [|done]. unfold answered, waiting. cbn.
  by rewrite <- !app_assoc.
Qed.

Lemma keeps_lines g lines s : Keeps s (next (map (FLine g) lines) s).
Proof.
  split; [|done]. unfold answered, waiting. cbn. rewrite bind_app.
  assert (E : map (FLine g) lines ≫= frameIds = []) by (induction lines; done). by rewrite E.
Qed.

(** Equal up to order, by counting. *)
Ltac counting :=
  apply (Permutation_count_occ Nat.eq_dec); generalize Nat.eq_dec; let dec := fresh in let k := fresh in intros dec k;
  unfold answered, waiting; cbn; rewrite ?map_app, ?bind_app, ?count_occ_app; cbn; rewrite ?count_occ_app;
  repeat match goal with |- context [dec ?x ?y] => destruct (dec x y) end; cbn; lia.

(** [f] after its frame was taken. *)
Lemma keeps_runFrame f fs now s :
  todo s = f :: fs -> Keeps s (runFrame os f now (s <| todo := fs |>)).
Proof.
  intros E. set (s0 := s <| todo := fs |>).
  assert (Hother : frameIds f = [] -> Keeps s s0).
  { intros Ef. split; [|done]. unfold answered, waiting, s0. cbn. rewrite E. cbn. by rewrite Ef. }
  destruct f; cbn [runFrame].
  - eapply keeps_trans; [by apply Hother|apply keeps_applyRest].
  - unfold settleTurn. destruct waiting0 as [|w ws]; [by apply Hother|]. cbv zeta.
    destruct (waitsOn w (next [FSettle ws] s0)); [|destruct (contextGone w (next [FSettle ws] s0)); [|destruct w]].
    all: split; [|done]; unfold answered, waiting, s0; cbn; rewrite E; counting.
  - unfold whenIdle. case_bool_decide; (split; [|done]); unfold answered, waiting, s0; cbn; rewrite E; counting.
  - eapply keeps_trans; [by apply Hother|apply keeps_handleLine].
  - eapply keeps_trans; [by apply Hother|apply keeps_finishedRest].
  - by apply Hother.
Qed.

(** The ledger: the numbers handed out are those answered, given up or waiting. *)
Definition Ledger (s : Switch) : Prop := answered s ++ waiting s ≡ₚ seq 0 (nextId s).

Lemma keeps_ledger s s' : Keeps s s' -> Ledger s -> Ledger s'.
Proof. unfold Ledger. intros [P N] L. by rewrite P, N. Qed.

(** A number handed out in between. *)
Lemma fresh_ledger s s' :
  answered s' ++ waiting s' ≡ₚ (answered s ++ waiting s) ++ [nextId s] -> nextId s' = Datatypes.S (nextId s) ->
  Ledger s -> Ledger s'.
Proof. unfold Ledger. intros P N L. by rewrite P, N, seq_S, L. Qed.

Lemma ledger_handleMain e s : Ledger s -> Ledger (handleMain os e s).
Proof.
  intros L. destruct e; cbn [handleMain]; try done.
  - eapply keeps_ledger; [apply keeps_apply|done].
  - eapply keeps_ledger; [|exact L]. eapply keeps_trans; [|apply keeps_apply]. by apply keeps_same.
  - destruct (portPosts s) as [|n]; [done|]. unfold apiPortChanged. case_match; [done|]. case_match; [done|].
    eapply keeps_ledger; [|exact L]. eapply keeps_trans; [|apply keeps_apply]. by apply keeps_same.
  - unfold whenSettled. cbn [freshId]. cbn. case_bool_decide; (eapply fresh_ledger; [|done|exact L]); counting.
  - destruct (permitPosts s) as [|[id path] ps] eqn:E; [done|]. unfold permitOnUi. eapply keeps_ledger; [|exact L].
    destruct (_ || _).
    + split; [|done]. unfold answered, waiting. rewrite E. counting.
    + eapply keeps_trans; [|apply keeps_apply]. split; [|done]. unfold answered, waiting. rewrite E. counting.
  - case_bool_decide; [|done]. unfold onStarted. destruct (guards s !! guard); [|done]. cbv zeta. by destruct (gClosing g).
  - case_match; [|done]. eapply keeps_ledger; [apply keeps_onStartFailed|done].
  - case_bool_decide; [|done]. eapply keeps_ledger; [apply keeps_lines|done].
  - case_bool_decide; [|done]. eapply keeps_ledger; [|exact L]. unfold onFinished, readOutput.
    eapply keeps_trans; [|apply keeps_lines]. eapply keeps_trans; [|by apply (keeps_next_other (FFinished guard exitCode crashed))].
    by apply keeps_same.
  - case_match; [|done]. eapply keeps_ledger; [|exact L]. eapply keeps_trans; [|apply keeps_onReadyTimeout]. by apply keeps_same.
  - case_match; [|done]. cbv zeta. by case_bool_decide.
  - destruct (retryTimers s) as [|n]; [done|]. unfold retryFired. case_match; [done|]. case_match; [done|].
    eapply keeps_ledger; [|exact L]. eapply keeps_trans; [|apply keeps_apply]. by apply keeps_same.
  - eapply keeps_ledger; [apply keeps_shutdown|exact L].
Qed.

Lemma reachable_ledger s : reachable os s -> Ledger s.
Proof.
  apply switch_reachable_ind; [intros p; unfold Ledger; reflexivity|]. intros now e s' _ L.
  assert (Hmain : Ledger (if onMain s' then handleMain os e s' else s')) by (destruct (onMain s'); [by apply ledger_handleMain|done]).
  destruct e; try exact Hmain; clear Hmain; cbn [handle].
  - unfold SetApiPort. by destruct (_ =? _).
  - unfold permitExtraCore. cbn [freshId]. cbn. destruct (_ || _); (eapply fresh_ledger; [|done|exact L]); counting.
  - destruct (todo s') as [|f fs] eqn:E; [done|]. eapply keeps_ledger; [by apply keeps_runFrame|done].
Qed.
End Ledger.

(** ** Guards stay *)

(** The active guard is let go for no other reason than those [P] allows. *)
Definition Holds (s s' : Switch) : Prop := active_ s' = None -> active_ s = None.

Lemma holds_same s s' : active_ s' = active_ s -> Holds s s'.
Proof. intros E. unfold Holds. by rewrite E. Qed.

Lemma active_setState st s : active_ (setState st s) = active_ s.
Proof. by destruct (setState_fields st s) as (_ & _ & -> & _). Qed.

Lemma active_closeGuard g s : active_ (closeGuard g s) = active_ s.
Proof. by destruct (closeGuard_frame g s) as (_ & -> & _). Qed.

Lemma active_fail code message s : active_ (fail code message s) = active_ s.
Proof. exact (active_setState KsFailed _). Qed.

Lemma active_failIdentity s : active_ (failIdentity s) = active_ s.
Proof.
  unfold failIdentity. cbv zeta. change (active_ (settle ?x)) with (active_ x).
  match goal with |- active_ (if ?b then _ else _) = _ => destruct b end; [done|exact (active_setState KsFailed _)].
Qed.

Section Guards.
Context `{QtText} `{Platform} (os : Os).

Lemma active_spawn config s : active_ (spawn config s) = active_ s.
Proof.
  unfold spawn. cbv zeta. assert (E : active_ (closePending s) = active_ s) by exact (active_closeGuard _ _). rewrite <- E.
  set (s1 := closePending s). clearbody s1. set (r := MkGuard _ _ _ _ _ _ _ _ _ _). clearbody r.
  match goal with |- active_ (if ?b then _ else _) = _ => destruct b end; by rewrite ?active_setState.
Qed.

Lemma active_applyRest s : active_ (applyRest os s) = active_ s.
Proof.
  unfold applyRest. cbv zeta. case_match; [done|]. destruct (bool_decide (_ <$> (active_ s ≫= _) = _)); [|apply active_spawn].
  case_match; [exact (active_closeGuard _ _)|done].
Qed.

Lemma holds_apply s : ksOn (settings s) = true -> overridden_ s = false -> active_ (apply os s) = active_ s.
Proof.
  intros Hk Ho. unfold apply. destruct (shutdown_ s); [done|]. rewrite Hk, Ho. cbn [negb].
  destruct (_ && _); [exact (active_failIdentity _)|apply active_applyRest].
Qed.

(** [apply] leaves the settings and the override alone. *)
Definition cfg (s : Switch) : KsSettings * bool := (settings s, overridden_ s).

Lemma cfg_settle s : cfg (settle s) = cfg s.
Proof. done. Qed.

Lemma cfg_setState st s : cfg (setState st s) = cfg s.
Proof. destruct (setState_fields st s) as (_ & (_ & _ & _ & _ & E1 & E2 & _) & _). unfold cfg. by rewrite E1, E2. Qed.

Lemma cfg_closeGuard g s : cfg (closeGuard g s) = cfg s.
Proof. destruct (closeGuard_frame g s) as ((_ & _ & _ & _ & E1 & E2 & _) & _). unfold cfg. by rewrite E1, E2. Qed.

Lemma cfg_closePending s : cfg (closePending s) = cfg s.
Proof. exact (cfg_closeGuard _ _). Qed.

Lemma cfg_closeActive s : cfg (closeActive s) = cfg s.
Proof. exact (cfg_closeGuard _ _). Qed.

Lemma cfg_fail code message s : cfg (fail code message s) = cfg s.
Proof. unfold fail. rewrite cfg_settle, cfg_setState. done. Qed.

Lemma cfg_failIdentity s : cfg (failIdentity s) = cfg s.
Proof.
  unfold failIdentity. cbv zeta. rewrite cfg_settle. match goal with |- cfg (if ?b then _ else _) = _ => destruct b end; [done|].
  by rewrite cfg_setState.
Qed.

Lemma cfg_spawn config s : cfg (spawn config s) = cfg s.
Proof.
  unfold spawn. cbv zeta. rewrite <- (cfg_closePending s). set (s1 := closePending s). clearbody s1.
  set (r := MkGuard _ _ _ _ _ _ _ _ _ _). clearbody r.
  match goal with |- cfg (if ?b then _ else _) = _ => destruct b end; by rewrite ?cfg_setState.
Qed.

Lemma cfg_applyRest s : cfg (applyRest os s) = cfg s.
Proof.
  unfold applyRest. cbv zeta. case_match; [done|]. destruct (bool_decide (_ <$> (active_ s ≫= _) = _)); [|apply cfg_spawn].
  case_match; [|done]. by rewrite cfg_settle, cfg_closePending.
Qed.

Lemma cfg_apply s : cfg (apply os s) = cfg s.
Proof.
  unfold apply. destruct (shutdown_ s); [done|]. destruct (negb _).
  { cbv zeta. by rewrite cfg_settle, cfg_setState, cfg_closeActive, cfg_closePending. }
  destruct (overridden_ s).
  { cbv zeta. case_match; by rewrite ?cfg_settle, ?cfg_fail, cfg_closeActive, cfg_closePending. }
  destruct (_ && _); [by rewrite cfg_failIdentity|apply cfg_applyRest].
Qed.

Lemma active_armFailed code message s : active_ (armFailed code message s) = active_ s.
Proof. unfold armFailed. case_bool_decide; [|apply active_fail]. by destruct (unfixable code). Qed.

Lemma active_protectionLost_none code message now s :
  active_ s = None -> active_ (protectionLost os code message now s) = None.
Proof.
  intros Ha. unfold protectionLost. destruct (shutdown_ s); [done|]. destruct (negb _) eqn:Hk.
  { unfold apply. destruct (shutdown_ s); [done|]. rewrite Hk. cbv zeta. unfold settle. cbn [active_ next].
    exact (eq_trans (active_setState _ _) (proj1 (proj2 (closeBoth_fields _)))). }
  case_bool_decide.
  { unfold settle. destruct (identityUnsupported_ s); [done|]. exact (eq_trans (active_setState _ _) Ha). }
  match goal with |- context [if ?b then _ else _] => destruct b end; [|by rewrite active_fail]. by rewrite active_spawn.
Qed.

(** Another guard's end does not touch the active one. *)
Lemma active_lost_other g g' code message message' now s s' (wp : bool) :
  active_ s = Some g' -> g' <> g -> active_ s' = active_ s ->
  active_ (lostStep os (bool_decide (active_ s = Some g)) wp code message message' now s') = active_ s.
Proof.
  intros Ha Hne E. unfold lostStep. rewrite bool_decide_false by congruence. destruct wp; [by rewrite active_armFailed|done].
Qed.

Lemma active_guardLost_other g g' s : active_ s = Some g' -> g' <> g -> active_ (guardLost g s).2 = active_ s.
Proof.
  intros Ha Hne. destruct (guardLost_fields g s) as (s1 & -> & _ & _ & Ea & _). cbn [snd]. rewrite Ea.
  by rewrite bool_decide_false by congruence.
Qed.

Lemma holds_handleLine g line now s g' :
  active_ s = Some g' -> ~ (g = g' /\ (firstWord line = u "ERROR" \/ firstWord line = u "FAIL")) ->
  active_ (handleLine os g line now s) <> None.
Proof.
  intros Ha Hn. unfold handleLine. cbv zeta. case_match; [congruence|].
  case_match.
  { unfold onReady. destruct (guards s !! g) as [r|]; [|congruence]. destruct (_ || _); [congruence|]. cbv zeta.
    set (s1 := ((updateGuard _ g s) <| active_ := Some g |>) <| pending_ := None |>).
    assert (E : active_ (closeGuard (active_ s) s1) = Some g) by exact (active_closeGuard _ _).
    change (active_ (updateGuard (fun r => (r <| gReady := true |>) <| gReadyTimer := false |>) g s)) with (active_ s).
    set (s2 := closeGuard _ s1) in *. clearbody s2.
    destruct (identityUnsupported_ s2); [rewrite active_failIdentity; congruence|].
    change (active_ (settle ?x)) with (active_ x). rewrite active_setState. congruence. }
  destruct (negb (bool_decide (firstWord line = u "ERROR")) && negb (bool_decide (firstWord line = u "FAIL"))) eqn:Hv; [congruence|].
  assert (Hw : firstWord line = u "ERROR" \/ firstWord line = u "FAIL").
  { destruct (decide (firstWord line = u "ERROR")) as [|Hv1]; [by left|]. destruct (decide (firstWord line = u "FAIL")) as [|Hv2]; [by right|].
    rewrite !bool_decide_false in Hv by done. done. }
  destruct (guards s !! g) as [r|]; [|congruence]. destruct (gClosing r); [congruence|].
  assert (Hne : g' <> g) by (intros ->; by apply Hn).
  pose proof (active_guardLost_other g g' s Ha Hne) as El.
  destruct (guardLost_fields g s) as (s1 & Eq & _). rewrite Eq in *. cbn [snd] in El.
  assert (Ec : active_ (closeGuard (Some g) s1) = active_ s) by (by rewrite active_closeGuard).
  pose proof (active_lost_other g g' (firstWord (afterWord line)) (afterWord (afterWord line)) (afterWord (afterWord line)) now s
    _ (bool_decide (pending_ s = Some g)) Ha Hne Ec) as Hx. unfold lostStep in Hx. rewrite Hx. congruence.
Qed.

Lemma holds_finishedRest g exitCode crashed now s g' :
  active_ s = Some g' -> g <> g' -> active_ (finishedRest os g exitCode crashed now s) <> None.
Proof.
  intros Ha Hne. unfold finishedRest. cbv zeta.
  destruct (match guards s !! g with Some r => negb (gClosing r) | None => false end); [|cbn; congruence].
  pose proof (active_guardLost_other g g' s Ha (not_eq_sym Hne)) as El.
  destruct (guardLost_fields g s) as (s1 & Eq & _). rewrite Eq in *. cbn [snd] in El.
  assert (Ec : active_ (deleteGuard g s1) = active_ s) by done.
  pose proof (fun m m' => active_lost_other g g' kCrash m m' now s _ (bool_decide (pending_ s = Some g)) Ha (not_eq_sym Hne) Ec) as Hx.
  unfold lostStep in Hx. rewrite Hx. congruence.
Qed.
End Guards.

(** ** What the kill switch promises *)

Section Promises.
Context `{QtText} `{Platform} (os : Os).

(** C4: Until the shutdown, in every reachable state, starts are allowed
    only with the switch off and no guard in force, or armed: then the active
    guard has reported READY, is not being closed, and no core failed to take its
    identity.  A switch that is arming has a pending guard whose 15 s timer runs,
    and every other guard process has had its input closed and will be stopped. *)
Theorem starts_are_guarded s :
  reachable os s -> shutdown_ s = false ->
  (allowsStart (state_ s) = true ->
     state_ s = KsDisabled /\ active_ s = None \/
     state_ s = KsArmed /\ identityUnsupported_ s = false /\
     exists g r, active_ s = Some g /\ guards s !! g = Some r /\ gReady r = true /\ gClosing r = false) /\
  (state_ s = KsArming ->
     exists g r, pending_ s = Some g /\ guards s !! g = Some r /\ gReady r = false /\ gReadyTimer r = true) /\
  (forall g r, guards s !! g = Some r -> active_ s <> Some g -> pending_ s <> Some g -> gProc r <> PsNotRunning ->
     gInputClosed r = true /\ (gGraceTimer r = true \/ gStopSent r = true)).
Proof.
  intros [[C _] _]%reachable_whole Hd. split_and!.
  - unfold allowsStart. intros [Hs|Hs]%orb_true_iff; apply bool_decide_eq_true in Hs.
    + left. split; [done|]. destruct (active_ s) as [g|] eqn:E; [|done].
      destruct (core_active s C Hd) as [Hx|[Hx _]]; [rewrite E; by eexists|congruence..].
    + right. destruct (core_armed s C Hd Hs) as [[g Ha] Hi]. split; [done|]. split; [done|].
      destruct (tb_active _ _ _ _ (core_table s C) g Ha) as (r & ? & ? & ?). by exists g, r.
  - intros Hs. destruct (core_arming s C Hd Hs) as [g Hp].
    destruct (tb_pending _ _ _ _ (core_table s C) g Hp) as (r & ? & ? & ? & ?). by exists g, r.
  - intros g r E Ha Hp Hpr. destruct (gClosing r) eqn:Ec.
    + destruct (tb_closed _ _ _ _ (core_table s C) g r E Ec) as [_ Hx]. by apply Hx.
    + destruct (tb_owned _ _ _ _ (core_table s C) g r E Ec); contradiction.
Qed.

Lemma active_apply_none s :
  active_ s <> None -> active_ (apply os s) = None ->
  ksOn (settings (apply os s)) = false \/ overridden_ (apply os s) = true.
Proof.
  intros Ha Hn. pose proof (cfg_apply os s) as [= -> ->].
  destruct (ksOn (settings s)) eqn:Hk; [|by left]. destruct (overridden_ s) eqn:Ho; [by right|].
  rewrite holds_apply in Hn by done. done.
Qed.

(** C14: No event ends the protection of an active guard but its own ERROR,
    FAIL or exit, turning the kill switch off, the override, or the shutdown: new
    settings, a failing replacement, timers, other guards and callbacks leave a
    guard that is ready and not being closed. *)
Theorem protection_kept now e s g :
  reachable os s -> active_ s = Some g ->
  let s' := handle os now e s in
  (exists g' r, active_ s' = Some g' /\ guards s' !! g' = Some r /\ gReady r = true /\ gClosing r = false) \/
  shutdown_ s' = true \/ ksOn (settings s') = false \/ overridden_ s' = true \/
  e = EContinue /\ exists fs,
    (exists line, todo s = FLine g line :: fs /\ (firstWord line = u "ERROR" \/ firstWord line = u "FAIL")) \/
    (exists code crashed, todo s = FFinished g code crashed :: fs).
Proof.
  intros Hr Ha. cbv zeta. pose proof (reachable_whole os _ (reachable_handle os now e s Hr)) as [[C _] _].
  destruct (active_ (handle os now e s)) as [g'|] eqn:Ha'.
  { left. destruct (tb_active _ _ _ _ (core_table _ C) g' Ha') as (r & ? & ? & ?). by exists g', r. }
  right. clear C Hr.
  assert (Happ : forall x, active_ x = active_ s -> active_ (apply os x) = None ->
    ksOn (settings (apply os x)) = false \/ overridden_ (apply os x) = true).
  { intros x E. apply active_apply_none. congruence. }
  assert (Hmain : active_ (handleMain os e s) = None -> shutdown_ (handleMain os e s) = true \/
    ksOn (settings (handleMain os e s)) = false \/ overridden_ (handleMain os e s) = true).
  { destruct e; cbn [handleMain]; try (intros E; cbn in E; congruence).
    - intros E. right. by apply (Happ s).
    - intros E. right. by apply Happ in E.
    - destruct (portPosts s) as [|n]; [congruence|]. unfold apiPortChanged. case_match; [cbn; congruence|]. case_match; [cbn; congruence|].
      intros E. right. by apply Happ in E.
    - unfold whenSettled. cbn. case_bool_decide; cbn; congruence.
    - destruct (permitPosts s) as [|[id path] ps]; [congruence|]. unfold permitOnUi. destruct (_ || _); [cbn; congruence|].
      intros E. right. by apply Happ in E.
    - case_bool_decide; [|congruence]. unfold onStarted. destruct (guards s !! guard) as [r|]; [|congruence]. cbv zeta.
      destruct (gClosing r); cbn; congruence.
    - case_match; [|congruence]. unfold onStartFailed. destruct (guards s !! guard) as [r|]; [|congruence]. cbv zeta.
      destruct (negb (gClosing r) && bool_decide (pending_ s = Some guard)); [|cbn; congruence].
      rewrite active_armFailed. cbn. congruence.
    - case_bool_decide; [cbn|]; congruence.
    - case_bool_decide; [cbn|]; congruence.
    - case_match; [|congruence]. unfold onReadyTimeout. cbn [guards updateGuard].
      destruct (guards (updateGuard _ _ _) !! guard) as [r|]; [|cbn; congruence]. destruct (_ || _); [cbn; congruence|]. cbv zeta.
      rewrite active_armFailed. change (active_ (stopHard guard ?x)) with (active_ x). rewrite active_closeGuard. cbn. congruence.
    - case_match; [|congruence]. cbv zeta. case_bool_decide; cbn; congruence.
    - destruct (retryTimers s) as [|n]; [congruence|]. unfold retryFired. case_match; [cbn; congruence|]. case_match; [cbn; congruence|].
      intros E. right. by apply Happ in E.
    - intros _. left. unfold shutdown. by destruct (shutdown_ s) eqn:Hd. }
  assert (Hon : active_ (if onMain s then handleMain os e s else s) = None ->
    let s' := if onMain s then handleMain os e s else s in
    shutdown_ s' = true \/ ksOn (settings s') = false \/ overridden_ s' = true) by (destruct (onMain s); [exact Hmain|congruence]).
  destruct e; try (destruct (Hon Ha') as [?|[?|?]]; tauto); clear Hon Hmain; cbn [handle] in *.
  - unfold SetApiPort in Ha'. destruct (_ =? _); cbn in Ha'; congruence.
  - unfold permitExtraCore in Ha'. cbn in Ha'. destruct (_ || _); cbn in Ha'; congruence.
  - destruct (todo s) as [|f fs] eqn:Et; [congruence|]. right. right. right. split; [done|].
    set (s0 := s <| todo := fs |>) in *. assert (E0 : active_ s0 = Some g) by done. clearbody s0.
    destruct f; cbn [runFrame] in Ha'.
    + rewrite active_applyRest in Ha'. congruence.
    + exfalso. unfold settleTurn in Ha'. destruct waiting0 as [|w ws]; [congruence|]. cbv zeta in Ha'.
      destruct (waitsOn w _); [cbn in Ha'; congruence|]. destruct (contextGone w _); [cbn in Ha'; congruence|].
      destruct w; cbn in Ha'; congruence.
    + exfalso. unfold whenIdle in Ha'. destruct (bool_decide _); cbn in Ha'; congruence.
    + exists fs. left. exists line.
      destruct (decide (guard = g /\ (firstWord line = u "ERROR" \/ firstWord line = u "FAIL"))) as [[-> Hw]|Hn]; [done|].
      exfalso. by apply (holds_handleLine os guard line now s0 g).
    + exists fs. right. destruct (decide (guard = g)) as [->|Hn]; [by exists exitCode, crashed|].
      exfalso. by apply (holds_finishedRest os guard exitCode crashed now s0 g).
    + congruence.
Qed.

(** Draining a settled switch. *)
Lemma drain_settled now ws : forall s,
  todo s = [FSettle ws] -> waiters_ s = [] -> pending_ s = None -> state_ s <> KsArming ->
  let s' := run os (replicate (2 * length ws + 1) (now, EContinue)) s in
  todo s' = [] /\ waiters_ s' = [] /\ state_ s' = state_ s /\ pending_ s' = None.
Proof.
  induction ws as [|w ws IH]; intros s Et Ew Ep Es; cbv zeta.
  { cbn. rewrite Et. cbn. done. }
  assert (Hw : forall x, pending_ x = None -> state_ x = state_ s -> waitsOn w x = false).
  { intros x E1 E2. unfold waitsOn. rewrite E1, E2. destruct (isIdle w); [done|]. by apply bool_decide_eq_false. }
  replace (2 * length (w :: ws) + 1)%nat with (Datatypes.S (Datatypes.S (2 * length ws + 1)))%nat by (cbn; lia).
  cbn [replicate]. rewrite run_cons.
  assert (E1 : handle os now EContinue s = settleTurn (w :: ws) (s <| todo := [] |>)) by (cbn [handle]; by rewrite Et).
  rewrite E1. clear E1.
  set (s0 := s <| todo := [] |>). assert (E0 : todo s0 = [] /\ waiters_ s0 = [] /\ pending_ s0 = None /\ state_ s0 = state_ s) by done.
  clearbody s0. destruct E0 as (T0 & W0 & P0 & S0). unfold settleTurn. cbv zeta. rewrite Hw by done.
  assert (Hgo : forall x, todo x = [FSettle ws] -> waiters_ x = [] -> pending_ x = None -> state_ x = state_ s ->
    let s' := run os (replicate (2 * length ws + 1) (now, EContinue)) x in
    todo s' = [] /\ waiters_ s' = [] /\ state_ s' = state_ s /\ pending_ s' = None).
  { intros x X1 X2 X3 X4. destruct (IH x X1 X2 X3) as (? & ? & E & ?); [congruence|]. cbv zeta. split_and!; congruence. }
  assert (Hskip : forall x, todo x = [FSettle ws] -> waiters_ x = [] -> pending_ x = None -> state_ x = state_ s ->
    let s' := run os ((now, EContinue) :: replicate (2 * length ws + 1) (now, EContinue)) x in
    todo s' = [] /\ waiters_ s' = [] /\ state_ s' = state_ s /\ pending_ s' = None).
  { intros x X1 X2 X3 X4. cbv zeta.
    assert (R : (now, EContinue) :: replicate (2 * length ws + 1) (now, EContinue) =
      replicate (2 * length ws + 1) (now, EContinue) ++ [(now, EContinue)]) by (by rewrite <- replicate_S_end).
    rewrite R, switch_run_app.
    destruct (Hgo x X1 X2 X3 X4) as (R1 & R2 & R3 & R4). set (y := run os _ x) in *. clearbody y. rewrite run_cons. cbn [handle]. rewrite R1. done. }
  destruct (contextGone w _).
  - apply Hskip; cbn; congruence.
  - destruct w as [ctx id|id path]; cbn [callWaiter].
    + rewrite run_cons.
      match goal with |- context [handle os now EContinue ?x] => assert (E1 : handle os now EContinue x =
        next [FSettle ws] (answerSettled id s0)) end.
      { reflexivity. }
      rewrite E1. apply Hgo; cbn; congruence.
    + apply Hskip; cbn; congruence.
Qed.

(** C28: Every caller of [whenSettled] and of [permitExtraCore] is answered
    at most once, and none is forgotten: the numbers handed out are those
    answered, those given up (context gone, shutdown) and those still waiting.
    Until the shutdown, whoever waits waits for a pending guard whose timer runs,
    and that timer alone releases everyone: after it and the callbacks nobody
    waits. *)
Theorem waiters_answered_once now s :
  reachable os s ->
  (answered s ++ waiting s ≡ₚ seq 0 (nextId s)) /\ NoDup (answered s ++ waiting s) /\
  (shutdown_ s = false -> waiters_ s <> [] -> exists g, pending_ s = Some g /\ flagOf gReadyTimer g s = true) /\
  (forall g, todo s = [] -> flagOf gReadyTimer g s = true ->
     let s' := run os ((now, EReadyTimer g) :: replicate (2 * length (waiters_ s) + 1) (now, EContinue)) s in
     todo s' = [] /\ waiters_ s' = [] /\ state_ s' <> KsArming /\ waiting s' = map fst (permitPosts s')).
Proof.
  intros Hr. pose proof (reachable_ledger os s Hr) as L. pose proof (reachable_whole os s Hr) as [I _]. split; [exact L|].
  split; [|split].
  - eapply NoDup_Permutation_proper; [exact L|]. apply NoDup_seq.
  - intros Hd Hw. destruct I as [C W]. destruct (waiters_ s) as [|w ws] eqn:Ew; [done|].
    assert (Hp : is_Some (pending_ s)).
    { specialize (W Hd). rewrite Ew in W. inversion W as [|? ? Hx _]; subst. unfold waitsOn in Hx. destruct (isIdle w).
      - by apply bool_decide_eq_true in Hx.
      - apply bool_decide_eq_true in Hx. by apply (core_arming s C). }
    destruct Hp as [g Hg]. exists g. split; [done|]. unfold flagOf.
    destruct (tb_pending _ _ _ _ (core_table s C) g Hg) as (r & -> & _ & _ & ?). done.
  - intros g Ht Hf. destruct (inv_readyTimer g s I Hf) as (_ & _ & Hp & _ & Hw & Hs & Hto). cbv zeta.
    rewrite run_cons.
    assert (E : handle os now (EReadyTimer g) s = onReadyTimeout g (timerOff g s)).
    { cbn [handle]. unfold onMain. rewrite Ht. cbn [handleMain]. by rewrite Hf. }
    rewrite E. rewrite Ht in Hto. set (s1 := onReadyTimeout g _) in *. clearbody s1.
    destruct (drain_settled now (waiters_ s) s1) as (D1 & D2 & D3 & D4); [done|done|done|done|].
    set (s2 := run os _ s1) in *. clearbody s2. split_and!; [done|done|congruence|]. unfold waiting. by rewrite D1, D2.
Qed.

Lemma failureCode_failed s : failureCode_ (setState KsFailed s) = failureCode_ s.
Proof. unfold setState. change (bool_decide (KsFailed = KsFailed)) with true. cbv iota zeta. destruct (bool_decide _); done. Qed.

(** [apply] does what the settings say, from any reachable state before
    the shutdown: off, no guard is left and the state is Disabled; overridden, no
    guard is left and the state is Failed (overridden); on, the guard of the
    current settings is pending or active, and an active guard with other settings
    stays in force meanwhile. *)
Theorem apply_outcome s :
  reachable os s -> shutdown_ s = false ->
  let s' := apply os s in
  let configOf o x := (o ≫= fun g => guards x !! g) ≫= fun r => Some (gConfig r) in
  (ksOn (settings s) = false -> state_ s' = KsDisabled /\ active_ s' = None /\ pending_ s' = None /\ identityUnsupported_ s' = false) /\
  (ksOn (settings s) = true -> overridden_ s = true ->
     state_ s' = KsFailed /\ failureCode_ s' = kOverridden /\ active_ s' = None /\ pending_ s' = None) /\
  (ksOn (settings s) = true -> overridden_ s = false ->
     active_ s' = active_ s /\
     (configOf (pending_ s') s' = Some (configJson (buildConfig os s)) \/
      pending_ s' = None /\ configOf (active_ s') s' = Some (configJson (buildConfig os s)))).
Proof.
  intros Hr Hd. pose proof (reachable_whole os s Hr) as [[C W] _]. cbv zeta. split_and!.
  - intros Hk. unfold apply. rewrite Hd, Hk. cbn [negb]. cbv zeta.
    set (s0 := (s <| identityUnsupported_ := false |>) <| identityDetail_ := [] |>).
    destruct (closeBoth_fields s0) as ((_ & _ & Ei & _) & Ea & Ep & _). set (s1 := closeActive _) in *. clearbody s1.
    destruct (setState_fields KsDisabled s1) as (Es' & (_ & _ & Ei' & _) & Ea' & Ep' & _).
    set (s2 := setState _ _) in *. clearbody s2. cbn in *. split_and!; congruence.
  - intros Hk Ho. unfold apply. rewrite Hd, Hk, Ho. cbn [negb]. cbv zeta.
    destruct (closeBoth_fields s) as ((_ & Es & _) & Ea & Ep & _). set (s1 := closeActive _) in *. clearbody s1.
    destruct (bool_decide (state_ s1 = KsFailed) && _ && _) eqn:Eb.
    + apply andb_true_iff in Eb as [[E1%bool_decide_eq_true E2%bool_decide_eq_true]%andb_true_iff _]. done.
    + unfold fail. set (s2 := (s1 <| failureCode_ := _ |>) <| failureMessage_ := _ |>).
      assert (Ef : failureCode_ (setState KsFailed s2) = kOverridden) by (rewrite failureCode_failed; done).
      destruct (setState_fields KsFailed s2) as (Es' & _ & Ea' & Ep' & _). cbn in Ea', Ep'.
      exact (conj Es' (conj Ef (conj (eq_trans Ea' Ea) (eq_trans Ep' Ep)))).
  - intros Hk Ho. split; [by apply holds_apply|]. unfold apply. rewrite Hd, Hk, Ho. cbn [negb].
    destruct (identityUnsupported_ s && bool_decide (state_ s = KsArmed)) eqn:Eia.
    { apply andb_true_iff in Eia as [Ei Es%bool_decide_eq_true]. destruct (core_armed s C Hd Es) as [_ ?]. congruence. }
    unfold applyRest. cbv zeta. set (config := buildConfig os s). clearbody config.
    destruct (bool_decide (gConfig <$> (pending_ s ≫= _) = _)) eqn:Bp.
    { left. apply bool_decide_eq_true in Bp. destruct (pending_ s ≫= _) as [r|]; [|done]. cbn in Bp |- *. congruence. }
    destruct (bool_decide (gConfig <$> (active_ s ≫= _) = _)) eqn:Ba.
    + right. apply bool_decide_eq_true in Ba.
      destruct (pending_ s) as [g|] eqn:Eg; [rewrite bool_decide_true by (by eexists)|rewrite bool_decide_false by (by intros [])].
      * change (pending_ (settle ?x)) with (pending_ x). change (active_ (settle ?x)) with (active_ x).
        change (guards (settle ?x)) with (guards x). unfold closePending. rewrite Eg.
        destruct (closeGuard_frame (Some g) (s <| pending_ := None |>)) as (_ & Fa & Fp).
        pose proof (guards_closeGuard (Some g) (s <| pending_ := None |>)) as Fg.
        change (guards (s <| pending_ := None |>)) with (guards s) in Fg.
        set (s1 := closeGuard _ _) in *. clearbody s1. cbn in Fa, Fp. split; [done|]. rewrite Fa, Fg.
        destruct (active_ s) as [ga|] eqn:Ega; [|done]. cbn [mbind option_bind] in Ba |- *. rewrite closeIn_other.
        -- destruct (guards s !! ga); [|done]. cbn in Ba |- *. congruence.
        -- intros [= ->]. by eapply (table_distinct (active_ s) (pending_ s)); [apply C| |].
      * split; [done|]. destruct (active_ s ≫= _) as [r|]; [|done]. cbn in Ba |- *. congruence.
    + left. unfold spawn. cbv zeta. set (s1 := closePending s). clearbody s1. set (r := MkGuard _ _ _ _ _ _ _ _ _ _).
      assert (Er : gConfig r = configJson config) by done. clearbody r.
      match goal with |- context [if ?b then setState KsArming ?x else ?x] => set (s2 := x);
        assert (E : pending_ s2 = Some (nextGuard s1) /\ guards s2 = <[nextGuard s1 := r]> (guards s1)) by done; clearbody s2 end.
      match goal with |- context [if ?b then setState KsArming s2 else s2] => destruct b end.
      * destruct (setState_fields KsArming s2) as (_ & _ & _ & -> & ->). destruct E as [-> ->]. cbn. rewrite lookup_insert_eq. cbn. congruence.
      * destruct E as [-> ->]. cbn. rewrite lookup_insert_eq. cbn. congruence.
Qed.
End Promises.

(** ** A sample run *)

(** A platform whose configurations differ by the port. *)
#[local] Instance samplePlatform : Platform := {|
  toCompact o := match o !! "api_port"%string with Some (JNum z _) => number 10 z | _ => [] end;
  parseObject _ := ∅;
  absoluteNative p := p |}.

Definition sampleKsSettings (on : bool) : KsSettings := MkKsSettings on false false false [] [] [].

(** The switch is turned on, a start waits, the guard comes up; then the API moves
    to another port and a second guard is started. *)
Definition armedRun : list (Z * Event) :=
  [(0, EApply); (0, EWhenSettled None); (1, EStarted 0); (2, EOutput 0 [u "READY"]); (2, EContinue); (2, EContinue);
   (2, EContinue); (2, EContinue)].

Definition replacedRun : list (Z * Event) :=
  armedRun ++ [(5, EApiPort 8080); (5, EPortPost); (5, EWhenSettled None)].

Definition sampleSwitch (es : list (Z * Event)) : Switch := run Linux es (newSwitch (sampleKsSettings true)).

Lemma sampleSwitch_reachable es : reachable Linux (sampleSwitch es).
Proof. by exists (sampleKsSettings true), es. Qed.

Lemma starts_are_guarded_witness :
  allowsStart (state_ (sampleSwitch armedRun)) = true /\ shutdown_ (sampleSwitch armedRun) = false /\
  exists g r, active_ (sampleSwitch armedRun) = Some g /\ guards (sampleSwitch armedRun) !! g = Some r /\ gReady r = true.
Proof.
  assert (Ha : allowsStart (state_ (sampleSwitch armedRun)) = true) by (vm_compute; reflexivity).
  assert (Hd : shutdown_ (sampleSwitch armedRun) = false) by (vm_compute; reflexivity).
  split; [exact Ha|]. split; [exact Hd|].
  destruct (proj1 (starts_are_guarded Linux _ (sampleSwitch_reachable armedRun) Hd) Ha) as [[E _]|(_ & _ & g & r & H1 & H2 & H3 & _)].
  - exfalso. revert E. vm_compute. discriminate.
  - exists g, r. split; [exact H1|]. split; [exact H2|exact H3].
Defined.

Lemma protection_kept_witness :
  let s := sampleSwitch replacedRun in
  let s' := handle Linux 6 (EStartFailed 1 (u "no such file")) s in
  active_ s = Some 0%nat /\ pending_ s = Some 1%nat /\
  exists g' r, active_ s' = Some g' /\ guards s' !! g' = Some r /\ gReady r = true /\ gClosing r = false.
Proof.
  intros s s'. assert (Ha : active_ s = Some 0%nat) by (vm_compute; reflexivity). split; [exact Ha|].
  split; [vm_compute; reflexivity|].
  destruct (protection_kept Linux 6 (EStartFailed 1 (u "no such file")) s 0 (sampleSwitch_reachable replacedRun) Ha)
    as [Hk|[Hk|[Hk|[Hk|[Hk _]]]]].
  - exact Hk.
  - exfalso. revert Hk. vm_compute. discriminate.
  - exfalso. revert Hk. vm_compute. discriminate.
  - exfalso. revert Hk. vm_compute. discriminate.
  - discriminate.
Defined.

Lemma waiters_answered_once_witness :
  let s := sampleSwitch [(0, EApply); (0, EWhenSettled None)] in
  waiting s = [0%nat] /\ flagOf gReadyTimer 0 s = true /\
  waiters_ (run Linux ((0, EReadyTimer 0) :: replicate (2 * length (waiters_ s) + 1) (0, EContinue)) s) = [].
Proof.
  intros s. assert (Hf : flagOf gReadyTimer 0 s = true) by (vm_compute; reflexivity).
  assert (Ht : todo s = []) by (vm_compute; reflexivity).
  split; [vm_compute; reflexivity|]. split; [exact Hf|].
  exact (proj1 (proj2 (proj2 (proj2 (proj2 (waiters_answered_once Linux 0 s (sampleSwitch_reachable _)))) 0%nat Ht Hf))).
Defined.

Lemma apply_outcome_witness :
  let s := (sampleSwitch armedRun) <| settings := sampleKsSettings false |> in
  state_ (apply Linux s) = KsDisabled /\ active_ (apply Linux s) = None.
Proof.
  intros s. assert (Hr : reachable Linux s) by (exists (sampleKsSettings true), (armedRun ++ [(3, ESettings (sampleKsSettings false))]); vm_compute; reflexivity).
  destruct (proj1 (apply_outcome Linux s Hr ltac:(vm_compute; reflexivity)) ltac:(vm_compute; reflexivity)) as (H1 & H2 & _).
  split; [exact H1|exact H2].
Defined.
