(* ===== verification/RankSweep.v ===== *)
(** * RankSweep: the measuring sweep of an auto selector

    [AutoSelectorController::rank] and its [AutoSelectorSweep]
    (src/engine/autoselector/AutoSelectorController.cpp).  The test session calls
    [onResult] and [onFinished] from its own threads while the ranking thread
    waits on a semaphore; each critical section, each semaphore operation and
    each call between them is one step. *)

From S2P Require Import Prelude.

(** Where the ranking thread is. *)
Inductive RankPhase :=
  | Launching
  | Launched
  | Waiting
  | Woken
  | PostingEarly (found remaining : Z) (untrusted : list Z)
  | Ending
  | Ended (startedEarly : bool).

(** What the thread did outside the sweep: pools it reranked with the members it
    distrusted, and the early start it posted. *)
Inductive RankAct := Reranked (untrusted : list Z) | PostedEarly (found remaining : Z).

Record Sweep := MkSweep {
  measured : gset Z; working : gset Z; workingBefore : Z; quorum : Z; quorumMet : bool; done_ : bool;
  wake : Z; startedEarly : bool; rankPhase : RankPhase; acts : list RankAct; sessionOver : bool }.

Definition etaSweep (s : Sweep) : Sweep :=
  MkSweep (measured s) (working s) (workingBefore s) (quorum s) (quorumMet s) (done_ s) (wake s) (startedEarly s)
    (rankPhase s) (acts s) (sessionOver s).

#[export] Instance set_measured : Setter measured := ltac:(setter etaSweep).
#[export] Instance set_working : Setter working := ltac:(setter etaSweep).
#[export] Instance set_quorumMet : Setter quorumMet := ltac:(setter etaSweep).
#[export] Instance set_done_ : Setter done_ := ltac:(setter etaSweep).
#[export] Instance set_wake : Setter wake := ltac:(setter etaSweep).
#[export] Instance set_startedEarly : Setter startedEarly := ltac:(setter etaSweep).
#[export] Instance set_rankPhase : Setter rankPhase := ltac:(setter etaSweep).
#[export] Instance set_acts : Setter acts := ltac:(setter etaSweep).
#[export] Instance set_sessionOver : Setter sessionOver := ltac:(setter etaSweep).

Definition reachedQuorum (s : Sweep) : bool :=
  (0 <? quorum s) && (quorum s <=? workingBefore s + Z.of_nat (size (working s))).

(** The part of [onResult] and of the check after the launch that wakes the
    thread. *)
Definition meetQuorum (s : Sweep) : Sweep :=
  if quorumMet s || negb (reachedQuorum s) then s
  else (s <| quorumMet := true |>) <| wake := wake s + 1 |>.

(** A member measured: [works] is [AutoSelectorMemberWorks]. *)
Definition onResult (member : Z) (works : bool) (s : Sweep) : Sweep :=
  let s := s <| measured := {[member]} ∪ measured s |> in
  let s := if works then s <| working := {[member]} ∪ working s |> else s <| working := working s ∖ {[member]} |> in
  meetQuorum s.

Definition onFinished (s : Sweep) : Sweep :=
  ((s <| done_ := true |>) <| wake := wake s + 1 |>) <| sessionOver := true |>.

(** [startQuorum]: [AutoSelectorStartQuorum] with an early start to run, 0 without
    one. *)
Definition newSweep (working0 startQuorum : Z) : Sweep :=
  MkSweep ∅ ∅ working0 startQuorum false false 0 false Launching [] false.

Section Rank.
(** The members to measure and those no longer trusted. *)
Context (needed stale : list Z).

(** Up to the launch: nothing to rank, or nothing to measure. *)
Definition rank (isSelector : bool) (working0 startQuorum : Z) : Sweep :=
  let s := newSweep working0 startQuorum in
  if negb isSelector then s <| rankPhase := Ended false |>
  else if bool_decide (needed = []) then (s <| acts := [Reranked []] |>) <| rankPhase := Ended false |>
  else s.

(** [found] and [remaining] of the log line. *)
Definition foundOf (s : Sweep) : Z := workingBefore s + Z.of_nat (size (working s)).

Definition remainingOf (s : Sweep) : Z := Z.max 0 (Z.of_nat (length needed) - Z.of_nat (size (measured s))).

(** One turn of the loop after [acquire], under the lock. *)
Definition wokenTurn (s : Sweep) : Sweep :=
  if done_ s then s <| rankPhase := Ending |>
  else if startedEarly s || negb (quorumMet s) then s <| rankPhase := Waiting |>
  else
    (s <| startedEarly := true |>)
      <| rankPhase := PostingEarly (foundOf s) (remainingOf s) (filter (fun id => id ∉ measured s) stale) |>.

(** One step of the thread; [running] is what [runUrlTests] returns. *)
Definition rankStep (running : bool) (s : Sweep) : Sweep :=
  match rankPhase s with
  | Launching => s <| rankPhase := (if running then Launched else Waiting) |>
  | Launched => (meetQuorum s) <| rankPhase := Waiting |>
  | Waiting => if 0 <? wake s then (s <| wake := wake s - 1 |>) <| rankPhase := Woken |> else s
  | Woken => wokenTurn s
  | PostingEarly found remaining untrusted =>
      (s <| acts := acts s ++ [Reranked untrusted; PostedEarly found remaining] |>) <| rankPhase := Waiting |>
  | Ending =>
      if startedEarly s then s <| rankPhase := Ended true |>
      else (s <| acts := acts s ++ [Reranked []] |>) <| rankPhase := Ended false |>
  | Ended _ => s
  end.

(** A session calls [onFinished] once; a late result may follow it. *)
Inductive sweepStep : Sweep -> Sweep -> Prop :=
  | sweep_result member works s : sweepStep s (onResult member works s)
  | sweep_finished s : sessionOver s = false -> sweepStep s (onFinished s)
  | sweep_thread running s : sweepStep s (rankStep running s).

Definition sweepReachable (s : Sweep) : Prop :=
  exists isSelector working0 startQuorum, rtc sweepStep (rank isSelector working0 startQuorum) s.
End Rank.

(** ** The invariant *)

Abbreviation b2z := Z.b2z.

(** The releases the thread has not acquired. *)
Definition wakesOwed (s : Sweep) : Z := b2z (quorumMet s) + b2z (done_ s) - b2z (startedEarly s).

Definition isEarly (a : RankAct) : bool := match a with PostedEarly _ _ => true | Reranked _ => false end.

Definition earlyPosts (s : Sweep) : nat := length (List.filter isEarly (acts s)).

Definition posting (p : RankPhase) : nat := match p with PostingEarly _ _ _ => 1 | _ => 0 end.

Record SweepInv (s : Sweep) : Prop := {
  sweep_over : sessionOver s = done_ s;
  sweep_quorum : quorumMet s = true -> 0 < quorum s;
  sweep_early : startedEarly s = true -> quorumMet s = true;
  sweep_posts : (earlyPosts s + posting (rankPhase s) = Nat.b2n (startedEarly s))%nat;
  sweep_wakes :
    match rankPhase s with
    | Launching | Launched => wake s = wakesOwed s /\ startedEarly s = false
    | Waiting => wake s = wakesOwed s
    | Woken => wake s = wakesOwed s - 1 /\ 1 <= wakesOwed s
    | PostingEarly _ _ _ => wake s = wakesOwed s /\ startedEarly s = true
    | Ending => done_ s = true
    | Ended b => b = startedEarly s
    end }.

Lemma earlyPosts_app acts0 acts1 :
  length (List.filter isEarly (acts0 ++ acts1)) =
  (length (List.filter isEarly acts0) + length (List.filter isEarly acts1))%nat.
Proof. by rewrite List.filter_app, length_app. Qed.

(** Releasing the semaphore as the quorum is met. *)
Lemma inv_meetQuorum s : SweepInv s -> SweepInv (meetQuorum s).
Proof.
  intros Hi. unfold meetQuorum. destruct (quorumMet s) eqn:Eq; [done|]. cbn.
  destruct (reachedQuorum s) eqn:Er; cbn; [|done]. destruct Hi as [H1 H2 H3 H4 H5].
  assert (startedEarly s = false) as Ee by (destruct (startedEarly s); [by rewrite H3 in Eq|done]).
  unfold reachedQuorum in Er. apply andb_true_iff in Er as [Hq _]. apply Z.ltb_lt in Hq.
  unfold wakesOwed in H5.
  split; cbn; unfold wakesOwed; cbn; try done. rewrite Eq, Ee in H5. rewrite Ee. cbn in H5 |- *.
  destruct (rankPhase s); intuition lia.
Qed.

Lemma inv_result member works s : SweepInv s -> SweepInv (onResult member works s).
Proof. intros [H1 H2 H3 H4 H5]. unfold onResult. apply inv_meetQuorum. by destruct works; split. Qed.

Lemma inv_finished s : SweepInv s -> sessionOver s = false -> SweepInv (onFinished s).
Proof.
  intros [H1 H2 H3 H4 H5] Hf. rewrite Hf in H1. unfold wakesOwed in H5. rewrite <- H1 in H5.
  split; cbn; unfold wakesOwed; cbn; try done. cbn in H5. destruct (rankPhase s); intuition lia.
Qed.

Section Inv.
Context (needed stale : list Z).

Lemma inv_rank isSelector working0 startQuorum : SweepInv (rank needed isSelector working0 startQuorum).
Proof. unfold rank. destruct isSelector; cbn; [|by split]. by case_bool_decide; split. Qed.

Lemma inv_wokenTurn s : SweepInv s -> rankPhase s = Woken -> SweepInv (wokenTurn needed stale s).
Proof.
  intros [H1 H2 H3 H4 H5] Hp. unfold wokenTurn. rewrite Hp in *. unfold wakesOwed in *.
  destruct (done_ s) eqn:Ed; [by split; cbn; rewrite ?Ed|].
  destruct (startedEarly s) eqn:Ee, (quorumMet s) eqn:Eq; cbn in *; try lia.
  split; cbn; unfold wakesOwed, earlyPosts in *; cbn; rewrite ?Ed, ?Eq; try done; cbn; lia.
Qed.

Lemma inv_rankStep running s : SweepInv s -> SweepInv (rankStep needed stale running s).
Proof.
  intros Hi. unfold rankStep. destruct (rankPhase s) eqn:Hp; [| | |by apply inv_wokenTurn| | |done].
  - destruct Hi as [H1 H2 H3 H4 H5]. rewrite Hp in *. destruct running; split; cbn; tauto.
  - apply inv_meetQuorum in Hi. assert (Hp' : rankPhase (meetQuorum s) = Launched).
    { unfold meetQuorum. destruct (_ || _); cbn; done. }
    destruct Hi as [H1 H2 H3 H4 H5]. rewrite Hp' in *. split; cbn; tauto.
  - destruct (Z.ltb_spec 0 (wake s)) as [Hw|]; [|done]. destruct Hi as [H1 H2 H3 H4 H5]. rewrite Hp in *.
    unfold wakesOwed in *. split; cbn; unfold wakesOwed; cbn; try done. lia.
  - destruct Hi as [H1 H2 H3 H4 H5]. rewrite Hp in *. unfold wakesOwed in *. split; cbn; unfold wakesOwed; cbn; try tauto.
    unfold earlyPosts in *. cbn. rewrite earlyPosts_app. cbn in *. lia.
  - destruct Hi as [H1 H2 H3 H4 H5]. rewrite Hp in *. destruct (startedEarly s) eqn:Ee;
      split; cbn; unfold earlyPosts in *; cbn; rewrite ?Ee, ?earlyPosts_app; try done. cbn in *. lia.
Qed.

Lemma sweepReachable_inv s : sweepReachable needed stale s -> SweepInv s.
Proof.
  intros (b & w & q & H). remember (rank needed b w q) as s0 eqn:E.
  assert (SweepInv s0) as Hi by (subst; apply inv_rank). clear E.
  induction H as [|s0 s1 s2 Hs _ IH]; [done|]. apply IH.
  destruct Hs; [by apply inv_result|by apply inv_finished|by apply inv_rankStep].
Qed.

(** However results, the session's end and the ranking thread
    interleave, the early start is posted at most once and only for a positive
    quorum that was reached; the thread ends saying whether it posted one, so
    exactly one of the early start and the caller's own start runs. *)
Theorem sweep_posts_once s :
  sweepReachable needed stale s ->
  (earlyPosts s <= 1)%nat /\
  ((0 < earlyPosts s)%nat -> 0 < quorum s /\ quorumMet s = true) /\
  (forall b, rankPhase s = Ended b -> earlyPosts s = Nat.b2n b).
Proof.
  intros [H1 H2 H3 H4 H5]%sweepReachable_inv. split_and!.
  - destruct (startedEarly s); cbn in H4; lia.
  - intros Hpos. destruct (startedEarly s); cbn in H4; [|lia]. specialize (H3 eq_refl). by split; [apply H2|].
  - intros b Hp. rewrite Hp in *. subst b. cbn in H4. lia.
Qed.

(** ** No wake-up is lost *)

Definition rankCost (p : RankPhase) : nat :=
  match p with
  | Launching => 6 | Launched => 5 | PostingEarly _ _ _ => 5 | Waiting => 4 | Woken => 3 | Ending => 2 | Ended _ => 0
  end.

Fixpoint rankRun (n : nat) (s : Sweep) : Sweep :=
  match n with O => s | S n => rankRun n (rankStep needed stale false s) end.

Lemma done_rankStep running s : done_ (rankStep needed stale running s) = done_ s.
Proof.
  unfold rankStep, wokenTurn, meetQuorum. destruct (rankPhase s); try done; by case_ifs.
Qed.

Lemma done_advances s :
  SweepInv s -> done_ s = true -> rankCost (rankPhase s) <> 0%nat ->
  (rankCost (rankPhase (rankStep needed stale false s)) < rankCost (rankPhase s))%nat.
Proof.
  intros [H1 H2 H3 H4 H5] Hd Hc. unfold rankStep, wokenTurn. destruct (rankPhase s); cbn in *; try lia.
  - destruct (Z.ltb_spec 0 (wake s)) as [|Hw]; cbn; [lia|]. exfalso. unfold wakesOwed in H5. rewrite Hd in H5.
    destruct (quorumMet s), (startedEarly s); cbn in *; try lia.
  - rewrite Hd. cbn. lia.
  - destruct (startedEarly s); cbn; lia.
Qed.

(** C30: No wake-up is lost: once the session has ended the ranking
    thread is never stuck on the semaphore and returns within six steps of its
    own, and while the session runs it never wakes for nothing. *)
Theorem sweep_no_lost_wakeup s :
  sweepReachable needed stale s ->
  (done_ s = true -> exists b, rankPhase (rankRun 6 s) = Ended b) /\
  (rankPhase s = Waiting -> quorumMet s = true -> startedEarly s = false -> 0 < wake s) /\
  (rankPhase s = Woken -> done_ s = true \/ quorumMet s = true /\ startedEarly s = false).
Proof.
  intros Hi%sweepReachable_inv. split_and!.
  - intros Hd. assert (Hrun : forall n v, SweepInv v -> done_ v = true -> (rankCost (rankPhase v) <= n)%nat ->
      exists b, rankPhase (rankRun n v) = Ended b).
    { induction n as [|n IH]; intros v Hv Hdv Hc.
      - cbn. destruct (rankPhase v) eqn:E; cbn in Hc; try lia. by eexists.
      - cbn [rankRun]. destruct (decide (rankCost (rankPhase v) = 0%nat)) as [E|E].
        + apply IH; [by apply inv_rankStep|by rewrite done_rankStep|].
          unfold rankStep. destruct (rankPhase v) eqn:Ep; cbn in E; try lia. rewrite Ep. cbn. lia.
        + pose proof (done_advances v Hv Hdv E). apply IH; [by apply inv_rankStep|by rewrite done_rankStep|lia]. }
    apply Hrun; [done|done|]. destruct (rankPhase s); cbn; lia.
  - intros Hp Hq He. destruct Hi as [_ _ _ _ H5]. rewrite Hp in H5. unfold wakesOwed in H5. rewrite Hq, He in H5.
    destruct (done_ s); cbn in H5; lia.
  - intros Hp. destruct Hi as [_ _ _ _ H5]. rewrite Hp in H5. unfold wakesOwed in H5.
    destruct (quorumMet s), (done_ s), (startedEarly s); cbn in H5; try lia; tauto.
Qed.
End Inv.

(** A sweep of two members with a quorum of one, run to its early start, and one
    whose session ended before any result. *)
Definition earlySweep : Sweep :=
  rankStep [1; 2] [] true (rankStep [1; 2] [] true (rankStep [1; 2] [] true
    (onResult 1 true (rankStep [1; 2] [] false (rank [1; 2] true 0 1))))).

Definition idleSweep : Sweep := onFinished (rankStep [1; 2] [] false (rank [1; 2] true 0 1)).

Lemma sweep_posts_once_witness :
  sweepReachable [1; 2] [] earlySweep /\ earlyPosts earlySweep = 1%nat /\ (earlyPosts earlySweep <= 1)%nat.
Proof.
  assert (Hr : sweepReachable [1; 2] [] earlySweep).
  { exists true, 0, 1. do 3 (eapply rtc_r; [|apply sweep_thread]). eapply rtc_r; [|apply sweep_result].
    apply rtc_once, sweep_thread. }
  split; [exact Hr|]. split; [vm_compute; reflexivity|]. exact (proj1 (sweep_posts_once [1; 2] [] earlySweep Hr)).
Defined.

Lemma sweep_no_lost_wakeup_witness :
  rankPhase idleSweep = Waiting /\ done_ idleSweep = true /\
  exists b, rankPhase (rankRun [1; 2] [] 6 idleSweep) = Ended b.
Proof.
  assert (Hr : sweepReachable [1; 2] [] idleSweep).
  { exists true, 0, 1. eapply rtc_r; [|by apply sweep_finished]. apply rtc_once, sweep_thread. }
  split; [reflexivity|]. split; [reflexivity|].
  exact (proj1 (sweep_no_lost_wakeup [1; 2] [] idleSweep Hr) eq_refl).
Defined.
