(* ===== verification/AutoSelectorController.v ===== *)
(** * AutoSelectorController: ranking before a start, rebuilding after changes

    src/engine/autoselector/AutoSelectorController.cpp: the sweeps in flight and
    the starts they owe ([rankBeforeStart], [onPoolExhausted],
    [finishEarlySweep]; a sweep itself is RankSweep), what a successful build
    records ([noteBuilt]) and the pruning after a subscription changed a group
    ([onSubscriptionGroupChanged]).  The calls it makes to the connection manager
    are in ConnectionManager. *)

From S2P Require Import Prelude Text EngineTypes Json AutoSelector StableSort AutoSelectorPlan.

(** ** Sweeps in flight *)

(** What runs once a sweep allows it: the start that waits for it, or a rebuild
    of an exhausted pool. *)
Inductive Resume := ResumeStart (request : StartRequest) | ResumeRebuild (profileID : Z).

(** A thread inside [rank], and whether it has posted its early start. *)
Record RankJob := MkRankJob { rankedProfile : Z; rankResume : Resume; postedEarly : bool }.

(** [settling]: the connections of [finishEarlySweep] to the connection state;
    [reranking]: its threads. *)
Record Ranker := MkRanker {
  rankingInFlight : Z; rankedFor : Z; rankJobs : list RankJob; settling : list Z; reranking : list Z }.

Definition idleRanker : Ranker := MkRanker 0 (-1) [] [] [].

Definition etaRanker (k : Ranker) : Ranker :=
  MkRanker (rankingInFlight k) (rankedFor k) (rankJobs k) (settling k) (reranking k).

#[export] Instance set_rankingInFlight : Setter rankingInFlight := ltac:(setter etaRanker).
#[export] Instance set_rankedFor : Setter rankedFor := ltac:(setter etaRanker).
#[export] Instance set_rankJobs : Setter rankJobs := ltac:(setter etaRanker).
#[export] Instance set_settling : Setter settling := ltac:(setter etaRanker).
#[export] Instance set_reranking : Setter reranking := ltac:(setter etaRanker).

Definition launchRank (id : Z) (resume : Resume) (k : Ranker) : Ranker :=
  (k <| rankingInFlight := rankingInFlight k + 1 |>) <| rankJobs := rankJobs k ++ [MkRankJob id resume false] |>.

(** [needsRanking]: the plan has no error and asks for a ranking. *)
Definition rankBeforeStart (isSelector needsRanking : bool) (request : StartRequest) (k : Ranker) : bool * Ranker :=
  let justRanked := rankedFor k =? profileId request in
  let k := k <| rankedFor := -1 |> in
  if negb isSelector || (0 <? rankingInFlight k) || justRanked then (false, k)
  else if negb needsRanking then (false, k)
  else (true, launchRank (profileId request) (ResumeStart request) k).

(** [running]: the id of the running profile. *)
Definition onPoolExhausted (profileID : Z) (exists_ : bool) (running : option Z) (k : Ranker) : Ranker :=
  if negb exists_ || negb (bool_decide (running = Some profileID)) then k
  else launchRank profileID (ResumeRebuild profileID) k.

(** [finishEarlySweep]: a start that has not settled is waited for. *)
Definition finishEarlySweep (id : Z) (connecting : bool) (k : Ranker) : Ranker :=
  if connecting then k <| settling := settling k ++ [id] |> else k <| reranking := reranking k ++ [id] |>.

(** The slot of every waiting [finishEarlySweep] as the connection state changes. *)
Definition stateSettled (state : ConnectionState) (k : Ranker) : Ranker :=
  if bool_decide (state = Connecting) then k
  else (k <| reranking := reranking k ++ settling k |>) <| settling := [] |>.

(** ** What a build records *)

Definition setMembers (s : autoSelector) (p built : list Z) (at_ : Z) : autoSelector := {|
  name := name s; gids := gids s; nameFilter := nameFilter s; countryFilter := countryFilter s;
  excludeUnavailable := excludeUnavailable s; poolCap := poolCap s; buildLimit := buildLimit s;
  resultValidityMins := resultValidityMins s; testURL := testURL s; connectivityURL := connectivityURL s;
  intervalSec := intervalSec s; benchIntervalSec := benchIntervalSec s; watchIntervalSec := watchIntervalSec s;
  activeSize := activeSize s; sampling := sampling s; toleranceMs := toleranceMs s; maxRTTms := maxRTTms s;
  expected := expected s; dialRetries := dialRetries s; interruptOnSwitch := interruptOnSwitch s;
  balance := balance s; balanceMode := balanceMode s; balanceIntervalSec := balanceIntervalSec s;
  pool := p; poolRankedAt := poolRankedAt s; pinnedID := pinnedID s; lastBuilt := built;
  lastBuiltAt := at_; history := history s |}.

(** The members of [builds.first()], the ones that exist with their id and
    displayed name. *)
Definition builtMembers (members : list (option (Z * qstring))) : list (Z * qstring) := omap id members.

(** The selector to save, if any; [builds] gives each build's members. *)
Definition noteBuilt (builds : list (list (option (Z * qstring)))) (now : Z) (selector : option autoSelector) :
    option autoSelector :=
  match builds, selector with
  | info :: _, Some s =>
      let built := builtMembers info in
      let names := fold_left (fun names member => <[member.1 := member.2]> names) built ∅ in
      Some (RecordHistory (setMembers s (pool s) (map fst built) now) (map fst built) names now)
  | _, _ => None
  end.

(** ** Subscriptions *)

Section GroupChanged.
(** The changed group, the profiles it disturbed, the ids of the repository and
    the running profile. *)
Context (gid : Z) (disturbed : list Z) (exists_ : Z -> bool) (running : option Z).

Definition kept (l : list Z) : list Z := filter (fun id => exists_ id = true) l.

Definition pruned (l : list Z) : bool := negb (bool_decide (length (kept l) = length l)).

(** One auto selector: its new record, whether it is saved, and whether the
    running profile must be rebuilt for it. *)
Definition groupChangedOne (ent : SelectorProfile) : SelectorProfile * bool * bool :=
  match selectorOf ent with
  | None => (ent, false, false)
  | Some s =>
      if negb (Tracks s gid) then (ent, false, false)
      else
        let prunedPool := pruned (pool s) in
        let prunedBuilt := pruned (lastBuilt s) in
        let s := setMembers s (kept (pool s)) (kept (lastBuilt s)) (lastBuiltAt s) in
        let rebuild :=
          if negb (bool_decide (running = Some (entId ent))) then false
          else prunedBuilt || existsb (fun member => bool_decide (member ∈ disturbed)) (lastBuilt s) in
        (MkSelectorProfile (entId ent) (Some s), prunedPool || prunedBuilt, rebuild)
  end.

(** The selectors afterwards, the saved ones and the profile to restart. *)
Definition onSubscriptionGroupChanged (ents : list SelectorProfile) :
    list SelectorProfile * list Z * option Z :=
  if gid <? 0 then (ents, [], None)
  else
    let '(after_, saved, restartID) :=
      fold_left (fun '(after_, saved, restartID) ent =>
        let '(ent', save, rebuild) := groupChangedOne ent in
        (after_ ++ [ent'], if save then saved ++ [entId ent] else saved,
         if rebuild then entId ent else restartID)) ents ([], [], -1) in
    (after_, saved, if restartID <? 0 then None else Some restartID).
End GroupChanged.

(** ** What a changed group leaves *)

Section GroupChangedLaws.
Context (gid : Z) (disturbed : list Z) (exists_ : Z -> bool) (running : option Z).
Implicit Types (ent : SelectorProfile) (ents : list SelectorProfile).

(** The selector loses members; the running one runs on members that are gone
    or were disturbed. *)
Definition loses (s : autoSelector) : Prop := exists m, m ∈ pool s ++ lastBuilt s /\ exists_ m = false.
Definition stale (s : autoSelector) : Prop := exists m, m ∈ lastBuilt s /\ (exists_ m = false \/ m ∈ disturbed).

Definition tracked ent (s : autoSelector) : Prop := selectorOf ent = Some s /\ Tracks s gid = true.

Lemma pruned_iff l : pruned exists_ l = true <-> exists m, m ∈ l /\ exists_ m = false.
Proof.
  unfold pruned, kept. rewrite negb_true_iff, bool_decide_eq_false. induction l as [|m l IH].
  - split; [done|]. intros (m & Hm & _). by apply elem_of_nil in Hm.
  - rewrite filter_cons. destruct (exists_ m) eqn:E; case_decide; try congruence.
    + cbn [length]. transitivity (length (filter (fun id => exists_ id = true) l) <> length l); [lia|]. rewrite IH.
      split; intros (m' & Hm & Hx); exists m'; (split; [|done]); [by right|].
      apply elem_of_cons in Hm as [->|Hm]; [congruence|done].
    + split; [intros _; exists m; split; [by left|done]|]. intros _. cbn [length].
      pose proof (length_filter (fun id => exists_ id = true) l). lia.
Qed.

Lemma kept_all l : pruned exists_ l = false -> kept exists_ l = l.
Proof.
  unfold pruned, kept. rewrite negb_false_iff, bool_decide_eq_true. induction l as [|m l IH]; [done|].
  rewrite filter_cons. case_decide; cbn [length]; intros Hl; [f_equal; apply IH; lia|].
  pose proof (length_filter (fun id => exists_ id = true) l). lia.
Qed.

Lemma groupChangedOne_spec ent ent' save rebuild :
  groupChangedOne gid disturbed exists_ running ent = (ent', save, rebuild) ->
  entId ent' = entId ent /\
  (save = true <-> exists s, tracked ent s /\ loses s) /\
  (rebuild = true <-> running = Some (entId ent) /\ exists s, tracked ent s /\ stale s).
Proof.
  unfold groupChangedOne, tracked. destruct (selectorOf ent) as [s|].
  2: { intros [= <- <- <-]. split; [done|]. split; (split; [done|]); [intros (? & [? _] & _)|intros (_ & ? & [? _] & _)]; done. }
  destruct (Tracks s gid) eqn:Et; cbn [negb].
  2: { intros [= <- <- <-]. split; [done|]. split; (split; [done|]);
       [intros (? & [[= <-] ?] & _)|intros (_ & ? & [[= <-] ?] & _)]; congruence. }
  intros [= <- <- <-]. split; [done|]. split.
  - rewrite orb_true_iff, !pruned_iff. unfold loses. split.
    + intros [(m & Hm & Hx)|(m & Hm & Hx)]; exists s; (split; [done|]); exists m; (split; [|done]); apply elem_of_app; tauto.
    + intros (? & [[= <-] _] & m & [Hm|Hm]%elem_of_app & Hx); eauto.
  - cbn [lastBuilt setMembers]. case_bool_decide as Er; cbn [negb]; [|split; [done|intros [? _]; done]].
    rewrite orb_true_iff, pruned_iff, List.existsb_exists. unfold stale. split.
    + intros [(m & Hm & Hx)|Hd]; (split; [done|]); exists s; (split; [done|]).
      * exists m. tauto.
      * destruct Hd as (m & Hm & Hd%bool_decide_eq_true). apply list_elem_of_In, list_elem_of_filter in Hm as [_ Hm]. exists m. tauto.
    + intros (_ & ? & [[= <-] _] & m & Hm & [Hx|Hd]); [by left; exists m|].
      destruct (exists_ m) eqn:E; [right|by left; exists m]. exists m. split; [|by apply bool_decide_eq_true].
      by apply list_elem_of_In, list_elem_of_filter.
Qed.
Lemma setMembers_same s : setMembers s (pool s) (lastBuilt s) (lastBuiltAt s) = s.
Proof. by destruct s. Qed.

(** A tracked selector keeps exactly the members that exist; one that loses none
    is as it was. *)
Definition prunedTo ent ent' : Prop :=
  entId ent' = entId ent /\
  ((~ exists s, tracked ent s /\ loses s) -> ent' = ent) /\
  forall s, tracked ent s -> exists s', selectorOf ent' = Some s' /\
    (forall m, m ∈ pool s' <-> m ∈ pool s /\ exists_ m = true) /\
    (forall m, m ∈ lastBuilt s' <-> m ∈ lastBuilt s /\ exists_ m = true).

Lemma groupChangedOne_prunedTo ent : prunedTo ent (groupChangedOne gid disturbed exists_ running ent).1.1.
Proof.
  unfold prunedTo, groupChangedOne, tracked. destruct ent as [id [s|]]; cbn [selectorOf entId].
  2: { split; [done|]. split; [done|]. by intros s [? _]. }
  destruct (Tracks s gid) eqn:Et; cbn [negb fst entId selectorOf].
  2: { split; [done|]. split; [done|]. intros s0 [[= <-] ?]. congruence. }
  split; [done|]. split.
  - intros Hn. rewrite !kept_all.
    + by rewrite setMembers_same.
    + apply not_true_is_false. intros (m & Hm & Hx)%pruned_iff. apply Hn. exists s. split; [done|]. exists m.
      split; [apply elem_of_app; tauto|done].
    + apply not_true_is_false. intros (m & Hm & Hx)%pruned_iff. apply Hn. exists s. split; [done|]. exists m.
      split; [apply elem_of_app; tauto|done].
  - intros s0 [[= <-] _]. eexists. split; [done|]. cbn [pool lastBuilt setMembers].
    split; intros m; unfold kept; rewrite list_elem_of_filter; tauto.
Qed.

(** The loop, from what it has done so far. *)
Definition groupTurn '((after_, saved, restartID) : list SelectorProfile * list Z * Z) ent :=
  let '(ent', save, rebuild) := groupChangedOne gid disturbed exists_ running ent in
  (after_ ++ [ent'], if save then saved ++ [entId ent] else saved, if rebuild then entId ent else restartID).

Lemma groupTurns ents : forall after0 saved0 restart0,
  exists after_ saved restartID,
    fold_left groupTurn ents (after0, saved0, restart0) = (after0 ++ after_, saved0 ++ saved, restartID) /\
    Forall2 prunedTo ents after_ /\
    (forall id, id ∈ saved <-> exists ent s, ent ∈ ents /\ entId ent = id /\ tracked ent s /\ loses s) /\
    (restartID = restart0 \/
     running = Some restartID /\ exists ent s, ent ∈ ents /\ running = Some (entId ent) /\ tracked ent s /\ stale s) /\
    (running = Some restart0 \/ (exists ent s, ent ∈ ents /\ running = Some (entId ent) /\ tracked ent s /\ stale s) ->
     running = Some restartID).
Proof.
  induction ents as [|ent ents IH]; intros after0 saved0 restart0.
  { exists [], [], restart0. rewrite !app_nil_r. split; [done|]. split; [constructor|]. split.
    - intros id. split; [by intros ?%elem_of_nil|]. by intros (? & ? & ?%elem_of_nil & _).
    - split; [by left|]. by intros [?|(? & ? & ?%elem_of_nil & _)]. }
  cbn [fold_left]. unfold groupTurn at 2.
  pose proof (groupChangedOne_prunedTo ent) as Hp.
  destruct (groupChangedOne _ _ _ _ ent) as [[ent' save] rebuild] eqn:E. cbn [fst] in Hp.
  apply groupChangedOne_spec in E as (_ & Hsave & Hre).
  destruct (IH (after0 ++ [ent']) (if save then saved0 ++ [entId ent] else saved0) (if rebuild then entId ent else restart0))
    as (after_ & saved & restartID & -> & Ha & Hs & Hr1 & Hr2). clear IH.
  exists (ent' :: after_), ((if save then [entId ent] else []) ++ saved), restartID. split.
  { rewrite <- app_assoc. cbn [app]. f_equal. f_equal. destruct save; by rewrite <- ?app_assoc. }
  split; [by constructor|]. split; [|split].
  - intros id. rewrite elem_of_app, Hs. split.
    + intros [Hid|(ent0 & s & Hin & Hrest)]; [|exists ent0, s; split; [by right|done]].
      destruct save; [|by apply elem_of_nil in Hid]. apply list_elem_of_singleton in Hid as ->.
      destruct Hsave as [(s & Hs') _]; [done|]. exists ent, s. split; [by left|]. by destruct Hs'.
    + intros (ent0 & s & [->|Hin]%elem_of_cons & Hid & Ht & Hl); [left|right; by exists ent0, s].
      destruct Hsave as [_ ->]; [|by exists s]. by apply list_elem_of_singleton.
  - destruct Hr1 as [->|(Hrun & ent0 & s & Hin & Hrest)]; [|right; split; [done|]; exists ent0, s; split; [by right|done]].
    destruct rebuild; [right|by left]. destruct Hre as [(Hrun & s & Hs') _]; [done|]. split; [done|].
    exists ent, s. split; [by left|]. by destruct Hs'.
  - intros Hx. apply Hr2. destruct Hx as [Hrun|(ent0 & s & [->|Hin]%elem_of_cons & Hrun & Ht & Hl)].
    + left. destruct rebuild; [|done]. by destruct Hre as [(-> & _) _].
    + left. destruct Hre as [_ ->]; [done|]. split; [done|by exists s].
    + right. by exists ent0, s.
Qed.

(** After a subscription changed a group, every selector that
    tracks it keeps exactly its members that still exist, every other selector
    and every one that lost none is untouched, exactly those that lost a member
    are saved, and the running profile is started anew exactly if it is such a
    selector and a member it was built from is gone or was disturbed. *)
Theorem onSubscriptionGroupChanged_spec ents :
  0 <= gid -> (forall id, running = Some id -> 0 <= id) ->
  exists after_ saved restart_,
    onSubscriptionGroupChanged gid disturbed exists_ running ents = (after_, saved, restart_) /\
    Forall2 prunedTo ents after_ /\
    (forall id, id ∈ saved <-> exists ent s, ent ∈ ents /\ entId ent = id /\ tracked ent s /\ loses s) /\
    (forall id, restart_ = Some id <->
      running = Some id /\ exists ent s, ent ∈ ents /\ entId ent = id /\ tracked ent s /\ stale s).
Proof.
  intros Hg Hrun. unfold onSubscriptionGroupChanged. destruct (Z.ltb_spec gid 0); [lia|].
  destruct (groupTurns ents [] [] (-1)) as (after_ & saved & restartID & E & Ha & Hs & Hr1 & Hr2).
  unfold groupTurn in E. rewrite E. cbn [app]. eexists after_, saved, _. split; [done|]. split; [done|]. split; [done|].
  intros id. split.
  - destruct (Z.ltb_spec restartID 0); [done|]. intros [= <-]. destruct Hr1 as [->|(Hr & ent & s & Hin & Hent & Hx)]; [lia|].
    split; [done|]. exists ent, s. split; [done|]. split; [congruence|done].
  - intros (Hr & ent & s & Hin & Hent & Hx).
    assert (Hr' : running = Some restartID) by (apply Hr2; right; exists ent, s; split; [done|]; split; [congruence|done]).
    destruct (Z.ltb_spec restartID 0); [|congruence]. apply Hrun in Hr'. lia.
Qed.
End GroupChangedLaws.

(** Selector 100 runs on members 1 and 2 of group 7; 2 is gone. *)
Definition runningSelector : autoSelector :=
  {| name := []; gids := [7]; nameFilter := []; countryFilter := []; excludeUnavailable := true;
     poolCap := 1000; buildLimit := 2; resultValidityMins := 1440; testURL := []; connectivityURL := [];
     intervalSec := 300; benchIntervalSec := 600; watchIntervalSec := 15; activeSize := 8; sampling := 10;
     toleranceMs := 300; maxRTTms := 0; expected := 3; dialRetries := 2; interruptOnSwitch := true;
     balance := false; balanceMode := []; balanceIntervalSec := 30; pool := [3; 2; 1]; poolRankedAt := 0;
     pinnedID := -1; lastBuilt := [1; 2]; lastBuiltAt := 0; history := [] |}.

Lemma onSubscriptionGroupChanged_spec_witness :
  let ents := [MkSelectorProfile 100 (Some runningSelector); MkSelectorProfile 101 None] in
  exists after_, onSubscriptionGroupChanged 7 [] (fun id => negb (id =? 2)) (Some 100) ents = (after_, [100], Some 100) /\
    Forall2 (prunedTo 7 (fun id => negb (id =? 2))) ents after_.
Proof.
  intros ents. destruct (onSubscriptionGroupChanged_spec 7 [] (fun id => negb (id =? 2)) (Some 100) ents)
    as (after_ & saved & restart_ & E & Ha & _); [lia|by intros ? [= <-]|].
  exists after_. split; [|exact Ha]. rewrite E. revert E. vm_compute. by intros [= <- <- <-].
Defined.
