(* ===== verification/ConnectionState.v ===== *)
(** * ConnectionState: the data of the connection manager

    include/engine/connection/ConnectionManager.h.  The fields of
    [ConnectionManager] are one record, with the settings it shares, what its
    threads are doing and what is queued for the main thread: [todo] is the rest
    of the handler the main thread is in, [dialogs] the modal dialogs whose nested
    event loop holds the rest of a handler, [posts] the callbacks queued by
    [runOnUiThread].  [asked] and [signals] log the start requests made and what
    was emitted. *)

From S2P Require Import Prelude Text EngineTypes AutoSelectorController.

(** ** Other components, as the manager sees them *)

(** What it calls of the core supervisor [S], whose state also holds the settings
    both share. *)
Class Supervisor (S : Type) := {
  awaitingCoreStarted : S -> bool;
  startWhenUp : S -> Z;
  canStartCore : S -> bool;
  lastFailure : S -> qstring;
  runningWithoutGuardIdentity : bool -> S -> bool;
  setStartWhenUp : Z -> S -> bool * S;
  restartNotListening : Z -> S -> bool * S;
  restartForGuard : S -> S;
  resetCore : S -> bool * S;
  cancelResume : S -> S;
  startedId : S -> Z;
  updateStartedId : Z -> S -> S;
  coreIsRunning : S -> bool;
  prepareExit : S -> bool }.

(** A core that lacks the guard's identity is a core it has. *)
Class SupervisorLaws (S : Type) `{Supervisor S} : Prop := {
  guardless_core g id s : runningWithoutGuardIdentity g s = true -> (setStartWhenUp id s).1 = true }.

(** What the repositories, the auto selector's plan and the config builder answer
    for a profile. *)
Record ProfileView := MkView {
  viewDisabled : bool; viewGroup : option bool (* archived *); viewSelector : bool; viewNeedsRanking : bool;
  buildError : qstring; buildTun : bool }.

(** The core's capability report. *)
Record Capabilities := MkCaps {
  capTunDevice : option bool; capNetAdmin : option bool; capPrivileged : bool; capDetail : qstring }.

(** The answers of the rest of the program during a step of the main thread.
    [guardIdentity]: the guard identity of the core's process. *)
Record Env := MkEnv {
  now : Z; profileOf : Z -> option ProfileView; ksState : KillSwitchState; ksFailure : qstring;
  ksFailedForPrivileges : bool; guardIdentity : bool;
  knownCapabilities : option Capabilities; knownAdmin : option bool; isAdmin : bool;
  tunConflict : qstring -> Z -> qstring; otherHeadless : option Z;
  runningRouteId : Z; routeIdFor : Z -> Z }.

(** [RuntimeOptions], and the platform. *)
Record Options := MkOptions {
  headless : bool; systemProxy : bool; tunRequired : bool; blockingPrivilegeCheck : bool;
  geoAutoDownload : bool; exitCountryLookup : bool; onWindows : bool }.

(** ** What is emitted *)

(** The calls of [EnginePolicy]. *)
Inductive PolicyCall :=
  | StartFailedCall (request : StartRequest) (outcome : StartOutcome) (error : qstring)
  | StopFailedCall (error : qstring)
  | KillSwitchProblem | KillSwitchProblemResolved | ExtraCoreNotPermitted | StrictRouteUnavailableCall (error : qstring)
  | SystemProxyNeedsMixedInbound | TunNotice (text : qstring).

Inductive Signal :=
  | StartFinished (serial profileId : Z) (outcome : StartOutcome) (error : qstring)
  | StartDispatching (serial profileId : Z)
  | StopFinished (profileId : Z)
  | StateChanged (state : ConnectionState)
  | Marker (kind : RunMarker)
  | StatusChanged | BusyChanged | RowsChanged (ids : list Z) | ReasonsChanged
  | Policy (call : PolicyCall)
  | VpnRunStarted | VpnRunStopped (id : Z) (manual : bool)
  | KillSwitchApplied.

(** ** What is queued *)

(** What remains of a main-thread handler. *)
Inductive Todo :=
  | TStart (request : StartRequest)
  | TStartRest (request : StartRequest) (tun : bool)
  | TStop (options : StopOptions)
  | TStopTry (id : Z) (options : StopOptions)
  | TUnrank
  | TResume (id : Z) (resume : Resume)
  | TDeferred
  | TKillSwitchChanged
  | TCoreStartedModes (profileId : Z)
  | TCoreStartedGuiTun (profileId : Z)
  | TCoreStartedTun (profileId : Z) (wantTun : bool)
  | TClearTunFlag
  | TCoreStartedRest (profileId : Z) (tunHoldWhy : qstring)
  | TSetSystemProxy (enable : bool) (change : ModeChange)
  | TSetSystemProxyRest (enable : bool) (change : ModeChange)
  | TSetTun (enable : bool) (change : ModeChange)
  | TSetTunPrivileges (enable : bool) (change : ModeChange)
  | TSetTunRest (enable : bool) (change : ModeChange)
  | TRetryLeftover (profileId : Z)
  | TResetCore
  | TStatus.

(** A modal dialog, by what its answer decides. *)
Inductive Dialog :=
  | OfferLeftoverRetry (profileId : Z)
  | OfferCoreReset
  | RequestCorePrivileges (enable : bool) (change : ModeChange).

Inductive Post :=
  | PFinish (request : StartRequest) (outcome : StartOutcome) (error : qstring)
  | PStarted (request : StartRequest) (exitIsEndpoint : bool)
  | PConnected (started switching : bool)
  | PDisconnecting
  | PCancelResume
  | PTeardown
  | PPolicy (call : PolicyCall)
  | PExtraCore
  | POfferRetry (profileId : Z)
  | POfferReset
  | PResume (id : Z) (resume : Resume)
  | PRankDone (id : Z) (resume : Resume) (early : bool)
  | PReranked (id : Z) (changed : bool)
  | PExitCountry (id : Z) (text : qstring).

(** ** Threads *)

(** Where a start worker is. *)
Inductive StartPhase :=
  | WBegin
  | WStop
  | WStopTry (id : Z)
  | WWait
  | WHold
  | WStage2
  | WPublish (exitIsEndpoint : bool)
  | WUnlock (started : bool)
  | WFinal (started : bool).

Record Starter := MkStarter {
  swRequest : StartRequest; swTun : bool; swSwitching : bool; swPhase : StartPhase }.

(** Where the stop worker is: before its teardown is posted, waiting for the main
    thread to start the timer, waiting for the timer. *)
Inductive StopPhase := SBegin | SClear | SPosted | SArmed.

Record Stopper := MkStopper { stopId : Z; stopOptions : StopOptions; stopPhase : StopPhase }.

(** ** The settings it reads and writes *)

Record Settings := MkSettings {
  spmode_vpn : bool; spmode_system_proxy : bool; remember_tun : bool; remember_system_proxy : bool;
  remember_enable : bool; flag_restart_tun_on : bool; disable_mixed_inbound : bool;
  reset_proxy_on_disable_sp : bool; disable_privilege_req : bool; exit_country_lookup : bool;
  kill_switch : bool; current_route_id : Z; remember_id : Z; vpn_tun_ipv4_cidr : qstring;
  core_dns_in_port : Z }.

Definition etaSettings (p : Settings) : Settings :=
  MkSettings (spmode_vpn p) (spmode_system_proxy p) (remember_tun p) (remember_system_proxy p)
  (remember_enable p) (flag_restart_tun_on p) (disable_mixed_inbound p) (reset_proxy_on_disable_sp p)
  (disable_privilege_req p) (exit_country_lookup p) (kill_switch p) (current_route_id p) (remember_id p)
  (vpn_tun_ipv4_cidr p) (core_dns_in_port p).

#[export] Instance set_spmode_vpn : Setter spmode_vpn := ltac:(setter etaSettings).
#[export] Instance set_spmode_system_proxy : Setter spmode_system_proxy := ltac:(setter etaSettings).
#[export] Instance set_remember_tun : Setter remember_tun := ltac:(setter etaSettings).
#[export] Instance set_remember_system_proxy : Setter remember_system_proxy := ltac:(setter etaSettings).
#[export] Instance set_remember_enable : Setter remember_enable := ltac:(setter etaSettings).
#[export] Instance set_flag_restart_tun_on : Setter flag_restart_tun_on := ltac:(setter etaSettings).
#[export] Instance set_disable_mixed_inbound : Setter disable_mixed_inbound := ltac:(setter etaSettings).
#[export] Instance set_reset_proxy_on_disable_sp : Setter reset_proxy_on_disable_sp := ltac:(setter etaSettings).
#[export] Instance set_disable_privilege_req : Setter disable_privilege_req := ltac:(setter etaSettings).
#[export] Instance set_exit_country_lookup : Setter exit_country_lookup := ltac:(setter etaSettings).
#[export] Instance set_kill_switch : Setter kill_switch := ltac:(setter etaSettings).
#[export] Instance set_current_route_id : Setter current_route_id := ltac:(setter etaSettings).
#[export] Instance set_remember_id : Setter remember_id := ltac:(setter etaSettings).
#[export] Instance set_vpn_tun_ipv4_cidr : Setter vpn_tun_ipv4_cidr := ltac:(setter etaSettings).
#[export] Instance set_core_dns_in_port : Setter core_dns_in_port := ltac:(setter etaSettings).

(** ** The manager *)

Section State.
Context (S : Type).

Record Conn := MkConn {
  sup : S; m_running : option Z; m_runningTun : bool; m_lastProfileId : Z; m_profileConnecting : bool;
  m_profileDisconnecting : bool; m_lastConnectionState : ConnectionState; m_startSerial : Z;
  m_killSwitchDeferredStart : StartRequest; m_coreStartRequest : StartRequest;
  m_guardCoreRestart : option Z; m_killSwitchWasFailed : bool; m_killSwitchWasArmed : bool;
  m_restartReasons : list RestartReason; mu_starting : bool; mu_stopping : bool; m_switchingProfile : bool;
  m_tunRestoreHeld : bool; m_tunBlockedCache : qstring; m_tunBlockedKey : option (qstring * Z);
  m_tunBlockedAtMs : Z; m_bootSerial : Z; m_geoRetriedProfile : Z; m_geoRetryToken : Z; prefs : Settings;
  ranker : Ranker; todo : list Todo; dialogs : list (Dialog * list Todo); starters : list Starter;
  stopper : option Stopper; stopCalls : list (Z * StopOptions); posts : list Post; ksWaiters : nat;
  lookups : list Z; geoWaits : list (Z * Z); proxyJobs : list bool; systemProxySet : bool;
  countryInfo : gmap Z qstring; asked : list StartRequest; signals : list Signal }.
End State.

#[global] Arguments MkConn {S}.
#[global] Arguments sup {S}.
#[global] Arguments m_running {S}.
#[global] Arguments m_runningTun {S}.
#[global] Arguments m_lastProfileId {S}.
#[global] Arguments m_profileConnecting {S}.
#[global] Arguments m_profileDisconnecting {S}.
#[global] Arguments m_lastConnectionState {S}.
#[global] Arguments m_startSerial {S}.
#[global] Arguments m_killSwitchDeferredStart {S}.
#[global] Arguments m_coreStartRequest {S}.
#[global] Arguments m_guardCoreRestart {S}.
#[global] Arguments m_killSwitchWasFailed {S}.
#[global] Arguments m_killSwitchWasArmed {S}.
#[global] Arguments m_restartReasons {S}.
#[global] Arguments mu_starting {S}.
#[global] Arguments mu_stopping {S}.
#[global] Arguments m_switchingProfile {S}.
#[global] Arguments m_tunRestoreHeld {S}.
#[global] Arguments m_tunBlockedCache {S}.
#[global] Arguments m_tunBlockedKey {S}.
#[global] Arguments m_tunBlockedAtMs {S}.
#[global] Arguments m_bootSerial {S}.
#[global] Arguments m_geoRetriedProfile {S}.
#[global] Arguments m_geoRetryToken {S}.
#[global] Arguments prefs {S}.
#[global] Arguments ranker {S}.
#[global] Arguments todo {S}.
#[global] Arguments dialogs {S}.
#[global] Arguments starters {S}.
#[global] Arguments stopper {S}.
#[global] Arguments stopCalls {S}.
#[global] Arguments posts {S}.
#[global] Arguments ksWaiters {S}.
#[global] Arguments lookups {S}.
#[global] Arguments geoWaits {S}.
#[global] Arguments proxyJobs {S}.
#[global] Arguments systemProxySet {S}.
#[global] Arguments countryInfo {S}.
#[global] Arguments asked {S}.
#[global] Arguments signals {S}.

Definition etaConn {S} (c : Conn S) : Conn S :=
  MkConn
  (sup c) (m_running c) (m_runningTun c) (m_lastProfileId c) (m_profileConnecting c)
  (m_profileDisconnecting c) (m_lastConnectionState c) (m_startSerial c) (m_killSwitchDeferredStart c)
  (m_coreStartRequest c) (m_guardCoreRestart c) (m_killSwitchWasFailed c) (m_killSwitchWasArmed c)
  (m_restartReasons c) (mu_starting c) (mu_stopping c) (m_switchingProfile c) (m_tunRestoreHeld c)
  (m_tunBlockedCache c) (m_tunBlockedKey c) (m_tunBlockedAtMs c) (m_bootSerial c) (m_geoRetriedProfile c)
  (m_geoRetryToken c) (prefs c) (ranker c) (todo c) (dialogs c) (starters c) (stopper c) (stopCalls c)
  (posts c) (ksWaiters c) (lookups c) (geoWaits c) (proxyJobs c) (systemProxySet c) (countryInfo c)
  (asked c) (signals c).

(** [setter] for a record with a parameter. *)
Ltac conn_setter :=
  match goal with
  | |- Setter ?proj =>
      unfold Setter; intros v r;
      let e := eval cbv beta delta [etaConn] in (etaConn r) in
      match eval pattern (proj r) in e with
      | ?g _ => let b := eval cbv beta in (g v) in exact b
      end
  end.

#[export] Instance set_sup {S} : Setter (@sup S) := ltac:(conn_setter).
#[export] Instance set_m_running {S} : Setter (@m_running S) := ltac:(conn_setter).
#[export] Instance set_m_runningTun {S} : Setter (@m_runningTun S) := ltac:(conn_setter).
#[export] Instance set_m_lastProfileId {S} : Setter (@m_lastProfileId S) := ltac:(conn_setter).
#[export] Instance set_m_profileConnecting {S} : Setter (@m_profileConnecting S) := ltac:(conn_setter).
#[export] Instance set_m_profileDisconnecting {S} : Setter (@m_profileDisconnecting S) := ltac:(conn_setter).
#[export] Instance set_m_lastConnectionState {S} : Setter (@m_lastConnectionState S) := ltac:(conn_setter).
#[export] Instance set_m_startSerial {S} : Setter (@m_startSerial S) := ltac:(conn_setter).
#[export] Instance set_m_killSwitchDeferredStart {S} : Setter (@m_killSwitchDeferredStart S) := ltac:(conn_setter).
#[export] Instance set_m_coreStartRequest {S} : Setter (@m_coreStartRequest S) := ltac:(conn_setter).
#[export] Instance set_m_guardCoreRestart {S} : Setter (@m_guardCoreRestart S) := ltac:(conn_setter).
#[export] Instance set_m_killSwitchWasFailed {S} : Setter (@m_killSwitchWasFailed S) := ltac:(conn_setter).
#[export] Instance set_m_killSwitchWasArmed {S} : Setter (@m_killSwitchWasArmed S) := ltac:(conn_setter).
#[export] Instance set_m_restartReasons {S} : Setter (@m_restartReasons S) := ltac:(conn_setter).
#[export] Instance set_mu_starting {S} : Setter (@mu_starting S) := ltac:(conn_setter).
#[export] Instance set_mu_stopping {S} : Setter (@mu_stopping S) := ltac:(conn_setter).
#[export] Instance set_m_switchingProfile {S} : Setter (@m_switchingProfile S) := ltac:(conn_setter).
#[export] Instance set_m_tunRestoreHeld {S} : Setter (@m_tunRestoreHeld S) := ltac:(conn_setter).
#[export] Instance set_m_tunBlockedCache {S} : Setter (@m_tunBlockedCache S) := ltac:(conn_setter).
#[export] Instance set_m_tunBlockedKey {S} : Setter (@m_tunBlockedKey S) := ltac:(conn_setter).
#[export] Instance set_m_tunBlockedAtMs {S} : Setter (@m_tunBlockedAtMs S) := ltac:(conn_setter).
#[export] Instance set_m_bootSerial {S} : Setter (@m_bootSerial S) := ltac:(conn_setter).
#[export] Instance set_m_geoRetriedProfile {S} : Setter (@m_geoRetriedProfile S) := ltac:(conn_setter).
#[export] Instance set_m_geoRetryToken {S} : Setter (@m_geoRetryToken S) := ltac:(conn_setter).
#[export] Instance set_prefs {S} : Setter (@prefs S) := ltac:(conn_setter).
#[export] Instance set_ranker {S} : Setter (@ranker S) := ltac:(conn_setter).
#[export] Instance set_todo {S} : Setter (@todo S) := ltac:(conn_setter).
#[export] Instance set_dialogs {S} : Setter (@dialogs S) := ltac:(conn_setter).
#[export] Instance set_starters {S} : Setter (@starters S) := ltac:(conn_setter).
#[export] Instance set_stopper {S} : Setter (@stopper S) := ltac:(conn_setter).
#[export] Instance set_stopCalls {S} : Setter (@stopCalls S) := ltac:(conn_setter).
#[export] Instance set_posts {S} : Setter (@posts S) := ltac:(conn_setter).
#[export] Instance set_ksWaiters {S} : Setter (@ksWaiters S) := ltac:(conn_setter).
#[export] Instance set_lookups {S} : Setter (@lookups S) := ltac:(conn_setter).
#[export] Instance set_geoWaits {S} : Setter (@geoWaits S) := ltac:(conn_setter).
#[export] Instance set_proxyJobs {S} : Setter (@proxyJobs S) := ltac:(conn_setter).
#[export] Instance set_systemProxySet {S} : Setter (@systemProxySet S) := ltac:(conn_setter).
#[export] Instance set_countryInfo {S} : Setter (@countryInfo S) := ltac:(conn_setter).
#[export] Instance set_asked {S} : Setter (@asked S) := ltac:(conn_setter).
#[export] Instance set_signals {S} : Setter (@signals S) := ltac:(conn_setter).
