(* ===== verification/ConnectionStart.v ===== *)
(** * ConnectionStart: starting, stopping and switching the running profile

    src/engine/connection/ConnectionManager.cpp: [start] up to its worker, the
    start worker, [stop], its worker and teardown, the requests deferred to the
    kill switch and to the core ([deferStartToCore], [restartCoreForGuard],
    guardRestartPending of ConnectionModes.cpp).  A handler on the main thread runs
    to the end of a section and leaves the rest in [todo]; a worker's step ends at
    each lock, shared write or post. *)

From S2P Require Import Prelude Text EngineTypes AutoSelectorController ConnectionState.

Definition NoProfileId : Z := -1919.
Definition kGuardRestartWindowMs : Z := 15000.

Section Start.
Context {S : Type} `{Supervisor S} `{QtText} (options : Options).
Implicit Types (c : Conn S) (e : Env) (r : StartRequest).

(** ** Small steps *)

Definition emit (x : Signal) c : Conn S := c <| signals := signals c ++ [x] |>.
Definition post (p : Post) c : Conn S := c <| posts := posts c ++ [p] |>.

(** What the handler does next. *)
Definition next (ts : list Todo) c : Conn S := c <| todo := ts ++ todo c |>.

(** A start request made here. *)
Definition ask r c : Conn S := c <| asked := asked c ++ [r] |>.
Definition askStart r c : Conn S := next [TStart r] (ask r c).

Definition setPrefs (f : Settings -> Settings) c : Conn S := c <| prefs := f (prefs c) |>.

Definition finished r (outcome : StartOutcome) (error : qstring) c : Conn S :=
  emit (StartFinished (serial r) (profileId r) outcome error) c.

Definition connectionState c : ConnectionState :=
  if m_profileConnecting c then Connecting
  else if m_profileDisconnecting c then Stopping
  else match m_running c with Some _ => Running | None => Idle end.

Definition syncState c : Conn S :=
  let connState := connectionState c in
  if bool_decide (connState = m_lastConnectionState c) then c
  else
    let c := (c <| m_lastConnectionState := connState |>) <| m_tunBlockedAtMs := 0 |> in
    (emit (StateChanged connState) c) <| ranker := stateSettled connState (ranker c) |>.

Definition setRunning (profile : option Z) (tun : bool) c : Conn S :=
  (c <| m_running := profile |>) <| m_runningTun := bool_decide (is_Some profile) && tun |>.

Definition bumpGeoToken c : Conn S := c <| m_geoRetryToken := u64 (m_geoRetryToken c + 1) |>.

(** [SettingsRepo::UpdateStartedId]. *)
Definition noteStartedId (id : Z) c : Conn S :=
  (c <| sup := updateStartedId id (sup c) |>) <| prefs := (prefs c) <| remember_id := id |> |>.

Definition clearRestartNeeded c : Conn S :=
  if bool_decide (m_restartReasons c = []) then c else emit ReasonsChanged (c <| m_restartReasons := [] |>).

Definition applySystemProxy (enable : bool) c : Conn S := c <| proxyJobs := proxyJobs c ++ [enable] |>.

(** One job of the system proxy's thread. *)
Definition runProxyJob c : Conn S :=
  match proxyJobs c with
  | [] => c
  | enable :: jobs =>
      let c := c <| proxyJobs := jobs |> in
      if negb enable then c <| systemProxySet := false |>
      else if spmode_system_proxy (prefs c) then c <| systemProxySet := true |> else c
  end.

(** ** Requests that wait *)

Definition failStart r (outcome : StartOutcome) (error : qstring) c : Conn S :=
  let c := finished r outcome error c in
  if interactive r then emit (Policy (StartFailedCall r outcome error)) c else c.

Definition deferStartToCore r c : Conn S :=
  let c := if 0 <=? profileId (m_coreStartRequest c) then finished (m_coreStartRequest c) Superseded [] c else c in
  c <| m_coreStartRequest := r |>.

Definition guardRestartPending (now : Z) c : bool :=
  match m_guardCoreRestart c with Some since => now - since <=? kGuardRestartWindowMs | None => false end.

Definition restartCoreForGuard (now : Z) r c : Conn S :=
  let '(haveCore, s) := setStartWhenUp (profileId r) (sup c) in
  let c := c <| sup := s |> in
  if negb haveCore then finished r CoreUnavailable [] c
  else
    let c := deferStartToCore r c in
    if guardRestartPending now c then c
    else (c <| m_guardCoreRestart := Some now |>) <| sup := restartForGuard (sup c) |>.

(** The kill switch is arming: the latest request waits until it settles. *)
Definition deferToKillSwitch r c : Conn S :=
  let queued := 0 <=? profileId (m_killSwitchDeferredStart c) in
  let c := if queued then finished (m_killSwitchDeferredStart c) Superseded [] c else c in
  let c := c <| m_killSwitchDeferredStart := r |> in
  if queued then c else c <| ksWaiters := Datatypes.S (ksWaiters c) |>.

(** What [whenSettled] was given. *)
Definition startDeferred c : Conn S :=
  let r := m_killSwitchDeferredStart c in
  let c := c <| m_killSwitchDeferredStart := noRequest |> in
  if 0 <=? profileId r then next [TStart r] c else c.

(** ** [start] *)

(** Both locks, tried in order; the second is only looked at. *)
Definition startLocked r (tun : bool) c : Conn S :=
  if mu_starting c then failStart r Busy (u "Another profile is starting...") c
  else if mu_stopping c then failStart r Busy (u "Another profile is stopping...") c
  else next [TStartRest r tun] ((c <| mu_starting := true |>) <| mu_stopping := true |>).

(** From the kill switch on: the profile can be started. *)
Definition startChecked e r (view : ProfileView) c : Conn S :=
  if bool_decide (ksState e = KsArming) then deferToKillSwitch r c
  else if negb (allowsStart (ksState e)) then
    let c := finished r KillSwitchInactive (ksFailure e) c in
    if interactive r then emit (Policy KillSwitchProblem) c else c
  else if guardRestartPending (now e) c ||
          (bool_decide (ksState e = KsArmed) && runningWithoutGuardIdentity (guardIdentity e) (sup c)) then
    restartCoreForGuard (now e) r c
  else
    let '(ranks, k) := rankBeforeStart (viewSelector view) (viewNeedsRanking view) r (ranker c) in
    let c := c <| ranker := k |> in
    if ranks then c
    else if negb (bool_decide (buildError view = [])) then failStart r BuildFailed (buildError view) c
    else startLocked r (buildTun view) c.

Definition start e r c : Conn S :=
  let c := bumpGeoToken c in
  if prepareExit (sup c) then finished r Exiting [] c
  else
    match (if 0 <=? profileId r then profileOf e (profileId r) else None) with
    | None => finished r NotFound [] c
    | Some view =>
        if viewDisabled view then finished r NotFound (u "Profile is disabled") c
        else
          let c := emit (StartDispatching (serial r) (profileId r)) (c <| m_lastProfileId := profileId r |>) in
          if negb (bool_decide (viewGroup view = Some false)) then finished r GroupUnavailable [] c
          else startChecked e r view c
    end.

(** After the locks. *)
Definition startRest r (tun : bool) c : Conn S :=
  let c := c <| mu_stopping := false |> in
  if awaitingCoreStarted (sup c) then
    let c := deferStartToCore r c in
    let c := c <| sup := (setStartWhenUp (profileId r) (sup c)).2 |> in
    c <| mu_starting := false |>
  else if negb (coreIsRunning (sup c)) then
    if negb (canStartCore (sup c)) then
      failStart r CoreUnavailable (lastFailure (sup c)) (c <| mu_starting := false |>)
    else
      let c := deferStartToCore r c in
      let c := c <| sup := (restartNotListening (profileId r) (sup c)).2 |> in
      c <| mu_starting := false |>
  else
    let c := emit BusyChanged (syncState (c <| m_profileConnecting := true |>)) in
    c <| starters := starters c ++ [MkStarter r tun false WBegin] |>.

(** ** [stop] *)

(** The token of a manual stop. *)
Definition stopToken (o : StopOptions) c : Conn S := if manual o then bumpGeoToken c else c.

Definition noteDisconnecting c : Conn S :=
  emit BusyChanged (syncState (c <| m_profileDisconnecting := true |>)).

(** From [tryLock] on; [onMain]: on the main thread, where the posted part runs at
    once. *)
Definition stopTry (onMain : bool) (id : Z) (o : StopOptions) c : Conn S :=
  if mu_stopping c then c
  else
    let c := c <| mu_stopping := true |> in
    let c := if onMain then noteDisconnecting c else post PDisconnecting c in
    c <| stopper := Some (MkStopper id o SBegin) |>.

(** [stop] on the main thread. *)
Definition stopOnMain (o : StopOptions) c : Conn S :=
  let c := stopToken o c in
  match m_running c with
  | None => if manual o && negb (crash o) then c <| sup := cancelResume (sup c) |> else c
  | Some id => next [TStopTry id o] c
  end.

(** [stop] on another thread, up to its [tryLock]. *)
Definition stopElsewhere (o : StopOptions) c : Conn S :=
  let c := stopToken o c in
  match m_running c with
  | None => if manual o && negb (crash o) then post PCancelResume c else c
  | Some id => c <| stopCalls := stopCalls c ++ [(id, o)] |>
  end.

(** What the core answers to [Stop]. *)
Record StopAnswer := MkStopAnswer { stopRpcOK : bool; stopError : qstring }.

Definition stopStage2 (a : StopAnswer) (o : StopOptions) c : Conn S :=
  let proxy := fun c => if spmode_system_proxy (prefs c) then applySystemProxy false c else c in
  if crash o then proxy c
  else if negb (stopRpcOK a) then c
  else if negb (bool_decide (stopError a = [])) then
    if stopInteractive o then post (PPolicy (StopFailedCall (stopError a))) c else c
  else proxy c.

(** One step of the stop worker. *)
Definition stopperStep (a : StopAnswer) c : Conn S :=
  match stopper c with
  | None => c
  | Some w =>
      let to p := Some (MkStopper (stopId w) (stopOptions w) p) in
      match stopPhase w with
      | SBegin =>
          let c := stopStage2 a (stopOptions w) c in
          let c := if manual (stopOptions w) then noteStartedId NoProfileId c else c in
          c <| stopper := to SClear |>
      | SClear => (post PTeardown (setRunning None false c)) <| stopper := to SPosted |>
      | SPosted | SArmed => c
      end
  end.

(** The teardown on the main thread, once its timer fires. *)
Definition teardown c : Conn S :=
  match stopper c with
  | Some (MkStopper id o SArmed) =>
      let c := if m_switchingProfile c then c else emit (Marker MarkStopped) c in
      let c := clearRestartNeeded (c <| m_profileDisconnecting := false |>) in
      let c := syncState (emit (VpnRunStopped id (manual o)) c) in
      let c := emit (RowsChanged [id]) (emit StatusChanged c) in
      emit (StopFinished id) ((c <| mu_stopping := false |>) <| stopper := None |>)
  | _ => c
  end.

(** ** The start worker *)

(** What the core and the asset updates answer to [Start].  [geoHandled]:
    [HandleXrayGeoError]; [geoFetch]: it will call back once it has installed the
    files. *)
Record StartAnswer := MkStartAnswer {
  extraCoreRefused : bool; startRpcOK : bool; startError : qstring; geoHandled : bool; geoFetch : bool;
  exitIsEndpoint : bool }.

(** [finish] of [start]. *)
Definition postFinish r (outcome : StartOutcome) (error : qstring) c : Conn S := post (PFinish r outcome error) c.

(** A start the core refused with an error. *)
Definition startRefused (a : StartAnswer) r c : Conn S :=
  let error := startError a in
  if geoHandled a then
    let c := if geoAutoDownload options && geoFetch a
             then c <| geoWaits := geoWaits c ++ [(profileId r, m_geoRetryToken c)] |> else c in
    postFinish r GeoAssetsMissing error c
  else if containsCI error (u "Fwpm") then
    let c := postFinish r StrictRouteUnavailable error c in
    if interactive r then post (PPolicy (StrictRouteUnavailableCall error)) c else c
  else if contains error (u "configure tun interface") then
    let c := postFinish r TunFailed error c in
    if negb (interactive r) then c
    else if contains error (u "open existing adapter") then post (POfferRetry (profileId r)) c
    else post POfferReset c
  else
    let c := postFinish r StartFailed error c in
    if interactive r then post (PPolicy (StartFailedCall r StartFailed error)) c else c.

(** [profile_start_stage2], up to the first write of a successful start. *)
Definition startStage2 (a : StartAnswer) r c : bool * Conn S :=
  if extraCoreRefused a then
    let c := postFinish r ExtraCoreBlocked [] c in
    (false, if interactive r then post PExtraCore c else c)
  else if negb (startRpcOK a) then (false, postFinish r CoreUnavailable [] c)
  else if negb (bool_decide (startError a = [])) then (false, startRefused a r c)
  else (true, noteStartedId (profileId r) c).

(** One step of a start worker, [None] while it is blocked: the worker
    afterwards, gone once it has posted its end. *)
Definition starterStep (a : StartAnswer) (w : Starter) c : option (option Starter * Conn S) :=
  let r := swRequest w in
  let to p := Some (MkStarter r (swTun w) (swSwitching w) p) in
  match swPhase w with
  | WBegin =>
      match m_running c with
      | Some _ => Some (Some (MkStarter r (swTun w) true WStop), c <| m_switchingProfile := true |>)
      | None => Some (to WStage2, c)
      end
  | WStop =>
      let c := bumpGeoToken c in
      match m_running c with
      | None => Some (to WWait, post PCancelResume c)
      | Some id => Some (to (WStopTry id), c)
      end
  | WStopTry id => Some (to WWait, stopTry false id (MkStop false false true (interactive r) 0 false) c)
  | WWait => if mu_stopping c then None else Some (to WHold, c <| mu_stopping := true |>)
  | WHold => Some (to WStage2, (c <| mu_stopping := false |>) <| m_switchingProfile := false |>)
  | WStage2 =>
      let '(started, c) := startStage2 a r c in
      Some (to (if started then WPublish (exitIsEndpoint a) else WUnlock false), c)
  | WPublish endpoint =>
      let c := setRunning (Some (profileId r)) (swTun w) c in
      let c := if spmode_system_proxy (prefs c) then applySystemProxy true c else c in
      Some (to (WUnlock true), post (PStarted r endpoint) c)
  | WUnlock started => Some (to (WFinal started), c <| mu_starting := false |>)
  | WFinal started => Some (None, post (PConnected started (swSwitching w)) c)
  end.

(** The [i]-th start worker's step; the worker is out of the list while it runs. *)
Definition stepStarter (i : nat) (a : StartAnswer) c : Conn S :=
  match starters c !! i with
  | None => c
  | Some w =>
      let before := take i (starters c) in
      let after_ := drop (Datatypes.S i) (starters c) in
      match starterStep a w (c <| starters := before ++ after_ |>) with
      | None => c
      | Some (w', c') => c' <| starters := before ++ option_list w' ++ after_ |>
      end
  end.

(** The [tryLock] of the [i]-th stop on another thread. *)
Definition stepStopCall (i : nat) c : Conn S :=
  match stopCalls c !! i with
  | None => c
  | Some (id, o) =>
      stopTry false id o (c <| stopCalls := take i (stopCalls c) ++ drop (Datatypes.S i) (stopCalls c) |>)
  end.

(** A worker's step leaves the list of workers alone. *)
Lemma starterStep_starters a w c w' c' :
  starterStep a w c = Some (w', c') -> starters c' = starters c.
Proof.
  unfold starterStep. destruct (swPhase w).
  - destruct (m_running c); by intros [= _ <-].
  - destruct (m_running _); by intros [= _ <-].
  - intros [= _ <-]. unfold stopTry. by destruct (mu_stopping c).
  - destruct (mu_stopping c); by intros [= _ <-].
  - by intros [= _ <-].
  - unfold startStage2, startRefused. destruct (extraCoreRefused a); [|destruct (negb (startRpcOK a)); [|destruct (negb _)]].
    all: cbn [fst snd]; case_ifs; by intros [= _ <-].
  - case_ifs; by intros [= _ <-].
  - by intros [= _ <-].
  - by intros [= _ <-].
Qed.
End Start.

#[global] Arguments starterStep {S _ _} options a w c.
