(* ===== verification/ConnectionModes.v ===== *)
(** * ConnectionModes: Tun, system proxy, route and kill switch

    src/engine/connection/ConnectionModes.cpp.  A mode change is a handler of the
    main thread; where it starts the profile or asks for privileges in a modal
    dialog, the rest of it waits in [todo]. *)

From S2P Require Import Prelude Text EngineTypes AutoSelectorController ConnectionState ConnectionStart.

Definition kConnectionModesTunBlockedCacheMs : Z := 5000.

Section Modes.
Context {S : Type} `{Supervisor S} (options : Options).
Implicit Types (c : Conn S) (e : Env) (change : ModeChange).

(** ** Privileges *)

(** Why Tun fails whatever is granted; empty when nothing does. *)
Definition connectionModesTunCapsBlocker (canElevate : bool) e : qstring :=
  match knownCapabilities e with
  | None => []
  | Some caps =>
      let lacksDevice := bool_decide (capTunDevice caps = Some false) in
      let lacksAdmin := bool_decide (capNetAdmin caps = Some false) in
      if negb lacksDevice && negb lacksAdmin then []
      else if canElevate && negb (capPrivileged caps) then []
      else if negb (bool_decide (capDetail caps = [])) then capDetail caps
      else if lacksDevice then u "the core cannot open /dev/net/tun" else u "the core lacks CAP_NET_ADMIN"
  end.

Definition tunPrivileged e : bool :=
  if onWindows options then isAdmin e
  else match knownAdmin e with
       | Some known => known
       | None => blockingPrivilegeCheck options && isAdmin e
       end.

(** The answer of [ensureTunPrivileges], [None] when the user is asked. *)
Definition ensureTunPrivileges (interactive : bool) e c : option bool * Conn S :=
  if disable_privilege_req (prefs c) then (Some true, c)
  else
    let blocker := connectionModesTunCapsBlocker interactive e in
    if negb (bool_decide (blocker = [])) then
      (Some false,
       if interactive && negb (headless options) then emit (Policy (TunNotice blocker)) c else c)
    else if tunPrivileged e then (Some true, c)
    else if negb interactive then (Some false, c)
    else (None, c).

(** ** Who else owns Tun *)

Definition tunBlockedReason e c : qstring * Conn S :=
  if spmode_vpn (prefs c) || m_runningTun c then ([], c)
  else if bool_decide (connectionState c = Connecting) || bool_decide (connectionState c = Stopping) then ([], c)
  else
    let dnsProbePort := match m_running c with Some _ => 0 | None => core_dns_in_port (prefs c) end in
    let key := Some (vpn_tun_ipv4_cidr (prefs c), dnsProbePort) in
    if negb (m_tunBlockedAtMs c =? 0) && bool_decide (key = m_tunBlockedKey c) &&
       (now e - m_tunBlockedAtMs c <? kConnectionModesTunBlockedCacheMs) then (m_tunBlockedCache c, c)
    else
      let reason :=
        if headless options then tunConflict e (vpn_tun_ipv4_cidr (prefs c)) dnsProbePort
        else match otherHeadless e with
             | Some pid => u "A background Throne (PID " ++ number 10 pid ++
                           u ") owns Tun on this computer; stop it or use thronectl."
             | None => []
             end in
      (reason, ((c <| m_tunBlockedCache := reason |>) <| m_tunBlockedKey := key |>)
                 <| m_tunBlockedAtMs := Z.max (now e) 1 |>).

Definition tunRestoreHoldReason e c : qstring * Conn S :=
  let '(why, c) := tunBlockedReason e c in
  if negb (bool_decide (why = [])) then (why, c)
  else
    let why := connectionModesTunCapsBlocker false e in
    if negb (bool_decide (why = [])) then (why, c)
    else (u "the core lacks the privileges Tun needs", c).

(** ** Mode changes *)

Definition restartRequest (change : ModeChange) (id : Z) : StartRequest :=
  MkRequest id (changeInteractive change) (restartSerial change).

Definition setSystemProxy (enable : bool) change c : Conn S :=
  if negb (systemProxy options) then (if enable then emit StatusChanged c else c)
  else if enable && disable_mixed_inbound (prefs c) then
    emit StatusChanged (if changeInteractive change then emit (Policy SystemProxyNeedsMixedInbound) c else c)
  else
    let c := setPrefs (fun p => p <| spmode_system_proxy := enable |>) c in
    let c := next [TSetSystemProxyRest enable change] c in
    match m_running c with
    | None => c
    | Some id =>
        let c := applySystemProxy enable c in
        if negb enable && reset_proxy_on_disable_sp (prefs c) && restart change
        then askStart (restartRequest change id) c else c
    end.

Definition setSystemProxyRest (enable : bool) change c : Conn S :=
  let c := if save change then setPrefs (fun p => p <| remember_system_proxy := enable |>) c else c in
  emit StatusChanged c.

(** Up to the privilege check. *)
Definition setTun (enable : bool) change e c : Conn S :=
  let c :=
    if negb enable && m_tunRestoreHeld c then
      let c := c <| m_tunRestoreHeld := false |> in
      let c := if save change then setPrefs (fun p => p <| remember_tun := false |>) c else c in
      emit StatusChanged c
    else c in
  if Bool.eqb enable (spmode_vpn (prefs c)) then c
  else if negb enable then next [TSetTunRest enable change] c
  else
    let '(reason, c) := tunBlockedReason e c in
    if negb (bool_decide (reason = [])) then
      emit StatusChanged (if negb (headless options) then emit (Policy (TunNotice reason)) c else c)
    else next [TSetTunPrivileges enable change] c.

(** The check, after the capabilities were refreshed; the user is asked in a
    dialog that holds the rest of the handler. *)
Definition setTunPrivileges (enable : bool) change e c : Conn S :=
  if tunPrivileged e && bool_decide (connectionModesTunCapsBlocker true e = []) then next [TSetTunRest enable change] c
  else
    match ensureTunPrivileges (changeInteractive change) e c with
    | (Some true, c) => next [TSetTunRest enable change] c
    | (Some false, c) => emit StatusChanged c
    | (None, c) => (c <| dialogs := dialogs c ++ [(RequestCorePrivileges enable change, todo c)] |>) <| todo := [] |>
    end.

Definition setTunRest (enable : bool) change c : Conn S :=
  let c := (c <| m_tunRestoreHeld := false |>) <| m_tunBlockedAtMs := 0 |> in
  let c := if save change then setPrefs (fun p => p <| remember_tun := enable |>) c else c in
  let c := emit StatusChanged (setPrefs (fun p => p <| spmode_vpn := enable |>) c) in
  if negb (restart change) || (startedId (sup c) <? 0) then c
  else askStart (restartRequest change (startedId (sup c))) c.

(** [groupOf]: the group of the running profile. *)
Definition chooseRoute (routeId : Z) (interactive : bool) (serial : Z) (groupOf : Z -> Z) e c : Conn S :=
  if current_route_id (prefs c) =? routeId then c
  else
    let c := setPrefs (fun p => p <| current_route_id := routeId |>) c in
    if startedId (sup c) <? 0 then c
    else
      match m_running c with
      | Some id =>
          if (0 <=? runningRouteId e) && (routeIdFor e (groupOf id) =? runningRouteId e) then c
          else askStart (MkRequest (startedId (sup c)) interactive serial) c
      | None => askStart (MkRequest (startedId (sup c)) interactive serial) c
      end.

(** ** The kill switch *)

Definition disableKillSwitch c : Conn S :=
  emit KillSwitchApplied (setPrefs (fun p => p <| kill_switch := false |>) c).

(** The request a guard restart carries over: one already waiting for the core,
    or a new one for what was to start. *)
Definition guardRequest c : StartRequest * Conn S :=
  if awaitingCoreStarted (sup c) && (0 <=? startWhenUp (sup c)) then
    if 0 <=? profileId (m_coreStartRequest c)
    then (m_coreStartRequest c, c <| m_coreStartRequest := noRequest |>)
    else let r := requestFor (startWhenUp (sup c)) in (r, ask r c)
  else
    let r := requestFor (startedId (sup c)) in
    (r, if 0 <=? profileId r then ask r c else c).

Definition onKillSwitchStateChanged e c : Conn S :=
  let failed := bool_decide (ksState e = KsFailed) in
  let armed := bool_decide (ksState e = KsArmed) in
  let enteredFailed := failed && negb (m_killSwitchWasFailed c) in
  let enteredArmed := armed && negb (m_killSwitchWasArmed c) in
  let c := (c <| m_killSwitchWasFailed := failed |>) <| m_killSwitchWasArmed := armed |> in
  let c := emit StatusChanged c in
  let c := if negb failed then emit (Policy KillSwitchProblemResolved) c else c in
  let c := if enteredFailed then emit (Policy KillSwitchProblem) c else c in
  if enteredArmed && negb (guardRestartPending (now e) c) &&
     runningWithoutGuardIdentity (guardIdentity e) (sup c) then
    let '(r, c) := guardRequest c in restartCoreForGuard (now e) r c
  else c.

(** ** Pending restarts *)

Definition noteRestartNeeded (reason : RestartReason) c : Conn S :=
  if (startedId (sup c) <? 0) || bool_decide (reason ∈ m_restartReasons c) then c
  else emit ReasonsChanged (c <| m_restartReasons := m_restartReasons c ++ [reason] |>).

Definition restartPending c : bool := negb (bool_decide (m_restartReasons c = [])).
End Modes.
