(* ===== verification/ConnectionManager.v ===== *)
(** * ConnectionManager: the events of the manager

    src/engine/connection/ConnectionManager.cpp: the slots of the core supervisor
    ([onCoreStarted], [onCoreGaveUp]), the posted callbacks, and the machine they
    form with the threads: [apply] runs one event, [reachable] is what any
    interleaving leads to.  The main thread takes an event only between handlers
    ([todo] empty); workers step at any time. *)

From S2P Require Import Prelude Text EngineTypes AutoSelectorController ConnectionState ConnectionStart ConnectionModes.

Section Manager.
Context {S : Type} `{Supervisor S} `{QtText} (options : Options).
Implicit Types (c : Conn S) (e : Env) (r : StartRequest).

(** ** The core's slots *)

Definition setBootStart r c : Conn S :=
  let c := if 0 <=? profileId r then ask r c else c in
  deferStartToCore r (c <| m_bootSerial := serial r |>).

Definition onCoreStarted (id : Z) e c : Conn S :=
  let c := c <| m_guardCoreRestart := None |> in
  let c := if ksFailedForPrivileges e then emit KillSwitchApplied c else c in
  next [TCoreStartedModes id; TStatus] c.

(** The remembered modes. *)
Definition coreStartedModes (id : Z) c : Conn S :=
  let p := prefs c in
  if headless options then
    let wantTun := remember_tun p || flag_restart_tun_on p in
    if wantTun then next [TSetTun true (MkChange false false false 0); TCoreStartedTun id true] c
    else next [TCoreStartedTun id false] c
  else
    let c := next [TCoreStartedGuiTun id] c in
    if remember_enable p && remember_system_proxy p
    then next [TSetSystemProxy true (MkChange false true true 0)] c else c.

Definition coreStartedGuiTun (id : Z) c : Conn S :=
  let p := prefs c in
  let c := next [TCoreStartedRest id []] c in
  if (remember_enable p && remember_tun p) || flag_restart_tun_on p
  then next [TSetTun true (MkChange (flag_restart_tun_on p) true true 0); TClearTunFlag] c else c.

Definition coreStartedTun (id : Z) (wantTun : bool) e c : Conn S :=
  let c := if wantTun then setPrefs (fun p => p <| flag_restart_tun_on := false |>) c else c in
  let c := c <| m_tunRestoreHeld := tunRequired options && wantTun && negb (spmode_vpn (prefs c)) |> in
  if m_tunRestoreHeld c then
    let '(why, c) := tunRestoreHoldReason options e c in next [TCoreStartedRest id why] c
  else next [TCoreStartedRest id []] c.

(** The start the core came up for. *)
Definition coreStartedRest (id : Z) (why : qstring) c : Conn S :=
  let r := m_coreStartRequest c in
  let bootSerial := m_bootSerial c in
  let c := (c <| m_coreStartRequest := noRequest |>) <| m_bootSerial := 0 |> in
  let c := if (0 <=? profileId r) && negb (profileId r =? id) then finished r Superseded [] c else c in
  if id <? 0 then c
  else
    let '(r, c) := if profileId r =? id then (r, c) else (requestFor id, ask (requestFor id) c) in
    if m_tunRestoreHeld c && negb (serial r =? 0) && (serial r =? bootSerial) then
      finished r TunFailed
        (u "Tun could not be restored (" ++ why ++ u "); the profile was not started without it.") c
    else next [TStart r] c.

Definition onCoreGaveUp (reason : qstring) c : Conn S :=
  let r := m_coreStartRequest c in
  let c := (c <| m_guardCoreRestart := None |>) <| m_coreStartRequest := noRequest |> in
  if 0 <=? profileId r then finished r CoreUnavailable reason c else c.

(** ** Other callers *)

Definition restartStartedProfile (interactive : bool) (restartSerial : Z) c : bool * Conn S :=
  if startedId (sup c) <? 0 then (false, c)
  else (true, askStart (MkRequest (startedId (sup c)) interactive restartSerial) c).

Definition applyPendingRestart c : Conn S :=
  let id := startedId (sup c) in
  let c := clearRestartNeeded c in
  if 0 <=? id then askStart (requestFor id) c else c.

Definition retryAfterGeoFetch (id token : Z) c : Conn S :=
  if negb (token =? m_geoRetryToken c) then c
  else
    let previous := m_geoRetriedProfile c in
    let c := c <| m_geoRetriedProfile := id |> in
    if previous =? id then c
    else if prepareExit (sup c) || negb (bool_decide (connectionState c = Idle)) || negb (m_lastProfileId c =? id)
    then c
    else askStart (MkRequest id false 0) c.

Definition retryLeftover (id : Z) c : Conn S :=
  if prepareExit (sup c) || negb (bool_decide (connectionState c = Idle)) then c
  else askStart (requestFor id) c.

Definition usable (e : Env) (id : Z) : bool :=
  (0 <=? id) &&
  match profileOf e id with
  | Some view => negb (viewDisabled view) && bool_decide (viewGroup view = Some false)
  | None => false
  end.

Definition resolveLastProfile e c : Z :=
  default (-1) (head (filter (fun id => usable e id = true) [startedId (sup c); m_lastProfileId c; remember_id (prefs c)])).

Definition nextStartSerial c : Z * Conn S :=
  let serial := u64 (m_startSerial c + 1) in (serial, c <| m_startSerial := serial |>).

(** ** Callbacks of the auto selector *)

(** [startRanked]. *)
Definition startRanked (id : Z) r c : Conn S :=
  next [TStart r; TUnrank] (c <| ranker := (ranker c) <| rankedFor := id |> |>).

Definition runResume (id : Z) (resume : Resume) c : Conn S :=
  match resume with
  | ResumeStart r => startRanked id r c
  | ResumeRebuild profileID =>
      if bool_decide (m_running c = Some profileID)
      then startRanked profileID (requestFor profileID) (ask (requestFor profileID) c) else c
  end.

Definition rankDone (id : Z) (resume : Resume) (early : bool) c : Conn S :=
  let c := c <| ranker := (ranker c) <| rankingInFlight := rankingInFlight (ranker c) - 1 |> |> in
  if early then c <| ranker := finishEarlySweep id (bool_decide (connectionState c = Connecting)) (ranker c) |>
  else next [TResume id resume] c.

Definition reranked (id : Z) (changed : bool) c : Conn S :=
  if negb changed || negb (bool_decide (connectionState c = Running)) || negb (bool_decide (m_running c = Some id)) then c
  else startRanked id (requestFor id) (ask (requestFor id) c).

(** ** The main thread *)

Definition openDialog (d : Dialog) c : Conn S :=
  (c <| dialogs := dialogs c ++ [(d, todo c)] |>) <| todo := [] |>.

Definition startedCallback r (endpoint : bool) c : Conn S :=
  let id := profileId r in
  let c := (c <| m_geoRetriedProfile := -1 |>) <| countryInfo := delete id (countryInfo c) |> in
  let c := emit VpnRunStarted (clearRestartNeeded c) in
  let c := finished r Started [] (emit (RowsChanged [id]) (emit StatusChanged c)) in
  if endpoint then c
  else if exitCountryLookup options && exit_country_lookup (prefs c) then c <| lookups := lookups c ++ [id] |> else c.

Definition connectedCallback (started switching : bool) c : Conn S :=
  let c := emit BusyChanged (syncState (c <| m_profileConnecting := false |>)) in
  if started then emit (Marker (if switching then MarkSwitched else MarkStarted)) c
  else if switching then emit (Marker MarkStopped) c else c.

(** A posted callback. *)
Definition runPost (p : Post) e c : Conn S :=
  match p with
  | PFinish r outcome error => finished r outcome error c
  | PStarted r endpoint => startedCallback r endpoint c
  | PConnected started switching => connectedCallback started switching c
  | PDisconnecting => noteDisconnecting c
  | PCancelResume => c <| sup := cancelResume (sup c) |>
  | PTeardown =>
      match stopper c with
      | Some w => c <| stopper := Some (MkStopper (stopId w) (stopOptions w) SArmed) |>
      | None => c
      end
  | PPolicy call => emit (Policy call) c
  | PExtraCore =>
      emit (Policy (if bool_decide (ksState e = KsFailed) then KillSwitchProblem else ExtraCoreNotPermitted)) c
  | POfferRetry id => openDialog (OfferLeftoverRetry id) c
  | POfferReset => openDialog OfferCoreReset c
  | PResume id resume => next [TResume id resume] c
  | PRankDone id resume early => rankDone id resume early c
  | PReranked id changed => reranked id changed c
  | PExitCountry id text =>
      if bool_decide (m_running c = Some id) then emit StatusChanged (c <| countryInfo := <[id := text]> (countryInfo c) |>)
      else c
  end.

(** The next section of the handler the main thread is in. *)
Definition runTodo (t : Todo) e c : Conn S :=
  match t with
  | TStart r => start e r c
  | TStartRest r tun => startRest r tun c
  | TStop o => stopOnMain o c
  | TStopTry id o => stopTry true id o c
  | TUnrank => c <| ranker := (ranker c) <| rankedFor := -1 |> |>
  | TResume id resume => runResume id resume c
  | TDeferred => startDeferred c
  | TKillSwitchChanged => onKillSwitchStateChanged e c
  | TCoreStartedModes id => coreStartedModes id c
  | TCoreStartedGuiTun id => coreStartedGuiTun id c
  | TCoreStartedTun id wantTun => coreStartedTun id wantTun e c
  | TClearTunFlag => setPrefs (fun p => p <| flag_restart_tun_on := false |>) c
  | TCoreStartedRest id why => coreStartedRest id why c
  | TSetSystemProxy enable change => setSystemProxy options enable change c
  | TSetSystemProxyRest enable change => setSystemProxyRest enable change c
  | TSetTun enable change => setTun options enable change e c
  | TSetTunPrivileges enable change => setTunPrivileges options enable change e c
  | TSetTunRest enable change => setTunRest enable change c
  | TRetryLeftover id => retryLeftover id c
  | TResetCore => c <| sup := (resetCore (sup c)).2 |>
  | TStatus => emit StatusChanged c
  end.

(** What the answer of a dialog continues with. *)
Definition answered (d : Dialog) (yes : bool) : list Todo :=
  match d with
  | OfferLeftoverRetry id => if yes then [TRetryLeftover id] else []
  | OfferCoreReset => if yes then [TResetCore] else []
  | RequestCorePrivileges enable change => [if yes then TSetTunRest enable change else TStatus]
  end.

Definition answerDialog (i : nat) (yes : bool) c : Conn S :=
  match dialogs c !! i with
  | None => c
  | Some (d, rest) => next (answered d yes ++ rest) (c <| dialogs := take i (dialogs c) ++ drop (Datatypes.S i) (dialogs c) |>)
  end.

(** ** Threads *)

(** A ranking thread posts its early start, once, and ends: RankSweep. *)
Definition rankEarly (i : nat) c : Conn S :=
  match rankJobs (ranker c) !! i with
  | Some (MkRankJob id resume false) =>
      let jobs := <[i := MkRankJob id resume true]> (rankJobs (ranker c)) in
      post (PResume id resume) (c <| ranker := (ranker c) <| rankJobs := jobs |> |>)
  | _ => c
  end.

Definition rankEnd (i : nat) c : Conn S :=
  match rankJobs (ranker c) !! i with
  | None => c
  | Some (MkRankJob id resume early) =>
      let jobs := take i (rankJobs (ranker c)) ++ drop (Datatypes.S i) (rankJobs (ranker c)) in
      post (PRankDone id resume early) (c <| ranker := (ranker c) <| rankJobs := jobs |> |>)
  end.

Definition rerankEnd (i : nat) (changed : bool) c : Conn S :=
  match reranking (ranker c) !! i with
  | None => c
  | Some id =>
      let l := take i (reranking (ranker c)) ++ drop (Datatypes.S i) (reranking (ranker c)) in
      post (PReranked id changed) (c <| ranker := (ranker c) <| reranking := l |> |>)
  end.

(** [lookupExitCountry]: the answer, if any. *)
Definition lookupEnd (i : nat) (text : option qstring) c : Conn S :=
  match lookups c !! i with
  | None => c
  | Some id =>
      let c := c <| lookups := take i (lookups c) ++ drop (Datatypes.S i) (lookups c) |> in
      match text with Some text => post (PExitCountry id text) c | None => c end
  end.

Definition geoInstalled (i : nat) c : Conn S :=
  match geoWaits c !! i with
  | None => c
  | Some (id, token) =>
      retryAfterGeoFetch id token (c <| geoWaits := take i (geoWaits c) ++ drop (Datatypes.S i) (geoWaits c) |>)
  end.

(** ** The machine *)

(** What starts a handler of the main thread. *)
Inductive MainEvent :=
  | EvStart (request : StartRequest)
  | EvStop (options : StopOptions)
  | EvRestartStarted (interactive : bool) (serial : Z)
  | EvApplyPendingRestart
  | EvBootStart (request : StartRequest)
  | EvCoreStarted (profileId : Z)
  | EvCoreGaveUp (reason : qstring)
  | EvGeoInstalled (i : nat)
  | EvSetSystemProxy (enable : bool) (change : ModeChange)
  | EvSetTun (enable : bool) (change : ModeChange)
  | EvChooseRoute (routeId : Z) (interactive : bool) (serial : Z) (groupOf : Z -> Z)
  | EvDisableKillSwitch
  | EvNoteRestart (reason : RestartReason)
  | EvClearRestart
  | EvPoolExhausted (profileID : Z) (exists_ : bool)
  | EvAnswer (i : nat) (yes : bool)
  | EvPost
  | EvTimer.

Inductive Event :=
  | Main (ev : MainEvent)
  | Continue
  | KillSwitchChanged
  | KillSwitchSettled
  | ThStarter (i : nat) (a : StartAnswer)
  | ThStopper (a : StopAnswer)
  | ThStop (o : StopOptions)
  | ThStopTry (i : nat)
  | ThRankEarly (i : nat)
  | ThRankEnd (i : nat)
  | ThRerank (i : nat) (changed : bool)
  | ThLookup (i : nat) (text : option qstring)
  | ThProxy
  | Other (s : S) (p : Settings).

Definition mainEvent (ev : MainEvent) e c : Conn S :=
  match ev with
  | EvStart r => askStart r c
  | EvStop o => next [TStop o] c
  | EvRestartStarted interactive serial => (restartStartedProfile interactive serial c).2
  | EvApplyPendingRestart => applyPendingRestart c
  | EvBootStart r => setBootStart r c
  | EvCoreStarted id => onCoreStarted id e c
  | EvCoreGaveUp reason => onCoreGaveUp reason c
  | EvGeoInstalled i => geoInstalled i c
  | EvSetSystemProxy enable change => next [TSetSystemProxy enable change] c
  | EvSetTun enable change => next [TSetTun enable change] c
  | EvChooseRoute routeId interactive serial groupOf => chooseRoute routeId interactive serial groupOf e c
  | EvDisableKillSwitch => disableKillSwitch c
  | EvNoteRestart reason => noteRestartNeeded reason c
  | EvClearRestart => clearRestartNeeded c
  | EvPoolExhausted id exists_ => c <| ranker := onPoolExhausted id exists_ (m_running c) (ranker c) |>
  | EvAnswer i yes => answerDialog i yes c
  | EvPost => match posts c with p :: ps => runPost p e (c <| posts := ps |>) | [] => c end
  | EvTimer => teardown c
  end.

(** The kill switch reports between handlers, or from within the [apply] of
    [onCoreStarted]. *)
Definition killSwitchMayReport c : bool :=
  match todo c with [] | TCoreStartedModes _ :: _ => true | _ => false end.

Definition apply (e : Env) (ev : Event) c : Conn S :=
  match ev with
  | Main ev => if bool_decide (todo c = []) then mainEvent ev e c else c
  | Continue => match todo c with t :: ts => runTodo t e (c <| todo := ts |>) | [] => c end
  | KillSwitchChanged => if killSwitchMayReport c then next [TKillSwitchChanged] c else c
  | KillSwitchSettled =>
      if killSwitchMayReport c then next (replicate (ksWaiters c) TDeferred) (c <| ksWaiters := O |>) else c
  | ThStarter i a => stepStarter options i a c
  | ThStopper a => stopperStep a c
  | ThStop o => stopElsewhere o c
  | ThStopTry i => stepStopCall i c
  | ThRankEarly i => rankEarly i c
  | ThRankEnd i => rankEnd i c
  | ThRerank i changed => rerankEnd i changed c
  | ThLookup i text => lookupEnd i text c
  | ThProxy => runProxyJob c
  | Other s p => (c <| sup := s |>) <| prefs := p |>
  end.

Definition run (evs : list (Env * Event)) c : Conn S := fold_left (fun c ev => apply ev.1 ev.2 c) evs c.

(** As constructed, with the settings as loaded. *)
Definition newManager (s : S) (p : Settings) : Conn S :=
  MkConn s None false (remember_id p) false false Idle 0 noRequest noRequest None false false [] false false false
    false [] None 0 0 (-1) 0 p idleRanker [] [] [] None [] [] O [] [] [] false ∅ [] [].

Definition reachable c : Prop := exists s p evs, c = run evs (newManager s p).

Lemma reachable_ind (P : Conn S -> Prop) :
  (forall s p, P (newManager s p)) ->
  (forall e ev c, reachable c -> P c -> P (apply e ev c)) ->
  forall c, reachable c -> P c.
Proof.
  intros Hnew Hs c (s & p & evs & ->). induction evs as [|[e ev] evs IH] using rev_ind; [apply Hnew|].
  unfold run. rewrite fold_left_app. cbn. apply Hs; [|exact IH]. by exists s, p, evs.
Qed.

Lemma reachable_apply e ev c : reachable c -> reachable (apply e ev c).
Proof. intros (s & p & evs & ->). exists s, p, (evs ++ [(e, ev)]). unfold run. by rewrite fold_left_app. Qed.

Lemma reachable_run evs c : reachable c -> reachable (run evs c).
Proof. revert c. induction evs as [|[e ev] evs IH]; intros c Hr; [done|]. cbn. by apply IH, reachable_apply. Qed.
End Manager.
