(* ===== verification/ConnectionLedger.v ===== *)
(** * ConnectionLedger: every start request is answered exactly once

    Wherever a request waits (a handler, a dialog, the kill switch, the core, a
    ranking sweep, a start worker, a posted callback), one [startFinished] is still
    owed for it.  [Owes x c]: what was asked is what was answered, what is owed in
    [c] and [x], the requests the code at hand is responsible for; each operation
    has a rule that says which of them it settles or passes on. *)

From S2P Require Import Prelude Text EngineTypes AutoSelectorController ConnectionState ConnectionStart ConnectionModes ConnectionManager.

(** How a request is told from others in [startFinished]. *)
Definition key (r : StartRequest) : Z * Z := (serial r, profileId r).

Definition finishedKeys (xs : list Signal) : list (Z * Z) :=
  omap (fun x => match x with StartFinished serial id _ _ => Some (serial, id) | _ => None end) xs.

Definition pending (r : StartRequest) : list StartRequest := if 0 <=? profileId r then [r] else [].

Definition resumeOwes (resume : Resume) : list StartRequest :=
  match resume with ResumeStart r => [r] | ResumeRebuild _ => [] end.

Definition todoOwes (t : Todo) : list StartRequest :=
  match t with TStart r | TStartRest r _ => [r] | TResume _ resume => resumeOwes resume | _ => [] end.

Definition starterOwes (w : Starter) : list StartRequest :=
  match swPhase w with WUnlock _ | WFinal _ => [] | _ => [swRequest w] end.

Definition postOwes (p : Post) : list StartRequest :=
  match p with
  | PFinish r _ _ | PStarted r _ => [r]
  | PResume _ resume | PRankDone _ resume false => resumeOwes resume
  | _ => []
  end.

Definition jobOwes (j : RankJob) : list StartRequest := if postedEarly j then [] else resumeOwes (rankResume j).

(** The requests that wait for something else than the manager's own work. *)
Definition waitingOutside {S} (c : Conn S) : list StartRequest :=
  pending (m_killSwitchDeferredStart c) ++ pending (m_coreStartRequest c).

Definition owed {S} (c : Conn S) : list StartRequest :=
  waitingOutside c ++ (todo c ≫= todoOwes) ++ (dialogs c ≫= fun d => d.2 ≫= todoOwes) ++
  (starters c ≫= starterOwes) ++ (posts c ≫= postOwes) ++ (rankJobs (ranker c) ≫= jobOwes).

(** ** Counting *)

Definition countKey (k : Z * Z) (l : list StartRequest) : nat := count_occ (fun x y => decide (x = y)) (map key l) k.

Lemma countKey_app k a b : countKey k (a ++ b) = (countKey k a + countKey k b)%nat.
Proof. unfold countKey. by rewrite map_app, count_occ_app. Qed.

Lemma countKey_cons k r l : countKey k (r :: l) = (countKey k [r] + countKey k l)%nat.
Proof. apply (countKey_app k [r] l). Qed.

Lemma countKey_nil k : countKey k [] = 0%nat.
Proof. done. Qed.

Definition countFinished (k : Z * Z) (xs : list Signal) : nat :=
  count_occ (fun x y => decide (x = y)) (finishedKeys xs) k.

Lemma countFinished_app k xs ys : countFinished k (xs ++ ys) = (countFinished k xs + countFinished k ys)%nat.
Proof. unfold countFinished, finishedKeys. by rewrite omap_app, count_occ_app. Qed.

Lemma countFinished_finished k r o err :
  countFinished k [StartFinished (serial r) (profileId r) o err] = countKey k [r].
Proof. done. Qed.

#[global] Arguments countKey : simpl never.
#[global] Arguments countFinished : simpl never.

Create Rewrite HintDb ledger.

#[export] Hint Rewrite countKey_app countFinished_app @bind_app @bind_cons countKey_nil app_nil_r
  Nat.add_0_r : ledger.

(** The rest of a start is only ever that of a real profile. *)
Definition todoSane (t : Todo) : Prop :=
  match t with TStartRest r _ => 0 <= profileId r | _ => True end.

Definition Sane {S} (c : Conn S) : Prop :=
  Forall todoSane (todo c) /\ Forall (fun d => Forall todoSane d.2) (dialogs c).

Definition Owes {S} (x : list StartRequest) (c : Conn S) : Prop :=
  (forall k, countKey k (asked c) =
             (countFinished k (signals c) + countKey k x + countKey k (owed c))%nat) /\ Sane c.

(** Splits a count into the counts of its parts. *)
Ltac split_counts :=
  autorewrite with ledger in *;
  repeat match goal with
  | |- context [countKey ?k (?r :: ?x)] => lazymatch x with [] => fail | _ => rewrite (countKey_cons k r x) end
  | H : context [countKey ?k (?r :: ?x)] |- _ =>
      lazymatch x with [] => fail | _ => rewrite (countKey_cons k r x) in H end
  | |- context [countFinished ?k [StartFinished (serial ?r) (profileId ?r) ?o ?err]] =>
      rewrite (countFinished_finished k r o err)
  | |- context [countFinished ?k [?x]] => change (countFinished k [x]) with 0%nat
  end.

(** Counts both sides of a rule; [tac] rewrites what waits. *)
Tactic Notation "ledger" "using" tactic3(tac) :=
  let k := fresh "k" in let Hs := fresh "Hs" in
  match goal with
  | Ho : Owes _ _ |- _ => destruct Ho as [Ho Hs]; split; [intros k; specialize (Ho k)|try exact Hs; try done]
  end;
  [unfold owed, waitingOutside in *; cbn in *; split_counts; cbn in *; split_counts; tac; rewrite ?countKey_nil in *; lia|..].

Tactic Notation "ledger" := ledger using idtac.

Section Ledger.
Context {S : Type} `{Supervisor S} `{QtText} (options : Options).
Implicit Types (c : Conn S) (e : Env) (r : StartRequest) (x : list StartRequest).

Lemma Owes_finished r o err x c : Owes (r :: x) c -> Owes x (finished r o err c).
Proof. intros Ho. unfold finished, emit. ledger. Qed.

Lemma Owes_ask r x c : Owes x c -> Owes (r :: x) (ask r c).
Proof. intros Ho. unfold ask. ledger. Qed.

Lemma Owes_next ts x c : Forall todoSane ts -> Owes ((ts ≫= todoOwes) ++ x) c -> Owes x (next ts c).
Proof.
  intros Hts Ho. unfold next. ledger. destruct Hs as [Hs Hd]. split; [|done]. by apply Forall_app.
Qed.

Lemma Owes_post p x c : Owes (postOwes p ++ x) c -> Owes x (post p c).
Proof. intros Ho. unfold post. ledger. Qed.

(** An emitted signal that answers nothing. *)
Lemma Owes_emit y x c : finishedKeys [y] = [] -> Owes x c -> Owes x (emit y c).
Proof.
  intros Hy Ho. unfold emit. assert (Hc : forall k, countFinished k [y] = 0%nat) by (intros k; unfold countFinished; by rewrite Hy).
  ledger using (rewrite ?Hc).
Qed.

Lemma Owes_askStart r x c : Owes x c -> Owes x (askStart r c).
Proof. intros Ho. apply Owes_next; [repeat constructor|]. cbn. by apply Owes_ask. Qed.

(** ** Operations that answer nothing and pass nothing on *)

Lemma Owes_syncState x c : Owes x c -> Owes x (syncState c).
Proof.
  intros Ho. unfold syncState. case_bool_decide; [done|]. unfold stateSettled.
  case_bool_decide; unfold emit; ledger.
Qed.

(** The ranker may change as long as its threads owe the same. *)
Lemma Owes_ranker k x c : rankJobs k = rankJobs (ranker c) -> Owes x c -> Owes x (c <| ranker := k |>).
Proof. intros Hk Ho. ledger using (rewrite Hk). Qed.

Lemma Owes_clearRestartNeeded x c : Owes x c -> Owes x (clearRestartNeeded c).
Proof. intros Ho. unfold clearRestartNeeded. case_bool_decide; [done|]. by apply Owes_emit. Qed.
End Ledger.

Create HintDb owes.

#[export] Hint Resolve Owes_finished Owes_ask Owes_askStart Owes_syncState Owes_clearRestartNeeded : owes.

(** Drops the update of a field that [P] does not read. *)
Ltac apply_frame P f v c :=
  let Hf := fresh in
  assert (Hf : forall v0 c0, P c0 -> P (set_field f v0 c0)) by (clear; intros ? ? Hf; exact Hf);
  apply (Hf v c); clear Hf.

(** Applies the rules along the code: a field no request waits in is dropped, a
    branch is split, a known operation is undone. *)
Ltac owes :=
  repeat match goal with
  | H : Owes ?x ?c |- Owes ?x ?c => exact H
  | |- Owes _ (match ?b with _ => _ end) => destruct b eqn:?
  | |- Owes _ (let '(_, _) := ?p in _) => destruct p eqn:?
  | |- ?P (set_field ?f ?v ?c) => apply_frame P f v c
  | |- Owes _ (emit (StartFinished _ _ _ _) _) => fail
  | |- Owes _ (emit _ _) => apply Owes_emit; [reflexivity|]
  | |- Owes _ (setPrefs _ _) => unfold setPrefs
  | |- Owes _ (applySystemProxy _ _) => unfold applySystemProxy
  | |- Owes _ (setRunning _ _ _) => unfold setRunning
  | |- Owes _ (bumpGeoToken _) => unfold bumpGeoToken
  | |- Owes _ (noteStartedId _ _) => unfold noteStartedId
  | |- Owes _ (next _ _) => apply Owes_next; [repeat (constructor; try done)|cbn [mbind list_bind todoOwes resumeOwes app]]
  | |- Owes _ (post _ _) => apply Owes_post; cbn [postOwes resumeOwes app]
  | _ => solve [eauto 2 with owes]
  | _ => progress eauto 1 with owes
  | |- Owes _ (finished _ _ _ _) => apply Owes_finished
  | |- Owes _ (syncState _) => apply Owes_syncState
  | |- Owes _ (clearRestartNeeded _) => apply Owes_clearRestartNeeded
  | |- Owes (_ :: _) (ask _ _) => apply Owes_ask
  | |- Owes _ (askStart _ _) => apply Owes_askStart
  end.

Section Operations.
Context {S : Type} `{Supervisor S} `{QtText} (options : Options).
Implicit Types (c : Conn S) (e : Env) (r : StartRequest) (x : list StartRequest).

(** ** Requests that wait *)

Lemma Owes_failStart r o err x c : Owes (r :: x) c -> Owes x (failStart r o err c).
Proof. intros Ho. unfold failStart. owes. Qed.

Lemma pending_nonneg r : 0 <= profileId r -> pending r = [r].
Proof. intros Hr. unfold pending. by rewrite (proj2 (Z.leb_le _ _) Hr). Qed.

Lemma pending_neg r : profileId r < 0 -> pending r = [].
Proof. intros Hr. unfold pending. by destruct (Z.leb_spec 0 (profileId r)); [lia|]. Qed.

(** Taking the request that waits for the core. *)
Lemma Owes_takeCore x c r : pending r = [] ->
  Owes x c -> Owes (pending (m_coreStartRequest c) ++ x) (c <| m_coreStartRequest := r |>).
Proof. intros Hr Ho. ledger using (rewrite Hr). Qed.

Lemma Owes_putCore r x c : pending (m_coreStartRequest c) = [] ->
  Owes (pending r ++ x) c -> Owes x (c <| m_coreStartRequest := r |>).
Proof.
  intros Hr Ho. ledger using (rewrite Hr in Ho).
Qed.

Lemma Owes_deferStartToCore r x c : Owes (pending r ++ x) c -> Owes x (deferStartToCore r c).
Proof.
  intros Ho. unfold deferStartToCore.
  destruct (Z.leb_spec 0 (profileId (m_coreStartRequest c))) as [Hc|Hc].
  - unfold finished, emit. ledger using (rewrite (pending_nonneg (m_coreStartRequest c)) in Ho by done).
  - apply Owes_putCore; [|done]. by apply pending_neg.
Qed.

Lemma Owes_restartCoreForGuard now r x c :
  0 <= profileId r -> Owes (r :: x) c -> Owes x (restartCoreForGuard now r c).
Proof.
  intros Hr Ho. unfold restartCoreForGuard. destruct (setStartWhenUp (profileId r) (sup c)) as [[] s]; cbn [negb].
  - assert (Hd : Owes x (deferStartToCore r (c <| sup := s |>)))
      by (apply Owes_deferStartToCore; by rewrite pending_nonneg).
    owes.
  - owes.
Qed.

(** With a core, a request without a profile waits for nothing. *)
Lemma Owes_restartCoreWithCore now r x c :
  (setStartWhenUp (profileId r) (sup c)).1 = true -> Owes (pending r ++ x) c -> Owes x (restartCoreForGuard now r c).
Proof.
  intros Hc Ho. unfold restartCoreForGuard. destruct (setStartWhenUp (profileId r) (sup c)) as [b s]; cbn in Hc; subst b.
  cbn [negb]. assert (Hd : Owes x (deferStartToCore r (c <| sup := s |>))) by by apply Owes_deferStartToCore. owes.
Qed.

Lemma Owes_deferToKillSwitch r x c : 0 <= profileId r -> Owes (r :: x) c -> Owes x (deferToKillSwitch r c).
Proof.
  intros Hr Ho. unfold deferToKillSwitch. destruct (Z.leb_spec 0 (profileId (m_killSwitchDeferredStart c))) as [Hc|Hc].
  - unfold finished, emit.
    ledger using (rewrite (pending_nonneg (m_killSwitchDeferredStart c)), (pending_nonneg r) in * by done).
  - ledger using (rewrite (pending_neg (m_killSwitchDeferredStart c)), (pending_nonneg r) in * by done).
Qed.

Lemma Owes_startDeferred x c : Owes x c -> Owes x (startDeferred c).
Proof.
  intros Ho. unfold startDeferred. destruct (Z.leb_spec 0 (profileId (m_killSwitchDeferredStart c))) as [Hc|Hc].
  - apply Owes_next; [repeat constructor|]. cbn [mbind list_bind todoOwes app].
    ledger using (rewrite (pending_nonneg (m_killSwitchDeferredStart c)) in * by done).
  - ledger using (rewrite (pending_neg (m_killSwitchDeferredStart c)) in * by done).
Qed.

(** ** [start] *)

Lemma Owes_startLocked r tun x c : 0 <= profileId r -> Owes (r :: x) c -> Owes x (startLocked r tun c).
Proof.
  intros Hr Ho. unfold startLocked. destruct (mu_starting c); [by apply Owes_failStart|].
  destruct (mu_stopping c); [by apply Owes_failStart|]. apply Owes_next; [by repeat constructor|]. exact Ho.
Qed.

Lemma Owes_launchRank id r x c :
  Owes (r :: x) c -> Owes x (c <| ranker := launchRank id (ResumeStart r) ((ranker c) <| rankedFor := -1 |>) |>).
Proof.
  intros Ho. unfold launchRank.
  ledger.
Qed.

Lemma Owes_startChecked e r view x c : 0 <= profileId r -> Owes (r :: x) c -> Owes x (startChecked e r view c).
Proof.
  intros Hr Ho. unfold startChecked. case_bool_decide; [by apply Owes_deferToKillSwitch|].
  destruct (negb (allowsStart _)); [owes|]. destruct (_ || _); [by apply Owes_restartCoreForGuard|].
  unfold rankBeforeStart. destruct (_ || _ || _); cbn [negb].
  - destruct (negb (bool_decide _)); [by apply Owes_failStart|by apply Owes_startLocked].
  - destruct (viewNeedsRanking view); cbn [negb]; [by apply Owes_launchRank|].
    destruct (negb (bool_decide _)); [by apply Owes_failStart|by apply Owes_startLocked].
Qed.

Lemma Owes_start e r x c : Owes (r :: x) c -> Owes x (start e r c).
Proof.
  intros Ho. unfold start. destruct (prepareExit _); [owes|]. destruct (Z.leb_spec 0 (profileId r)) as [Hr|]; [|owes].
  destruct (profileOf e (profileId r)) as [view|]; [|owes]. destruct (viewDisabled view); [owes|].
  destruct (negb _); [owes|]. apply Owes_startChecked; [done|owes].
Qed.

Lemma Owes_startRest r tun x c : 0 <= profileId r -> Owes (r :: x) c -> Owes x (startRest r tun c).
Proof.
  intros Hr Ho. unfold startRest.
  assert (Hd : forall c', Owes (r :: x) c' -> Owes x (deferStartToCore r c'))
    by (intros c' Ho'; apply Owes_deferStartToCore; by rewrite pending_nonneg).
  destruct (awaitingCoreStarted _); [apply (Hd (c <| mu_stopping := false |>)); exact Ho|].
  destruct (negb (coreIsRunning _)).
  - destruct (negb (canStartCore _)); [by apply Owes_failStart|]. apply (Hd (c <| mu_stopping := false |>)); exact Ho.
  - assert (Ho' : Owes (r :: x) (emit BusyChanged (syncState ((c <| mu_stopping := false |>) <| m_profileConnecting := true |>))))
      by (apply Owes_emit; [done|]; by apply Owes_syncState).
    set (c' := emit _ _) in *. clearbody c'. clear Ho. ledger.
Qed.

(** ** [stop] *)

Lemma Owes_noteDisconnecting x c : Owes x c -> Owes x (noteDisconnecting c).
Proof. intros Ho. unfold noteDisconnecting. owes. Qed.

Lemma Owes_stopTry onMain id o x c : Owes x c -> Owes x (stopTry onMain id o c).
Proof.
  intros Ho. unfold stopTry. destruct (mu_stopping c); [done|]. destruct onMain.
  - assert (Owes x (noteDisconnecting (c <| mu_stopping := true |>))) by by apply Owes_noteDisconnecting. owes.
  - owes.
Qed.

Lemma Owes_stopOnMain o x c : Owes x c -> Owes x (stopOnMain o c).
Proof. intros Ho. unfold stopOnMain, stopToken. owes. Qed.

Lemma Owes_stopElsewhere o x c : Owes x c -> Owes x (stopElsewhere o c).
Proof. intros Ho. unfold stopElsewhere, stopToken. owes. Qed.

Lemma Owes_stopStage2 a o x c : Owes x c -> Owes x (stopStage2 a o c).
Proof. intros Ho. unfold stopStage2. owes. Qed.

Lemma Owes_stopperStep a x c : Owes x c -> Owes x (stopperStep a c).
Proof.
  intros Ho. unfold stopperStep. destruct (stopper c) as [[id o []]|]; cbn [stopPhase stopOptions]; try done; [|owes].
  pose proof (Owes_stopStage2 a o x c Ho). owes.
Qed.

Lemma Owes_teardown x c : Owes x c -> Owes x (teardown c).
Proof. intros Ho. unfold teardown. owes. Qed.

(** ** The start worker *)

Lemma Owes_startRefused a r x c : Owes (r :: x) c -> Owes x (startRefused options a r c).
Proof. intros Ho. unfold startRefused, postFinish. owes. Qed.

Lemma Owes_startStage2 a r x c started c' :
  startStage2 options a r c = (started, c') -> Owes (r :: x) c -> Owes ((if started then [r] else []) ++ x) c'.
Proof.
  intros E Ho. unfold startStage2, postFinish in E.
  destruct (extraCoreRefused a); [|destruct (negb (startRpcOK a)); [|destruct (negb (bool_decide (startError a = [])))]];
    injection E as <- <-; cbn [app]; [owes|owes|by apply Owes_startRefused|owes].
Qed.

Lemma Owes_starterStep a w x c w' c' :
  starterStep options a w c = Some (w', c') -> Owes (starterOwes w ++ x) c ->
  Owes ((option_list w' ≫= starterOwes) ++ x) c'.
Proof.
  destruct w as [r tun switching p]. unfold starterStep, starterOwes. cbn [swRequest swTun swSwitching swPhase].
  intros E Ho. destruct p; revert E.
  - destruct (m_running c); intros [= <- <-]; cbn; owes.
  - destruct (m_running _); intros [= <- <-]; cbn; owes.
  - intros [= <- <-]. cbn. by apply Owes_stopTry.
  - destruct (mu_stopping c); intros [= <- <-]; cbn; owes.
  - intros [= <- <-]. cbn. owes.
  - destruct (startStage2 options a r c) as [started c2] eqn:E2. intros [= <- <-].
    apply (Owes_startStage2 a r x) in E2; [|done]. by destruct started.
  - intros [= <- <-]. cbn [option_list mbind list_bind starterOwes swPhase app]. owes.
  - intros [= <- <-]. cbn. owes.
  - intros [= <- <-]. cbn. owes.
Qed.

(** A worker taken out of its list. *)
Lemma take_drop_bind {A B} (f : A -> list B) (l : list A) i a :
  l !! i = Some a -> l ≫= f ≡ₚ f a ++ ((take i l ++ drop (Datatypes.S i) l) ≫= f).
Proof.
  intros Hl. rewrite <- (take_drop_middle l i a Hl) at 1. rewrite !bind_app, bind_cons.
  rewrite !app_assoc. f_equiv. apply Permutation_app_comm.
Qed.

Lemma countKey_Permutation k a b : a ≡ₚ b -> countKey k a = countKey k b.
Proof. intros Hp. unfold countKey. apply Permutation_count_occ. by apply Permutation_map. Qed.

Lemma countKey_take_drop {A} (f : A -> list StartRequest) k (l : list A) i a :
  l !! i = Some a ->
  countKey k (l ≫= f) = (countKey k (f a) + countKey k (take i l ≫= f) + countKey k (drop (Datatypes.S i) l ≫= f))%nat.
Proof. intros Hl. rewrite (countKey_Permutation k _ _ (take_drop_bind f l i a Hl)). split_counts. lia. Qed.

Lemma Owes_stepStarter i a x c : Owes x c -> Owes x (stepStarter options i a c).
Proof.
  intros Ho. unfold stepStarter. destruct (starters c !! i) as [w|] eqn:Ew; [|done].
  destruct (starterStep _ _ _ _) as [[w' c']|] eqn:Es; [|done].
  assert (Hst : starters c' = take i (starters c) ++ drop (Datatypes.S i) (starters c)).
  { by apply starterStep_starters in Es. }
  apply (Owes_starterStep a w x) in Es.
  - clear Ho. ledger using (rewrite Hst in *; split_counts).
  - ledger using (rewrite (countKey_take_drop _ k _ _ _ Ew) in Ho).
Qed.

(** ** Modes *)

Lemma Owes_tunBlockedReason e x c reason c' :
  tunBlockedReason options e c = (reason, c') -> Owes x c -> Owes x c'.
Proof.
  intros E Ho. unfold tunBlockedReason in E.
  destruct (_ || _); [by injection E as _ <-|]. destruct (_ || _); [by injection E as _ <-|].
  destruct (_ && _); injection E as _ <-; owes.
Qed.

Lemma Owes_tunRestoreHoldReason e x c why c' :
  tunRestoreHoldReason options e c = (why, c') -> Owes x c -> Owes x c'.
Proof.
  intros E Ho. unfold tunRestoreHoldReason in E. destruct (tunBlockedReason options e c) as [why1 c1] eqn:E1.
  apply (Owes_tunBlockedReason e x) in E1; [|done].
  destruct (negb _); [by injection E as _ <-|]. destruct (negb _); by injection E as _ <-.
Qed.

Lemma Owes_setSystemProxy enable change x c : Owes x c -> Owes x (setSystemProxy options enable change c).
Proof. intros Ho. unfold setSystemProxy. owes. Qed.

Lemma Owes_setSystemProxyRest enable change x c : Owes x c -> Owes x (setSystemProxyRest enable change c).
Proof. intros Ho. unfold setSystemProxyRest. owes. Qed.

Lemma Owes_setTun enable change e x c : Owes x c -> Owes x (setTun options enable change e c).
Proof.
  intros Ho. unfold setTun. cbv zeta. set (c1 := if negb enable && m_tunRestoreHeld c then _ else c).
  assert (H1 : Owes x c1) by (unfold c1; owes). clearbody c1.
  destruct (Bool.eqb _ _); [done|]. destruct (negb enable); [owes|].
  destruct (tunBlockedReason options e c1) as [reason c2] eqn:E2.
  apply (Owes_tunBlockedReason e x) in E2; [|done]. owes.
Qed.

(** A dialog holds the rest of the handler. *)
Lemma Owes_openDialog d x c : Owes x c -> Owes x (openDialog d c).
Proof.
  intros Ho. unfold openDialog. ledger. destruct Hs as [Ht Hd]. split; [done|].
  cbn. apply Forall_app. split; [done|by repeat constructor].
Qed.

Lemma Owes_setTunPrivileges enable change e x c : Owes x c -> Owes x (setTunPrivileges options enable change e c).
Proof.
  intros Ho. unfold setTunPrivileges. destruct (_ && _); [owes|]. unfold ensureTunPrivileges.
  destruct (disable_privilege_req _); [owes|]. destruct (negb (bool_decide _)); [owes|].
  destruct (tunPrivileged _ _); [owes|]. destruct (negb _); [owes|]. by apply (Owes_openDialog (RequestCorePrivileges enable change)).
Qed.

Lemma Owes_setTunRest enable change x c : Owes x c -> Owes x (setTunRest enable change c).
Proof. intros Ho. unfold setTunRest. owes. Qed.

Lemma Owes_chooseRoute routeId i n groupOf e x c : Owes x c -> Owes x (chooseRoute routeId i n groupOf e c).
Proof. intros Ho. unfold chooseRoute. owes. Qed.

Lemma Owes_guardRequest x c r c' :
  guardRequest c = (r, c') -> Owes x c -> Owes (pending r ++ x) c' /\ sup c' = sup c.
Proof.
  intros E Ho. unfold guardRequest in E. destruct (awaitingCoreStarted _ && _) eqn:Ea.
  - apply andb_true_iff in Ea as [_ Ha%Z.leb_le]. destruct (Z.leb_spec 0 (profileId (m_coreStartRequest c))) as [Hr|Hr].
    + injection E as <- <-. split; [|done]. by apply Owes_takeCore.
    + injection E as <- <-. split; [|done]. rewrite pending_nonneg by done. by apply Owes_ask.
  - cbn in E. destruct (Z.leb_spec 0 (startedId (sup c))) as [Hr|Hr]; injection E as <- <-; (split; [|done]).
    + rewrite pending_nonneg by done. by apply Owes_ask.
    + by rewrite pending_neg.
Qed.

Lemma Owes_onKillSwitchStateChanged `{!SupervisorLaws S} e x c : Owes x c -> Owes x (onKillSwitchStateChanged e c).
Proof.
  intros Ho. unfold onKillSwitchStateChanged. cbv zeta.
  set (c1 := if bool_decide (ksState e = KsFailed) && _ then _ else _).
  assert (H1 : Owes x c1) by (unfold c1; owes).
  clearbody c1. destruct (_ && _ && _) eqn:Eb; [|done].
  apply andb_true_iff in Eb as [_ Eb]. destruct (guardRequest c1) as [r c2] eqn:E2.
  apply (Owes_guardRequest x) in E2 as [H2 Hs]; [|done]. apply Owes_restartCoreWithCore; [|done].
  rewrite Hs. by eapply guardless_core.
Qed.


(** ** The manager's handlers *)

Lemma Owes_setBootStart r x c : Owes x c -> Owes x (setBootStart r c).
Proof.
  intros Ho. unfold setBootStart. apply Owes_deferStartToCore. destruct (Z.leb_spec 0 (profileId r)) as [Hr|Hr].
  - rewrite pending_nonneg by done. assert (Owes (r :: x) (ask r c)) by by apply Owes_ask. owes.
  - rewrite pending_neg by done. owes.
Qed.

Lemma Owes_onCoreStarted id e x c : Owes x c -> Owes x (onCoreStarted id e c).
Proof. intros Ho. unfold onCoreStarted. owes. Qed.

Lemma Owes_coreStartedModes id x c : Owes x c -> Owes x (coreStartedModes options id c).
Proof. intros Ho. unfold coreStartedModes. owes. Qed.

Lemma Owes_coreStartedGuiTun id x c : Owes x c -> Owes x (coreStartedGuiTun id c).
Proof. intros Ho. unfold coreStartedGuiTun. owes. Qed.

Lemma Owes_coreStartedTun id wantTun e x c : Owes x c -> Owes x (coreStartedTun options id wantTun e c).
Proof.
  intros Ho. unfold coreStartedTun. cbv zeta.
  set (c1 := (if wantTun then _ else c) <| m_tunRestoreHeld := _ |>).
  assert (H1 : Owes x c1) by (unfold c1; owes). clearbody c1. destruct (m_tunRestoreHeld c1); [|owes].
  destruct (tunRestoreHoldReason options e c1) as [why c2] eqn:E2.
  apply (Owes_tunRestoreHoldReason e x) in E2; [|done]. owes.
Qed.

Lemma Owes_coreStartedRest id why x c : Owes x c -> Owes x (coreStartedRest id why c).
Proof.
  intros Ho. unfold coreStartedRest. cbv zeta. set (r := m_coreStartRequest c).
  assert (H1 : Owes (pending r ++ x) ((c <| m_coreStartRequest := noRequest |>) <| m_bootSerial := 0 |>))
    by (pose proof (Owes_takeCore x c noRequest eq_refl Ho); owes).
  set (c1 := _ <| m_bootSerial := 0 |>) in *. clearbody c1. clearbody r. clear Ho.
  destruct (Z.leb_spec 0 (profileId r)) as [Hr|Hr]; cbn [andb].
  - rewrite pending_nonneg in H1 by done. destruct (Z.eqb_spec (profileId r) id) as [<-|]; cbn [negb].
    + destruct (Z.ltb_spec (profileId r) 0); [lia|]. destruct (_ && _ && _); owes.
    + destruct (id <? 0); [owes|]. set (c2 := finished _ _ _ _).
      assert (H2 : Owes x c2) by by apply Owes_finished. clearbody c2.
      assert (H3 : Owes (requestFor id :: x) (ask (requestFor id) c2)) by by apply Owes_ask.
      destruct (_ && _ && _); owes.
  - rewrite pending_neg in H1 by done. destruct (Z.ltb_spec id 0); [done|].
    destruct (Z.eqb_spec (profileId r) id); [lia|].
    assert (H3 : Owes (requestFor id :: x) (ask (requestFor id) c1)) by by apply Owes_ask.
    destruct (_ && _ && _); owes.
Qed.

Lemma Owes_onCoreGaveUp reason x c : Owes x c -> Owes x (onCoreGaveUp reason c).
Proof.
  intros Ho. unfold onCoreGaveUp. cbv zeta. set (c0 := c <| m_guardCoreRestart := None |>).
  assert (H0' : Owes x c0) by (unfold c0; owes). change (m_coreStartRequest c) with (m_coreStartRequest c0).
  pose proof (Owes_takeCore x c0 noRequest eq_refl H0') as H1. set (r := m_coreStartRequest c0) in *.
  set (c1 := c0 <| m_coreStartRequest := noRequest |>) in *. clearbody c1 r. clear Ho H0'.
  destruct (Z.leb_spec 0 (profileId r)) as [Hr|Hr].
  - rewrite pending_nonneg in H1 by done. owes.
  - by rewrite pending_neg in H1.
Qed.

Lemma Owes_applyPendingRestart x c : Owes x c -> Owes x (applyPendingRestart c).
Proof. intros Ho. unfold applyPendingRestart. owes. Qed.

Lemma Owes_restartStartedProfile i n x c : Owes x c -> Owes x (restartStartedProfile i n c).2.
Proof. intros Ho. unfold restartStartedProfile. destruct (startedId _ <? 0); cbn [snd]; owes. Qed.

Lemma Owes_retryAfterGeoFetch id token x c : Owes x c -> Owes x (retryAfterGeoFetch id token c).
Proof. intros Ho. unfold retryAfterGeoFetch. owes. Qed.

Lemma Owes_retryLeftover id x c : Owes x c -> Owes x (retryLeftover id c).
Proof. intros Ho. unfold retryLeftover. owes. Qed.

(** ** Callbacks *)

Lemma Owes_startRanked id r x c : Owes (r :: x) c -> Owes x (startRanked id r c).
Proof.
  intros Ho. unfold startRanked. apply Owes_next; [by repeat constructor|]. cbn [mbind list_bind todoOwes app].
  by apply Owes_ranker.
Qed.

Lemma Owes_runResume id resume x c : Owes (resumeOwes resume ++ x) c -> Owes x (runResume id resume c).
Proof.
  intros Ho. unfold runResume. destruct resume; cbn [resumeOwes app] in Ho; [by apply Owes_startRanked|].
  case_bool_decide; [|done]. apply Owes_startRanked. by apply Owes_ask.
Qed.


Lemma Owes_rankDone id resume early x c :
  Owes (postOwes (PRankDone id resume early) ++ x) c -> Owes x (rankDone id resume early c).
Proof.
  intros Ho. unfold rankDone. cbv zeta. set (c1 := c <| ranker := _ |>).
  assert (H1 : Owes (postOwes (PRankDone id resume early) ++ x) c1) by by apply Owes_ranker.
  clearbody c1. clear Ho. destruct early; cbn [postOwes app] in H1.
  - apply Owes_ranker; [|done]. unfold finishEarlySweep. by destruct (bool_decide _).
  - apply Owes_next; [by repeat constructor|]. by cbn; rewrite app_nil_r.
Qed.

Lemma Owes_reranked id changed x c : Owes x c -> Owes x (reranked id changed c).
Proof.
  intros Ho. unfold reranked. destruct (_ || _); [done|]. apply Owes_startRanked. by apply Owes_ask.
Qed.

Lemma Owes_startedCallback r endpoint x c : Owes (r :: x) c -> Owes x (startedCallback options r endpoint c).
Proof. intros Ho. unfold startedCallback. owes. Qed.

Lemma Owes_connectedCallback started switching x c : Owes x c -> Owes x (connectedCallback started switching c).
Proof. intros Ho. unfold connectedCallback. owes. Qed.

Lemma Owes_runPost p e x c : Owes (postOwes p ++ x) c -> Owes x (runPost options p e c).
Proof.
  intros Ho. destruct p; cbn [runPost]; try (cbn [postOwes app] in Ho; owes; fail).
  - cbn [postOwes app] in Ho. by apply Owes_startedCallback.
  - by apply Owes_connectedCallback.
  - by apply Owes_noteDisconnecting.
  - by apply Owes_openDialog.
  - by apply Owes_openDialog.
  - apply Owes_next; [by repeat constructor|]. by cbn; rewrite app_nil_r.
  - by apply Owes_rankDone.
  - by apply Owes_reranked.
Qed.

Lemma Owes_runTodo `{!SupervisorLaws S} t e x c :
  todoSane t -> Owes (todoOwes t ++ x) c -> Owes x (runTodo options t e c).
Proof.
  intros Ht Ho. destruct t; cbn [runTodo]; try (cbn [todoOwes app] in Ho; owes; fail).
  - by apply Owes_start.
  - by apply Owes_startRest.
  - by apply Owes_stopOnMain.
  - by apply Owes_stopTry.
  - by apply Owes_runResume.
  - by apply Owes_startDeferred.
  - by apply Owes_onKillSwitchStateChanged.
  - by apply Owes_coreStartedModes.
  - by apply Owes_coreStartedGuiTun.
  - by apply Owes_coreStartedTun.
  - by apply Owes_coreStartedRest.
  - by apply Owes_setSystemProxy.
  - by apply Owes_setSystemProxyRest.
  - by apply Owes_setTun.
  - by apply Owes_setTunPrivileges.
  - by apply Owes_setTunRest.
  - by apply Owes_retryLeftover.
Qed.

(** ** Taking from the queues *)

Lemma Owes_popTodo t ts x c : todo c = t :: ts -> Owes x c -> Owes (todoOwes t ++ x) (c <| todo := ts |>) /\ todoSane t.
Proof.
  intros Ht Ho. split.
  - ledger using (rewrite Ht in Ho; split_counts). destruct Hs as [Hs Hd]. rewrite Ht in Hs. split; [|done].
    by apply Forall_cons in Hs as [_ Hs].
  - destruct Ho as [_ [Hs _]]. rewrite Ht in Hs. by apply Forall_cons in Hs as [Hs _].
Qed.

Lemma Owes_popPost p ps x c : posts c = p :: ps -> Owes x c -> Owes (postOwes p ++ x) (c <| posts := ps |>).
Proof. intros Hp Ho. ledger using (rewrite Hp in Ho; split_counts). Qed.

Lemma Owes_answerDialog i yes x c : Owes x c -> Owes x (answerDialog i yes c).
Proof.
  intros Ho. unfold answerDialog. destruct (dialogs c !! i) as [[d rest]|] eqn:Ed; [|done].
  assert (Hrest : Forall todoSane rest).
  { destruct Ho as [_ [_ Hd]]. by apply (Forall_lookup_1 _ _ _ _ Hd) in Ed. }
  apply Owes_next.
  - apply Forall_app. split; [|done]. destruct d, yes; by repeat constructor.
  - assert (Hd : Forall (fun d => Forall todoSane d.2) (take i (dialogs c) ++ drop (Datatypes.S i) (dialogs c))).
    { destruct Ho as [_ [_ Hd]]. apply Forall_app. split; [by apply Forall_take|by apply Forall_drop]. }
    destruct d, yes; ledger using (rewrite (countKey_take_drop _ k _ _ _ Ed) in Ho; cbn [snd] in *; split_counts);
      by split; [apply Hs|].
Qed.

Lemma Owes_rankEarly i x c : Owes x c -> Owes x (rankEarly i c).
Proof.
  intros Ho. unfold rankEarly. destruct (rankJobs (ranker c) !! i) as [[id resume []]|] eqn:Ej; try done.
  apply Owes_post. cbn [postOwes]. destruct Ho as [Ho Hs]. split; [|done]. intros k. specialize (Ho k).
  unfold owed, waitingOutside in *. cbn. split_counts.
  rewrite (countKey_take_drop jobOwes k _ _ _ Ej) in Ho. cbn in Ho.
  rewrite (countKey_take_drop jobOwes k _ i (MkRankJob id resume true))
    by (apply list_lookup_insert_eq; by eapply lookup_lt_Some).
  rewrite take_insert_ge, drop_insert_lt by lia. cbn. split_counts. lia.
Qed.

Lemma Owes_rankEnd i x c : Owes x c -> Owes x (rankEnd i c).
Proof.
  intros Ho. unfold rankEnd. destruct (rankJobs (ranker c) !! i) as [[id resume early]|] eqn:Ej; [|done].
  apply Owes_post. ledger using (rewrite (countKey_take_drop jobOwes k _ _ _ Ej) in Ho; destruct early; cbn in *; split_counts).
Qed.


Lemma Owes_mainEvent ev e x c : Owes x c -> Owes x (mainEvent options ev e c).
Proof.
  intros Ho. destruct ev; cbn [mainEvent]; try (owes; fail).
  - by apply Owes_restartStartedProfile.
  - by apply Owes_applyPendingRestart.
  - by apply Owes_setBootStart.
  - by apply Owes_onCoreStarted.
  - by apply Owes_onCoreGaveUp.
  - unfold geoInstalled. destruct (geoWaits c !! i) as [[id token]|]; [|done].
    apply Owes_retryAfterGeoFetch. owes.
  - by apply Owes_chooseRoute.
  - unfold disableKillSwitch. owes.
  - unfold noteRestartNeeded. owes.
  - unfold onPoolExhausted, launchRank. destruct (_ || _); [by apply Owes_ranker|]. ledger.
  - by apply Owes_answerDialog.
  - destruct (posts c) as [|p ps] eqn:Ep; [done|]. by apply Owes_runPost, Owes_popPost.
  - by apply Owes_teardown.
Qed.

Lemma Owes_apply `{!SupervisorLaws S} e ev x c : Owes x c -> Owes x (apply options e ev c).
Proof.
  intros Ho. destruct ev; cbn [apply].
  - case_bool_decide; [|done]. by apply Owes_mainEvent.
  - destruct (todo c) as [|t ts] eqn:Et; [done|]. apply (Owes_popTodo t ts x) in Et as [Hp Hs]; [|done].
    by apply Owes_runTodo.
  - destruct (killSwitchMayReport c); owes.
  - destruct (killSwitchMayReport c); [|done]. apply Owes_next; [by apply Forall_replicate|].
    assert (Hr : replicate (ksWaiters c) TDeferred ≫= todoOwes = []) by (by induction (ksWaiters c)).
    rewrite Hr. cbn [app]. owes.
  - by apply Owes_stepStarter.
  - by apply Owes_stopperStep.
  - by apply Owes_stopElsewhere.
  - unfold stepStopCall. destruct (stopCalls c !! i) as [[id o]|]; [|done]. apply Owes_stopTry. owes.
  - by apply Owes_rankEarly.
  - by apply Owes_rankEnd.
  - unfold rerankEnd. destruct (reranking (ranker c) !! i); [|done]. apply Owes_post. cbn [postOwes app]. by apply Owes_ranker.
  - unfold lookupEnd. destruct (lookups c !! i); [|done]. owes.
  - unfold runProxyJob. destruct (proxyJobs c); owes.
  - owes.
Qed.

Lemma reachable_owes `{!SupervisorLaws S} c : reachable options c -> Owes [] c.
Proof.
  apply reachable_ind; [|by intros; apply Owes_apply].
  intros s p. split; [done|]. split; constructor.
Qed.

(** C1: Every start request is answered exactly once: however events of the
    main thread, start and stop workers, ranking sweeps, dialogs, the kill switch
    and the core interleave, the requests made are those [startFinished] was
    emitted for and those still owed an answer, each as often as it was made. *)
Theorem starts_answered_once `{!SupervisorLaws S} c :
  reachable options c -> map key (asked c) ≡ₚ finishedKeys (signals c) ++ map key (owed c).
Proof.
  intros [Ho _]%reachable_owes. apply (Permutation_count_occ (fun x y : Z * Z => decide (x = y))). intros k.
  specialize (Ho k). rewrite count_occ_app. unfold countKey, countFinished in Ho. cbn in Ho. lia.
Qed.

End Operations.
