(* ===== verification/ConnectionCarry.v ===== *)
(** * ConnectionCarry: what most handlers leave alone

    An invariant about the locks, the workers and the connection state looks at
    few fields.  [Carried P] says that [P] only looks at those and survives
    queueing what is neither the rest of a start nor one of the callbacks of a run;
    the handlers that do no more are carried for every such [P]. *)

From S2P Require Import Prelude Text EngineTypes AutoSelectorController ConnectionState ConnectionStart ConnectionModes ConnectionManager.

Definition isRest (t : Todo) : bool := match t with TStartRest _ _ => true | _ => false end.

(** The callbacks of a run: its end, a stop's beginning and its teardown. *)
Definition isRunPost (p : Post) : bool :=
  match p with PConnected _ _ | PDisconnecting | PTeardown => true | _ => false end.

(** The fields such an invariant looks at. *)
Definition same {S} (c c' : Conn S) : Prop :=
  todo c' = todo c /\ dialogs c' = dialogs c /\ starters c' = starters c /\ stopper c' = stopper c /\
  posts c' = posts c /\ mu_starting c' = mu_starting c /\ mu_stopping c' = mu_stopping c /\
  m_switchingProfile c' = m_switchingProfile c /\ m_profileConnecting c' = m_profileConnecting c /\
  m_profileDisconnecting c' = m_profileDisconnecting c /\ m_lastConnectionState c' = m_lastConnectionState c /\
  m_running c' = m_running c.

Section Same.
Context {S : Type} `{Supervisor S}.
Implicit Types (c : Conn S).

Lemma same_emit y c : same c (emit y c).
Proof. repeat split. Qed.

Lemma same_finished r o err c : same c (finished r o err c).
Proof. repeat split. Qed.

Lemma same_ask r c : same c (ask r c).
Proof. repeat split. Qed.

Lemma same_setPrefs f c : same c (setPrefs f c).
Proof. repeat split. Qed.

Lemma same_bumpGeoToken c : same c (bumpGeoToken c).
Proof. repeat split. Qed.

Lemma same_noteStartedId i c : same c (noteStartedId i c).
Proof. repeat split. Qed.

Lemma same_applySystemProxy b c : same c (applySystemProxy b c).
Proof. repeat split. Qed.
End Same.

Class Carried {S} (P : Conn S -> Prop) : Prop := {
  carry_same c c' : same c c' -> P c -> P c';
  carry_next ts c : Forall (fun t => isRest t = false) ts -> P c -> P (next ts c);
  carry_post p c : isRunPost p = false -> P c -> P (post p c);
  carry_sync c : P c -> P (syncState c);
  carry_openDialog d c : P c -> P (openDialog d c);
  carry_answerDialog i yes c : P c -> P (answerDialog i yes c);
  carry_popTodo t ts c : todo c = t :: ts -> isRest t = false -> P c -> P (c <| todo := ts |>);
  carry_popPost p ps c : posts c = p :: ps -> isRunPost p = false -> P c -> P (c <| posts := ps |>) }.

(** Follows the code to the operations of the class. *)
Ltac carry :=
  repeat match goal with
  | H : ?P ?c |- ?P ?c => exact H
  | |- _ (match ?b with _ => _ end) => destruct b eqn:?
  | |- ?P (set_field ?f ?v ?c) =>
      apply (carry_same c);
      [let Hf := fresh in
       assert (Hf : forall v0 c0, same c0 (set_field f v0 c0)) by (clear; intros; repeat split); apply Hf|]
  | |- ?P (emit ?y ?c) => apply (carry_same c); [apply same_emit|]
  | |- ?P (finished ?r ?o ?e ?c) => apply (carry_same c); [apply same_finished|]
  | |- ?P (ask ?r ?c) => apply (carry_same c); [apply same_ask|]
  | |- ?P (setPrefs ?f ?c) => apply (carry_same c); [apply same_setPrefs|]
  | |- ?P (bumpGeoToken ?c) => apply (carry_same c); [apply same_bumpGeoToken|]
  | |- ?P (noteStartedId ?i ?c) => apply (carry_same c); [apply same_noteStartedId|]
  | |- ?P (applySystemProxy ?b ?c) => apply (carry_same c); [apply same_applySystemProxy|]
  | |- ?P (next ?ts ?c) => apply carry_next; [by repeat constructor|]
  | |- ?P (askStart ?r ?c) => unfold askStart
  | |- ?P (post ?p ?c) => apply carry_post; [reflexivity|]
  | |- ?P (syncState ?c) => apply carry_sync
  | |- ?P (openDialog ?d ?c) => apply carry_openDialog
  end.

Section Carry.
Context {S : Type} `{Supervisor S} `{QtText} (options : Options).
Context (P : Conn S -> Prop) `{!Carried P}.
Implicit Types (c : Conn S) (e : Env) (r : StartRequest).

Lemma carry_clearRestartNeeded c : P c -> P (clearRestartNeeded c).
Proof. intros Hc. unfold clearRestartNeeded. carry. Qed.

Lemma carry_failStart r o err c : P c -> P (failStart r o err c).
Proof. intros Hc. unfold failStart. carry. Qed.

Lemma carry_deferStartToCore r c : P c -> P (deferStartToCore r c).
Proof. intros Hc. unfold deferStartToCore. carry. Qed.

Lemma carry_restartCoreForGuard now r c : P c -> P (restartCoreForGuard now r c).
Proof.
  intros Hc. unfold restartCoreForGuard. destruct (setStartWhenUp _ _) as [[] s]; cbn [negb]; [|carry].
  assert (Hd : P (deferStartToCore r (c <| sup := s |>))) by (apply carry_deferStartToCore; carry). carry.
Qed.

Lemma carry_deferToKillSwitch r c : P c -> P (deferToKillSwitch r c).
Proof. intros Hc. unfold deferToKillSwitch. carry. Qed.

Lemma carry_startDeferred c : P c -> P (startDeferred c).
Proof. intros Hc. unfold startDeferred. carry. Qed.

(** A start, given what its locks establish. *)
Lemma carry_start (Q : Conn S -> Prop) e r c :
  (forall c', P c' -> Q c') -> (forall tun c', P c' -> Q (startLocked r tun c')) -> P c -> Q (start e r c).
Proof.
  intros Hq Hl Hc. unfold start. destruct (prepareExit _); [apply Hq; carry|]. destruct (0 <=? profileId r); [|apply Hq; carry].
  destruct (profileOf e (profileId r)) as [view|]; [|apply Hq; carry]. destruct (viewDisabled view); [apply Hq; carry|].
  destruct (negb _); [apply Hq; carry|]. unfold startChecked. case_bool_decide; [apply Hq, carry_deferToKillSwitch; carry|].
  destruct (negb (allowsStart _)); [apply Hq; carry|]. destruct (_ || _); [apply Hq, carry_restartCoreForGuard; carry|].
  unfold rankBeforeStart. destruct (_ || _ || _); cbn [negb].
  - destruct (negb (bool_decide _)); [apply Hq, carry_failStart|apply Hl]; carry.
  - destruct (viewNeedsRanking view); cbn [negb]; [apply Hq; carry|].
    destruct (negb (bool_decide _)); [apply Hq, carry_failStart|apply Hl]; carry.
Qed.

Lemma carry_stopOnMain o c : P c -> P (stopOnMain o c).
Proof. intros Hc. unfold stopOnMain, stopToken. carry. Qed.

Lemma carry_stopElsewhere o c : P c -> P (stopElsewhere o c).
Proof. intros Hc. unfold stopElsewhere, stopToken. carry. Qed.

Lemma carry_stopStage2 a o c : P c -> P (stopStage2 a o c).
Proof. intros Hc. unfold stopStage2. carry. Qed.

Lemma carry_startStage2 a r c : P c -> P (startStage2 options a r c).2.
Proof.
  intros Hc. unfold startStage2, postFinish.
  destruct (extraCoreRefused a); cbn [snd]; [carry|]. destruct (negb (startRpcOK a)); cbn [snd]; [carry|].
  destruct (negb _); cbn [snd]; [|carry]. unfold startRefused, postFinish. carry.
Qed.

(** ** Modes *)

Lemma carry_tunBlockedReason e c reason c' : tunBlockedReason options e c = (reason, c') -> P c -> P c'.
Proof.
  intros E Hc. unfold tunBlockedReason in E.
  destruct (_ || _); [by injection E as _ <-|]. destruct (_ || _); [by injection E as _ <-|].
  destruct (_ && _); injection E as _ <-; carry.
Qed.

Lemma carry_tunRestoreHoldReason e c why c' : tunRestoreHoldReason options e c = (why, c') -> P c -> P c'.
Proof.
  intros E Hc. unfold tunRestoreHoldReason in E. destruct (tunBlockedReason options e c) as [why1 c1] eqn:E1.
  apply (carry_tunBlockedReason e) in E1; [|done].
  destruct (negb _); [by injection E as _ <-|]. destruct (negb _); by injection E as _ <-.
Qed.

Lemma carry_setSystemProxy enable change c : P c -> P (setSystemProxy options enable change c).
Proof. intros Hc. unfold setSystemProxy. carry. Qed.

Lemma carry_setSystemProxyRest enable change c : P c -> P (setSystemProxyRest enable change c).
Proof. intros Hc. unfold setSystemProxyRest. carry. Qed.

Lemma carry_setTun enable change e c : P c -> P (setTun options enable change e c).
Proof.
  intros Hc. unfold setTun. cbv zeta. set (c1 := if negb enable && m_tunRestoreHeld c then _ else c).
  assert (H1 : P c1) by (unfold c1; carry). clearbody c1.
  destruct (Bool.eqb _ _); [done|]. destruct (negb enable); [carry|].
  destruct (tunBlockedReason options e c1) as [reason c2] eqn:E2.
  apply (carry_tunBlockedReason e) in E2; [|done]. carry.
Qed.

Lemma carry_setTunPrivileges enable change e c : P c -> P (setTunPrivileges options enable change e c).
Proof.
  intros Hc. unfold setTunPrivileges. destruct (_ && _); [carry|]. unfold ensureTunPrivileges.
  destruct (disable_privilege_req _); [carry|]. destruct (negb (bool_decide _)); [carry|].
  destruct (tunPrivileged _ _); [carry|]. destruct (negb _); [carry|].
  by apply (carry_openDialog (RequestCorePrivileges enable change)).
Qed.

Lemma carry_setTunRest enable change c : P c -> P (setTunRest enable change c).
Proof. intros Hc. unfold setTunRest. carry. Qed.

Lemma carry_chooseRoute routeId i n groupOf e c : P c -> P (chooseRoute routeId i n groupOf e c).
Proof. intros Hc. unfold chooseRoute. carry. Qed.

Lemma carry_guardRequest c r c' : guardRequest c = (r, c') -> P c -> P c'.
Proof. intros E Hc. unfold guardRequest in E. case_ifs_in E; injection E as _ <-; carry. Qed.

Lemma carry_onKillSwitchStateChanged e c : P c -> P (onKillSwitchStateChanged e c).
Proof.
  intros Hc. unfold onKillSwitchStateChanged. cbv zeta.
  set (c1 := if bool_decide (ksState e = KsFailed) && _ then _ else _).
  assert (H1 : P c1) by (unfold c1; carry). clearbody c1. destruct (_ && _ && _); [|done].
  destruct (guardRequest c1) as [r c2] eqn:E2. apply carry_guardRequest in E2; [|done].
  by apply carry_restartCoreForGuard.
Qed.

(** ** The core's slots and the callers *)

Lemma carry_setBootStart r c : P c -> P (setBootStart r c).
Proof. intros Hc. unfold setBootStart. apply carry_deferStartToCore. carry. Qed.

Lemma carry_coreStartedTun id wantTun e c : P c -> P (coreStartedTun options id wantTun e c).
Proof.
  intros Hc. unfold coreStartedTun. cbv zeta.
  set (c1 := (if wantTun then _ else c) <| m_tunRestoreHeld := _ |>).
  assert (H1 : P c1) by (unfold c1; carry). clearbody c1. destruct (m_tunRestoreHeld c1); [|carry].
  destruct (tunRestoreHoldReason options e c1) as [why c2] eqn:E2.
  apply carry_tunRestoreHoldReason in E2; [|done]. carry.
Qed.

Lemma carry_coreStartedRest id why c : P c -> P (coreStartedRest id why c).
Proof.
  intros Hc. unfold coreStartedRest. cbv zeta.
  set (c1 := if _ && negb (profileId (m_coreStartRequest c) =? id) then _ else _).
  assert (H1 : P c1) by (unfold c1; carry). clearbody c1. destruct (id <? 0); [done|].
  destruct (_ =? id); carry.
Qed.

Lemma carry_startRanked id r c : P c -> P (startRanked id r c).
Proof. intros Hc. unfold startRanked. carry. Qed.

Lemma carry_reranked id changed c : P c -> P (reranked id changed c).
Proof. intros Hc. unfold reranked. destruct (_ || _); [done|]. apply carry_startRanked. carry. Qed.

Lemma carry_rankDone id resume early c : P c -> P (rankDone id resume early c).
Proof. intros Hc. unfold rankDone. carry. Qed.

Lemma carry_startedCallback r endpoint c : P c -> P (startedCallback options r endpoint c).
Proof.
  intros Hc. unfold startedCallback. cbv zeta. set (c1 := clearRestartNeeded _).
  assert (H1 : P c1) by (unfold c1; apply carry_clearRestartNeeded; carry). clearbody c1. carry.
Qed.

(** A posted callback that is not one of a run. *)
Lemma carry_runPost p e c : isRunPost p = false -> P c -> P (runPost options p e c).
Proof.
  intros Hp Hc. destruct p; cbn [runPost]; try done; try (carry; fail).
  - by apply carry_startedCallback.
  - by apply carry_rankDone.
  - by apply carry_reranked.
Qed.

(** The handlers that neither take locks nor stop. *)
Definition isPlain (t : Todo) : bool :=
  match t with TStart _ | TStartRest _ _ | TStopTry _ _ => false | _ => true end.

Lemma carry_runTodo t e c : isPlain t = true -> P c -> P (runTodo options t e c).
Proof.
  intros Ht Hc. destruct t; cbn [runTodo]; try done; try (carry; fail).
  - by apply carry_stopOnMain.
  - destruct resume; [by apply carry_startRanked|]. cbn [runResume]. case_bool_decide; [|done].
    apply carry_startRanked. carry.
  - by apply carry_startDeferred.
  - by apply carry_onKillSwitchStateChanged.
  - unfold coreStartedModes. carry.
  - unfold coreStartedGuiTun. carry.
  - by apply carry_coreStartedTun.
  - by apply carry_coreStartedRest.
  - by apply carry_setSystemProxy.
  - by apply carry_setSystemProxyRest.
  - by apply carry_setTun.
  - by apply carry_setTunPrivileges.
  - by apply carry_setTunRest.
  - unfold retryLeftover. carry.
Qed.

(** A main-thread event other than a posted callback of a run and the teardown. *)
Lemma carry_mainEvent ev e c :
  match ev with EvTimer => False | EvPost => match posts c with p :: _ => isRunPost p = false | [] => True end | _ => True end ->
  P c -> P (mainEvent options ev e c).
Proof.
  intros Hev Hc. destruct ev; cbn [mainEvent]; try done; try (carry; fail).
  - unfold restartStartedProfile. destruct (_ <? 0); cbn [snd]; carry.
  - unfold applyPendingRestart. pose proof (carry_clearRestartNeeded c Hc). carry.
  - by apply carry_setBootStart.
  - unfold onCoreStarted. carry.
  - unfold onCoreGaveUp. carry.
  - unfold geoInstalled. destruct (geoWaits c !! i) as [[id token]|]; [|done]. unfold retryAfterGeoFetch. carry.
  - by apply carry_chooseRoute.
  - unfold disableKillSwitch. carry.
  - unfold noteRestartNeeded. carry.
  - by apply carry_clearRestartNeeded.
  - by apply carry_answerDialog.
  - destruct (posts c) as [|p ps] eqn:Ep; [done|]. 
    apply carry_runPost; [done|]. by apply (carry_popPost p ps).
Qed.

(** A step of another thread that is not a worker's of a run. *)
Definition isOtherThread (ev : Event (S := S)) : bool :=
  match ev with
  | ThStop _ | ThRankEarly _ | ThRankEnd _ | ThRerank _ _ | ThLookup _ _ | ThProxy | Other _ _
  | KillSwitchChanged | KillSwitchSettled => true
  | _ => false
  end.

Lemma carry_otherThread ev e c : isOtherThread ev = true -> P c -> P (apply options e ev c).
Proof.
  intros Hev Hc. destruct ev; try done; cbn [apply].
  - carry.
  - destruct (killSwitchMayReport c); [|done]. apply carry_next; [by apply Forall_replicate|]. carry.
  - by apply carry_stopElsewhere.
  - unfold rankEarly. destruct (rankJobs _ !! i) as [[? ? []]|]; try done. carry.
  - unfold rankEnd. destruct (rankJobs _ !! i) as [[? ? ?]|]; try done. carry.
  - unfold rerankEnd. destruct (reranking _ !! i); try done. carry.
  - unfold lookupEnd. destruct (lookups c !! i); try done. carry.
  - unfold runProxyJob. carry.
  - carry.
Qed.
End Carry.
