(* ===== verification/ConnectionLocks.v ===== *)
(** * ConnectionLocks: the two mutexes and the workers that hold them

    [mu_starting] is held by the handler between the two halves of [start] or by
    one start worker, [mu_stopping] by that handler, by a start worker between its
    lock and unlock, or by the stop in progress until its teardown; the switch flag
    is up exactly while a start worker stops the profile it replaces.  [Locks n ws
    c] counts [n] rests of a start and the workers [ws] besides those in [c]. *)

From S2P Require Import Prelude Text EngineTypes AutoSelectorController ConnectionState ConnectionStart ConnectionModes ConnectionManager ConnectionCarry.

(** ** Counting *)

Definition countIf {A} (f : A -> bool) (l : list A) : nat := length (List.filter f l).

Lemma countIf_app {A} (f : A -> bool) l l' : countIf f (l ++ l') = (countIf f l + countIf f l')%nat.
Proof. unfold countIf. by rewrite List.filter_app, length_app. Qed.

Lemma countIf_cons {A} (f : A -> bool) x l : countIf f (x :: l) = (Nat.b2n (f x) + countIf f l)%nat.
Proof. unfold countIf. cbn. by destruct (f x). Qed.

Lemma countIf_nil {A} (f : A -> bool) : countIf f [] = 0%nat.
Proof. done. Qed.

Lemma countIf_none {A} (f : A -> bool) l : Forall (fun x => f x = false) l -> countIf f l = 0%nat.
Proof. induction 1 as [|x l Hx _ IH]; [done|]. by rewrite countIf_cons, Hx, IH. Qed.

Lemma countIf_take_drop {A} (f : A -> bool) l i x :
  l !! i = Some x -> countIf f l = (Nat.b2n (f x) + countIf f (take i l) + countIf f (drop (S i) l))%nat.
Proof. intros Hl. rewrite <- (take_drop_middle l i x Hl) at 1. rewrite countIf_app, countIf_cons. lia. Qed.

Lemma countIf_pos {A} (f : A -> bool) l : (0 < countIf f l)%nat -> exists x, x ∈ l /\ f x = true.
Proof.
  induction l as [|x l IH]; [cbn; lia|]. rewrite countIf_cons. destruct (f x) eqn:E.
  - intros _. exists x. split; [by left|done].
  - intros Hl. destruct IH as (y & Hy & Hf); [cbn in Hl; lia|]. exists y. split; [by right|done].
Qed.

Lemma countIf_elem {A} (f : A -> bool) l x : x ∈ l -> f x = true -> (0 < countIf f l)%nat.
Proof.
  intros Hx Hf. induction Hx as [x l|x y l Hx IH]; rewrite countIf_cons; [rewrite Hf; cbn; lia|specialize (IH Hf); lia].
Qed.

Lemma countIf_mono {A} (f g : A -> bool) l : (forall x, f x = true -> g x = true) -> (countIf f l <= countIf g l)%nat.
Proof.
  intros Hfg. induction l as [|x l IH]; [done|]. rewrite !countIf_cons. destruct (f x) eqn:E; [rewrite (Hfg x E)|]; cbn; lia.
Qed.

#[global] Arguments countIf : simpl never.

(** ** Who holds what *)

Definition holdsStart (w : Starter) : bool := match swPhase w with WFinal _ => false | _ => true end.
Definition holdsStop (w : Starter) : bool := match swPhase w with WHold => true | _ => false end.
Definition switches (w : Starter) : bool :=
  match swPhase w with WStop | WStopTry _ | WWait | WHold => true | _ => false end.

Definition isDisconnecting (p : Post) : bool := match p with PDisconnecting => true | _ => false end.
Definition isTeardown (p : Post) : bool := match p with PTeardown => true | _ => false end.

Definition isSome {A} (o : option A) : bool := match o with Some _ => true | None => false end.

Section Locks.
Context {S : Type} `{Supervisor S} `{QtText} (options : Options).
Implicit Types (c : Conn S) (e : Env) (r : StartRequest) (ws : list Starter).

(** The rests of a start that wait, in the handler and in dialogs. *)
Definition rests c : nat := (countIf isRest (todo c) + countIf isRest (dialogs c ≫= snd))%nat.

(** A stop's callbacks: its beginning is ahead of its teardown, which is posted
    once. *)
Definition stopPosts (w : option Stopper) (ps : list Post) : Prop :=
  match w with
  | None => countIf isDisconnecting ps = 0%nat /\ countIf isTeardown ps = 0%nat
  | Some w =>
      match stopPhase w with
      | SBegin | SClear => countIf isTeardown ps = 0%nat
      | SPosted =>
          exists before after_, ps = before ++ PTeardown :: after_ /\ countIf isTeardown before = 0%nat /\
            countIf isTeardown after_ = 0%nat /\ countIf isDisconnecting after_ = 0%nat
      | SArmed => countIf isDisconnecting ps = 0%nat /\ countIf isTeardown ps = 0%nat
      end
  end.

Definition Locks (n : nat) ws c : Prop :=
  Nat.b2n (mu_starting c) = (n + rests c + countIf holdsStart (ws ++ starters c))%nat /\
  Nat.b2n (mu_stopping c) =
    (n + rests c + countIf holdsStop (ws ++ starters c) + Nat.b2n (isSome (stopper c)))%nat /\
  Nat.b2n (m_switchingProfile c) = countIf switches (ws ++ starters c) /\
  stopPosts (stopper c) (posts c).

Lemma stopPosts_post w ps p : isRunPost p = false -> stopPosts w ps -> stopPosts w (ps ++ [p]).
Proof.
  intros Hp Hw. assert (Hd : isDisconnecting p = false) by by destruct p. assert (Ht : isTeardown p = false) by by destruct p.
  unfold stopPosts in *. destruct w as [w|]; [destruct (stopPhase w)|];
    rewrite ?countIf_app, ?countIf_cons, ?countIf_nil, ?Hd, ?Ht; cbn; try lia.
  destruct Hw as (b & a & -> & H1 & H2 & H3). exists b, (a ++ [p]). rewrite <- app_assoc.
  rewrite !countIf_app, !countIf_cons, Hd, Ht, !countIf_nil. cbn. split_and!; [done|lia..].
Qed.

Lemma stopPosts_pop w ps p : isTeardown p = false -> stopPosts w (p :: ps) -> stopPosts w ps.
Proof.
  intros Ht Hw. unfold stopPosts in *. destruct w as [w|]; [destruct (stopPhase w)|]; rewrite ?countIf_cons in Hw; try lia.
  destruct Hw as ([|q b] & a & E & H1 & H2 & H3); injection E as -> ->; [done|].
  exists b, a. rewrite countIf_cons in H1. split_and!; [done|lia..].
Qed.

#[export] Instance Locks_carried n ws : Carried (Locks n ws).
Proof.
  split.
  - intros c c' (E1 & E2 & E3 & E4 & E5 & E6 & E7 & E8 & _). unfold Locks, rests. by rewrite E1, E2, E3, E4, E5, E6, E7, E8.
  - intros ts c Hts Hl. unfold Locks, rests, next in *. cbn. rewrite countIf_app, (countIf_none _ ts) by done. exact Hl.
  - intros p c Hp (H1 & H2 & H3 & H4). unfold Locks, rests, post in *. cbn. split_and!; [done..|]. by apply stopPosts_post.
  - intros c Hl. unfold syncState. by case_bool_decide.
  - intros d c Hl. unfold Locks, rests, openDialog in *. cbn. rewrite bind_app, bind_cons, countIf_app. cbn.
    rewrite app_nil_r, countIf_nil. cbn. rewrite (Nat.add_comm (countIf isRest (dialogs c ≫= snd))). exact Hl.
  - intros i yes c Hl. unfold answerDialog. destruct (dialogs c !! i) as [[d rest]|] eqn:Ed; [|done].
    assert (Ha : countIf isRest (answered d yes) = 0%nat) by by destruct d, yes.
    assert (Hr : countIf isRest (dialogs c ≫= snd) =
      (countIf isRest rest + countIf isRest ((take i (dialogs c) ++ drop (Datatypes.S i) (dialogs c)) ≫= snd))%nat).
    { rewrite <- (take_drop_middle _ _ _ Ed) at 1. rewrite !bind_app, bind_cons, !countIf_app. cbn. lia. }
    unfold Locks, rests, next in *. cbn. rewrite !countIf_app, Ha. cbn. rewrite Hr in Hl.
    rewrite !(countIf_app _ ws) in Hl. destruct Hl as (H1 & H2 & H3 & H4). split_and!; [lia|lia|done|done].
  - intros t ts c Ht Hn Hl. unfold Locks, rests in *. cbn. rewrite Ht, countIf_cons, Hn in Hl. exact Hl.
  - intros p ps c Hp Hn (H1 & H2 & H3 & H4). unfold Locks, rests in *. cbn. split_and!; [done..|].
    rewrite Hp in H4. by apply stopPosts_pop in H4; [|by destruct p].
Qed.

(** ** The handlers that lock *)

Lemma Locks_startLocked r tun c : Locks 0 [] c -> Locks 0 [] (startLocked r tun c).
Proof.
  intros Hl. unfold startLocked. destruct (mu_starting c) eqn:E1; [by apply carry_failStart; [apply _|]|].
  destruct (mu_stopping c) eqn:E2; [by apply carry_failStart; [apply _|]|].
  unfold Locks, rests in *. cbn. rewrite countIf_cons. rewrite E1, E2 in Hl. cbn in *. destruct Hl as (H1 & H2 & H3 & H4).
  split_and!; [lia|lia|done|done].
Qed.

Lemma Locks_unlock c : Locks 1 [] c -> Locks 0 [] ((c <| mu_stopping := false |>) <| mu_starting := false |>).
Proof.
  intros (H1 & H2 & H3 & H4). unfold Locks, rests in *. cbn.
  destruct (mu_starting c), (mu_stopping c); cbn in *; (split_and!; [lia|lia|done|done]).
Qed.

(** [deferStartToCore] does not touch the locks. *)
Lemma deferStartToCore_unlock r c s :
  ((deferStartToCore r c) <| sup := s |>) <| mu_starting := false |> =
  (deferStartToCore r (c <| mu_starting := false |>)) <| sup := s |>.
Proof. unfold deferStartToCore. by destruct (0 <=? _). Qed.

(** A worker goes back to its list. *)
Lemma Locks_addStarter n w c : Locks n [w] c -> Locks n [] (c <| starters := starters c ++ [w] |>).
Proof.
  intros (H1 & H2 & H3 & H4). unfold Locks, rests in *. cbn in *. rewrite !countIf_app, !countIf_cons, !countIf_nil in *.
  split_and!; [lia|lia|lia|done].
Qed.

Lemma Locks_startRest r tun c : Locks 1 [] c -> Locks 0 [] (startRest r tun c).
Proof.
  intros Hl. unfold startRest. cbv zeta. set (c1 := c <| mu_stopping := false |>).
  assert (Hd : forall s, Locks 0 [] (((deferStartToCore r c1) <| sup := s |>) <| mu_starting := false |>)).
  { intros s. rewrite deferStartToCore_unlock. apply (Locks_unlock c) in Hl.
    pose proof (carry_deferStartToCore (Locks 0 []) r _ Hl) as Hc. exact Hc. }
  destruct (awaitingCoreStarted _); [apply Hd|]. destruct (negb (coreIsRunning _)).
  - destruct (negb (canStartCore _)); [|apply Hd]. apply carry_failStart; [apply _|]. by apply Locks_unlock.
  - apply Locks_addStarter. apply (carry_same _ _ (same_emit _ _)). apply carry_sync.
    change (Locks 0 [MkStarter r tun false WBegin] c1).
    destruct Hl as (H1 & H2 & H3 & H4). unfold Locks, rests in *. cbn in *. rewrite !countIf_cons. cbn.
    destruct (mu_starting c), (mu_stopping c); cbn in *; (split_and!; [lia|lia|lia|done]).
Qed.


(** ** The stop *)

Lemma Locks_noteDisconnecting n ws c : Locks n ws c -> Locks n ws (noteDisconnecting c).
Proof.
  intros Hl. unfold noteDisconnecting. apply (carry_same _ _ (same_emit _ _)). by apply carry_sync.
Qed.

(** A stop that gets the lock: there was no stop. *)
Lemma Locks_newStop n ws w c :
  stopPhase w = SBegin -> mu_stopping c = false -> Locks n ws c ->
  Locks n ws ((c <| mu_stopping := true |>) <| stopper := Some w |>) /\
  Locks n ws ((post PDisconnecting (c <| mu_stopping := true |>)) <| stopper := Some w |>).
Proof.
  intros Hw Hm (H1 & H2 & H3 & H4). rewrite Hm in H2. cbn in H2.
  assert (Hs : stopper c = None) by (destruct (stopper c); [cbn in H2; lia|done]).
  unfold Locks, rests, post, stopPosts in *. cbn in *. rewrite Hs, Hw in *. destruct H4 as [H4 H5]. cbn in H2.
  rewrite !countIf_app, !countIf_cons, !countIf_nil in *. cbn in *. split; (split_and!; [lia..]).
Qed.

Lemma syncState_stopper w c : syncState (c <| stopper := w |>) = (syncState c) <| stopper := w |>.
Proof.
  unfold syncState. change (connectionState (c <| stopper := w |>)) with (connectionState c).
  change (m_lastConnectionState (c <| stopper := w |>)) with (m_lastConnectionState c). by case_bool_decide.
Qed.

Lemma Locks_stopTry onMain id o n ws c : Locks n ws c -> Locks n ws (stopTry onMain id o c).
Proof.
  intros Hl. unfold stopTry. destruct (mu_stopping c) eqn:E; [done|].
  destruct (Locks_newStop n ws (MkStopper id o SBegin) c) as [Hm Hp]; [done..|].
  destruct onMain; [|exact Hp].
  assert (Hx : (noteDisconnecting (c <| mu_stopping := true |>)) <| stopper := Some (MkStopper id o SBegin) |> =
    noteDisconnecting ((c <| mu_stopping := true |>) <| stopper := Some (MkStopper id o SBegin) |>)).
  { exact (f_equal (emit BusyChanged) (eq_sym (syncState_stopper (Some (MkStopper id o SBegin))
      ((c <| mu_stopping := true |>) <| m_profileDisconnecting := true |>)))). }
  cbv zeta. rewrite Hx. by apply Locks_noteDisconnecting.
Qed.

Lemma Locks_stopPhase n ws w p c :
  stopper c = Some w -> stopPosts (Some (MkStopper (stopId w) (stopOptions w) p)) (posts c) ->
  Locks n ws c -> Locks n ws (c <| stopper := Some (MkStopper (stopId w) (stopOptions w) p) |>).
Proof.
  intros Hw Hp (H1 & H2 & H3 & H4). unfold Locks, rests in *. cbn in *. rewrite Hw in H2. cbn in H2.
  split_and!; [lia|lia|lia|done].
Qed.

Lemma Locks_stopperStep a c : Locks 0 [] c -> Locks 0 [] (stopperStep a c).
Proof.
  intros Hl. unfold stopperStep. destruct (stopper c) as [w|] eqn:Ew; [|done].
  destruct (stopPhase w) eqn:Ep; cbv zeta; [| |done|done].
  - set (c1 := if manual _ then _ else _).
    assert (H1 : Locks 0 [] c1) by (pose proof (carry_stopStage2 _ a (stopOptions w) c Hl); unfold c1; carry).
    assert (Hs : stopper c1 = Some w).
    { unfold c1, stopStage2. destruct (manual _); cbn; repeat case_ifs; done. }
    apply Locks_stopPhase; [done| |done]. destruct H1 as (_ & _ & _ & H4). rewrite Hs in H4.
    unfold stopPosts in *. by rewrite Ep in H4.
  - destruct Hl as (H1 & H2 & H3 & H4). unfold Locks, rests, post, setRunning in *. cbn in *. rewrite Ew in *. cbn in *.
    rewrite Ep in H4. split_and!; [lia|lia|lia|]. exists (posts c), []. split_and!; [done|lia|done|done].
Qed.

Lemma stopper_emit y c : stopper (emit y c) = stopper c.
Proof. done. Qed.

Lemma stopper_syncState c : stopper (syncState c) = stopper c.
Proof. unfold syncState. by case_bool_decide. Qed.

Lemma stopper_clearRestartNeeded c : stopper (clearRestartNeeded c) = stopper c.
Proof. unfold clearRestartNeeded. by case_bool_decide. Qed.

Lemma stopper_disconnecting b c : stopper (c <| m_profileDisconnecting := b |>) = stopper c.
Proof. done. Qed.

Lemma Locks_disconnecting n ws b c : Locks n ws c -> Locks n ws (c <| m_profileDisconnecting := b |>).
Proof. done. Qed.

Lemma Locks_connecting n ws b c : Locks n ws c -> Locks n ws (c <| m_profileConnecting := b |>).
Proof. done. Qed.

(** The end of the teardown. *)
Lemma Locks_stopOver id o c :
  stopper c = Some (MkStopper id o SArmed) -> Locks 0 [] c ->
  Locks 0 [] ((c <| mu_stopping := false |>) <| stopper := None |>).
Proof.
  intros Hs (H1 & H2 & H3 & H4). unfold Locks, rests in *. cbn in *. rewrite Hs in *. cbn in *.
  destruct (mu_stopping c); cbn in *; (split_and!; [lia..]).
Qed.

Lemma Locks_teardown c : Locks 0 [] c -> Locks 0 [] (teardown c).
Proof.
  intros Hl. unfold teardown. destruct (stopper c) as [[id o []]|] eqn:Ew; try done. cbv zeta.
  apply (carry_same _ _ (same_emit _ _)). apply (Locks_stopOver id o).
  - rewrite !stopper_emit, stopper_syncState, stopper_emit, stopper_clearRestartNeeded, stopper_disconnecting.
    destruct (m_switchingProfile c); [done|]. by rewrite stopper_emit.
  - do 2 apply (carry_same _ _ (same_emit _ _)). apply carry_sync. apply (carry_same _ _ (same_emit _ _)).
    apply carry_clearRestartNeeded; [apply _|]. apply Locks_disconnecting. carry.
Qed.


(** ** The start worker *)

Lemma switches_holdsStart w : switches w = true -> holdsStart w = true.
Proof. unfold switches, holdsStart. by destruct (swPhase w). Qed.

(** The worker that holds [mu_starting] is the only one. *)
Lemma only_holder w c :
  Locks 0 [w] c -> holdsStart w = true ->
  mu_starting c = true /\ rests c = 0%nat /\ countIf holdsStart (starters c) = 0%nat /\
  countIf switches (starters c) = 0%nat.
Proof.
  intros (H1 & H2 & H3 & H4) Hw. cbn in H1. rewrite countIf_cons, Hw in H1. cbn in H1.
  pose proof (countIf_mono switches holdsStart (starters c) switches_holdsStart).
  destruct (mu_starting c); cbn in H1; split_and!; (done || lia).
Qed.

(** A worker moves on; its flags change with it. *)
Lemma Locks_worker w w' c :
  holdsStart w' = holdsStart w -> holdsStop w' = holdsStop w -> switches w' = switches w ->
  Locks 0 [w] c -> Locks 0 [w'] c.
Proof.
  intros E1 E2 E3 (H1 & H2 & H3 & H4). unfold Locks in *. cbn in *. rewrite !countIf_cons in *.
  by rewrite E1, E2, E3.
Qed.

Lemma Locks_setRunning n ws profile tun c : Locks n ws c -> Locks n ws (setRunning profile tun c).
Proof. done. Qed.

Lemma Locks_starterStep a w c w' c' :
  starterStep options a w c = Some (w', c') -> Locks 0 [w] c -> Locks 0 (option_list w') c'.
Proof.
  destruct w as [r tun switching p]. unfold starterStep. cbn [swRequest swTun swSwitching swPhase].
  intros E Hl. destruct p; revert E.
  - destruct (only_holder _ _ Hl eq_refl) as (_ & _ & _ & Hz).
    destruct (m_running c); intros [= <- <-]; [|by apply (Locks_worker (MkStarter r tun switching WBegin))].
    destruct Hl as (H1 & H2 & H3 & H4). unfold Locks, rests in *. cbn in *. rewrite !countIf_cons in *. cbn in *. rewrite Hz.
    split_and!; [lia|lia|done|done].
  - destruct (m_running _); intros [= <- <-]; cbn [option_list];
      apply (Locks_worker (MkStarter r tun switching WStop)); try done; carry.
  - intros [= <- <-]. apply (Locks_worker (MkStarter r tun switching (WStopTry id))); try done. by apply Locks_stopTry.
  - destruct (mu_stopping c) eqn:Em; intros [= <- <-]. destruct Hl as (H1 & H2 & H3 & H4).
    unfold Locks, rests in *. cbn in *. rewrite !countIf_cons in *. rewrite Em in *. cbn in *. split_and!; [lia|lia|lia|done].
  - destruct (only_holder _ _ Hl eq_refl) as (_ & _ & _ & Hz). intros [= <- <-]. destruct Hl as (H1 & H2 & H3 & H4).
    unfold Locks, rests in *. cbn in *. rewrite !countIf_cons in *. cbn in *. rewrite Hz.
    destruct (mu_stopping c); cbn in *; (split_and!; [lia|lia|done|done]).
  - pose proof (carry_startStage2 options (Locks 0 [MkStarter r tun switching WStage2]) a r c Hl) as Hc.
    destruct (startStage2 options a r c) as [started c2]. cbn [snd] in Hc. intros [= <- <-].
    destruct started; by apply (Locks_worker (MkStarter r tun switching WStage2)).
  - intros [= <- <-]. apply (Locks_worker (MkStarter r tun switching (WPublish exitIsEndpoint))); try done.
    apply (Locks_setRunning _ _ (Some (profileId r)) tun) in Hl. carry.
  - intros [= <- <-]. destruct (only_holder _ _ Hl eq_refl) as (Hm & Hr & Hs & _). destruct Hl as (H1 & H2 & H3 & H4).
    unfold Locks, rests in *. cbn in *. rewrite !countIf_cons in *. cbn in *. split_and!; [lia|lia|done|done].
  - intros [= <- <-]. cbn [option_list].
    destruct Hl as (H1 & H2 & H3 & H4). unfold Locks, rests, post in *. cbn in *. rewrite !countIf_cons in *. cbn in *.
    split_and!; [lia|lia|lia|]. unfold stopPosts in *. destruct (stopper c) as [w|]; [destruct (stopPhase w)|];
      rewrite ?countIf_app, ?countIf_cons, ?countIf_nil; cbn; try lia.
    destruct H4 as (b & af & -> & Ha & Hb & Hc). exists b, (af ++ [PConnected started switching]). rewrite <- app_assoc.
    rewrite !countIf_app, !countIf_cons, !countIf_nil. cbn. split_and!; [done|lia..].
Qed.

(** A worker out of its list, and back. *)
Lemma Locks_takeStarter i w c :
  starters c !! i = Some w -> Locks 0 [] c ->
  Locks 0 [w] (c <| starters := take i (starters c) ++ drop (Datatypes.S i) (starters c) |>).
Proof.
  intros Hi (H1 & H2 & H3 & H4). unfold Locks, rests in *. cbn in *.
  rewrite (countIf_take_drop _ _ _ _ Hi) in H1. rewrite (countIf_take_drop _ _ _ _ Hi) in H2.
  rewrite (countIf_take_drop _ _ _ _ Hi) in H3. rewrite !countIf_cons, !countIf_app. split_and!; [lia|lia|lia|done].
Qed.

Lemma Locks_putStarter before after_ w c :
  starters c = before ++ after_ -> Locks 0 (option_list w) c ->
  Locks 0 [] (c <| starters := before ++ option_list w ++ after_ |>).
Proof.
  intros Hs (H1 & H2 & H3 & H4). unfold Locks, rests in *. cbn in *. rewrite Hs in *. rewrite !countIf_app in *.
  split_and!; [lia|lia|lia|done].
Qed.


Lemma Locks_stepStarter i a c : Locks 0 [] c -> Locks 0 [] (stepStarter options i a c).
Proof.
  intros Hl. unfold stepStarter. destruct (starters c !! i) as [w|] eqn:Ew; [|done].
  destruct (starterStep _ _ _ _) as [[w' c']|] eqn:Es; [|done].
  apply Locks_putStarter; [by apply starterStep_starters in Es|].
  apply Locks_starterStep in Es; [done|]. by apply Locks_takeStarter.
Qed.

(** ** The machine *)

Lemma Locks_popRunPost p ps c :
  posts c = p :: ps -> isTeardown p = false -> Locks 0 [] c -> Locks 0 [] (c <| posts := ps |>).
Proof.
  intros Hp Ht (H1 & H2 & H3 & H4). unfold Locks, rests in *. cbn. split_and!; [done..|].
  rewrite Hp in H4. by apply stopPosts_pop in H4.
Qed.

Lemma Locks_runTeardownPost ps c :
  posts c = PTeardown :: ps -> Locks 0 [] c ->
  exists w, stopper c = Some w /\ stopPhase w = SPosted /\
    Locks 0 [] ((c <| posts := ps |>) <| stopper := Some (MkStopper (stopId w) (stopOptions w) SArmed) |>).
Proof.
  intros Hp (H1 & H2 & H3 & H4). rewrite Hp in H4. unfold stopPosts in H4. rewrite !countIf_cons in H4. cbn in H4.
  destruct (stopper c) as [w|] eqn:Ew; [|lia]. exists w. split; [done|].
  destruct (stopPhase w) eqn:Eph; try lia. split; [done|].
  destruct H4 as ([|q b] & a & E & Ha & Hb & Hc).
  2: { injection E as <- _. rewrite countIf_cons in Ha. cbn in Ha. lia. }
  injection E as ->.
  unfold Locks, rests in *. cbn in *. split_and!; [lia|lia|lia|done|done].
Qed.

Lemma Locks_runPost p ps e c :
  posts c = p :: ps -> Locks 0 [] c -> Locks 0 [] (runPost options p e (c <| posts := ps |>)).
Proof.
  intros Hp Hl. destruct (isRunPost p) eqn:Er.
  - destruct p; try done; cbn [runPost].
    + unfold connectedCallback. cbv zeta. apply Locks_popRunPost in Hp; [|done..].
      apply (Locks_connecting _ _ false) in Hp. carry.
    + apply Locks_noteDisconnecting. by apply (Locks_popRunPost PDisconnecting).
    + destruct (Locks_runTeardownPost ps c Hp Hl) as (w & Hw & _ & Hw2). change (stopper (c <| posts := ps |>)) with (stopper c).
      by rewrite Hw.
  - apply carry_runPost; [apply _|done|]. by apply (carry_popPost p ps).
Qed.

Lemma Locks_popRest r tun ts c :
  todo c = TStartRest r tun :: ts -> Locks 0 [] c -> Locks 1 [] (c <| todo := ts |>).
Proof. intros Ht Hl. unfold Locks, rests in *. rewrite Ht in Hl. rewrite countIf_cons in Hl. exact Hl. Qed.

Lemma Locks_continue t ts e c :
  todo c = t :: ts -> Locks 0 [] c -> Locks 0 [] (runTodo options t e (c <| todo := ts |>)).
Proof.
  intros Ht Hl. destruct (isRest t) eqn:Er.
  - destruct t; try done. cbn [runTodo]. apply Locks_startRest. by eapply Locks_popRest.
  - apply (carry_popTodo t ts) in Hl; [|done..]. destruct (isPlain t) eqn:Ep; [by apply carry_runTodo; [apply _|..]|].
    destruct t; try done; cbn [runTodo].
    + apply (carry_start (Locks 0 []) (Locks 0 [])); [done| |done]. intros tun c'. by apply Locks_startLocked.
    + by apply Locks_stopTry.
Qed.

Lemma Locks_apply e ev c : Locks 0 [] c -> Locks 0 [] (apply options e ev c).
Proof.
  intros Hl. destruct (isOtherThread ev) eqn:Eo; [by apply carry_otherThread; [apply _|..]|].
  destruct ev; try done; cbn [apply].
  - case_bool_decide; [|done]. destruct ev; try (apply carry_mainEvent; [apply _|done|done]).
    + cbn [mainEvent]. destruct (posts c) eqn:Ep; [done|]. by apply Locks_runPost.
    + by apply Locks_teardown.
  - destruct (todo c) eqn:Et; [done|]. by apply Locks_continue.
  - by apply Locks_stepStarter.
  - by apply Locks_stopperStep.
  - unfold stepStopCall. destruct (stopCalls c !! i) as [[id o]|]; [|done]. apply Locks_stopTry. exact Hl.
Qed.

Lemma reachable_locks c : reachable options c -> Locks 0 [] c.
Proof. apply reachable_ind; [|by intros; apply Locks_apply]. by intros s p. Qed.

(** C13: At any moment of any interleaving, [mu_starting] is held exactly
    while one half-done start or one start worker holds it, never two;
    [mu_stopping] exactly while a half-done start, a start worker between its lock
    and unlock, or one stop holds it; and [m_switchingProfile] is up exactly while
    a start worker stops the profile it replaces. *)
Theorem locks_exclusive c :
  reachable options c ->
  Nat.b2n (mu_starting c) = (rests c + countIf holdsStart (starters c))%nat /\
  Nat.b2n (mu_stopping c) = (rests c + countIf holdsStop (starters c) + Nat.b2n (isSome (stopper c)))%nat /\
  Nat.b2n (m_switchingProfile c) = countIf switches (starters c).
Proof. intros (H1 & H2 & H3 & _)%reachable_locks. done. Qed.

End Locks.
