(* ===== verification/ConnectionFlags.v ===== *)
(** * ConnectionFlags: what the connection state shows

    [m_profileConnecting] and [m_profileDisconnecting] only stay up while the run
    or stop that raised them has work left, and the state last announced is the
    current one unless such work is still to come.  [Flags n c] counts [n] start
    workers besides those in [c]. *)

From S2P Require Import Prelude Text EngineTypes AutoSelectorController ConnectionState ConnectionStart ConnectionModes ConnectionManager ConnectionCarry ConnectionLocks.

Definition isConnected (p : Post) : bool := match p with PConnected _ _ => true | _ => false end.

Section Flags.
Context {S : Type} `{Supervisor S} `{QtText} (options : Options).
Implicit Types (c : Conn S) (e : Env) (r : StartRequest).

(** The start workers and their last callbacks. *)
Definition runsLeft c : nat := (length (starters c) + countIf isConnected (posts c))%nat.

Definition Flags (n : nat) c : Prop :=
  (m_profileDisconnecting c = true -> isSome (stopper c) = true) /\
  (m_profileConnecting c = true -> (0 < n + runsLeft c)%nat) /\
  (m_lastConnectionState c = connectionState c \/ (0 < n + runsLeft c)%nat \/ isSome (stopper c) = true).

Lemma connectionState_same c c' :
  m_profileConnecting c' = m_profileConnecting c -> m_profileDisconnecting c' = m_profileDisconnecting c ->
  m_running c' = m_running c -> connectionState c' = connectionState c.
Proof. unfold connectionState. by intros -> -> ->. Qed.

(** After [syncState] the last state is the current one. *)
Lemma syncState_synced c : m_lastConnectionState (syncState c) = connectionState (syncState c).
Proof. unfold syncState. case_bool_decide as E; [by rewrite E|]. done. Qed.

Lemma syncState_fields c :
  runsLeft (syncState c) = runsLeft c /\ stopper (syncState c) = stopper c /\
  m_profileConnecting (syncState c) = m_profileConnecting c /\
  m_profileDisconnecting (syncState c) = m_profileDisconnecting c.
Proof. unfold syncState. by case_bool_decide. Qed.

(** Syncing with flags that are covered. *)
Lemma Flags_sync n c :
  (m_profileDisconnecting c = true -> isSome (stopper c) = true) ->
  (m_profileConnecting c = true -> (0 < n + runsLeft c)%nat) -> Flags n (syncState c).
Proof.
  intros H1 H2. destruct (syncState_fields c) as (E1 & E2 & E3 & E4). unfold Flags. rewrite E1, E2, E3, E4.
  split_and!; [done|done|]. left. apply syncState_synced.
Qed.

#[export] Instance Flags_carried n : Carried (Flags n).
Proof.
  split.
  - intros c c' (_ & _ & E3 & E4 & E5 & _ & _ & _ & E9 & E10 & E11 & E12). unfold Flags, runsLeft.
    rewrite (connectionState_same c c') by done. by rewrite E3, E4, E5, E9, E10, E11.
  - intros ts c _ Hf. exact Hf.
  - intros p c Hp Hf. unfold Flags, runsLeft, post in *. cbn. rewrite countIf_app.
    change (connectionState (c <| posts := posts c ++ [p] |>)) with (connectionState c).
    destruct Hf as (H1 & H2 & H3). split_and!; [done|intros Hc; specialize (H2 Hc); lia|].
    destruct H3 as [?|[?|?]]; [by left|right; left; lia|by right; right].
  - intros c (H1 & H2 & _). by apply Flags_sync.
  - intros d c Hf. exact Hf.
  - intros i yes c Hf. unfold answerDialog. by destruct (dialogs c !! i) as [[d rest]|].
  - intros t ts c _ _ Hf. exact Hf.
  - intros p ps c Hp Hn Hf. unfold Flags, runsLeft in *. cbn in *. rewrite Hp, countIf_cons in Hf.
    change (connectionState (c <| posts := ps |>)) with (connectionState c). assert (isConnected p = false) as Hc by by destruct p.
    rewrite Hc in Hf. exact Hf.
Qed.

(** ** The handlers of a run *)

Lemma Flags_startLocked r tun c : Flags 0 c -> Flags 0 (startLocked r tun c).
Proof.
  intros Hf. unfold startLocked. destruct (mu_starting c); [by apply carry_failStart; [apply _|]|].
  destruct (mu_stopping c); [by apply carry_failStart; [apply _|]|]. exact Hf.
Qed.

Lemma Flags_startRest r tun c : Flags 0 c -> Flags 0 (startRest r tun c).
Proof.
  intros Hf. unfold startRest. cbv zeta. set (c1 := c <| mu_stopping := false |>).
  assert (H1 : Flags 0 c1) by exact Hf. clearbody c1.
  pose proof (carry_deferStartToCore (Flags 0) r c1 H1) as Hd. set (c2 := deferStartToCore r c1) in *. clearbody c2.
  destruct (awaitingCoreStarted _); [exact Hd|]. destruct (negb (coreIsRunning _)).
  - destruct (negb (canStartCore _)); [|exact Hd]. apply carry_failStart; [apply _|]. exact H1.
  - clear Hd c2. destruct H1 as (H1 & _ & _). set (c2 := c1 <| m_profileConnecting := true |>).
    assert (H1' : m_profileDisconnecting c2 = true -> isSome (stopper c2) = true) by exact H1. clearbody c2.
    destruct (syncState_fields c2) as (_ & E2 & _ & E4). unfold Flags, runsLeft.
    change (m_profileDisconnecting (_ <| starters := _ |>)) with (m_profileDisconnecting (syncState c2)).
    change (stopper (_ <| starters := _ |>)) with (stopper (syncState c2)). rewrite E2, E4. cbn. rewrite length_app. cbn.
    split_and!; [done|lia|right; left; lia].
Qed.

(** With a stop in progress only the runs matter. *)
Lemma Flags_stopping n c : isSome (stopper c) = true -> (m_profileConnecting c = true -> (0 < n + runsLeft c)%nat) -> Flags n c.
Proof. intros Hs Hc. unfold Flags. tauto. Qed.

Lemma noteDisconnecting_fields c :
  runsLeft (noteDisconnecting c) = runsLeft c /\ stopper (noteDisconnecting c) = stopper c /\
  m_profileConnecting (noteDisconnecting c) = m_profileConnecting c.
Proof.
  unfold noteDisconnecting. destruct (syncState_fields (c <| m_profileDisconnecting := true |>)) as (E1 & E2 & E3 & _).
  split_and!; [exact E1|exact E2|exact E3].
Qed.

Lemma Flags_stopTry onMain id o n c : Flags n c -> Flags n (stopTry onMain id o c).
Proof.
  intros Hf. unfold stopTry. destruct (mu_stopping c); [done|]. destruct Hf as (_ & H2 & _). cbv zeta. apply Flags_stopping; [done|].
  destruct onMain.
  - destruct (noteDisconnecting_fields (c <| mu_stopping := true |>)) as (E1 & _ & E3). unfold runsLeft in *.
    cbn -[noteDisconnecting]. rewrite E3, E1. exact H2.
  - unfold runsLeft, post in *. cbn. rewrite countIf_app. intros Hc. specialize (H2 Hc). lia.
Qed.

Lemma stopStage2_fields a o c :
  (runsLeft c <= runsLeft (stopStage2 a o c))%nat /\ stopper (stopStage2 a o c) = stopper c /\
  m_profileConnecting (stopStage2 a o c) = m_profileConnecting c.
Proof. unfold stopStage2, runsLeft. cbv zeta. case_ifs; cbn; rewrite ?countIf_app; split_and!; (done || lia). Qed.

Lemma Flags_stopperStep a n c : Flags n c -> Flags n (stopperStep a c).
Proof.
  intros Hf. unfold stopperStep. destruct (stopper c) as [w|] eqn:Ew; [|done].
  destruct (stopPhase w); cbv zeta; [| |done|done]; destruct Hf as (_ & H2 & _); (apply Flags_stopping; [done|]).
  - destruct (stopStage2_fields a (stopOptions w) c) as (E1 & E2 & E3). unfold runsLeft in *.
    destruct (manual (stopOptions w)); cbn -[stopStage2]; rewrite E3; intros Hc; specialize (H2 Hc); lia.
  - unfold runsLeft, post, setRunning in *. cbn. rewrite countIf_app. intros Hc. specialize (H2 Hc). lia.
Qed.

Lemma clearRestartNeeded_fields c :
  runsLeft (clearRestartNeeded c) = runsLeft c /\ m_profileConnecting (clearRestartNeeded c) = m_profileConnecting c /\
  m_profileDisconnecting (clearRestartNeeded c) = m_profileDisconnecting c.
Proof. unfold clearRestartNeeded. by case_bool_decide. Qed.

(** Synced, with no stop left. *)
Lemma Flags_stopOver c :
  m_profileDisconnecting c = false -> (m_profileConnecting c = true -> (0 < 0 + runsLeft c)%nat) ->
  m_lastConnectionState c = connectionState c ->
  Flags 0 ((c <| mu_stopping := false |>) <| stopper := None |>).
Proof.
  intros H1 H2 H3. unfold Flags. cbn -[runsLeft]. rewrite H1. split_and!; [done|exact H2|left; exact H3].
Qed.

Lemma emit_fields y c :
  m_profileDisconnecting (emit y c) = m_profileDisconnecting c /\
  m_profileConnecting (emit y c) = m_profileConnecting c /\ runsLeft (emit y c) = runsLeft c /\
  m_lastConnectionState (emit y c) = m_lastConnectionState c /\ connectionState (emit y c) = connectionState c.
Proof. done. Qed.

Lemma Flags_teardown c : Flags 0 c -> Flags 0 (teardown c).
Proof.
  intros Hf. unfold teardown. destruct (stopper c) as [[id o []]|] eqn:Ew; try done. cbv zeta.
  destruct Hf as (_ & H2 & _). apply (carry_same _ _ (same_emit _ _)).
  set (c0 := if m_switchingProfile c then c else emit (Marker MarkStopped) c).
  assert (H0' : m_profileConnecting c0 = true -> (0 < 0 + runsLeft c0)%nat) by (unfold c0; by destruct (m_switchingProfile c)).
  clearbody c0. set (c1 := clearRestartNeeded _).
  destruct (clearRestartNeeded_fields (c0 <| m_profileDisconnecting := false |>)) as (E1 & E2 & E3).
  fold c1 in E1, E2, E3. clearbody c1.
  destruct (syncState_fields (emit (VpnRunStopped id (manual o)) c1)) as (F1 & _ & F3 & F4).
  pose proof (syncState_synced (emit (VpnRunStopped id (manual o)) c1)) as Hs.
  set (c2 := syncState _) in *. clearbody c2.
  destruct (emit_fields StatusChanged c2) as (G1 & G2 & G3 & G4 & G5). set (c3 := emit StatusChanged c2) in *. clearbody c3.
  destruct (emit_fields (RowsChanged [id]) c3) as (K1 & K2 & K3 & K4 & K5).
  set (c4 := emit (RowsChanged [id]) c3) in *. clearbody c4.
  destruct (emit_fields (VpnRunStopped id (manual o)) c1) as (L1 & L2 & L3 & _).
  apply Flags_stopOver; [by rewrite K1, G1, F4, L1, E3|rewrite K2, K3, G2, G3, F1, F3, L2, L3, E1, E2; exact H0'|].
  by rewrite K4, K5, G4, G5.
Qed.

(** ** The start worker *)

(** While a start worker is at work, only the stop's flag is at stake. *)
Lemma Flags_working n c :
  (m_profileDisconnecting c = true -> isSome (stopper c) = true) -> Flags (Datatypes.S n) c.
Proof. intros H1. unfold Flags. split_and!; [done|lia|right; left; lia]. Qed.

Lemma Flags_starterStep a w c w' c' :
  starterStep options a w c = Some (w', c') -> Flags 1 c -> Flags (length (option_list w')) c'.
Proof.
  destruct w as [r tun switching p]. unfold starterStep. cbn [swRequest swTun swSwitching swPhase].
  intros E Hf. destruct p; revert E.
  - destruct (m_running c); intros [= <- <-]; exact Hf.
  - destruct (m_running _); intros [= <- <-]; cbn [option_list length]; carry.
  - intros [= <- <-]. by apply Flags_stopTry.
  - destruct (mu_stopping c); intros [= <- <-]; exact Hf.
  - intros [= <- <-]. exact Hf.
  - pose proof (carry_startStage2 options (Flags 1) a r c Hf) as Hc.
    destruct (startStage2 options a r c) as [started c2]. by intros [= <- <-].
  - intros [= <- <-]. cbn [option_list length]. destruct Hf as (H1 & _ & _).
    assert (Hr : Flags 1 (setRunning (Some (profileId r)) tun c)) by (apply Flags_working; exact H1).
    set (c1 := setRunning _ _ _) in *. clearbody c1. carry.
  - intros [= <- <-]. exact Hf.
  - intros [= <- <-]. cbn [option_list length]. destruct Hf as (H1 & _ & _). unfold Flags, runsLeft, post. cbn.
    rewrite countIf_app, countIf_cons. cbn. split_and!; [done|lia|right; left; lia].
Qed.

Lemma Flags_stepStarter i a c : Flags 0 c -> Flags 0 (stepStarter options i a c).
Proof.
  intros Hf. unfold stepStarter. destruct (starters c !! i) as [w|] eqn:Ew; [|done].
  destruct (starterStep _ _ _ _) as [[w' c']|] eqn:Es; [|done].
  pose proof (starterStep_starters _ _ _ _ _ _ Es) as Hst. cbn in Hst.
  apply Flags_starterStep in Es; [|apply Flags_working; by destruct Hf as (H1 & _)].
  unfold Flags, runsLeft in *. change (connectionState (c' <| starters := ?l |>)) with (connectionState c').
  cbn. rewrite Hst in Es. rewrite !length_app in *. destruct Es as (E1 & E2 & E3).
  split_and!; [done|intros Hc; specialize (E2 Hc); lia|]. destruct E3 as [?|[?|?]]; [by left|right; left; lia|by right; right].
Qed.

(** ** The machine *)

Lemma Flags_runPost p ps e c :
  posts c = p :: ps -> Locks 0 [] c -> Flags 0 c -> Flags 0 (runPost options p e (c <| posts := ps |>)).
Proof.
  intros Hp Hl Hf. destruct (isRunPost p) eqn:Er.
  - assert (Hps : isConnected p = false -> (m_profileConnecting c = true -> (0 < 0 + runsLeft (c <| posts := ps |>))%nat)).
    { intros Hn Hc. destruct Hf as (_ & H2 & _). specialize (H2 Hc). unfold runsLeft in *. rewrite Hp, countIf_cons, Hn in H2.
      exact H2. }
    destruct p; try done; cbn [runPost].
    + unfold connectedCallback. cbv zeta. destruct Hf as (H1 & _ & _).
      assert (Hs : Flags 0 (syncState ((c <| posts := ps |>) <| m_profileConnecting := false |>))) by by apply Flags_sync.
      set (c1 := syncState _) in *. clearbody c1. carry.
    + assert (Hs : isSome (stopper c) = true).
      { destruct Hl as (_ & _ & _ & H4). unfold stopPosts in H4. rewrite Hp in H4. destruct (stopper c); [done|].
        rewrite countIf_cons in H4. cbn in H4. lia. }
      destruct (noteDisconnecting_fields (c <| posts := ps |>)) as (E1 & E2 & E3).
      apply Flags_stopping; [by rewrite E2|]. rewrite E1, E3. by apply Hps.
    + destruct (Locks_runTeardownPost ps c Hp Hl) as (w & Hw & _). change (stopper (c <| posts := ps |>)) with (stopper c).
      rewrite Hw. apply Flags_stopping; [done|]. by apply Hps.
  - apply carry_runPost; [apply _|done|]. by apply (carry_popPost p ps).
Qed.

Lemma Flags_apply e ev c : Locks 0 [] c -> Flags 0 c -> Flags 0 (apply options e ev c).
Proof.
  intros Hl Hf. destruct (isOtherThread ev) eqn:Eo; [by apply carry_otherThread; [apply _|..]|].
  destruct ev; try done; cbn [apply].
  - case_bool_decide; [|done]. destruct ev; try (apply carry_mainEvent; [apply _|done|done]).
    + cbn [mainEvent]. destruct (posts c) eqn:Ep; [done|]. by apply Flags_runPost.
    + by apply Flags_teardown.
  - destruct (todo c) as [|t ts] eqn:Et; [done|]. assert (Ht : Flags 0 (c <| todo := ts |>)) by exact Hf.
    destruct (isPlain t) eqn:Epl; [by apply carry_runTodo; [apply _|..]|]. destruct t; try done; cbn [runTodo].
    + apply (carry_start (Flags 0) (Flags 0)); [done| |done]. intros tun c'. by apply Flags_startLocked.
    + by apply Flags_startRest.
    + by apply Flags_stopTry.
  - by apply Flags_stepStarter.
  - by apply Flags_stopperStep.
  - unfold stepStopCall. destruct (stopCalls c !! i) as [[id o]|]; [|done]. apply Flags_stopTry. exact Hf.
Qed.

Lemma reachable_flags c : reachable options c -> Flags 0 c.
Proof.
  intros Hr. enough (Locks 0 [] c /\ Flags 0 c) by tauto. revert c Hr. apply reachable_ind.
  - intros s p. split; [done|]. unfold Flags. split_and!; [done|done|]. by left.
  - intros e ev c _ [Hl Hf]. split; [by apply Locks_apply|by apply Flags_apply].
Qed.
End Flags.
