(* ===== verification/ConnectionSettles.v ===== *)
(** * ConnectionSettles: the manager always comes to rest

    Left to itself (no new call, dialog answer, report of the core or of the kill
    switch) the manager finishes what is queued: every step of a handler, worker,
    posted callback or sweep lowers [potential], a sum of weights, and while
    something is queued some step is possible.  At rest the locks are free and the
    connection state is [Idle] or [Running], as last announced. *)

From S2P Require Import Prelude Text EngineTypes AutoSelectorController ConnectionState ConnectionStart ConnectionModes ConnectionManager ConnectionCarry ConnectionLocks ConnectionFlags ConnectionLedger.

#[local] Open Scope nat_scope.

(** ** Weights: more than all a step leaves behind *)

Definition resumeWeight (id : Z) (resume : Resume) : nat :=
  match resume with
  | ResumeStart r => if (id =? profileId r)%Z then 24 else 56
  | ResumeRebuild _ => 24
  end.

Definition todoWeight (t : Todo) : nat :=
  match t with
  | TStart _ => 54
  | TStartRest _ _ => 21
  | TStop _ => 8
  | TStopTry _ _ => 7
  | TUnrank | TKillSwitchChanged | TClearTunFlag | TSetSystemProxyRest _ _ | TResetCore | TStatus => 1
  | TResume id resume => resumeWeight id resume
  | TDeferred | TRetryLeftover _ | TSetTunRest _ _ | TCoreStartedRest _ _ => 55
  | TSetTunPrivileges _ _ | TCoreStartedTun _ _ => 56
  | TSetTun _ _ | TSetSystemProxy _ _ => 57
  | TCoreStartedGuiTun _ => 114
  | TCoreStartedModes _ => 172
  end.

Definition postWeight (p : Post) : nat :=
  match p with
  | PStarted _ _ => 3
  | PResume id resume | PRankDone id resume false => resumeWeight id resume + 1
  | PRankDone _ _ true => 26
  | PReranked _ _ => 24
  | _ => 1
  end.

Definition starterWeight (w : Starter) : nat :=
  match swPhase w with
  | WBegin => 20 | WStop => 19 | WStopTry _ => 18 | WWait => 11 | WHold => 10 | WStage2 => 9 | WPublish _ => 8
  | WUnlock _ => 3 | WFinal _ => 2
  end.

Definition stopperWeight (w : option Stopper) : nat :=
  match w with
  | None => 0
  | Some w => match stopPhase w with SBegin => 5 | SClear => 3 | SPosted => 1 | SArmed => 1 end
  end.

Definition jobWeight (j : RankJob) : nat :=
  if postedEarly j then 27 else resumeWeight (rankedProfile j) (rankResume j) + 29.

Definition total {A} (f : A -> nat) (l : list A) : nat := sum_list_with f l.

Definition rankerWeight (k : Ranker) : nat :=
  total jobWeight (rankJobs k) + 25 * length (settling k) + 25 * length (reranking k).

Definition mass {S} (c : Conn S) : nat :=
  total todoWeight (todo c) + total starterWeight (starters c) + stopperWeight (stopper c) +
  7 * length (stopCalls c) + total postWeight (posts c) + length (proxyJobs c) + 2 * length (lookups c) +
  rankerWeight (ranker c).

(** A start whose profile has just been ranked does not rank again. *)
Definition discount {S} (c : Conn S) : nat :=
  match todo c with
  | TStart r :: _ => if (rankedFor (ranker c) =? profileId r)%Z then 32 else 0
  | _ => 0
  end.

Definition potential {S} (c : Conn S) : nat := mass c - discount c.

Lemma total_app {A} (f : A -> nat) l l' : total f (l ++ l') = total f l + total f l'.
Proof. apply sum_list_with_app. Qed.

Lemma total_take_drop {A} (f : A -> nat) l i x :
  l !! i = Some x -> total f l = f x + total f (take i l) + total f (drop (S i) l).
Proof. intros Hl. rewrite <- (take_drop_middle l i x Hl) at 1. rewrite total_app. cbn. unfold total. lia. Qed.

Lemma length_take_drop {A} (l : list A) i x :
  l !! i = Some x -> length l = Datatypes.S (length (take i l ++ drop (S i) l)).
Proof. intros Hl. rewrite <- (take_drop_middle l i x Hl) at 1. rewrite !length_app. cbn. lia. Qed.

Lemma total_cons {A} (f : A -> nat) x l : total f (x :: l) = f x + total f l.
Proof. done. Qed.

Lemma total_nil {A} (f : A -> nat) : total f [] = 0.
Proof. done. Qed.

Lemma total_some {A} (f : A -> nat) x : total f (option_list (Some x)) = f x.
Proof. unfold total. cbn. lia. Qed.

Lemma total_none {A} (f : A -> nat) : total f (option_list None) = 0.
Proof. done. Qed.

#[global] Arguments total : simpl never.

Section Weights.
Context {S : Type} `{Supervisor S} `{QtText} (options : Options).
Implicit Types (c : Conn S) (e : Env) (r : StartRequest).

Lemma mass_emit y c : mass (emit y c) = mass c.
Proof. done. Qed.

Lemma mass_finished r o err c : mass (finished r o err c) = mass c.
Proof. done. Qed.

Lemma mass_ask r c : mass (ask r c) = mass c.
Proof. done. Qed.

Lemma mass_setPrefs f c : mass (setPrefs f c) = mass c.
Proof. done. Qed.

Lemma mass_bumpGeoToken c : mass (bumpGeoToken c) = mass c.
Proof. done. Qed.

Lemma mass_noteStartedId i c : mass (noteStartedId i c) = mass c.
Proof. done. Qed.

Lemma mass_setRunning p t c : mass (setRunning p t c) = mass c.
Proof. done. Qed.

Lemma mass_applySystemProxy b c : mass (applySystemProxy b c) = 1 + mass c.
Proof. unfold mass, applySystemProxy. cbn. rewrite length_app. cbn. lia. Qed.

Lemma mass_next ts c : mass (next ts c) = total todoWeight ts + mass c.
Proof. unfold mass, next. cbn. rewrite total_app. lia. Qed.

Lemma mass_post p c : mass (post p c) = postWeight p + mass c.
Proof. unfold mass, post. cbn. rewrite total_app, total_cons, total_nil. lia. Qed.

Lemma mass_syncState c : mass (syncState c) = mass c.
Proof.
  unfold syncState. case_bool_decide; [done|]. unfold mass, stateSettled, rankerWeight. cbn.
  case_bool_decide; cbn; rewrite ?length_app; lia.
Qed.

Lemma mass_clearRestartNeeded c : mass (clearRestartNeeded c) = mass c.
Proof. unfold clearRestartNeeded. by case_bool_decide. Qed.
End Weights.

(** Follows the code, adding up what it queues. *)
Ltac weigh :=
  repeat first
    [ progress rewrite ?mass_emit, ?mass_finished, ?mass_ask, ?mass_setPrefs, ?mass_bumpGeoToken, ?mass_noteStartedId,
        ?mass_setRunning, ?mass_applySystemProxy, ?mass_next, ?mass_post, ?mass_syncState, ?mass_clearRestartNeeded
    | progress unfold askStart
    | match goal with
      | |- context [mass (set_field ?f ?v ?c)] =>
          let Hf := fresh in
          assert (Hf : forall v0 c0, mass (set_field f v0 c0) = mass c0) by (clear; intros; reflexivity);
          rewrite (Hf v c); clear Hf
      | |- context [mass (match ?b with _ => _ end)] => destruct b eqn:?
      end ];
  rewrite ?total_cons, ?total_nil; cbn [todoWeight postWeight] in *; try lia.

Section Handlers.
Context {S : Type} `{Supervisor S} `{QtText} (options : Options).
Implicit Types (c : Conn S) (e : Env) (r : StartRequest).

Lemma mass_failStart r o err c : mass (failStart r o err c) = mass c.
Proof. unfold failStart. weigh. Qed.

Lemma mass_deferStartToCore r c : mass (deferStartToCore r c) = mass c.
Proof. unfold deferStartToCore. weigh. Qed.

Lemma mass_restartCoreForGuard now r c : mass (restartCoreForGuard now r c) = mass c.
Proof.
  unfold restartCoreForGuard. destruct (setStartWhenUp _ _) as [[] s]; cbn [negb]; [|weigh].
  weigh; rewrite mass_deferStartToCore; weigh.
Qed.

Lemma mass_startLocked r tun c : mass (startLocked r tun c) <= 21 + mass c.
Proof. unfold startLocked. weigh; rewrite mass_failStart; lia. Qed.

Lemma mass_ranker k c : mass (c <| ranker := k |>) + rankerWeight (ranker c) = rankerWeight k + mass c.
Proof. unfold mass. cbn. lia. Qed.

(** A start: [ranks] whether it may rank first. *)
Lemma mass_start e r c :
  mass (start e r c) <= (if (rankedFor (ranker c) =? profileId r)%Z then 21 else 53) + mass c.
Proof.
  unfold start. cbv zeta. set (c1 := bumpGeoToken c). assert (E1 : mass c1 = mass c) by done.
  assert (Er : ranker c1 = ranker c) by done. clearbody c1. rewrite <- E1, <- Er. clear c E1 Er.
  set (k := if (rankedFor (ranker c1) =? profileId r)%Z then 21 else 53). assert (Hk : 21 <= k) by (unfold k; destruct (_ =? _)%Z; lia).
  destruct (prepareExit _); [weigh|]. destruct (0 <=? profileId r)%Z; [|weigh].
  destruct (profileOf e (profileId r)) as [view|]; [|weigh]. destruct (viewDisabled view); [weigh|].
  set (c2 := emit _ _). assert (E2 : mass c2 = mass c1) by done. assert (Er2 : ranker c2 = ranker c1) by done. clearbody c2.
  destruct (negb (bool_decide _)); [weigh|]. unfold startChecked. cbv zeta.
  case_bool_decide; [unfold deferToKillSwitch; weigh|]. destruct (negb (allowsStart _)); [weigh|].
  destruct (_ || _); [rewrite mass_restartCoreForGuard; lia|].
  set (k0 := (ranker c2) <| rankedFor := (-1)%Z |>).
  assert (E3 : mass (c2 <| ranker := k0 |>) = mass c2) by (pose proof (mass_ranker k0 c2); unfold rankerWeight in *; cbn in *; lia).
  assert (Hend : forall c3, mass c3 = mass c2 ->
    mass (if negb (bool_decide (buildError view = [])) then failStart r BuildFailed (buildError view) c3
          else startLocked r (buildTun view) c3) <= k + mass c1).
  { intros c3 Ec3. destruct (negb _); [rewrite mass_failStart; lia|]. pose proof (mass_startLocked r (buildTun view) c3). lia. }
  unfold rankBeforeStart. cbv zeta. fold k0.
  destruct (negb (viewSelector view) || _ || (rankedFor (ranker c2) =? profileId r)%Z) eqn:Ej; [by apply Hend|].
  destruct (negb (viewNeedsRanking view)); [by apply Hend|].
  apply orb_false_iff in Ej as [_ Ej]. unfold k. rewrite <- Er2, Ej.
  pose proof (mass_ranker (launchRank (profileId r) (ResumeStart r) k0) c2) as Hm.
  unfold rankerWeight, launchRank in Hm. cbn in Hm. rewrite total_app, total_cons, total_nil in Hm. cbn in Hm.
  rewrite Z.eqb_refl in Hm. unfold k0 in *. cbn in Hm. unfold launchRank. cbn. lia.
Qed.

Lemma mass_starters l c : mass (c <| starters := l |>) + total starterWeight (starters c) = total starterWeight l + mass c.
Proof. unfold mass. cbn. lia. Qed.

Lemma mass_stopper w c : mass (c <| stopper := w |>) + stopperWeight (stopper c) = stopperWeight w + mass c.
Proof. unfold mass. cbn. lia. Qed.

Lemma mass_startRest r tun c : mass (startRest r tun c) <= 20 + mass c.
Proof.
  unfold startRest. cbv zeta. set (c1 := c <| mu_stopping := false |>). assert (E1 : mass c1 = mass c) by done. clearbody c1.
  destruct (awaitingCoreStarted _); [weigh; rewrite mass_deferStartToCore; weigh|].
  destruct (negb (coreIsRunning _)).
  - destruct (negb _); [rewrite mass_failStart; weigh|]. weigh. rewrite mass_deferStartToCore. lia.
  - set (c2 := emit BusyChanged _). assert (E2 : mass c2 = mass c1) by (unfold c2; weigh). clearbody c2.
    pose proof (mass_starters (starters c2 ++ [MkStarter r tun false WBegin]) c2) as Hm.
    rewrite total_app, total_cons, total_nil in Hm. cbn [starterWeight swPhase] in Hm. lia.
Qed.

Lemma mass_noteDisconnecting c : mass (noteDisconnecting c) = mass c.
Proof. unfold noteDisconnecting. weigh. Qed.

Lemma mass_stopTry onMain id o c : mass (stopTry onMain id o c) <= (if onMain then 5 else 6) + mass c.
Proof.
  unfold stopTry. destruct (mu_stopping c); [destruct onMain; lia|]. cbv zeta.
  set (c1 := if onMain then _ else _).
  assert (E1 : mass c1 <= (if onMain then 0 else 1) + mass c).
  { unfold c1. destruct onMain; [rewrite mass_noteDisconnecting|]; weigh. }
  clearbody c1. pose proof (mass_stopper (Some (MkStopper id o SBegin)) c1) as Hm. cbn [stopperWeight stopPhase] in Hm.
  destruct onMain; lia.
Qed.

Lemma mass_stopOnMain o c : mass (stopOnMain o c) <= 7 + mass c.
Proof. unfold stopOnMain, stopToken. weigh. Qed.

(** ** Modes *)

Lemma mass_tunBlockedReason e c : mass (tunBlockedReason options e c).2 = mass c.
Proof. unfold tunBlockedReason. cbv zeta. case_ifs; cbn [snd]; weigh. Qed.

Lemma mass_tunRestoreHoldReason e c : mass (tunRestoreHoldReason options e c).2 = mass c.
Proof.
  unfold tunRestoreHoldReason. pose proof (mass_tunBlockedReason e c) as Hm.
  destruct (tunBlockedReason options e c) as [why c1]. cbn [snd] in Hm. by case_ifs.
Qed.

Lemma mass_setSystemProxy enable change c : mass (setSystemProxy options enable change c) <= 56 + mass c.
Proof. unfold setSystemProxy. weigh. Qed.

Lemma mass_setTun enable change e c : mass (setTun options enable change e c) <= 56 + mass c.
Proof.
  unfold setTun. cbv zeta. set (c1 := if negb enable && m_tunRestoreHeld c then _ else c).
  assert (E1 : mass c1 = mass c) by (unfold c1; weigh). clearbody c1. rewrite <- E1.
  destruct (Bool.eqb _ _); [lia|]. destruct (negb enable); [weigh|].
  pose proof (mass_tunBlockedReason e c1) as Hm. destruct (tunBlockedReason options e c1) as [reason c2]. cbn [snd] in Hm. weigh.
Qed.

(** A dialog takes the rest of the handler away. *)
Lemma mass_openDialog d c : mass (openDialog d c) <= mass c.
Proof. unfold mass, openDialog. cbn. rewrite total_nil. lia. Qed.

Lemma mass_setTunPrivileges enable change e c : mass (setTunPrivileges options enable change e c) <= 55 + mass c.
Proof.
  unfold setTunPrivileges. destruct (_ && _); [weigh|]. unfold ensureTunPrivileges.
  destruct (disable_privilege_req _); [weigh|]. destruct (negb (bool_decide _)); [weigh|].
  destruct (tunPrivileged _ _); [weigh|]. destruct (negb _); [weigh|].
  pose proof (mass_openDialog (RequestCorePrivileges enable change) c). unfold openDialog in *. lia.
Qed.

Lemma mass_setTunRest enable change c : mass (setTunRest enable change c) <= 54 + mass c.
Proof. unfold setTunRest. weigh. Qed.

Lemma mass_onKillSwitchStateChanged e c : mass (onKillSwitchStateChanged e c) = mass c.
Proof.
  unfold onKillSwitchStateChanged. cbv zeta. set (c1 := if bool_decide (ksState e = KsFailed) && _ then _ else _).
  assert (E1 : mass c1 = mass c) by (unfold c1; weigh). clearbody c1. rewrite <- E1. destruct (_ && _ && _); [|done].
  assert (E2 : mass (guardRequest c1).2 = mass c1) by (unfold guardRequest; case_ifs; cbn [snd]; weigh).
  destruct (guardRequest c1) as [r c2]. cbn [snd] in E2. by rewrite mass_restartCoreForGuard.
Qed.

Lemma mass_coreStartedTun id wantTun e c : mass (coreStartedTun options id wantTun e c) <= 55 + mass c.
Proof.
  unfold coreStartedTun. cbv zeta. set (c1 := (if wantTun then _ else c) <| m_tunRestoreHeld := _ |>).
  assert (E1 : mass c1 = mass c) by (unfold c1; weigh). clearbody c1. rewrite <- E1. destruct (m_tunRestoreHeld c1); [|weigh].
  pose proof (mass_tunRestoreHoldReason e c1) as Hm. destruct (tunRestoreHoldReason options e c1) as [why c2]. cbn [snd] in Hm. weigh.
Qed.

Lemma mass_coreStartedRest id why c : mass (coreStartedRest id why c) <= 54 + mass c.
Proof.
  unfold coreStartedRest. cbv zeta. set (c1 := if _ && negb (profileId (m_coreStartRequest c) =? id)%Z then _ else _).
  assert (E1 : mass c1 = mass c) by (unfold c1; weigh). clearbody c1. rewrite <- E1. destruct (id <? 0)%Z; [lia|].
  destruct (_ =? id)%Z; weigh.
Qed.

(** ** Callbacks *)

Lemma mass_setRankedFor id c : mass (c <| ranker := (ranker c) <| rankedFor := id |> |>) = mass c.
Proof. done. Qed.

Lemma mass_startRanked id r c : mass (startRanked id r c) = 55 + mass c.
Proof. unfold startRanked. rewrite mass_next, mass_setRankedFor, !total_cons, total_nil. cbn. lia. Qed.

Lemma mass_lookups l c : mass (c <| lookups := l |>) + 2 * length (lookups c) = 2 * length l + mass c.
Proof. unfold mass. cbn. lia. Qed.

Lemma mass_countryInfo m z c : mass ((c <| m_geoRetriedProfile := z |>) <| countryInfo := m |>) = mass c.
Proof. done. Qed.

Lemma mass_startedCallback r endpoint c : mass (startedCallback options r endpoint c) <= 2 + mass c.
Proof.
  unfold startedCallback. cbv zeta. set (c0 := _ <| countryInfo := _ |>).
  assert (E0 : mass c0 = mass c) by apply mass_countryInfo. clearbody c0. rewrite <- E0. set (c1 := finished r Started [] _).
  assert (E1 : mass c1 = mass c0) by (unfold c1; by rewrite mass_finished, !mass_emit, mass_clearRestartNeeded).
  clearbody c1. rewrite <- E1. destruct endpoint; [lia|]. destruct (_ && _); [|lia].
  pose proof (mass_lookups (lookups c1 ++ [profileId r]) c1) as Hm. rewrite length_app in Hm. cbn in Hm. lia.
Qed.


Lemma potential_mass c : potential c <= mass c.
Proof. unfold potential. lia. Qed.

(** A ranked start is discounted. *)
Lemma potential_startRanked id r c :
  potential (startRanked id r c) <= (if (id =? profileId r)%Z then 23 else 55) + mass c.
Proof.
  unfold potential. rewrite mass_startRanked. unfold discount, startRanked, next. cbn. destruct (id =? profileId r)%Z; lia.
Qed.

Lemma potential_runResume id resume c : potential (runResume id resume c) + 1 <= resumeWeight id resume + mass c.
Proof.
  unfold runResume, resumeWeight. destruct resume as [r|profileID].
  - pose proof (potential_startRanked id r c). destruct (id =? profileId r)%Z; lia.
  - case_bool_decide; [|pose proof (potential_mass c); lia].
    pose proof (potential_startRanked profileID (requestFor profileID) (ask (requestFor profileID) c)) as Hp.
    cbn [profileId requestFor] in Hp. rewrite Z.eqb_refl, mass_ask in Hp. lia.
Qed.

Lemma mass_rankDone id resume early c : mass (rankDone id resume early c) + 1 <= postWeight (PRankDone id resume early) + mass c.
Proof.
  unfold rankDone. cbv zeta. set (c1 := c <| ranker := _ |>). assert (E1 : mass c1 = mass c) by done. clearbody c1. rewrite <- E1.
  destruct early; cbn [postWeight].
  - pose proof (mass_ranker (finishEarlySweep id (bool_decide (connectionState c1 = Connecting)) (ranker c1)) c1) as Hm.
    unfold finishEarlySweep, rankerWeight in *. destruct (bool_decide _); cbn in Hm |- *; rewrite length_app in Hm; cbn in Hm; lia.
  - rewrite mass_next, total_cons, total_nil. cbn. lia.
Qed.

Lemma potential_reranked id changed c : potential (reranked id changed c) + 1 <= 24 + mass c.
Proof.
  unfold reranked. destruct (_ || _); [pose proof (potential_mass c); lia|].
  pose proof (potential_startRanked id (requestFor id) (ask (requestFor id) c)) as Hp.
  cbn [profileId requestFor] in Hp. rewrite Z.eqb_refl, mass_ask in Hp. lia.
Qed.

Lemma mass_armTeardown c :
  mass (match stopper c with
        | Some w => c <| stopper := Some (MkStopper (stopId w) (stopOptions w) SArmed) |>
        | None => c
        end) <= mass c.
Proof.
  destruct (stopper c) as [w|] eqn:Ew; [|lia].
  pose proof (mass_stopper (Some (MkStopper (stopId w) (stopOptions w) SArmed)) c) as Hm. rewrite Ew in Hm. cbn in Hm.
  destruct (stopPhase w); lia.
Qed.

Lemma potential_runPost p e c : potential (runPost options p e c) + 1 <= postWeight p + mass c.
Proof.
  destruct p; cbn [runPost];
    lazymatch goal with
    | |- context [reranked] => idtac
    | _ => eapply Nat.le_trans; [apply Nat.add_le_mono_r, potential_mass|]
    end.
  - weigh.
  - cbn [postWeight]. pose proof (mass_startedCallback request exitIsEndpoint c). lia.
  - unfold connectedCallback. weigh.
  - rewrite mass_noteDisconnecting. weigh.
  - weigh.
  - pose proof (mass_armTeardown c). weigh.
  - weigh.
  - weigh.
  - pose proof (mass_openDialog (OfferLeftoverRetry profileId) c). weigh.
  - pose proof (mass_openDialog OfferCoreReset c). weigh.
  - weigh.
  - pose proof (mass_rankDone id resume early c). lia.
  - apply potential_reranked.
  - weigh.
Qed.

Definition headWeight c (t : Todo) : nat :=
  match t with
  | TStart r => if (rankedFor (ranker c) =? profileId r)%Z then 22 else 54
  | _ => todoWeight t
  end.

Lemma potential_runTodo t e c : potential (runTodo options t e c) + 1 <= headWeight c t + mass c.
Proof.
  destruct t; cbn [runTodo headWeight todoWeight];
    lazymatch goal with
    | |- context [runResume] => idtac
    | _ => eapply Nat.le_trans; [apply Nat.add_le_mono_r, potential_mass|]
    end.
  - pose proof (mass_start e request c). destruct (_ =? _)%Z; lia.
  - pose proof (mass_startRest request tun c). lia.
  - pose proof (mass_stopOnMain options0 c). lia.
  - pose proof (mass_stopTry true id options0 c). cbn in *. lia.
  - rewrite mass_setRankedFor. lia.
  - apply potential_runResume.
  - unfold startDeferred. weigh.
  - rewrite mass_onKillSwitchStateChanged. lia.
  - unfold coreStartedModes. weigh.
  - unfold coreStartedGuiTun. weigh.
  - pose proof (mass_coreStartedTun profileId wantTun e c). lia.
  - weigh.
  - pose proof (mass_coreStartedRest profileId tunHoldWhy c). lia.
  - pose proof (mass_setSystemProxy enable change c). lia.
  - unfold setSystemProxyRest. weigh.
  - pose proof (mass_setTun enable change e c). lia.
  - pose proof (mass_setTunPrivileges enable change e c). lia.
  - pose proof (mass_setTunRest enable change c). lia.
  - unfold retryLeftover. weigh.
  - weigh.
  - weigh.
Qed.


(** ** The other threads *)

Lemma mass_startRefused a r c : mass (startRefused options a r c) <= 2 + mass c.
Proof. unfold startRefused, postFinish. weigh. Qed.

Lemma mass_startStage2 a r c :
  mass (startStage2 options a r c).2 <= (if (startStage2 options a r c).1 then 0 else 2) + mass c.
Proof.
  unfold startStage2, postFinish. destruct (extraCoreRefused a); cbn [fst snd]; [weigh|].
  destruct (negb (startRpcOK a)); cbn [fst snd]; [weigh|]. destruct (negb _); cbn [fst snd]; [apply mass_startRefused|weigh].
Qed.

Lemma mass_starterStep a w c w' c' :
  starterStep options a w c = Some (w', c') ->
  mass c' + total starterWeight (option_list w') + 1 <= starterWeight w + mass c.
Proof.
  destruct w as [r tun switching p]. unfold starterStep. cbn [swRequest swTun swSwitching swPhase].
  intros E. destruct p; revert E.
  - destruct (m_running c); intros [= <- <-]; rewrite ?total_some, ?total_none; cbn; weigh.
  - destruct (m_running _); intros [= <- <-]; rewrite ?total_some, ?total_none; cbn; weigh.
  - intros [= <- <-]. rewrite total_some. cbn.
    pose proof (mass_stopTry false id (MkStop false false true (interactive r) 0 false) c). cbn in *. lia.
  - destruct (mu_stopping c); intros [= <- <-]; rewrite ?total_some, ?total_none; cbn; weigh.
  - intros [= <- <-]. rewrite total_some. cbn. weigh.
  - pose proof (mass_startStage2 a r c) as Hm. destruct (startStage2 options a r c) as [started c2]. cbn [fst snd] in Hm.
    intros [= <- <-]. rewrite total_some. destruct started; cbn; lia.
  - intros [= <- <-]. rewrite total_some. cbn.
    set (c1 := if spmode_system_proxy (prefs _) then _ else _). assert (E1 : mass c1 <= 1 + mass c) by (unfold c1; weigh). clearbody c1. weigh.
  - intros [= <- <-]. rewrite total_some. cbn. weigh.
  - intros [= <- <-]. rewrite total_none. cbn. weigh.
Qed.

Lemma mass_stopStage2 a o c : mass (stopStage2 a o c) <= 1 + mass c.
Proof. unfold stopStage2. weigh. Qed.

(** What the discount depends on. *)
Definition sameHead c c' : Prop := todo c' = todo c /\ rankedFor (ranker c') = rankedFor (ranker c).

Lemma potential_lowers c c' : sameHead c c' -> mass c' < mass c -> potential c' < potential c.
Proof.
  intros [E1 E2] Hm. unfold potential. assert (Hd : discount c' = discount c) by (unfold discount; by rewrite E1, E2).
  rewrite Hd. enough (discount c <= mass c') by lia. unfold discount in *. rewrite E1 in Hd.
  destruct (todo c) as [|t ts] eqn:Et; [lia|]. destruct t; try lia. destruct (_ =? _)%Z; [|lia].
  unfold mass. rewrite E1, total_cons. cbn. lia.
Qed.

Lemma starterStep_sameHead a w c w' c' : starterStep options a w c = Some (w', c') -> sameHead c c'.
Proof.
  unfold starterStep. destruct (swPhase w).
  - destruct (m_running c); by intros [= _ <-].
  - destruct (m_running _); by intros [= _ <-].
  - intros [= _ <-]. unfold stopTry. by destruct (mu_stopping c).
  - destruct (mu_stopping c); by intros [= _ <-].
  - by intros [= _ <-].
  - unfold startStage2, startRefused. destruct (extraCoreRefused a); [|destruct (negb (startRpcOK a)); [|destruct (negb _)]].
    all: cbn [fst snd]; case_ifs; by intros [= _ <-].
  - case_ifs; by intros [= _ <-].
  - by intros [= _ <-].
  - by intros [= _ <-].
Qed.

Definition isWait (w : Starter) : bool := match swPhase w with WWait => true | _ => false end.

Lemma starterStep_blocked a w c : starterStep options a w c = None -> isWait w && mu_stopping c = true.
Proof.
  unfold starterStep, isWait. destruct (swPhase w); try done.
  - by destruct (m_running c).
  - by destruct (m_running _).
  - by destruct (mu_stopping c).
  - by destruct (startStage2 _ _ _ _).
Qed.


(** ** Steps the manager can take by itself *)

Definition ready (ev : Event (S := S)) c : bool :=
  match ev with
  | Continue => negb (bool_decide (todo c = []))
  | Main EvPost => bool_decide (todo c = []) && negb (bool_decide (posts c = []))
  | Main EvTimer =>
      bool_decide (todo c = []) && match stopper c with Some (MkStopper _ _ SArmed) => true | _ => false end
  | ThStarter i _ =>
      match starters c !! i with Some w => negb (isWait w && mu_stopping c) | None => false end
  | ThStopper _ => match stopper c with Some (MkStopper _ _ (SBegin | SClear)) => true | _ => false end
  | ThStopTry i => isSome (stopCalls c !! i)
  | ThRankEarly i => match rankJobs (ranker c) !! i with Some j => negb (postedEarly j) | None => false end
  | ThRankEnd i => isSome (rankJobs (ranker c) !! i)
  | ThRerank i _ => isSome (reranking (ranker c) !! i)
  | ThLookup i _ => isSome (lookups c !! i)
  | ThProxy => negb (bool_decide (proxyJobs c = []))
  | _ => false
  end.

Lemma total_jobs_insert i id resume (l : list RankJob) :
  l !! i = Some (MkRankJob id resume false) ->
  total jobWeight (<[i := MkRankJob id resume true]> l) + resumeWeight id resume + 2 = total jobWeight l.
Proof.
  intros Hl. rewrite (total_take_drop _ _ _ _ Hl).
  rewrite (total_take_drop _ (<[i := MkRankJob id resume true]> l) i (MkRankJob id resume true))
    by (apply list_lookup_insert_eq; by eapply lookup_lt_Some).
  rewrite take_insert_ge, drop_insert_lt by lia. unfold jobWeight at 1 4. cbn. lia.
Qed.

Lemma rankEarly_lowers i c : ready (ThRankEarly i) c = true -> potential (rankEarly i c) < potential c.
Proof.
  cbn [ready]. unfold rankEarly. destruct (rankJobs (ranker c) !! i) as [[id resume []]|] eqn:Ej; try done. intros _.
  apply potential_lowers; [done|]. rewrite mass_post. cbn [postWeight].
  pose proof (mass_ranker ((ranker c) <| rankJobs := <[i := MkRankJob id resume true]> (rankJobs (ranker c)) |>) c) as Hm.
  unfold rankerWeight in Hm. cbn in Hm. pose proof (total_jobs_insert i id resume _ Ej). lia.
Qed.

Lemma rankEnd_lowers i c : ready (ThRankEnd i) c = true -> potential (rankEnd i c) < potential c.
Proof.
  cbn [ready]. unfold rankEnd. destruct (rankJobs (ranker c) !! i) as [[id resume early]|] eqn:Ej; [|done]. intros _.
  apply potential_lowers; [done|]. rewrite mass_post.
  set (k := (ranker c) <| rankJobs := _ |>). pose proof (mass_ranker k c) as Hm. unfold k, rankerWeight in Hm. cbn in Hm.
  rewrite (total_take_drop _ _ _ _ Ej), total_app in Hm. unfold jobWeight at 1 in Hm. cbn in Hm. fold k in Hm.
  destruct early; cbn in *; lia.
Qed.

Lemma rerankEnd_lowers i changed c : ready (ThRerank i changed) c = true -> potential (rerankEnd i changed c) < potential c.
Proof.
  cbn [ready]. unfold rerankEnd. destruct (reranking (ranker c) !! i) as [id|] eqn:Ej; [|done]. intros _.
  apply potential_lowers; [done|]. rewrite mass_post. cbn [postWeight].
  set (k := (ranker c) <| reranking := _ |>). pose proof (mass_ranker k c) as Hm. unfold k, rankerWeight in Hm. cbn in Hm.
  rewrite (length_take_drop _ _ _ Ej) in Hm. fold k in Hm. lia.
Qed.

Lemma lookupEnd_lowers i text c : ready (ThLookup i text) c = true -> potential (lookupEnd i text c) < potential c.
Proof.
  cbn [ready]. unfold lookupEnd. destruct (lookups c !! i) as [id|] eqn:Ej; [|done]. intros _.
  pose proof (mass_lookups (take i (lookups c) ++ drop (Datatypes.S i) (lookups c)) c) as Hm.
  rewrite (length_take_drop _ _ _ Ej) in Hm. destruct text; (apply potential_lowers; [done|]); rewrite ?mass_post; cbn [postWeight]; lia.
Qed.

Lemma proxy_lowers c : ready ThProxy c = true -> potential (runProxyJob c) < potential c.
Proof.
  cbn [ready]. unfold runProxyJob. destruct (proxyJobs c) as [|b jobs] eqn:Ej; [done|]. intros _. cbv zeta.
  assert (Hm : mass (c <| proxyJobs := jobs |>) + 1 = mass c) by (unfold mass; cbn; rewrite Ej; cbn; lia).
  destruct b; cbn [negb]; [destruct (spmode_system_proxy _)|]; (apply potential_lowers; [done|]); weigh.
Qed.

Lemma stopCall_lowers i c : ready (ThStopTry i) c = true -> potential (stepStopCall i c) < potential c.
Proof.
  cbn [ready]. unfold stepStopCall. destruct (stopCalls c !! i) as [[id o]|] eqn:Ej; [|done]. intros _.
  set (c1 := c <| stopCalls := _ |>).
  assert (Hm : mass c1 + 7 = mass c) by (unfold c1, mass; cbn; rewrite (length_take_drop _ _ _ Ej); lia).
  pose proof (mass_stopTry false id o c1) as Ht. cbn in Ht. apply potential_lowers; [|lia].
  unfold stopTry. by destruct (mu_stopping c1).
Qed.

Lemma stopper_lowers a c : ready (ThStopper a) c = true -> potential (stopperStep a c) < potential c.
Proof.
  cbn [ready]. unfold stopperStep. destruct (stopper c) as [[id o []]|] eqn:Ew; try done; intros _; cbn [stopPhase stopOptions stopId]; cbv zeta.
  - set (c1 := if manual o then _ else _).
    assert (H1 : mass c1 <= 1 + mass c) by (pose proof (mass_stopStage2 a o c); unfold c1; weigh).
    assert (Hh : sameHead c c1 /\ stopper c1 = stopper c) by (unfold c1, stopStage2; destruct (manual o); case_ifs; done).
    destruct Hh as [Hh Hs]. pose proof (mass_stopper (Some (MkStopper id o SClear)) c1) as Hm. rewrite Hs, Ew in Hm.
    cbn in Hm. apply potential_lowers; [exact Hh|lia].
  - apply potential_lowers; [done|].
    pose proof (mass_stopper (Some (MkStopper id o SPosted)) (post PTeardown (setRunning None false c))) as Hm.
    change (stopper (post PTeardown (setRunning None false c))) with (stopper c) in Hm. rewrite Ew, mass_post, mass_setRunning in Hm.
    cbn in Hm. lia.
Qed.

Lemma starter_lowers i a c : ready (ThStarter i a) c = true -> potential (stepStarter options i a c) < potential c.
Proof.
  cbn [ready]. unfold stepStarter. destruct (starters c !! i) as [w|] eqn:Ew; [|done]. intros Hw.
  set (c1 := c <| starters := _ |>). destruct (starterStep options a w c1) as [[w' c']|] eqn:Es.
  2: { apply starterStep_blocked in Es. change (mu_stopping c1) with (mu_stopping c) in Es. by rewrite Es in Hw. }
  pose proof (mass_starterStep _ _ _ _ _ Es) as Hm. pose proof (starterStep_sameHead _ _ _ _ _ Es) as [Ht Hf].
  pose proof (starterStep_starters _ _ _ _ _ _ Es) as Hst.
  pose proof (mass_starters (take i (starters c) ++ drop (Datatypes.S i) (starters c)) c) as Hc. fold c1 in Hc.
  pose proof (mass_starters (take i (starters c) ++ option_list w' ++ drop (Datatypes.S i) (starters c)) c') as Hc'.
  rewrite Hst in Hc'. change (starters c1) with (take i (starters c) ++ drop (Datatypes.S i) (starters c)) in Hc'.
  rewrite (total_take_drop _ _ _ _ Ew) in Hc. rewrite !total_app in *.
  apply potential_lowers; [split; [exact Ht|exact Hf]|lia].
Qed.


Lemma mass_stopOver id o c k :
  stopper c = Some (MkStopper id o SArmed) -> mass c <= k ->
  mass ((c <| mu_stopping := false |>) <| stopper := None |>) + 1 <= k.
Proof.
  intros Hs Hk. pose proof (mass_stopper None (c <| mu_stopping := false |>)) as Hm.
  change (stopper (c <| mu_stopping := false |>)) with (stopper c) in Hm. rewrite Hs in Hm. cbn [stopperWeight stopPhase] in Hm.
  change (mass (c <| mu_stopping := false |>)) with (mass c) in Hm. lia.
Qed.

Lemma mass_disconnecting b c : mass (c <| m_profileDisconnecting := b |>) = mass c.
Proof. done. Qed.

Lemma mass_teardown c : ready (Main EvTimer) c = true -> mass (teardown c) + 1 <= mass c.
Proof.
  cbn [ready]. intros [_ Hw]%andb_true_iff. unfold teardown. destruct (stopper c) as [[id o []]|] eqn:Ew; try done. cbv zeta.
  rewrite mass_emit. apply (mass_stopOver id o).
  - rewrite !stopper_emit, stopper_syncState, stopper_emit, stopper_clearRestartNeeded, stopper_disconnecting.
    destruct (m_switchingProfile c); [done|]. by rewrite stopper_emit.
  - rewrite !mass_emit, mass_syncState, mass_emit, mass_clearRestartNeeded, mass_disconnecting.
    destruct (m_switchingProfile c); [done|]. by rewrite mass_emit.
Qed.

Lemma potential_idle c : todo c = [] -> potential c = mass c.
Proof. intros Ht. unfold potential, discount. rewrite Ht. lia. Qed.

Lemma continue_lowers e c : ready Continue c = true -> potential (apply options e Continue c) < potential c.
Proof.
  cbn [ready apply]. destruct (todo c) as [|t ts] eqn:Et; [done|]. intros _.
  pose proof (potential_runTodo t e (c <| todo := ts |>)) as Hr.
  assert (Hm : mass c = todoWeight t + mass (c <| todo := ts |>)) by (unfold mass; cbn; rewrite Et, total_cons; lia).
  assert (Hp : potential c = headWeight (c <| todo := ts |>) t + mass (c <| todo := ts |>)); [|lia].
  unfold potential, discount, headWeight. rewrite Hm, Et. change (ranker (c <| todo := ts |>)) with (ranker c).
  destruct t; cbn [todoWeight]; try lia. destruct (_ =? _)%Z; lia.
Qed.

(** Every step the manager takes by itself lowers the potential. *)
Lemma ready_lowers ev e c : ready ev c = true -> potential (apply options e ev c) < potential c.
Proof.
  intros Hr. destruct ev; try done.
  - cbn [apply]. destruct ev; try done; cbn [ready] in Hr; apply andb_true_iff in Hr as [Ht Hr]; rewrite Ht; cbn [mainEvent];
      apply bool_decide_eq_true in Ht.
    + destruct (posts c) as [|p ps] eqn:Ep; [done|]. pose proof (potential_runPost p e (c <| posts := ps |>)) as Hm.
      rewrite (potential_idle c) by done.
      assert (mass c = postWeight p + mass (c <| posts := ps |>)) by (unfold mass; cbn; rewrite Ep, total_cons; lia). lia.
    + rewrite (potential_idle c) by done. pose proof (potential_mass (teardown c)).
      enough (mass (teardown c) + 1 <= mass c) by lia. apply mass_teardown. cbn [ready]. by rewrite bool_decide_true.
  - by apply continue_lowers.
  - by apply starter_lowers.
  - by apply stopper_lowers.
  - by apply stopCall_lowers.
  - by apply rankEarly_lowers.
  - by apply rankEnd_lowers.
  - by apply rerankEnd_lowers.
  - by apply lookupEnd_lowers.
  - by apply proxy_lowers.
Qed.

(** ** The rest of a start is never left behind *)

(** Only the section the handler is about to run can be the rest of a start. *)
Definition Front c : Prop := countIf isRest (tail (todo c)) = 0 /\ countIf isRest (dialogs c ≫= snd) = 0.

Definition NoRest c : Prop := rests c = 0.

#[local] Instance NoRest_carried : Carried NoRest.
Proof.
  unfold NoRest, rests. split.
  - intros c c' (E1 & E2 & _). by rewrite E1, E2.
  - intros ts c Hts Hn. cbn. rewrite countIf_app, (countIf_none _ ts) by done. exact Hn.
  - intros p c _ Hn. exact Hn.
  - intros c Hn. unfold syncState. by case_bool_decide.
  - intros d c Hn. unfold openDialog. cbn. rewrite bind_app, bind_cons, countIf_app. cbn. rewrite app_nil_r, countIf_nil. lia.
  - intros i yes c Hn. unfold answerDialog. destruct (dialogs c !! i) as [[d rest]|] eqn:Ed; [|done].
    assert (Ha : countIf isRest (answered d yes) = 0%nat) by by destruct d, yes.
    rewrite <- (take_drop_middle _ _ _ Ed), !bind_app, bind_cons, !countIf_app in Hn. cbn in Hn.
    unfold next. cbn. rewrite bind_app, !countIf_app. lia.
  - intros t ts c Ht Hr Hn. cbn. rewrite Ht, countIf_cons, Hr in Hn. exact Hn.
  - intros p ps c _ _ Hn. exact Hn.
Qed.

Lemma NoRest_Front c : NoRest c -> Front c.
Proof. unfold NoRest, rests, Front. destruct (todo c); cbn; [lia|]. rewrite countIf_cons. lia. Qed.

Lemma Front_idle c : todo c = [] -> Front c -> NoRest c.
Proof. unfold NoRest, rests, Front. intros ->. cbn. rewrite !countIf_nil. lia. Qed.

Lemma Front_pop t ts c : todo c = t :: ts -> Front c -> NoRest (c <| todo := ts |>).
Proof. unfold NoRest, rests, Front. intros ->. cbn. lia. Qed.

Lemma Front_startLocked r tun c : NoRest c -> Front (startLocked r tun c).
Proof.
  intros Hn. unfold startLocked. destruct (mu_starting c); [by apply NoRest_Front, carry_failStart; [apply _|]|].
  destruct (mu_stopping c); [by apply NoRest_Front, carry_failStart; [apply _|]|].
  unfold NoRest, rests, Front in *. cbn. lia.
Qed.

Lemma NoRest_same c c' : todo c' = todo c -> dialogs c' = dialogs c -> NoRest c -> NoRest c'.
Proof. unfold NoRest, rests. by intros -> ->. Qed.

Lemma Front_same c c' : todo c' = todo c -> dialogs c' = dialogs c -> Front c -> Front c'.
Proof. unfold Front. by intros -> ->. Qed.

Lemma stopTry_todo onMain id o c : todo (stopTry onMain id o c) = todo c /\ dialogs (stopTry onMain id o c) = dialogs c.
Proof.
  unfold stopTry. destruct (mu_stopping c); [done|]. destruct onMain; [|done]. unfold noteDisconnecting, syncState.
  by case_bool_decide.
Qed.


Lemma startRest_NoRest r tun c : NoRest c -> NoRest (startRest r tun c).
Proof.
  intros Hn. unfold startRest. cbv zeta. set (c1 := c <| mu_stopping := false |>).
  assert (H1 : NoRest c1) by exact Hn. clearbody c1.
  pose proof (carry_deferStartToCore NoRest r c1 H1) as Hd. set (c2 := deferStartToCore r c1) in *. clearbody c2.
  destruct (awaitingCoreStarted _); [exact Hd|]. destruct (negb (coreIsRunning _)).
  - destruct (negb _); [|exact Hd]. apply carry_failStart; [apply _|]. exact H1.
  - set (c3 := c1 <| m_profileConnecting := true |>). assert (H3 : NoRest c3) by exact H1. clearbody c3.
    apply carry_sync in H3. exact H3.
Qed.

Lemma teardown_Front c : Front c -> Front (teardown c).
Proof.
  apply Front_same; unfold teardown; destruct (stopper c) as [[id o []]|]; try done; unfold clearRestartNeeded, syncState;
    destruct (m_switchingProfile c); repeat case_bool_decide; done.
Qed.

Lemma runPost_NoRest p ps e c : posts c = p :: ps -> NoRest c -> NoRest (runPost options p e (c <| posts := ps |>)).
Proof.
  intros Hp Hn. assert (H1 : NoRest (c <| posts := ps |>)) by exact Hn. set (c1 := c <| posts := ps |>) in *. clearbody c1.
  destruct (isRunPost p) eqn:Er; [|by apply carry_runPost; [apply _|..]].
  destruct p; try done; cbn [runPost].
  - unfold connectedCallback. cbv zeta. assert (H2 : NoRest (syncState (c1 <| m_profileConnecting := false |>))) by by apply carry_sync.
    set (c2 := syncState _) in *. clearbody c2. carry.
  - unfold noteDisconnecting. assert (H2 : NoRest (syncState (c1 <| m_profileDisconnecting := true |>))) by by apply carry_sync.
    set (c2 := syncState _) in *. clearbody c2. carry.
  - by destruct (stopper c1).
Qed.

Lemma stepStarter_todo i a c : todo (stepStarter options i a c) = todo c /\ dialogs (stepStarter options i a c) = dialogs c.
Proof.
  unfold stepStarter. destruct (starters c !! i) as [w|]; [|done].
  destruct (starterStep options a w _) as [[w' c']|] eqn:Es; [|done].
  pose proof (starterStep_sameHead _ _ _ _ _ Es) as [Ht _]. cbn in *. split; [exact Ht|].
  revert Es. unfold starterStep. destruct (swPhase w).
  - destruct (m_running _); by intros [= _ <-].
  - destruct (m_running _); by intros [= _ <-].
  - intros [= _ <-]. by destruct (stopTry_todo false id (MkStop false false true (interactive (swRequest w)) 0 false)
      (c <| starters := take i (starters c) ++ drop (Datatypes.S i) (starters c) |>)) as [_ ->].
  - destruct (mu_stopping _); by intros [= _ <-].
  - by intros [= _ <-].
  - unfold startStage2, startRefused. destruct (extraCoreRefused a); [|destruct (negb (startRpcOK a)); [|destruct (negb _)]].
    all: cbn [fst snd]; case_ifs; by intros [= _ <-].
  - case_ifs; by intros [= _ <-].
  - by intros [= _ <-].
  - by intros [= _ <-].
Qed.

Lemma stopperStep_todo a c : todo (stopperStep a c) = todo c /\ dialogs (stopperStep a c) = dialogs c.
Proof.
  unfold stopperStep, stopStage2. destruct (stopper c) as [[id o []]|]; try done. cbn [stopPhase stopOptions]. cbv zeta.
  destruct (manual o); case_ifs; done.
Qed.

Lemma Front_apply e ev c : Front c -> Front (apply options e ev c).
Proof.
  intros Hf. destruct ev; cbn [apply].
  - case_bool_decide as Ht; [|done]. pose proof (Front_idle c Ht Hf) as Hn.
    destruct ev; try (apply NoRest_Front, carry_mainEvent; [apply _|done|done]).
    + cbn [mainEvent]. destruct (posts c) as [|p ps] eqn:Ep; [done|]. by apply NoRest_Front, runPost_NoRest.
    + by apply teardown_Front.
  - destruct (todo c) as [|t ts] eqn:Et; [done|]. pose proof (Front_pop t ts c Et Hf) as Hn.
    destruct (isPlain t) eqn:Ep; [by apply NoRest_Front, carry_runTodo; [apply _|..]|]. destruct t; try done; cbn [runTodo].
    + apply (carry_start NoRest Front); [apply NoRest_Front| |done]. intros tun c'. apply Front_startLocked.
    + by apply NoRest_Front, startRest_NoRest.
    + apply NoRest_Front. eapply NoRest_same; [apply stopTry_todo|apply stopTry_todo|exact Hn].
  - unfold killSwitchMayReport. destruct (todo c) as [|t ts] eqn:Et; [|destruct t; try done];
      apply NoRest_Front, carry_next; try (by repeat constructor).
    + by apply Front_idle.
    + unfold NoRest, rests, Front in *. rewrite Et in *. cbn in *. rewrite countIf_cons. cbn. lia.
  - unfold killSwitchMayReport. destruct (todo c) as [|t ts] eqn:Et; [|destruct t; try done];
      apply NoRest_Front, carry_next; try (by apply Forall_replicate).
    + by apply Front_idle in Hf.
    + unfold NoRest, rests, Front in *. cbn. rewrite Et in *. cbn in *. rewrite countIf_cons. cbn. lia.
  - eapply Front_same; [apply stepStarter_todo|apply stepStarter_todo|exact Hf].
  - eapply Front_same; [apply stopperStep_todo|apply stopperStep_todo|exact Hf].
  - unfold stopElsewhere, stopToken. destruct (manual o), (m_running _); try destruct (crash o); exact Hf.
  - unfold stepStopCall. destruct (stopCalls c !! i) as [[id o]|]; [|done].
    eapply Front_same; [apply stopTry_todo|apply stopTry_todo|exact Hf].
  - unfold rankEarly. by destruct (rankJobs _ !! i) as [[? ? []]|].
  - unfold rankEnd. by destruct (rankJobs _ !! i) as [[? ? ?]|].
  - unfold rerankEnd. by destruct (reranking _ !! i).
  - unfold lookupEnd. by destruct (lookups c !! i), text.
  - unfold runProxyJob. destruct (proxyJobs c) as [|[] ?]; try done. cbn [negb]. by destruct (spmode_system_proxy _).
  - exact Hf.
Qed.

Lemma reachable_front c : reachable options c -> Front c.
Proof. apply reachable_ind; [by intros s p|]. by intros; apply Front_apply. Qed.


(** ** At rest *)

Definition atRest c : Prop :=
  todo c = [] /\ posts c = [] /\ starters c = [] /\ stopper c = None /\ stopCalls c = [] /\
  rankJobs (ranker c) = [] /\ reranking (ranker c) = [] /\ lookups c = [] /\ proxyJobs c = [].

(** A step the manager can take, given what the core answers. *)
Definition pick (a : StartAnswer) (b : StopAnswer) c : option (Event (S := S)) :=
  if negb (bool_decide (todo c = [])) then Some Continue
  else if negb (bool_decide (posts c = [])) then Some (Main EvPost)
  else
    match stopper c with
    | Some (MkStopper _ _ (SBegin | SClear)) => Some (ThStopper b)
    | Some _ => Some (Main EvTimer)
    | None =>
        if negb (bool_decide (stopCalls c = [])) then Some (ThStopTry 0)
        else if negb (bool_decide (starters c = [])) then Some (ThStarter 0 a)
        else if negb (bool_decide (rankJobs (ranker c) = [])) then Some (ThRankEnd 0)
        else if negb (bool_decide (reranking (ranker c) = [])) then Some (ThRerank 0 false)
        else if negb (bool_decide (lookups c = [])) then Some (ThLookup 0 None)
        else if negb (bool_decide (proxyJobs c = [])) then Some ThProxy
        else None
    end.

Lemma not_nil_head {A} (l : list A) : negb (bool_decide (l = [])) = true -> exists x, l !! 0 = Some x.
Proof. destruct l; [done|]. by eexists. Qed.

(** The first start worker is not blocked when no stop and no handler is. *)
Lemma first_starter_runs w ws c :
  Locks 0 [] c -> Front c -> todo c = [] -> stopper c = None -> starters c = w :: ws ->
  isWait w && mu_stopping c = false.
Proof.
  intros (H1 & H2 & _ & _) Hf Ht Hs Hw. pose proof (Front_idle c Ht Hf) as Hn. unfold NoRest in Hn.
  rewrite Hn, Hs, Hw in *. cbn [app] in *. rewrite !countIf_cons in *. unfold isWait. destruct (swPhase w) eqn:Ep; try done.
  assert (E1 : holdsStart w = true) by (unfold holdsStart; by rewrite Ep).
  assert (E2 : holdsStop w = false) by (unfold holdsStop; by rewrite Ep). rewrite E1, E2 in *. cbn in *.
  assert (Hz : countIf holdsStop ws <= countIf holdsStart ws)
    by (apply countIf_mono; intros v; unfold holdsStop, holdsStart; by destruct (swPhase v)).
  destruct (mu_starting c), (mu_stopping c); cbn in *; (done || lia).
Qed.

Lemma pick_ready a b c ev : Locks 0 [] c -> Front c -> pick a b c = Some ev -> ready ev c = true.
Proof.
  intros Hl Hf. unfold pick. destruct (negb (bool_decide (todo c = []))) eqn:Et; [by intros [= <-]|].
  apply negb_false_iff in Et. destruct (negb (bool_decide (posts c = []))) eqn:Ep.
  { intros [= <-]. cbn [ready]. by rewrite Et, Ep. }
  apply negb_false_iff, bool_decide_eq_true in Ep.
  destruct (stopper c) as [[id o p]|] eqn:Es.
  - assert (Hp : p <> SPosted).
    { intros ->. destruct Hl as (_ & _ & _ & H4). rewrite Es, Ep in H4. destruct H4 as ([|? ?] & after_ & E & _); discriminate E. }
    destruct p; try done; intros [= <-]; cbn [ready]; by rewrite ?Et, Es.
  - destruct (negb (bool_decide (stopCalls c = []))) eqn:Ec.
    { intros [= <-]. cbn [ready]. apply not_nil_head in Ec as [x ->]. done. }
    destruct (negb (bool_decide (starters c = []))) eqn:Ew.
    { intros [= <-]. cbn [ready]. destruct (starters c) as [|w ws] eqn:Ew'; [done|]. cbn.
      apply bool_decide_eq_true in Et. by rewrite (first_starter_runs w ws c). }
    destruct (negb (bool_decide (rankJobs (ranker c) = []))) eqn:Ej.
    { intros [= <-]. cbn [ready]. apply not_nil_head in Ej as [x ->]. done. }
    destruct (negb (bool_decide (reranking (ranker c) = []))) eqn:Er.
    { intros [= <-]. cbn [ready]. apply not_nil_head in Er as [x ->]. done. }
    destruct (negb (bool_decide (lookups c = []))) eqn:Elk.
    { intros [= <-]. cbn [ready]. apply not_nil_head in Elk as [x ->]. done. }
    destruct (negb (bool_decide (proxyJobs c = []))) eqn:Epj; [|done]. by intros [= <-].
Qed.

Lemma pick_rest a b c : pick a b c = None -> atRest c.
Proof.
  unfold pick, atRest. repeat case_bool_decide; cbn [negb]; try done; destruct (stopper c) as [[? ? []]|]; done.
Qed.

Fixpoint readyRun (evs : list (Env * Event (S := S))) c : bool :=
  match evs with [] => true | (e, ev) :: evs => ready ev c && readyRun evs (apply options e ev c) end.

(** What is known of a manager at rest. *)
Lemma at_rest_state c :
  Locks 0 [] c -> Flags 0 c -> Front c -> atRest c ->
  mu_starting c = false /\ mu_stopping c = false /\ m_switchingProfile c = false /\
  connectionState c = (if isSome (m_running c) then Running else Idle) /\ m_lastConnectionState c = connectionState c.
Proof.
  intros (H1 & H2 & H3 & _) (F1 & F2 & F3) Hf (Ht & Hp & Hw & Hs & _). pose proof (Front_idle c Ht Hf) as Hn. unfold NoRest in Hn.
  unfold runsLeft in *. rewrite Hn, Hw, Hs, ?Hp in *. cbn in *.
  destruct (mu_starting c), (mu_stopping c), (m_switchingProfile c); try done.
  assert (Hc : m_profileConnecting c = false) by (destruct (m_profileConnecting c); [specialize (F2 eq_refl); unfold countIf in F2; cbn in F2; lia|done]).
  assert (Hd : m_profileDisconnecting c = false) by (destruct (m_profileDisconnecting c); [by specialize (F1 eq_refl)|done]).
  split_and!; try done.
  - unfold connectionState. rewrite Hc, Hd. by destruct (m_running c).
  - destruct F3 as [?|[?|?]]; [done| |done]. unfold countIf in *; cbn in *; lia.
Qed.

(** C3: From any reachable state the manager comes to rest by itself:
    its own steps (handlers, workers, callbacks, sweeps), whatever the core
    answers, number at most [potential], and some sequence of them ends with
    nothing queued, both locks free, the state [Running] or [Idle] as the profile
    says and as last announced, and every request answered except those that wait
    for the kill switch, the core or the answer of a dialog. *)
Theorem manager_settles `{!SupervisorLaws S} (e : Env) (a : StartAnswer) (b : StopAnswer) c :
  reachable options c ->
  (forall evs, readyRun evs c = true -> length evs <= potential c) /\
  exists evs,
    readyRun evs c = true /\
    let c' := run options evs c in
    atRest c' /\ mu_starting c' = false /\ mu_stopping c' = false /\
    connectionState c' = (if isSome (m_running c') then Running else Idle) /\
    m_lastConnectionState c' = connectionState c' /\
    map key (asked c') ≡ₚ finishedKeys (signals c') ++
      map key (waitingOutside c' ++ (dialogs c' ≫= fun d => d.2 ≫= todoOwes)).
Proof.
  intros Hr. split.
  { intros evs. clear Hr. revert c. induction evs as [|[e0 ev] evs IH]; intros c; cbn; [lia|].
    intros [Hev Hrun]%andb_true_iff. pose proof (ready_lowers ev e0 c Hev). specialize (IH _ Hrun). lia. }
  remember (potential c) as n eqn:En. assert (Hn : potential c <= n) by lia. clear En. revert c Hr Hn.
  induction n as [|n IH]; intros c Hr Hn.
  all: pose proof (reachable_locks options c Hr) as Hl; pose proof (reachable_front c Hr) as Hf.
  all: destruct (pick a b c) as [ev|] eqn:Epick.
  1: { apply pick_ready in Epick; [|done..]. pose proof (ready_lowers ev e c Epick). lia. }
  2: { apply pick_ready in Epick; [|done..]. pose proof (ready_lowers ev e c Epick).
       destruct (IH (apply options e ev c)) as (evs & Hrun & Hrest); [by apply reachable_apply|lia|].
       exists ((e, ev) :: evs). split; [cbn; by rewrite Epick|exact Hrest]. }
  all: exists []; split; [done|]; cbv zeta; cbn [run fold_left].
  all: apply pick_rest in Epick; destruct (at_rest_state c Hl (reachable_flags options c Hr) Hf Epick) as (R1 & R2 & _ & R4 & R5).
  all: split_and!; try done.
  all: apply (reachable_owes options) in Hr as [Ho _]; apply (Permutation_count_occ (fun x y : Z * Z => decide (x = y))); intros k.
  all: specialize (Ho k); rewrite count_occ_app; unfold countKey, countFinished, owed in Ho.
  all: destruct Epick as (Q1 & Q2 & Q3 & _ & _ & Q6 & _); rewrite Q1, Q2, Q3, Q6 in Ho; cbn in Ho; rewrite !app_nil_r in Ho; lia.
Qed.
End Handlers.
