(* ===== verification/ConnectionDispatch.v ===== *)
(** * ConnectionDispatch: when a start runs

    The conditions [start] checks before it launches its worker, as one predicate,
    and what becomes of Tun when it is asked for. *)

From S2P Require Import Prelude Text EngineTypes AutoSelectorController ConnectionState ConnectionStart ConnectionModes ConnectionManager ConnectionCarry.

Section Dispatch.
Context {S : Type} `{Supervisor S} `{QtText} (options : Options).
Implicit Types (c : Conn S) (e : Env) (r : StartRequest).

(** The profile exists, is enabled and its group is not archived; the kill switch
    allows a start with this core; the profile needs no ranking first and its
    config builds; nothing is starting or stopping; the core is up. *)
Definition mayRun e r c : bool :=
  negb (prepareExit (sup c)) && (0 <=? profileId r) &&
  match profileOf e (profileId r) with
  | None => false
  | Some view =>
      negb (viewDisabled view) && bool_decide (viewGroup view = Some false) &&
      (bool_decide (ksState e = KsDisabled) ||
       bool_decide (ksState e = KsArmed) && negb (runningWithoutGuardIdentity (guardIdentity e) (sup c))) &&
      negb (guardRestartPending (now e) c) &&
      negb (viewSelector view && viewNeedsRanking view && (rankingInFlight (ranker c) <=? 0) &&
            negb (rankedFor (ranker c) =? profileId r)) &&
      bool_decide (buildError view = [])
  end &&
  negb (mu_starting c) && negb (mu_stopping c) && negb (awaitingCoreStarted (sup c)) && coreIsRunning (sup c).

(** The worker's first record. *)
Definition newStarter e r : list Starter :=
  match profileOf e (profileId r) with Some view => [MkStarter r (buildTun view) false WBegin] | None => [] end.

Lemma starters_deferStartToCore r c : starters (deferStartToCore r c) = starters c.
Proof. unfold deferStartToCore. by destruct (0 <=? _). Qed.

Lemma starters_failStart r o err c : starters (failStart r o err c) = starters c /\ todo (failStart r o err c) = todo c.
Proof. unfold failStart. by destruct (interactive r). Qed.

Lemma starters_restartCoreForGuard now r c :
  starters (restartCoreForGuard now r c) = starters c /\ todo (restartCoreForGuard now r c) = todo c.
Proof.
  unfold restartCoreForGuard, deferStartToCore. destruct (setStartWhenUp _ _) as [[] s]; cbn [negb]; [|done].
  destruct (guardRestartPending _ _), (0 <=? _); done.
Qed.

Lemma starters_deferToKillSwitch r c :
  starters (deferToKillSwitch r c) = starters c /\ todo (deferToKillSwitch r c) = todo c.
Proof. unfold deferToKillSwitch. by destruct (0 <=? _). Qed.

(** After the locks, a worker starts exactly if the core is up. *)
Lemma starters_startRest r tun c :
  starters (startRest r tun c) =
  starters c ++ (if negb (awaitingCoreStarted (sup c)) && coreIsRunning (sup c) then [MkStarter r tun false WBegin] else []).
Proof.
  unfold startRest. cbv zeta. set (c1 := c <| mu_stopping := false |>).
  assert (E1 : starters c1 = starters c) by done. assert (Es : sup c1 = sup c) by done. clearbody c1. rewrite <- E1, <- Es.
  destruct (awaitingCoreStarted (sup c1)); cbn [negb andb].
  { rewrite app_nil_r. exact (starters_deferStartToCore r c1). }
  destruct (coreIsRunning (sup c1)); cbn [negb].
  - set (c2 := c1 <| m_profileConnecting := true |>). assert (E2 : starters c2 = starters c1) by done. clearbody c2.
    rewrite <- E2. unfold syncState. by case_bool_decide.
  - rewrite app_nil_r. destruct (canStartCore (sup c1)); cbn [negb]; [exact (starters_deferStartToCore r c1)|].
    by destruct (starters_failStart r CoreUnavailable (lastFailure (sup c1)) (c1 <| mu_starting := false |>)) as [-> _].
Qed.

(** A start that stopped before its locks: nothing is left to do. *)
Definition ended c c' : Prop := starters c' = starters c /\ todo c' = [].

Lemma ended_continue e c c' : ended c c' -> starters (apply options e Continue c') = starters c.
Proof. intros [Hs Ht]. cbn. by rewrite Ht. Qed.

Lemma starters_startLocked e r tun c :
  todo c = [] ->
  starters (apply options e Continue (startLocked r tun c)) =
  starters c ++ (if negb (mu_starting c) && negb (mu_stopping c) && negb (awaitingCoreStarted (sup c)) && coreIsRunning (sup c)
                 then [MkStarter r tun false WBegin] else []).
Proof.
  intros Ht. unfold startLocked. destruct (mu_starting c) eqn:E1; cbn [negb andb].
  { rewrite app_nil_r. apply (ended_continue e c). destruct (starters_failStart r Busy (u "Another profile is starting...") c) as [? ?].
    by split; [|congruence]. }
  destruct (mu_stopping c) eqn:E2; cbn [negb andb].
  { rewrite app_nil_r. apply (ended_continue e c). destruct (starters_failStart r Busy (u "Another profile is stopping...") c) as [? ?].
    by split; [|congruence]. }
  cbn [apply next todo]. cbn. rewrite Ht. cbn [runTodo app]. rewrite starters_startRest. done.
Qed.

(** From the guard on, the kill switch permitting. *)
Lemma starters_ranked e r view c :
  todo c = [] ->
  starters (apply options e Continue
    (if guardRestartPending (now e) c then restartCoreForGuard (now e) r c
     else let '(ranks, k) := rankBeforeStart (viewSelector view) (viewNeedsRanking view) r (ranker c) in
          if ranks then c <| ranker := k |>
          else if negb (bool_decide (buildError view = [])) then failStart r BuildFailed (buildError view) (c <| ranker := k |>)
          else startLocked r (buildTun view) (c <| ranker := k |>))) =
  starters c ++
  (if negb (guardRestartPending (now e) c) &&
      negb (viewSelector view && viewNeedsRanking view && (rankingInFlight (ranker c) <=? 0) &&
            negb (rankedFor (ranker c) =? profileId r)) &&
      bool_decide (buildError view = []) && negb (mu_starting c) && negb (mu_stopping c) &&
      negb (awaitingCoreStarted (sup c)) && coreIsRunning (sup c)
   then [MkStarter r (buildTun view) false WBegin] else []).
Proof.
  intros Ht. destruct (guardRestartPending (now e) c); cbn [negb andb].
  { rewrite app_nil_r. apply (ended_continue e c). destruct (starters_restartCoreForGuard (now e) r c). by split; [|congruence]. }
  destruct (rankBeforeStart _ _ r (ranker c)) as [ranks k] eqn:Er.
  assert (Hr : ranks = viewSelector view && viewNeedsRanking view && (rankingInFlight (ranker c) <=? 0) &&
            negb (rankedFor (ranker c) =? profileId r)).
  { unfold rankBeforeStart in Er. cbn in Er.
    destruct (viewSelector view), (viewNeedsRanking view), (rankedFor (ranker c) =? profileId r);
      destruct (Z.ltb_spec 0 (rankingInFlight (ranker c))), (Z.leb_spec (rankingInFlight (ranker c)) 0); try lia;
      cbn in Er; by injection Er as <- _. }
  rewrite <- Hr. destruct ranks; cbn [negb andb]; [rewrite app_nil_r; by apply (ended_continue e c)|].
  destruct (bool_decide _); cbn [negb andb].
  - by rewrite (starters_startLocked e r (buildTun view) (c <| ranker := k |>)).
  - rewrite app_nil_r. apply (ended_continue e c).
    destruct (starters_failStart r BuildFailed (buildError view) (c <| ranker := k |>)) as [? E2]. split; [done|]. by rewrite E2.
Qed.

(** C8: A start launches its worker exactly if [mayRun] holds: in every
    other case (exiting, no such profile, a disabled one, an archived group, a
    kill switch that arms, failed or lacks its guard, a ranking first, a config that
    does not build, another start or stop, a core not yet up) no worker runs. *)
Theorem start_launches e r c :
  todo c = [] ->
  starters (apply options e Continue (start e r c)) = starters c ++ (if mayRun e r c then newStarter e r else []).
Proof.
  intros Ht. unfold start, mayRun, newStarter. cbv zeta. set (c1 := bumpGeoToken c).
  assert (Hc : starters c1 = starters c /\ todo c1 = [] /\ sup c1 = sup c /\ ranker c1 = ranker c /\ mu_starting c1 = mu_starting c /\
    mu_stopping c1 = mu_stopping c /\ m_guardCoreRestart c1 = m_guardCoreRestart c) by (split_and!; done).
  destruct Hc as (K1 & K2 & K3 & K4 & K5 & K6 & K7). clearbody c1. rewrite <- K1, <- K3, <- K4, <- K5, <- K6.
  assert (Hg : guardRestartPending (now e) c = guardRestartPending (now e) c1) by (unfold guardRestartPending; by rewrite K7).
  rewrite Hg. clear Hg Ht K1 K3 K4 K5 K6 K7 c.
  destruct (prepareExit (sup c1)); cbn [negb andb]; [rewrite app_nil_r; by apply (ended_continue e c1)|].
  destruct (0 <=? profileId r); cbn [andb]; [|rewrite app_nil_r; by apply (ended_continue e c1)].
  destruct (profileOf e (profileId r)) as [view|]; cbn [andb]; [|rewrite app_nil_r; by apply (ended_continue e c1)].
  destruct (viewDisabled view); cbn [negb andb]; [rewrite app_nil_r; by apply (ended_continue e c1)|].
  set (c2 := emit _ _).
  assert (Hc : starters c2 = starters c1 /\ todo c2 = [] /\ sup c2 = sup c1 /\ ranker c2 = ranker c1 /\ mu_starting c2 = mu_starting c1 /\
    mu_stopping c2 = mu_stopping c1 /\ m_guardCoreRestart c2 = m_guardCoreRestart c1) by (split_and!; done).
  destruct Hc as (K1 & K2' & K3 & K4 & K5 & K6 & K7). clearbody c2. rewrite <- K1, <- K3, <- K4, <- K5, <- K6.
  assert (Hg : guardRestartPending (now e) c1 = guardRestartPending (now e) c2) by (unfold guardRestartPending; by rewrite K7).
  rewrite Hg. clear Hg K1 K2 K3 K4 K5 K6 K7 c1.
  destruct (bool_decide (viewGroup view = Some false)); cbn [negb andb]; [|rewrite app_nil_r; by apply (ended_continue e c2)].
  unfold startChecked, allowsStart. cbv zeta.
  destruct (ksState e) eqn:Ek;
    repeat match goal with |- context [bool_decide (?x = ?y :> KillSwitchState)] =>
      let v := eval vm_compute in (bool_decide (x = y)) in change (bool_decide (x = y)) with v end; cbn [orb andb negb].
  2: { rewrite app_nil_r. apply (ended_continue e c2). destruct (starters_deferToKillSwitch r c2). by split; [|congruence]. }
  3: { rewrite app_nil_r. apply (ended_continue e c2). by destruct (interactive r). }
  all: rewrite ?orb_false_r.
  - apply starters_ranked; done.
  - destruct (runningWithoutGuardIdentity _ _); cbn [negb andb orb]; rewrite ?orb_true_r, ?orb_false_r.
    + rewrite app_nil_r. apply (ended_continue e c2). destruct (starters_restartCoreForGuard (now e) r c2). by split; [|congruence].
    + apply starters_ranked; done.
Qed.
End Dispatch.
