(* ===== verification/ConnectionSupervisor.v ===== *)
(** * ConnectionSupervisor: the core supervisor behind the connection manager

    The interface [Supervisor] discharged by the state machine of CoreSupervisor,
    and the manager run on it: the witnesses of the theorems of the Connection
    files, and two interleavings in which the manager does not do what it means
    to. *)

From S2P Require Import Prelude Text CoreSupervisor EngineTypes RankSweep AutoSelectorController ConnectionState ConnectionStart ConnectionModes ConnectionManager ConnectionCarry ConnectionLedger ConnectionLocks ConnectionFlags ConnectionSettles ConnectionDispatch.

(** ** The supervisor *)

(** [runningWithoutGuardIdentity], outside Windows. *)
Definition guardlessCore (guarded : bool) (s : Sup) : bool :=
  negb (identityUnsupported s) && bool_decide (is_Some (m_process s)) && core_running s && negb guarded.

#[export] Instance coreSupervisor : Supervisor Sup := {|
  awaitingCoreStarted := m_probing;
  startWhenUp := m_startWhenUp;
  canStartCore := CoreSupervisor.canStartCore;
  lastFailure := m_lastFailure;
  runningWithoutGuardIdentity := guardlessCore;
  setStartWhenUp := CoreSupervisor.setStartWhenUp;
  restartNotListening := CoreSupervisor.restartNotListening;
  restartForGuard := CoreSupervisor.restartForGuard;
  resetCore := CoreSupervisor.resetCore;
  cancelResume := CoreSupervisor.cancelResume;
  startedId := started_id;
  updateStartedId id s := s <| started_id := id |>;
  coreIsRunning := core_running;
  prepareExit := prepare_exit |}.

#[export] Instance coreSupervisorLaws : SupervisorLaws Sup.
Proof.
  split. intros g id s. cbn. unfold guardlessCore, CoreSupervisor.setStartWhenUp.
  destruct (m_process s) eqn:E; [done|]. rewrite bool_decide_false; [|by intros []]. by rewrite andb_false_r.
Qed.

(** ** A sample program *)

(** A core that is up, probed and idle. *)
Definition upSup : Sup :=
  CoreSupervisor.run false false
    [EStart (-1); ETask; ESpawned 1; EConnection true 100; EProbed 1 true true 0]
    (listen None initialSup).2.

Definition sampleSettings : Settings :=
  MkSettings false false false false false false false false false false false 1 (-1) [] 0.

Definition sampleOptions : Options := MkOptions false false false false true false false.

(** Profiles 1 and 2, both in a live group, with a config that builds. *)
Definition sampleEnv : Env :=
  MkEnv 1000 (fun id => if (id =? 1) || (id =? 2) then Some (MkView false (Some false) false false [] false) else None)
    KsDisabled [] false false None None false (fun _ _ => []) None 1 (fun _ => 1).

(** The core accepts, and stops. *)
Definition accepts : StartAnswer := MkStartAnswer false true [] false false false.
Definition stops : StopAnswer := MkStopAnswer true [].

Definition sampleRun (evs : list (Event (S := Sup))) : Conn Sup :=
  run sampleOptions (map (fun ev => (sampleEnv, ev)) evs) (newManager upSup sampleSettings).

Lemma sampleRun_reachable evs : reachable sampleOptions (sampleRun evs).
Proof. by exists upSup, sampleSettings, (map (fun ev => (sampleEnv, ev)) evs). Qed.

(** A start of profile 1 asked for and run to its end, in its 9 steps. *)
Definition startRun : list (Event (S := Sup)) :=
  [Main (EvStart (MkRequest 1 true 7)); Continue; Continue] ++ replicate 5 (ThStarter 0 accepts) ++ [Main EvPost; Main EvPost].

(** ** The theorems on it *)

Lemma starts_answered_once_witness :
  reachable sampleOptions (sampleRun startRun) /\
  finishedKeys (signals (sampleRun startRun)) = [(7, 1)] /\
  map key (asked (sampleRun startRun)) ≡ₚ
    finishedKeys (signals (sampleRun startRun)) ++ map key (owed (sampleRun startRun)).
Proof.
  split; [apply sampleRun_reachable|]. split; [reflexivity|].
  exact (starts_answered_once sampleOptions _ (sampleRun_reachable startRun)).
Defined.

(** Half of a start that switches: its worker waits for the stop. *)
Definition switchRun : list (Event (S := Sup)) :=
  startRun ++ [Main (EvStart (MkRequest 2 true 8)); Continue; Continue] ++ replicate 3 (ThStarter 0 accepts).

Lemma locks_exclusive_witness :
  mu_starting (sampleRun switchRun) = true /\ mu_stopping (sampleRun switchRun) = true /\
  m_switchingProfile (sampleRun switchRun) = true /\
  Nat.b2n (mu_starting (sampleRun switchRun)) =
    (rests (sampleRun switchRun) + countIf holdsStart (starters (sampleRun switchRun)))%nat.
Proof.
  split; [reflexivity|]. split; [reflexivity|]. split; [reflexivity|].
  exact (proj1 (locks_exclusive sampleOptions _ (sampleRun_reachable switchRun))).
Defined.

Lemma manager_settles_witness :
  potential (sampleRun switchRun) <> O /\
  exists evs, readyRun sampleOptions evs (sampleRun switchRun) = true /\
    atRest (run sampleOptions evs (sampleRun switchRun)).
Proof.
  split; [vm_compute; congruence|].
  destruct (manager_settles sampleOptions sampleEnv accepts stops _ (sampleRun_reachable switchRun))
    as [_ (evs & H1 & H2 & _)]. exists evs. exact (conj H1 H2).
Defined.

Lemma start_launches_witness :
  mayRun sampleEnv (MkRequest 1 true 7) (sampleRun []) = true /\
  starters (apply sampleOptions sampleEnv Continue (start sampleEnv (MkRequest 1 true 7) (sampleRun []))) =
    [MkStarter (MkRequest 1 true 7) false false WBegin].
Proof.
  split; [reflexivity|]. rewrite (start_launches sampleOptions); reflexivity.
Defined.

(** ** Two races *)

(** A start whose worker has released [mu_starting] and not yet run its last
    callback lets the next one in; that callback then clears [m_profileConnecting]
    under it. *)
Definition overlapRun : list (Event (S := Sup)) :=
  [Main (EvStart (MkRequest 1 true 7)); Continue; Continue] ++ replicate 4 (ThStarter 0 accepts) ++
  [Main (EvStart (MkRequest 2 true 8)); Continue; Continue; ThStarter 0 accepts; Main EvPost; Main EvPost].

Lemma connecting_cleared_early :
  exists c : Conn Sup, reachable sampleOptions c /\
    mu_starting c = true /\ (countIf holdsStart (starters c) = 1)%nat /\ posts c = [] /\ todo c = [] /\
    connectionState c = Running /\ m_running c = Some 1.
Proof. exists (sampleRun overlapRun). split; [apply sampleRun_reachable|]. by vm_compute. Qed.

(** [start] probes [mu_stopping] by taking it: a stop on another thread finds it
    taken and returns, with nothing stopping. *)
Definition crashStop : StopOptions := MkStop true true true false 0 false.
Definition probeRun : list (Event (S := Sup)) :=
  startRun ++ [Main (EvStart (MkRequest 2 true 8)); Continue; ThStop crashStop].

Lemma stop_dropped :
  exists c : Conn Sup, reachable sampleOptions c /\
    m_running c = Some 1 /\ stopper c = None /\ stopCalls c <> [] /\
    let c' := apply sampleOptions sampleEnv (ThStopTry 0) c in
    m_running c' = Some 1 /\ stopper c' = None /\ stopCalls c' = [] /\ m_profileDisconnecting c' = false.
Proof.
  exists (sampleRun probeRun). split; [apply sampleRun_reachable|]. by vm_compute.
Qed.
