(* ===== verification/ScanConfig.v ===== *)
(** * ScanConfig: what a scan tests, and its stored form

    src/database/entities/IpScan.cpp and IpScan.h: the options of a scan with
    their defaults, the JSON they are stored as, the hash that decides whether a
    pass may be resumed, and the row of a scan.  The members of the option
    structs carry the struct's name where several share one. *)

From S2P Require Import Prelude Text Json.

(** ** The options *)

Record ScanIcmpOptions := MkIcmp { icmpEnabled : bool; icmpTimeoutMs : Z; icmpCount : Z }.

Record ScanTcpOptions := MkTcp { tcpEnabled : bool; tcpTimeoutMs : Z; tcpAttempts : Z }.

Record ScanHttpOptions := MkHttp {
  httpEnabled : bool; httpTls : bool; serverName : qstring; httpHost : qstring; httpPath : qstring;
  httpMethod : qstring; httpVersion : qstring; alpn : list qstring; minVersion : qstring; maxVersion : qstring;
  fingerprint : qstring; insecure : bool; disableSni : bool; fragment : bool; fragmentFallbackDelayMs : Z;
  recordFragment : bool; mixedCaseSni : bool; httpTimeoutMs : Z }.

Record ScanConfigTestOptions := MkConfigTest {
  configEnabled : bool; configProfileId : Z; configUrl : qstring; configTimeoutMs : Z; configWarmLatency : bool }.

Record ScanWarpOptions := MkWarp {
  warpMode : qstring; httpMode : Z; identity : qstring; warpProfileId : Z; generatedIdentity : jobject;
  generatedMode : qstring; mtu : Z; sni : qstring; jc : Z; jmin : Z; jmax : Z;
  i1 : qstring; i2 : qstring; i3 : qstring; i4 : qstring; i5 : qstring;
  warpUrl : qstring; warpTimeoutMs : Z; warpWarmLatency : bool }.

Inductive PortMode := Ignore | Merge | List.

Record ScanConfig := MkConfig {
  ports : list Z; portMode : PortMode; shuffle : bool; scanIPv6 : bool; stopAfter : Z; concurrency : Z;
  spawnIntervalMs : Z; icmp : ScanIcmpOptions; tcp : ScanTcpOptions; http : ScanHttpOptions;
  config : ScanConfigTestOptions; warp : ScanWarpOptions }.

(** The member initializers. *)
Definition freshConfig : ScanConfig :=
  MkConfig [] Merge true false 0 64 2 (MkIcmp false 1000 1) (MkTcp true 2000 1)
    (MkHttp false true [] [] (u "/") (u "GET") (u "1.1") [] [] [] [] false false false 0 false false 3000)
    (MkConfigTest false (-1) [] 3000 true)
    (MkWarp (u "wireguard") 0 (u "generated") (-1) ∅ [] 1280 [] 0 0 0 [] [] [] [] [] [] 5000 true).

Inductive Kind := Generic | Warp.

Inductive Status := Idle | Running | Paused | Completed | Failed.

Inductive Mode := Initial | RescanResult.

#[export] Instance Status_eq_dec : EqDecision Status.
Proof. solve_decision. Defined.

#[export] Instance Mode_eq_dec : EqDecision Mode.
Proof. solve_decision. Defined.

#[export] Instance PortMode_eq_dec : EqDecision PortMode.
Proof. solve_decision. Defined.

Definition kWireGuardPorts : list Z := [2408; 500; 1701; 4500].

(** ** The row of a scan *)

Record IpScan := MkScan {
  sid : Z; sname : qstring; kind : Kind; base_list_id : Z; result_list_id : Z; sconfig : ScanConfig;
  status : Status; mode : Mode; snapshot_list_id : Z; seed : Z; cursor : Z; total : Z; spec_hash : qstring;
  rescan_snapshot_list_id : Z; rescan_cursor : Z; rescan_total : Z; found : Z; removed : Z;
  last_error : qstring; started_at : Z; finished_at : Z }.

Definition etaScan (r : IpScan) : IpScan :=
  MkScan (sid r) (sname r) (kind r) (base_list_id r) (result_list_id r) (sconfig r) (status r) (mode r)
    (snapshot_list_id r) (seed r) (cursor r) (total r) (spec_hash r) (rescan_snapshot_list_id r) (rescan_cursor r)
    (rescan_total r) (found r) (removed r) (last_error r) (started_at r) (finished_at r).

#[export] Instance set_sname : Setter sname := ltac:(setter etaScan).
#[export] Instance set_sconfig : Setter sconfig := ltac:(setter etaScan).
#[export] Instance set_result_list_id : Setter result_list_id := ltac:(setter etaScan).
#[export] Instance set_status : Setter status := ltac:(setter etaScan).
#[export] Instance set_mode : Setter mode := ltac:(setter etaScan).
#[export] Instance set_snapshot_list_id : Setter snapshot_list_id := ltac:(setter etaScan).
#[export] Instance set_seed : Setter seed := ltac:(setter etaScan).
#[export] Instance set_cursor : Setter cursor := ltac:(setter etaScan).
#[export] Instance set_total : Setter total := ltac:(setter etaScan).
#[export] Instance set_spec_hash : Setter spec_hash := ltac:(setter etaScan).
#[export] Instance set_rescan_snapshot_list_id : Setter rescan_snapshot_list_id := ltac:(setter etaScan).
#[export] Instance set_rescan_cursor : Setter rescan_cursor := ltac:(setter etaScan).
#[export] Instance set_rescan_total : Setter rescan_total := ltac:(setter etaScan).
#[export] Instance set_found : Setter found := ltac:(setter etaScan).
#[export] Instance set_removed : Setter removed := ltac:(setter etaScan).
#[export] Instance set_last_error : Setter last_error := ltac:(setter etaScan).
#[export] Instance set_started_at : Setter started_at := ltac:(setter etaScan).
#[export] Instance set_finished_at : Setter finished_at := ltac:(setter etaScan).

Definition rescanning (r : IpScan) : bool := bool_decide (mode r = RescanResult).

Definition ActiveCursor (r : IpScan) : Z := if rescanning r then rescan_cursor r else cursor r.

Definition ActiveTotal (r : IpScan) : Z := if rescanning r then rescan_total r else total r.

Definition CanResumeInitial (r : IpScan) : bool :=
  (0 <=? snapshot_list_id r) && (0 <? total r) && (cursor r <? total r).

Definition DefaultConfig (k : Kind) : ScanConfig :=
  let c := freshConfig in
  match k with
  | Warp => MkConfig kWireGuardPorts (portMode c) true (scanIPv6 c) 10 16 2 (MkIcmp false 1000 1) (MkTcp false 2000 1)
              (http c) (config c) (warp c)
  | Generic => MkConfig [] (portMode c) true (scanIPv6 c) 0 64 2 (MkIcmp false 1000 1) (MkTcp true 2000 1)
                 (http c) (config c) (warp c)
  end.

(** ** Writing *)

Definition PortModeKey (m : PortMode) : qstring :=
  match m with Ignore => u "ignore" | List => u "list" | Merge => u "merge" end.

Definition icmpFields (o : ScanIcmpOptions) : list (string * json) :=
  [("enabled"%string, JBool (icmpEnabled o)); ("timeoutMs"%string, jint (icmpTimeoutMs o));
   ("count"%string, jint (icmpCount o))].

Definition tcpFields (o : ScanTcpOptions) : list (string * json) :=
  [("enabled"%string, JBool (tcpEnabled o)); ("timeoutMs"%string, jint (tcpTimeoutMs o));
   ("attempts"%string, jint (tcpAttempts o))].

Definition httpFields (o : ScanHttpOptions) : list (string * json) :=
  [("enabled"%string, JBool (httpEnabled o)); ("tls"%string, JBool (httpTls o));
   ("serverName"%string, JString (serverName o)); ("host"%string, JString (httpHost o));
   ("path"%string, JString (httpPath o)); ("method"%string, JString (httpMethod o));
   ("httpVersion"%string, JString (httpVersion o)); ("alpn"%string, JArray (map JString (alpn o)));
   ("minVersion"%string, JString (minVersion o)); ("maxVersion"%string, JString (maxVersion o));
   ("fingerprint"%string, JString (fingerprint o)); ("insecure"%string, JBool (insecure o));
   ("disableSni"%string, JBool (disableSni o)); ("fragment"%string, JBool (fragment o));
   ("fragmentFallbackDelayMs"%string, jint (fragmentFallbackDelayMs o));
   ("recordFragment"%string, JBool (recordFragment o)); ("mixedCaseSni"%string, JBool (mixedCaseSni o));
   ("timeoutMs"%string, jint (httpTimeoutMs o))].

Definition configFields (o : ScanConfigTestOptions) : list (string * json) :=
  [("enabled"%string, JBool (configEnabled o)); ("profileId"%string, jint (configProfileId o));
   ("url"%string, JString (configUrl o)); ("timeoutMs"%string, jint (configTimeoutMs o));
   ("warmLatency"%string, JBool (configWarmLatency o))].

Definition warpFields (o : ScanWarpOptions) : list (string * json) :=
  [("mode"%string, JString (warpMode o)); ("httpMode"%string, jint (httpMode o));
   ("identity"%string, JString (identity o)); ("profileId"%string, jint (warpProfileId o));
   ("generatedIdentity"%string, JObject (generatedIdentity o)); ("generatedMode"%string, JString (generatedMode o));
   ("mtu"%string, jint (mtu o)); ("sni"%string, JString (sni o)); ("jc"%string, jint (jc o));
   ("jmin"%string, jint (jmin o)); ("jmax"%string, jint (jmax o)); ("i1"%string, JString (i1 o));
   ("i2"%string, JString (i2 o)); ("i3"%string, JString (i3 o)); ("i4"%string, JString (i4 o));
   ("i5"%string, JString (i5 o)); ("url"%string, JString (warpUrl o)); ("timeoutMs"%string, jint (warpTimeoutMs o));
   ("warmLatency"%string, JBool (warpWarmLatency o))].

Definition scanFields (c : ScanConfig) : list (string * json) :=
  [("ports"%string, JArray (map jint (ports c))); ("portMode"%string, JString (PortModeKey (portMode c)));
   ("shuffle"%string, JBool (shuffle c)); ("ipv6"%string, JBool (scanIPv6 c));
   ("stopAfter"%string, jint (stopAfter c)); ("concurrency"%string, jint (concurrency c));
   ("spawnIntervalMs"%string, jint (spawnIntervalMs c));
   ("icmp"%string, JObject (list_to_map (icmpFields (icmp c))));
   ("tcp"%string, JObject (list_to_map (tcpFields (tcp c))));
   ("http"%string, JObject (list_to_map (httpFields (http c))));
   ("config"%string, JObject (list_to_map (configFields (config c))));
   ("warp"%string, JObject (list_to_map (warpFields (warp c))))].

Definition ToJson (c : ScanConfig) : jobject := list_to_map (scanFields c).

(** ** Reading *)

Definition kIpScanMinTimeoutMs : Z := 100.
Definition kIpScanMaxTimeoutMs : Z := 60000.
Definition maxInt : Z := 2 ^ 31 - 1.

Definition ipScanReadBool (o : jobject) (k : string) (v : bool) : bool :=
  match field o k with Some (JBool b) => b | _ => v end.

(** A clamped number, truncated: the bounds are whole, so truncating first is the
    same. *)
Definition ipScanReadInt (o : jobject) (k : string) (v lo hi : Z) : Z :=
  match field o k with Some (JNum z _) => Z.max lo (Z.min z hi) | _ => v end.

Definition ipScanReadString (o : jobject) (k : string) (v : qstring) : qstring :=
  match field o k with Some (JString s) => s | _ => v end.

Definition ipScanCleanPorts (l : list Z) : list Z :=
  fold_left (fun out port =>
    if (1 <=? port) && (port <=? 65535) && negb (bool_decide (port ∈ out)) then out ++ [port] else out) l [].

Section Reading.
Context `{QtText}.

Definition ipScanReadChoice (o : jobject) (k : string) (v : qstring) (allowed : list qstring) : qstring :=
  match field o k with
  | Some (JString s) =>
      match find (fun choice => equalsCI (trimmed s) choice) allowed with Some choice => choice | None => v end
  | _ => v
  end.

Definition readPorts (o : jobject) (v : list Z) : list Z :=
  match field o "ports" with
  | Some (JArray l) =>
      ipScanCleanPorts (l ≫= fun item => match item with JNum _ _ => [toInt (Some item) 0] | _ => [] end)
  | _ => v
  end.

Definition readPortMode (o : jobject) (v : PortMode) : PortMode :=
  let text := toQString (field o "portMode") [] in
  if bool_decide (text = []) then v
  else if bool_decide (text = u "ignore") then Ignore
  else if bool_decide (text = u "list") then List
  else Merge.

Definition readAlpn (o : jobject) (v : list qstring) : list qstring :=
  match field o "alpn" with
  | Some (JArray l) =>
      fold_left (fun out item =>
        let value := trimmed (toQString (Some item) []) in
        if negb (bool_decide (value = [])) && negb (bool_decide (value ∈ out)) then out ++ [value] else out) l []
  | _ => v
  end.

Definition readTimeout (o : jobject) (v : Z) : Z := ipScanReadInt o "timeoutMs" v kIpScanMinTimeoutMs kIpScanMaxTimeoutMs.

Definition readIcmp (o : jobject) (c : ScanIcmpOptions) : ScanIcmpOptions :=
  MkIcmp (ipScanReadBool o "enabled" (icmpEnabled c)) (readTimeout o (icmpTimeoutMs c))
    (ipScanReadInt o "count" (icmpCount c) 1 10).

Definition readTcp (o : jobject) (c : ScanTcpOptions) : ScanTcpOptions :=
  MkTcp (ipScanReadBool o "enabled" (tcpEnabled c)) (readTimeout o (tcpTimeoutMs c))
    (ipScanReadInt o "attempts" (tcpAttempts c) 1 10).

Definition tlsVersions : list qstring := [[]; u "1.0"; u "1.1"; u "1.2"; u "1.3"].

Definition readHttp (o : jobject) (c : ScanHttpOptions) : ScanHttpOptions :=
  MkHttp (ipScanReadBool o "enabled" (httpEnabled c)) (ipScanReadBool o "tls" (httpTls c))
    (ipScanReadString o "serverName" (serverName c)) (ipScanReadString o "host" (httpHost c))
    (ipScanReadString o "path" (httpPath c)) (ipScanReadChoice o "method" (httpMethod c) [u "GET"; u "HEAD"; u "NONE"])
    (ipScanReadChoice o "httpVersion" (httpVersion c) [u "1.1"; u "2"; u "3"]) (readAlpn o (alpn c))
    (ipScanReadChoice o "minVersion" (minVersion c) tlsVersions)
    (ipScanReadChoice o "maxVersion" (maxVersion c) tlsVersions)
    (ipScanReadString o "fingerprint" (fingerprint c)) (ipScanReadBool o "insecure" (insecure c))
    (ipScanReadBool o "disableSni" (disableSni c)) (ipScanReadBool o "fragment" (fragment c))
    (ipScanReadInt o "fragmentFallbackDelayMs" (fragmentFallbackDelayMs c) 0 kIpScanMaxTimeoutMs)
    (ipScanReadBool o "recordFragment" (recordFragment c)) (ipScanReadBool o "mixedCaseSni" (mixedCaseSni c))
    (readTimeout o (httpTimeoutMs c)).

Definition readConfigTest (o : jobject) (c : ScanConfigTestOptions) : ScanConfigTestOptions :=
  MkConfigTest (ipScanReadBool o "enabled" (configEnabled c)) (ipScanReadInt o "profileId" (configProfileId c) (-1) maxInt)
    (ipScanReadString o "url" (configUrl c)) (readTimeout o (configTimeoutMs c))
    (ipScanReadBool o "warmLatency" (configWarmLatency c)).

Definition readWarp (o : jobject) (c : ScanWarpOptions) : ScanWarpOptions :=
  MkWarp (ipScanReadChoice o "mode" (warpMode c) [u "wireguard"; u "amneziawg"; u "masque"])
    (ipScanReadInt o "httpMode" (httpMode c) 0 2)
    (ipScanReadChoice o "identity" (identity c) [u "generated"; u "profile"; u "builtin"])
    (ipScanReadInt o "profileId" (warpProfileId c) (-1) maxInt)
    (match field o "generatedIdentity" with Some (JObject v) => v | _ => generatedIdentity c end)
    (ipScanReadChoice o "generatedMode" (generatedMode c) [[]; u "wireguard"; u "masque"])
    (ipScanReadInt o "mtu" (mtu c) 576 9000) (ipScanReadString o "sni" (sni c))
    (ipScanReadInt o "jc" (jc c) 0 128) (ipScanReadInt o "jmin" (jmin c) 0 1280) (ipScanReadInt o "jmax" (jmax c) 0 1280)
    (ipScanReadString o "i1" (i1 c)) (ipScanReadString o "i2" (i2 c)) (ipScanReadString o "i3" (i3 c))
    (ipScanReadString o "i4" (i4 c)) (ipScanReadString o "i5" (i5 c)) (ipScanReadString o "url" (warpUrl c))
    (readTimeout o (warpTimeoutMs c)) (ipScanReadBool o "warmLatency" (warpWarmLatency c)).

Definition FromJson (o : jobject) (c : ScanConfig) : ScanConfig :=
  MkConfig (readPorts o (ports c)) (readPortMode o (portMode c)) (ipScanReadBool o "shuffle" (shuffle c))
    (ipScanReadBool o "ipv6" (scanIPv6 c)) (ipScanReadInt o "stopAfter" (stopAfter c) 0 1000000000)
    (ipScanReadInt o "concurrency" (concurrency c) 1 1000) (ipScanReadInt o "spawnIntervalMs" (spawnIntervalMs c) 0 1000)
    (readIcmp (toObject (field o "icmp")) (icmp c)) (readTcp (toObject (field o "tcp")) (tcp c))
    (readHttp (toObject (field o "http")) (http c)) (readConfigTest (toObject (field o "config")) (config c))
    (readWarp (toObject (field o "warp")) (warp c)).
End Reading.

(** ** What decides the target order *)

(** The text hashed: the ports in stored order, for the core maps each position to
    one of them. *)
Definition specText (c : ScanConfig) (baseListId : Z) : qstring :=
  joinWith 124 [number 10 baseListId; joinWith 44 (map (number 10) (ipScanCleanPorts (ports c)));
    PortModeKey (portMode c); (if shuffle c then u "1" else u "0"); (if scanIPv6 c then u "1" else u "0")].

(** [sha1]: the hexadecimal SHA-1 of a text's UTF-8 form. *)
Definition TargetSpecHash (sha1 : qstring -> qstring) (c : ScanConfig) (baseListId : Z) : qstring :=
  sha1 (specText c baseListId).

(** ** Clean ports *)

Definition portOk (p : Z) : Prop := 1 <= p <= 65535.

Definition portsOk (l : list Z) : Prop := Forall portOk l /\ NoDup l.

Lemma cleanPorts_loop l out :
  portsOk out ->
  portsOk (fold_left (fun out port =>
    if (1 <=? port) && (port <=? 65535) && negb (bool_decide (port ∈ out)) then out ++ [port] else out) l out).
Proof.
  revert out. induction l as [|p l IH]; intros out [Hr Hn]; [done|]. simpl. apply IH.
  destruct (_ && _ && _) eqn:E; [|done]. bool_to_prop. split.
  - apply Forall_app. split; [done|]. constructor; [split; lia|constructor].
  - apply NoDup_app. split_and!; [done| |by apply NoDup_singleton]. intros x Hx ->%list_elem_of_singleton. done.
Qed.

Lemma cleanPorts_ok l : portsOk (ipScanCleanPorts l).
Proof. apply (cleanPorts_loop l []). split; constructor. Qed.

Lemma cleanPorts_append l out :
  portsOk l -> (forall x, x ∈ out -> x ∉ l) ->
  fold_left (fun out port =>
    if (1 <=? port) && (port <=? 65535) && negb (bool_decide (port ∈ out)) then out ++ [port] else out) l out = out ++ l.
Proof.
  intros [Hr Hn]. revert out. induction l as [|p l IH]; intros out Hd; [by rewrite app_nil_r|].
  apply Forall_cons in Hr as [Hp Hr]. apply NoDup_cons in Hn as [Hnot Hn]. cbn [fold_left].
  rewrite (bool_decide_false (p ∈ out)) by (intros Hin; apply (Hd p Hin); by left).
  destruct Hp. rewrite (proj2 (Z.leb_le 1 p)), (proj2 (Z.leb_le p 65535)) by done. cbn [negb andb].
  rewrite IH by first [done|intros x [Hx| ->%list_elem_of_singleton]%elem_of_app Hl; [|done]; apply (Hd x Hx); by right].
  by rewrite <- app_assoc.
Qed.

Lemma cleanPorts_id l : portsOk l -> ipScanCleanPorts l = l.
Proof. intros H. unfold ipScanCleanPorts. rewrite cleanPorts_append; [done|done|]. by intros x ?%elem_of_nil. Qed.

(** ** Spaces at the ends *)

Lemma dropWhile_head f s c : head (dropWhile f s) = Some c -> f c = false.
Proof. induction s as [|x s IH]; [done|]. simpl. destruct (f x) eqn:E; [done|]. by intros [= ->]. Qed.

Lemma dropWhile_id f s : (forall c, head s = Some c -> f c = false) -> dropWhile f s = s.
Proof. destruct s as [|x s]; [done|]. intros H. simpl. by rewrite (H x eq_refl). Qed.

Lemma dropWhile_suffix f s : exists t, s = t ++ dropWhile f s.
Proof.
  induction s as [|x s [t IH]]; [by exists []|]. simpl. destruct (f x); [|by exists []].
  exists (x :: t). simpl. by rewrite <- IH.
Qed.

Lemma trimmed_idem `{QtText} s : trimmed (trimmed s) = trimmed s.
Proof.
  unfold trimmed, dropWhileEnd. set (d := dropWhile isSpace s).
  destruct (dropWhile_suffix isSpace (rev d)) as [t Ht]. set (e := dropWhile isSpace (rev d)) in *.
  assert (Hd : d = rev e ++ rev t) by (by rewrite <- rev_app_distr, <- Ht, rev_involutive).
  rewrite (dropWhile_id isSpace (rev e)).
  - rewrite rev_involutive, (dropWhile_id isSpace e); [done|]. intros c. apply dropWhile_head.
  - intros c Hc. apply (dropWhile_head isSpace s). fold d. rewrite Hd. by destruct (rev e).
Qed.

(** ** The hashed text names the target order *)

Lemma number_not_separator n c : c <> 45 -> ~ (48 <= c <= 57) -> c ∉ number 10 n.
Proof.
  intros Hm Hc. unfold number. destruct (Z.ltb_spec n 0).
  - rewrite not_elem_of_cons. split; [done|]. intros Hin.
    pose proof (number_decimal_chars (- n) ltac:(lia)) as Hd. rewrite number_nonneg in Hd by lia.
    rewrite Forall_forall in Hd. by apply Hc, Hd.
  - intros Hin. pose proof (number_decimal_chars n ltac:(lia)) as Hd. rewrite number_nonneg in Hd by lia.
    rewrite Forall_forall in Hd. by apply Hc, Hd.
Qed.

Lemma joinWith_in c fs x : x ∈ joinWith c fs -> x = c \/ exists f, f ∈ fs /\ x ∈ f.
Proof.
  induction fs as [|f fs IH]; [by intros ?%elem_of_nil|]. destruct (decide (fs = [])) as [->|Hne].
  - simpl. intros Hx. right. exists f. split; [by left|done].
  - rewrite joinWith_cons by done. intros [Hx|[->|Hx]%elem_of_cons]%elem_of_app.
    + right. exists f. split; [by left|done].
    + by left.
    + destruct (IH Hx) as [->|(g & Hg & Hxg)]; [by left|]. right. exists g. split; [by right|done].
Qed.

Lemma join_numbers_inj c l l' :
  c <> 45 -> ~ (48 <= c <= 57) -> joinWith c (map (number 10) l) = joinWith c (map (number 10) l') -> l = l'.
Proof.
  intros Hm Hc E.
  assert (Hf : forall l, Forall (fun f => c ∉ f) (map (number 10) l)).
  { intros k. apply Forall_map, Forall_forall. intros n _. by apply number_not_separator. }
  assert (Hnil : forall l, l <> [] -> joinWith c (map (number 10) l) <> []).
  { intros [|n k] Hne E'; [done|]. pose proof (splitOn_join c (map (number 10) (n :: k)) ltac:(done) (Hf _)) as Hs.
    rewrite E' in Hs. simpl in Hs. injection Hs as Hn _. symmetry in Hn. revert Hn. unfold number.
    destruct (Z.ltb_spec n 0); [done|]. intros Hn%map_eq_nil. by apply digs_not_nil in Hn. }
  destruct (decide (l = [])) as [->|Hl], (decide (l' = [])) as [->|Hl']; [done| | |].
  - by destruct (Hnil l' Hl').
  - by destruct (Hnil l Hl).
  - apply (f_equal (splitOn c)) in E. rewrite !splitOn_join in E by first [done|by intros ?%map_eq_nil].
    revert E. apply list_fmap_eq_inj. intros a b. apply number_inj.
Qed.

Lemma PortModeKey_inj m m' : PortModeKey m = PortModeKey m' -> m = m'.
Proof. by destruct m, m'. Qed.

(** Two configurations with the same hashed text list the same targets in the same
    order: base list, clean ports, port mode, shuffling, families. *)
Lemma specText_inj c c' b b' :
  specText c b = specText c' b' ->
  b = b' /\ ipScanCleanPorts (ports c) = ipScanCleanPorts (ports c') /\ portMode c = portMode c' /\
  shuffle c = shuffle c' /\ scanIPv6 c = scanIPv6 c'.
Proof.
  unfold specText. intros E. apply (f_equal (splitOn 124)) in E.
  assert (Hf : forall c b, Forall (fun f => 124 ∉ f)
    [number 10 b; joinWith 44 (map (number 10) (ipScanCleanPorts (ports c))); PortModeKey (portMode c);
     (if shuffle c then u "1" else u "0"); (if scanIPv6 c then u "1" else u "0")]).
  { clear. intros c b. repeat apply Forall_cons_2; [apply number_not_separator; lia| | | | |constructor].
    - intros [?|(f & (n & -> & _)%list_elem_of_fmap & Hin)]%joinWith_in; [done|]. revert Hin. apply number_not_separator; lia.
    - destruct (portMode c); vm_compute; set_solver.
    - destruct (shuffle c); vm_compute; set_solver.
    - destruct (scanIPv6 c); vm_compute; set_solver. }
  rewrite !splitOn_join in E by first [done|apply Hf]. injection E as Eb Ep Em Es Ei. split_and!.
  - by apply number_inj.
  - apply (join_numbers_inj 44); [lia|lia|done].
  - by apply PortModeKey_inj.
  - by destruct (shuffle c), (shuffle c').
  - by destruct (scanIPv6 c), (scanIPv6 c').
Qed.

(** ** In range *)

Definition within (lo hi z : Z) : Prop := lo <= z <= hi.

Definition timeoutOk : Z -> Prop := within kIpScanMinTimeoutMs kIpScanMaxTimeoutMs.

Definition methods : list qstring := [u "GET"; u "HEAD"; u "NONE"].
Definition httpVersions : list qstring := [u "1.1"; u "2"; u "3"].
Definition warpModes : list qstring := [u "wireguard"; u "amneziawg"; u "masque"].
Definition identities : list qstring := [u "generated"; u "profile"; u "builtin"].
Definition generatedModes : list qstring := [[]; u "wireguard"; u "masque"].

Section Ranges.
Context `{Q : QtText}.

Definition alpnOk (l : list qstring) : Prop := NoDup l /\ Forall (fun s => s <> [] /\ trimmed s = s) l.

Definition httpOk (o : ScanHttpOptions) : Prop :=
  httpMethod o ∈ methods /\ httpVersion o ∈ httpVersions /\ alpnOk (alpn o) /\ minVersion o ∈ tlsVersions /\
  maxVersion o ∈ tlsVersions /\ within 0 kIpScanMaxTimeoutMs (fragmentFallbackDelayMs o) /\ timeoutOk (httpTimeoutMs o).

Definition warpOk (o : ScanWarpOptions) : Prop :=
  warpMode o ∈ warpModes /\ within 0 2 (httpMode o) /\ identity o ∈ identities /\ within (-1) maxInt (warpProfileId o) /\
  generatedMode o ∈ generatedModes /\ within 576 9000 (mtu o) /\ within 0 128 (jc o) /\ within 0 1280 (jmin o) /\
  within 0 1280 (jmax o) /\ timeoutOk (warpTimeoutMs o).

(** What the reader guarantees of a configuration. *)
Definition configOk (c : ScanConfig) : Prop :=
  portsOk (ports c) /\ within 0 1000000000 (stopAfter c) /\ within 1 1000 (concurrency c) /\
  within 0 1000 (spawnIntervalMs c) /\ (timeoutOk (icmpTimeoutMs (icmp c)) /\ within 1 10 (icmpCount (icmp c))) /\
  (timeoutOk (tcpTimeoutMs (tcp c)) /\ within 1 10 (tcpAttempts (tcp c))) /\ httpOk (http c) /\
  (within (-1) maxInt (configProfileId (config c)) /\ timeoutOk (configTimeoutMs (config c))) /\ warpOk (warp c).

Lemma readInt_within o k v lo hi : lo <= hi -> within lo hi v -> within lo hi (ipScanReadInt o k v lo hi).
Proof. unfold ipScanReadInt, within. intros Hle Hv. destruct (field o k) as [[]|]; lia. Qed.

Lemma readTimeout_ok o v : timeoutOk v -> timeoutOk (readTimeout o v).
Proof. apply readInt_within. done. Qed.

Lemma readChoice_in o k v allowed : v ∈ allowed -> ipScanReadChoice o k v allowed ∈ allowed.
Proof.
  unfold ipScanReadChoice. intros Hv. destruct (field o k) as [[]|]; try done. destruct (find _ _) eqn:E; [|done].
  apply find_some in E as [E _]. by apply list_elem_of_In.
Qed.

Lemma readAlpn_loop l out :
  alpnOk out ->
  alpnOk (fold_left (fun out item =>
    let value := trimmed (toQString (Some item) []) in
    if negb (bool_decide (value = [])) && negb (bool_decide (value ∈ out)) then out ++ [value] else out) l out).
Proof.
  revert out. induction l as [|v l IH]; intros out [Hn Hf]; [done|]. cbn [fold_left]. apply IH. cbv zeta.
  destruct (_ && _) eqn:E; [|done]. bool_to_prop. split.
  - apply NoDup_app. split_and!; [done| |by apply NoDup_singleton]. by intros x Hx ->%list_elem_of_singleton.
  - apply Forall_app. split; [done|]. constructor; [|constructor]. split; [done|apply trimmed_idem].
Qed.

Lemma FromJson_ok o c : configOk c -> configOk (FromJson o c).
Proof.
  intros (Hp & H1 & H2 & H3 & [H4 H5] & [H6 H7] & (M & V & [An Af] & Mi & Ma & Fr & Ti) & [H8 H9] &
    (W1 & W2 & W3 & W4 & W5 & W6 & W7 & W8 & W9 & W10)).
  unfold configOk, httpOk, warpOk; simpl.
  split_and!; try (by apply readInt_within); try (by apply readTimeout_ok); try (by apply readChoice_in);
    try (by apply readInt_within; unfold maxInt; lia).
  - unfold readPorts. destruct (field o "ports") as [[]|]; try done. apply cleanPorts_ok.
  - unfold readAlpn. destruct (field _ "alpn") as [[]|]; try done. by apply readAlpn_loop; split; [constructor|].
Qed.

(** Reading what was written. *)

Lemma readBool_at l k v b : assoc k l = Some (JBool b) -> ipScanReadBool (list_to_map l) k v = b.
Proof. unfold ipScanReadBool. rewrite field_assoc. by intros ->. Qed.

Lemma readString_at l k v s : assoc k l = Some (JString s) -> ipScanReadString (list_to_map l) k v = s.
Proof. unfold ipScanReadString. rewrite field_assoc. by intros ->. Qed.

Lemma readInt_at l k v lo hi z : assoc k l = Some (jint z) -> within lo hi z -> ipScanReadInt (list_to_map l) k v lo hi = z.
Proof. unfold ipScanReadInt, within. rewrite field_assoc. intros ->. simpl. lia. Qed.

Lemma readChoice_at l k v s allowed :
  assoc k l = Some (JString s) -> s ∈ allowed -> trimmed s = s ->
  (forall c, c ∈ allowed -> equalsCI s c = true -> c = s) ->
  ipScanReadChoice (list_to_map l) k v allowed = s.
Proof.
  unfold ipScanReadChoice. rewrite field_assoc. intros -> Hin -> Hu. destruct (find _ _) eqn:E.
  - apply find_some in E as [Hc E]. apply Hu; [by apply list_elem_of_In|done].
  - apply list_elem_of_In in Hin. pose proof (find_none _ _ E s Hin) as Hf. simpl in Hf. unfold equalsCI in Hf.
    by rewrite bool_decide_true in Hf.
Qed.

Lemma readPorts_at l : portsOk l -> forall o v, field o "ports" = Some (JArray (map jint l)) -> readPorts o v = l.
Proof.
  intros H o v E. unfold readPorts. rewrite E. transitivity (ipScanCleanPorts l); [|by apply cleanPorts_id]. f_equal.
  clear E. destruct H as [H _]. induction H as [|p l [Hlo Hhi] _ IH]; [done|]. rewrite map_cons, bind_cons, IH.
  unfold jint at 1. rewrite toInt_jint by (unfold in_int; lia). done.
Qed.

Lemma readAlpn_at l : alpnOk l -> forall o v, field o "alpn" = Some (JArray (map JString l)) -> readAlpn o v = l.
Proof.
  intros [Hn Hf] o v E. unfold readAlpn. rewrite E.
  enough (G : forall out, (forall x, x ∈ out -> x ∉ l) -> fold_left (fun out item =>
    let value := trimmed (toQString (Some item) []) in
    if negb (bool_decide (value = [])) && negb (bool_decide (value ∈ out)) then out ++ [value] else out)
    (map JString l) out = out ++ l) by (apply G; by intros x ?%elem_of_nil).
  clear E. induction l as [|s l IH]; intros out Hd; [by rewrite app_nil_r|].
  apply Forall_cons in Hf as [[Hs Ht] Hf]. apply NoDup_cons in Hn as [Hnot Hn]. cbn [map fold_left toQString]. cbv zeta.
  rewrite Ht, (bool_decide_false (s = [])), (bool_decide_false (s ∈ out)) by first [done|intros Hi; apply (Hd s Hi); by left].
  cbn [negb andb]. rewrite IH.
  - by rewrite <- app_assoc.
  - done.
  - done.
  - intros x [Hx| ->%list_elem_of_singleton]%elem_of_app Hl; [|done]. apply (Hd x Hx). by right.
Qed.

Lemma readPortMode_at o m v : field o "portMode" = Some (JString (PortModeKey m)) -> readPortMode o v = m.
Proof. unfold readPortMode. intros ->. by destruct m. Qed.
End Ranges.

(** On ASCII the tables agree with the ASCII ones. *)
Definition ascii (s : qstring) : Prop := Forall (fun c => 0 <= c < 128) s.

Section Ascii.
Context {Q : QtText} {QL : QtTextLaws Q}.

Lemma fold_ascii s : ascii s -> map toCaseFolded s = map (@toCaseFolded asciiText) s.
Proof. intros Hs. induction Hs as [|c s Hc _ IH]; [done|]. simpl. by rewrite IH, toCaseFolded_ascii. Qed.

Lemma equalsCI_ascii s t : ascii s -> ascii t -> equalsCI s t = @equalsCI asciiText s t.
Proof. intros Hs Ht. unfold equalsCI. by rewrite !fold_ascii. Qed.

Lemma trimmed_ascii s : Forall (fun c => 32 < c < 128) s -> trimmed s = s.
Proof.
  intros Hs. apply trimmed_no_space. eapply Forall_impl; [exact Hs|]. intros c Hc. simpl in Hc.
  rewrite isSpace_ascii by lia. destruct (Z.eqb_spec c 32), (Z.leb_spec 9 c), (Z.leb_spec c 13); simpl; lia || done.
Qed.
End Ascii.

(** Choices that the reader tells apart: printable ASCII, distinct even when
    case-folded. *)
Definition plainChoices (l : list qstring) : bool :=
  forallb (forallb (fun c => (32 <? c) && (c <? 128))) l &&
  forallb (fun s => forallb (fun c => bool_decide (c = s) || negb (@equalsCI asciiText s c)) l) l.

Lemma readChoice_plain `{Q : QtText} {QL : QtTextLaws Q} l k v s allowed :
  plainChoices allowed = true -> assoc k l = Some (JString s) -> s ∈ allowed ->
  ipScanReadChoice (list_to_map l) k v allowed = s.
Proof.
  unfold plainChoices. intros [Hp Hd]%andb_true_iff E Hin. rewrite forallb_forall in Hp, Hd.
  assert (Hc : forall c, c ∈ allowed -> Forall (fun x => 32 < x < 128) c).
  { intros c Hc%list_elem_of_In. apply Hp in Hc. rewrite forallb_forall in Hc. apply Forall_forall.
    intros x Hx%list_elem_of_In. apply Hc in Hx. bool_to_prop. lia. }
  assert (Ha : forall c, c ∈ allowed -> ascii c).
  { intros c Hcc. eapply Forall_impl; [by apply Hc|]. simpl. lia. }
  apply readChoice_at; [done|done|by apply trimmed_ascii, Hc|]. intros c Hcc Heq.
  rewrite equalsCI_ascii in Heq by auto. apply list_elem_of_In in Hin as Hin'. apply Hd in Hin'.
  rewrite forallb_forall in Hin'. apply list_elem_of_In in Hcc. apply Hin' in Hcc. rewrite Heq in Hcc.
  simpl in Hcc. rewrite orb_false_r in Hcc. by bool_to_prop.
Qed.

(** Reads the members one after the other. *)
Ltac read_back :=
  repeat match goal with
  | |- context [ipScanReadBool (list_to_map ?l) ?k ?v] => rewrite (readBool_at l k v _ eq_refl)
  | |- context [ipScanReadString (list_to_map ?l) ?k ?v] => rewrite (readString_at l k v _ eq_refl)
  | |- context [ipScanReadInt (list_to_map ?l) ?k ?v ?lo ?hi] => rewrite (readInt_at l k v lo hi _ eq_refl) by assumption
  | |- context [ipScanReadChoice (list_to_map ?l) ?k ?v ?cs] => rewrite (readChoice_plain l k v _ cs eq_refl eq_refl) by assumption
  end.

Section RoundTrip.
Context `{Q : QtText} {QL : QtTextLaws Q}.

Lemma readIcmp_back c c0 : timeoutOk (icmpTimeoutMs c) -> within 1 10 (icmpCount c) -> readIcmp (list_to_map (icmpFields c)) c0 = c.
Proof. intros H1 H2. unfold readIcmp, readTimeout. read_back. by destruct c. Qed.

Lemma readTcp_back c c0 : timeoutOk (tcpTimeoutMs c) -> within 1 10 (tcpAttempts c) -> readTcp (list_to_map (tcpFields c)) c0 = c.
Proof. intros H1 H2. unfold readTcp, readTimeout. read_back. by destruct c. Qed.

Lemma readHttp_back c c0 : httpOk c -> readHttp (list_to_map (httpFields c)) c0 = c.
Proof.
  intros (M & V & A & Mi & Ma & Fr & Ti). unfold readHttp, readTimeout. read_back.
  rewrite (readAlpn_at (alpn c) A) by (rewrite field_assoc; exact eq_refl). by destruct c.
Qed.

Lemma readConfigTest_back c c0 :
  within (-1) maxInt (configProfileId c) -> timeoutOk (configTimeoutMs c) ->
  readConfigTest (list_to_map (configFields c)) c0 = c.
Proof. intros H1 H2. unfold readConfigTest, readTimeout. read_back. by destruct c. Qed.

Lemma readWarp_back c c0 : warpOk c -> readWarp (list_to_map (warpFields c)) c0 = c.
Proof.
  intros (W1 & W2 & W3 & W4 & W5 & W6 & W7 & W8 & W9 & W10). unfold readWarp, readTimeout. read_back.
  replace (field (list_to_map (warpFields c)) "generatedIdentity") with (Some (JObject (generatedIdentity c)))
    by (rewrite field_assoc; exact eq_refl).
  by destruct c.
Qed.

Lemma FromJson_ToJson c c0 : configOk c -> FromJson (ToJson c) c0 = c.
Proof.
  intros (Hp & H1 & H2 & H3 & [H4 H5] & [H6 H7] & Hh & [H8 H9] & Hw). unfold FromJson, ToJson.
  rewrite (readPorts_at (ports c) Hp) by (rewrite field_assoc; exact eq_refl).
  rewrite (readPortMode_at _ (portMode c)) by (rewrite field_assoc; exact eq_refl). read_back.
  rewrite !field_assoc. cbn [assoc scanFields String.eqb Ascii.eqb Bool.eqb toObject].
  rewrite readIcmp_back, readTcp_back, readHttp_back, readConfigTest_back, readWarp_back by assumption. by destruct c.
Qed.
End RoundTrip.

(** C40: whatever JSON a scan's options are read from, they end in range, if
    they started in range; options in range are read back exactly as they were
    written, whatever they are read over; and two configurations with equal hashed
    texts list the same targets in the same order. *)
Theorem ScanConfig_stored `{Q : QtText} {QL : QtTextLaws Q} c c0 c' o b b' :
  configOk c -> configOk c0 ->
  configOk (FromJson o c0) /\ FromJson (ToJson c) c0 = c /\
  (specText c b = specText c' b' -> b = b' /\ ipScanCleanPorts (ports c') = ports c /\ portMode c' = portMode c /\
     shuffle c' = shuffle c /\ scanIPv6 c' = scanIPv6 c).
Proof.
  intros Hc Hc0. split_and!; [by apply FromJson_ok|by apply FromJson_ToJson|]. intros E.
  destruct (specText_inj _ _ _ _ E) as (-> & Ep & -> & -> & ->). rewrite <- Ep, cleanPorts_id by apply Hc. done.
Qed.

Lemma DefaultConfig_ok `{QtText} k : configOk (DefaultConfig k).
Proof.
  unfold configOk, httpOk, warpOk, alpnOk, portsOk, timeoutOk, within, maxInt, kIpScanMinTimeoutMs, kIpScanMaxTimeoutMs.
  destruct k; simpl; split_and!; try lia; try (by repeat constructor); try (repeat constructor; unfold portOk; lia);
    try (by repeat first [left|right]); try (by repeat constructor; set_solver).
Qed.

Example ScanConfig_stored_witness :
  let c := DefaultConfig Warp in
  @configOk asciiText c /\ @FromJson asciiText (ToJson c) (DefaultConfig Generic) = c.
Proof.
  pose proof (ScanConfig_stored (DefaultConfig Warp) (DefaultConfig Generic) (DefaultConfig Warp) ∅ 0 0
    (DefaultConfig_ok Warp) (DefaultConfig_ok Generic)) as (_ & H & _).
  split; [apply DefaultConfig_ok|exact H].
Defined.
