(* ===== verification/Program.v ===== *)
(** * Program: sequential code that talks to the rest of the program

    A thread whose every effect is a call ([Act X], answered with an [X]): its
    code is a tree of calls, what it did is its trace.  The environment may answer
    anything its [rely] allows; [wp] states what the code guarantees at each call
    it makes and when it ends, and [wp_call]/[wp_end] read that off every trace,
    also one cut short. *)

From S2P Require Import Prelude.

Section Programs.
Context {Act : Type -> Type}.

Inductive prog (A : Type) : Type :=
  | Ret (a : A)
  | Do {X : Type} (e : Act X) (k : X -> prog A).
#[global] Arguments Ret {A} a.
#[global] Arguments Do {A X} e k.

(** A call and its answer. *)
Inductive event :=
  | Ev {X : Type} (e : Act X) (x : X).

Abbreviation trace := (list event).

Fixpoint pbind {A B} (p : prog A) (f : A -> prog B) : prog B :=
  match p with
  | Ret a => f a
  | Do e k => Do e (fun x => pbind (k x) f)
  end.

(** [Steps p tr p']: [p], after the calls and answers [tr], has [p'] left to do. *)
Inductive Steps {A} : prog A -> trace -> prog A -> Prop :=
  | steps_nil p : Steps p [] p
  | steps_call X (e : Act X) k x tr p : Steps (k x) tr p -> Steps (Do e k) (Ev e x :: tr) p.

Definition Runs {A} (p : prog A) (tr : trace) (a : A) : Prop := Steps p tr (Ret a).

(** Running with an oracle that answers from the calls made so far, or not at
    all. *)
Fixpoint answer {A} (o : trace -> forall X, Act X -> option X) (p : prog A) (tr : trace) : option A * trace :=
  match p with
  | Ret a => (Some a, tr)
  | Do e k =>
      match o tr _ e with
      | Some x => answer o (k x) (tr ++ [Ev e x])
      | None => (None, tr)
      end
  end.

Lemma steps_app {A} (p q r : prog A) tr tr' : Steps p tr q -> Steps q tr' r -> Steps p (tr ++ tr') r.
Proof. intros H H'. induction H; [done|]. simpl. by constructor; auto. Qed.

Lemma answer_runs {A} o (p : prog A) tr :
  exists tr', (answer o p tr).2 = tr ++ tr' /\ forall a, (answer o p tr).1 = Some a -> Runs p tr' a.
Proof.
  revert tr. induction p as [a|X e k IH]; intros tr; simpl.
  - exists []. rewrite app_nil_r. split; [done|]. intros b [= ->]. constructor.
  - destruct (o tr X e) as [x|].
    + destruct (IH x (tr ++ [Ev e x])) as (tr' & E & R). exists (Ev e x :: tr').
      rewrite E, <- app_assoc. split; [done|]. intros a Ha. constructor. by apply R.
    + exists []. by rewrite app_nil_r.
Qed.

(** ** Rely and guarantee *)

Record Contract := MkContract {
  rely : trace -> forall X, Act X -> X -> Prop;
  guarantee : trace -> forall X, Act X -> Prop }.

Section Wp.
Context (C : Contract).

Fixpoint wp {A} (p : prog A) (tr : trace) (Q : A -> trace -> Prop) : Prop :=
  match p with
  | Ret a => Q a tr
  | Do e k => guarantee C tr _ e /\ forall x, rely C tr _ e x -> wp (k x) (tr ++ [Ev e x]) Q
  end.

Lemma wp_mono {A} (p : prog A) tr (Q Q' : A -> trace -> Prop) :
  (forall a tr', Q a tr' -> Q' a tr') -> wp p tr Q -> wp p tr Q'.
Proof.
  intros HQ. revert tr. induction p as [a|X e k IH]; intros tr; simpl; [apply HQ|].
  intros [Hg H]. split; [done|]. intros x Hx. apply IH, H, Hx.
Qed.

Lemma wp_bind {A B} (p : prog A) (f : A -> prog B) tr Q :
  wp p tr (fun a tr' => wp (f a) tr' Q) -> wp (pbind p f) tr Q.
Proof.
  revert tr. induction p as [a|X e k IH]; intros tr; simpl; [done|].
  intros [Hg H]. split; [done|]. intros x Hx. apply IH, H, Hx.
Qed.

(** What an environment that keeps its side may answer. *)
Fixpoint Fair (tr tr' : trace) : Prop :=
  match tr' with
  | [] => True
  | Ev e x :: tr'' => rely C tr _ e x /\ Fair (tr ++ [Ev e x]) tr''
  end.

Lemma fair_app tr t1 t2 : Fair tr (t1 ++ t2) <-> Fair tr t1 /\ Fair (tr ++ t1) t2.
Proof.
  revert tr. induction t1 as [|[X e x] t1 IH]; intros tr; simpl; [rewrite app_nil_r; tauto|].
  rewrite IH, <- app_assoc. simpl. tauto.
Qed.

Lemma wp_steps {A} (p q : prog A) tr tr' Q : Steps p tr' q -> Fair tr tr' -> wp p tr Q -> wp q (tr ++ tr') Q.
Proof.
  intros H. revert tr. induction H as [p|X e k x tr' q H IH]; intros tr; [by rewrite app_nil_r|].
  simpl. intros [Hx Hf] [_ Hw]. change (Ev e x :: tr') with ([Ev e x] ++ tr'). rewrite app_assoc. by apply IH, Hw.
Qed.

(** An oracle that keeps the environment's side makes a fair run, with what is left
    to do where it stopped answering. *)
Lemma answer_fair {A} o (p : prog A) tr :
  (forall tr X e x, o tr X e = Some x -> rely C tr X e x) ->
  exists tr' q, (answer o p tr).2 = tr ++ tr' /\ Steps p tr' q /\ Fair tr tr' /\
    forall a, (answer o p tr).1 = Some a -> q = Ret a.
Proof.
  intros Ho. revert tr. induction p as [a|X e k IH]; intros tr; simpl.
  - exists [], (Ret a). rewrite app_nil_r. split_and!; try done; [constructor|by intros ? [= ->]].
  - destruct (o tr X e) as [x|] eqn:E.
    + destruct (IH x (tr ++ [Ev e x])) as (tr' & q & E2 & Hs & Hf & Ha). exists (Ev e x :: tr'), q.
      rewrite E2, <- app_assoc. split_and!; [done|by constructor|split; [by apply Ho|done]|done].
    + exists [], (Do e k). rewrite app_nil_r. split_and!; try done. constructor.
Qed.

(** The result of a finished run. *)
Lemma wp_end {A} (p : prog A) tr a Q : Runs p tr a -> Fair [] tr -> wp p [] Q -> Q a tr.
Proof. intros H Hf Hw. apply (wp_steps _ _ _ _ _ H Hf Hw). Qed.

Lemma steps_prefix {A} (p q : prog A) tr t1 t2 :
  Steps p tr q -> tr = t1 ++ t2 -> exists m, Steps p t1 m /\ Steps m t2 q.
Proof.
  intros H. revert t1. induction H as [p|X e k x tr q H IH]; intros t1 E.
  - symmetry in E. apply app_eq_nil in E as [-> ->]. exists p. by split; constructor.
  - destruct t1 as [|ev t1]; simpl in E.
    + subst t2. exists (Do e k). split; [constructor|by constructor].
    + injection E as <- ->. destruct (IH t1 eq_refl) as (m & Hm & Hq). exists m. split; [by constructor|done].
Qed.

Definition guaranteed (tr : trace) (ev : event) : Prop :=
  match ev with Ev e _ => guarantee C tr _ e end.

Lemma wp_first {A} (p q : prog A) tr tr' ev t Q : Steps p tr' q -> tr' = ev :: t -> wp p tr Q -> guaranteed tr ev.
Proof. intros H. destruct H as [p|X e k x tr' q H]; [done|]. intros [= <- _] [Hg _]. exact Hg. Qed.

(** Every call made was guaranteed, in a run cut short anywhere too. *)
Lemma wp_call {A} (p q : prog A) t1 ev t2 Q :
  Steps p (t1 ++ ev :: t2) q -> Fair [] (t1 ++ ev :: t2) -> wp p [] Q -> guaranteed t1 ev.
Proof.
  intros H Hf Hw. destruct (steps_prefix p q _ t1 (ev :: t2) H eq_refl) as (m & H1 & H2).
  apply fair_app in Hf as [Hf1 _]. eapply wp_first; [exact H2|done|]. exact (wp_steps _ _ _ _ _ H1 Hf1 Hw).
Qed.
End Wp.
End Programs.

#[global] Arguments prog Act A : clear implicits.
#[global] Arguments event Act : clear implicits.
#[global] Arguments Contract Act : clear implicits.
