(* ===== verification/ScanWorker.v ===== *)
(** * ScanWorker: one run of a scan

    src/scanner/ScanWorker.cpp: the run thread, from [run] to its last call.  What
    the thread keeps to itself is the record [Worker]; everything it shares or
    asks of others is a call ([Act]): the flags [stop_] and [persist_], which the
    main thread sets at any time, the two repositories, the core's RPCs, the
    profile code and the hooks.  Texts for the log are left out; error texts are
    the untranslated ones. *)

From S2P Require Import Prelude Text IpAddress ScanConfig Program.

Definition kScanWorkerTunnelHandshakeMs : Z := 10000.
Definition kScanWorkerTunnelStartupMs : Z := 5000.
Definition kScanWorkerCoreMaxConcurrency : Z := 100.
Definition kScanWorkerFallbackPort : Z := 443.
Definition kScanWorkerPlainHttpPort : Z := 80.
Definition kScanWorkerRescanRetries : nat := 5.
Definition kScanWorkerRpcSlackMs : Z := 30000.
Definition kScanWorkerCountTimeoutMs : Z := 60000.
Definition kScanWorkerRetryDelayMs : Z := 1000.

(** ** What is exchanged *)

Inductive StartMode := Resume | FromInitial | RescanResults.

Record ListHeader := MkHeader { hid : Z; hname : qstring; hrole : Role; hrelated : Z; hcount : Z }.

Record NewList := MkNewList { nlName : qstring; nlRole : Role; nlRelated : Z; nlEntries : list IpListEntry }.

Record TargetSpec := MkSpec {
  spEntries : list (qstring * Z); spPorts : list Z; spPortMode : qstring; spShuffle : bool; spSeed : Z }.

(** The options of the phases; [None] for a request that only counts. *)
Record ProbeOptions := MkOptions {
  poConcurrency : Z; poSpawnIntervalMs : Z; poIcmp : ScanIcmpOptions; poTcp : ScanTcpOptions;
  poHttp : ScanHttpOptions; poFallbackPort : Z }.

Record ProbeRequest := MkProbe { rqSpec : TargetSpec; rqCursor : Z; rqMax : Z; rqOptions : option ProbeOptions }.

Record ProbeItem := MkItem {
  piAddress : qstring; piPort : Z; piPassed : bool; piLocalFailure : bool; piProbePort : Z;
  piIcmpMs : Z; piTcpMs : Z; piTlsMs : Z; piHttpMs : Z }.

(** [prOk] and [prCoreError]: whether the call was answered, and the transport's error. *)
Record ProbeReply := MkReply {
  prOk : bool; prCoreError : qstring; prError : qstring; prTotal : Z; prNextCursor : Z; prAborted : bool;
  prResults : list ProbeItem; prInvalid : Z }.

Record TestBuild := MkBuild {
  tbError : qstring; tbUnsupported : list Z; tbTags : option (list qstring); tbTargets : gmap qstring Z }.

Record UrlItem := MkUrlItem { uiTag : qstring; uiError : qstring; uiLatency : Z }.

Record UrlReply := MkUrlReply {
  urOk : bool; urCoreError : qstring; urVpn : list (qstring * bool); urResults : list UrlItem }.

Record Counters := MkCounters { cProbed : Z; cProbePassed : Z; cUrlTested : Z }.

(** The members of the chain, when the profile is one. *)
Record ScanBase := MkBase { baseChain : option (list Z) }.

Inductive Act : Type -> Type :=
  (* the atomics shared with the main thread and the poller *)
  | ReadStop : Act bool | SetStop : Act unit | ReadPersist : Act bool | SetFinalized : Act unit | SetPollStop : Act unit
  (* IpListsRepo *)
  | GetIpList (id : Z) : Act (option (list IpListEntry))
  | GetAllIpLists : Act (list ListHeader)
  | GetEntries (id : Z) : Act (list IpListEntry)
  | EntryCount (id : Z) : Act Z
  | AddIpList (l : NewList) : Act (option Z)
  | ClearEntries (id : Z) : Act unit
  | DeleteIpList (id : Z) : Act unit
  | UpsertEntries (id : Z) (es : list IpListEntry) : Act Z
  | RemoveEntries (id : Z) (es : list IpListEntry) : Act Z
  (* IpScansRepo *)
  | GetIpScan (id : Z) : Act (option IpScan)
  | SaveScan (row : IpScan) : Act bool
  | SaveProgress (id : Z) (m : Mode) (cursor total found removed : Z) : Act unit
  (* the core *)
  | ScanProbe (rq : ProbeRequest) (rpcMs : Z) : Act ProbeReply
  | ScanURLTest (tags : list qstring) (url : qstring) (concurrency timeoutMs rpcMs : Z) (warm : bool) : Act UrlReply
  | ScanCheckNetwork (ipv6 : bool) : Act (bool * bool)
  | QueryScan : Act (option Counters)
  | StopScan : Act unit
  (* profiles and settings *)
  | ValidateScanBase : Act qstring
  | DialedPort (member : option Z) : Act (option Z)
  | BuildScanTestConfig (targets : list (qstring * Z)) : Act TestBuild
  | TestLatencyUrl : Act qstring
  | UrlTestTimeoutMs : Act Z
  (* clock, random numbers, waiting, the hooks *)
  | Now : Act Z | Generate64 : Act Z | Sleep100 : Act unit
  | ProgressHook : Act unit | ResultsHook : Act unit | FinishedHook : Act unit | NotifyListsChanged : Act unit
  (* never answered: the end of a loop's fuel *)
  | Diverge : Act Empty_set.

(** ** The thread's own state *)

Inductive Stage := Preparing | Probing | TestingConfigs | CheckingNetwork.

#[export] Instance Stage_eq_dec : EqDecision Stage.
Proof. solve_decision. Defined.

Record ScanLiveState := MkLive {
  lvStage : Stage; lvTested : Z; lvTotal : Z; lvFound : Z; lvRemoved : Z; lvError : qstring;
  chunkActive_ : bool; chunkStart_ : Z; chunkSize_ : Z; baseProbed_ : Z; baseProbeFailed_ : Z; baseUrlTested_ : Z;
  lastProbed_ : Z; lastProbePassed_ : Z; lastUrlTested_ : Z }.

Definition etaLive (v : ScanLiveState) : ScanLiveState :=
  MkLive (lvStage v) (lvTested v) (lvTotal v) (lvFound v) (lvRemoved v) (lvError v) (chunkActive_ v) (chunkStart_ v)
    (chunkSize_ v) (baseProbed_ v) (baseProbeFailed_ v) (baseUrlTested_ v) (lastProbed_ v) (lastProbePassed_ v)
    (lastUrlTested_ v).

#[export] Instance set_lvStage : Setter lvStage := ltac:(setter etaLive).
#[export] Instance set_lvTested : Setter lvTested := ltac:(setter etaLive).
#[export] Instance set_lvTotal : Setter lvTotal := ltac:(setter etaLive).
#[export] Instance set_lvFound : Setter lvFound := ltac:(setter etaLive).
#[export] Instance set_lvRemoved : Setter lvRemoved := ltac:(setter etaLive).
#[export] Instance set_lvError : Setter lvError := ltac:(setter etaLive).
#[export] Instance set_chunkActive_ : Setter chunkActive_ := ltac:(setter etaLive).

Record Worker := MkWorker {
  startMode_ : StartMode; base_ : option ScanBase; configPhase_ : bool; initialStatus_ : Status;
  scan_ : IpScan; spec_ : TargetSpec; basePort_ : Z; listsTouched_ : bool; live_ : ScanLiveState }.

Definition etaWorker (w : Worker) : Worker :=
  MkWorker (startMode_ w) (base_ w) (configPhase_ w) (initialStatus_ w) (scan_ w) (spec_ w) (basePort_ w)
    (listsTouched_ w) (live_ w).

#[export] Instance set_scan_ : Setter scan_ := ltac:(setter etaWorker).
#[export] Instance set_spec_ : Setter spec_ := ltac:(setter etaWorker).
#[export] Instance set_basePort_ : Setter basePort_ := ltac:(setter etaWorker).
#[export] Instance set_listsTouched_ : Setter listsTouched_ := ltac:(setter etaWorker).
#[export] Instance set_live_ : Setter live_ := ltac:(setter etaWorker).

(** ** The code of the thread: calls, with the state passed along *)

Definition M (A : Type) : Type := Worker -> prog Act (A * Worker).

Definition ret {A} (a : A) : M A := fun w => Ret (a, w).

Definition bind {A B} (m : M A) (f : A -> M B) : M B := fun w => pbind (m w) (fun '(a, w) => f a w).

Definition act {A} (e : Act A) : M A := fun w => Do e (fun x => Ret (x, w)).

Definition gets {A} (f : Worker -> A) : M A := fun w => Ret (f w, w).

Definition modify (f : Worker -> Worker) : M unit := fun w => Ret (tt, f w).

Definition modifyScan (f : IpScan -> IpScan) : M unit := modify (fun w => w <| scan_ := f (scan_ w) |>).

Definition modifyLive (f : ScanLiveState -> ScanLiveState) : M unit := modify (fun w => w <| live_ := f (live_ w) |>).

Declare Scope scan_scope.
Delimit Scope scan_scope with scan.
Notation "'let!' x := m 'in' k" := (bind m (fun x => k))
  (at level 10, x name, m at level 100, k at level 200, format "'[v' 'let!'  x  :=  m  'in' '/' k ']'") : scan_scope.
Notation "'let!' ' p := m 'in' k" := (bind m (fun p => k))
  (at level 10, p strict pattern, m at level 100, k at level 200) : scan_scope.
Notation "'do!' m ; k" := (bind m (fun _ => k))
  (at level 10, m at level 100, k at level 200, format "'[v' 'do!'  m ; '/' k ']'") : scan_scope.
Open Scope scan_scope.

(** [if (c) m;] *)
Definition when (c : bool) (m : M unit) : M unit := if c then m else ret tt.

(** [a && b], where [b] is only read when needed; and [a || b]. *)
Definition andM (a b : M bool) : M bool := let! x := a in if x then b else ret false.

Definition orM (a b : M bool) : M bool := let! x := a in if x then ret true else b.

Definition notM (a : M bool) : M bool := let! x := a in ret (negb x).

(** ** Helpers *)

Definition scanWorkerClampTimeout (ms : Z) : Z := Z.min ms maxInt.

Definition scanWorkerIsAborted (error : qstring) : bool :=
  contains error (u "test aborted") || contains error (u "context canceled").

Definition scanWorkerIsStopped (error : qstring) : bool := contains error (u "scan stopped").

Definition scanWorkerIsIpv6 (entry : IpListEntry) : bool := containsChar (cidr entry) 58.

Definition scanWorkerHasFamily (entries : list IpListEntry) (ipv6 : bool) : bool :=
  existsb (fun entry => Bool.eqb (scanWorkerIsIpv6 entry) ipv6) entries.

Definition scanWorkerFamilyFilter (entries : list IpListEntry) (ipv6 : bool) : list IpListEntry :=
  if ipv6 then entries else filter (fun entry => scanWorkerIsIpv6 entry = false) entries.

Definition scanWorkerBuildSpec (entries : list IpListEntry) (ports : list Z) (portMode : qstring) (shuffle : bool)
    (seed : Z) : TargetSpec :=
  MkSpec (map (fun entry => (cidr entry, port entry)) entries) ports portMode shuffle seed.

Definition isNull (s : qstring) : bool := bool_decide (s = []).

Section Text.
Context `{Q : QtText}.

Definition scanWorkerEntry (address : qstring) (port latencyMs : Z) : IpListEntry :=
  let canonical := NormalizeCidr address in
  Entry (if isNull canonical then address else canonical) port latencyMs.

Definition scanWorkerProbeLatency (r : ProbeItem) (c : ScanConfig) : Z :=
  if httpEnabled (http c) && (0 <? piHttpMs r) then piHttpMs r
  else if httpEnabled (http c) && (0 <? piTlsMs r) then piTlsMs r
  else if tcpEnabled (tcp c) && (0 <? piTcpMs r) then piTcpMs r
  else if icmpEnabled (icmp c) then piIcmpMs r
  else 0.

Record ScanWorkerConfigTest := MkTest {
  testUrl : qstring; testTimeoutMs : Z; testConcurrency : Z; testWarm : bool; subBatch : Z }.

Definition clamp (v lo hi : Z) : Z := Z.max lo (Z.min v hi).

Definition scanWorkerConfigTest (scan : IpScan) : M ScanWorkerConfigTest :=
  let c := sconfig scan in
  let n := Z.max 1 (concurrency c) in
  let test :=
    match kind scan with
    | Warp => MkTest (warpUrl (warp c)) (warpTimeoutMs (warp c)) n (warpWarmLatency (warp c)) (clamp (n * 4) 8 32)
    | Generic => MkTest (configUrl (config c)) (configTimeoutMs (config c)) n (configWarmLatency (config c)) (clamp (n * 4) 8 100)
    end in
  let! url := if isNull (trimmed (testUrl test)) then act TestLatencyUrl else ret (testUrl test) in
  let! ms := if testTimeoutMs test <=? 0 then act UrlTestTimeoutMs else ret (testTimeoutMs test) in
  ret (MkTest url ms (testConcurrency test) (testWarm test) (subBatch test)).

Definition scanWorkerUrlTestTimeoutMs (tagCount : Z) (test : ScanWorkerConfigTest) : Z :=
  let n := if (testConcurrency test <=? 0) || (500 <=? testConcurrency test) then kScanWorkerCoreMaxConcurrency
           else testConcurrency test in
  let requests := if testWarm test then 2 else 1 in
  let rounds := (Z.max tagCount 1 + n - 1) / n in
  scanWorkerClampTimeout
    (rounds * (kScanWorkerTunnelHandshakeMs + requests * testTimeoutMs test + kScanWorkerTunnelStartupMs) + kScanWorkerRpcSlackMs).

Definition ResultListName (scanName : qstring) : qstring := u "Scan " ++ scanName ++ u " Result".

(** The list of a scan's results, created when it has none; -1 when that fails. *)
Definition EnsureScanResultList (scan : IpScan) : M (Z * IpScan) :=
  let! known :=
    (if 0 <=? result_list_id scan then
       let! headers := act GetAllIpLists in
       ret (match find (fun h => hid h =? result_list_id scan) headers with
            | Some h => bool_decide (hrole h = RoleScanResult) && (hrelated h =? sid scan)
            | None => false
            end)
     else ret false) in
  if known then ret (result_list_id scan, scan)
  else
    let! id := act (AddIpList (MkNewList (ResultListName (sname scan)) RoleScanResult (sid scan) [])) in
    ret (match id with Some id => (id, scan <| result_list_id := id |>) | None => (-1, scan) end).

(** ** Shared fields *)

Definition rescanPass : M bool := gets (fun w => rescanning (scan_ w)).

Definition notifyProgress : M unit := act ProgressHook.

Definition setStage (s : Stage) : M unit :=
  let! old := gets (fun w => lvStage (live_ w)) in
  if bool_decide (old = s) then ret tt
  else do! modifyLive (fun v => v <| lvStage := s |>); notifyProgress.

(** The line itself is left out. *)
Definition pushLog : M unit := notifyProgress.

Definition setTested (tested total : Z) : M unit :=
  do! modifyLive (fun v => (v <| lvTested := tested |>) <| lvTotal := total |>); notifyProgress.

Definition beginChunkLive (counters : option Counters) (chunkStart chunkSize : Z) (v : ScanLiveState) : ScanLiveState :=
  let '(p, q, t) :=
    match counters with
    | Some c => (cProbed c, cProbePassed c, cUrlTested c)
    | None => (lastProbed_ v, lastProbePassed_ v, lastUrlTested_ v)
    end in
  MkLive (lvStage v) chunkStart (lvTotal v) (lvFound v) (lvRemoved v) (lvError v) true chunkStart (Z.max chunkSize 0)
    p (p - q) t p q t.

Definition beginChunk (chunkStart chunkSize : Z) : M unit :=
  let! counters := act QueryScan in modifyLive (beginChunkLive counters chunkStart chunkSize).

Definition persistPassState : M unit :=
  let! persist := act ReadPersist in
  if negb persist then ret tt
  else
    let! s := gets scan_ in
    let! row := act (GetIpScan (sid s)) in
    match row with
    | None => ret tt
    | Some row =>
        do! act (SaveScan
          (MkScan (sid row) (sname row) (kind row) (base_list_id row) (result_list_id s) (sconfig row) (status s) (mode s)
             (snapshot_list_id s) (seed s) (cursor s) (total s) (spec_hash s) (rescan_snapshot_list_id s)
             (rescan_cursor s) (rescan_total s) (found s) (removed s) (last_error s) (started_at s) (finished_at s)));
        ret tt
    end.

Definition saveProgress : M unit :=
  let! persist := act ReadPersist in
  if negb persist then ret tt
  else
    let! s := gets scan_ in
    act (SaveProgress (sid s) (mode s) (ActiveCursor s) (ActiveTotal s) (found s) (removed s)).

Definition deleteList (listId : Z) : M unit :=
  if listId <? 0 then ret tt
  else
    let! persist := act ReadPersist in
    if negb persist then ret tt
    else do! act (DeleteIpList listId); modify (fun w => w <| listsTouched_ := true |>).

Definition networkUp (ipv6 : bool) : M bool :=
  do! setStage CheckingNetwork;
  do! pushLog;
  let! '(ok, up) := act (ScanCheckNetwork ipv6) in
  ret (ok && up).

(** ** Preparing a pass *)

(** An error text, empty when there is none. *)
Definition noError : M qstring := ret [].

Definition countTargets (spec : TargetSpec) : M (option Z * qstring) :=
  let! reply := act (ScanProbe (MkProbe spec 0 0 None) kScanWorkerCountTimeoutMs) in
  let responseError := if prOk reply then prError reply else prCoreError reply in
  if negb (prOk reply) || negb (isNull responseError) then
    do! when (scanWorkerIsStopped responseError) (act SetStop);
    let! stop := act ReadStop in
    ret (None, if stop then []
               else if isNull responseError then u "The core did not answer the probe request" else responseError)
  else
    do! when (0 <? prInvalid reply) pushLog;
    ret (Some (prTotal reply), []).

Definition snapshotOf (s : IpScan) (suffix : qstring) (entries : list IpListEntry) : NewList :=
  MkNewList (sname s ++ suffix) RoleScanSnapshot (sid s) entries.

Definition notPersistOrStop : M bool := orM (notM (act ReadPersist)) (act ReadStop).

(** The fields an initial pass starts with. *)
Definition resetInitial (now : Z) (s : IpScan) : IpScan :=
  let s := (s <| snapshot_list_id := -1 |>) <| rescan_snapshot_list_id := -1 |> in
  let s := (s <| rescan_cursor := 0 |>) <| rescan_total := 0 |> in
  let s := ((s <| mode := Initial |>) <| cursor := 0 |>) <| total := 0 |> in
  let s := (s <| found := 0 |>) <| removed := 0 |> in
  ((s <| started_at := now |>) <| finished_at := 0 |>) <| last_error := [] |>.

Definition initialSpec (s : IpScan) (entries : list IpListEntry) : TargetSpec :=
  scanWorkerBuildSpec entries (ports (sconfig s)) (PortModeKey (portMode (sconfig s))) (shuffle (sconfig s)) (seed s).

Definition rescanSpec (entries : list IpListEntry) : TargetSpec := scanWorkerBuildSpec entries [] (u "list") false 0.

(** The second half of [prepareInitial]: the snapshot and the count. *)
Definition initialSnapshot (sha1 : qstring -> qstring) (baseEntries : list IpListEntry) : M qstring :=
  let! s := gets scan_ in
  let! id := act (AddIpList (snapshotOf s (u " snapshot") baseEntries)) in
  match id with
  | None => ret (u "The base IP list could not be copied")
  | Some id =>
      do! modify (fun w => w <| listsTouched_ := true |>);
      do! modifyScan (fun s => s <| snapshot_list_id := id |>);
      let! seed64 := act Generate64 in
      do! modifyScan (fun s => (s <| seed := seed64 |>) <| spec_hash := TargetSpecHash sha1 (sconfig s) (base_list_id s) |>);
      do! modify (fun w => w <| spec_ := initialSpec (scan_ w) baseEntries |>);
      let! spec := gets spec_ in
      let! '(count, error) := countTargets spec in
      match count with
      | None => ret error
      | Some n =>
          do! modifyScan (fun s => s <| total := n |>);
          do! persistPassState;
          if n =? 0 then ret (u "The base IP list holds no valid target")
          else do! setTested 0 n; noError
      end
  end.

Definition prepareInitial (sha1 : qstring -> qstring) : M qstring :=
  let! s := gets scan_ in
  let! base := act (GetIpList (base_list_id s)) in
  match base with
  | None => ret (u "The base IP list no longer exists")
  | Some entries =>
      let baseEntries := scanWorkerFamilyFilter entries (scanIPv6 (sconfig s)) in
      if bool_decide (entries = []) then ret (u "The base IP list is empty")
      else if bool_decide (baseEntries = []) then
        ret (u "The base IP list holds only IPv6 ranges; enable IPv6 scanning")
      else
        let! off := notPersistOrStop in
        if off then noError
        else
          let! '(resultId, s) := EnsureScanResultList s in
          do! modifyScan (fun _ => s);
          if resultId <? 0 then ret (u "The result list could not be created")
          else
            let! persist := act ReadPersist in
            if negb persist then noError
            else
              do! act (ClearEntries resultId);
              do! modify (fun w => w <| listsTouched_ := true |>);
              do! deleteList (snapshot_list_id s);
              do! deleteList (rescan_snapshot_list_id s);
              let! now := act Now in
              do! modifyScan (resetInitial now);
              do! modifyLive (fun v => (v <| lvFound := 0 |>) <| lvRemoved := 0 |>);
              do! act ResultsHook;
              let! persist := act ReadPersist in
              if negb persist then noError else initialSnapshot sha1 baseEntries
  end.

(** The second half of [prepareRescan]. *)
Definition rescanSnapshot (entries : list IpListEntry) : M qstring :=
  let! s := gets scan_ in
  let! id := act (AddIpList (snapshotOf s (u " rescan snapshot") entries)) in
  match id with
  | None => ret (u "The result list could not be copied")
  | Some id =>
      do! modify (fun w => w <| listsTouched_ := true |>);
      do! modifyScan (fun s =>
        (((s <| rescan_snapshot_list_id := id |>) <| mode := RescanResult |>) <| removed := 0 |>) <| last_error := [] |>);
      do! modifyLive (fun v => v <| lvRemoved := 0 |>);
      do! modify (fun w => w <| spec_ := rescanSpec entries |>);
      let! '(count, error) := countTargets (rescanSpec entries) in
      match count with
      | None => ret error
      | Some n =>
          do! modifyScan (fun s => s <| rescan_total := n |>);
          do! persistPassState;
          if n =? 0 then ret (u "The result list holds no valid target")
          else do! setTested 0 n; noError
      end
  end.

Definition prepareRescan : M qstring :=
  let! off := notPersistOrStop in
  if off then noError
  else
    let! s := gets scan_ in
    do! deleteList (rescan_snapshot_list_id s);
    do! modifyScan (fun s => ((s <| rescan_snapshot_list_id := -1 |>) <| rescan_cursor := 0 |>) <| rescan_total := 0 |>);
    let! s := gets scan_ in
    let previousResultId := result_list_id s in
    let! '(resultId, s) := EnsureScanResultList s in
    do! modifyScan (fun _ => s);
    if resultId <? 0 then ret (u "The result list could not be created")
    else
      do! when (negb (resultId =? previousResultId)) (modify (fun w => w <| listsTouched_ := true |>));
      let! allEntries := act (GetEntries resultId) in
      let entries := scanWorkerFamilyFilter allEntries (scanIPv6 (sconfig s)) in
      if bool_decide (allEntries = []) then do! persistPassState; ret (u "The result list is empty")
      else if bool_decide (entries = []) then
        do! persistPassState; ret (u "The result list holds only IPv6 entries; enable IPv6 scanning")
      else
        let! persist := act ReadPersist in
        if negb persist then noError else rescanSnapshot entries.

Definition rescanResumable (s : IpScan) : bool :=
  rescanning s && (0 <=? rescan_snapshot_list_id s) && (rescan_cursor s <? rescan_total s).

Definition preparePass (sha1 : qstring -> qstring) : M qstring :=
  let! startMode := gets startMode_ in
  match startMode with
  | FromInitial => prepareInitial sha1
  | RescanResults => prepareRescan
  | Resume =>
      let! s := gets scan_ in
      if negb (rescanResumable s) && negb (CanResumeInitial s) then prepareInitial sha1
      else
        do! when (negb (rescanResumable s)) (modifyScan (fun s => s <| mode := Initial |>));
        let! off := notPersistOrStop in
        if off then noError
        else
          let! s := gets scan_ in
          let previous := result_list_id s in
          let! '(resultId, s) := EnsureScanResultList s in
          do! modifyScan (fun _ => s);
          if resultId <? 0 then ret (u "The result list could not be created")
          else if negb (result_list_id s =? previous) then
            do! modify (fun w => w <| listsTouched_ := true |>);
            do! persistPassState;
            noError
          else noError
  end.

Definition loadSpec : M qstring :=
  let! spec := gets spec_ in
  if negb (bool_decide (spEntries spec = [])) then noError
  else
    let! s := gets scan_ in
    if rescanning s then
      let! entries := act (GetEntries (rescan_snapshot_list_id s)) in
      if bool_decide (entries = []) then
        do! modifyScan (fun s => s <| rescan_snapshot_list_id := -1 |>);
        ret (u "The copy of the result list is gone; rescan the results again")
      else do! modify (fun w => w <| spec_ := rescanSpec entries |>); noError
    else
      let! entries := act (GetEntries (snapshot_list_id s)) in
      if bool_decide (entries = []) then
        do! modifyScan (fun s => s <| snapshot_list_id := -1 |>);
        ret (u "The copy of the base IP list is gone; restart the scan")
      else do! modify (fun w => w <| spec_ := initialSpec (scan_ w) entries |>); noError.

(** ** A chunk *)

Record ProbeOutcome := MkOutcome { oAddress : qstring; oPort : Z; oProbePort : Z; oLatencyMs : Z }.

Record ChunkResult := MkChunk {
  hits : list IpListEntry; failures : list IpListEntry; localFailures : list IpListEntry;
  replaced : list IpListEntry; caborted : bool; cerror : qstring }.

Definition etaChunk (r : ChunkResult) : ChunkResult :=
  MkChunk (hits r) (failures r) (localFailures r) (replaced r) (caborted r) (cerror r).

#[export] Instance set_hits : Setter hits := ltac:(setter etaChunk).
#[export] Instance set_failures : Setter failures := ltac:(setter etaChunk).
#[export] Instance set_localFailures : Setter localFailures := ltac:(setter etaChunk).
#[export] Instance set_replaced : Setter replaced := ltac:(setter etaChunk).
#[export] Instance set_caborted : Setter caborted := ltac:(setter etaChunk).
#[export] Instance set_cerror : Setter cerror := ltac:(setter etaChunk).

Definition noChunk : ChunkResult := MkChunk [] [] [] [] false [].

Definition probePhaseEnabled (c : ScanConfig) : bool := icmpEnabled (icmp c) || tcpEnabled (tcp c) || httpEnabled (http c).

Definition probeTimeoutMs (c : ScanConfig) (chunkSize : Z) : Z :=
  let perTarget := (if icmpEnabled (icmp c) then icmpCount (icmp c) * icmpTimeoutMs (icmp c) else 0) in
  let perTarget := perTarget + (if tcpEnabled (tcp c) then tcpAttempts (tcp c) * tcpTimeoutMs (tcp c) else 0) in
  let perTarget := perTarget + (if httpEnabled (http c) then 2 * httpTimeoutMs (http c) else 0) in
  let perTarget := Z.max perTarget 1000 in
  let n := Z.max 1 (concurrency c) in
  let rounds := (Z.max chunkSize 1 + n - 1) / n in
  scanWorkerClampTimeout (rounds * perTarget + chunkSize * Z.max 0 (spawnIntervalMs c) + kScanWorkerRpcSlackMs).

Definition fillProbeRequest (c : ScanConfig) : ProbeOptions :=
  let fallbackPort := if httpEnabled (http c) && negb (httpTls (http c)) then kScanWorkerPlainHttpPort
                      else kScanWorkerFallbackPort in
  MkOptions (concurrency c) (spawnIntervalMs c) (icmp c) (tcp c) (http c) fallbackPort.

Definition addHit (rescan : bool) (r : ChunkResult) (candidate : ProbeOutcome) (port latencyMs : Z) : ChunkResult :=
  let r := r <| hits := hits r ++ [scanWorkerEntry (oAddress candidate) port latencyMs] |> in
  if rescan && negb (port =? oPort candidate) then
    r <| replaced := replaced r ++ [scanWorkerEntry (oAddress candidate) (oPort candidate) 0] |>
  else r.

Definition outcomeOf (c : ScanConfig) (item : ProbeItem) : ProbeOutcome :=
  MkOutcome (piAddress item) (piPort item) (piProbePort item) (scanWorkerProbeLatency item c).

(** The results of a probe: those that passed, and the others noted in [r]. *)
Definition sortItem (c : ScanConfig) (acc : list ProbeOutcome * ChunkResult) (item : ProbeItem) :
    list ProbeOutcome * ChunkResult :=
  let '(candidates, r) := acc in
  let outcome := outcomeOf c item in
  if piPassed item then (candidates ++ [outcome], r)
  else if piLocalFailure item then
    (candidates, r <| localFailures := localFailures r ++ [scanWorkerEntry (oAddress outcome) (oPort outcome) 0] |>)
  else (candidates, r <| failures := failures r ++ [scanWorkerEntry (oAddress outcome) (oPort outcome) 0] |>).

Definition addProbeHits (rescan : bool) (candidates : list ProbeOutcome) (r : ChunkResult) : ChunkResult :=
  fold_left (fun r c => addHit rescan r c (if 0 <? oProbePort c then oProbePort c else oPort c) (oLatencyMs c)) candidates r.

(** *** The config test *)

Fixpoint chunksLoop {A} (fuel : nat) (n : nat) (l : list A) : list (list A) :=
  match fuel with
  | O => []
  | S fuel => match l with [] => [] | _ => take n l :: chunksLoop fuel n (drop n l) end
  end.

(** [l] in pieces of [n] elements; a piece per element is enough. *)
Definition chunksOf {A} (n : nat) (l : list A) : list (list A) := chunksLoop (length l) n l.

Definition inBatch (index : Z) (batch : list ProbeOutcome) : option ProbeOutcome :=
  if index <? 0 then None else batch !! Z.to_nat index.

Definition failEntry (r : ChunkResult) (candidate : ProbeOutcome) : ChunkResult :=
  r <| failures := failures r ++ [scanWorkerEntry (oAddress candidate) (oPort candidate) 0] |>.

Definition noteUnsupported (batch : list ProbeOutcome) (r : ChunkResult) (index : Z) : ChunkResult :=
  match inBatch index batch with Some candidate => failEntry r candidate | None => r end.

Section Reply.
Context (rescan : bool) (basePort : Z) (batch : list ProbeOutcome) (build : TestBuild) (reply : UrlReply).

Definition targetOf (tag : qstring) : Z := default (-1) (tbTargets build !! tag).

Definition tunnelUp (tag : qstring) : bool := existsb (fun '(t, up) => up && bool_decide (t = tag)) (urVpn reply).

Definition configPort (candidate : ProbeOutcome) : Z := if 0 <? oPort candidate then oPort candidate else basePort.

Definition urlItem (acc : gset Z * ChunkResult) (item : UrlItem) : gset Z * ChunkResult :=
  let '(reported, r) := acc in
  let index := targetOf (uiTag item) in
  match inBatch index batch with
  | None => (reported, r)
  | Some candidate =>
      if bool_decide (index ∈ reported) then (reported, r)
      else
        ({[index]} ∪ reported,
         if isNull (uiError item) then addHit rescan r candidate (configPort candidate) (uiLatency item)
         else if scanWorkerIsAborted (uiError item) then r <| caborted := true |>
         else if tunnelUp (uiTag item) then addHit rescan r candidate (configPort candidate) 0
         else failEntry r candidate)
  end.

Definition urlResults (r : ChunkResult) : ChunkResult :=
  let '(reported, r) := fold_left urlItem (urResults reply) (∅, r) in
  if existsb (fun '(_, index) => negb (bool_decide (index ∈ reported))) (map_to_list (tbTargets build))
  then r <| caborted := true |> else r.
End Reply.

Inductive BatchOutcome := NextBatch (r : ChunkResult) | EndBatches (r : ChunkResult) (error : qstring).

Definition testBatch (test : ScanWorkerConfigTest) (batch : list ProbeOutcome) (r : ChunkResult) : M BatchOutcome :=
  let! stop := act ReadStop in
  if stop then ret (EndBatches (r <| caborted := true |>) [])
  else
    let! build := act (BuildScanTestConfig (map (fun c => (oAddress c, oPort c)) batch)) in
    if negb (isNull (tbError build)) then ret (EndBatches r (tbError build))
    else
      let r := fold_left (noteUnsupported batch) (tbUnsupported build) r in
      match tbTags build with
      | None | Some [] => ret (NextBatch r)
      | Some tags =>
          let! reply := act (ScanURLTest tags (testUrl test) (testConcurrency test) (testTimeoutMs test)
                               (scanWorkerUrlTestTimeoutMs (Z.of_nat (length tags)) test) (testWarm test)) in
          if negb (urOk reply) then
            do! when (scanWorkerIsStopped (urCoreError reply)) (act SetStop);
            let! stop := act ReadStop in
            if stop then ret (EndBatches (r <| caborted := true |>) [])
            else ret (EndBatches r (if isNull (urCoreError reply) then u "The core did not answer the config test"
                                    else urCoreError reply))
          else
            let! rescan := rescanPass in
            let! basePort := gets basePort_ in
            ret (NextBatch (urlResults rescan basePort batch build reply r))
      end.

Fixpoint testBatches (test : ScanWorkerConfigTest) (batches : list (list ProbeOutcome)) (r : ChunkResult) :
    M (ChunkResult * qstring) :=
  match batches with
  | [] => ret (r, [])
  | batch :: batches =>
      let! outcome := testBatch test batch r in
      match outcome with
      | NextBatch r => testBatches test batches r
      | EndBatches r error => ret (r, error)
      end
  end.

Definition testConfigs (candidates : list ProbeOutcome) (r : ChunkResult) : M (ChunkResult * qstring) :=
  do! setStage TestingConfigs;
  do! pushLog;
  let! s := gets scan_ in
  let! test := scanWorkerConfigTest s in
  testBatches test (chunksOf (Z.to_nat (subBatch test)) candidates) r.

(** *** The probe *)

(** [next]: what the caller's cursor holds, replaced when the call succeeds. *)
Definition runChunk (spec : TargetSpec) (chunkStart maxTargets next : Z) : M (ChunkResult * Z) :=
  let! c := gets (fun w => sconfig (scan_ w)) in
  do! setStage (if probePhaseEnabled c then Probing else TestingConfigs);
  let! reply := act (ScanProbe (MkProbe spec chunkStart maxTargets (Some (fillProbeRequest c))) (probeTimeoutMs c maxTargets)) in
  let '(candidates, r) := fold_left (sortItem c) (prResults reply) ([], noChunk) in
  let! rescan := rescanPass in
  let! configPhase := gets configPhase_ in
  if negb (prOk reply) || negb (isNull (prError reply)) then
    let r := (r <| failures := [] |>) <| localFailures := [] |> in
    let r := if configPhase then r else addProbeHits rescan candidates r in
    let error := if prOk reply then prError reply else prCoreError reply in
    do! when (scanWorkerIsStopped error) (act SetStop);
    let! stop := act ReadStop in
    if stop then ret (r <| caborted := true |>, next)
    else ret (r <| cerror := if isNull error then u "The core did not answer the probe request" else error |>, next)
  else
    let next := Z.max chunkStart (prNextCursor reply) in
    let r := r <| caborted := prAborted reply |> in
    if negb configPhase then ret (addProbeHits rescan candidates r, next)
    else if bool_decide (candidates = []) then ret (r, next)
    else
      let! stop := orM (ret (caborted r)) (act ReadStop) in
      if stop then ret (r <| caborted := true |>, next)
      else
        let! '(r, error) := testConfigs candidates r in
        ret (r <| cerror := error |>, next).

(** *** Failures of a rescan are tried again *)

(** At most ten waits of 100 ms, ended early by a stop. *)
Fixpoint waitRetry (n : nat) : M unit :=
  match n with
  | O => ret tt
  | S n =>
      let! stop := act ReadStop in
      if stop then ret tt else do! act Sleep100; waitRetry n
  end.

Fixpoint confirmRounds (rounds : nat) (r : ChunkResult) (chunkStart next : Z) : M (ChunkResult * Z) :=
  match rounds with
  | O => ret (r, next)
  | S rounds =>
      if bool_decide (failures r = []) then ret (r, next)
      else
        do! waitRetry (Z.to_nat (kScanWorkerRetryDelayMs / 100));
        let! stop := act ReadStop in
        if stop then ret ((r <| failures := [] |>) <| caborted := true |>, chunkStart)
        else
          do! pushLog;
          let! '(retry, _) := runChunk (rescanSpec (failures r)) 0 (Z.of_nat (length (failures r))) 0 in
          if negb (isNull (cerror retry)) || caborted retry then
            let r := r <| failures := [] |> in
            let! stop := act ReadStop in
            if stop then ret (r <| caborted := true |>, chunkStart) else ret (r, next)
          else
            confirmRounds rounds
              (MkChunk (hits r ++ hits retry) (failures retry) (localFailures r ++ localFailures retry)
                 (replaced r ++ replaced retry) (caborted r) (cerror r)) chunkStart next
  end.

Definition confirmFailures (r : ChunkResult) (chunkStart next : Z) : M (ChunkResult * Z) :=
  let! '(r', next) := confirmRounds kScanWorkerRescanRetries r chunkStart next in
  do! when (Nat.ltb (length (hits r)) (length (hits r'))) pushLog;
  ret (r', next).

(** ** The loop over the chunks *)

(** What the network check after a chunk found. *)
Record Verdict := MkVerdict { unverified : bool; ipv4Up : bool; ipv6Up : bool; networkError : qstring }.

Definition noVerdict : Verdict := MkVerdict false false false [].

Definition familyUnproven (r : ChunkResult) : bool :=
  (scanWorkerHasFamily (failures r) false && negb (scanWorkerHasFamily (hits r) false)) ||
  (scanWorkerHasFamily (failures r) true && negb (scanWorkerHasFamily (hits r) true)).

Definition guarded (rescan : bool) (r : ChunkResult) : bool :=
  isNull (cerror r) && (negb (bool_decide (failures r = [])) || negb (bool_decide (localFailures r = []))) &&
  (rescan || bool_decide (hits r = []) || familyUnproven r).

Definition checkNetwork (rescan : bool) (r : ChunkResult) : M Verdict :=
  let ipv4Failed := scanWorkerHasFamily (failures r) false in
  let ipv6Failed := scanWorkerHasFamily (failures r) true in
  let ipv6Any := ipv6Failed || scanWorkerHasFamily (localFailures r) true in
  let ipv6Unproven := ipv6Failed && negb (scanWorkerHasFamily (hits r) true) in
  let! up4 := networkUp false in
  let ipv4Blocks := negb rescan && negb up4 && ipv4Failed in
  let! up6 :=
    (if negb ipv4Blocks && ((rescan && ipv6Failed) || (negb rescan && ipv6Unproven) || (negb up4 && ipv6Any))
     then networkUp true else ret false) in
  let ipv6Blocks := negb rescan && negb up6 && ipv6Unproven in
  if (negb up4 && negb up6) || ipv4Blocks || ipv6Blocks then
    ret (MkVerdict true up4 up6
      (if up4 && ipv6Blocks then
         u "IPv6 is unreachable from this network; scan paused (turn off IPv6 scanning to go on)"
       else u "Network appears to be down; scan paused"))
  else
    do! when (rescan && negb up4 && ipv4Failed) pushLog;
    do! when (rescan && negb up6 && ipv6Failed) pushLog;
    ret (MkVerdict false up4 up6 []).

Definition verifyChunk (rescan : bool) (r : ChunkResult) : M Verdict :=
  if guarded rescan r then
    let! stop := act ReadStop in
    if stop then ret (MkVerdict true false false []) else checkNetwork rescan r
  else ret noVerdict.

(** The writes of a chunk; whether the result list changed. *)
Definition storeChunk (resultId : Z) (rescan : bool) (r : ChunkResult) (v : Verdict) : M bool :=
  let! persist := act ReadPersist in
  if negb (persist && (0 <=? resultId)) then ret false
  else
    let! changed :=
      (if bool_decide (hits r = []) then ret false
       else
         do! act (UpsertEntries resultId (hits r));
         do! when (rescan && negb (bool_decide (replaced r = [])))
               (do! act (RemoveEntries resultId (replaced r)); ret tt);
         ret true) in
    let! changed :=
      (if rescan && guarded rescan r && negb (unverified v) then
         let dead := filter (fun e => (if scanWorkerIsIpv6 e then ipv6Up v else ipv4Up v) = true) (failures r) in
         let! n := (if bool_decide (dead = []) then ret 0 else act (RemoveEntries resultId dead)) in
         if 0 <? n then do! modifyScan (fun s => s <| removed := removed s + n |>); ret true else ret changed
       else ret changed) in
    let! n := act (EntryCount resultId) in
    do! modifyScan (fun s => s <| found := n |>);
    ret changed.

Definition setActiveCursor (rescan : bool) (c : Z) (s : IpScan) : IpScan :=
  if rescan then s <| rescan_cursor := c |> else s <| cursor := c |>.

(** Where the pass stands after a chunk. *)
Definition nextCursor (configPhase : bool) (r : ChunkResult) (v : Verdict) (chunkStart next total : Z) : Z :=
  Z.min (if negb (isNull (cerror r)) || unverified v then chunkStart
         else if caborted r then (if configPhase then chunkStart else next)
         else next) total.

Definition enoughFound (rescan : bool) (s : IpScan) : bool :=
  negb rescan && (0 <? stopAfter (sconfig s)) && (stopAfter (sconfig s) <=? found s).

(** One round of the loop: [Some (error, completed)] ends it. *)
Definition chunkTurn (resultId chunkSize : Z) : M (option (qstring * bool)) :=
  let! rescan := rescanPass in
  let! s := gets scan_ in
  let total := ActiveTotal s in
  if enoughFound rescan s then do! pushLog; ret (Some ([], true))
  else if total <=? ActiveCursor s then ret (Some ([], true))
  else
    let! stop := act ReadStop in
    if stop then ret (Some ([], false))
    else
      let chunkStart := ActiveCursor s in
      do! beginChunk chunkStart (Z.min chunkSize (total - chunkStart));
      let! spec := gets spec_ in
      let! '(r, next) := runChunk spec chunkStart chunkSize chunkStart in
      let! '(r, next) :=
        (if rescan && isNull (cerror r) && negb (caborted r) && negb (bool_decide (failures r = []))
         then confirmFailures r chunkStart next else ret (r, next)) in
      let! v := verifyChunk rescan r in
      let! changed := storeChunk resultId rescan r v in
      let! configPhase := gets configPhase_ in
      let cursor := nextCursor configPhase r v chunkStart next total in
      do! modifyScan (setActiveCursor rescan cursor);
      do! modify (fun w => w <| live_ :=
            (((live_ w) <| chunkActive_ := false |>) <| lvFound := found (scan_ w) |>) <| lvRemoved := removed (scan_ w) |> |>);
      do! saveProgress;
      do! setTested cursor total;
      do! when changed (act ResultsHook);
      if negb (isNull (cerror r)) then ret (Some (cerror r, false))
      else if negb (isNull (networkError v)) then ret (Some (networkError v, false))
      else if unverified v then ret (Some ([], false))
      else
        let! s := gets scan_ in
        if (total <=? cursor) || enoughFound rescan s then ret None
        else
          let! stop := act ReadStop in
          if stop then ret (Some ([], false))
          else if caborted r then ret (Some (u "The core ended the scan session early", false))
          else if cursor =? chunkStart then ret (Some (u "The core made no progress on the scan", false))
          else ret None.

Fixpoint chunkLoop (fuel : nat) (resultId chunkSize : Z) : M (qstring * bool) :=
  match fuel with
  | O => let! x := act Diverge in match x return M (qstring * bool) with end
  | S fuel =>
      let! done := chunkTurn resultId chunkSize in
      match done with
      | Some result => ret result
      | None => chunkLoop fuel resultId chunkSize
      end
  end.

(** Every round that goes on moves the cursor, so there are at most as many as
    targets left, and one more to end the pass. *)
Definition chunkFuel (s : IpScan) : nat := Z.to_nat (ActiveTotal s - ActiveCursor s) + 2.

Definition runChunks : M (qstring * bool) :=
  let! s := gets scan_ in
  let resultId := result_list_id s in
  let! test := scanWorkerConfigTest s in
  let chunkSize := if probePhaseEnabled (sconfig s) then clamp (concurrency (sconfig s) * 4) 32 2048 else subBatch test in
  let! persist := act ReadPersist in
  do! when (persist && (0 <=? resultId))
        (let! n := act (EntryCount resultId) in
         do! modifyScan (fun s => s <| found := n |>);
         modifyLive (fun v => v <| lvFound := n |>));
  let! s := gets scan_ in
  do! setTested (ActiveCursor s) (ActiveTotal s);
  chunkLoop (chunkFuel s) resultId chunkSize.

(** ** The run *)

(** The profile behind the config test, and the port its connections take. *)
Definition checkBase : M qstring :=
  let! configPhase := gets configPhase_ in
  let! base := gets base_ in
  if negb configPhase then noError
  else
    match base with
    | None => ret (u "The scan has no profile for the config test")
    | Some base =>
        let! error := act ValidateScanBase in
        if negb (isNull error) then ret error
        else
          let! port :=
            match baseChain base with
            | None => act (DialedPort None)
            | Some [] => ret None
            | Some (first :: _) => act (DialedPort (Some first))
            end in
          do! match port with Some p => modify (fun w => w <| basePort_ := p |>) | None => ret tt end;
          noError
    end.

Definition executePass (sha1 : qstring -> qstring) : M (qstring * bool) :=
  let! stop := act ReadStop in
  if stop then ret ([], false)
  else
    let! error := preparePass sha1 in
    if negb (isNull error) then ret (error, false)
    else
      let! touched := gets listsTouched_ in
      do! modify (fun w => w <| listsTouched_ := false |>);
      do! when touched (act NotifyListsChanged);
      let! stop := act ReadStop in
      if stop then ret ([], false)
      else
        let! error := loadSpec in
        if negb (isNull error) then ret (error, false) else runChunks.

Definition execute (sha1 : qstring -> qstring) : M (qstring * bool) :=
  do! setStage Preparing;
  do! pushLog;
  let! error := checkBase in
  if negb (isNull error) then ret (error, false) else executePass sha1.

Definition finishedStatus (initial : Status) (error : qstring) (s : IpScan) : IpScan :=
  let resumable := rescanResumable s in
  let s := if rescanning s && negb resumable && CanResumeInitial s then s <| mode := Initial |> else s in
  let s := s <| last_error := error |> in
  s <| status := (if resumable || CanResumeInitial s then Paused
                  else if negb (isNull error) then Failed
                  else match initial with Completed => Completed | _ => Idle end) |>.

(** What the end of a pass makes of the row, before it is written. *)
Definition concludes (completed : bool) (error : qstring) : M unit :=
  if completed then
    let! s := gets scan_ in
    do! (if rescanning s then
           do! deleteList (rescan_snapshot_list_id s);
           do! modifyScan (fun s => s <| rescan_snapshot_list_id := -1 |>);
           let! s := gets scan_ in
           if CanResumeInitial s then modifyScan (fun s => (s <| mode := Initial |>) <| status := Paused |>)
           else
             let! now := act Now in
             modifyScan (fun s => (s <| status := Completed |>) <| finished_at := now |>)
         else
           do! deleteList (snapshot_list_id s);
           let! now := act Now in
           modifyScan (fun s => ((s <| snapshot_list_id := -1 |>) <| status := Completed |>) <| finished_at := now |>));
    modifyScan (fun s => s <| last_error := [] |>)
  else
    let! initial := gets initialStatus_ in
    modifyScan (finishedStatus initial error).

Definition finishPass (completed : bool) (error : qstring) : M unit :=
  do! concludes completed error;
  do! persistPassState;
  do! act SetFinalized;
  let! persist := act ReadPersist in
  do! when persist (act NotifyListsChanged);
  modify (fun w => w <| live_ :=
    MkLive (lvStage (live_ w)) (ActiveCursor (scan_ w)) (ActiveTotal (scan_ w)) (found (scan_ w)) (removed (scan_ w))
      (last_error (scan_ w)) (chunkActive_ (live_ w)) (chunkStart_ (live_ w)) (chunkSize_ (live_ w))
      (baseProbed_ (live_ w)) (baseProbeFailed_ (live_ w)) (baseUrlTested_ (live_ w)) (lastProbed_ (live_ w))
      (lastProbePassed_ (live_ w)) (lastUrlTested_ (live_ w)) |>).

Definition run (sha1 : qstring -> qstring) : M unit :=
  let! '(error, completed) := execute sha1 in
  let! stop := act ReadStop in
  let error := if stop && negb completed then [] else error in
  do! finishPass completed error;
  do! act SetPollStop;
  do! modifyLive (fun v => v <| chunkActive_ := false |>);
  do! act FinishedHook;
  act StopScan.
End Text.

(** The constructor. *)
Definition newWorker (scan : IpScan) (startMode : StartMode) (base : option ScanBase) : Worker :=
  let configPhase := match kind scan with Warp => true | Generic => configEnabled (config (sconfig scan)) end in
  let s :=
    match kind scan with
    | Warp =>
        let c := sconfig scan in
        let t := tcp c in
        let h := http c in
        scan <| sconfig :=
          MkConfig (ports c) (portMode c) (shuffle c) (scanIPv6 c) (stopAfter c) (concurrency c) (spawnIntervalMs c) (icmp c)
            (MkTcp false (tcpTimeoutMs t) (tcpAttempts t))
            (MkHttp false (httpTls h) (serverName h) (httpHost h) (httpPath h) (httpMethod h) (httpVersion h) (alpn h)
               (minVersion h) (maxVersion h) (fingerprint h) (insecure h) (disableSni h) (fragment h)
               (fragmentFallbackDelayMs h) (recordFragment h) (mixedCaseSni h) (httpTimeoutMs h))
            (config c) (warp c) |>
    | Generic => scan
    end in
  let s := (s <| status := Running |>) <| last_error := [] |> in
  let live :=
    match startMode with
    | Resume => MkLive Preparing (ActiveCursor scan) (ActiveTotal scan) (found scan) (removed scan) [] false 0 0 0 0 0 0 0 0
    | FromInitial => MkLive Preparing 0 0 0 0 [] false 0 0 0 0 0 0 0 0
    | RescanResults => MkLive Preparing 0 0 (found scan) 0 [] false 0 0 0 0 0 0 0 0
    end in
  MkWorker startMode base configPhase (status scan) s (MkSpec [] [] [] false 0) 0 false live.
