(* ===== verification/ScanProgress.v ===== *)
(** * ScanProgress: the position a running scan shows

    src/scanner/ScanWorker.cpp: the poller ([pollOnce]) and the run thread
    ([beginChunk], [setTested], [RequestStop]) both write the shown state under
    the mutex; each is one step on it. *)

From S2P Require Import Prelude Text IpAddress ScanConfig Program ScanWorker.

(** The answer to a poll: its counters, its sequence, and whether it holds a line
    for the log. *)
Record ScanQuery := MkQuery { qSeq : Z; qCounters : Counters; qLines : bool }.

(** A lower sequence means that the core restarted. *)
Definition nextSeq (lastSeq seq : Z) : Z := if seq <? lastSeq then 0 else seq.

Definition finishedIn (configPhase : bool) (v : ScanLiveState) : Z :=
  if configPhase then (lastProbed_ v - lastProbePassed_ v - baseProbeFailed_ v) + (lastUrlTested_ v - baseUrlTested_ v)
  else lastProbed_ v - baseProbed_ v.

Definition takeCounters (c : Counters) (v : ScanLiveState) : ScanLiveState :=
  MkLive (lvStage v) (lvTested v) (lvTotal v) (lvFound v) (lvRemoved v) (lvError v) (chunkActive_ v) (chunkStart_ v) (chunkSize_ v)
    (baseProbed_ v) (baseProbeFailed_ v) (baseUrlTested_ v)
    (Z.max (lastProbed_ v) (cProbed c)) (Z.max (lastProbePassed_ v) (cProbePassed c)) (Z.max (lastUrlTested_ v) (cUrlTested c)).

(** The shown state after a poll, and whether the view is told. *)
Definition pollLive (configPhase : bool) (q : ScanQuery) (v : ScanLiveState) : ScanLiveState * bool :=
  let v := takeCounters (qCounters q) v in
  if chunkActive_ v then
    let inChunk := clamp (finishedIn configPhase v) 0 (chunkSize_ v) in
    if lvTested v <? chunkStart_ v + inChunk then (v <| lvTested := chunkStart_ v + inChunk |>, true)
    else (v, qLines q)
  else (v, qLines q).

(** [None]: not answered, or polling was ended meanwhile. *)
Definition pollOnce (configPhase : bool) (q : option ScanQuery) (s : Z * ScanLiveState) : (Z * ScanLiveState) * bool :=
  match q with
  | None => (s, false)
  | Some q => let '(v, changed) := pollLive configPhase q s.2 in ((nextSeq s.1 (qSeq q), v), changed)
  end.

(** While a chunk runs, what is shown lies in it. *)
Definition shownInChunk (v : ScanLiveState) : Prop :=
  0 <= chunkSize_ v /\ (chunkActive_ v = true -> chunkStart_ v <= lvTested v <= chunkStart_ v + chunkSize_ v).

Lemma pollLive_shown c q v :
  shownInChunk v ->
  let v' := (pollLive c q v).1 in
  shownInChunk v' /\ lvTested v <= lvTested v' /\ chunkStart_ v' = chunkStart_ v /\ chunkSize_ v' = chunkSize_ v /\
  (chunkActive_ v = false -> lvTested v' = lvTested v) /\ ((pollLive c q v).2 = false -> lvTested v' = lvTested v).
Proof.
  intros [Hz Hv]. unfold pollLive. cbv zeta. set (v1 := takeCounters _ v).
  change (chunkActive_ v1) with (chunkActive_ v). change (chunkStart_ v1) with (chunkStart_ v).
  change (chunkSize_ v1) with (chunkSize_ v). change (lvTested v1) with (lvTested v).
  destruct (chunkActive_ v) eqn:Ea.
  - specialize (Hv eq_refl). unfold clamp.
    set (x := Z.max 0 _). assert (Hx : 0 <= x <= chunkSize_ v) by lia.
    destruct (Z.ltb_spec (lvTested v) (chunkStart_ v + x)) as [Hlt|Hge]; simpl.
    + split; [split; simpl; [done|intros _; lia]|]. split_and!; try done; lia.
    + split; [split; simpl; [done|intros _; exact Hv]|]. split_and!; try done; lia.
  - split; [split; [done|]; intros E; change (chunkActive_ v = true) in E; congruence|]. split_and!; try done; simpl; lia.
Qed.

(** Polls never move the position back, nor out of the running chunk, and report
    every move; between chunks they leave it alone. *)
Lemma polls_stay_in_chunk c qs s :
  shownInChunk s.2 ->
  let s' := fold_left (fun s q => (pollOnce c q s).1) qs s in
  shownInChunk s'.2 /\ lvTested s.2 <= lvTested s'.2 /\ (chunkActive_ s.2 = false -> lvTested s'.2 = lvTested s.2).
Proof.
  revert s. induction qs as [|q qs IH]; intros s Hs; [by split_and!|]. cbn [fold_left].
  assert (H1 : shownInChunk (pollOnce c q s).1.2 /\ lvTested s.2 <= lvTested (pollOnce c q s).1.2 /\
    (chunkActive_ s.2 = false -> lvTested (pollOnce c q s).1.2 = lvTested s.2) /\ chunkActive_ (pollOnce c q s).1.2 = chunkActive_ s.2).
  { destruct q as [q|]; [|by split_and!]. unfold pollOnce. pose proof (pollLive_shown c q s.2 Hs) as (H1 & H2 & _ & _ & H3 & _).
    assert (H4 : chunkActive_ (pollLive c q s.2).1 = chunkActive_ s.2).
    { unfold pollLive. cbv zeta. destruct (chunkActive_ (takeCounters (qCounters q) s.2)) eqn:E; [|done]. by destruct (_ <? _). }
    destruct (pollLive c q s.2) as [v b]. simpl in *. by split_and!. }
  destruct H1 as (H1 & H2 & H3 & H4). destruct (IH _ H1) as (I1 & I2 & I3). split_and!; [done|lia|].
  intros E. rewrite I3 by congruence. by apply H3.
Qed.

(** A chunk begins inside itself, whatever was shown before. *)
Lemma begin_shown counters start size v : shownInChunk (beginChunkLive counters start size v).
Proof. unfold beginChunkLive. destruct counters; (split; simpl; [lia|intros _; lia]). Qed.
