(* ===== verification/ScanRules.v ===== *)
(** * ScanRules: what a scan's run promises, and how it is proved

    The contract of the run thread: what the other threads may do to the flags
    ([scanRely]) and what holds at each call the run makes ([scanGuarantee]).
    [wpM] runs the code of ScanWorker symbolically against it. *)

From S2P Require Import Prelude Text IpAddress ScanConfig Program ScanWorker.

Abbreviation scanTrace := (list (event Act)).

(** ** What a trace shows *)

(** [stop_] was seen set; [persist_] was seen cleared; [persist_] held at the last
    look; the run reported its end; the results were cleared, as an initial pass
    begins; a snapshot of the targets was taken. *)
Record Flags := MkFlags {
  fStop : bool; fOff : bool; fWritable : bool; fFinished : bool; fCleared : bool; fSnap : bool }.

Definition noFlags : Flags := MkFlags false false false false false false.

Definition isSnapshot (l : NewList) : bool := bool_decide (nlRole l = RoleScanSnapshot).

Definition flagStep (f : Flags) (ev : event Act) : Flags :=
  match ev with
  | Ev e x =>
      (match e in Act X return X -> Flags with
       | ReadStop => fun b => MkFlags (fStop f || b) (fOff f) (fWritable f) (fFinished f) (fCleared f) (fSnap f)
       | SetStop => fun _ => MkFlags true (fOff f) (fWritable f) (fFinished f) (fCleared f) (fSnap f)
       | ReadPersist => fun b => MkFlags (fStop f) (fOff f || negb b) b (fFinished f) (fCleared f) (fSnap f)
       | FinishedHook => fun _ => MkFlags (fStop f) (fOff f) (fWritable f) true (fCleared f) (fSnap f)
       | ClearEntries _ => fun _ => MkFlags (fStop f) (fOff f) (fWritable f) (fFinished f) true (fSnap f)
       | AddIpList l => fun _ => MkFlags (fStop f) (fOff f) (fWritable f) (fFinished f) (fCleared f) (fSnap f || isSnapshot l)
       | _ => fun _ => f
       end) x
  end.

Definition flags (tr : scanTrace) : Flags := fold_left flagStep tr noFlags.

Lemma flags_snoc tr ev : flags (tr ++ [ev]) = flagStep (flags tr) ev.
Proof. unfold flags. by rewrite fold_left_app. Qed.

Section Contract.
Context `{T : QtText}.

(** An entry the core reported as failing, in an answer to a probe, ... *)
Definition probeFails (reply : ProbeReply) (e : IpListEntry) : Prop :=
  exists item, item ∈ prResults reply /\ piPassed item = false /\ piLocalFailure item = false /\
    e = scanWorkerEntry (piAddress item) (piPort item) 0.

(** ... because its kind has no test config, ... *)
Definition unsupportedFails (targets : list (qstring * Z)) (build : TestBuild) (e : IpListEntry) : Prop :=
  exists index a p, index ∈ tbUnsupported build /\ 0 <= index /\ targets !! Z.to_nat index = Some (a, p) /\
    e = scanWorkerEntry a p 0.

(** ... or in the config test of what was built for it. *)
Definition urlFails (targets : list (qstring * Z)) (build : TestBuild) (reply : UrlReply) (e : IpListEntry) : Prop :=
  exists item a p, item ∈ urResults reply /\ 0 <= targetOf build (uiTag item) /\
    targets !! Z.to_nat (targetOf build (uiTag item)) = Some (a, p) /\ uiError item <> [] /\
    scanWorkerIsAborted (uiError item) = false /\ tunnelUp reply (uiTag item) = false /\ e = scanWorkerEntry a p 0.

Definition failedIn (seg : scanTrace) (e : IpListEntry) : Prop :=
  (exists rq ms reply, Ev (ScanProbe rq ms) reply ∈ seg /\ prOk reply = true /\ prError reply = [] /\ probeFails reply e) \/
  (exists targets build, Ev (BuildScanTestConfig targets) build ∈ seg /\ unsupportedFails targets build e) \/
  (exists targets build tags url n ms rpc warm reply, Ev (BuildScanTestConfig targets) build ∈ seg /\
     Ev (ScanURLTest tags url n ms rpc warm) reply ∈ seg /\ urOk reply = true /\ urlFails targets build reply e).

(** The core cut the chunk's work short. *)
Definition cutShort (seg : scanTrace) : Prop :=
  (exists rq ms reply, Ev (ScanProbe rq ms) reply ∈ seg /\ prAborted reply = true) \/
  (exists targets build tags url n ms rpc warm reply, Ev (BuildScanTestConfig targets) build ∈ seg /\
     Ev (ScanURLTest tags url n ms rpc warm) reply ∈ seg /\
     ((exists item, item ∈ urResults reply /\ scanWorkerIsAborted (uiError item) = true) \/
      (exists tag index, tbTargets build !! tag = Some index /\
         forall item, item ∈ urResults reply -> targetOf build (uiTag item) <> index \/ index < 0 \/ Z.of_nat (length targets) <= index))).

(** [e] failed in [n] tests one after the other, and then its family was found
    reachable. *)
Definition failedTimes (n : nat) (tr : scanTrace) (e : IpListEntry) : Prop :=
  exists pre segs post, tr = pre ++ concat segs ++ post /\ length segs = n /\ Forall (fun s => failedIn s e) segs /\
    Ev (ScanCheckNetwork (scanWorkerIsIpv6 e)) (true, true) ∈ post.

(** Why an entry may leave the result list: a hit of the same address under
    another port was stored; it failed the test and five more; or it failed the
    test of a chunk that the core cut short. *)
Definition removable (tr : scanTrace) (e : IpListEntry) : Prop :=
  (exists id es n h, Ev (UpsertEntries id es) n ∈ tr /\ h ∈ es /\ cidr h = cidr e /\ port h <> port e) \/
  failedTimes (S kScanWorkerRescanRetries) tr e \/
  (exists pre seg post, tr = pre ++ seg ++ post /\ failedIn seg e /\ cutShort seg /\
     Ev (ScanCheckNetwork (scanWorkerIsIpv6 e)) (true, true) ∈ post).

Context (scan0 : IpScan).

Definition configPhaseOf (s : IpScan) : bool :=
  match kind s with Warp => true | Generic => configEnabled (config (sconfig s)) end.

(** Where the pass of mode [m] started in this run. *)
Definition startOf (tr : scanTrace) (m : Mode) : Z :=
  match m with
  | Initial => if fCleared (flags tr) then 0 else Z.max 0 (cursor scan0)
  | RescanResult => if fSnap (flags tr) then 0 else Z.max 0 (rescan_cursor scan0)
  end.

(** The targets of the pass: those counted for it, or read back from its snapshot. *)
Definition passSpec (tr : scanTrace) (spec : TargetSpec) : Prop :=
  (exists ms reply, Ev (ScanProbe (MkProbe spec 0 0 None) ms) reply ∈ tr) \/
  (exists id es, Ev (GetEntries id) es ∈ tr /\ spEntries spec = map (fun e => (cidr e, port e)) es).

Definition hitPort (item : ProbeItem) : Z := if 0 <? piProbePort item then piProbePort item else piPort item.

Definition storedHit (tr : scanTrace) (item : ProbeItem) : Prop :=
  exists id es n h, Ev (UpsertEntries id es) n ∈ tr /\ h ∈ es /\
    cidr h = cidr (scanWorkerEntry (piAddress item) 0 0) /\ port h = hitPort item.

Definition handedToTest (tr : scanTrace) (item : ProbeItem) : Prop :=
  exists targets build, Ev (BuildScanTestConfig targets) build ∈ tr /\ tbError build = [] /\
    (piAddress item, piPort item) ∈ targets.

(** A target that passed was stored or went through the config test. *)
Definition settled (tr : scanTrace) (reply : ProbeReply) : Prop :=
  forall item, item ∈ prResults reply -> piPassed item = true ->
    if configPhaseOf scan0 then handedToTest tr item else storedHit tr item.

(** Something of [e]'s family was found reachable: a target of [reply] that passed
    was stored as a hit, or the network check got through. *)
Definition familyReached (tr : scanTrace) (reply : ProbeReply) (e : IpListEntry) : Prop :=
  (exists item id es n h, item ∈ prResults reply /\ piPassed item = true /\ Ev (UpsertEntries id es) n ∈ tr /\ h ∈ es /\
     cidr h = cidr (scanWorkerEntry (piAddress item) 0 0) /\ scanWorkerIsIpv6 h = scanWorkerIsIpv6 e) \/
  Ev (ScanCheckNetwork (scanWorkerIsIpv6 e)) (true, true) ∈ tr.

(** A target that failed the probe of an initial pass had its family proven
    reachable; a rescan keeps it when its family is down, and goes on. *)
Definition provenDown (tr : scanTrace) (m : Mode) (reply : ProbeReply) : Prop :=
  m = Initial -> forall e, probeFails reply e -> familyReached tr reply e.

(** Position [p] was tested: a probe of it was answered, and after that answer the
    targets that passed were settled and the families of those that failed proven. *)
Definition coveredBy (tr : scanTrace) (m : Mode) (spec : TargetSpec) (p : Z) : Prop :=
  exists tr1 rq ms reply tr2, tr = tr1 ++ Ev (ScanProbe rq ms) reply :: tr2 /\ rqSpec rq = spec /\ rqOptions rq <> None /\
    rqCursor rq <= p < prNextCursor reply /\ prOk reply = true /\ prError reply = [] /\
    settled tr2 reply /\ provenDown tr2 m reply.

(** Every position below [c] was done: before this run, or by a probe of it. *)
Definition covers (tr : scanTrace) (m : Mode) (c : Z) : Prop :=
  c <= startOf tr m \/
  exists spec, passSpec tr spec /\ forall p, startOf tr m <= p < c -> coveredBy tr m spec p.

(** A row may say that its pass is complete when every target was done, or enough
    were found; or when it said so before. *)
Definition completeRow (row : IpScan) : Prop :=
  status row = Completed ->
  status scan0 = Completed \/
  match mode row with
  | Initial => total row <= cursor row \/ 0 < stopAfter (sconfig scan0) <= found row
  | RescanResult => rescan_total row <= rescan_cursor row
  end.

(** ** The contract *)

(** The core reports addresses, and about a plain list of addresses only what was
    asked. *)
Definition coreAnswers (rq : ProbeRequest) (reply : ProbeReply) : Prop :=
  forall item, item ∈ prResults reply ->
    IsHostCidr (cidr (scanWorkerEntry (piAddress item) 0 0)) = true /\
    (spPorts (rqSpec rq) = [] -> spPortMode (rqSpec rq) = u "list" ->
     (forall a p, (a, p) ∈ spEntries (rqSpec rq) -> IsHostCidr a = true) ->
     (cidr (scanWorkerEntry (piAddress item) 0 0), piPort item) ∈ spEntries (rqSpec rq)).

Definition scanRely (tr : scanTrace) (X : Type) (e : Act X) : X -> Prop :=
  match e in Act X return X -> Prop with
  | ReadStop => fun b => fStop (flags tr) = true -> b = true
  | ReadPersist => fun b => fOff (flags tr) = true -> b = false
  | ScanProbe rq _ => coreAnswers rq
  | _ => fun _ => True
  end.

Definition writable (tr : scanTrace) : Prop := fWritable (flags tr) = true /\ fFinished (flags tr) = false.

(** A result list is created once [persist_] was seen set, though not always at the
    last look. *)
Definition mayCreate (tr : scanTrace) : Prop := Ev ReadPersist true ∈ tr /\ fFinished (flags tr) = false.

Definition scanGuarantee (tr : scanTrace) (X : Type) (e : Act X) : Prop :=
  match e with
  | Diverge => False
  | ScanProbe _ _ | ScanURLTest _ _ _ _ _ _ => fStop (flags tr) = false
  | ClearEntries _ | DeleteIpList _ | UpsertEntries _ _ => writable tr
  | AddIpList l => if isSnapshot l then writable tr else mayCreate tr
  | SaveScan row =>
      writable tr /\ covers tr Initial (cursor row) /\ covers tr RescanResult (rescan_cursor row) /\ completeRow row
  | RemoveEntries _ es => writable tr /\ Forall (removable tr) es
  | SaveProgress _ m c _ _ _ => writable tr /\ covers tr m c
  | FinishedHook => fFinished (flags tr) = false
  | _ => True
  end.

Definition scanContract : Contract Act := MkContract scanRely scanGuarantee.

(** ** Symbolic execution *)

Definition wpM {A} (m : M A) (w : Worker) (tr : scanTrace) (Q : A -> Worker -> scanTrace -> Prop) : Prop :=
  wp scanContract (m w) tr (fun '(a, w') tr' => Q a w' tr').

Lemma wpM_mono {A} (m : M A) w tr (P Q : A -> Worker -> scanTrace -> Prop) :
  (forall a w' tr', P a w' tr' -> Q a w' tr') -> wpM m w tr P -> wpM m w tr Q.
Proof. intros HPQ. apply wp_mono. intros [a w'] tr'. apply HPQ. Qed.

Lemma wpM_bind {A B} (m : M A) (f : A -> M B) w tr Q :
  wpM m w tr (fun a w' tr' => wpM (f a) w' tr' Q) -> wpM (bind m f) w tr Q.
Proof. intros H. apply wp_bind. eapply wp_mono; [|exact H]. by intros [a w'] tr'. Qed.

Lemma wpM_ret {A} (a : A) w tr (Q : A -> Worker -> scanTrace -> Prop) : Q a w tr -> wpM (ret a) w tr Q.
Proof. done. Qed.

Lemma wpM_gets {A} (f : Worker -> A) w tr (Q : A -> Worker -> scanTrace -> Prop) : Q (f w) w tr -> wpM (gets f) w tr Q.
Proof. done. Qed.

Lemma wpM_modify f w tr (Q : unit -> Worker -> scanTrace -> Prop) : Q tt (f w) tr -> wpM (modify f) w tr Q.
Proof. done. Qed.

Lemma wpM_act {A} (e : Act A) w tr (Q : A -> Worker -> scanTrace -> Prop) :
  scanGuarantee tr A e -> (forall x, scanRely tr A e x -> Q x w (tr ++ [Ev e x])) -> wpM (act e) w tr Q.
Proof. intros Hg H. split; [done|]. intros x Hx. by apply H. Qed.

Lemma wpM_when c m w tr (Q : unit -> Worker -> scanTrace -> Prop) :
  (c = true -> wpM m w tr Q) -> (c = false -> Q tt w tr) -> wpM (when c m) w tr Q.
Proof. intros H1 H2. destruct c; [by apply H1|by apply (H2 eq_refl)]. Qed.
End Contract.

(** One step of the code. *)
Ltac wstep :=
  match goal with
  | |- wpM _ (bind _ _) _ _ _ => apply wpM_bind
  | |- wpM _ (ret _) _ _ _ => apply wpM_ret; cbv beta
  | |- wpM _ (gets _) _ _ _ => apply wpM_gets; cbv beta
  | |- wpM _ (modify _) _ _ _ => apply wpM_modify; cbv beta
  | |- wpM _ (modifyScan _) _ _ _ => unfold modifyScan; apply wpM_modify; cbv beta
  | |- wpM _ (modifyLive _) _ _ _ => unfold modifyLive; apply wpM_modify; cbv beta
  | |- wpM _ rescanPass _ _ _ => unfold rescanPass; apply wpM_gets; cbv beta
  | |- wpM _ noError _ _ _ => unfold noError; apply wpM_ret; cbv beta
  | |- wpM _ pushLog _ _ _ => unfold pushLog, notifyProgress
  | |- wpM _ notifyProgress _ _ _ => unfold notifyProgress
  | |- wpM _ (act _) _ _ _ => apply wpM_act; [try exact I|intros ? ?; repeat match goal with x : unit |- _ => destruct x end; cbv beta]
  end.

(** ** Traces that leave flags alone *)

(** No flag moves; only what [ReadPersist] notes moves. *)
Definition quiet (seg : scanTrace) : Prop := forall f, fold_left flagStep seg f = f.

Definition steady (seg : scanTrace) : Prop :=
  forall f, let f' := fold_left flagStep seg f in
  fStop f' = fStop f /\ fFinished f' = fFinished f /\ fCleared f' = fCleared f /\ fSnap f' = fSnap f.

Lemma flags_app tr seg : flags (tr ++ seg) = fold_left flagStep seg (flags tr).
Proof. apply fold_left_app. Qed.

Lemma flags_quiet tr seg : quiet seg -> flags (tr ++ seg) = flags tr.
Proof. intros H. by rewrite flags_app, H. Qed.

Lemma quiet_nil : quiet [].
Proof. done. Qed.

Lemma quiet_app s t : quiet s -> quiet t -> quiet (s ++ t).
Proof. intros Hs Ht f. by rewrite fold_left_app, Hs, Ht. Qed.

Lemma steady_quiet s : quiet s -> steady s.
Proof. intros H f. simpl. by rewrite H. Qed.

Lemma steady_app s t : steady s -> steady t -> steady (s ++ t).
Proof.
  intros Hs Ht f. simpl. rewrite fold_left_app. pose proof (Hs f) as (H1 & H2 & H3 & H4).
  pose proof (Ht (fold_left flagStep s f)) as (H5 & H6 & H7 & H8). by rewrite H5, H6, H7, H8.
Qed.

(** Closes [quiet] and [steady] of listed calls. *)
Ltac quiet_tac :=
  repeat first [apply quiet_nil|apply quiet_app|apply steady_app]; first [done|by apply steady_quiet|by intros []].

(** Only what the views show changed. *)
Definition Frame (w w' : Worker) : Prop := exists v, w' = w <| live_ := v |>.

Lemma frame_refl w : Frame w w.
Proof. exists (live_ w). by destruct w. Qed.

Lemma frame_trans a b c : Frame a b -> Frame b c -> Frame a c.
Proof. intros [v ->] [v' ->]. exists v'. done. Qed.

(** ** The helpers *)

Section Helpers.
Context `{T : QtText} (scan0 : IpScan).
Implicit Types (w : Worker) (tr seg : scanTrace).
Abbreviation WP := (wpM scan0).

(** [m] shows something and does nothing else. *)
Definition shows (m : M unit) : Prop := forall w tr (Q : unit -> Worker -> scanTrace -> Prop),
  (forall w' seg, Frame w w' -> quiet seg -> Q tt w' (tr ++ seg)) -> WP m w tr Q.

Lemma shows_push : shows pushLog.
Proof. intros w tr Q HQ. wstep. wstep. apply HQ; [apply frame_refl|done]. Qed.

Lemma shows_results : shows (act ResultsHook).
Proof. intros w tr Q HQ. wstep. apply HQ; [apply frame_refl|done]. Qed.

Lemma shows_notify : shows (act NotifyListsChanged).
Proof. intros w tr Q HQ. wstep. apply HQ; [apply frame_refl|done]. Qed.

Lemma shows_ret : shows (ret tt).
Proof.
  intros w tr Q HQ. wstep. rewrite <- (app_nil_r tr). apply HQ; [apply frame_refl|done].
Qed.

Lemma shows_when c m : shows m -> shows (when c m).
Proof. intros H. destruct c; [done|apply shows_ret]. Qed.

Lemma shows_then (m1 m2 : M unit) : shows m1 -> shows m2 -> shows (do! m1; m2).
Proof.
  intros H1 H2 w tr Q HQ. wstep. apply H1. intros w1 s1 F1 q1. apply H2. intros w2 s2 F2 q2.
  rewrite <- app_assoc. apply HQ; [by eapply frame_trans|by apply quiet_app].
Qed.

Lemma shows_live f : shows (modifyLive f).
Proof.
  intros w tr Q HQ. wstep. rewrite <- (app_nil_r tr). apply HQ; [by eexists|done].
Qed.

Lemma shows_stage s : shows (setStage s).
Proof.
  intros w tr Q HQ. unfold setStage. wstep. wstep. destruct (bool_decide _).
  - by apply shows_ret.
  - apply (shows_then _ _ (shows_live _) shows_push). exact HQ.
Qed.

Lemma shows_tested t n : shows (setTested t n).
Proof. apply shows_then; [apply shows_live|apply shows_push]. Qed.

Lemma shows_chunk a b : shows (beginChunk a b).
Proof.
  intros w tr Q HQ. unfold beginChunk. wstep. wstep. unfold modifyLive. wstep.
  apply HQ; [by eexists|done].
Qed.

Lemma networkUp_spec v6 w tr (Q : bool -> Worker -> scanTrace -> Prop) :
  (forall up w' seg, Frame w w' -> quiet seg -> (up = true -> Ev (ScanCheckNetwork v6) (true, true) ∈ seg) ->
     Q up w' (tr ++ seg)) ->
  WP (networkUp v6) w tr Q.
Proof.
  intros HQ. unfold networkUp. wstep. apply shows_stage. intros w1 s1 F1 q1. wstep. apply shows_push. intros w2 s2 F2 q2.
  wstep. wstep. destruct x as [ok up]. wstep. rewrite <- !app_assoc. apply HQ.
  - by eapply frame_trans.
  - apply quiet_app; [done|]. by apply quiet_app.
  - intros [-> ->]%andb_true_iff. rewrite !elem_of_app. right. right. by left.
Qed.

(** [m] looks at [persist_] and, when it holds, may write. *)
Definition writes (m : M unit) (Frm : Worker -> Worker -> Prop) : Prop :=
  forall w tr (Q : unit -> Worker -> scanTrace -> Prop),
  fFinished (flags tr) = false ->
  (forall w' seg, Frm w w' -> steady seg -> Q tt w' (tr ++ seg)) ->
  WP m w tr Q.

(** Changes of what the views show and of [listsTouched_]. *)
Definition Touch (w w' : Worker) : Prop := exists v b, w' = (w <| live_ := v |>) <| listsTouched_ := b |>.

Lemma touch_frame w w' : Frame w w' -> Touch w w'.
Proof. intros [v ->]. exists v, (listsTouched_ w). by destruct w. Qed.

Lemma touch_trans a b c : Touch a b -> Touch b c -> Touch a c.
Proof. intros (v & x & ->) (v' & x' & ->). by exists v', x'. Qed.

Lemma touch_refl w : Touch w w.
Proof. apply touch_frame, frame_refl. Qed.

Lemma writes_delete id : writes (deleteList id) Touch.
Proof.
  intros w tr Q Hf HQ. unfold deleteList. destruct (id <? 0).
  - wstep. rewrite <- (app_nil_r tr). apply HQ; [apply touch_refl|done].
  - wstep. wstep. destruct x; cbn [negb].
    + wstep. apply wpM_act; [unfold scanGuarantee, writable; rewrite flags_snoc; done|]. intros [] _. cbv beta. wstep.
      rewrite <- app_assoc. apply HQ; [by exists (live_ w), true; destruct w|by intros []].
    + wstep. apply HQ; [apply touch_refl|by intros []].
Qed.

(** The row holds the pass as the run has it. *)
Definition samePass (row s : IpScan) : Prop :=
  status row = status s /\ mode row = mode s /\ cursor row = cursor s /\ total row = total s /\
  rescan_cursor row = rescan_cursor s /\ rescan_total row = rescan_total s /\
  snapshot_list_id row = snapshot_list_id s /\ rescan_snapshot_list_id row = rescan_snapshot_list_id s /\
  result_list_id row = result_list_id s /\ last_error row = last_error s.

Definition savedIn (seg : scanTrace) (s : IpScan) : Prop :=
  (exists row b, Ev (SaveScan row) b ∈ seg /\ samePass row s) \/ Ev ReadPersist false ∈ seg \/
  (exists id, Ev (GetIpScan id) None ∈ seg).

(** What the run must know before it writes the pass: unless [persist_] was seen
    cleared, its positions are done. *)
Definition passCovered tr (s : IpScan) : Prop :=
  covers scan0 tr Initial (cursor s) /\ covers scan0 tr RescanResult (rescan_cursor s) /\ completeRow scan0 s.

Lemma persistPassState_spec w tr (Q : unit -> Worker -> scanTrace -> Prop) :
  fFinished (flags tr) = false ->
  (fOff (flags tr) = true \/ forall seg, steady seg -> passCovered (tr ++ seg) (scan_ w)) ->
  (forall seg, steady seg -> savedIn seg (scan_ w) -> Q tt w (tr ++ seg)) ->
  WP persistPassState w tr Q.
Proof.
  intros Hf Hc HQ. unfold persistPassState. wstep. wstep. destruct x; cbn [negb].
  - destruct Hc as [Ho|Hc]; [by specialize (H Ho)|]. wstep. wstep. wstep. wstep. destruct x as [row|].
    + wstep. apply wpM_act.
      { destruct (Hc ([Ev ReadPersist true] ++ [Ev (GetIpScan (sid (scan_ w))) (Some row)]) ltac:(by intros [])) as (H1 & H2 & H3).
        rewrite !app_assoc in H1, H2. unfold scanGuarantee, writable. rewrite !flags_snoc. by split_and!. }
      intros b _. cbv beta. wstep.
      rewrite <- !app_assoc. apply HQ; [by intros []|]. left. eexists _, b. split; [right; right; left|]. by split_and!.
    + wstep. rewrite <- !app_assoc. apply HQ; [by intros []|]. right. right. eexists. right. left.
  - wstep. apply HQ; [by intros []|]. right. left. by left.
Qed.

Lemma ensure_spec s w tr (Q : Z * IpScan -> Worker -> scanTrace -> Prop) :
  mayCreate tr ->
  (forall id s' seg, quiet seg -> (s' = s \/ s' = s <| result_list_id := id |>) ->
     (0 <= id -> result_list_id s' = id) -> Q (id, s') w (tr ++ seg)) ->
  WP (EnsureScanResultList s) w tr Q.
Proof.
  intros [Hw Hf] HQ. unfold EnsureScanResultList. wstep.
  assert (Hadd : forall seg, quiet seg -> WP (let! id := act (AddIpList (MkNewList (ResultListName (sname s)) RoleScanResult (sid s) [])) in
    ret (match id with Some id => (id, s <| result_list_id := id |>) | None => (-1, s) end)) w (tr ++ seg) Q).
  { intros seg Hs. wstep. apply wpM_act.
    { split; [by apply elem_of_app; left|by rewrite flags_quiet]. }
    intros id _. cbv beta.
    wstep. rewrite <- app_assoc. destruct id as [id|]; apply HQ; try tauto; try lia; try done.
    all: apply quiet_app; [done|]; intros []; simpl; by rewrite orb_false_r. }
  destruct (0 <=? result_list_id s).
  - wstep. wstep. wstep. destruct (find _ _); [destruct (_ && _)|].
    + wstep. by apply HQ; [|left|].
    + by apply Hadd.
    + by apply Hadd.
  - wstep. rewrite <- (app_nil_r tr). apply Hadd, quiet_nil.
Qed.
End Helpers.

(** ** Flags only ever rise *)

Definition calm (seg : scanTrace) : Prop :=
  forall f, let f' := fold_left flagStep seg f in fFinished f' = fFinished f /\ fCleared f' = fCleared f /\ fSnap f' = fSnap f.

Lemma calm_steady s : steady s -> calm s.
Proof. intros H f. split_and!; apply H. Qed.

Lemma calm_quiet s : quiet s -> calm s.
Proof. intros H. by apply calm_steady, steady_quiet. Qed.

Lemma calm_app s t : calm s -> calm t -> calm (s ++ t).
Proof.
  intros Hs Ht f. simpl. rewrite fold_left_app. pose proof (Hs f) as (H1 & H2 & H3).
  pose proof (Ht (fold_left flagStep s f)) as (H4 & H5 & H6). by rewrite H4, H5, H6.
Qed.

Lemma stop_mono tr seg : fStop (flags tr) = true -> fStop (flags (tr ++ seg)) = true.
Proof.
  rewrite flags_app. generalize (flags tr) as f. induction seg as [|[X e x] seg IH]; intros f Hf; [done|].
  simpl. apply IH. destruct e; simpl; rewrite ?Hf; done.
Qed.

Lemma off_mono tr seg : fOff (flags tr) = true -> fOff (flags (tr ++ seg)) = true.
Proof.
  rewrite flags_app. generalize (flags tr) as f. induction seg as [|[X e x] seg IH]; intros f Hf; [done|].
  simpl. apply IH. destruct e; simpl; rewrite ?Hf; done.
Qed.

Lemma calm_finished tr seg : calm seg -> fFinished (flags (tr ++ seg)) = fFinished (flags tr).
Proof. intros H. rewrite flags_app. apply H. Qed.

Lemma calm_start scan0 tr seg m : calm seg -> startOf scan0 (tr ++ seg) m = startOf scan0 tr m.
Proof. intros H. unfold startOf. rewrite !flags_app. destruct (H (flags tr)) as (_ & -> & ->). done. Qed.
