(* ===== verification/ScanChunk.v ===== *)
(** * ScanChunk: what testing a chunk of targets establishes

    Specifications, against the contract of ScanRules, of the functions of
    ScanWorker that probe a chunk, test it through the config, repeat the failures
    of a rescan and check the network. *)

From S2P Require Import Prelude Text IpAddress ScanConfig Program ScanWorker ScanRules.

(** ** Evidence is kept by longer traces *)

(** Inclusions of traces given by their pieces. *)
Ltac incl_tac := let x := fresh in intros x; rewrite ?elem_of_app; tauto.

Section Evidence.
Context `{T : QtText}.
Implicit Types (s t : scanTrace) (e : IpListEntry).

Lemma failedIn_incl s t e : s ⊆ t -> failedIn s e -> failedIn t e.
Proof.
  intros Hi [(rq & ms & rep & Hin & H)|[(a & b & Hin & H)|(a & b & c & d & n & ms & rpc & wm & rep & Hb & Hu & H)]].
  - left. exists rq, ms, rep. by auto.
  - right. left. exists a, b. by auto.
  - right. right. exists a, b, c, d, n, ms, rpc, wm, rep. by auto.
Qed.

Lemma cutShort_incl s t : s ⊆ t -> cutShort s -> cutShort t.
Proof.
  intros Hi [(rq & ms & rep & Hin & H)|(a & b & c & d & n & ms & rpc & wm & rep & Hb & Hu & H)].
  - left. exists rq, ms, rep. by auto.
  - right. exists a, b, c, d, n, ms, rpc, wm, rep. by auto.
Qed.

Lemma incl_app_l s t : s ⊆ s ++ t.
Proof. intros x Hx. apply elem_of_app. by left. Qed.

Lemma incl_app_r s t : t ⊆ s ++ t.
Proof. intros x Hx. apply elem_of_app. by right. Qed.

(** [e] failed in each of [n] tests made one after the other. *)
Definition failedRun (n : nat) s e : Prop :=
  exists segs, s = concat segs /\ length segs = n /\ Forall (fun s => failedIn s e) segs.

Lemma failedRun_one s e : failedIn s e -> failedRun 1 s e.
Proof. intros H. exists [s]. simpl. rewrite app_nil_r. split_and!; [done|done|by apply Forall_singleton]. Qed.

Lemma failedRun_more n s t e : failedRun n s e -> failedIn t e -> failedRun (S n) (s ++ t) e.
Proof.
  intros (segs & -> & <- & Hf) Ht. exists (segs ++ [t]). split_and!.
  - rewrite concat_app. simpl. by rewrite app_nil_r.
  - rewrite length_app. simpl. lia.
  - apply Forall_app. split; [done|by apply Forall_singleton].
Qed.

Lemma handedToTest_incl s t item : s ⊆ t -> handedToTest s item -> handedToTest t item.
Proof. intros Hi (a & b & Hin & H). exists a, b. by auto. Qed.
End Evidence.

(** ** Sorting the answers *)

Section Sorting.
Context `{T : QtText}.

Definition passedItems (items : list ProbeItem) : list ProbeItem := filter (fun i => piPassed i = true) items.

Definition failedItems (items : list ProbeItem) : list ProbeItem :=
  filter (fun i => piPassed i = false /\ piLocalFailure i = false) items.

Definition itemEntry (i : ProbeItem) : IpListEntry := scanWorkerEntry (piAddress i) (piPort i) 0.

Lemma sortItem_fold c items cs r :
  let '(cs', r') := fold_left (sortItem c) items (cs, r) in
  cs' = cs ++ map (outcomeOf c) (passedItems items) /\ failures r' = failures r ++ map itemEntry (failedItems items) /\
  hits r' = hits r /\ replaced r' = replaced r /\ caborted r' = caborted r /\ cerror r' = cerror r.
Proof.
  revert cs r. induction items as [|i items IH]; intros cs r; [by rewrite !app_nil_r|].
  cbn [fold_left]. unfold sortItem at 2. unfold passedItems, failedItems. rewrite !filter_cons.
  fold (passedItems items) (failedItems items).
  destruct (piPassed i) eqn:Ep; [|destruct (piLocalFailure i) eqn:El].
  - specialize (IH (cs ++ [outcomeOf c i]) r). destruct (fold_left _ _ _) as [cs' r']. destruct IH as (-> & -> & H).
    rewrite decide_True, decide_False by (done || by intros [? ?]). by rewrite <- app_assoc.
  - specialize (IH cs (r <| localFailures := localFailures r ++ [itemEntry i] |>)).
    change (scanWorkerEntry (oAddress (outcomeOf c i)) (oPort (outcomeOf c i)) 0) with (itemEntry i).
    destruct (fold_left _ _ _) as [cs' r']. destruct IH as (-> & -> & H).
    by rewrite !decide_False by (done || by intros [? ?]).
  - specialize (IH cs (r <| failures := failures r ++ [itemEntry i] |>)).
    change (scanWorkerEntry (oAddress (outcomeOf c i)) (oPort (outcomeOf c i)) 0) with (itemEntry i).
    destruct (fold_left _ _ _) as [cs' r']. destruct IH as (-> & -> & H).
    rewrite decide_False, decide_True by done. split_and!; try apply H; [done|]. simpl. by rewrite <- app_assoc.
Qed.

Lemma probeFails_items reply e : probeFails reply e <-> e ∈ map itemEntry (failedItems (prResults reply)).
Proof.
  unfold probeFails. rewrite list_elem_of_fmap. split.
  - intros (i & Hi & Hp & Hl & ->). exists i. split; [done|]. by apply list_elem_of_filter.
  - intros (i & -> & [[Hp Hl] Hi]%list_elem_of_filter). by exists i.
Qed.

(** A replaced entry has a hit of its address under another port. *)
Definition repOk (r : ChunkResult) : Prop :=
  forall e, e ∈ replaced r -> exists h, h ∈ hits r /\ cidr h = cidr e /\ port h <> port e.

Lemma addHit_facts rescan r cand port lat :
  let r' := addHit rescan r cand port lat in
  hits r' = hits r ++ [scanWorkerEntry (oAddress cand) port lat] /\ failures r' = failures r /\
  caborted r' = caborted r /\ cerror r' = cerror r /\ (repOk r -> repOk r').
Proof.
  unfold addHit. destruct (rescan && _) eqn:E; simpl; split_and!; try done.
  - intros Hr e [He| ->%list_elem_of_singleton]%elem_of_app; simpl.
    + destruct (Hr e He) as (h & Hh & H). exists h. rewrite elem_of_app. by split; [left|].
    + eexists. rewrite elem_of_app. split; [right; by apply list_elem_of_singleton|]. split; [done|]. simpl.
      bool_to_prop. done.
  - intros Hr e He. destruct (Hr e He) as (h & Hh & H). exists h. simpl. rewrite elem_of_app. by split; [left|].
Qed.

Definition hitEntry (c : ProbeOutcome) : IpListEntry :=
  scanWorkerEntry (oAddress c) (if 0 <? oProbePort c then oProbePort c else oPort c) (oLatencyMs c).

Lemma addProbeHits_facts rescan cs r :
  let r' := addProbeHits rescan cs r in
  hits r' = hits r ++ map hitEntry cs /\ failures r' = failures r /\ caborted r' = caborted r /\
  cerror r' = cerror r /\ (repOk r -> repOk r').
Proof.
  unfold addProbeHits. revert r. induction cs as [|c cs IH]; intros r; [by rewrite app_nil_r|]. cbn [fold_left map].
  destruct (addHit_facts rescan r c (if 0 <? oProbePort c then oProbePort c else oPort c) (oLatencyMs c)) as (H1 & H2 & H3 & H4 & H5).
  destruct (IH (addHit rescan r c (if 0 <? oProbePort c then oProbePort c else oPort c) (oLatencyMs c))) as (G1 & G2 & G3 & G4 & G5).
  rewrite G1, G2, G3, G4, H1, H2, H3, H4, <- app_assoc. split_and!; auto.
Qed.
End Sorting.

(** ** The config test *)

Section ConfigTest.
Context `{T : QtText} (scan0 : IpScan).
Implicit Types (w : Worker) (tr seg : scanTrace) (r : ChunkResult) (batch : list ProbeOutcome).
Abbreviation WP := (wpM scan0).

Definition candEntry (c : ProbeOutcome) : IpListEntry := scanWorkerEntry (oAddress c) (oPort c) 0.

Definition targetsOf (batch : list ProbeOutcome) : list (qstring * Z) := map (fun c => (oAddress c, oPort c)) batch.

Lemma inBatch_some index batch c :
  inBatch index batch = Some c ->
  0 <= index < Z.of_nat (length (targetsOf batch)) /\ c ∈ batch /\
  targetsOf batch !! Z.to_nat index = Some (oAddress c, oPort c).
Proof.
  unfold inBatch. destruct (Z.ltb_spec index 0) as [|Hi]; [done|]. intros E. pose proof (lookup_lt_Some _ _ _ E) as Hl.
  unfold targetsOf. rewrite length_map. split_and!; [lia|lia|by eapply list_elem_of_lookup_2|].
  change (map ?f batch) with (f <$> batch). by rewrite list_lookup_fmap, E.
Qed.

(** What a step of the config test may do to a chunk's result, given the calls of
    [seg]. *)
Record Tested seg batch r r' : Prop := MkTested {
  te_fail e : e ∈ failures r' -> e ∈ failures r \/ (failedIn seg e /\ exists c, c ∈ batch /\ e = candEntry c);
  te_rep : repOk r -> repOk r';
  te_err : cerror r' = cerror r;
  te_hits h : h ∈ hits r -> h ∈ hits r';
  te_keep e : e ∈ failures r -> e ∈ failures r';
  te_from h : h ∈ hits r' -> h ∈ hits r \/ exists c, c ∈ batch /\ cidr h = cidr (candEntry c) }.

Lemma tested_refl seg batch r : Tested seg batch r r.
Proof. split; auto. Qed.

Lemma tested_trans seg seg' batch batch' a b c :
  Tested seg batch a b -> Tested seg' batch' b c -> Tested (seg ++ seg') (batch ++ batch') a c.
Proof.
  intros H H'. split.
  - intros e [He|(He & x & Hx & E)]%(te_fail _ _ _ _ H').
    + apply (te_fail _ _ _ _ H) in He as [He|(He & x & Hx & E)]; [by left|]. right.
      split; [eapply failedIn_incl; [apply incl_app_l|done]|]. exists x. rewrite elem_of_app. by auto.
    + right. split; [eapply failedIn_incl; [apply incl_app_r|done]|]. exists x. rewrite elem_of_app. by auto.
  - intros Hr. by apply (te_rep _ _ _ _ H'), (te_rep _ _ _ _ H).
  - by rewrite (te_err _ _ _ _ H'), (te_err _ _ _ _ H).
  - intros h Hh. by apply (te_hits _ _ _ _ H'), (te_hits _ _ _ _ H).
  - intros e He. by apply (te_keep _ _ _ _ H'), (te_keep _ _ _ _ H).
  - intros h [Hh|(x & Hx & E)]%(te_from _ _ _ _ H').
    + apply (te_from _ _ _ _ H) in Hh as [Hh|(x & Hx & E)]; [by left|right]. exists x. rewrite elem_of_app. by auto.
    + right. exists x. rewrite elem_of_app. by auto.
Qed.

Lemma tested_incl seg seg' batch batch' r r' :
  seg ⊆ seg' -> batch ⊆ batch' -> Tested seg batch r r' -> Tested seg' batch' r r'.
Proof.
  intros Hi Hb H. split; try apply H.
  - intros e [He|(He & c & Hc & E)]%(te_fail _ _ _ _ H); [by left|right]. split; [by eapply failedIn_incl|exists c; by auto].
  - intros h [Hh|(c & Hc & E)]%(te_from _ _ _ _ H); [by left|right; exists c; by auto].
Qed.

(** Two steps over the same calls and targets. *)
Lemma tested_then seg batch a b c : Tested seg batch a b -> Tested seg batch b c -> Tested seg batch a c.
Proof.
  intros H H'. eapply (tested_incl (seg ++ seg) _ (batch ++ batch)); [..|by eapply tested_trans]; intros x; rewrite elem_of_app; tauto.
Qed.

Lemma unsupported_tested seg batch build idxs r :
  Ev (BuildScanTestConfig (targetsOf batch)) build ∈ seg -> idxs ⊆ tbUnsupported build ->
  let r' := fold_left (noteUnsupported batch) idxs r in Tested seg batch r r' /\ caborted r' = caborted r.
Proof.
  intros Hb. revert r. induction idxs as [|i idxs IH]; intros r Hi; [by split; [apply tested_refl|]|].
  cbn [fold_left]. set (r1 := noteUnsupported batch r i).
  assert (H1 : Tested seg batch r r1 /\ caborted r1 = caborted r).
  { unfold r1, noteUnsupported. destruct (inBatch i batch) as [c|] eqn:E; [|by split; [apply tested_refl|]].
    destruct (inBatch_some i batch c E) as (Hr & Hc & Ht). split; [|done].
    split; simpl; auto; [|intros e He; rewrite elem_of_app; by left]. intros e [He| ->%list_elem_of_singleton]%elem_of_app; [by left|right]. split; [|by exists c].
    right. left. exists (targetsOf batch), build. split; [done|]. exists i, (oAddress c), (oPort c).
    split_and!; [apply Hi; by left|lia|done|done]. }
  destruct (IH r1) as [H2 H3]; [intros x Hx; apply Hi; by right|]. destruct H1 as [H1 H1'].
  split; [|by rewrite H3]. by eapply tested_then.
Qed.

Section Url.
Context (rescan : bool) (basePort : Z) (batch : list ProbeOutcome) (build : TestBuild) (reply : UrlReply).

Definition anyAborted (items : list UrlItem) : Prop := exists i, i ∈ items /\ scanWorkerIsAborted (uiError i) = true.

Definition inRange (index : Z) : Prop := 0 <= index < Z.of_nat (length (targetsOf batch)).

Lemma inBatch_none index : inRange index -> inBatch index batch <> None.
Proof.
  unfold inRange, inBatch, targetsOf. rewrite length_map. intros H. destruct (Z.ltb_spec index 0); [lia|].
  intros E%lookup_ge_None. lia.
Qed.

(** A hit of a target of the batch. *)
Lemma added_tested seg r c p lat : c ∈ batch -> Tested seg batch r (addHit rescan r c p lat).
Proof.
  intros Hc. destruct (addHit_facts rescan r c p lat) as (G1 & G2 & G3 & G4 & G5). split; rewrite ?G1, ?G2; auto.
  - intros h Hh. rewrite elem_of_app. by left.
  - intros h [Hh| ->%list_elem_of_singleton]%elem_of_app; [by left|right]. by exists c.
Qed.

Lemma urlItem_fold seg tags url n ms rpc warm items acc :
  Ev (BuildScanTestConfig (targetsOf batch)) build ∈ seg ->
  Ev (ScanURLTest tags url n ms rpc warm) reply ∈ seg -> urOk reply = true -> items ⊆ urResults reply ->
  let acc' := fold_left (urlItem rescan basePort batch build reply) items acc in
  Tested seg batch acc.2 acc'.2 /\
  (caborted acc'.2 = true -> caborted acc.2 = true \/ anyAborted items) /\
  (acc.1 ⊆ acc'.1 /\ forall i, i ∈ items -> inRange (targetOf build (uiTag i)) -> targetOf build (uiTag i) ∈ acc'.1).
Proof.
  intros Hb Hu Hok. revert acc. induction items as [|i items IH]; intros [rep r] Hi.
  { split_and!; [apply tested_refl|by left|done|]. by intros i ?%elem_of_nil. }
  cbn [fold_left]. set (acc1 := urlItem rescan basePort batch build reply (rep, r) i).
  assert (H1 : Tested seg batch r acc1.2 /\ (caborted acc1.2 = true -> caborted r = true \/ scanWorkerIsAborted (uiError i) = true) /\
    (rep ⊆ acc1.1 /\ (inRange (targetOf build (uiTag i)) -> targetOf build (uiTag i) ∈ acc1.1))).
  { unfold acc1, urlItem. destruct (inBatch _ batch) as [c|] eqn:E.
    2: { split_and!; [apply tested_refl|by left|done|]. by intros ?%inBatch_none. }
    destruct (inBatch_some _ batch c E) as (Hr & Hc & Ht).
    destruct (bool_decide _) eqn:Ed; [bool_to_prop; by split_and!; [apply tested_refl|left| |]|]. cbn [fst snd].
    assert (Hrep : rep ⊆ ({[targetOf build (uiTag i)]} ∪ rep : gset Z) /\ (inRange (targetOf build (uiTag i)) ->
      targetOf build (uiTag i) ∈ ({[targetOf build (uiTag i)]} ∪ rep : gset Z))) by set_solver.
    destruct (isNull (uiError i)) eqn:En; [|destruct (scanWorkerIsAborted (uiError i)) eqn:Ea; [|destruct (tunnelUp reply (uiTag i)) eqn:Et]].
    - destruct (addHit_facts rescan r c (configPort basePort c) (uiLatency i)) as (G1 & G2 & G3 & G4 & G5).
      split; [by eapply added_tested|]. split; [rewrite G3; by left|done].
    - split; [split; simpl; auto|]. split; [by right|done].
    - destruct (addHit_facts rescan r c (configPort basePort c) 0) as (G1 & G2 & G3 & G4 & G5).
      split; [by eapply added_tested|]. split; [rewrite G3; by left|done].
    - split; [split; simpl; auto|split; [by left|done]]; [|intros e He; rewrite elem_of_app; by left].
      intros e [He| ->%list_elem_of_singleton]%elem_of_app; [by left|right]. split; [|by exists c].
      right. right. exists (targetsOf batch), build, tags, url, n, ms, rpc, warm, reply. split_and!; try done.
      exists i, (oAddress c), (oPort c). split_and!; try done; [apply Hi; by left|lia|].
      intros E'. unfold isNull in En. rewrite E' in En. done. }
  destruct H1 as (A1 & A2 & A3 & A4). destruct (IH acc1) as (B1 & B2 & B3 & B4); [intros x Hx; apply Hi; by right|].
  split_and!.
  - by eapply tested_then.
  - intros [H|(x & Hx & Ha)]%B2.
    + destruct (A2 H) as [?|Ha]; [by left|right]. exists i. by split; [left|].
    + right. exists x. by split; [right|].
  - by transitivity acc1.1.
  - intros x [->|Hx]%elem_of_cons Hr; [by apply B3, A4|by apply B4].
Qed.

Lemma urlResults_tested seg tags url n ms rpc warm r :
  Ev (BuildScanTestConfig (targetsOf batch)) build ∈ seg ->
  Ev (ScanURLTest tags url n ms rpc warm) reply ∈ seg -> urOk reply = true ->
  let r' := urlResults rescan basePort batch build reply r in
  Tested seg batch r r' /\ (caborted r' = true -> caborted r = true \/ cutShort seg).
Proof.
  intros Hb Hu Hok. unfold urlResults.
  pose proof (urlItem_fold seg tags url n ms rpc warm (urResults reply) (∅, r) Hb Hu Hok ltac:(done)) as (H1 & H2 & _ & H3).
  destruct (fold_left _ _ _) as [rep r1]. simpl in *.
  assert (Hcut : caborted r1 = true -> caborted r = true \/ cutShort seg).
  { intros [?|(i & Hi & Ha)]%H2; [by left|right]. right.
    exists (targetsOf batch), build, tags, url, n, ms, rpc, warm, reply. split_and!; [done|done|]. left. by exists i. }
  destruct (existsb _ _) eqn:E; [|done]. split.
  - split; try apply H1.
  - intros _. right. apply existsb_exists in E as ([tag index] & Hin%list_elem_of_In & E).
    apply elem_of_map_to_list in Hin. bool_to_prop. right.
    exists (targetsOf batch), build, tags, url, n, ms, rpc, warm, reply. split_and!; [done|done|]. right.
    exists tag, index. split; [done|]. intros i Hi. destruct (decide (targetOf build (uiTag i) = index)) as [<-|]; [right|by left].
    specialize (H3 i Hi). unfold inRange in H3.
    destruct (Z_lt_le_dec (targetOf build (uiTag i)) 0); [by left|right].
    destruct (Z_lt_le_dec (targetOf build (uiTag i)) (Z.of_nat (length (targetsOf batch)))); [|done]. by destruct E; apply H3.
Qed.
End Url.

Lemma stop_read tr b : (fStop (flags tr) = true -> b = true) -> b = false -> fStop (flags tr) = false.
Proof. intros H ->. by destruct (fStop (flags tr)); [specialize (H eq_refl)|]. Qed.

Lemma stop_after tr : fStop (flags (tr ++ [Ev ReadStop true])) = true.
Proof. rewrite flags_snoc. simpl. apply orb_true_r. Qed.

Lemma calm_nil : calm [].
Proof. done. Qed.

Lemma calm_one X (e : Act X) x :
  (match e with FinishedHook | AddIpList _ | ClearEntries _ => False | _ => True end) -> calm [Ev e x].
Proof. intros H f. by destruct e. Qed.

(** The end of a batch: on to the next one, or done with an error or a stop. *)
Definition batchPost tr seg batch r (o : BatchOutcome) : Prop :=
  match o with
  | NextBatch r' =>
      Tested seg batch r r' /\ (caborted r' = true -> caborted r = true \/ cutShort seg) /\
      exists build, Ev (BuildScanTestConfig (targetsOf batch)) build ∈ seg /\ tbError build = []
  | EndBatches r' error =>
      Tested seg batch r r' /\ (error = [] -> caborted r' = true) /\
      (caborted r' = true -> caborted r = true \/ fStop (flags (tr ++ seg)) = true)
  end.

Lemma aborted_tested seg batch r : Tested seg batch r (r <| caborted := true |>).
Proof. split; simpl; auto. Qed.

Lemma set_stop_calm error : calm (if scanWorkerIsStopped error then [Ev SetStop tt] else []).
Proof. destruct (scanWorkerIsStopped error); [by apply calm_one|done]. Qed.

(** The core's refusal, noted: [stop_] is set if it says the scan was stopped. *)
Lemma when_stop_spec error w tr (Q : unit -> Worker -> scanTrace -> Prop) :
  Q tt w (tr ++ (if scanWorkerIsStopped error then [Ev SetStop tt] else [])) -> WP (when (scanWorkerIsStopped error) (act SetStop)) w tr Q.
Proof. intros HQ. apply wpM_when; intros E; rewrite E in HQ; [by wstep|by rewrite app_nil_r in HQ]. Qed.

Ltac calm_tac := repeat first [apply calm_app|apply calm_one; exact I|apply set_stop_calm|apply calm_nil|assumption].

Lemma testBatch_spec test batch r w tr (Q : BatchOutcome -> Worker -> scanTrace -> Prop) :
  (forall o seg, calm seg -> batchPost tr seg batch r o -> Q o w (tr ++ seg)) -> WP (testBatch test batch r) w tr Q.
Proof.
  intros HQ. unfold testBatch. wstep. wstep. destruct x.
  { wstep. apply HQ; [calm_tac|]. split_and!; [apply aborted_tested|done|]. intros _. right. apply stop_after. }
  wstep. wstep. rename x into build. destruct (isNull (tbError build)) eqn:Eb; cbn [negb].
  2: { wstep. rewrite <- app_assoc. apply HQ; [calm_tac|]. split_and!; [apply tested_refl| |by left].
    intros E. rewrite E in Eb. done. }
  unfold isNull in Eb. bool_to_prop. cbv zeta.
  set (pre := [Ev ReadStop false] ++ [Ev (BuildScanTestConfig (targetsOf batch)) build]).
  assert (Hpre : Ev (BuildScanTestConfig (targetsOf batch)) build ∈ pre) by (right; left).
  destruct (unsupported_tested pre batch build (tbUnsupported build) r Hpre ltac:(done)) as [Hu1 Hu2].
  set (r1 := fold_left (noteUnsupported batch) (tbUnsupported build) r) in *.
  assert (Hnext : WP (ret (NextBatch r1)) w ((tr ++ [Ev ReadStop false]) ++ [Ev (BuildScanTestConfig (targetsOf batch)) build]) Q).
  { wstep. rewrite <- app_assoc. apply HQ; [calm_tac|]. split_and!; [done|rewrite Hu2; by left|]. by exists build. }
  destruct (tbTags build) as [[|tag tags]|]; [exact Hnext| |exact Hnext]. clear Hnext.
  wstep. apply wpM_act.
  { simpl. rewrite !flags_snoc. simpl. rewrite orb_false_r. by apply (stop_read tr false). }
  intros reply _. cbv beta. set (call := Ev (ScanURLTest _ _ _ _ _ _) reply).
  destruct (urOk reply) eqn:Eok; cbn [negb].
  - wstep. wstep. wstep. wstep. wstep. rewrite <- !app_assoc. apply HQ; [calm_tac|].
    assert (Hb : Ev (BuildScanTestConfig (targetsOf batch)) build ∈ (pre ++ [call])) by (apply elem_of_app; by left).
    assert (Hc : call ∈ (pre ++ [call])) by (apply elem_of_app; right; by left).
    unfold call in Hc at 1.
    destruct (urlResults_tested (rescanning (scan_ w)) (basePort_ w) batch build reply _ _ _ _ _ _ _ r1 Hb Hc Eok) as [G1 G2].
    split_and!.
    + eapply tested_incl; [| |by eapply tested_then; [eapply tested_incl; [apply incl_app_l|done|exact Hu1]|exact G1]]; [|done].
      unfold pre. intros x. rewrite !elem_of_app. tauto.
    + intros [Ha|Ha]%G2; [rewrite Hu2 in Ha; by left|right]. eapply cutShort_incl; [|exact Ha]. done.
    + exists build. by split.
  - wstep. apply when_stop_spec. wstep. wstep. destruct x.
    + wstep. rewrite <- !app_assoc. apply HQ; [calm_tac|]. split_and!; [|done|].
      * eapply tested_incl; [|done|exact (tested_then _ _ _ _ _ Hu1 (aborted_tested _ _ r1))]. unfold pre. intros x. rewrite !elem_of_app. tauto.
      * intros _. right. rewrite !app_assoc. apply stop_after.
    + wstep. rewrite <- !app_assoc. apply HQ; [calm_tac|]. split_and!.
      * eapply tested_incl; [|done|exact Hu1]. unfold pre. intros x. rewrite !elem_of_app. tauto.
      * destruct (isNull (urCoreError reply)) eqn:E; [done|]. intros E'. rewrite E' in E. done.
      * rewrite Hu2. by left.
Qed.

Definition stopOr (P : Prop) tr seg : Prop := P \/ fStop (flags (tr ++ seg)) = true.

Lemma testBatches_spec test batches r w tr (Q : ChunkResult * qstring -> Worker -> scanTrace -> Prop) :
  (forall r' error seg, calm seg -> Tested seg (concat batches) r r' ->
     (caborted r' = true -> stopOr (caborted r = true \/ cutShort seg) tr seg) ->
     (error = [] -> caborted r' = false -> forall batch, batch ∈ batches ->
        exists build, Ev (BuildScanTestConfig (targetsOf batch)) build ∈ seg /\ tbError build = []) ->
     Q (r', error) w (tr ++ seg)) ->
  WP (testBatches test batches r) w tr Q.
Proof.
  revert r tr. induction batches as [|batch batches IH]; intros r tr HQ; cbn [testBatches].
  { wstep. rewrite <- (app_nil_r tr). apply HQ; [done|apply tested_refl|unfold stopOr; tauto|]. by intros _ _ b ?%elem_of_nil. }
  wstep. apply testBatch_spec. intros [r1|r1 error] seg Hc Hp.
  - destruct Hp as (H1 & H2 & build & Hb & Eb). apply IH. intros r2 error seg2 Hc2 G1 G2 G3. rewrite <- app_assoc.
    apply HQ; [by apply calm_app|by eapply tested_trans| |].
    + unfold stopOr. rewrite app_assoc. intros [[Ha|Hcut]|Hs]%G2; [|left; right; eapply cutShort_incl; [apply incl_app_r|done]|by right].
      destruct (H2 Ha) as [?|Hcut]; [by left; left|left; right]. eapply cutShort_incl; [apply incl_app_l|done].
    + intros He Ha b [->|Hin]%elem_of_cons; [exists build; by rewrite elem_of_app; auto|].
      destruct (G3 He Ha b Hin) as (x & Hx & Ex). exists x. by rewrite elem_of_app; auto.
  - destruct Hp as (H1 & H2 & H3). wstep. apply HQ; [done| | |].
    + eapply tested_incl; [done| |exact H1]. cbn [concat]. intros x. rewrite elem_of_app. by left.
    + unfold stopOr. intros [?|?]%H3; auto.
    + intros He Ha. rewrite (H2 He) in Ha. done.
Qed.

Lemma chunksLoop_in {A} n (l : list A) fuel c :
  (0 < n)%nat -> (length l <= fuel)%nat -> c ∈ l -> exists b, b ∈ chunksLoop fuel n l /\ c ∈ b.
Proof.
  intros Hn. revert l. induction fuel as [|fuel IH]; intros l Hl Hc.
  { destruct l; [by apply elem_of_nil in Hc|simpl in Hl; lia]. }
  destruct l as [|x l]; [by apply elem_of_nil in Hc|]. cbn [chunksLoop]. rewrite <- (take_drop n (x :: l)) in Hc.
  apply elem_of_app in Hc as [Hc|Hc].
  - eexists. split; [by left|done].
  - destruct (IH (drop n (x :: l))) as (b & Hb & Hcb); [rewrite length_drop; simpl in *; lia|done|].
    exists b. split; [by right|done].
Qed.

Lemma chunksLoop_incl {A} n (l : list A) fuel : concat (chunksLoop fuel n l) ⊆ l.
Proof.
  revert l. induction fuel as [|fuel IH]; intros l; [by intros x ?%elem_of_nil|].
  destruct l as [|x l]; [done|]. cbn [chunksLoop concat]. intros y [Hy|Hy]%elem_of_app.
  - rewrite <- (take_drop n (x :: l)). apply elem_of_app. by left.
  - apply IH in Hy. rewrite <- (take_drop n (x :: l)). apply elem_of_app. by right.
Qed.

Lemma configTest_spec s w tr (Q : ScanWorkerConfigTest -> Worker -> scanTrace -> Prop) :
  (forall test seg, quiet seg -> 8 <= subBatch test <= 100 -> Q test w (tr ++ seg)) -> WP (scanWorkerConfigTest s) w tr Q.
Proof.
  intros HQ. unfold scanWorkerConfigTest. cbv zeta. set (test := match kind s with Generic => _ | Warp => _ end).
  assert (Hb : 8 <= subBatch test <= 100) by (unfold test, clamp; destruct (kind s); simpl; lia).
  wstep. destruct (isNull _); (wstep; wstep; destruct (_ <=? 0); wstep; wstep).
  - rewrite <- app_assoc. by apply HQ.
  - by apply HQ.
  - by apply HQ.
  - rewrite <- (app_nil_r tr). by apply HQ.
Qed.

Lemma testConfigs_spec cands r w tr (Q : ChunkResult * qstring -> Worker -> scanTrace -> Prop) :
  (forall r' error w' seg, Frame w w' -> calm seg -> Tested seg cands r r' ->
     (caborted r' = true -> stopOr (caborted r = true \/ cutShort seg) tr seg) ->
     (error = [] -> caborted r' = false -> forall c, c ∈ cands -> exists targets build,
        Ev (BuildScanTestConfig targets) build ∈ seg /\ tbError build = [] /\ (oAddress c, oPort c) ∈ targets) ->
     Q (r', error) w' (tr ++ seg)) ->
  WP (testConfigs cands r) w tr Q.
Proof.
  intros HQ. unfold testConfigs. wstep. apply shows_stage. intros w1 s1 F1 q1. wstep. apply shows_push. intros w2 s2 F2 q2.
  wstep. wstep. wstep. apply configTest_spec. intros test s3 q3 Hb. apply testBatches_spec.
  intros r' error s4 c4 H1 H2 H3. rewrite <- !app_assoc. apply HQ.
  - by eapply frame_trans.
  - repeat apply calm_app; first [by apply calm_quiet|done].
  - eapply tested_incl; [|apply chunksLoop_incl|exact H1]. intros x. rewrite !elem_of_app. tauto.
  - unfold stopOr in *. rewrite !app_assoc. intros [[?|Hcut]|?]%H2; [by left; left|left; right|by right].
    eapply cutShort_incl; [|exact Hcut]. intros x. rewrite !elem_of_app. tauto.
  - intros He Ha c Hc. destruct (chunksLoop_in (Z.to_nat (subBatch test)) cands (length cands) c) as (b & Hbb & Hcb); [lia|done|done|].
    destruct (H3 He Ha b Hbb) as (build & Hin & Eb). exists (targetsOf b), build. split_and!; [rewrite !elem_of_app; tauto|done|].
    apply list_elem_of_fmap. by exists c.
Qed.
End ConfigTest.

(** ** A probed chunk *)

Section Probe.
Context `{T : QtText} (scan0 : IpScan).
Implicit Types (w : Worker) (tr seg : scanTrace) (r : ChunkResult).
Abbreviation WP := (wpM scan0).

(** A list of addresses, each with its own port. *)
Definition hostSpec (spec : TargetSpec) : Prop :=
  spPorts spec = [] /\ spPortMode spec = u "list" /\ forall a p, (a, p) ∈ spEntries spec -> IsHostCidr a = true.

(** What a failure of a chunk is: an address, asked for when a list of addresses
    was probed. *)
Definition failureOf (spec : TargetSpec) (e : IpListEntry) : Prop :=
  IsHostCidr (cidr e) = true /\ latencyMs e = 0 /\ (hostSpec spec -> (cidr e, port e) ∈ spEntries spec).

(** The probe answered, and the calls [seg] followed: what of its targets is decided
    in [r]. *)
Definition decided (configPhase : bool) seg reply r : Prop :=
  (if configPhase then
     cerror r = [] -> caborted r = false -> forall item, item ∈ prResults reply -> piPassed item = true -> handedToTest seg item
   else
     forall item, item ∈ prResults reply -> piPassed item = true ->
       exists h, h ∈ hits r /\ cidr h = cidr (scanWorkerEntry (piAddress item) 0 0) /\ port h = hitPort item) /\
  (forall h, h ∈ hits r -> exists item, item ∈ prResults reply /\ piPassed item = true /\
     cidr h = cidr (scanWorkerEntry (piAddress item) 0 0)) /\
  (forall e, probeFails reply e -> e ∈ failures r).

Record Chunked (configPhase : bool) spec start next0 tr seg r next : Prop := MkChunked {
  ck_fail e : e ∈ failures r -> failedIn seg e /\ failureOf spec e;
  ck_rep : repOk r;
  ck_abort : caborted r = true -> stopOr (cutShort seg) tr seg;
  ck_done :
    (next = next0 /\ failures r = [] /\ (cerror r = [] -> caborted r = true /\ fStop (flags (tr ++ seg)) = true)) \/
    (exists sa rq ms reply sb, seg = sa ++ Ev (ScanProbe rq ms) reply :: sb /\ rqSpec rq = spec /\ rqCursor rq = start /\
       rqOptions rq <> None /\ prOk reply = true /\ prError reply = [] /\ next = Z.max start (prNextCursor reply) /\
       decided configPhase sb reply r) }.

Lemma item_failure rq reply item :
  coreAnswers rq reply -> item ∈ prResults reply -> failureOf (rqSpec rq) (itemEntry item).
Proof.
  intros Hc Hi. destruct (Hc item Hi) as [H1 H2]. split_and!; [done|done|]. intros (H3 & H4 & H5). by apply H2.
Qed.

Lemma failedItems_in items i : i ∈ failedItems items -> i ∈ items.
Proof. by intros [_ H]%list_elem_of_filter. Qed.

Lemma passedItems_in items i : i ∈ passedItems items <-> i ∈ items /\ piPassed i = true.
Proof. unfold passedItems. rewrite list_elem_of_filter. tauto. Qed.

Lemma decided_probe rescan c reply r :
  hits r = [] -> (forall e, e ∈ map itemEntry (failedItems (prResults reply)) -> e ∈ failures r) ->
  forall seg, decided false seg reply (addProbeHits rescan (map (outcomeOf c) (passedItems (prResults reply))) r).
Proof.
  intros Hh Hf seg. destruct (addProbeHits_facts rescan (map (outcomeOf c) (passedItems (prResults reply))) r) as (H1 & H2 & _ & _ & _).
  unfold decided. rewrite H1, H2, Hh. simpl. rewrite map_map. split_and!.
  - intros item Hi Hp. eexists. split; [apply list_elem_of_fmap; exists item; split; [reflexivity|by apply passedItems_in]|]. done.
  - intros h (item & -> & [Hi Hp]%passedItems_in)%list_elem_of_fmap. by exists item.
  - intros e He%probeFails_items. by apply Hf.
Qed.

Lemma decided_config c reply r seg :
  (forall h, h ∈ hits r -> exists x, x ∈ map (outcomeOf c) (passedItems (prResults reply)) /\ cidr h = cidr (candEntry x)) ->
  (forall e, e ∈ map itemEntry (failedItems (prResults reply)) -> e ∈ failures r) ->
  (cerror r = [] -> caborted r = false -> forall x, x ∈ map (outcomeOf c) (passedItems (prResults reply)) ->
     exists targets build, Ev (BuildScanTestConfig targets) build ∈ seg /\ tbError build = [] /\ (oAddress x, oPort x) ∈ targets) ->
  decided true seg reply r.
Proof.
  intros Hh Hf Ht. split_and!.
  - intros He Ha item Hi Hp. apply (Ht He Ha (outcomeOf c item)). apply list_elem_of_fmap. exists item.
    by split; [|apply passedItems_in].
  - intros h (x & (item & -> & [Hi Hp]%passedItems_in)%list_elem_of_fmap & E)%Hh. by exists item.
  - intros e He%probeFails_items. by apply Hf.
Qed.

Lemma runChunk_spec spec start n next0 w tr (Q : ChunkResult * Z -> Worker -> scanTrace -> Prop) :
  fStop (flags tr) = false ->
  (forall r next w' seg, Frame w w' -> calm seg -> Chunked (configPhase_ w) spec start next0 tr seg r next ->
     Q (r, next) w' (tr ++ seg)) ->
  WP (runChunk spec start n next0) w tr Q.
Proof.
  intros Hstop HQ. unfold runChunk. wstep. wstep. wstep. apply shows_stage. intros w1 s1 F1 q1. wstep.
  set (rq := MkProbe spec start n _). set (ms := probeTimeoutMs _ _). apply wpM_act.
  { simpl. by rewrite flags_quiet. }
  intros reply Hrely. cbv beta. set (call := Ev (ScanProbe rq ms) reply).
  pose proof (sortItem_fold (sconfig (scan_ w)) (prResults reply) [] noChunk) as Hsort.
  destruct (fold_left _ _ _) as [cands r0]. destruct Hsort as (Ec & Ef & Eh & Er & Ea & Ee). simpl in Ec, Ef, Eh, Er, Ea, Ee.
  wstep. wstep. wstep. wstep. destruct F1 as [v ->]. cbn [scan_ configPhase_ set_field set_live_].
  set (rescan := rescanning (scan_ w)). set (w1 := w <| live_ := v |>).
  assert (Hs1 : calm (s1 ++ [call])) by (apply calm_app; [by apply calm_quiet|by apply calm_one]).
  assert (Hcall : call ∈ s1 ++ [call]) by (apply elem_of_app; right; by left).
  assert (Hframe : Frame w w1) by (by exists v).
  assert (Hrep0 : forall r, replaced r = [] -> repOk r) by (intros r E e; rewrite E; by intros ?%elem_of_nil).
  destruct (negb (prOk reply) || negb (isNull (prError reply))) eqn:Eok.
  - set (r1 := if configPhase_ w then _ else _). cbv zeta.
    assert (Hr1 : repOk r1 /\ failures r1 = [] /\ caborted r1 = false).
    { unfold r1. destruct (configPhase_ w); [by split_and!; [apply Hrep0; simpl; rewrite Er| |simpl; rewrite Ea]|].
      destruct (addProbeHits_facts rescan cands ((r0 <| failures := [] |>) <| localFailures := [] |>)) as (G1 & G2 & G3 & G4 & G5).
      rewrite G2, G3. simpl. rewrite Ea. split_and!; [|done|done]. apply G5, Hrep0. simpl. by rewrite Er. }
    destruct Hr1 as (Hr1 & Hr2 & Hr3). wstep. apply when_stop_spec. wstep. wstep. destruct x.
    + wstep. rewrite <- !app_assoc. apply HQ; [done| |].
      * rewrite app_assoc. apply calm_app; [done|]. apply calm_app; [apply set_stop_calm|by apply calm_one].
      * assert (Hst : fStop (flags (tr ++ s1 ++ [call] ++ (if scanWorkerIsStopped (if prOk reply then prError reply else prCoreError reply)
          then [Ev SetStop ()] else []) ++ [Ev ReadStop true])) = true) by (rewrite !app_assoc; apply stop_after).
        split; simpl.
        -- rewrite Hr2. by intros e ?%elem_of_nil.
        -- exact Hr1.
        -- intros _. by right.
        -- left. split_and!; [done|done|]. by intros _.
    + wstep. rewrite <- !app_assoc. apply HQ; [done| |].
      * rewrite app_assoc. apply calm_app; [done|]. apply calm_app; [apply set_stop_calm|by apply calm_one].
      * split; simpl.
        -- rewrite Hr2. by intros e ?%elem_of_nil.
        -- exact Hr1.
        -- rewrite Hr3. done.
        -- left. split_and!; [done|done|]. intros E. exfalso. revert E. destruct (isNull (if prOk reply then _ else _)) eqn:En; [done|].
           intros E. rewrite E in En. done.
  - apply orb_false_iff in Eok as [Eok Eerr]. apply negb_false_iff in Eok, Eerr. unfold isNull in Eerr. bool_to_prop.
    set (r1 := r0 <| caborted := prAborted reply |>). cbv zeta.
    assert (Hfail : forall seg, s1 ++ [call] ⊆ seg -> forall e, e ∈ failures r0 -> failedIn seg e /\ failureOf spec e).
    { intros seg Hi e He. rewrite Ef in He. split.
      - left. exists rq, ms, reply. split_and!; [by apply Hi|done|done|]. by apply probeFails_items.
      - apply list_elem_of_fmap in He as (item & -> & Hit). apply (item_failure rq reply); [exact Hrely|].
        by apply failedItems_in. }
    assert (Habort : forall seg, s1 ++ [call] ⊆ seg -> prAborted reply = true -> stopOr (cutShort seg) tr seg).
    { intros seg Hi Ha. left. left. exists rq, ms, reply. by split; [apply Hi|]. }
    destruct (configPhase_ w) eqn:Ecp; cbn [negb].
    + destruct (bool_decide (cands = [])) eqn:En; [|].
      * wstep. rewrite <- app_assoc. apply HQ; [done|done|]. bool_to_prop. split; simpl.
        -- apply Hfail. done. -- by apply Hrep0. -- by apply Habort.
        -- right. exists s1, rq, ms, reply, []. split_and!; try done.
           apply (decided_config (sconfig (scan_ w))); rewrite <- ?Ec; simpl; [by rewrite Eh; intros h ?%elem_of_nil|by rewrite Ef|].
           rewrite En. by intros _ _ x ?%elem_of_nil.
      * assert (Hgo : forall sb, let seg := s1 ++ call :: sb in calm seg -> s1 ++ [call] ⊆ seg ->
          prAborted reply = true \/ fStop (flags (tr ++ seg)) = true ->
          Q (r1 <| caborted := true |>, Z.max start (prNextCursor reply)) w1 (tr ++ seg)).
        { intros sb seg Hc Hi Hor. apply HQ; [done|done|]. split; simpl.
          - by apply Hfail. - by apply Hrep0.
          - intros _. destruct Hor as [Ha|Hs]; [by apply Habort|by right].
          - right. exists s1, rq, ms, reply, sb. split_and!; try done.
            apply (decided_config (sconfig (scan_ w))); simpl; [by rewrite Eh; intros h ?%elem_of_nil|by rewrite Ef|done]. }
        wstep. unfold orM. wstep. wstep. simpl (caborted r1). destruct (prAborted reply) eqn:Ea2.
        -- wstep. wstep. rewrite <- app_assoc. apply (Hgo []); [done|done|by left].
        -- wstep. destruct x.
           ++ wstep. rewrite <- !app_assoc. apply (Hgo [Ev ReadStop true]);
                [change (s1 ++ call :: ?l) with (s1 ++ [call] ++ l); rewrite app_assoc; apply calm_app; [done|by apply calm_one]| |].
              ** intros x. rewrite !elem_of_app, !elem_of_cons, elem_of_nil. tauto.
              ** right. change (s1 ++ call :: ?l) with (s1 ++ [call] ++ l). rewrite !app_assoc. apply stop_after.
           ++ wstep. apply testConfigs_spec. intros r2 error w2 s2 F2 c2 G1 G2 G3. wstep. rewrite <- !app_assoc.
              assert (Hincl : s1 ++ [call] ⊆ s1 ++ [call] ++ [Ev ReadStop false] ++ s2) by incl_tac.
              assert (Hincl2 : s2 ⊆ s1 ++ [call] ++ [Ev ReadStop false] ++ s2) by incl_tac.
              apply HQ; [exact (frame_trans _ _ _ Hframe F2)|rewrite app_assoc; apply calm_app; [done|apply calm_app; [by apply calm_one|done]]|].
              split; simpl.
              ** intros e [He|(He & c & Hc & E)]%(te_fail _ _ _ _ G1); [by apply Hfail|]. split; [by eapply failedIn_incl|].
                 rewrite Ec in Hc. apply list_elem_of_fmap in Hc as (item & -> & [Hi Hp]%passedItems_in). subst e.
                 by apply (item_failure rq reply).
              ** apply (te_rep _ _ _ _ G1). by apply Hrep0.
              ** unfold stopOr in *. rewrite <- !app_assoc in G2. simpl app in G2.
                 intros [[Ha|Hcut]|Hs]%G2; [simpl in Ha; congruence|left|by right].
                 eapply cutShort_incl; [exact Hincl2|done].
              ** right. exists s1, rq, ms, reply, ([Ev ReadStop false] ++ s2). split_and!; try done.
                 apply (decided_config (sconfig (scan_ w))); rewrite <- ?Ec; simpl.
                 --- intros h [Hh|Hh]%(te_from _ _ _ _ G1); [|done]. simpl in Hh. rewrite Eh in Hh. by apply elem_of_nil in Hh.
                 --- intros e He. apply (te_keep _ _ _ _ G1). simpl. by rewrite Ef.
                 --- intros He Ha x Hx. destruct (G3 He Ha x Hx) as (targets & build & Hb & ?). exists targets, build.
                     split; [by right|done].
    + wstep. rewrite <- app_assoc. apply HQ; [done|done|]. rewrite Ec.
      destruct (addProbeHits_facts rescan (map (outcomeOf (sconfig (scan_ w))) (passedItems (prResults reply))) r1) as (G1 & G2 & G3 & G4 & G5).
      split.
      * rewrite G2. by apply Hfail.
      * apply G5. by apply Hrep0.
      * rewrite G3. by apply Habort.
      * right. exists s1, rq, ms, reply, []. split_and!; try done. apply decided_probe; [done|]. simpl. by rewrite Ef.
Qed.
End Probe.

