(* ===== verification/ScanLoop.v ===== *)
(** * ScanLoop: the loop over the chunks of a pass

    Specifications, against the contract of ScanRules, of what follows a probed
    chunk in ScanWorker: the repeated tests of a rescan, the network check, the
    writes, the cursor, and the loop itself. *)

From S2P Require Import Prelude Text IpAddress ScanConfig Program ScanWorker ScanRules ScanChunk.

Section Confirm.
Context `{T : QtText} (scan0 : IpScan).
Implicit Types (w : Worker) (tr seg : scanTrace) (r : ChunkResult).
Abbreviation WP := (wpM scan0).

Lemma waitRetry_spec n w tr (Q : unit -> Worker -> scanTrace -> Prop) :
  (forall seg, calm seg -> Q tt w (tr ++ seg)) -> WP (waitRetry n) w tr Q.
Proof.
  revert tr. induction n as [|n IH]; intros tr HQ; cbn [waitRetry].
  - wstep. rewrite <- (app_nil_r tr). by apply HQ.
  - wstep. wstep. destruct x.
    + wstep. apply HQ. by apply calm_one.
    + wstep. wstep. apply IH. intros seg Hs. rewrite <- !app_assoc. apply HQ.
      apply calm_app; [by apply calm_one|]. apply calm_app; [by apply calm_one|done].
Qed.

Lemma hostSpec_rescan es : (forall e, e ∈ es -> IsHostCidr (cidr e) = true) -> hostSpec (rescanSpec es).
Proof. intros H. split_and!; [done|done|]. intros a p (e & [= -> ->] & He)%list_elem_of_fmap. by apply H. Qed.

(** A failure of a retry is one of the entries tried again. *)
Lemma retried_failure es e :
  (forall e, e ∈ es -> IsHostCidr (cidr e) = true /\ latencyMs e = 0) -> failureOf (rescanSpec es) e -> e ∈ es.
Proof.
  intros Hes (_ & Hl & Hin). specialize (Hin (hostSpec_rescan es (fun e He => proj1 (Hes e He)))).
  apply list_elem_of_fmap in Hin as (e' & [= Ec Ep] & He'). destruct (Hes e' He') as [_ Hl'].
  destruct e, e'; simpl in *; by subst.
Qed.

(** Failures that failed [n] tests in a row, addresses without a latency. *)
Definition failing n seg r : Prop :=
  forall e, e ∈ failures r -> failedRun n seg e /\ IsHostCidr (cidr e) = true /\ latencyMs e = 0.

Record Confirmed (n : nat) tr seg0 seg r (chunkStart next : Z) r' (next' : Z) : Prop := MkConfirmed {
  cf_fail : failing n (seg0 ++ seg) r';
  cf_rep : repOk r';
  cf_hits h : h ∈ hits r -> h ∈ hits r';
  cf_err : cerror r' = [];
  cf_abort : caborted r' = true -> fStop (flags (tr ++ seg)) = true /\ next' = chunkStart;
  cf_next : caborted r' = false -> next' = next }.

Lemma failing_none n seg r : failures r = [] -> failing n seg r.
Proof. intros E e. rewrite E. by intros ?%elem_of_nil. Qed.

Lemma confirmRounds_spec rounds n seg0 r chunkStart next w tr (Q : ChunkResult * Z -> Worker -> scanTrace -> Prop) :
  failing n seg0 r -> repOk r -> cerror r = [] -> caborted r = false ->
  (forall r' next' w' seg, Frame w w' -> calm seg -> Confirmed (n + rounds) tr seg0 seg r chunkStart next r' next' ->
     Q (r', next') w' (tr ++ seg)) ->
  WP (confirmRounds rounds r chunkStart next) w tr Q.
Proof.
  revert n seg0 r w tr. induction rounds as [|rounds IH]; intros n seg0 r w tr Hf Hr He Ha HQ; cbn [confirmRounds].
  { wstep. rewrite <- (app_nil_r tr). apply HQ; [apply frame_refl|done|]. rewrite Nat.add_0_r. split; auto.
    - by rewrite app_nil_r. - by rewrite Ha. }
  destruct (bool_decide (failures r = [])) eqn:En.
  { bool_to_prop. wstep. rewrite <- (app_nil_r tr). apply HQ; [apply frame_refl|done|]. split; auto.
    - by apply failing_none. - by rewrite Ha. }
  wstep. apply waitRetry_spec. intros s1 c1. wstep. wstep. destruct x.
  { wstep. rewrite <- app_assoc. apply HQ; [apply frame_refl|apply calm_app; [done|by apply calm_one]|]. split; simpl; auto.
    - by apply failing_none. - intros _. split; [|done]. rewrite app_assoc. apply stop_after. - done. }
  wstep. apply shows_push. intros w2 s2 F2 q2. wstep. apply runChunk_spec.
  { rewrite flags_quiet by done. rewrite flags_snoc. simpl. rewrite orb_false_r.
    by apply (stop_read (tr ++ s1) false). }
  intros retry nx w3 s3 F3 c3 Hck. cbv beta. set (seg := s1 ++ [Ev ReadStop false] ++ s2 ++ s3).
  assert (Etr : (((tr ++ s1) ++ [Ev ReadStop false]) ++ s2) ++ s3 = tr ++ seg) by (unfold seg; by rewrite <- !app_assoc).
  assert (Hcalm : calm seg).
  { apply calm_app; [done|]. apply calm_app; [by apply calm_one|]. apply calm_app; [by apply calm_quiet|done]. }
  assert (Hframe : Frame w w3) by exact (frame_trans _ _ _ F2 F3). rewrite Etr.
  destruct (negb (isNull (cerror retry)) || caborted retry) eqn:Eb.
  - wstep. wstep. destruct x; wstep; rewrite <- app_assoc; apply HQ;
      try first [done|(apply calm_app; [done|by apply calm_one])]; split; simpl; auto; try (by apply failing_none).
    + intros _. split; [|done]. rewrite app_assoc. apply stop_after.
    + done.
    + by rewrite Ha.
  - apply orb_false_iff in Eb as [Eb Eab]. apply negb_false_iff in Eb. unfold isNull in Eb. bool_to_prop.
    apply (IH (S n) (seg0 ++ seg)).
    + intros e Hin. simpl in Hin. destruct (ck_fail _ _ _ _ _ _ _ _ Hck e Hin) as [Hfi Hfo].
      assert (Hold : e ∈ failures r).
      { apply retried_failure; [|done]. intros x Hx. destruct (Hf x Hx) as (_ & H1 & H2). done. }
      destruct (Hf e Hold) as (H1 & H2 & H3). split_and!; [|done|done]. apply failedRun_more; [done|].
      eapply failedIn_incl; [|exact Hfi]. unfold seg. incl_tac.
    + intros e [Hin|Hin]%elem_of_app; simpl.
      * destruct (Hr e Hin) as (h & Hh & Hp). exists h. rewrite elem_of_app. auto.
      * destruct (ck_rep _ _ _ _ _ _ _ _ Hck e Hin) as (h & Hh & Hp). exists h. rewrite elem_of_app. auto.
    + done.
    + done.
    + intros r' next' w' s4 F4 c4 Hc. rewrite <- app_assoc. apply HQ; [exact (frame_trans _ _ _ Hframe F4)|by apply calm_app|].
      destruct Hc as [K1 K2 K3 K4 K5 K6]. split; auto.
      * rewrite app_assoc, <- plus_n_Sm. exact K1.
      * intros h Hh. apply K3. simpl. apply elem_of_app. by left.
      * intros Hx. rewrite app_assoc. by apply K5.
Qed.

Lemma confirmFailures_spec seg0 r chunkStart next w tr (Q : ChunkResult * Z -> Worker -> scanTrace -> Prop) :
  failing 1 seg0 r -> repOk r -> cerror r = [] -> caborted r = false ->
  (forall r' next' w' seg, Frame w w' -> calm seg ->
     Confirmed (S kScanWorkerRescanRetries) tr seg0 seg r chunkStart next r' next' -> Q (r', next') w' (tr ++ seg)) ->
  WP (confirmFailures r chunkStart next) w tr Q.
Proof.
  intros Hf Hr He Ha HQ. unfold confirmFailures. wstep. eapply (confirmRounds_spec _ 1 seg0); [done..|].
  intros r' next' w1 s1 F1 c1 Hc. wstep. apply (shows_when _ _ _ (shows_push _)). intros w2 s2 F2 q2. wstep.
  rewrite <- app_assoc. apply HQ; [exact (frame_trans _ _ _ F1 F2)|apply calm_app; [done|by apply calm_quiet]|].
  destruct Hc as [K1 K2 K3 K4 K5 K6]. split; auto.
  - intros e Hin. destruct (K1 e Hin) as (K7 & K8). split; [|done]. destruct K7 as (segs & Es & El & Hfs).
    (* the last piece is extended by what follows *)
    destruct segs as [|x segs _] using rev_ind; [simpl in El; lia|]. apply Forall_app in Hfs as [Hf1 Hf2].
    apply Forall_cons in Hf2 as [Hf2 _]. exists (segs ++ [x ++ s2]). rewrite app_assoc, Es, !concat_app. simpl. rewrite !app_nil_r, <- app_assoc.
    split_and!; [done|by rewrite !length_app in *|]. apply Forall_app. split; [done|]. apply Forall_singleton.
    eapply failedIn_incl; [apply incl_app_l|exact Hf2].
  - intros Hx. destruct (K5 Hx) as [K7 K8]. split; [|done]. rewrite app_assoc. by apply stop_mono.
Qed.
End Confirm.

(** ** Evidence of a pass is kept by longer traces *)

Section Monotone.
Context `{T : QtText} (scan0 : IpScan).
Implicit Types (tr seg : scanTrace).

Lemma storedHit_app tr seg item : storedHit tr item -> storedHit (tr ++ seg) item.
Proof. intros (a & b & c & d & H & H'). exists a, b, c, d. split; [apply elem_of_app; by left|done]. Qed.

Lemma settled_app tr seg reply : settled scan0 tr reply -> settled scan0 (tr ++ seg) reply.
Proof.
  intros H item Hi Hp. specialize (H item Hi Hp). destruct (configPhaseOf scan0).
  - by eapply handedToTest_incl; [apply incl_app_l|].
  - by apply storedHit_app.
Qed.

Lemma provenDown_app tr seg m reply : provenDown tr m reply -> provenDown (tr ++ seg) m reply.
Proof.
  intros H Hm e He. destruct (H Hm e He) as [(item & id & es & n & h & H1 & H2 & H3 & H4)|?].
  - left. exists item, id, es, n, h. split_and!; try apply H4; [done|done|]. apply elem_of_app. by left.
  - right. apply elem_of_app. by left.
Qed.

Lemma coveredBy_app tr seg m spec p : coveredBy scan0 tr m spec p -> coveredBy scan0 (tr ++ seg) m spec p.
Proof.
  intros (tr1 & rq & ms & rep & tr2 & -> & H1 & H2 & H3 & H4 & H5 & H6 & H7). exists tr1, rq, ms, rep, (tr2 ++ seg).
  split_and!; try (done || lia); [by rewrite <- app_assoc|by apply settled_app|by apply provenDown_app].
Qed.

Lemma passSpec_app tr seg spec : passSpec tr spec -> passSpec (tr ++ seg) spec.
Proof.
  intros [(a & b & H)|(a & b & H & E)]; [left|right].
  - exists a, b. apply elem_of_app. by left.
  - exists a, b. split; [apply elem_of_app; by left|done].
Qed.

Lemma covers_app tr seg m c : calm seg -> covers scan0 tr m c -> covers scan0 (tr ++ seg) m c.
Proof.
  unfold covers. intros Hs H. rewrite calm_start by done. destruct H as [H|(spec & Hp & H)]; [by left|right].
  exists spec. split; [by apply passSpec_app|]. intros p Hr. by apply coveredBy_app, H.
Qed.

Lemma removable_app tr seg e : removable tr e -> removable (tr ++ seg) e.
Proof.
  intros [(a & b & c & d & H & H')|[(pre & segs & post & E & H1 & H2 & H3)|(pre & s & post & E & H1 & H2 & H3)]].
  - left. exists a, b, c, d. split; [apply elem_of_app; by left|done].
  - right. left. exists pre, segs, (post ++ seg). rewrite E, <- !app_assoc. split_and!; [done..|apply elem_of_app; by left].
  - right. right. exists pre, s, (post ++ seg). rewrite E, <- !app_assoc. split_and!; [done..|apply elem_of_app; by left].
Qed.
End Monotone.

(** ** The network check *)

Section Verify.
Context `{T : QtText} (scan0 : IpScan).
Implicit Types (w : Worker) (tr seg : scanTrace) (r : ChunkResult) (v : Verdict).
Abbreviation WP := (wpM scan0).

Lemma hasFamily_spec es (v6 : bool) : scanWorkerHasFamily es v6 = true <-> exists e, e ∈ es /\ scanWorkerIsIpv6 e = v6.
Proof.
  unfold scanWorkerHasFamily. rewrite existsb_exists. split; intros (e & He & E); exists e.
  - split; [by apply list_elem_of_In|by apply Bool.eqb_prop].
  - split; [by apply list_elem_of_In|]. by rewrite E, eqb_reflx.
Qed.

Definition upFor v (e : IpListEntry) : bool := if scanWorkerIsIpv6 e then ipv6Up v else ipv4Up v.

(** The family of [e] was found reachable, or something of it passed. *)
Definition familyProven seg r (e : IpListEntry) : Prop :=
  (exists h, h ∈ hits r /\ scanWorkerIsIpv6 h = scanWorkerIsIpv6 e) \/
  Ev (ScanCheckNetwork (scanWorkerIsIpv6 e)) (true, true) ∈ seg.

Record Verified rescan r tr seg v : Prop := MkVerified {
  vf_stop : guarded rescan r = true -> fStop (flags tr) = true -> unverified v = true;
  vf_up e : upFor v e = true -> Ev (ScanCheckNetwork (scanWorkerIsIpv6 e)) (true, true) ∈ seg;
  vf_initial e : rescan = false -> cerror r = [] -> unverified v = false -> e ∈ failures r -> familyProven seg r e }.

Lemma family_of es e (v6 : bool) : e ∈ es -> scanWorkerIsIpv6 e = v6 -> scanWorkerHasFamily es v6 = true.
Proof. intros He E. apply hasFamily_spec. by exists e. Qed.

Lemma checkNetwork_spec rescan r w tr (Q : Verdict -> Worker -> scanTrace -> Prop) :
  fStop (flags tr) = false ->
  (forall v w' seg, Frame w w' -> quiet seg -> Verified rescan r tr seg v -> Q v w' (tr ++ seg)) ->
  WP (checkNetwork rescan r) w tr Q.
Proof.
  intros Hs HQ. unfold checkNetwork. cbv zeta. wstep. apply networkUp_spec. intros up4 w1 s1 F1 q1 U4. wstep.
  set (blocks4 := negb rescan && negb up4 && _).
  enough (Hgo : forall up6 w2 s2, Frame w w2 -> quiet s2 -> (up6 = true -> Ev (ScanCheckNetwork true) (true, true) ∈ s2) ->
    WP (let ipv6Blocks := negb rescan && negb up6 && (scanWorkerHasFamily (failures r) true && negb (scanWorkerHasFamily (hits r) true)) in
      if (negb up4 && negb up6) || blocks4 || ipv6Blocks then
        ret (MkVerdict true up4 up6
          (if up4 && ipv6Blocks then
             u "IPv6 is unreachable from this network; scan paused (turn off IPv6 scanning to go on)"
           else u "Network appears to be down; scan paused"))
      else
        do! when (rescan && negb up4 && scanWorkerHasFamily (failures r) false) pushLog;
        do! when (rescan && negb up6 && scanWorkerHasFamily (failures r) true) pushLog;
        ret (MkVerdict false up4 up6 [])) w2 (tr ++ s1 ++ s2) Q).
  { destruct (negb blocks4 && _).
    - apply networkUp_spec. intros up6 w2 s2 F2 q2 U6. rewrite <- app_assoc.
      apply Hgo; [exact (frame_trans _ _ _ F1 F2)|done|done].
    - wstep. rewrite <- (app_nil_r s1). by apply Hgo. }
  intros up6 w2 s2 F2 q2 U6. cbv zeta. set (blocks6 := negb rescan && negb up6 && _).
  assert (Hup : forall seg u, s1 ++ s2 ⊆ seg -> forall e, upFor (MkVerdict u up4 up6 []) e = true ->
    Ev (ScanCheckNetwork (scanWorkerIsIpv6 e)) (true, true) ∈ seg).
  { intros seg x Hi e. unfold upFor. simpl. destruct (scanWorkerIsIpv6 e); intros E; apply Hi, elem_of_app; [right; by apply U6|left; by apply U4]. }
  assert (Hvf : forall seg x err, s1 ++ s2 ⊆ seg ->
    (x = false -> (negb up4 && negb up6) || blocks4 || blocks6 = false) -> Verified rescan r tr seg (MkVerdict x up4 up6 err)).
  { intros seg x err Hi Hx. split; simpl.
    - intros _ E. by rewrite E in Hs.
    - intros e. apply (Hup seg x Hi e).
    - intros e -> He Ex Hin. specialize (Hx Ex). apply orb_false_iff in Hx as [Hx H6]. apply orb_false_iff in Hx as [_ H4].
      unfold blocks4, blocks6 in H4, H6. simpl in H4, H6. unfold familyProven.
      destruct (scanWorkerIsIpv6 e) eqn:Ef.
      + destruct up6; [right; apply Hi, elem_of_app; right; by apply U6|]. simpl in H6.
        rewrite (family_of _ e true Hin Ef) in H6. simpl in H6. apply negb_false_iff, hasFamily_spec in H6 as (h & Hh & Eh).
        left. exists h. by rewrite Eh.
      + destruct up4; [right; apply Hi, elem_of_app; left; by apply U4|]. simpl in H4.
        by rewrite (family_of _ e false Hin Ef) in H4. }
  destruct (_ || blocks4 || blocks6) eqn:Eb.
  - wstep. apply HQ; [done|by apply quiet_app|]. by apply Hvf.
  - wstep. apply (shows_when _ _ _ (shows_push _)). intros w3 s3 F3 q3. wstep.
    apply (shows_when _ _ _ (shows_push _)). intros w4 s4 F4 q4. wstep. rewrite <- !app_assoc.
    apply HQ; [exact (frame_trans _ _ _ F2 (frame_trans _ _ _ F3 F4))|repeat apply quiet_app; done|].
    apply Hvf; [incl_tac|done].
Qed.

Lemma verifyChunk_spec rescan r w tr (Q : Verdict -> Worker -> scanTrace -> Prop) :
  (forall v w' seg, Frame w w' -> calm seg -> Verified rescan r tr seg v -> Q v w' (tr ++ seg)) ->
  WP (verifyChunk rescan r) w tr Q.
Proof.
  intros HQ. unfold verifyChunk. destruct (guarded rescan r) eqn:Eg.
  - wstep. wstep. destruct x.
    + wstep. apply HQ; [apply frame_refl|by apply calm_one|]. split; [done| |done].
      intros e. unfold upFor. simpl. by destruct (scanWorkerIsIpv6 e).
    + apply checkNetwork_spec; [rewrite flags_snoc; simpl; rewrite orb_false_r; by apply (stop_read tr false)|].
      intros v w' seg F q Hv. rewrite <- app_assoc. apply HQ; [done|apply calm_app; [by apply calm_one|by apply calm_quiet]|].
      destruct Hv as [_ V2 V3]. split.
      * intros _ Hst. pose proof (stop_read tr false H eq_refl) as E. congruence.
      * intros e He. apply elem_of_app. right. by apply V2.
      * intros e H1 H2 H3 H4. destruct (V3 e H1 H2 H3 H4) as [?|?]; [by left|right]. apply elem_of_app. by right.
  - wstep. rewrite <- (app_nil_r tr). apply HQ; [apply frame_refl|done|]. split; [by rewrite Eg| |].
    + intros e. unfold upFor. simpl. by destruct (scanWorkerIsIpv6 e).
    + intros e -> He _ Hin. left. unfold guarded in Eg. rewrite He in Eg. simpl in Eg.
      destruct (bool_decide (failures r = [])) eqn:En; [bool_to_prop; rewrite En in Hin; by apply elem_of_nil in Hin|].
      simpl in Eg. apply orb_false_iff in Eg as [_ Eg]. unfold familyUnproven in Eg. apply orb_false_iff in Eg as [E4 E6].
      apply andb_false_iff in E4, E6. destruct (scanWorkerIsIpv6 e) eqn:Ef.
      * destruct E6 as [E6|E6]; [by rewrite (family_of _ e true Hin Ef) in E6|]. apply negb_false_iff, hasFamily_spec in E6 as (h & Hh & Eh).
        exists h. by rewrite Eh.
      * destruct E4 as [E4|E4]; [by rewrite (family_of _ e false Hin Ef) in E4|]. apply negb_false_iff, hasFamily_spec in E4 as (h & Hh & Eh).
        exists h. by rewrite Eh.
Qed.
End Verify.

(** ** The writes of a chunk *)

Section Store.
Context `{T : QtText} (scan0 : IpScan).
Implicit Types (w : Worker) (tr seg : scanTrace) (r : ChunkResult).
Abbreviation WP := (wpM scan0).

(** Only the counts of the row changed. *)
Definition Counted w w' : Prop := exists f m, w' = w <| scan_ := ((scan_ w) <| removed := m |>) <| found := f |> |>.

Lemma counted_refl w : Counted w w.
Proof. exists (found (scan_ w)), (removed (scan_ w)). by destruct w as [? ? ? ? [] ? ? ? ?]. Qed.

Lemma counted_trans a b c : Counted a b -> Counted b c -> Counted a c.
Proof. intros (f & m & ->) (f' & m' & ->). by exists f', m'. Qed.

(** Entries may be removed when every one of them is [removable]. *)
Lemma remove_spec id es w tr (Q : Z -> Worker -> scanTrace -> Prop) :
  writable tr -> (forall e, e ∈ es -> removable tr e) ->
  (forall n, Q n w (tr ++ [Ev (RemoveEntries id es) n])) -> WP (act (RemoveEntries id es)) w tr Q.
Proof. intros Hw He HQ. wstep; [split; [done|by apply Forall_forall]|apply HQ]. Qed.

Lemma writable_more tr seg : steady seg -> (forall f, fWritable (fold_left flagStep seg f) = fWritable f) -> writable tr -> writable (tr ++ seg).
Proof. intros Hs Hp [H1 H2]. unfold writable. rewrite !flags_app, Hp. split; [done|]. by rewrite (proj1 (proj2 (Hs _))). Qed.

(** The hits: upserted, and then the ports they replace removed. *)
Lemma storeHits_spec resultId rescan r w tr (Q : bool -> Worker -> scanTrace -> Prop) :
  writable tr -> repOk r ->
  (forall changed seg, quiet seg -> hits r = [] \/ (exists n, Ev (UpsertEntries resultId (hits r)) n ∈ seg) ->
     Q changed w (tr ++ seg)) ->
  WP (if bool_decide (hits r = []) then ret false
      else
        do! act (UpsertEntries resultId (hits r));
        do! when (rescan && negb (bool_decide (replaced r = [])))
              (do! act (RemoveEntries resultId (replaced r)); ret tt);
        ret true) w tr Q.
Proof.
  intros Hw Hr HQ. destruct (bool_decide (hits r = [])) eqn:Eh.
  - bool_to_prop. wstep. rewrite <- (app_nil_r tr). apply HQ; [done|by left].
  - wstep. wstep; [done|]. wstep. set (seg := [Ev (UpsertEntries resultId (hits r)) x]).
    assert (Hin : forall s, exists n, Ev (UpsertEntries resultId (hits r)) n ∈ seg ++ s) by (intros s; exists x; by left).
    apply wpM_when; intros _.
    + wstep. apply remove_spec.
      * by apply writable_more.
      * intros e He. destruct (Hr e He) as (h & Hh & Hp). left. exists resultId, (hits r), x, h.
        split_and!; try apply Hp; [|done]. apply elem_of_app. right. by left.
      * intros n. wstep. wstep. rewrite <- app_assoc. apply HQ; [done|right; apply Hin].
    + wstep. apply HQ; [done|right]. rewrite <- (app_nil_r seg). apply Hin.
Qed.

(** The dead entries of a rescan: removed, and counted. *)
Lemma storeDead_spec resultId rescan r v changed w tr (Q : bool -> Worker -> scanTrace -> Prop) :
  writable tr ->
  (rescan = true -> guarded rescan r = true -> unverified v = false ->
     forall e, e ∈ failures r -> upFor v e = true -> removable tr e) ->
  (forall changed w' seg, Counted w w' -> quiet seg -> Q changed w' (tr ++ seg)) ->
  WP (if rescan && guarded rescan r && negb (unverified v) then
        let dead := filter (fun e => (if scanWorkerIsIpv6 e then ipv6Up v else ipv4Up v) = true) (failures r) in
        let! n := (if bool_decide (dead = []) then ret 0 else act (RemoveEntries resultId dead)) in
        if 0 <? n then do! modifyScan (fun s => s <| removed := removed s + n |>); ret true else ret changed
      else ret changed) w tr Q.
Proof.
  intros Hw Hrem HQ.
  assert (Hsame : forall c, Q c w tr) by (intros c; rewrite <- (app_nil_r tr); by apply HQ; [apply counted_refl|]).
  destruct (_ && negb (unverified v)) eqn:E; [|wstep; apply Hsame].
  apply andb_true_iff in E as [[-> Eg]%andb_true_iff Eu%negb_true_iff]. cbv zeta. wstep.
  assert (Hend : forall n seg, quiet seg -> WP (if 0 <? n then do! modifyScan (fun s => s <| removed := removed s + n |>); ret true
     else ret changed) w (tr ++ seg) Q).
  { intros n seg Hs. destruct (0 <? n).
    - wstep. wstep. wstep. apply HQ; [|done]. exists (found (scan_ w)), (removed (scan_ w) + n). by destruct w as [? ? ? ? [] ? ? ? ?].
    - wstep. apply HQ; [apply counted_refl|done]. }
  destruct (bool_decide _).
  - wstep. specialize (Hend 0 []). rewrite app_nil_r in Hend. by apply Hend.
  - apply remove_spec; [done| |intros n; by apply Hend].
    intros e [Hu He]%list_elem_of_filter. by apply Hrem.
Qed.

Lemma storeChunk_spec resultId rescan r v w tr (Q : bool -> Worker -> scanTrace -> Prop) :
  fFinished (flags tr) = false -> repOk r ->
  (rescan = true -> guarded rescan r = true -> unverified v = false ->
     forall e, e ∈ failures r -> upFor v e = true -> removable tr e) ->
  (forall changed w' seg, Counted w w' -> steady seg ->
     fOff (flags (tr ++ seg)) = true \/ resultId < 0 \/ hits r = [] \/ (exists n, Ev (UpsertEntries resultId (hits r)) n ∈ seg) ->
     Q changed w' (tr ++ seg)) ->
  WP (storeChunk resultId rescan r v) w tr Q.
Proof.
  intros Hf Hr Hrem HQ. unfold storeChunk. wstep. wstep.
  assert (H1 : steady [Ev ReadPersist x]) by by intros [].
  destruct x; cbn [negb andb].
  - destruct (Z.leb_spec 0 resultId) as [Hid|Hid]; cbn [negb].
    + wstep. apply storeHits_spec; [unfold writable; by rewrite flags_snoc|done|]. intros c1 s1 q1 Hst. wstep.
      apply storeDead_spec.
      * apply writable_more; [by apply steady_quiet|intros f; by rewrite q1|]. unfold writable. by rewrite flags_snoc.
      * intros E1 E2 E3 e E4 E5. apply removable_app, removable_app. by apply Hrem.
      * intros c2 w2 s2 Hc q2. wstep. wstep. wstep. wstep. wstep. rewrite <- !app_assoc. apply HQ.
        -- apply (counted_trans _ _ _ Hc). exists x, (removed (scan_ w2)). by destruct w2 as [? ? ? ? [] ? ? ? ?].
        -- apply steady_app; [done|]. apply steady_app; [by apply steady_quiet|]. apply steady_app; [by apply steady_quiet|by intros []].
        -- right. right. destruct Hst as [?|(n & ?)]; [by left|right]. exists n. rewrite !elem_of_app. tauto.
    + wstep. apply HQ; [apply counted_refl|done|]. by right; left.
  - wstep. apply HQ; [apply counted_refl|done|]. left. rewrite flags_snoc. simpl. apply orb_true_r.
Qed.

Lemma saveProgress_spec w tr (Q : unit -> Worker -> scanTrace -> Prop) :
  fFinished (flags tr) = false ->
  (fOff (flags tr) = true \/ forall seg, steady seg -> covers scan0 (tr ++ seg) (mode (scan_ w)) (ActiveCursor (scan_ w))) ->
  (forall seg, steady seg -> Q tt w (tr ++ seg)) -> WP saveProgress w tr Q.
Proof.
  intros Hf Hc HQ. unfold saveProgress. wstep. wstep. destruct x; cbn [negb].
  - destruct Hc as [Ho|Hc]; [by specialize (H Ho)|]. wstep. wstep. wstep.
    + split; [unfold writable; by rewrite flags_snoc|]. apply Hc. by intros [].
    + rewrite <- app_assoc. apply HQ. by intros [].
  - wstep. apply HQ. by intros [].
Qed.
End Store.

(** ** One round, and the loop *)

Section Loop.
Context `{T : QtText} (scan0 : IpScan).
Implicit Types (w : Worker) (tr seg : scanTrace) (r : ChunkResult).
Abbreviation WP := (wpM scan0).

(** The pass has nothing left to do. *)
Definition ended w : Prop :=
  ActiveTotal (scan_ w) <= ActiveCursor (scan_ w) \/ enoughFound (rescanning (scan_ w)) (scan_ w) = true.

(** What was done of the active pass. *)
Definition doneBelow tr w : Prop :=
  passSpec tr (spec_ w) /\
  forall p, startOf scan0 tr (mode (scan_ w)) <= p < ActiveCursor (scan_ w) -> coveredBy scan0 tr (mode (scan_ w)) (spec_ w) p.

Definition otherMode (m : Mode) : Mode := match m with Initial => RescanResult | RescanResult => Initial end.

Definition cursorOf (m : Mode) (s : IpScan) : Z := match m with Initial => cursor s | RescanResult => rescan_cursor s end.

Record LoopInv (resultId : Z) tr w : Prop := MkLoopInv {
  li_open : fFinished (flags tr) = false;
  li_phase : configPhase_ w = configPhaseOf scan0;
  li_done : fOff (flags tr) = true \/
    (0 <= resultId /\ doneBelow tr w /\ covers scan0 tr (otherMode (mode (scan_ w))) (cursorOf (otherMode (mode (scan_ w))) (scan_ w))) }.

(** What a round changes. *)
Definition Turned w w' : Prop := exists v f m c,
  w' = (w <| live_ := v |>) <| scan_ := setActiveCursor (rescanning (scan_ w)) c (((scan_ w) <| removed := m |>) <| found := f |>) |>.

Lemma active_mode (s : IpScan) : ActiveCursor s = cursorOf (mode s) s.
Proof. unfold ActiveCursor, rescanning. by destruct (mode s). Qed.

Lemma turned_scan w w' : Turned w w' ->
  mode (scan_ w') = mode (scan_ w) /\ ActiveTotal (scan_ w') = ActiveTotal (scan_ w) /\ spec_ w' = spec_ w /\
  configPhase_ w' = configPhase_ w /\ cursorOf (otherMode (mode (scan_ w))) (scan_ w') = cursorOf (otherMode (mode (scan_ w))) (scan_ w).
Proof.
  intros (v & f & m & c & ->). unfold ActiveTotal, setActiveCursor, rescanning. simpl.
  destruct (bool_decide_reflect (mode (scan_ w) = RescanResult)) as [E|E]; simpl; destruct (mode (scan_ w)) eqn:Em; try done; by rewrite ?Em.
Qed.

Lemma turned_cursor w f m c :
  ActiveCursor (setActiveCursor (rescanning (scan_ w)) c (((scan_ w) <| removed := m |>) <| found := f |>)) = c /\
  mode (setActiveCursor (rescanning (scan_ w)) c (((scan_ w) <| removed := m |>) <| found := f |>)) = mode (scan_ w).
Proof.
  unfold ActiveCursor, setActiveCursor, rescanning. simpl.
  destruct (bool_decide_reflect (mode (scan_ w) = RescanResult)) as [E|E]; simpl; destruct (mode (scan_ w)); done.
Qed.

Lemma turned_refl w w' : Frame w w' -> Turned w w'.
Proof.
  intros [v ->]. exists v, (found (scan_ w)), (removed (scan_ w)), (ActiveCursor (scan_ w)).
  unfold setActiveCursor, ActiveCursor. by destruct (rescanning (scan_ w)); destruct w as [? ? ? ? [] ? ? ? ?].
Qed.

Lemma turned_trans a b c : Turned a b -> Turned b c -> Turned a c.
Proof.
  intros (v & f & m & x & ->) (v' & f' & m' & x' & ->). exists v', f', m', x'.
  unfold setActiveCursor, rescanning. destruct a as [? ? ? ? [? ? ? ? ? ? ? []] ? ? ? ?]; done.
Qed.

(** *** A chunk that was tested, verified and stored is done *)

(** What a chunk's test and the repeats of a rescan give. *)
Record ChunkDone rescan (configPhase : bool) spec start tr seg r (next : Z) : Prop := MkChunkDone {
  cd_rep : repOk r;
  cd_ge : start <= next;
  cd_dead e : rescan = true -> cerror r = [] -> e ∈ failures r ->
    (exists pre s, seg = pre ++ s /\ failedRun (S kScanWorkerRescanRetries) s e) \/ stopOr (cutShort seg /\ failedIn seg e) tr seg;
  cd_work : cerror r = [] -> (if configPhase then caborted r = false else True) -> start < next ->
    exists sa rq ms reply sb r0, seg = sa ++ Ev (ScanProbe rq ms) reply :: sb /\ rqSpec rq = spec /\ rqCursor rq = start /\
      rqOptions rq <> None /\ prOk reply = true /\ prError reply = [] /\ next = Z.max start (prNextCursor reply) /\
      decided configPhase sb reply r0 /\ cerror r0 = [] /\ (configPhase = true -> caborted r0 = false) /\
      (forall h, h ∈ hits r0 -> h ∈ hits r) /\ (rescan = false -> r0 = r) }.

Lemma decided_incl (c : bool) seg seg' reply r : seg ⊆ seg' -> decided c seg reply r -> decided c seg' reply r.
Proof.
  intros Hi [H1 H2]. split; [|done]. destruct c; [|done]. intros H3 H4 i H5 H6.
  eapply handedToTest_incl; [done|]. by apply H1.
Qed.

Lemma chunked_done rescan c spec start tr seg r next :
  (rescan = true -> cerror r = [] -> failures r <> [] -> caborted r = true) ->
  Chunked c spec start start tr seg r next -> ChunkDone rescan c spec start tr seg r next.
Proof.
  intros Hre H. pose proof (ck_done _ _ _ _ _ _ _ _ H) as Hd. split.
  - apply H.
  - destruct Hd as [(-> & _)|(? & ? & ? & ? & ? & _ & _ & _ & _ & _ & _ & -> & _)]; lia.
  - intros e Er Ee He. right.
    assert (Ha : caborted r = true) by (apply Hre; [done|done|]; intros E; rewrite E in He; by apply elem_of_nil in He).
    destruct (ck_abort _ _ _ _ _ _ _ _ H Ha) as [Hc|Hs]; [left|by right]. split; [done|]. by apply (ck_fail _ _ _ _ _ _ _ _ H).
  - intros Ee Ha Hlt. destruct Hd as [(-> & _)|(sa & rq & ms & reply & sb & H1 & H2 & H3 & H4 & H5 & H6 & H7 & H8)]; [lia|].
    exists sa, rq, ms, reply, sb, r. split_and!; try done. by intros ->.
Qed.

Lemma confirmed_done c spec start tr s1 s2 r next r' next' :
  cerror r = [] -> caborted r = false -> Chunked c spec start start tr s1 r next ->
  Confirmed (S kScanWorkerRescanRetries) (tr ++ s1) s1 s2 r start next r' next' ->
  ChunkDone true c spec start tr (s1 ++ s2) r' next'.
Proof.
  intros He Ha H Hc. pose proof (chunked_done false c spec start tr s1 r next ltac:(done) H) as D.
  destruct Hc as [K1 K2 K3 K4 K5 K6].
  assert (Hn : next' = start \/ next' = next) by (destruct (caborted r'); [left; by apply K5|right; by apply K6]).
  split; [done| | |].
  - pose proof (cd_ge _ _ _ _ _ _ _ _ D). destruct Hn; lia.
  - intros e _ _ Hin. left. exists [], (s1 ++ s2). split; [done|]. by apply K1.
  - intros _ _ Hlt. destruct Hn as [->| ->]; [lia|].
    destruct (cd_work _ _ _ _ _ _ _ _ D He) as (sa & rq & ms & reply & sb & r0 & H1 & H2 & H3 & H4 & H5 & H6 & H7 & H8 & H9 & H10 & H11 & H12); [by destruct c|done|].
    exists sa, rq, ms, reply, (sb ++ s2), r0. split_and!; try done.
    + by rewrite H1, <- app_assoc. + by eapply decided_incl; [apply incl_app_l|]. + intros h Hh. by apply K3, H11.
Qed.

(** The test of a chunk, with its repeats. *)
Lemma testChunk_spec {A} rescan spec start n (K : ChunkResult -> Z -> M A) w tr (Q : A -> Worker -> scanTrace -> Prop) :
  fStop (flags tr) = false -> rescan = rescanning (scan_ w) ->
  (forall r next w' seg, Frame w w' -> calm seg -> ChunkDone rescan (configPhase_ w) spec start tr seg r next ->
     WP (K r next) w' (tr ++ seg) Q) ->
  WP (let! '(r, next) := runChunk spec start n start in
      let! '(r, next) :=
        (if rescan && isNull (cerror r) && negb (caborted r) && negb (bool_decide (failures r = []))
         then confirmFailures r start next else ret (r, next)) in
      K r next) w tr Q.
Proof.
  intros Hs Hre HQ. wstep. apply runChunk_spec; [done|]. intros r next w1 s1 F1 c1 Hc. cbv beta iota. wstep.
  destruct (_ && negb (bool_decide (failures r = []))) eqn:E.
  - apply andb_true_iff in E as [[[Er Ee]%andb_true_iff Ea%negb_true_iff]%andb_true_iff Ef]. unfold isNull in Ee. bool_to_prop.
    apply (confirmFailures_spec _ s1).
    + intros e He. destruct (ck_fail _ _ _ _ _ _ _ _ Hc e He) as (H1 & H2 & H3 & _). split_and!; [by apply failedRun_one|done|done].
    + apply Hc.
    + done.
    + done.
    + intros r' next' w2 s2 F2 c2 Hcf. rewrite <- app_assoc. apply HQ; [exact (frame_trans _ _ _ F1 F2)|by apply calm_app|].
      rewrite Er. by eapply confirmed_done.
  - wstep. apply HQ; [done|done|]. apply chunked_done; [|done]. intros Er Ee Hf. rewrite Er in E. unfold isNull in E.
    rewrite Ee in E. simpl in E. destruct (caborted r); [done|]. rewrite bool_decide_eq_false_2 in E by done. done.
Qed.

Lemma chunk_covered m spec start tr s1 s2 s3 r next v resultId total p :
  ChunkDone (bool_decide (m = RescanResult)) (configPhaseOf scan0) spec start tr s1 r next ->
  Verified (bool_decide (m = RescanResult)) r (tr ++ s1) s2 v ->
  hits r = [] \/ (exists n, Ev (UpsertEntries resultId (hits r)) n ∈ s3) ->
  start <= p < nextCursor (configPhaseOf scan0) r v start next total ->
  coveredBy scan0 (tr ++ s1 ++ s2 ++ s3) m spec p.
Proof.
  intros D V Hst [Hp1 Hp2]. unfold nextCursor in Hp2.
  destruct (negb (isNull (cerror r)) || unverified v) eqn:E1; [lia|].
  apply orb_false_iff in E1 as [E1%negb_false_iff Eu]. unfold isNull in E1. bool_to_prop.
  assert (E2 : (if configPhaseOf scan0 then caborted r = false else True) /\ start <= p < next).
  { destruct (caborted r), (configPhaseOf scan0); split; try done; lia. }
  destruct E2 as [E2 E3].
  destruct (cd_work _ _ _ _ _ _ _ _ D E1 E2)
    as (sa & rq & ms & reply & sb & r0 & -> & H2 & H3 & H4 & H5 & H6 & H7 & (G1 & G2 & G3) & H9 & H10 & H11 & H12); [lia|].
  exists (tr ++ sa), rq, ms, reply, (sb ++ s2 ++ s3). assert (Hcp : rqCursor rq <= p < prNextCursor reply) by lia.
  assert (Hin : forall n, Ev (UpsertEntries resultId (hits r)) n ∈ s3 -> Ev (UpsertEntries resultId (hits r)) n ∈ sb ++ s2 ++ s3)
    by (intros n; rewrite !elem_of_app; tauto).
  assert (Hup : forall h, h ∈ hits r -> exists n, Ev (UpsertEntries resultId (hits r)) n ∈ sb ++ s2 ++ s3).
  { intros h Hh. destruct Hst as [E|[n Hn]]; [rewrite E in Hh; by apply elem_of_nil in Hh|]. exists n. by apply Hin. }
  split_and!; try (done || lia); [by rewrite <- !app_assoc| |].
  - intros item Hi Hpass. destruct (configPhaseOf scan0).
    + eapply handedToTest_incl; [apply incl_app_l|]. by apply G1; auto.
    + destruct (G1 item Hi Hpass) as (h & Hh & Hc). apply H11 in Hh. destruct (Hup h Hh) as [n Hn].
      by exists resultId, (hits r), n, h.
  - intros -> e He. rewrite (H12 eq_refl) in *.
    destruct (vf_initial _ _ _ _ _ V e eq_refl E1 Eu (G3 e He)) as [(h & Hh & Ef)|Hn].
    + left. destruct (G2 h Hh) as (item & Hi & Hp & Eq). destruct (Hup h Hh) as [n Hn].
      by exists item, resultId, (hits r), n, h.
    + right. rewrite !elem_of_app. tauto.
Qed.

(** A rescan's dead entries may go. *)
Lemma chunk_removable c spec start tr s1 s2 r next v e :
  ChunkDone true c spec start tr s1 r next -> Verified true r (tr ++ s1) s2 v ->
  guarded true r = true -> unverified v = false -> e ∈ failures r -> upFor v e = true ->
  removable (tr ++ s1 ++ s2) e.
Proof.
  intros D V Hg Hu He Hup. pose proof (vf_up _ _ _ _ _ V e Hup) as Hnet.
  assert (Ee : cerror r = []).
  { unfold guarded in Hg. destruct (isNull (cerror r)) eqn:E; [|done]. unfold isNull in E. by bool_to_prop. }
  destruct (cd_dead _ _ _ _ _ _ _ _ D e eq_refl Ee He) as [(pre & s & -> & segs & -> & Hl & Hf)|[[Hcut Hf]|Hs]].
  - right. left. exists (tr ++ pre), segs, s2. by rewrite <- !app_assoc.
  - right. right. exists tr, s1, s2. done.
  - exfalso. rewrite (vf_stop _ _ _ _ _ V Hg Hs) in Hu. done.
Qed.

(** The invariant after a round that moved the cursor to [c]. *)
Lemma loop_next resultId tr seg w w' c :
  LoopInv resultId tr w -> calm seg -> Turned w w' -> ActiveCursor (scan_ w') = c ->
  (fOff (flags (tr ++ seg)) = true \/ resultId < 0 \/
   forall p, ActiveCursor (scan_ w) <= p < c -> coveredBy scan0 (tr ++ seg) (mode (scan_ w)) (spec_ w) p) ->
  LoopInv resultId (tr ++ seg) w'.
Proof.
  intros [I1 I2 I3] Hs Ht Ec Hcov. destruct (turned_scan _ _ Ht) as (T1 & T2 & T3 & T4 & T5). split.
  - by rewrite calm_finished.
  - by rewrite T4.
  - destruct I3 as [Ho|(Hid & [Hp Hd] & Ho)]; [left; by apply off_mono|]. destruct Hcov as [?|[?|Hcov]]; [by left|lia|right].
    rewrite T1, T5. split; [done|]. split; [|by apply covers_app]. split; rewrite ?T3.
    + by apply passSpec_app.
    + rewrite T1, Ec, calm_start by done. intros p [Hp1 Hp2]. destruct (Z.lt_ge_cases p (ActiveCursor (scan_ w))).
      * apply coveredBy_app, Hd. lia.
      * apply Hcov. lia.
Qed.

(** Both cursors of a run in the loop may be written. *)
Lemma loop_covers resultId tr w m :
  LoopInv resultId tr w -> fOff (flags tr) = true \/ covers scan0 tr m (cursorOf m (scan_ w)).
Proof.
  intros [_ _ [?|(_ & [Hp Hd] & Ho)]]; [by left|right]. rewrite active_mode in Hd.
  destruct (mode (scan_ w)), m; try exact Ho; (right; exists (spec_ w); by split).
Qed.

Lemma loop_calm resultId tr seg w : calm seg -> LoopInv resultId tr w -> LoopInv resultId (tr ++ seg) w.
Proof.
  intros Hs Hi. apply (loop_next resultId tr seg w w (ActiveCursor (scan_ w))); [done|done|by apply turned_refl, frame_refl|done|].
  right. right. lia.
Qed.

Definition turnPost resultId w (o : option (qstring * bool)) w' tr' : Prop :=
  Turned w w' /\ LoopInv resultId tr' w' /\
  match o with
  | None => ~ ended w /\ (ended w' \/ ActiveCursor (scan_ w) < ActiveCursor (scan_ w'))
  | Some (error, completed) => completed = true -> error = [] /\ ended w'
  end.

Lemma chunkTurn_early resultId w o w' tr seg :
  LoopInv resultId tr w -> Frame w w' -> calm seg ->
  (forall error completed, o = Some (error, completed) -> completed = true -> error = [] /\ ended w) -> o <> None ->
  turnPost resultId w o w' (tr ++ seg).
Proof.
  intros Hi Hf Hs Ho Hn. split; [by apply turned_refl|]. split.
  - destruct Hf as [v ->]. destruct (loop_calm resultId tr seg w Hs Hi). by split.
  - destruct o as [[error completed]|]; [|done]. intros Hc. destruct (Ho _ _ eq_refl Hc) as [-> He]. split; [done|]. by destruct Hf as [v ->].
Qed.

(** The end of a round: the cursor moves, is saved, and the round's outcome decides
    whether another follows. *)
Lemma turnEnd_spec resultId w0 w tr (changed : bool) r v start cursor total (Q : option (qstring * bool) -> Worker -> scanTrace -> Prop) :
  ~ ended w0 -> start = ActiveCursor (scan_ w0) -> total = ActiveTotal (scan_ w0) -> start <= cursor ->
  Turned w0 (w <| scan_ := setActiveCursor (rescanning (scan_ w0)) cursor (scan_ w) |>) ->
  LoopInv resultId tr (w <| scan_ := setActiveCursor (rescanning (scan_ w0)) cursor (scan_ w) |>) ->
  (forall o w' tr', turnPost resultId w0 o w' tr' -> Q o w' tr') ->
  WP (do! modifyScan (setActiveCursor (rescanning (scan_ w0)) cursor);
      do! modify (fun w => w <| live_ :=
            (((live_ w) <| chunkActive_ := false |>) <| lvFound := found (scan_ w) |>) <| lvRemoved := removed (scan_ w) |> |>);
      do! saveProgress;
      do! setTested cursor total;
      do! when changed (act ResultsHook);
      if negb (isNull (cerror r)) then ret (Some (cerror r, false))
      else if negb (isNull (networkError v)) then ret (Some (networkError v, false))
      else if unverified v then ret (Some ([], false))
      else
        let! s := gets scan_ in
        if (total <=? cursor) || enoughFound (rescanning (scan_ w0)) s then ret None
        else
          let! stop := act ReadStop in
          if stop then ret (Some ([], false))
          else if caborted r then ret (Some (u "The core ended the scan session early", false))
          else if cursor =? start then ret (Some (u "The core made no progress on the scan", false))
          else ret None) w tr Q.
Proof.
  intros He Es Et Hle Ht Hi HQ. set (w1 := w <| scan_ := _ |>) in *.
  wstep. wstep. fold w1. wstep. wstep. set (w2 := w1 <| live_ := _ |>).
  assert (F2 : Frame w1 w2) by by eexists.
  assert (Hi2 : LoopInv resultId tr w2) by (destruct Hi; by split).
  assert (Hc2 : ActiveCursor (scan_ w2) = cursor /\ mode (scan_ w2) = mode (scan_ w0)).
  { destruct Ht as (x & f & m & c & E). assert (Es2 : scan_ w2 = setActiveCursor (rescanning (scan_ w0)) c (((scan_ w0) <| removed := m |>) <| found := f |>)) by exact (f_equal scan_ E).
    assert (Ew1 : scan_ w2 = setActiveCursor (rescanning (scan_ w0)) cursor (scan_ w)) by done.
    destruct (turned_cursor w0 f m c) as [E1 E2]. rewrite <- Es2 in E1, E2. split; [|done]. rewrite Ew1 in E2 |- *.
    revert E2. unfold ActiveCursor, setActiveCursor, rescanning. simpl.
    destruct (bool_decide_reflect (mode (scan_ w0) = RescanResult)) as [Em|Em]; simpl; intros ->.
    - rewrite Em. done. - destruct (mode (scan_ w0)); done. }
  destruct Hc2 as [Hc2 Hm2]. wstep. apply saveProgress_spec; [apply Hi2| |].
  { rewrite active_mode. destruct (loop_covers resultId tr w2 (mode (scan_ w2)) Hi2) as [?|Hc]; [by left|right].
    intros seg Hs. by apply covers_app; [apply calm_steady|]. }
  intros s1 st1. wstep. apply shows_tested. intros w3 s2 F3 q2. wstep. apply (shows_when _ _ _ (shows_results _)).
  intros w4 s3 F4 q3. rewrite <- !app_assoc. set (seg := s1 ++ s2 ++ s3).
  assert (Hseg : calm seg) by (apply calm_app; [by apply calm_steady|apply calm_quiet; by apply quiet_app]).
  assert (F24 : Frame w2 w4) by exact (frame_trans _ _ _ F3 F4).
  assert (Hi4 : forall s, calm s -> LoopInv resultId ((tr ++ seg) ++ s) w4).
  { intros s Hs. rewrite <- app_assoc. destruct F24 as [x ->]. destruct (loop_calm resultId tr (seg ++ s) w2 ltac:(by apply calm_app) Hi2). by split. }
  assert (Ht4 : Turned w0 w4) by exact (turned_trans _ _ _ Ht (turned_refl _ _ (frame_trans _ _ _ F2 F24))).
  assert (Es4 : scan_ w4 = scan_ w2) by by destruct F24 as [x ->].
  assert (Hc4 : ActiveCursor (scan_ w4) = cursor) by by rewrite Es4.
  assert (Hm4 : rescanning (scan_ w4) = rescanning (scan_ w0)) by (unfold rescanning; by rewrite Es4, Hm2).
  assert (Hstop : forall error s, calm s -> Q (Some (error, false)) w4 ((tr ++ seg) ++ s)).
  { intros error s Hs. apply HQ. split; [done|]. by split; [apply Hi4|]. }
  pose proof (Hstop) as Hstop0. specialize (fun error => Hstop0 error [] ltac:(by intros [])). rewrite app_nil_r in Hstop0.
  destruct (negb (isNull (cerror r))); [wstep; apply Hstop0|]. destruct (negb (isNull (networkError v))); [wstep; apply Hstop0|].
  destruct (unverified v); [wstep; apply Hstop0|]. wstep. wstep.
  destruct ((total <=? cursor) || _) eqn:Ed.
  - wstep. apply HQ. split; [done|]. specialize (Hi4 [] ltac:(by intros [])). rewrite app_nil_r in Hi4. split; [done|].
    split; [done|]. left. unfold ended. rewrite Hm4, Hc4, (proj1 (proj2 (turned_scan _ _ Ht4))), <- Et.
    apply orb_true_iff in Ed as [Ed%Z.leb_le|Ed]; auto.
  - wstep. wstep. assert (Hx : calm [Ev ReadStop x]) by by apply calm_one. destruct x; [wstep; by apply Hstop|].
    destruct (caborted r); [wstep; by apply Hstop|]. destruct (Z.eqb_spec cursor start); wstep; [by apply Hstop|].
    apply HQ. split; [done|]. split; [by apply Hi4|]. split; [done|]. right. lia.
Qed.

Lemma nextCursor_ge c r v start next total : start <= next -> start <= total -> start <= nextCursor c r v start next total.
Proof. intros. unfold nextCursor. destruct (negb _ || _); [lia|]. destruct (caborted r), c; lia. Qed.

Lemma chunkTurn_spec resultId chunkSize w tr (Q : option (qstring * bool) -> Worker -> scanTrace -> Prop) :
  LoopInv resultId tr w ->
  (forall o w' tr', turnPost resultId w o w' tr' -> Q o w' tr') -> WP (chunkTurn resultId chunkSize) w tr Q.
Proof.
  intros Hi HQ. unfold chunkTurn. wstep. wstep. wstep. wstep. cbv zeta.
  destruct (enoughFound _ (scan_ w)) eqn:En.
  { wstep. apply shows_push. intros w1 s1 F1 q1. wstep. apply HQ. apply chunkTurn_early; [done|done|by apply calm_quiet| |done].
    intros ? ? [= <- <-] _. split; [done|by right]. }
  destruct (Z.leb_spec (ActiveTotal (scan_ w)) (ActiveCursor (scan_ w))) as [Hle|Hlt].
  { wstep. rewrite <- (app_nil_r tr). apply HQ. apply chunkTurn_early; [done|apply frame_refl|done| |done].
    intros ? ? [= <- <-] _. split; [done|by left]. }
  assert (He : ~ ended w) by (intros [?|?]; [lia|congruence]).
  wstep. wstep. destruct x.
  { wstep. apply HQ. apply chunkTurn_early; [done|apply frame_refl|by apply calm_one| |done]. by intros ? ? [= <- <-]. }
  set (start := ActiveCursor (scan_ w)). set (total := ActiveTotal (scan_ w)). set (rescan := rescanning (scan_ w)).
  wstep. apply shows_chunk. intros w1 s1 F1 q1. wstep. wstep.
  assert (F1' := F1). destruct F1' as [v1 E1].
  apply testChunk_spec; [rewrite flags_quiet by done; rewrite flags_snoc; simpl; rewrite orb_false_r; by apply (stop_read tr false)|by rewrite E1|].
  intros r next w2 s2 F2 c2 D. wstep. apply verifyChunk_spec. intros v w3 s3 F3 c3 V. wstep.
  set (tr1 := (tr ++ [Ev ReadStop false]) ++ s1) in *.
  assert (F03 : Frame w w3) by exact (frame_trans _ _ _ F1 (frame_trans _ _ _ F2 F3)).
  assert (Ere : rescan = bool_decide (mode (scan_ w) = RescanResult)) by done.
  assert (Ephase : configPhase_ w1 = configPhaseOf scan0) by (rewrite E1; apply Hi).
  assert (Espec : spec_ w1 = spec_ w) by by rewrite E1. rewrite Ephase, Espec in D.
  assert (c1 : calm ([Ev ReadStop false] ++ s1)) by (apply calm_app; [by apply calm_one|by apply calm_quiet]).
  apply storeChunk_spec.
  - rewrite calm_finished by done. rewrite calm_finished by done. unfold tr1. rewrite <- app_assoc, calm_finished by done. apply Hi.
  - apply D.
  - intros Er Eg Eu e Hin Hup. rewrite Er in *. rewrite <- app_assoc. by eapply chunk_removable.
  - intros changed w4 s4 Hcount st4 Hst. wstep. wstep. set (cursor := nextCursor _ r v start next total).
    set (seg := ([Ev ReadStop false] ++ s1) ++ s2 ++ s3 ++ s4).
    assert (Etr : ((tr1 ++ s2) ++ s3) ++ s4 = tr ++ seg) by (unfold tr1, seg; by rewrite <- !app_assoc).
    rewrite Etr in *.
    assert (Hturn : Turned w (w4 <| scan_ := setActiveCursor (rescanning (scan_ w)) cursor (scan_ w4) |>)).
    { destruct F03 as [v3 ->]. destruct Hcount as (f & m & ->). by exists v3, f, m, cursor. }
    assert (Ephase4 : configPhase_ w4 = configPhaseOf scan0) by (destruct F03 as [v3 ->]; destruct Hcount as (f & m & ->); exact (li_phase _ _ _ Hi)).
    assert (Hcur : ActiveCursor (setActiveCursor (rescanning (scan_ w)) cursor (scan_ w4)) = cursor).
    { destruct F03 as [v3 ->]. destruct Hcount as (f & m & ->). exact (proj1 (turned_cursor w f m cursor)). }
    apply (turnEnd_spec resultId); try done.
    + apply nextCursor_ge; [exact (cd_ge _ _ _ _ _ _ _ _ D)|unfold start, total; lia].
    + apply (loop_next resultId tr seg w _ cursor); [done| |done|exact Hcur|].
      { apply calm_app; [done|]. apply calm_app; [done|]. apply calm_app; [done|by apply calm_steady]. }
      destruct Hst as [?|[?|Hst]]; [by left|by right; left|right; right]. intros p Hp.
      unfold cursor in Hp. rewrite Ephase4 in Hp. rewrite <- Etr, <- !app_assoc.
      eapply (chunk_covered _ _ start tr1); [exact D|exact V|exact Hst|exact Hp].
Qed.

Definition loopPost resultId w (result : qstring * bool) w' tr' : Prop :=
  Turned w w' /\ LoopInv resultId tr' w' /\ (result.2 = true -> result.1 = [] /\ ended w').

(** The loop never runs out of fuel: a round that goes on moves the cursor. *)
Lemma chunkLoop_spec fuel resultId chunkSize w tr (Q : qstring * bool -> Worker -> scanTrace -> Prop) :
  LoopInv resultId tr w ->
  (chunkFuel (scan_ w) <= fuel)%nat \/ (ended w /\ (1 <= fuel)%nat) ->
  (forall result w' tr', loopPost resultId w result w' tr' -> Q result w' tr') ->
  WP (chunkLoop fuel resultId chunkSize) w tr Q.
Proof.
  revert w tr. induction fuel as [|fuel IH]; intros w tr Hi Hf HQ; cbn [chunkLoop].
  { exfalso. unfold chunkFuel in Hf. lia. }
  wstep. eapply chunkTurn_spec; [done|]. intros o w' tr' (Ht & Hi' & Ho). destruct o as [[error completed]|].
  - wstep. apply HQ. by split.
  - destruct Ho as [He Ho]. apply IH; [done| |].
    + destruct Hf as [Hf|[? _]]; [|done]. destruct Ho as [Ho|Ho]; [right; split; [done|unfold chunkFuel in Hf; lia]|left].
      unfold chunkFuel in *. rewrite (proj1 (proj2 (turned_scan _ _ Ht))). unfold ended in He.
      assert (ActiveCursor (scan_ w) < ActiveTotal (scan_ w)) by (apply Z.nle_gt; tauto). lia.
    + intros result w2 tr2 (Ht2 & Hp). apply HQ. split; [exact (turned_trans _ _ _ Ht Ht2)|done].
Qed.

Lemma runChunks_spec w tr (Q : qstring * bool -> Worker -> scanTrace -> Prop) :
  LoopInv (result_list_id (scan_ w)) tr w ->
  (forall result w' tr', loopPost (result_list_id (scan_ w)) w result w' tr' -> Q result w' tr') -> WP runChunks w tr Q.
Proof.
  intros Hi HQ. unfold runChunks. wstep. wstep. wstep. apply configTest_spec. intros test s1 q1 _. cbv zeta. wstep. wstep. wstep.
  set (resultId := result_list_id (scan_ w)) in *.
  enough (Hgo : forall w1 seg, Turned w w1 -> calm seg ->
    ActiveCursor (scan_ w1) = ActiveCursor (scan_ w) -> WP (let! s := gets scan_ in
      do! setTested (ActiveCursor s) (ActiveTotal s); chunkLoop (chunkFuel s) resultId
        (if probePhaseEnabled (sconfig (scan_ w)) then clamp (concurrency (sconfig (scan_ w)) * 4) 32 2048 else subBatch test)) w1 (tr ++ seg) Q).
  { apply wpM_when; intros _.
    - wstep. wstep. wstep. wstep. wstep. rewrite <- !app_assoc.
      apply Hgo; try done.
      + exists ((live_ w) <| lvFound := x0 |>), x0, (removed (scan_ w)), (ActiveCursor (scan_ w)).
        unfold setActiveCursor, ActiveCursor. by destruct (rescanning (scan_ w)); destruct w as [? ? ? ? [] ? ? ? ?].
      + apply calm_app; [by apply calm_quiet|]. apply calm_app; by apply calm_one.
    - rewrite <- !app_assoc. apply Hgo; try done; [apply turned_refl, frame_refl|].
      apply calm_app; [by apply calm_quiet|by apply calm_one]. }
  intros w1 seg Ht Hs Ecur. wstep. wstep. wstep. apply shows_tested. intros w2 s2 F2 q2. rewrite <- app_assoc.
  assert (Ht2 : Turned w w2) by exact (turned_trans _ _ _ Ht (turned_refl _ _ F2)).
  apply chunkLoop_spec.
  - eapply (loop_next resultId tr (seg ++ s2) w w2 (ActiveCursor (scan_ w))); [done|apply calm_app; [done|by apply calm_quiet]|done| |].
    + destruct F2 as [y ->]. exact Ecur. + right. right. intros p. lia.
  - left. destruct F2 as [y ->]. done.
  - intros result w' tr' (Ht' & Hp). apply HQ. split; [exact (turned_trans _ _ _ Ht2 Ht')|done].
Qed.
End Loop.
