(* ===== verification/ScanPrepare.v ===== *)
(** * ScanPrepare: before the first chunk

    Specifications, against the contract of ScanRules, of what ScanWorker does
    before its loop: counting the targets, clearing the results and taking the
    snapshot of an initial pass, taking the snapshot of a rescan, continuing a
    pass, and reading its targets back. *)

From S2P Require Import Prelude Text IpAddress ScanConfig Program ScanWorker ScanRules ScanChunk ScanLoop.

(** ** Flags that only rise, or are not touched *)

(** The stop and the end were not seen meanwhile. *)
Definition held (seg : scanTrace) : Prop :=
  forall f, let f' := fold_left flagStep seg f in fStop f' = fStop f /\ fFinished f' = fFinished f.

Lemma held_steady s : steady s -> held s.
Proof. intros H f. split; apply H. Qed.

Lemma held_app s t : held s -> held t -> held (s ++ t).
Proof.
  intros Hs Ht f. simpl. rewrite fold_left_app. destruct (Hs f) as [H1 H2], (Ht (fold_left flagStep s f)) as [H3 H4].
  by rewrite H3, H4.
Qed.

Lemma held_one X (e : Act X) x :
  (match e with FinishedHook | SetStop | ReadStop => False | _ => True end) -> held [Ev e x].
Proof. intros H f. by destruct e. Qed.

Lemma held_stop tr seg : held seg -> fStop (flags (tr ++ seg)) = fStop (flags tr).
Proof. intros H. rewrite flags_app. apply H. Qed.

Lemma held_finished tr seg : held seg -> fFinished (flags (tr ++ seg)) = fFinished (flags tr).
Proof. intros H. rewrite flags_app. apply H. Qed.

Section Prepare.
Context `{T : QtText} (scan0 : IpScan).
Implicit Types (w : Worker) (tr seg : scanTrace).
Abbreviation WP := (wpM scan0).

Lemma startOf_nonneg tr m : 0 <= startOf scan0 tr m.
Proof. unfold startOf. destruct m; [destruct (fCleared _)|destruct (fSnap _)]; lia. Qed.

Lemma covers_start tr m c : c <= startOf scan0 tr m -> covers scan0 tr m c.
Proof. by left. Qed.

(** What holds of the row until the loop starts. *)
Record Prep tr w : Prop := MkPrep {
  pr_open : fFinished (flags tr) = false;
  pr_phase : configPhase_ w = configPhaseOf scan0;
  pr_first : initialStatus_ w = status scan0;
  pr_enough : stopAfter (sconfig (scan_ w)) = stopAfter (sconfig scan0);
  pr_running : status (scan_ w) = Running;
  pr_start m : cursorOf m (scan_ w) <= startOf scan0 tr m }.

(** The parts of the worker [Prep] speaks of are as before, or the cursor is
    back at 0. *)
Record Kept w w' : Prop := MkKept {
  kp_phase : configPhase_ w' = configPhase_ w;
  kp_first : initialStatus_ w' = initialStatus_ w;
  kp_conf : sconfig (scan_ w') = sconfig (scan_ w);
  kp_status : status (scan_ w') = status (scan_ w);
  kp_cursor m : cursorOf m (scan_ w') = cursorOf m (scan_ w) \/ cursorOf m (scan_ w') = 0 }.

Lemma kept_refl w : Kept w w.
Proof. split; auto. Qed.

Lemma kept_trans a b c : Kept a b -> Kept b c -> Kept a c.
Proof.
  intros [A1 A2 A3 A4 A5] [B1 B2 B3 B4 B5]. split; try congruence.
  intros m. destruct (B5 m) as [->|?]; [apply A5|by right].
Qed.

Lemma kept_touch w w' : Touch w w' -> Kept w w'.
Proof. intros (v & b & ->). split; try done. by left. Qed.

Lemma kept_frame w w' : Frame w w' -> Kept w w'.
Proof. intros H. by apply kept_touch, touch_frame. Qed.

Lemma prep_kept tr seg w w' :
  Prep tr w -> calm seg -> Kept w w' -> Prep (tr ++ seg) w'.
Proof.
  intros [P1 P2 P3 P4 P5 P6] Hs [K1 K2 K3 K4 K5]. split; try congruence.
  - by rewrite calm_finished.
  - intros m. rewrite calm_start by done. destruct (K5 m) as [->| ->]; [apply P6|apply startOf_nonneg].
Qed.

(** Entering a pass: its cursors are 0 unless their start did not move. *)
Lemma prep_restart tr seg w w' :
  Prep tr w -> held seg -> Kept w w' ->
  (forall m, cursorOf m (scan_ w') = 0 \/ startOf scan0 (tr ++ seg) m = startOf scan0 tr m) -> Prep (tr ++ seg) w'.
Proof.
  intros [P1 P2 P3 P4 P5 P6] Hs [K1 K2 K3 K4 K5] Hm. split; try congruence.
  - by rewrite held_finished.
  - intros m. destruct (Hm m) as [->| ->]; [apply startOf_nonneg|].
    destruct (K5 m) as [->| ->]; [apply P6|apply startOf_nonneg].
Qed.

Lemma prep_covered tr w : Prep tr w -> passCovered scan0 tr (scan_ w).
Proof.
  intros P. split_and!.
  - apply covers_start, (pr_start _ _ P Initial). - apply covers_start, (pr_start _ _ P RescanResult).
  - intros E. by rewrite (pr_running _ _ P) in E.
Qed.

(** Writing the row is fine while it is [Prep]. *)
Lemma prep_persist w tr (Q : unit -> Worker -> scanTrace -> Prop) :
  Prep tr w -> (forall seg, steady seg -> Prep (tr ++ seg) w -> Q tt w (tr ++ seg)) -> WP persistPassState w tr Q.
Proof.
  intros P HQ. assert (Hk : forall seg, steady seg -> Prep (tr ++ seg) w).
  { intros seg Hs. by apply prep_kept with (w := w); [|apply calm_steady|apply kept_refl]. }
  apply persistPassState_spec; [apply P| |intros seg Hs _; apply HQ; auto].
  right. intros seg Hs. by apply prep_covered, Hk.
Qed.

Lemma countTargets_spec spec w tr (Q : option Z * qstring -> Worker -> scanTrace -> Prop) :
  fStop (flags tr) = false ->
  (forall count error w' seg, Frame w w' -> calm seg -> passSpec (tr ++ seg) spec ->
     (count = None -> error = [] -> fStop (flags (tr ++ seg)) = true) -> Q (count, error) w' (tr ++ seg)) ->
  WP (countTargets spec) w tr Q.
Proof.
  intros Hs HQ. unfold countTargets. wstep. wstep; [done|]. set (call := Ev _ x).
  assert (Hp : forall seg, passSpec (tr ++ [call] ++ seg) spec).
  { intros seg. left. exists kScanWorkerCountTimeoutMs, x. rewrite !elem_of_app. right. left. by left. }
  cbv zeta. destruct (_ || _).
  - wstep. apply when_stop_spec. wstep. wstep. wstep. rewrite <- !app_assoc. apply HQ; [apply frame_refl| |apply Hp|].
    + apply calm_app; [by apply calm_one|]. apply calm_app; [apply set_stop_calm|by apply calm_one].
    + intros _. destruct x0; [intros _; rewrite !app_assoc; apply stop_after|]. by destruct (isNull _) eqn:E; [|intros E2; rewrite E2 in E].
  - wstep. apply (shows_when _ _ _ (shows_push _)). intros w1 s1 F1 q1. wstep. rewrite <- app_assoc.
    apply HQ; [done|apply calm_app; [by apply calm_one|by apply calm_quiet]|apply Hp|done].
Qed.

(** Neither a stop nor a cleared [persist_] was read, or one was. *)
Lemma notPersistOrStop_spec w tr (Q : bool -> Worker -> scanTrace -> Prop) :
  fFinished (flags tr) = false ->
  (forall (off : bool) seg, calm seg ->
     (if off then fOff (flags (tr ++ seg)) = true \/ fStop (flags (tr ++ seg)) = true
      else fStop (flags (tr ++ seg)) = false /\ mayCreate (tr ++ seg)) -> Q off w (tr ++ seg)) ->
  WP notPersistOrStop w tr Q.
Proof.
  intros Hf HQ. unfold notPersistOrStop, orM, notM. wstep. wstep. wstep. wstep. destruct x; cbn [negb].
  - wstep. rewrite <- app_assoc. apply HQ; [apply calm_app; by apply calm_one|].
    destruct x; [right; rewrite app_assoc; apply stop_after|].
    pose proof (stop_read _ false H0 eq_refl) as E. rewrite flags_snoc in E.
    split; [rewrite app_assoc, !flags_snoc; simpl; by rewrite orb_false_r|].
    split; [rewrite !elem_of_app; right; left; by left|by rewrite app_assoc, !flags_snoc].
  - wstep. apply HQ; [by apply calm_one|]. left. rewrite flags_snoc. simpl. apply orb_true_r.
Qed.

(** What the preparation of a pass leaves: its targets, when they are known,
    counted by the core or read from a snapshot; and when it reports no error, a
    result list, unless the run is being ended. *)
Record Prepared (error : qstring) tr w : Prop := MkPrepared {
  pd_prep : Prep tr w;
  pd_spec : spEntries (spec_ w) = [] \/ passSpec tr (spec_ w);
  pd_list : error = [] -> fOff (flags tr) = true \/ fStop (flags tr) = true \/ 0 <= result_list_id (scan_ w) }.

Lemma prepared_early error tr seg w w' :
  Prep tr w -> calm seg -> Kept w w' -> spEntries (spec_ w') = [] ->
  (error = [] -> fOff (flags (tr ++ seg)) = true \/ fStop (flags (tr ++ seg)) = true \/ 0 <= result_list_id (scan_ w')) ->
  Prepared error (tr ++ seg) w'.
Proof. intros P Hs Hk He Hl. split; [by eapply prep_kept|by left|done]. Qed.

(** The end of a snapshot: its targets counted, the count kept and written. *)
Lemma counted_spec spec setTotal empty w tr (Q : qstring -> Worker -> scanTrace -> Prop) :
  Prep tr w -> fStop (flags tr) = false -> 0 <= result_list_id (scan_ w) -> spec_ w = spec -> empty <> [] ->
  (forall n w, Kept w (w <| scan_ := setTotal n (scan_ w) |>) /\ result_list_id (setTotal n (scan_ w)) = result_list_id (scan_ w)) ->
  (forall error w' tr', Prepared error tr' w' -> Q error w' tr') ->
  WP (let! '(count, error) := countTargets spec in
      match count with
      | None => ret error
      | Some n =>
          do! modifyScan (setTotal n);
          do! persistPassState;
          if n =? 0 then ret empty else do! setTested 0 n; noError
      end) w tr Q.
Proof.
  intros P Hs Hid Hspec Hempty Hset HQ. wstep. apply countTargets_spec; [done|]. intros count error w1 s1 F1 c1 Hp Hstop.
  assert (P1 : Prep (tr ++ s1) w1) by (eapply prep_kept; [done|done|by apply kept_frame]).
  assert (Hspec1 : spec_ w1 = spec) by by destruct F1 as [v ->].
  assert (Hid1 : 0 <= result_list_id (scan_ w1)) by by destruct F1 as [v ->].
  destruct count as [n|].
  - wstep. wstep. wstep. destruct (Hset n w1) as [Hk Hr]. apply prep_persist.
    { rewrite <- (app_nil_r (tr ++ s1)). by apply prep_kept with (w := w1). }
    intros s2 st2 P2. assert (Hp2 : passSpec ((tr ++ s1) ++ s2) spec) by by apply passSpec_app.
    destruct (n =? 0).
    + wstep. apply HQ. split; [done|right; simpl; by rewrite Hspec1|done].
    + wstep. apply shows_tested. intros w2 s3 F2 q2. wstep. apply HQ. split.
      * eapply prep_kept; [done|by apply calm_quiet|by apply kept_frame].
      * right. apply passSpec_app. destruct F2 as [v ->]. simpl. by rewrite Hspec1.
      * intros _. right. right. destruct F2 as [v ->]. simpl. by rewrite Hr.
  - wstep. apply HQ. split; [done|right; by rewrite Hspec1|]. intros E. right. left. by apply Hstop.
Qed.

Lemma initialSnapshot_spec sha1 es w tr (Q : qstring -> Worker -> scanTrace -> Prop) :
  Prep tr w -> writable tr -> fStop (flags tr) = false -> 0 <= result_list_id (scan_ w) -> spEntries (spec_ w) = [] ->
  (forall m, cursorOf m (scan_ w) = 0) ->
  (forall error w' tr', Prepared error tr' w' -> Q error w' tr') -> WP (initialSnapshot sha1 es) w tr Q.
Proof.
  intros P Hw Hs Hid He Hm HQ. unfold initialSnapshot. wstep. wstep. wstep. wstep; [done|].
  set (call := Ev _ x). assert (Hh : held [call]) by by apply held_one.
  assert (P1 : Prep (tr ++ [call]) w) by (eapply prep_restart; [done|done|apply kept_refl|by left]).
  destruct x as [id|].
  - wstep. wstep. wstep. wstep. wstep. wstep. wstep. wstep. wstep. wstep. wstep. wstep.
    rewrite <- app_assoc. apply counted_spec; try done.
    + rewrite app_assoc. eapply prep_kept; [exact P1|by apply calm_one|]. split; try done. by left.
    + by rewrite held_stop.
    + intros n w'. split; [|done]. split; try done. intros []; by left.
  - wstep. apply HQ. split; [done|by left|done].
Qed.

(** The result list is there afterwards, or the run goes no further. *)
Lemma ensured_spec {A} (K : Z -> IpScan -> M A) w tr (Q : A -> Worker -> scanTrace -> Prop) :
  Prep tr w -> mayCreate tr ->
  (forall id s' seg, quiet seg -> Kept w (w <| scan_ := s' |>) -> (0 <= id -> result_list_id s' = id) ->
     Prep (tr ++ seg) (w <| scan_ := s' |>) -> WP (K id s') (w <| scan_ := s' |>) (tr ++ seg) Q) ->
  WP (let! '(id, s') := EnsureScanResultList (scan_ w) in do! modifyScan (fun _ => s'); K id s') w tr Q.
Proof.
  intros P Hw HQ. wstep. apply ensure_spec; [done|]. intros id s' seg q Hs' Hid. wstep. wstep.
  assert (Hk : Kept w (w <| scan_ := s' |>)).
  { destruct Hs' as [->| ->]; [by destruct w; apply kept_refl|]. split; try done. by left. }
  apply HQ; [done|done|done|]. by eapply prep_kept; [done|by apply calm_quiet|].
Qed.

Lemma clearAll_spec id es sha1 w tr (Q : qstring -> Worker -> scanTrace -> Prop) :
  Prep tr w -> writable tr -> fStop (flags tr) = false -> 0 <= result_list_id (scan_ w) -> spEntries (spec_ w) = [] ->
  (forall error w' tr', Prepared error tr' w' -> Q error w' tr') ->
  WP (do! act (ClearEntries id);
      do! modify (fun w => w <| listsTouched_ := true |>);
      do! deleteList (snapshot_list_id (scan_ w));
      do! deleteList (rescan_snapshot_list_id (scan_ w));
      let! now := act Now in
      do! modifyScan (resetInitial now);
      do! modifyLive (fun v => (v <| lvFound := 0 |>) <| lvRemoved := 0 |>);
      do! act ResultsHook;
      let! persist := act ReadPersist in
      if negb persist then noError else initialSnapshot sha1 es) w tr Q.
Proof.
  intros P Hw Hs Hid He HQ. wstep. wstep; [done|]. wstep. wstep. set (call := Ev (ClearEntries id) tt).
  assert (Hh : held [call]) by by apply held_one. wstep.
  apply writes_delete; [rewrite held_finished by done; apply P|]. intros w1 s1 T1 st1. wstep.
  apply writes_delete; [rewrite held_finished, held_finished by (done || by apply held_steady); apply P|]. intros w2 s2 T2 st2.
  wstep. wstep. wstep. wstep. wstep. wstep. wstep. wstep. wstep. wstep. rewrite <- !app_assoc.
  set (seg := [call] ++ s1 ++ s2 ++ [Ev Now x] ++ [Ev ResultsHook tt] ++ [Ev ReadPersist x0]).
  assert (Hseg : held seg).
  { apply held_app; [done|]. apply held_app; [by apply held_steady|]. apply held_app; [by apply held_steady|].
    apply held_app; [by apply held_one|]. apply held_app; by apply held_one. }
  set (w3 := w2 <| scan_ := _ |> <| live_ := _ |>).
  assert (Hk : Kept w w3).
  { apply (kept_trans _ w2); [|split; try done; intros []; by right].
    apply (kept_trans _ w1); [|by apply kept_touch]. eapply kept_trans; [|apply kept_touch, T1]. split; try done. by left. }
  assert (Hz : forall m, cursorOf m (scan_ w3) = 0) by by intros [].
  assert (P3 : Prep (tr ++ seg) w3) by (eapply prep_restart; [done|done|done|auto]).
  assert (E3 : spec_ w3 = spec_ w /\ result_list_id (scan_ w3) = result_list_id (scan_ w)).
  { unfold w3. destruct T1 as (v1 & b1 & ->), T2 as (v2 & b2 & ->). done. }
  destruct E3 as [Esp Eid].
  assert (Eflags : flags (tr ++ seg) = flagStep (flags (tr ++ [call] ++ s1 ++ s2 ++ [Ev Now x] ++ [Ev ResultsHook tt])) (Ev ReadPersist x0)).
  { rewrite <- flags_snoc. unfold seg. by rewrite <- !app_assoc. }
  destruct x0; cbn [negb].
  - apply initialSnapshot_spec; try done.
    + split; [by rewrite Eflags|apply P3]. + by rewrite held_stop. + by rewrite Eid. + by rewrite Esp.
  - wstep. apply HQ. split; [done|left; by rewrite Esp|]. intros _. left. rewrite Eflags. simpl. apply orb_true_r.
Qed.

Lemma prepareInitial_spec sha1 w tr (Q : qstring -> Worker -> scanTrace -> Prop) :
  Prep tr w -> spEntries (spec_ w) = [] ->
  (forall error w' tr', Prepared error tr' w' -> Q error w' tr') -> WP (prepareInitial sha1) w tr Q.
Proof.
  intros P He HQ. unfold prepareInitial. wstep. wstep. wstep. wstep. set (call := Ev (GetIpList _) x).
  assert (Hc : calm [call]) by by apply calm_one.
  assert (Hfail : forall error, error <> [] -> Q error w (tr ++ [call])).
  { intros error Hn. apply HQ. eapply prepared_early; [done|done|apply kept_refl|done|done]. }
  destruct x as [entries|]; [|wstep; by apply Hfail]. cbv zeta.
  destruct (bool_decide (entries = [])); [wstep; by apply Hfail|].
  destruct (bool_decide (_ = [])); [wstep; by apply Hfail|].
  wstep. apply notPersistOrStop_spec; [solve [apply P|rewrite calm_finished by done; apply P]|]. intros off s1 c1 Hoff. rewrite <- !app_assoc in *.
  assert (P1 : Prep (tr ++ [call] ++ s1) w) by (eapply prep_kept; [done|by apply calm_app|apply kept_refl]).
  destruct off.
  { wstep. apply HQ. split; [done|by left|]. tauto. }
  destruct Hoff as [Hs Hw]. apply ensured_spec; [done|done|]. intros id s' s2 q2 Hk Hid P2. cbv beta.
  assert (Hcalm2 : fStop (flags ((tr ++ [call] ++ s1) ++ s2)) = false) by by rewrite flags_quiet.
  destruct (Z.ltb_spec id 0).
  { wstep. apply HQ. split; [done|by left|done]. }
  wstep. wstep. assert (Hc3 : calm [Ev ReadPersist x]) by by apply calm_one. destruct x; cbn [negb].
  - apply clearAll_spec; try done.
    + by eapply prep_kept; [done|done|apply kept_refl].
    + split; [by rewrite flags_snoc|rewrite calm_finished by done; apply P2].
    + by rewrite flags_snoc.
    + cbn. rewrite Hid by lia. lia.
  - wstep. apply HQ. split; [by eapply prep_kept; [done|done|apply kept_refl]|by left|].
    intros _. left. rewrite flags_snoc. simpl. apply orb_true_r.
Qed.

Lemma rescanSnapshot_spec es w tr (Q : qstring -> Worker -> scanTrace -> Prop) :
  Prep tr w -> writable tr -> fStop (flags tr) = false -> 0 <= result_list_id (scan_ w) -> spEntries (spec_ w) = [] ->
  rescan_cursor (scan_ w) = 0 ->
  (forall error w' tr', Prepared error tr' w' -> Q error w' tr') -> WP (rescanSnapshot es) w tr Q.
Proof.
  intros P Hw Hs Hid He Hm HQ. unfold rescanSnapshot. wstep. wstep. wstep. wstep; [done|].
  set (call := Ev _ x). assert (Hh : held [call]) by by apply held_one.
  assert (P1 : Prep (tr ++ [call]) w).
  { eapply prep_restart; [done|done|apply kept_refl|]. intros []; [right|by left].
    unfold startOf. by rewrite flags_snoc. }
  destruct x as [id|].
  - wstep. wstep. wstep. wstep. wstep. wstep. wstep. wstep. apply counted_spec; try done.
    + rewrite <- (app_nil_r (tr ++ [call])). eapply prep_kept; [exact P1|done|]. split; try done. by left.
    + by rewrite held_stop.
    + intros n w'. split; [|done]. split; try done. intros []; by left.
  - wstep. apply HQ. split; [done|by left|done].
Qed.

Lemma may_calm tr seg : calm seg -> mayCreate tr -> mayCreate (tr ++ seg).
Proof. intros Hs [H1 H2]. split; [apply elem_of_app; by left|by rewrite calm_finished]. Qed.

Lemma wpM_when_touch c w tr (Q : unit -> Worker -> scanTrace -> Prop) :
  (forall w', Touch w w' -> Q tt w' tr) -> WP (when c (modify (fun w => w <| listsTouched_ := true |>))) w tr Q.
Proof. intros HQ. apply wpM_when; intros _; [wstep; apply HQ; exists (live_ w), true; by destruct w|apply HQ, touch_refl]. Qed.

(** A rescan that finds nothing to test writes the row, and says so. *)
Lemma persist_fail error w tr (Q : qstring -> Worker -> scanTrace -> Prop) :
  Prep tr w -> spEntries (spec_ w) = [] -> error <> [] ->
  (forall error w' tr', Prepared error tr' w' -> Q error w' tr') ->
  WP (do! persistPassState; ret error) w tr Q.
Proof. intros P He Hn HQ. wstep. apply prep_persist; [done|]. intros seg Hs P'. wstep. apply HQ. split; [done|by left|done]. Qed.

Lemma prepareRescan_spec w tr (Q : qstring -> Worker -> scanTrace -> Prop) :
  Prep tr w -> spEntries (spec_ w) = [] ->
  (forall error w' tr', Prepared error tr' w' -> Q error w' tr') -> WP prepareRescan w tr Q.
Proof.
  intros P He HQ. unfold prepareRescan. wstep. apply notPersistOrStop_spec; [solve [apply P|rewrite calm_finished by done; apply P]|]. intros off s1 c1 Hoff.
  assert (P1 : Prep (tr ++ s1) w) by (eapply prep_kept; [done|done|apply kept_refl]).
  destruct off.
  { wstep. apply HQ. split; [done|by left|]. tauto. }
  destruct Hoff as [Hs Hw]. wstep. wstep. wstep. apply writes_delete; [apply P1|]. intros w2 s2 T2 st2.
  wstep. wstep. wstep. wstep. set (w3 := w2 <| scan_ := _ |>).
  assert (Hc2 : calm s2) by by apply calm_steady.
  assert (Hk3 : Kept w w3).
  { eapply kept_trans; [by apply kept_touch|]. split; try done. intros []; [by left|by right]. }
  assert (P3 : Prep ((tr ++ s1) ++ s2) w3) by by eapply prep_kept.
  assert (E3 : spEntries (spec_ w3) = [] /\ rescan_cursor (scan_ w3) = 0) by (destruct T2 as (v & b & ->); done).
  destruct E3 as [Esp Ecur].
  apply ensured_spec; [done|by apply may_calm|]. intros id s' s4 q4 Hk Hid P4. cbv beta.
  assert (Ecur' : rescan_cursor s' = 0) by (destruct (kp_cursor _ _ Hk RescanResult) as [E|E]; [by rewrite <- Ecur|done]).
  destruct (Z.ltb_spec id 0).
  { wstep. apply HQ. split; [done|by left|done]. }
  wstep. apply wpM_when_touch. intros w5 T5. wstep. wstep. set (call := Ev _ x).
  assert (Hcall : calm [call]) by by apply calm_one.
  assert (P5 : Prep ((((tr ++ s1) ++ s2) ++ s4) ++ [call]) w5) by (eapply prep_kept; [done|done|by apply kept_touch]).
  assert (E5 : spEntries (spec_ w5) = [] /\ rescan_cursor (scan_ w5) = 0 /\ 0 <= result_list_id (scan_ w5)).
  { destruct T5 as (v & b & ->). split_and!; [done|done|]. simpl. rewrite Hid; lia. }
  destruct E5 as (E5 & Ec5 & Ei5). cbv zeta.
  destruct (bool_decide (x = [])); [by apply persist_fail|]. destruct (bool_decide (_ = [])); [by apply persist_fail|].
  wstep. wstep. assert (P6 : Prep (((((tr ++ s1) ++ s2) ++ s4) ++ [call]) ++ [Ev ReadPersist x0]) w5).
  { eapply prep_kept; [done|by apply calm_one|apply kept_refl]. }
  destruct x0; cbn [negb].
  - apply rescanSnapshot_spec; try done.
    + split; [by rewrite flags_snoc|apply P6].
    + rewrite held_stop by by apply held_one. rewrite held_stop by by apply held_one. rewrite flags_quiet by done.
      rewrite held_stop by by apply held_steady. done.
  - wstep. apply HQ. split; [done|by left|]. intros _. left. rewrite flags_snoc. simpl. apply orb_true_r.
Qed.

Lemma preparePass_spec sha1 w tr (Q : qstring -> Worker -> scanTrace -> Prop) :
  Prep tr w -> spEntries (spec_ w) = [] ->
  (forall error w' tr', Prepared error tr' w' -> Q error w' tr') -> WP (preparePass sha1) w tr Q.
Proof.
  intros P He HQ. unfold preparePass. wstep. wstep. destruct (startMode_ w).
  - wstep. wstep. destruct (_ && _); [by apply prepareInitial_spec|]. wstep.
    assert (Hgo : forall w1, Kept w w1 -> spEntries (spec_ w1) = [] -> WP (let! off := notPersistOrStop in
        if off then noError
        else
          let! s := gets scan_ in
          let previous := result_list_id s in
          let! '(resultId, s) := EnsureScanResultList s in
          do! modifyScan (fun _ => s);
          if resultId <? 0 then ret (u "The result list could not be created")
          else if negb (result_list_id s =? previous) then
            do! modify (fun w => w <| listsTouched_ := true |>);
            do! persistPassState;
            noError
          else noError) w1 tr Q); [|apply wpM_when; intros _; [wstep; apply Hgo; [|done]|by apply Hgo; [apply kept_refl|]]].
    + intros w1 Hk E1. wstep. apply notPersistOrStop_spec; [apply P|]. intros off s1 c1 Hoff.
      assert (P1 : Prep (tr ++ s1) w1) by by eapply prep_kept. destruct off.
      { wstep. apply HQ. split; [done|by left|]. tauto. }
      destruct Hoff as [Hs Hw]. wstep. wstep. cbv zeta. apply ensured_spec; [done|done|].
      intros id s' s2 q2 Hk2 Hid P2. cbv beta. destruct (Z.ltb_spec id 0).
      { wstep. apply HQ. split; [done|by left|done]. }
      assert (Hl : 0 <= result_list_id s') by (rewrite Hid; lia).
      destruct (negb _).
      * wstep. wstep. wstep. apply prep_persist.
        { rewrite <- (app_nil_r ((tr ++ s1) ++ s2)). eapply prep_kept; [done|done|]. split; try done. by left. }
        intros s3 st3 P3. wstep. apply HQ. split; [done|by left|]. by right; right.
      * wstep. apply HQ. split; [done|by left|]. by right; right.
    + split; try done. by left.
  - by apply prepareInitial_spec.
  - by apply prepareRescan_spec.
Qed.

(** The targets of a pass that is continued: those of its snapshot. *)
Lemma loadSpec_spec w tr (Q : qstring -> Worker -> scanTrace -> Prop) :
  Prep tr w -> spEntries (spec_ w) = [] \/ passSpec tr (spec_ w) ->
  (forall error w' seg, calm seg -> Prep (tr ++ seg) w' -> result_list_id (scan_ w') = result_list_id (scan_ w) ->
     (error = [] -> passSpec (tr ++ seg) (spec_ w')) -> Q error w' (tr ++ seg)) ->
  WP loadSpec w tr Q.
Proof.
  intros P Hsp HQ. unfold loadSpec. wstep. wstep. destruct (bool_decide_reflect (spEntries (spec_ w) = [])) as [E|E]; cbn [negb].
  - wstep. wstep. assert (Hgo : forall es id (f : IpScan -> IpScan) (mk : Worker -> TargetSpec) error,
      error <> [] -> Kept w (w <| scan_ := f (scan_ w) |>) -> result_list_id (f (scan_ w)) = result_list_id (scan_ w) ->
      spEntries (mk w) = map (fun e => (cidr e, port e)) es ->
      WP (if bool_decide (es = []) then do! modifyScan f; ret error
          else do! modify (fun w => w <| spec_ := mk w |>); noError) w (tr ++ [Ev (GetEntries id) es]) Q).
    { intros es id f mk error Hn Hk Hr Hm. assert (Hc : calm [Ev (GetEntries id) es]) by by apply calm_one.
      destruct (bool_decide (es = [])).
      - wstep. wstep. wstep. by apply HQ; [|eapply prep_kept|..].
      - wstep. wstep. wstep. apply HQ; [done|eapply prep_kept; [done|done|]; split; try done; by left|done|].
        intros _. right. exists id, es. split; [apply elem_of_app; right; by left|done]. }
    destruct (rescanning (scan_ w)); wstep; wstep; apply (Hgo _ _ _ (fun w => _)); try done; (split; try done; by left).
  - wstep. rewrite <- (app_nil_r tr). apply HQ; [done|by rewrite app_nil_r|done|]. rewrite app_nil_r. by destruct Hsp.
Qed.
End Prepare.
