(* ===== verification/ScanRun.v ===== *)
(** * ScanRun: the whole run of a scan

    Specifications, against the contract of ScanRules, of ScanWorker's [execute],
    [finishPass] and [run]; what every run of the thread, also one cut short,
    guarantees; and runs of it. *)

From S2P Require Import Prelude Text IpAddress ScanConfig Program ScanWorker ScanRules ScanChunk ScanLoop ScanPrepare.

Section Run.
Context `{T : QtText} (scan0 : IpScan).
Implicit Types (w : Worker) (tr seg : scanTrace).
Abbreviation WP := (wpM scan0).

(** What the end of a pass starts from. *)
Record Executed (error : qstring) (completed : bool) tr w : Prop := MkExecuted {
  ex_open : fFinished (flags tr) = false;
  ex_first : initialStatus_ w = status scan0;
  ex_enough : stopAfter (sconfig (scan_ w)) = stopAfter (sconfig scan0);
  ex_covers m : fOff (flags tr) = true \/ covers scan0 tr m (cursorOf m (scan_ w));
  ex_completed : completed = true -> error = [] /\ ended w }.

Lemma executed_prep error tr w : Prep scan0 tr w -> Executed error false tr w.
Proof. intros P. split; try apply P; [|done]. intros m. right. by apply covers_start, (pr_start _ _ _ P). Qed.

Lemma loop_start tr w :
  Prep scan0 tr w -> passSpec tr (spec_ w) -> fOff (flags tr) = true \/ 0 <= result_list_id (scan_ w) ->
  LoopInv scan0 (result_list_id (scan_ w)) tr w.
Proof.
  intros P Hp Hl. split; try apply P. destruct Hl as [?|Hl]; [by left|right]. split; [done|].
  split; [|by apply covers_start, (pr_start _ _ _ P)].
  split; [done|]. intros p Hr. rewrite active_mode in Hr. pose proof (pr_start _ _ _ P (mode (scan_ w))). lia.
Qed.

Lemma loop_executed resultId tr0 tr w w' result :
  Prep scan0 tr0 w -> loopPost scan0 resultId w result w' tr -> Executed result.1 result.2 tr w'.
Proof.
  intros P (Ht & Hi & Hc). split.
  - apply Hi.
  - destruct Ht as (v & f & m & c & ->). apply P.
  - destruct Ht as (v & f & m & c & ->). simpl. unfold setActiveCursor.
    destruct (rescanning (scan_ w)); apply (pr_enough _ _ _ P).
  - intros m. by eapply loop_covers.
  - done.
Qed.

Lemma checkBase_spec w tr (Q : qstring -> Worker -> scanTrace -> Prop) :
  (forall error w' seg, calm seg -> Kept w w' -> spec_ w' = spec_ w -> Q error w' (tr ++ seg)) -> WP checkBase w tr Q.
Proof.
  intros HQ. unfold checkBase. wstep. wstep. wstep. wstep.
  assert (Hsame : forall error, Q error w tr) by (intros error; rewrite <- (app_nil_r tr); by apply HQ; [|apply kept_refl|]).
  destruct (configPhase_ w); cbn [negb]; [|wstep; apply Hsame]. destruct (base_ w) as [base|]; [|wstep; apply Hsame].
  wstep. wstep. assert (c1 : calm [Ev ValidateScanBase x]) by by apply calm_one.
  destruct (isNull x); cbn [negb]; [|wstep; by apply HQ; [|apply kept_refl|]]. wstep.
  assert (Hport : forall port seg, calm seg -> WP (do! match port with Some p => modify (fun w => w <| basePort_ := p |>) | None => ret tt end;
    noError) w (tr ++ seg) Q).
  { intros port seg Hs. wstep. destruct port as [p|]; wstep; wstep; apply HQ; try done; [|apply kept_refl].
    split; try done. by left. }
  destruct (baseChain base) as [[|first rest]|].
  - wstep. by apply (Hport None).
  - wstep. rewrite <- app_assoc. apply Hport, calm_app; [done|by apply calm_one].
  - wstep. rewrite <- app_assoc. apply Hport, calm_app; [done|by apply calm_one].
Qed.

Lemma executePass_spec sha1 w tr (Q : qstring * bool -> Worker -> scanTrace -> Prop) :
  Prep scan0 tr w -> spEntries (spec_ w) = [] ->
  (forall error completed w' tr', Executed error completed tr' w' -> Q (error, completed) w' tr') ->
  WP (executePass sha1) w tr Q.
Proof.
  intros P He HQ. unfold executePass.
  assert (Hend : forall error w' tr', Prep scan0 tr' w' -> Q (error, false) w' tr') by (intros; by apply HQ, executed_prep).
  wstep. wstep. assert (P1 : Prep scan0 (tr ++ [Ev ReadStop x]) w) by (eapply prep_kept; [done|by apply calm_one|apply kept_refl]).
  destruct x; [wstep; by apply Hend|]. wstep. apply preparePass_spec; [done|done|]. intros error w2 tr2 [P2 Hsp Hl].
  destruct (isNull error) eqn:Ee; cbn [negb]; [|wstep; by apply Hend]. unfold isNull in Ee. bool_to_prop.
  wstep. wstep. wstep. wstep. wstep. apply (shows_when _ _ _ (shows_notify _)). intros w3 s3 F3 q3.
  assert (P3 : Prep scan0 (tr2 ++ s3) w3).
  { eapply prep_kept; [exact P2|by apply calm_quiet|]. eapply kept_trans; [|by apply kept_frame]. split; try done. by left. }
  assert (E3 : spec_ w3 = spec_ w2 /\ result_list_id (scan_ w3) = result_list_id (scan_ w2)) by by destruct F3 as [v ->].
  destruct E3 as [Esp Eid]. wstep. wstep. set (look := [Ev ReadStop x]).
  assert (c4 : calm look) by by apply calm_one.
  assert (P4 : Prep scan0 ((tr2 ++ s3) ++ look) w3) by (eapply prep_kept; [done|done|apply kept_refl]).
  destruct x; [wstep; by apply Hend|]. wstep. apply loadSpec_spec; [done| |].
  { rewrite Esp. destruct Hsp as [?|?]; [by left|right]. by apply passSpec_app, passSpec_app. }
  intros error5 w5 s5 c5 P5 Eid5 Hp5. destruct (isNull error5) eqn:E5; cbn [negb]; [|wstep; by apply Hend].
  unfold isNull in E5. bool_to_prop. apply runChunks_spec.
  - apply loop_start; [done|by apply Hp5|]. rewrite Eid5, Eid. destruct (Hl Ee) as [Ho|[Hs|Hid]]; [left|exfalso|by right].
    + by apply off_mono, off_mono, off_mono. + pose proof (stop_mono tr2 s3 Hs) as Hs3. specialize (H0 Hs3). done.
  - intros result w' tr' Hpost. destruct result as [error6 completed]. apply HQ. by apply (loop_executed _ _ _ _ _ _ P5 Hpost).
Qed.

Lemma execute_spec sha1 w tr (Q : qstring * bool -> Worker -> scanTrace -> Prop) :
  Prep scan0 tr w -> spEntries (spec_ w) = [] ->
  (forall error completed w' tr', Executed error completed tr' w' -> Q (error, completed) w' tr') ->
  WP (execute sha1) w tr Q.
Proof.
  intros P He HQ. unfold execute. wstep. apply shows_stage. intros w1 s1 F1 q1. wstep. apply shows_push. intros w2 s2 F2 q2.
  wstep. apply checkBase_spec. intros error w3 s3 c3 Hk Esp. rewrite <- !app_assoc.
  assert (F12 : Frame w w2) by exact (frame_trans _ _ _ F1 F2).
  assert (P3 : Prep scan0 (tr ++ s1 ++ s2 ++ s3) w3).
  { eapply prep_kept; [exact P| |eapply kept_trans; [by apply kept_frame|exact Hk]].
    apply calm_app; [by apply calm_quiet|]. apply calm_app; [by apply calm_quiet|done]. }
  destruct (negb (isNull error)); [wstep; by apply HQ, executed_prep|]. apply executePass_spec; [done| |done].
  rewrite Esp. by destruct F12 as [v ->].
Qed.

(** ** The end of the run *)

(** The row the run leaves. *)
Record EndRow (s : IpScan) : Prop := MkEndRow {
  er_paused : status s = Paused <-> rescanResumable s = true \/ CanResumeInitial s = true;
  er_running : status s <> Running;
  er_complete : completeRow scan0 s;
  er_failed : status s = Failed -> last_error s <> [];
  er_error : status s = Completed -> status scan0 = Completed \/ last_error s = [] }.

Lemma finished_row initial error s :
  initial = status scan0 -> EndRow (finishedStatus initial error s).
Proof.
  intros ->. unfold finishedStatus. cbv zeta.
  set (s1 := if rescanning s && negb (rescanResumable s) && CanResumeInitial s then s <| mode := Initial |> else s).
  assert (E1 : rescanResumable s1 = rescanResumable s /\ CanResumeInitial s1 = CanResumeInitial s).
  { unfold s1. destruct (rescanning s) eqn:Er; [|done]. destruct (rescanResumable s) eqn:E; [by simpl|].
    destruct (CanResumeInitial s) eqn:Ec; simpl; [by split|by rewrite E, Ec]. }
  destruct E1 as [E1 E2]. set (s2 := s1 <| last_error := error |>).
  change (CanResumeInitial s2) with (CanResumeInitial s1). rewrite E2.
  set (st := if rescanResumable s || CanResumeInitial s then _ else _).
  assert (E3 : rescanResumable (s2 <| status := st |>) = rescanResumable s /\ CanResumeInitial (s2 <| status := st |>) = CanResumeInitial s)
    by by rewrite <- E1, <- E2.
  destruct E3 as [E3 E4]. split; rewrite ?E3, ?E4; simpl.
  - unfold st. destruct (rescanResumable s), (CanResumeInitial s); simpl; try tauto.
    destruct (isNull error); simpl; [destruct (status scan0)|]; split; try done; by intros [?|?].
  - unfold st. destruct (_ || _); [done|]. destruct (isNull error); [by destruct (status scan0)|done].
  - unfold completeRow. simpl. unfold st. destruct (_ || _); [done|]. destruct (isNull error); [destruct (status scan0); try done; by left|done].
  - unfold st. destruct (_ || _); [done|]. unfold isNull. destruct (bool_decide_reflect (error = [])); simpl; [by destruct (status scan0)|done].
  - unfold st. destruct (_ || _); [done|]. destruct (isNull error); simpl; [destruct (status scan0); try done; by left|done].
Qed.

Lemma completed_rescan (s : IpScan) now :
  rescanning s = true -> rescan_total s <= rescan_cursor s -> CanResumeInitial s = false ->
  EndRow ((((s <| rescan_snapshot_list_id := -1 |>) <| status := Completed |>) <| finished_at := now |>) <| last_error := [] |>).
Proof.
  intros Hr Hc Hi. set (s' := _ <| last_error := [] |>).
  assert (Er : rescanResumable s' = false) by (unfold rescanResumable; simpl; by rewrite andb_false_r).
  split; rewrite ?Er.
  - split; [done|]. intros [?|E]; [done|]. change (CanResumeInitial s = true) in E. congruence.
  - done.
  - intros _. right. simpl. unfold rescanning in Hr. bool_to_prop. by rewrite Hr.
  - done.
  - by right.
Qed.

Lemma completed_back (s : IpScan) :
  CanResumeInitial s = true ->
  EndRow ((((s <| rescan_snapshot_list_id := -1 |>) <| mode := Initial |>) <| status := Paused |>) <| last_error := [] |>).
Proof. intros Hi. split; try done. split; [|done]. intros _. right. exact Hi. Qed.

Lemma completed_initial (s : IpScan) now :
  mode s = Initial -> total s <= cursor s \/ 0 < stopAfter (sconfig scan0) <= found s ->
  EndRow ((((s <| snapshot_list_id := -1 |>) <| status := Completed |>) <| finished_at := now |>) <| last_error := [] |>).
Proof.
  intros Hm Hc. split; try done.
  - split; [done|]. intros [E|E]; [|done]. unfold rescanResumable, rescanning in E. simpl in E. by rewrite Hm in E.
  - intros _. right. simpl. by rewrite Hm.
  - by right.
Qed.

Lemma finished_cursors initial error s m : cursorOf m (finishedStatus initial error s) = cursorOf m s.
Proof. unfold finishedStatus. cbv zeta. destruct (_ && _ && _), m; done. Qed.

Lemma concludes_spec completed error w tr (Q : unit -> Worker -> scanTrace -> Prop) :
  Executed error completed tr w ->
  (forall w' seg, calm seg -> EndRow (scan_ w') -> (forall m, cursorOf m (scan_ w') = cursorOf m (scan_ w)) -> Q tt w' (tr ++ seg)) ->
  WP (concludes completed error) w tr Q.
Proof.
  intros X HQ. unfold concludes. destruct completed.
  - wstep. wstep. wstep. pose proof (ex_completed _ _ _ _ X eq_refl) as [-> He]. unfold ended, ActiveTotal, ActiveCursor in He.
    destruct (rescanning (scan_ w)) eqn:Er.
    + wstep. apply writes_delete; [apply X|]. intros w1 s1 T1 st1. wstep. wstep. wstep. wstep.
      destruct He as [He|He]; [|done]. assert (E1 : scan_ w1 = scan_ w) by by destruct T1 as (v & b & ->).
      change (CanResumeInitial _) with (CanResumeInitial (scan_ w1)). rewrite E1. destruct (CanResumeInitial (scan_ w)) eqn:Ec.
      * wstep. wstep. apply HQ; [by apply calm_steady|by apply completed_back|by intros []].
      * wstep. wstep. wstep. wstep. rewrite <- app_assoc. apply HQ; [apply calm_app; [by apply calm_steady|by apply calm_one]| |].
        -- by apply completed_rescan.
        -- by intros [].
    + wstep. apply writes_delete; [apply X|]. intros w1 s1 T1 st1. wstep. wstep. wstep. wstep. rewrite <- app_assoc.
      assert (E1 : scan_ w1 = scan_ w) by by destruct T1 as (v & b & ->).
      assert (Em : mode (scan_ w) = Initial) by (unfold rescanning in Er; destruct (mode (scan_ w)); done).
      apply HQ; [apply calm_app; [by apply calm_steady|by apply calm_one]| |].
      * simpl. rewrite E1. apply completed_initial; [done|]. destruct He as [?|He]; [by left|right].
        unfold enoughFound in He. rewrite (ex_enough _ _ _ _ X) in He. lia.
      * intros []; simpl; by rewrite E1.
  - wstep. wstep. wstep. rewrite <- (app_nil_r tr). apply HQ; [done|apply finished_row, (ex_first _ _ _ _ X)|apply finished_cursors].
Qed.

Lemma savedIn_more s1 s2 s3 s : savedIn s2 s -> savedIn (s1 ++ s2 ++ s3) s.
Proof.
  assert (Hi : forall ev, ev ∈ s2 -> ev ∈ s1 ++ s2 ++ s3) by (intros; rewrite !elem_of_app; tauto).
  intros [(row & b & H & Hp)|[H|(id & H)]].
  - left. exists row, b. auto. - right. left. auto. - right. right. exists id. auto.
Qed.

Lemma finishPass_spec completed error w tr (Q : unit -> Worker -> scanTrace -> Prop) :
  Executed error completed tr w ->
  (forall w' tr', EndRow (scan_ w') -> fFinished (flags tr') = false -> savedIn tr' (scan_ w') -> Q tt w' tr') ->
  WP (finishPass completed error) w tr Q.
Proof.
  intros X HQ. unfold finishPass. wstep. apply (concludes_spec completed error); [done|].
  intros w1 s1 c1 E1 Hm. wstep. apply persistPassState_spec.
  - rewrite calm_finished by done. apply X.
  - assert (Hc : forall m, fOff (flags (tr ++ s1)) = true \/ forall seg, steady seg -> covers scan0 ((tr ++ s1) ++ seg) m (cursorOf m (scan_ w1))).
    { intros m. rewrite Hm. destruct (ex_covers _ _ _ _ X m) as [?|Hc]; [left; by apply off_mono|right].
      intros seg Hs. apply covers_app; [by apply calm_steady|]. by apply covers_app. }
    destruct (Hc Initial) as [?|HI]; [by left|]. destruct (Hc RescanResult) as [?|HR]; [by left|right].
    intros seg Hs. split_and!; [by apply HI|by apply HR|apply E1].
  - intros s2 st2 Hsaved. wstep. wstep. wstep. wstep. wstep. apply (shows_when _ _ _ (shows_notify _)). intros w3 s3 F3 q3.
    wstep. rewrite <- !app_assoc. assert (Es : scan_ w3 = scan_ w1) by by destruct F3 as [v ->].
    apply HQ; [simpl; by rewrite Es| |].
    + rewrite calm_finished; [apply X|]. apply calm_app; [done|]. apply calm_app; [by apply calm_steady|].
      apply calm_app; [by apply calm_one|]. apply calm_app; [by apply calm_one|by apply calm_quiet].
    + simpl. rewrite Es. rewrite app_assoc. by apply savedIn_more.
Qed.

Lemma run_spec sha1 w (Q : unit -> Worker -> scanTrace -> Prop) :
  Prep scan0 [] w -> spEntries (spec_ w) = [] ->
  (forall w' tr', EndRow (scan_ w') -> savedIn tr' (scan_ w') -> fFinished (flags tr') = true -> Q tt w' tr') ->
  WP (run sha1) w [] Q.
Proof.
  intros P He HQ. unfold run. wstep. apply execute_spec; [done|done|]. intros error completed w1 tr1 X. wstep. wstep. wstep.
  apply finishPass_spec.
  { destruct X as [X1 X2 X3 X4 X5]. split; try done.
    - by rewrite calm_finished by by apply calm_one.
    - intros m. destruct (X4 m) as [?|?]; [left; by apply off_mono|right]. apply covers_app; [by apply calm_one|done].
    - intros Hc. rewrite Hc, andb_false_r. by apply X5. }
  intros w2 tr2 E2 Hf Hs. wstep. wstep. wstep. wstep. wstep. wstep.
  { simpl. by rewrite flags_snoc. }
  wstep. apply HQ; [exact E2| |].
  - rewrite <- !app_assoc. by apply (savedIn_more []).
  - rewrite !flags_snoc. done.
Qed.

Lemma newWorker_prep startMode base : Prep scan0 [] (newWorker scan0 startMode base).
Proof.
  unfold newWorker. split; simpl; try done.
  - by destruct (kind scan0).
  - intros m. unfold startOf. simpl. destruct (kind scan0), m; simpl; lia.
Qed.

(** Every call of a run is guaranteed, and its end is as [EndRow] says. *)
Lemma run_contract sha1 startMode base :
  wp (scanContract scan0) (run sha1 (newWorker scan0 startMode base)) []
    (fun '(_, w) tr => EndRow (scan_ w) /\ savedIn tr (scan_ w) /\ fFinished (flags tr) = true).
Proof. by apply (run_spec sha1 (newWorker scan0 startMode base)); [apply newWorker_prep|unfold newWorker; by destruct (kind scan0)|]. Qed.
End Run.
