(* ===== verification/ScanRunProps.v ===== *)
(** * ScanRunProps: the promises of a scan's run

    What every run of ScanWorker's thread keeps, whatever the core, the database
    and the other threads do: the positions it writes were done, the results it
    removes were tested enough, and it ends. *)

From S2P Require Import Prelude Text IpAddress ScanConfig Program ScanWorker ScanRules ScanRun.

(** A statement about every call of a trace, with the calls before it. *)
Definition Everywhere (P : scanTrace -> event Act -> Prop) (tr : scanTrace) : Prop :=
  forall tr1 ev tr2, tr = tr1 ++ ev :: tr2 -> P tr1 ev.

Section Promises.
Context `{T : QtText}.

(** A run of the scan [scan0], up to some point; and to its end. *)
Definition ScanSteps (scan0 : IpScan) (tr : scanTrace) (left : prog Act (unit * Worker)) : Prop :=
  exists sha1 startMode base, Steps (run sha1 (newWorker scan0 startMode base)) tr left /\ Fair (scanContract scan0) [] tr.

(** A position is only written when what lies before it was done. *)
Definition positionDone (scan0 : IpScan) (tr : scanTrace) (ev : event Act) : Prop :=
  match ev with
  | Ev e _ =>
      match e with
      | SaveProgress _ m c _ _ _ => covers scan0 tr m c
      | SaveScan row => covers scan0 tr Initial (cursor row) /\ covers scan0 tr RescanResult (rescan_cursor row) /\ completeRow scan0 row
      | _ => True
      end
  end.

Definition removedTested (tr : scanTrace) (ev : event Act) : Prop :=
  match ev with
  | Ev e _ => match e with RemoveEntries _ es => Forall (removable tr) es | _ => True end
  end.

(** The calls that write: after [persist_] was last seen set, and before the end is
    reported; the result list alone is created on an older look. *)
Definition writeAllowed (tr : scanTrace) (ev : event Act) : Prop :=
  match ev with
  | Ev e _ =>
      match e with
      | ClearEntries _ | DeleteIpList _ | UpsertEntries _ _ | RemoveEntries _ _ | SaveScan _ | SaveProgress _ _ _ _ _ _ => writable tr
      | AddIpList l => if isSnapshot l then writable tr else mayCreate tr
      | ScanProbe _ _ | ScanURLTest _ _ _ _ _ _ => fStop (flags tr) = false
      | FinishedHook => fFinished (flags tr) = false
      | _ => True
      end
  end.

Lemma run_everywhere scan0 P tr left :
  (forall tr ev, guaranteed (scanContract scan0) tr ev -> P tr ev) -> ScanSteps scan0 tr left -> Everywhere P tr.
Proof.
  intros HP (sha1 & m & base & Hs & Hf) tr1 ev tr2 ->. apply HP. eapply wp_call; [exact Hs|exact Hf|apply run_contract].
Qed.

(** C17: a position written to the database, by [SaveProgress] or with the row,
    is backed by work: every target position before it in its pass was covered by a
    probe that the core answered without error, and after that answer its passing
    targets were stored in the result list (or handed to the config test), and, in
    an initial pass, for each target that failed something of its address family was
    reached: a hit of the same probe was stored, or the network check got through.
    A rescan may move past failures: it keeps those whose family is down.  And a row
    says Completed only when its pass has nothing left, or enough was found, or it
    said so before the run. *)
Theorem run_saves_done scan0 tr left (H : ScanSteps scan0 tr left) : Everywhere (positionDone scan0) tr.
Proof. by apply (run_everywhere scan0 _ tr left); [intros ? [X [] x]; simpl; tauto|]. Qed.

(** C18: an entry leaves the result list only because a hit of its address
    under another port was stored before; or because it failed six tests one
    after the other and its address family was then found reachable; or, as the
    code stands, because it failed once in a chunk that the core cut short, its
    family reachable. *)
Theorem run_removes_tested scan0 tr left (H : ScanSteps scan0 tr left) : Everywhere removedTested tr.
Proof. by apply (run_everywhere scan0 _ tr left); [intros ? [X [] x]; simpl; tauto|]. Qed.

(** C20: the run writes only after it last saw [persist_] set (a result list may
    be created on an older look), never after it reported its end, which it reports
    at most once; and it starts no test once it has seen [stop_]. *)
Theorem run_writes_allowed scan0 tr left (H : ScanSteps scan0 tr left) : Everywhere writeAllowed tr.
Proof. by apply (run_everywhere scan0 _ tr left); [intros ? [X [] x]; simpl; tauto|]. Qed.

(** Whatever the run waits for can be answered. *)
Lemma call_answerable scan0 tr X (e : Act X) : scanGuarantee scan0 tr X e -> exists x, scanRely tr X e x.
Proof.
  intros Hg. destruct e; first
    [ by (exists true) | by (exists false) | by (exists tt) | by (exists None) | by (exists []) | by (exists 0) | by (exists (true, true))
    | by (exists (MkReply true [] [] 0 0 false [] 0); intros item ?%elem_of_nil)
    | by (exists (MkUrlReply true [] [] [])) | by (exists (MkBuild [] [] None ∅)) | destruct Hg ].
Qed.

(** C19: a run ends. Its loop never exhausts its fuel, so at every point it has
    either ended or waits for a call that can be answered; and when it has ended,
    the hook was called, the row it leaves was saved (unless [persist_] was seen
    cleared or the row is gone), is not Running, is Paused exactly when Resume would
    continue one of its passes, Completed only when complete, and Failed only with
    an error. *)
Theorem run_ends scan0 tr left (H : ScanSteps scan0 tr left) :
  match left with
  | Ret (_, w) => EndRow scan0 (scan_ w) /\ savedIn tr (scan_ w) /\ fFinished (flags tr) = true
  | Do e _ => exists x, scanRely tr _ e x
  end.
Proof.
  destruct H as (sha1 & m & base & Hs & Hf). pose proof (wp_steps _ _ _ _ _ _ Hs Hf (run_contract scan0 sha1 m base)) as Hw.
  destruct left as [[[] w]|X e k]; [exact Hw|]. eapply call_answerable, Hw.
Qed.
End Promises.

(** ** Runs *)

Section Runs.
#[local] Existing Instance asciiText.

(** An environment: the addresses that pass, whether probes are cut short, after how
    many calls the run is stopped and [persist_] is cleared, and what the database
    holds. *)
Record Demo := MkDemo { alive : qstring -> bool; cut : bool; stopAt : nat; offAt : nat; stored : list IpListEntry; lists : list ListHeader;
  row : option IpScan }.

Definition demoItems (d : Demo) (rq : ProbeRequest) : list ProbeItem :=
  match rqOptions rq with
  | None => []
  | Some _ =>
      map (fun '(a, p) => MkItem a p (alive d a) false p 0 12 0 0)
        (filter (fun '(a, p) => cidr (scanWorkerEntry a 0 0) = a /\ IsHostCidr a = true)
           (take (Z.to_nat (rqMax rq)) (drop (Z.to_nat (rqCursor rq)) (spEntries (rqSpec rq)))))
  end.

Definition demoReply (d : Demo) (rq : ProbeRequest) : ProbeReply :=
  let n := Z.of_nat (length (spEntries (rqSpec rq))) in
  MkReply true [] [] n (Z.min n (rqCursor rq + rqMax rq)) (cut d && bool_decide (rqOptions rq <> None)) (demoItems d rq) 0.

Definition demoOracle (d : Demo) (tr : scanTrace) (X : Type) (e : Act X) : option X :=
  match e in Act X return option X with
  | ReadStop => Some (fStop (flags tr) || Nat.leb (stopAt d) (length tr))
  | ReadPersist => Some (negb (fOff (flags tr) || Nat.leb (offAt d) (length tr)))
  | GetIpList _ => Some (Some (stored d)) | GetAllIpLists => Some (lists d)
  | GetEntries _ => Some (stored d) | EntryCount _ => Some (Z.of_nat (length (stored d)))
  | AddIpList _ => Some (Some 7) | UpsertEntries _ es => Some (Z.of_nat (length es)) | RemoveEntries _ es => Some (Z.of_nat (length es))
  | GetIpScan _ => Some (row d) | SaveScan _ => Some true
  | ScanProbe rq _ => Some (demoReply d rq)
  | ScanURLTest _ _ _ _ _ _ => Some (MkUrlReply true [] [] [])
  | ScanCheckNetwork _ => Some (true, true) | QueryScan => Some None
  | ValidateScanBase => Some [] | DialedPort _ => Some None | BuildScanTestConfig _ => Some (MkBuild [] [] None ∅)
  | TestLatencyUrl => Some (u "http://cp.cloudflare.com") | UrlTestTimeoutMs => Some 3000
  | Now => Some 5 | Generate64 => Some 9
  | SetStop | SetFinalized | SetPollStop | StopScan | Sleep100 => Some tt
  | ClearEntries _ | DeleteIpList _ | SaveProgress _ _ _ _ _ _ => Some tt
  | ProgressHook | ResultsHook | FinishedHook | NotifyListsChanged => Some tt
  | Diverge => None
  end.

Lemma demo_fair d tr X (e : Act X) x : demoOracle d tr X e = Some x -> scanRely tr X e x.
Proof.
  destruct e; simpl; try done.
  - intros [= <-] ->. done.
  - intros [= <-] ->. done.
  - intros [= <-] item Hi. unfold demoReply, demoItems in Hi. simpl in Hi. destruct (rqOptions rq); [|by apply elem_of_nil in Hi].
    apply list_elem_of_fmap in Hi as ([a q] & -> & [[Ha Hh] Hin]%list_elem_of_filter). simpl. rewrite Ha. split; [done|].
    intros _ _ _. assert (Hin2 : (a, q) ∈ drop (Z.to_nat (rqCursor rq)) (spEntries (rqSpec rq))).
    { rewrite <- (take_drop (Z.to_nat (rqMax rq)) (drop _ _)). apply elem_of_app. by left. }
    rewrite <- (take_drop (Z.to_nat (rqCursor rq)) (spEntries (rqSpec rq))). apply elem_of_app. by right.
Qed.

Definition demoRun (d : Demo) (scan0 : IpScan) (m : StartMode) : option (unit * Worker) * scanTrace :=
  answer (demoOracle d) (run (fun x => x) (newWorker scan0 m None)) [].

Definition endStatus (r : option (unit * Worker) * scanTrace) : option Status :=
  match r.1 with Some (_, w) => Some (status (scan_ w)) | None => None end.

Lemma demo_steps d scan0 m :
  exists left, ScanSteps scan0 (demoRun d scan0 m).2 left /\
    forall st, endStatus (demoRun d scan0 m) = Some st -> exists w, left = Ret (tt, w) /\ status (scan_ w) = st.
Proof.
  destruct (answer_fair (scanContract scan0) (demoOracle d) (run (fun x => x) (newWorker scan0 m None)) [])
    as (tr & q & Etr & Hs & Hf & Ha); [intros ? ? ? ?; apply demo_fair|].
  exists q. unfold demoRun, endStatus. rewrite Etr. split; [by exists (fun x => x), m, None|].
  intros st E. destruct (answer _ _ _).1 as [[[] w]|] eqn:Er; [|done]. injection E as <-. exists w. by rewrite (Ha _ eq_refl).
Qed.

Definition demoScan : IpScan :=
  MkScan 3 (u "s") Generic 1 6 (DefaultConfig Generic) Idle Initial (-1) 0 0 0 [] 8 0 0 0 0 [] 0 0.

Definition demoHosts : list IpListEntry := [Entry (u "1.2.3.4") 443 0; Entry (u "1.2.3.5") 443 0].

Definition demoAlive (a : qstring) : bool := bool_decide (a = u "1.2.3.4").

Definition demo : Demo :=
  MkDemo demoAlive false 1000 1000 demoHosts [MkHeader 6 [] RoleScanResult 3 2] (Some demoScan).

Definition isCall (P : forall X, Act X -> bool) (ev : event Act) : bool := match ev with Ev e _ => P _ e end.

Definition calls (P : forall X, Act X -> bool) (tr : scanTrace) : nat := length (filter (fun ev => isCall P ev = true) tr).

Definition isSave X (e : Act X) : bool := match e with SaveProgress _ _ c _ _ _ => 0 <? c | _ => false end.

Definition isRemove X (e : Act X) : bool := match e with RemoveEntries _ [_] => true | _ => false end.

Definition isUpsert X (e : Act X) : bool := match e with UpsertEntries _ [_] => true | _ => false end.

(** A probe that tests, rather than counts. *)
Definition isTest X (e : Act X) : bool := match e with ScanProbe rq _ => bool_decide (rqOptions rq <> None) | _ => false end.

Lemma run_saves_done_witness :
  let r := demoRun demo demoScan Resume in
  endStatus r = Some Completed /\ calls isSave r.2 = 1%nat /\ Everywhere (positionDone demoScan) r.2.
Proof.
  intros r. split; [vm_compute; reflexivity|]. split; [vm_compute; reflexivity|].
  destruct (demo_steps demo demoScan Resume) as (left & H & _). exact (run_saves_done demoScan r.2 left H).
Defined.

(** Six tests, then the dead address goes. *)
Lemma run_removes_tested_witness :
  let r := demoRun demo demoScan RescanResults in
  endStatus r = Some Completed /\ calls isTest r.2 = 6%nat /\ calls isRemove r.2 = 1%nat /\ Everywhere removedTested r.2.
Proof.
  intros r. split; [vm_compute; reflexivity|]. split; [vm_compute; reflexivity|]. split; [vm_compute; reflexivity|].
  destruct (demo_steps demo demoScan RescanResults) as (left & H & _). exact (run_removes_tested demoScan r.2 left H).
Defined.

Lemma run_writes_allowed_witness :
  let r := demoRun demo demoScan Resume in calls isUpsert r.2 = 1%nat /\ Everywhere writeAllowed r.2.
Proof.
  intros r. split; [vm_compute; reflexivity|].
  destruct (demo_steps demo demoScan Resume) as (left & H & _). exact (run_writes_allowed demoScan r.2 left H).
Defined.

Lemma run_ends_witness :
  exists w, EndRow demoScan (scan_ w) /\ status (scan_ w) = Completed.
Proof.
  destruct (demo_steps demo demoScan Resume) as (left & H & Hw).
  destruct (Hw Completed) as (w & -> & Es); [vm_compute; reflexivity|]. exists w.
  exact (conj (proj1 (run_ends demoScan _ (Ret (tt, w)) H)) Es).
Defined.

(** A chunk that the core cut short is not confirmed, and its failures go all the
    same, after a single test. *)
Lemma rescan_cut_short_removes :
  exists scan0 tr w, ScanSteps scan0 tr (Ret (tt, w)) /\ calls isTest tr = 1%nat /\ calls isRemove tr = 1%nat /\ status (scan_ w) = Completed.
Proof.
  set (d := MkDemo demoAlive true 1000 1000 demoHosts [MkHeader 6 [] RoleScanResult 3 2] (Some demoScan)).
  destruct (demo_steps d demoScan RescanResults) as (left & H & Hw).
  destruct (Hw Completed) as (w & -> & Es); [vm_compute; reflexivity|].
  exists demoScan, (demoRun d demoScan RescanResults).2, w. split_and!; [exact H|vm_compute; reflexivity|vm_compute; reflexivity|exact Es].
Qed.

(** A rescan that saw [persist_] cleared still creates a result list. *)
Lemma rescan_creates_after_disable :
  exists scan0 tr1 l x tr2 left, ScanSteps scan0 (tr1 ++ Ev (AddIpList l) x :: tr2) left /\ fOff (flags tr1) = true.
Proof.
  set (d := MkDemo demoAlive false 1000 4 demoHosts [] (Some demoScan)).
  destruct (demo_steps d demoScan RescanResults) as (left & H & _).
  set (tr := (demoRun d demoScan RescanResults).2) in *.
  exists demoScan, (take 6 tr), (MkNewList (ResultListName (u "s")) RoleScanResult 3 []), (Some 7), (drop 7 tr), left.
  split; [|vm_compute; reflexivity].
  rewrite take_drop_middle; [exact H|]. vm_compute. reflexivity.
Qed.
End Runs.
