(* ===== verification/Interleave.v ===== *)
(** * Interleave: threads that share a state

    Threads are programs of calls (Program), each call one atomic step on a shared
    state.  A thread is verified by rely and guarantee ([rg]): between two of its
    calls the others may do what [rely] allows, and every call keeps [guar].
    [rg_sound] puts the threads together: whatever the schedule, all of them stay
    verified and the invariant holds. *)

From S2P Require Import Prelude Program.

Section Threads.
Context {Act : Type -> Type} {St Op R : Type}.

(** [exec t e s x s']: thread [t] calls [e] in [s], is answered [x] and leaves [s'];
    there may be several answers (faults), or none (it waits). *)
Context (exec : nat -> forall X, Act X -> St -> X -> St -> Prop).

(** What an operation runs, when it may be started, what its end undoes, and what a
    crash of the process leaves. *)
Context (code : Op -> prog Act R) (may : nat -> Op -> St -> Prop) (leave : nat -> St -> St) (crash : St -> St -> Prop).

(** A running operation, with the state it started in. *)
Record Thread := MkThread { top : Op; tfrom : St; tleft : prog Act R }.

Abbreviation pool := (gmap nat Thread).

Inductive machine_step : pool * St -> pool * St -> Prop :=
  | ms_start ps s t op : ps !! t = None -> may t op s ->
      machine_step (ps, s) (<[t := MkThread op s (code op)]> ps, s)
  | ms_call ps s t op s0 X (e : Act X) k x s' : ps !! t = Some (MkThread op s0 (Do e k)) -> exec t X e s x s' ->
      machine_step (ps, s) (<[t := MkThread op s0 (k x)]> ps, s')
  | ms_end ps s t op s0 r : ps !! t = Some (MkThread op s0 (Ret r)) -> machine_step (ps, s) (delete t ps, leave t s)
  | ms_crash ps s s' : crash s s' -> machine_step (ps, s) (∅, s').

(** ** Rely and guarantee *)

Context (Inv : St -> Prop) (guar : nat -> St -> St -> Prop).

(** The calls a thread may make. *)
Context (fine : forall X, Act X -> Prop).

Definition rely (t : nat) (s s' : St) : Prop := exists u, u <> t /\ guar u s s' /\ Inv s /\ Inv s'.

Definition stable (t : nat) (P : St -> Prop) : Prop := forall s s', rely t s s' -> P s -> P s'.

(** From [s], whatever the others do, the calls of [p] are allowed ones and keep the
    guarantee and the invariant, and [Q] holds when it ends, as long as only others act. *)
Fixpoint rg {A} (t : nat) (p : prog Act A) (s : St) (Q : A -> St -> Prop) : Prop :=
  match p with
  | Ret a => forall s', rtc (rely t) s s' -> Q a s'
  | Do e k => fine _ e /\ forall s' x s'', rtc (rely t) s s' -> Inv s' -> exec t _ e s' x s'' ->
      guar t s' s'' /\ Inv s'' /\ rg t (k x) s'' Q
  end.

Lemma rg_stable {A} t (p : prog Act A) s s' Q : rtc (rely t) s s' -> rg t p s Q -> rg t p s' Q.
Proof.
  intros Hs. destruct p as [a|X e k]; simpl.
  - intros H s2 Hs2. apply H. by etransitivity.
  - intros [Hf H]. split; [done|]. intros s2 x s3 Hs2. apply H. by etransitivity.
Qed.

Lemma rg_mono {A} t (p : prog Act A) s (Q Q' : A -> St -> Prop) :
  (forall a s', Q a s' -> Q' a s') -> rg t p s Q -> rg t p s Q'.
Proof.
  intros HQ. revert s. induction p as [a|X e k IH]; intros s; simpl.
  - intros H s' Hs. by apply HQ, H.
  - intros [Hf H]. split; [done|]. intros s' x s'' Hs Hi He.
    destruct (H s' x s'' Hs Hi He) as (H1 & H2 & H3). split_and!; [done|done|by apply IH].
Qed.

Lemma rg_bind {A B} t (p : prog Act A) (f : A -> prog Act B) s Q :
  rg t p s (fun a s' => rg t (f a) s' Q) -> rg t (pbind p f) s Q.
Proof.
  revert s. induction p as [a|X e k IH]; intros s; simpl.
  - intros H. apply H. constructor.
  - intros [Hf H]. split; [done|]. intros s' x s'' Hs Hi He.
    destruct (H s' x s'' Hs Hi He) as (H1 & H2 & H3). split_and!; [done|done|by apply IH].
Qed.

Lemma stable_rtc t P s s' : stable t P -> rtc (rely t) s s' -> P s -> P s'.
Proof. intros Hst. induction 1; [done|]. intros HP. by apply IHrtc, (Hst x). Qed.

Lemma rg_ret {A} t (a : A) s (P : St -> Prop) (Q : A -> St -> Prop) :
  stable t P -> P s -> (forall s', P s' -> Q a s') -> rg t (Ret a) s Q.
Proof. intros Hst HP HQ s' Hs. by apply HQ, (stable_rtc t P s). Qed.

(** A call, with what is known before it, which the others keep. *)
Lemma rg_call {A X} t (e : Act X) (k : X -> prog Act A) s (P : St -> Prop) Q :
  stable t P -> fine X e -> P s ->
  (forall s' x s'', P s' -> Inv s' -> exec t X e s' x s'' -> guar t s' s'' /\ Inv s'' /\ rg t (k x) s'' Q) ->
  rg t (Do e k) s Q.
Proof. intros Hst Hf HP H. split; [done|]. intros s' x s'' Hs. apply H. by apply (stable_rtc t P s). Qed.

(** ** All threads together *)

Context (post : nat -> Op -> St -> R -> St -> Prop).

(** Every operation that may start is verified. *)
Context (verified : forall t op s, Inv s -> may t op s -> rg t (code op) s (post t op s)).
Context (leave_ok : forall t s, Inv s -> guar t s (leave t s) /\ Inv (leave t s)).
Context (crash_ok : forall s s', Inv s -> crash s s' -> Inv s').

Definition all_verified (c : pool * St) : Prop :=
  Inv c.2 /\ forall t th, c.1 !! t = Some th -> rg t (tleft th) c.2 (post t (top th) (tfrom th)).

Lemma others_verified (ps : pool) s s' t :
  Inv s -> Inv s' -> guar t s s' -> (forall u th, ps !! u = Some th -> rg u (tleft th) s (post u (top th) (tfrom th))) ->
  forall u th, u <> t -> ps !! u = Some th -> rg u (tleft th) s' (post u (top th) (tfrom th)).
Proof.
  intros Hi Hi' Hg H u th Hu E. apply (rg_stable u _ s); [|by apply H]. apply rtc_once. exists t. by split_and!.
Qed.

Theorem rg_sound c c' : rtc machine_step c c' -> all_verified c -> all_verified c'.
Proof.
  induction 1 as [|c c' c'' Hstep _ IH]; [done|]. intros [Hi H]. apply IH. clear IH.
  destruct Hstep as [ps s t op Hn Hm|ps s t op s0 X e k x s' E He|ps s t op s0 r E|ps s s' Hc]; simpl in *.
  - split; [done|]. simpl. intros u th [[<- <-]|[_ E]]%lookup_insert_Some; [by apply verified|by apply H].
  - destruct (proj2 (H t _ E) s x s' (rtc_refl _ _) Hi He) as (H1 & H2 & H3). split; [done|]. simpl.
    intros u th [[<- <-]|[Hn Eu]]%lookup_insert_Some; [done|]. by eapply (others_verified ps s).
  - destruct (leave_ok t s Hi) as [H1 H2]. split; [done|]. simpl.
    intros u th [Hn Eu]%lookup_delete_Some. by eapply (others_verified ps s).
  - split; [by eapply crash_ok|]. simpl. intros u th E. by rewrite lookup_empty in E.
Qed.

(** What a finished operation established; and what each call of a thread keeps. *)
Lemma ended_post (c : pool * St) t op s0 r : all_verified c -> c.1 !! t = Some (MkThread op s0 (Ret r)) -> post t op s0 r c.2.
Proof. intros [_ H] E. apply (H t _ E). constructor. Qed.

Lemma call_guar (c : pool * St) t op s0 X (e : Act X) k x s' :
  all_verified c -> c.1 !! t = Some (MkThread op s0 (Do e k)) -> exec t X e c.2 x s' -> guar t c.2 s' /\ Inv s'.
Proof. intros [Hi H] E He. destruct (proj2 (H t _ E) c.2 x s' (rtc_refl _ _) Hi He) as (H1 & H2 & _). done. Qed.
End Threads.
