(* ===== verification/IpListStore.v ===== *)
(** * IpListStore: the stored IP lists

    src/database/IpListsRepo.cpp: the rows of a list belong to generations of
    which readers see one; a bulk write fills another generation, chunk by chunk,
    and then moves the list to it.  Each transaction is a call ([ListAct]), a
    function on the two tables ([Store]) that a fault may refuse; the operations
    are programs of calls, which any number of threads run side by side. *)

From S2P Require Import Prelude Text IpAddress Program.

(** Rows a transaction writes or reads at most. *)
Definition kIpListsRepoChunkRows : nat := Z.to_nat 20000.

(** ** The tables *)

Inductive SourceKind := Manual | Url | RuleSet.

(** The columns that describe a list. *)
Record IpListMeta := MkMeta {
  mName : qstring; mRelated : Z; mRole : Role; mSourceKind : SourceKind; mSource : qstring; mAutoUpdate : bool;
  mUpdateInterval : Z; mLastUpdate : Z; mLastError : qstring }.

Definition newMeta : IpListMeta := MkMeta [] (-1) RoleUser Manual [] false 1440 0 [].

Record Head := MkHead { meta : IpListMeta; gen : Z }.

(** The entries of one generation of a list, with [entry_order], in its order. *)
Abbreviation Rows := (list (Z * IpListEntry)).

(** What an operation did to a list, as its readers see it. *)
Inductive Effect :=
  | SetAll (id : Z) (es : list IpListEntry) | Upserted (id : Z) (es : list IpListEntry) (appended : Z)
  | Removed (id : Z) (es : list IpListEntry) (removed : Z) | Added (id : Z) (es : list IpListEntry) | Deleted (id : Z).

(** [adding] (the lists a thread has created and not yet returned) and [journal]
    (the effects, with the thread) are not stored: they are for the statements. *)
Record Store := MkStore {
  heads : gmap Z Head; table : gmap (Z * Z) Rows; lastId : Z; claimed : gmap Z nat;
  adding : gmap Z nat; journal : list (nat * Effect) }.

Definition etaStore (s : Store) : Store :=
  MkStore (heads s) (table s) (lastId s) (claimed s) (adding s) (journal s).

#[export] Instance set_heads : Setter heads := ltac:(setter etaStore).
#[export] Instance set_table : Setter table := ltac:(setter etaStore).
#[export] Instance set_lastId : Setter lastId := ltac:(setter etaStore).
#[export] Instance set_claimed : Setter claimed := ltac:(setter etaStore).
#[export] Instance set_adding : Setter adding := ltac:(setter etaStore).
#[export] Instance set_journal : Setter journal := ltac:(setter etaStore).

Definition generationOf (s : Store) (id : Z) : option Z := gen <$> heads s !! id.

Definition rowsOf (s : Store) (id g : Z) : Rows := default [] (table s !! (id, g)).

Definition setRows (id g : Z) (rs : Rows) (s : Store) : Store := s <| table := <[(id, g) := rs]> (table s) |>.

Definition setGeneration (id g : Z) (s : Store) : Store :=
  s <| heads := alter (fun h => MkHead (meta h) g) id (heads s) |>.

Definition note (t : nat) (e : Effect) (s : Store) : Store := s <| journal := journal s ++ [(t, e)] |>.

Definition sameTarget (a b : IpListEntry) : bool := bool_decide (cidr a = cidr b) && (port a =? port b).

(** [ipListsRepoUnique]: no address and port twice; the first one wins. *)
Fixpoint uniqueLoop (seen : gset qstring) (es : list IpListEntry) : list IpListEntry :=
  match es with
  | [] => []
  | e :: es =>
      if bool_decide (cidr e = []) then uniqueLoop seen es
      else
        let key := cidr e ++ [32] ++ number 10 (port e) in
        if bool_decide (key ∈ seen) then uniqueLoop seen es else e :: uniqueLoop ({[key]} ∪ seen) es
  end.

Definition ipListsRepoUnique (es : list IpListEntry) : list IpListEntry := uniqueLoop ∅ es.

(** INSERT OR IGNORE of a row: [None] when its order or its target is taken. *)
Fixpoint insertOrdered (o : Z) (e : IpListEntry) (rs : Rows) : Rows :=
  match rs with
  | [] => [(o, e)]
  | (o', e') :: rs' => if o <? o' then (o, e) :: rs else (o', e') :: insertOrdered o e rs'
  end.

Definition insertIgnore (o : Z) (e : IpListEntry) (rs : Rows) : option Rows :=
  if existsb (fun '(o', e') => (o' =? o) || sameTarget e' e) rs then None else Some (insertOrdered o e rs).

(** The rows of [es], numbered from [o]; with how many were written. *)
Fixpoint insertEntries (o : Z) (es : list IpListEntry) (rs : Rows) : Rows * Z :=
  match es with
  | [] => (rs, 0)
  | e :: es =>
      let '(rs, n) := match insertIgnore o e rs with Some rs => (rs, 1) | None => (rs, 0) end in
      let '(rs, m) := insertEntries (o + 1) es rs in (rs, n + m)
  end.

(** ** The transactions

    [None]: the transaction does not go through, and changes nothing. *)

(** [begin], [end]: the part of [es] a chunk takes. *)
Definition chunkEnd (es : list IpListEntry) (begin : nat) : nat := Nat.min (begin + kIpListsRepoChunkRows) (length es).

Definition chunkOf (es : list IpListEntry) (begin : nat) : list IpListEntry :=
  take (chunkEnd es begin - begin) (drop begin es).

(** Whether rows are left to purge. *)
Definition purgeChunk (id g : Z) (s : Store) : option (bool * Store) :=
  if bool_decide (generationOf s id = Some g) then None
  else
    match rowsOf s id g !! (kIpListsRepoChunkRows - 1)%nat with
    | Some (bound, _) => Some (true, setRows id g (filter (fun r => bound < r.1) (rowsOf s id g)) s)
    | None => Some (false, setRows id g [] s)
    end.

(** The generations a list has rows of. *)
Definition rowGenerations (s : Store) (id : Z) : list Z :=
  map (fun x => x.1.2) (filter (fun x : Z * Z * Rows => x.1.1 = id /\ x.2 <> []) (map_to_list (table s))).

Definition detached (m : IpListMeta) : bool := bool_decide (mRole m = RoleScanSnapshot) && (mRelated m =? -1).

Definition bumpGeneration (t : nat) (id : Z) (requireDetached : bool) (s : Store) : option (Z * Store) :=
  match heads s !! id with
  | None => None
  | Some h =>
      if requireDetached && negb (detached (meta h)) then None
      else
        let fresh := fold_right Z.max (gen h) (rowGenerations s id) + 1 in
        Some (fresh, note t (SetAll id []) (setGeneration id fresh s))
  end.

Definition stageChunk (t : nat) (id current target : Z) (es : list IpListEntry) (begin : nat) (s : Store) : option (Z * Store) :=
  if bool_decide (generationOf s id = Some current) then
    let '(rs, written) := insertEntries (Z.of_nat begin) (chunkOf es begin) (rowsOf s id target) in
    let s := setRows id target rs s in
    Some (written, if Nat.eqb (chunkEnd es begin) (length es) then note t (SetAll id es) (setGeneration id target s) else s)
  else None.

(** A row of an upsert: appended, or its latency updated. *)
Definition upsertRow (acc : Rows * Z * Z) (e : IpListEntry) : Rows * Z * Z :=
  let '(rs, order, appended) := acc in
  if bool_decide (cidr e = []) then acc
  else
    match insertIgnore order e rs with
    | Some rs => (rs, order + 1, appended + 1)
    | None => (map (fun '(o, e') => (o, if sameTarget e' e then Entry (cidr e') (port e') (latencyMs e) else e')) rs, order, appended)
    end.

Definition nextOrder (rs : Rows) : Z := match last rs with Some (o, _) => o + 1 | None => 0 end.

(** [pinned]: the generation of the chunks before. *)
Definition sameAs (pinned : option Z) (g : Z) : bool := match pinned with Some p => p =? g | None => true end.

Definition upsertChunk (t : nat) (id : Z) (pinned : option Z) (es : list IpListEntry) (s : Store) : option (Z * Z * Store) :=
  match generationOf s id with
  | None => None
  | Some g =>
      if sameAs pinned g then
        let '(rs, _, appended) := fold_left upsertRow es (rowsOf s id g, nextOrder (rowsOf s id g), 0) in
        Some (g, appended, note t (Upserted id es appended) (setRows id g rs s))
      else None
  end.

Definition removeRow (acc : Rows * Z) (e : IpListEntry) : Rows * Z :=
  let '(rs, removed) := acc in
  let kept := filter (fun r => sameTarget r.2 e = false) rs in (kept, removed + Z.of_nat (length rs - length kept)).

Definition removeChunk (t : nat) (id : Z) (pinned : option Z) (es : list IpListEntry) (s : Store) : option (Z * Z * Store) :=
  match generationOf s id with
  | None => None
  | Some g =>
      if sameAs pinned g then
        let '(rs, removed) := fold_left removeRow es (rowsOf s id g, 0) in
        Some (g, removed, note t (Removed id es removed) (setRows id g rs s))
      else None
  end.

(** The header, and the entries when they fit one chunk. *)
Definition insertList (t : nat) (m : IpListMeta) (es : list IpListEntry) (s : Store) : option (Z * Z * Store) :=
  let id := lastId s + 1 in
  if id <=? 0 then None
  else
    let '(rs, written) := insertEntries 0 es [] in
    Some (id, written,
      note t (Added id es) (setRows id 0 rs
        (((s <| lastId := id |>) <| heads := <[id := MkHead m 0]> (heads s) |>) <| adding := <[id := t]> (adding s) |>))).

(** DELETE of a header takes its rows along (ON DELETE CASCADE). *)
Definition dropList (t : nat) (id : Z) (s : Store) : Store :=
  note t (Deleted id)
    ((s <| heads := delete id (heads s) |>) <| table := filter (fun x => x.1.1 <> id) (table s) |>).

Definition deleteHeader (t : nat) (id : Z) (expected : option Z) (s : Store) : Store :=
  match generationOf s id with
  | None => s
  | Some g => if sameAs expected g then dropList t id s else s
  end.

(** A copy's header; with the generation of the source. *)
Definition insertCopy (t : nat) (source : Z) (name : qstring) (s : Store) : option (Z * Z * Store) :=
  match generationOf s source with
  | None => None
  | Some g =>
      match insertList t (MkMeta name (-1) RoleUser Manual [] false 1440 0 []) [] s with
      | Some (id, _, s) => Some (id, g, s)
      | None => None
      end
  end.

(** The source rows after [after], up to a chunk of them; [None] for the last. *)
Definition copyChunk (t : nat) (id source sourceGeneration after : Z) (s : Store) : option (option Z * Store) :=
  if bool_decide (generationOf s id = Some 0) then
    let left := filter (fun r => after < r.1) (rowsOf s source sourceGeneration) in
    let bound := fst <$> left !! (kIpListsRepoChunkRows - 1)%nat in
    let part := match bound with Some b => filter (fun r => r.1 <= b) left | None => left end in
    let target := rowsOf s id 1 in
    if existsb (fun r => existsb (fun r' => (r.1 =? r'.1) || sameTarget r.2 r'.2) target) part then None
    else
      let rs := fold_left (fun rs r => insertOrdered r.1 r.2 rs) part target in
      let s := setRows id 1 rs s in
      Some (bound, match bound with Some _ => s | None => note t (SetAll id (map snd rs)) (setGeneration id 1 s) end)
  else None.

Definition detachMeta (m : IpListMeta) : IpListMeta :=
  MkMeta (mName m) (-1) RoleScanSnapshot (mSourceKind m) (mSource m) (mAutoUpdate m) (mUpdateInterval m) (mLastUpdate m) (mLastError m).

Definition alterMeta (f : IpListMeta -> IpListMeta) (id : Z) (s : Store) : Store :=
  s <| heads := alter (fun h => MkHead (f (meta h)) (gen h)) id (heads s) |>.

(** A page of the generation [g]: [None] when the list is at another by now. *)
Definition readPage (s : Store) (id g after offset : Z) (page : nat) : option Rows :=
  if bool_decide (generationOf s id = Some g) then
    Some (take page (if after <? 0 then drop (Z.to_nat (Z.max offset 0)) (rowsOf s id g)
                     else filter (fun r => after < r.1) (rowsOf s id g)))
  else None.

(** A whole read under one hold of the lock. *)
Definition maxInt64 : Z := 2 ^ 63 - 1.

Definition limited {A} (offset limit : Z) (l : list A) : list A :=
  let remaining := if limit <? 0 then maxInt64 else limit in
  take (Z.to_nat (Z.min remaining (Z.of_nat (length l)))) (drop (Z.to_nat (Z.max offset 0)) l).

Definition lockedRead (s : Store) (id offset limit : Z) : list IpListEntry :=
  match generationOf s id with None => [] | Some g => limited offset limit (map snd (rowsOf s id g)) end.

(** Leftovers of writes cut short by an exit, as [createTables] deletes them: for
    every list with rows of another generation, those of lower ones and those of
    higher ones, each in a transaction of its own. *)
Definition Leftover := (Z * Z * bool)%type.

Definition isLeftover (d : Leftover) (id g : Z) : bool :=
  let '(i, keep, below) := d in bool_decide (id = i) && (if below : bool then g <? keep else keep <? g).

Definition deleteLeftover (s : Store) (d : Leftover) : Store :=
  s <| table := filter (fun x => isLeftover d x.1.1 x.1.2 = false) (table s) |>.

Definition leftovers (s : Store) : list Leftover :=
  concat (map (fun '(id, h) => [(id, gen h, true); (id, gen h, false)])
    (filter (fun '(id, h) => Exists (fun g => g <> gen h) (rowGenerations s id)) (map_to_list (heads s)))).

Definition purgeLeftovers (s : Store) : Store := fold_left deleteLeftover (leftovers s) s.

(** ** The operations *)

Inductive ListAct : Type -> Type :=
  (* ListClaim: waits until no other write of the list is under way; and its end *)
  | Claim (id : Z) : ListAct unit | Release (id : Z) : ListAct unit
  (* [None]: no such list, or an error *)
  | LockedGeneration (id : Z) : ListAct (option Z)
  (* a generation other than [keep] with rows; [None]: an error *)
  | FindStale (id keep : Z) : ListAct (option (option Z))
  | PurgeChunk (id g : Z) : ListAct (option bool)
  | BumpGeneration (id : Z) (requireDetached : bool) : ListAct (option Z)
  | StageChunk (id current target : Z) (es : list IpListEntry) (begin : nat) : ListAct (option Z)
  | InsertList (m : IpListMeta) (es : list IpListEntry) : ListAct (option (Z * Z))
  | DeleteHeader (id : Z) (expected : option Z) : ListAct unit
  | UpsertChunk (id : Z) (pinned : option Z) (es : list IpListEntry) : ListAct (option (Z * Z))
  | RemoveChunk (id : Z) (pinned : option Z) (es : list IpListEntry) : ListAct (option (Z * Z))
  | InsertCopy (source : Z) (name : qstring) : ListAct (option (Z * Z))
  | CopyChunk (id source sourceGeneration after : Z) : ListAct (option (option Z))
  | UpdateHeader (id : Z) (m : IpListMeta) : ListAct bool
  | Detach (id : Z) : ListAct unit
  (* readers; the outer [None] is an error *)
  | ReadHeader (id : Z) : ListAct (option (option Head))
  | ReadPage (id g after offset : Z) (page : nat) : ListAct (option (option Rows))
  | LockedEntries (id offset limit : Z) : ListAct (option (list IpListEntry))
  | LockedList (id : Z) : ListAct (option (option (IpListMeta * list IpListEntry)))
  | CountEntries (id : Z) : ListAct Z
  (* never answered: a loop that is still going on *)
  | Loop : ListAct Empty_set.

Definition act {X} (e : ListAct X) : prog ListAct X := Do e Ret.

Declare Scope list_scope_.
Delimit Scope list_scope_ with lists.
Notation "'let*' x := m 'in' k" := (pbind m (fun x => k)) (at level 10, x name, m at level 100, k at level 200) : list_scope_.
Notation "'let*' ' p := m 'in' k" := (pbind m (fun p => k)) (at level 10, p strict pattern, m at level 100, k at level 200) : list_scope_.
Open Scope list_scope_.

Definition loop {X} : prog ListAct X := Do Loop (fun x : Empty_set => match x return prog ListAct X with end).

(** The rest of the block under a claim. *)
Definition claiming {X} (id : Z) (body : prog ListAct X) : prog ListAct X :=
  let* _ := act (Claim id) in let* x := body in let* _ := act (Release id) in Ret x.

(** [fuel]: how often a purge has gone round; a run is cut there, so what holds for
    every fuel holds for every finite part of a run. *)
Fixpoint ipListsRepoPurgeGeneration (fuel : nat) (id g : Z) : prog ListAct bool :=
  match fuel with
  | O => loop
  | S fuel =>
      let* more := act (PurgeChunk id g) in
      match more with
      | None => Ret false
      | Some true => ipListsRepoPurgeGeneration fuel id g
      | Some false => Ret true
      end
  end.

Fixpoint ipListsRepoPurgeExcept (fuel : nat) (id keep : Z) : prog ListAct bool :=
  match fuel with
  | O => loop
  | S fuel' =>
      let* stale := act (FindStale id keep) in
      match stale with
      | None => Ret false
      | Some None => Ret true
      | Some (Some g) =>
          let* ok := ipListsRepoPurgeGeneration fuel id g in
          if ok then ipListsRepoPurgeExcept fuel' id keep else Ret false
      end
  end.

(** The chunks from [begin] on; [rounds] of them are enough. *)
Fixpoint stageLoop (rounds : nat) (id current target : Z) (es : list IpListEntry) (begin : nat) (written : Z) : prog ListAct (option Z) :=
  match rounds with
  | O => loop
  | S rounds =>
      let* n := act (StageChunk id current target es begin) in
      match n with
      | None => Ret None
      | Some n =>
          if Nat.ltb (chunkEnd es begin) (length es)
          then stageLoop rounds id current target es (chunkEnd es begin) (written + n)
          else Ret (Some (written + n))
      end
  end.

Definition ipListsRepoStage (id current target : Z) (es : list IpListEntry) : prog ListAct (option Z) :=
  stageLoop (S (length es)) id current target es 0 0.

Definition ipListsRepoDiscard (fuel : nat) (id : Z) (expected : option Z) : prog ListAct unit :=
  let* purged := ipListsRepoPurgeExcept fuel id (default (-1) expected) in
  match expected with
  | None => act (DeleteHeader id None)
  | Some _ => if purged then act (DeleteHeader id expected) else Ret tt
  end.

(** The id and the entry count of the new list. *)
Definition AddIpList (fuel : nat) (m : IpListMeta) (entries : list IpListEntry) : prog ListAct (option (Z * Z)) :=
  let es := ipListsRepoUnique entries in
  let staged := Nat.ltb kIpListsRepoChunkRows (length es) in
  let* made := act (InsertList m (if staged then [] else es)) in
  match made with
  | None => Ret None
  | Some (id, written) =>
      if staged then
        claiming id
          (let* done := ipListsRepoStage id 0 1 es in
           match done with
           | Some written => Ret (Some (id, written))
           | None => let* _ := ipListsRepoDiscard fuel id None in Ret None
           end)
      else Ret (Some (id, written))
  end.

Definition ReplaceEntries (fuel : nat) (id : Z) (entries : list IpListEntry) : prog ListAct bool :=
  if id <? 0 then Ret false
  else
    let es := ipListsRepoUnique entries in
    claiming id
      (let* current := act (LockedGeneration id) in
       match current with
       | None => Ret false
       | Some current =>
           let* clean := ipListsRepoPurgeExcept fuel id current in
           if negb clean then Ret false
           else
             let* done := ipListsRepoStage id current (current + 1) es in
             match done with
             | None => let* _ := ipListsRepoPurgeGeneration fuel id (current + 1) in Ret false
             | Some _ => let* _ := ipListsRepoPurgeGeneration fuel id current in Ret true
             end
       end).

(** [es] in chunks from [begin] on; what a call did is added up until one fails. *)
Section Chunks.
Context (call : option Z -> list IpListEntry -> ListAct (option (Z * Z))).

Fixpoint batchLoop (rounds : nat) (es : list IpListEntry) (begin : nat) (pinned : option Z) (count : Z) : prog ListAct Z :=
  match rounds with
  | O => loop
  | S rounds =>
      if Nat.ltb begin (length es) then
        let* n := act (call pinned (chunkOf es begin)) in
        match n with
        | None => Ret count
        | Some (g, n) => batchLoop rounds es (begin + kIpListsRepoChunkRows) (Some g) (count + n)
        end
      else Ret count
  end.
End Chunks.

Definition UpsertEntries (id : Z) (es : list IpListEntry) : prog ListAct Z :=
  if (id <? 0) || bool_decide (es = []) then Ret 0 else batchLoop (UpsertChunk id) (S (length es)) es 0 None 0.

Definition RemoveEntries (id : Z) (es : list IpListEntry) : prog ListAct Z :=
  if (id <? 0) || bool_decide (es = []) then Ret 0 else batchLoop (RemoveChunk id) (S (length es)) es 0 None 0.

Definition ClearEntries (fuel : nat) (id : Z) : prog ListAct unit :=
  if id <? 0 then Ret tt
  else
    claiming id
      (let* fresh := act (BumpGeneration id false) in
       match fresh with
       | None => Ret tt
       | Some g => let* _ := ipListsRepoPurgeExcept fuel id g in Ret tt
       end).

Definition DeleteIpList (fuel : nat) (id : Z) (onlyIfDetached : bool) : prog ListAct unit :=
  if id <? 0 then Ret tt
  else
    claiming id
      (let* fresh := act (BumpGeneration id onlyIfDetached) in
       match fresh with
       | None => Ret tt
       | Some g => ipListsRepoDiscard fuel id (Some g)
       end).

(** ** Reading *)

(** Pages of [g] until [remaining] rows are read or there are no more; [None]: the
    list moved to another generation; the outer [None]: an error. *)
Fixpoint readLoop (rounds : nat) (id g offset remaining after : Z) (out : list IpListEntry) :
    prog ListAct (option (option (list IpListEntry))) :=
  match rounds with
  | O => loop
  | S rounds =>
      if 0 <? remaining then
        let page := Z.to_nat (Z.min remaining (Z.of_nat kIpListsRepoChunkRows)) in
        let* rs := act (ReadPage id g after offset page) in
        match rs with
        | None => Ret None
        | Some None => Ret (Some None)
        | Some (Some rs) =>
            let out := out ++ map snd rs in
            let after := match last rs with Some (o, _) => o | None => after end in
            if Nat.ltb (length rs) page then Ret (Some (Some out))
            else readLoop rounds id g offset (remaining - Z.of_nat (length rs)) after out
        end
      else Ret (Some (Some out))
  end.

Definition ipListsRepoReadGeneration (fuel : nat) (id g offset limit : Z) : prog ListAct (option (option (list IpListEntry))) :=
  readLoop fuel id g offset (if limit <? 0 then maxInt64 else limit) (-1) [].

Definition GetEntries (fuel : nat) (id offset limit : Z) : prog ListAct (list IpListEntry) :=
  let* g := act (LockedGeneration id) in
  match g with
  | None => Ret []
  | Some g =>
      let* r := ipListsRepoReadGeneration fuel id g offset limit in
      match r with
      | None => Ret []
      | Some (Some es) => Ret es
      | Some None => let* r := act (LockedEntries id offset limit) in Ret (default [] r)
      end
  end.

Definition GetIpList (fuel : nat) (id : Z) : prog ListAct (option (IpListMeta * list IpListEntry)) :=
  let* h := act (ReadHeader id) in
  match h with
  | None | Some None => Ret None
  | Some (Some h) =>
      let* r := ipListsRepoReadGeneration fuel id (gen h) 0 (-1) in
      match r with
      | None => Ret None
      | Some (Some es) => Ret (Some (meta h, es))
      | Some None => let* r := act (LockedList id) in Ret (default None r)
      end
  end.

(** The copy of a list as a user list; [None] when it fails. *)
Fixpoint copyLoop (rounds : nat) (id source g after : Z) : prog ListAct bool :=
  match rounds with
  | O => loop
  | S rounds =>
      let* bound := act (CopyChunk id source g after) in
      match bound with
      | None => Ret false
      | Some None => Ret true
      | Some (Some bound) => copyLoop rounds id source g bound
      end
  end.

Definition CopyAsUserList (fuel : nat) (source : Z) (name : qstring) : prog ListAct (option (IpListMeta * list IpListEntry)) :=
  if source <? 0 then Ret None
  else
    let* made :=
      claiming source
        (let* made := act (InsertCopy source name) in
         match made with
         | None => Ret None
         | Some (id, g) =>
             claiming id
               (let* ok := copyLoop fuel id source g (-1) in
                if ok then Ret (Some id) else let* _ := ipListsRepoDiscard fuel id None in Ret None)
         end) in
    match made with None => Ret None | Some id => GetIpList fuel id end.

(** ** What a call does *)

(** A fault refuses it; otherwise it is the transaction's. *)
Definition attempt {X} (r : option (X * Store)) (s : Store) (x : option X) (s' : Store) : Prop :=
  (x = None /\ s' = s) \/ (exists y, r = Some (y, s') /\ x = Some y).

Definition answers {X} (v : X) (s : Store) (x : option X) (s' : Store) : Prop := s' = s /\ (x = None \/ x = Some v).

(** A generation with rows, below [keep] if there is one. *)
Definition staleOf (s : Store) (id keep : Z) (g : option Z) : Prop :=
  match g with
  | Some g => g <> keep /\ rowsOf s id g <> [] /\ (keep < g -> forall g', g' < keep -> rowsOf s id g' = [])
  | None => forall g, g <> keep -> rowsOf s id g = []
  end.

Definition exec (t : nat) (X : Type) (e : ListAct X) (s : Store) : X -> Store -> Prop :=
  match e in ListAct X return X -> Store -> Prop with
  | Claim id => fun _ s' => claimed s !! id = None /\ s' = s <| claimed := <[id := t]> (claimed s) |>
  | Release id => fun _ s' => s' = s <| claimed := delete id (claimed s) |>
  | LockedGeneration id => fun x s' => s' = s /\ (x = None \/ x = generationOf s id)
  | FindStale id keep => fun x s' => s' = s /\ (x = None \/ exists g, x = Some g /\ staleOf s id keep g)
  | PurgeChunk id g => fun x s' => attempt (purgeChunk id g s) s x s'
  | BumpGeneration id d => fun x s' => attempt (bumpGeneration t id d s) s x s'
  | StageChunk id c g es b => fun x s' => attempt (stageChunk t id c g es b s) s x s'
  | InsertList m es => fun x s' => attempt (insertList t m es s) s x s'
  | DeleteHeader id expected => fun _ s' => s' = s \/ s' = deleteHeader t id expected s
  | UpsertChunk id p es => fun x s' => attempt (upsertChunk t id p es s) s x s'
  | RemoveChunk id p es => fun x s' => attempt (removeChunk t id p es s) s x s'
  | InsertCopy source name => fun x s' => attempt (insertCopy t source name s) s x s'
  | CopyChunk id source g after => fun x s' => attempt (copyChunk t id source g after s) s x s'
  | UpdateHeader id m => fun x s' =>
      (x = false /\ s' = s) \/ (x = bool_decide (is_Some (heads s !! id)) /\ s' = alterMeta (fun _ => m) id s)
  | Detach id => fun _ s' => s' = s \/ s' = alterMeta detachMeta id s
  | ReadHeader id => fun x s' => answers (heads s !! id) s x s'
  | ReadPage id g after offset page => fun x s' => answers (readPage s id g after offset page) s x s'
  | LockedEntries id offset limit => fun x s' => answers (lockedRead s id offset limit) s x s'
  | LockedList id => fun x s' => answers ((fun h => (meta h, lockedRead s id 0 (-1))) <$> heads s !! id) s x s'
  | CountEntries id => fun x s' =>
      s' = s /\ (x = 0 \/ x = match generationOf s id with Some g => Z.of_nat (length (rowsOf s id g)) | None => 0 end)
  | Loop => fun x _ => match x with end
  end.

(** ** The repository in use *)

Inductive ListOp :=
  | OpAdd (m : IpListMeta) (es : list IpListEntry) | OpReplace (id : Z) (es : list IpListEntry)
  | OpUpsert (id : Z) (es : list IpListEntry) | OpRemove (id : Z) (es : list IpListEntry) | OpClear (id : Z)
  | OpDelete (id : Z) (onlyIfDetached : bool) | OpCopy (id : Z) (name : qstring) | OpDetach (id : Z)
  | OpSaveHeader (id : Z) (m : IpListMeta) | OpEntries (id offset limit : Z) | OpList (id : Z) | OpCount (id : Z).

Inductive ListResult :=
  | RAdded (r : option (Z * Z)) | RDone (b : bool) | RCount (n : Z) | RUnit
  | REntries (es : list IpListEntry) | RList (r : option (IpListMeta * list IpListEntry)).

Definition pmap {A B} (f : A -> B) (p : prog ListAct A) : prog ListAct B := let* x := p in Ret (f x).

Definition SaveHeader (id : Z) (m : IpListMeta) : prog ListAct bool := if id <? 0 then Ret false else act (UpdateHeader id m).

Definition DetachIpList (id : Z) : prog ListAct unit := if id <? 0 then Ret tt else act (Detach id).

Definition EntryCount (id : Z) : prog ListAct Z := act (CountEntries id).

Definition opCode (fuel : nat) (op : ListOp) : prog ListAct ListResult :=
  match op with
  | OpAdd m es => pmap RAdded (AddIpList fuel m es)
  | OpReplace id es => pmap RDone (ReplaceEntries fuel id es)
  | OpUpsert id es => pmap RCount (UpsertEntries id es)
  | OpRemove id es => pmap RCount (RemoveEntries id es)
  | OpClear id => pmap (fun _ => RUnit) (ClearEntries fuel id)
  | OpDelete id d => pmap (fun _ => RUnit) (DeleteIpList fuel id d)
  | OpCopy id name => pmap RList (CopyAsUserList fuel id name)
  | OpDetach id => pmap (fun _ => RUnit) (DetachIpList id)
  | OpSaveHeader id m => pmap RDone (SaveHeader id m)
  | OpEntries id offset limit => pmap REntries (GetEntries fuel id offset limit)
  | OpList id => pmap RList (GetIpList fuel id)
  | OpCount id => pmap RCount (EntryCount id)
  end.

(** The list an operation is about. *)
Definition opList (op : ListOp) : option Z :=
  match op with
  | OpAdd _ _ => None
  | OpReplace id _ | OpUpsert id _ | OpRemove id _ | OpClear id | OpDelete id _ | OpCopy id _ | OpDetach id
  | OpSaveHeader id _ | OpEntries id _ _ | OpList id | OpCount id => Some id
  end.

(** A list is used once the call that adds it has returned; an id is never used
    before it was given out. *)
Definition known (s : Store) (id : Z) : Prop := id <= lastId s /\ adding s !! id = None.

Definition mayStart (op : ListOp) (s : Store) : Prop := forall id, opList op = Some id -> known s id.

(** The end of an operation hands its new list over. *)
Definition handOver (t : nat) (s : Store) : Store := s <| adding := filter (fun x => x.2 <> t) (adding s) |>.

(** A crash and the next start: no operation is left, nor a claim; of the leftovers
    any part is purged, all of them unless a delete fails. *)
Definition restarted (s s' : Store) : Prop :=
  let s0 := (s <| claimed := ∅ |>) <| adding := ∅ |> in
  exists ds, ds ⊆ leftovers s0 /\ s' = fold_left deleteLeftover ds s0.
