(* ===== verification/IpListRows.v ===== *)
(** * IpListRows: the rows of a generation

    What the row operations of IpListStore do to the entries a reader sees, on
    rows in order and without repeated targets. *)

From S2P Require Import Prelude Text IpAddress IpListStore.

Definition rowTarget (e : IpListEntry) : qstring * Z := (cidr e, port e).

Lemma sameTarget_iff a b : sameTarget a b = true <-> rowTarget a = rowTarget b.
Proof.
  unfold sameTarget, rowTarget. rewrite andb_true_iff, bool_decide_eq_true, Z.eqb_eq.
  split; [by intros [-> ->]|by intros [= -> ->]].
Qed.

Lemma sameTarget_false a b : sameTarget a b = false <-> rowTarget a <> rowTarget b.
Proof. rewrite <- sameTarget_iff. by destruct (sameTarget a b). Qed.

(** ** Entries as a reader sees them *)

(** An upsert of one entry, of several; a removal. *)
Definition upsertOne (l : list IpListEntry) (e : IpListEntry) : list IpListEntry :=
  if bool_decide (cidr e = []) then l
  else if existsb (fun e' => sameTarget e' e) l
  then map (fun e' => if sameTarget e' e then Entry (cidr e') (port e') (latencyMs e) else e') l
  else l ++ [e].

Definition upsertAll (es l : list IpListEntry) : list IpListEntry := fold_left upsertOne es l.

Definition removeAll (es l : list IpListEntry) : list IpListEntry :=
  filter (fun e => existsb (fun e' => sameTarget e e') es = false) l.

(** ** Well-formed rows *)

Record wfRows (rs : Rows) : Prop := MkWf {
  wf_sorted : StronglySorted Z.lt (map fst rs);
  wf_nonneg : Forall (fun r : Z * IpListEntry => 0 <= r.1) rs;
  wf_targets : NoDup (map (fun r : Z * IpListEntry => rowTarget r.2) rs) }.

Lemma wf_nil : wfRows [].
Proof. split; constructor. Qed.

Lemma filter_fst (P : Z * IpListEntry -> Prop) `{forall x, Decision (P x)} rs :
  StronglySorted Z.lt (map fst rs) -> StronglySorted Z.lt (map fst (filter P rs)).
Proof.
  induction rs as [|r rs IH]; [done|]. cbn [map]. intros Hs. apply StronglySorted_inv in Hs as [Hs Hf]. rewrite filter_cons.
  destruct (decide (P r)); [|by apply IH]. cbn [map]. constructor; [by apply IH|].
  rewrite Forall_forall in Hf |- *. intros x (r' & -> & [_ Hr']%list_elem_of_filter)%list_elem_of_fmap. apply Hf.
  apply list_elem_of_fmap. by exists r'.
Qed.

Lemma wf_filter (P : Z * IpListEntry -> Prop) `{forall x, Decision (P x)} rs : wfRows rs -> wfRows (filter P rs).
Proof.
  intros [H1 H2 H3]. split; [by apply filter_fst| |].
  { rewrite Forall_forall in H2 |- *. intros r [_ Hr]%list_elem_of_filter. by apply H2. }
  induction rs as [|r rs IH]; [done|]. cbn [map] in H1, H3. apply StronglySorted_inv in H1 as [H1 _]. apply Forall_cons in H2 as [_ H2].
  apply NoDup_cons in H3 as [Hn H3]. rewrite filter_cons. destruct (decide (P r)); [|by apply IH]. cbn [map]. apply NoDup_cons.
  split; [|by apply IH]. intros Hin. apply Hn. apply list_elem_of_fmap in Hin as (r' & E & [_ Hr']%list_elem_of_filter).
  apply list_elem_of_fmap. by exists r'.
Qed.

(** Rows added after all others. *)
Lemma insert_after o e rs : Forall (fun r : Z * IpListEntry => r.1 < o) rs -> insertOrdered o e rs = rs ++ [(o, e)].
Proof.
  induction rs as [|[o' e'] rs IH]; [done|]. intros [H1 H2]%Forall_cons. simpl in *.
  destruct (Z.ltb_spec o o'); [lia|]. by rewrite IH.
Qed.

Lemma wf_snoc o e rs :
  wfRows rs -> Forall (fun r : Z * IpListEntry => r.1 < o) rs -> 0 <= o -> rowTarget e ∉ map (fun r : Z * IpListEntry => rowTarget r.2) rs ->
  wfRows (rs ++ [(o, e)]).
Proof.
  intros [H1 H2 H3] Ho Hz Ht. split.
  - rewrite map_app. simpl. clear H2 H3 Ht. induction rs as [|r rs IH]; simpl; [by repeat constructor|].
    apply Forall_cons in Ho as [Hr Ho]. simpl in H1. apply StronglySorted_inv in H1 as [H1 Hf]. constructor; [by apply IH|].
    apply Forall_app. split; [done|]. by repeat constructor.
  - apply Forall_app. split; [done|]. by repeat constructor.
  - rewrite map_app. apply NoDup_app. split_and!; [done| |apply NoDup_singleton]. intros x Hx Hx'.
    apply list_elem_of_singleton in Hx' as ->. done.
Qed.

Lemma insertIgnore_after o e rs :
  Forall (fun r : Z * IpListEntry => r.1 < o) rs ->
  insertIgnore o e rs = if existsb (fun e' => sameTarget e' e) (map snd rs) then None else Some (rs ++ [(o, e)]).
Proof.
  intros Ho. unfold insertIgnore. rewrite insert_after by done.
  replace (existsb (fun '(o', e') => (o' =? o) || sameTarget e' e) rs) with (existsb (fun e' => sameTarget e' e) (map snd rs)); [done|].
  induction rs as [|[o' e'] rs IH]; [done|]. apply Forall_cons in Ho as [H1 Ho]. simpl in *. rewrite IH by done.
  by rewrite (proj2 (Z.eqb_neq o' o)) by lia.
Qed.

Lemma existsb_target e rs : existsb (fun e' => sameTarget e' e) (map snd rs) = false <-> rowTarget e ∉ map (fun r : Z * IpListEntry => rowTarget r.2) rs.
Proof.
  rewrite <- not_true_iff_false, existsb_exists, list_elem_of_fmap. split.
  - intros H (r & E & Hr). apply H. exists r.2. split; [apply list_elem_of_In, list_elem_of_fmap; by exists r|by apply sameTarget_iff].
  - intros H (e' & He%list_elem_of_In & E). apply H. apply list_elem_of_fmap in He as (r & -> & Hr). exists r.
    split; [symmetry; by apply sameTarget_iff|done].
Qed.

(** ** Inserting in bulk *)

(** [es] numbered from [o]. *)
Fixpoint numberedFrom (o : Z) (es : list IpListEntry) : Rows :=
  match es with [] => [] | e :: es => (o, e) :: numberedFrom (o + 1) es end.

Lemma numberedFrom_snd o es : map snd (numberedFrom o es) = es.
Proof. revert o. induction es as [|e es IH]; intros o; simpl; [done|by rewrite IH]. Qed.

Lemma numberedFrom_app o es es' : numberedFrom o (es ++ es') = numberedFrom o es ++ numberedFrom (o + Z.of_nat (length es)) es'.
Proof.
  revert o. induction es as [|e es IH]; intros o; simpl; [by rewrite Z.add_0_r|]. rewrite IH. do 3 f_equal. lia.
Qed.

Lemma numberedFrom_below o es : Forall (fun r : Z * IpListEntry => r.1 < o + Z.of_nat (length es)) (numberedFrom o es).
Proof.
  revert o. induction es as [|e es IH]; intros o; simpl; constructor; [simpl; lia|].
  eapply Forall_impl; [apply IH|]. intros r Hr. simpl in Hr. lia.
Qed.

Lemma insert_fresh rs es o :
  wfRows rs -> 0 <= o -> Forall (fun r : Z * IpListEntry => r.1 < o) rs ->
  NoDup (map rowTarget (map snd rs ++ es)) ->
  insertEntries o es rs = (rs ++ numberedFrom o es, Z.of_nat (length es)) /\ wfRows (rs ++ numberedFrom o es).
Proof.
  revert rs o. induction es as [|e es IH]; intros rs o Hwf Hz Ho Hn.
  - simpl. by rewrite app_nil_r.
  - assert (Ht : rowTarget e ∉ map (fun r : Z * IpListEntry => rowTarget r.2) rs).
    { rewrite map_app in Hn. apply NoDup_app in Hn as (_ & Hd & _). intros Hin. apply (Hd (rowTarget e)); [|by left].
      by rewrite map_map. }
    cbn [insertEntries]. rewrite insertIgnore_after by done. rewrite (proj2 (existsb_target e rs)) by done. cbv beta iota.
    destruct (IH (rs ++ [(o, e)]) (o + 1)) as [E Hw].
    + by apply wf_snoc.
    + lia.
    + apply Forall_app. split; [eapply Forall_impl; [exact Ho|]; intros r Hr; simpl in Hr; lia|]. apply Forall_singleton. simpl. lia.
    + rewrite (map_app snd). simpl. by rewrite <- app_assoc.
    + rewrite E. rewrite <- app_assoc in *. simpl in *. split; [|exact Hw]. f_equal. lia.
Qed.

(** ** Upserting *)

Lemma upsertRow_spec rs order n e :
  wfRows rs -> 0 <= order -> Forall (fun r : Z * IpListEntry => r.1 < order) rs ->
  let '(rs', order', n') := upsertRow (rs, order, n) e in
  wfRows rs' /\ 0 <= order' /\ Forall (fun r : Z * IpListEntry => r.1 < order') rs' /\ map snd rs' = upsertOne (map snd rs) e /\
  n' = n + Z.of_nat (length rs') - Z.of_nat (length rs).
Proof.
  intros Hwf Hz Ho. unfold upsertRow, upsertOne. destruct (bool_decide (cidr e = [])).
  { split_and!; try done. lia. }
  rewrite insertIgnore_after by done. destruct (existsb _ (map snd rs)) eqn:E.
  - split_and!; [|done| | |].
    + destruct Hwf as [H1 H2 H3]. split.
      * rewrite map_map. erewrite map_ext; [exact H1|]. by intros [o' e'].
      * apply Forall_map. eapply Forall_impl; [exact H2|]. by intros [o' e'].
      * rewrite map_map. erewrite map_ext; [exact H3|]. intros [o' e']. simpl. by destruct (sameTarget e' e).
    + apply Forall_map. eapply Forall_impl; [exact Ho|]. by intros [o' e'].
    + rewrite !map_map. apply map_ext. by intros [o' e'].
    + rewrite length_map. lia.
  - split_and!; [apply wf_snoc; [done..|]; by apply existsb_target|lia| | |].
    + apply Forall_app. split; [eapply Forall_impl; [exact Ho|]; intros r Hr; simpl in Hr; lia|]. apply Forall_singleton. simpl. lia.
    + by rewrite map_app.
    + rewrite length_app. simpl. lia.
Qed.

Lemma nextOrder_spec rs : wfRows rs -> 0 <= nextOrder rs /\ Forall (fun r : Z * IpListEntry => r.1 < nextOrder rs) rs.
Proof.
  intros [H1 H2 _]. unfold nextOrder. destruct rs as [|r rs _] using rev_ind; [by simpl|].
  rewrite last_snoc. destruct r as [o e].
  apply Forall_app in H2 as [_ H2]. rewrite Forall_singleton in H2. simpl in H2. split; [simpl; lia|].
  apply Forall_app. split; [|apply Forall_singleton; simpl; lia].
  rewrite map_app in H1. apply StronglySorted_app in H1 as (Hx & _). apply Forall_forall. intros r Hr.
  assert (r.1 < o); [|simpl; lia]. apply Hx; [apply list_elem_of_fmap; by exists r|by left].
Qed.

Lemma upsertRows_spec es rs :
  wfRows rs ->
  let '(rs', _, n) := fold_left upsertRow es (rs, nextOrder rs, 0) in
  wfRows rs' /\ map snd rs' = upsertAll es (map snd rs) /\ n = Z.of_nat (length rs') - Z.of_nat (length rs).
Proof.
  intros Hwf. destruct (nextOrder_spec rs Hwf) as [Hz Ho]. revert Hwf Hz Ho. generalize (nextOrder rs) as order.
  enough (H : forall order n rs0, wfRows rs0 -> 0 <= order -> Forall (fun r : Z * IpListEntry => r.1 < order) rs0 ->
    let '(rs', _, n') := fold_left upsertRow es (rs0, order, n) in
    wfRows rs' /\ map snd rs' = upsertAll es (map snd rs0) /\ n' = n + Z.of_nat (length rs') - Z.of_nat (length rs0)).
  { intros order Hwf Hz Ho. specialize (H order 0 rs Hwf Hz Ho). destruct (fold_left _ _ _) as [[? ?] ?]. done. }
  induction es as [|e es IH]; intros order n rs0 Hwf Hz Ho; cbn [fold_left].
  - split_and!; [done|done|lia].
  - pose proof (upsertRow_spec rs0 order n e Hwf Hz Ho) as H. destruct (upsertRow (rs0, order, n) e) as [[rs1 o1] n1].
    destruct H as (H1 & H2 & H3 & H4 & ->). specialize (IH o1 (n + Z.of_nat (length rs1) - Z.of_nat (length rs0)) rs1 H1 H2 H3).
    destruct (fold_left _ _ _) as [[rs' o'] n']. destruct IH as (I1 & I2 & ->). split_and!; [done| |lia].
    rewrite I2, H4. done.
Qed.

(** ** Removing *)

Lemma removeRows_spec es rs :
  wfRows rs ->
  let '(rs', n) := fold_left removeRow es (rs, 0) in
  wfRows rs' /\ map snd rs' = removeAll es (map snd rs) /\ n = Z.of_nat (length rs) - Z.of_nat (length rs').
Proof.
  intros Hwf. enough (H : forall n rs0, wfRows rs0 ->
    let '(rs', n') := fold_left removeRow es (rs0, n) in
    wfRows rs' /\ map snd rs' = removeAll es (map snd rs0) /\ n' = n + Z.of_nat (length rs0) - Z.of_nat (length rs')).
  { specialize (H 0 rs Hwf). destruct (fold_left _ _ _) as [? ?]. done. }
  induction es as [|e es IH]; intros n rs0 Hw; cbn [fold_left].
  - split_and!; [done| |lia]. unfold removeAll. simpl. by rewrite filter_all by done.
  - unfold removeRow at 2. set (kept := filter _ rs0). specialize (IH (n + Z.of_nat (length rs0 - length kept)) kept (wf_filter _ _ Hw)).
    destruct (fold_left _ _ _) as [rs' n']. destruct IH as (I1 & I2 & ->). split_and!; [done| |].
    + rewrite I2. unfold removeAll, kept. clear. induction rs0 as [|[o x] rs0 IH]; [done|]. rewrite filter_cons. cbn [map].
      rewrite (filter_cons _ x). simpl. destruct (sameTarget x e) eqn:E.
      * rewrite !decide_False by done. exact IH.
      * rewrite (decide_True (P := false = false)) by done. cbn [map]. rewrite filter_cons. rewrite IH. done.
    + assert (length kept <= length rs0)%nat by apply length_filter. lia.
Qed.

(** ** Copying *)

Lemma sorted_above a rs :
  StronglySorted Z.lt (map fst rs) -> filter (fun r : Z * IpListEntry => r.1 <= a) rs ++ filter (fun r => a < r.1) rs = rs.
Proof.
  induction rs as [|r rs IH]; [done|]. cbn [map]. intros [Hs Hf]%StronglySorted_inv. rewrite !filter_cons.
  assert (H : forall r', r' ∈ rs -> r.1 < r'.1).
  { intros r' Hr'. rewrite Forall_forall in Hf. apply Hf. apply list_elem_of_fmap. by exists r'. }
  destruct (decide (r.1 <= a)) as [Ha|Ha].
  - rewrite (decide_False (P := a < r.1)) by lia. simpl. by rewrite IH.
  - rewrite (decide_True (P := a < r.1)) by lia. rewrite (filter_none _ rs), filter_all; [done| |]; intros r' Hr'%H; lia.
Qed.

(** The rows up to [b], in two steps. *)
Lemma sorted_upto a b rs :
  StronglySorted Z.lt (map fst rs) -> a <= b ->
  filter (fun r : Z * IpListEntry => r.1 <= a) rs ++ filter (fun r => r.1 <= b) (filter (fun r => a < r.1) rs) = filter (fun r => r.1 <= b) rs.
Proof.
  intros Hs Hab. rewrite <- (sorted_above a rs Hs) at 3. rewrite filter_app. f_equal. symmetry. apply filter_all.
  intros r [Hr _]%list_elem_of_filter. lia.
Qed.

Lemma insert_all a part rs :
  Forall (fun r : Z * IpListEntry => r.1 <= a) rs -> Forall (fun r : Z * IpListEntry => a < r.1) part -> StronglySorted Z.lt (map fst part) ->
  fold_left (fun rs r => insertOrdered r.1 r.2 rs) part rs = rs ++ part.
Proof.
  revert a rs. induction part as [|[o e] part IH]; intros a rs Hr Hp Hs; [by rewrite app_nil_r|]. cbn [fold_left].
  apply Forall_cons in Hp as [Ho Hp]. simpl in Ho. cbn [map] in Hs. apply StronglySorted_inv in Hs as [Hs Hf]. simpl.
  rewrite insert_after by (eapply Forall_impl; [exact Hr|]; intros r H; simpl in H; lia).
  rewrite (IH o); [by rewrite <- app_assoc| | |done].
  - apply Forall_app. split; [|by constructor]. eapply Forall_impl; [exact Hr|]. intros r H. simpl in H. lia.
  - rewrite Forall_map in Hf. exact Hf.
Qed.

Lemma wf_app a rs part :
  wfRows rs -> wfRows part -> Forall (fun r : Z * IpListEntry => r.1 <= a) rs -> Forall (fun r : Z * IpListEntry => a < r.1) part ->
  existsb (fun r : Z * IpListEntry => existsb (fun r' : Z * IpListEntry => (r.1 =? r'.1) || sameTarget r.2 r'.2) rs) part = false ->
  wfRows (rs ++ part).
Proof.
  intros [H1 H2 H3] [K1 K2 K3] Ha Hb Hc. split.
  - rewrite map_app. apply StronglySorted_app. split_and!; [|done|done].
    intros x y (r & -> & Hr)%list_elem_of_fmap (r' & -> & Hr')%list_elem_of_fmap. rewrite Forall_forall in Ha, Hb.
    specialize (Ha r Hr). specialize (Hb r' Hr'). lia.
  - by apply Forall_app.
  - rewrite map_app. apply NoDup_app. split_and!; [done| |done].
    intros x (r & -> & Hr)%list_elem_of_fmap (r' & E & Hr')%list_elem_of_fmap. apply not_true_iff_false in Hc. apply Hc.
    apply existsb_exists. exists r'. split; [by apply list_elem_of_In|]. apply existsb_exists. exists r.
    split; [by apply list_elem_of_In|]. apply orb_true_iff. right. by apply sameTarget_iff.
Qed.

(** ** Reading page by page *)

Lemma filter_after l o e r :
  StronglySorted Z.lt (map fst (l ++ (o, e) :: r)) -> filter (fun x : Z * IpListEntry => o < x.1) (l ++ (o, e) :: r) = r.
Proof.
  rewrite map_app. cbn [map]. intros (H1 & _ & H2)%StronglySorted_app. apply StronglySorted_inv in H2 as [_ H2].
  rewrite filter_app, filter_cons. simpl. rewrite decide_False by lia. rewrite filter_none, filter_all; [done| |].
  - intros x Hx. rewrite Forall_forall in H2. apply H2, list_elem_of_fmap. by exists x.
  - intros x Hx. assert (x.1 < o); [|lia]. apply H1; [apply list_elem_of_fmap; by exists x|by left].
Qed.

(** The rows a page is cut from. *)
Definition pageRest (rs : Rows) (after offset : Z) : Rows :=
  if after <? 0 then drop (Z.to_nat (Z.max offset 0)) rs else filter (fun r => after < r.1) rs.

(** The page after a full one starts where it ended. *)
Lemma pageRest_next rs pre after offset page o e :
  wfRows rs -> rs = pre ++ pageRest rs after offset -> last (take page (pageRest rs after offset)) = Some (o, e) ->
  0 <= o /\ exists pre', rs = pre' ++ pageRest rs o offset /\ pageRest rs o offset = drop page (pageRest rs after offset).
Proof.
  intros [H1 H2 _] E Hl. set (rest := pageRest rs after offset) in *. apply last_snoc_inv in Hl as (l & Hl).
  assert (E' : rs = (pre ++ l) ++ (o, e) :: drop page rest).
  { rewrite E at 1. rewrite <- (take_drop page rest) at 1. rewrite Hl, <- !app_assoc. done. }
  assert (Ho : 0 <= o).
  { rewrite E', Forall_app, Forall_cons in H2. apply H2. }
  split; [done|]. assert (Hr : pageRest rs o offset = drop page rest).
  { unfold pageRest. rewrite (proj2 (Z.ltb_ge o 0)) by done. rewrite E' at 1. apply filter_after. by rewrite <- E'. }
  exists ((pre ++ l) ++ [(o, e)]). rewrite Hr. split; [|done]. rewrite <- app_assoc. exact E'.
Qed.

Lemma take_page {A} (n len page : nat) (l : list A) :
  (length l <= len)%nat -> (page <= length l)%nat -> (page <= n)%nat ->
  take (Nat.min n len) l = take page l ++ take (Nat.min (n - page) len) (drop page l).
Proof.
  intros H1 H2 H3. assert (Hl : length (take page l) = page) by (rewrite length_take; lia).
  rewrite <- (take_drop page l) at 1. rewrite take_app, Hl, (take_ge (take page l)) by lia. f_equal.
  destruct (decide (n <= len)%nat) as [Hn|Hn]; [f_equal; lia|]. rewrite !take_ge; [done| |]; rewrite length_drop; lia.
Qed.
