(* ===== verification/IpListStoreLaws.v ===== *)
(** * IpListStoreLaws: what each transaction of the IP-list store keeps

    The lists as their readers see them ([view]) follow from the effects the calls
    record ([replay]); [Inv] is the invariant of the tables, [Step] what a call of
    one thread leaves alone of what the other threads rely on. *)

From S2P Require Import Prelude Text IpAddress Program IpListStore IpListRows.

(** ** Lists and effects *)

Abbreviation Lists := (gmap Z (list IpListEntry)).

Definition view (s : Store) : Lists := map_imap (fun id h => Some (map snd (rowsOf s id (gen h)))) (heads s).

Lemma view_lookup s id : view s !! id = (fun g => map snd (rowsOf s id g)) <$> generationOf s id.
Proof. unfold view, generationOf. rewrite map_lookup_imap. by destruct (heads s !! id). Qed.

Definition grown (l l' : list IpListEntry) : Z := Z.of_nat (length l') - Z.of_nat (length l).

(** An effect on the lists; [None]: it cannot be the effect it says it is. *)
Definition apply (e : Effect) (v : Lists) : option Lists :=
  match e with
  | SetAll id es => match v !! id with Some _ => Some (<[id := es]> v) | None => None end
  | Upserted id es n =>
      match v !! id with
      | Some l => if n =? grown l (upsertAll es l) then Some (<[id := upsertAll es l]> v) else None
      | None => None
      end
  | Removed id es n =>
      match v !! id with
      | Some l => if n =? grown (removeAll es l) l then Some (<[id := removeAll es l]> v) else None
      | None => None
      end
  | Added id es => match v !! id with Some _ => None | None => Some (<[id := es]> v) end
  | Deleted id => match v !! id with Some _ => Some (delete id v) | None => None end
  end.

Fixpoint replay (v : Lists) (es : list Effect) : option Lists :=
  match es with
  | [] => Some v
  | e :: es => match apply e v with Some v => replay v es | None => None end
  end.

Lemma replay_app v es es' : replay v (es ++ es') = match replay v es with Some v' => replay v' es' | None => None end.
Proof. revert v. induction es as [|e es IH]; intros v; simpl; [done|]. by destruct (apply e v). Qed.

(** The list an effect is about; whether it edits the list in place, or puts another
    one in its place. *)
Definition effectList (e : Effect) : Z :=
  match e with SetAll id _ | Upserted id _ _ | Removed id _ _ | Added id _ | Deleted id => id end.

Definition edits (id : Z) (e : Effect) : Prop :=
  match e with Upserted id' _ _ | Removed id' _ _ => id' = id | _ => False end.

Definition replaces (id : Z) (e : Effect) : Prop :=
  match e with SetAll id' _ | Deleted id' => id' = id | _ => False end.

(** ** The invariant *)

Record Inv (base : Lists) (s : Store) : Prop := MkInv {
  inv_wf : forall id g, wfRows (rowsOf s id g);
  inv_fk : forall id g, rowsOf s id g <> [] -> is_Some (generationOf s id);
  inv_ids : forall id, is_Some (generationOf s id) -> id <= lastId s;
  inv_adding : forall id, is_Some (adding s !! id) -> id <= lastId s;
  inv_gen : forall id g, generationOf s id = Some g -> 0 <= g;
  inv_replay : replay base (map snd (journal s)) = Some (view s) }.

(** ** What a call of [t] leaves alone *)

Record Step (t : nat) (s s' : Store) : Prop := MkStep {
  st_journal : exists es, journal s' = journal s ++ map (pair t) es /\
    forall id g, generationOf s id = Some g -> generationOf s' id = Some g ->
      (rowsOf s' id g = rowsOf s id g \/ Exists (edits id) es) /\ ~ Exists (replaces id) es;
  st_claimed : forall v id, v <> t -> claimed s !! id = Some v <-> claimed s' !! id = Some v;
  st_adding : forall v id, v <> t -> adding s !! id = Some v <-> adding s' !! id = Some v;
  st_known : forall id, id <= lastId s -> adding s !! id = None -> adding s' !! id = None;
  st_last : lastId s <= lastId s';
  st_owned : forall v id, v <> t -> claimed s !! id = Some v -> id <= lastId s ->
    generationOf s' id = generationOf s id /\ forall g, generationOf s id <> Some g -> rowsOf s' id g = rowsOf s id g;
  st_private : forall v id, v <> t -> adding s !! id = Some v ->
    generationOf s' id = generationOf s id /\ forall g, rowsOf s' id g = rowsOf s id g;
  st_gen : forall id g', id <= lastId s -> generationOf s' id = Some g' -> exists g, generationOf s id = Some g /\ g <= g' }.

Lemma Step_refl t s : Step t s s.
Proof.
  split; try done.
  - exists []. rewrite app_nil_r. split; [done|]. intros. split; [by left|by intros ?%Exists_nil].
  - intros id g' _ E. by exists g'.
Qed.

(** ** Changes to one list *)

(** [s'] is [s] but for the list [id] and the effects [es] of [t]. *)
Record Only (t : nat) (id : Z) (es : list Effect) (s s' : Store) : Prop := MkOnly {
  on_journal : journal s' = journal s ++ map (pair t) es;
  on_list : Forall (fun e => effectList e = id) es;
  on_claimed : claimed s' = claimed s;
  on_adding : adding s' = adding s;
  on_last : lastId s' = lastId s;
  on_gen : forall id', id' <> id -> generationOf s' id' = generationOf s id';
  on_rows : forall id' g, id' <> id -> rowsOf s' id' g = rowsOf s id' g }.

(** [t] may change the list [id] when no one else is still adding it. *)
Definition mayWrite (t : nat) (id : Z) (s : Store) : Prop :=
  id <= lastId s /\ (adding s !! id = None \/ adding s !! id = Some t).

Definition Own (t : nat) (id : Z) (s : Store) : Prop := claimed s !! id = Some t /\ mayWrite t id s.

Lemma Step_only t id es s s' :
  Only t id es s s' -> mayWrite t id s ->
  (forall v, v <> t -> claimed s !! id = Some v ->
     generationOf s' id = generationOf s id /\ forall g, generationOf s id <> Some g -> rowsOf s' id g = rowsOf s id g) ->
  (forall g', generationOf s' id = Some g' -> exists g, generationOf s id = Some g /\ g <= g') ->
  (forall g, generationOf s id = Some g -> generationOf s' id = Some g ->
     (rowsOf s' id g = rowsOf s id g \/ Exists (edits id) es) /\ ~ Exists (replaces id) es) ->
  Step t s s'.
Proof.
  intros [Hj Hi Hc Ha Hl Hg Hr] [_ Hp] Ho Hm Hv. split.
  - exists es. split; [done|]. intros id' g E E'. destruct (decide (id' = id)) as [->|Hn]; [by apply Hv|].
    split; [left; by apply Hr|]. intros He. apply Exists_exists in He as (e & He & Hx). rewrite Forall_forall in Hi. specialize (Hi e He).
    destruct e; simpl in *; congruence.
  - by rewrite Hc.
  - by rewrite Ha.
  - by rewrite Ha.
  - lia.
  - intros v id' Hn Hcl _. destruct (decide (id' = id)) as [->|Hn']; [by eapply Ho|]. split; [by apply Hg|]. intros. by apply Hr.
  - intros v id' Hn Had. destruct (decide (id' = id)) as [->|Hn']; [|split; [by apply Hg|]; intros; by apply Hr].
    rewrite Had in Hp. destruct Hp as [Hp|[= ->]]; done.
  - intros id' g' _ E. destruct (decide (id' = id)) as [->|Hn]; [by apply Hm|]. rewrite Hg in E by done. by exists g'.
Qed.

Lemma view_only t id es s s' id' : Only t id es s s' -> id' <> id -> view s' !! id' = view s !! id'.
Proof.
  intros [_ _ _ _ _ Hg Hr] Hn. rewrite !view_lookup, Hg by done. destruct (generationOf s id') as [g|]; [|done]. simpl.
  by rewrite Hr.
Qed.

Lemma Inv_only base t id es s s' :
  Inv base s -> Only t id es s s' -> id <= lastId s ->
  (forall g, wfRows (rowsOf s' id g)) ->
  (forall g, rowsOf s' id g <> [] -> is_Some (generationOf s' id)) ->
  (forall g, generationOf s' id = Some g -> 0 <= g) ->
  replay (view s) es = Some (view s') ->
  Inv base s'.
Proof.
  intros [H1 H2 H3 H4 H5 H6] Ho Hid Hw Hf Hg Hp. pose proof Ho as [Oj Ob Oc Oa Ol Og Or]. split.
  - intros id' g. destruct (decide (id' = id)) as [->|Hn]; [done|]. by rewrite Or.
  - intros id' g. destruct (decide (id' = id)) as [->|Hn]; [by apply Hf|]. rewrite Or, Og by done. by apply H2.
  - intros id'. destruct (decide (id' = id)) as [->|Hn]; [intros _; lia|]. rewrite Og, Ol by done. by apply H3.
  - rewrite Oa, Ol. done.
  - intros id' g. destruct (decide (id' = id)) as [->|Hn]; [by apply Hg|]. rewrite Og by done. by apply H5.
  - rewrite Oj, map_app, replay_app, H6, map_map. simpl. by rewrite map_id.
Qed.

(** ** The pieces a transaction is made of *)

Lemma rowsOf_setRows id g rs s id' g' :
  rowsOf (setRows id g rs s) id' g' = if decide ((id', g') = (id, g)) then rs else rowsOf s id' g'.
Proof.
  unfold rowsOf, setRows. simpl. destruct (decide _) as [->|Hn]; [by rewrite lookup_insert_eq|by rewrite lookup_insert_ne by congruence].
Qed.

Lemma rowsOf_same id g rs s : rowsOf (setRows id g rs s) id g = rs.
Proof. rewrite rowsOf_setRows. by destruct (decide _). Qed.

Lemma rowsOf_other id g rs s g' : g' <> g -> rowsOf (setRows id g rs s) id g' = rowsOf s id g'.
Proof. intros H. rewrite rowsOf_setRows. destruct (decide _) as [[= E]|]; [done|done]. Qed.

Lemma generationOf_setGeneration id g s id' :
  generationOf (setGeneration id g s) id' = if decide (id' = id) then (fun _ => g) <$> generationOf s id else generationOf s id'.
Proof.
  unfold generationOf, setGeneration. simpl. destruct (decide _) as [->|Hn].
  - rewrite lookup_alter_eq. by destruct (heads s !! id).
  - by rewrite lookup_alter_ne by congruence.
Qed.

Lemma Only_setRows t id g rs s : Only t id [] s (setRows id g rs s).
Proof.
  split; try done; [by rewrite app_nil_r|]. intros id' g' Hn. rewrite rowsOf_setRows. by destruct (decide _) as [[= E E']|].
Qed.

Lemma Only_setGeneration t id g s : Only t id [] s (setGeneration id g s).
Proof. split; try done; [by rewrite app_nil_r|]. intros id' Hn. rewrite generationOf_setGeneration. by destruct (decide _). Qed.

Lemma Only_note t id e s : effectList e = id -> Only t id [e] s (note t e s).
Proof. intros He. split; try done. by constructor. Qed.

Lemma Only_alterMeta t id f s : Only t id [] s (alterMeta f id s).
Proof.
  split; try done; [by rewrite app_nil_r|]. intros id' Hn. unfold generationOf, alterMeta. simpl.
  by rewrite lookup_alter_ne by congruence.
Qed.

Lemma Only_trans t id es es' s s' s'' : Only t id es s s' -> Only t id es' s' s'' -> Only t id (es ++ es') s s''.
Proof.
  intros [H1 H2 H3 H4 H5 H6 H7] [K1 K2 K3 K4 K5 K6 K7]. split; try congruence.
  - by rewrite K1, H1, map_app, app_assoc.
  - by apply Forall_app.
  - intros id' Hn. by rewrite K6, H6.
  - intros id' g Hn. by rewrite K7, H7.
Qed.

(** ** What an owner changes *)

Section Owner.
Context (base : Lists) (t : nat) (id : Z).

Lemma Own_Step es s s' :
  Own t id s -> Only t id es s s' ->
  (forall g', generationOf s' id = Some g' -> exists g, generationOf s id = Some g /\ g <= g') ->
  (forall g, generationOf s id = Some g -> generationOf s' id = Some g -> rowsOf s' id g = rowsOf s id g /\ ~ Exists (replaces id) es) ->
  Step t s s'.
Proof.
  intros [Hc Hm] Ho Hg Hv. eapply Step_only; [exact Ho|exact Hm| |exact Hg|].
  - intros v Hn E. congruence.
  - intros g E E'. destruct (Hv g E E') as [-> H]. split; [by left|done].
Qed.

(** A change of rows readers do not see. *)
Lemma hidden_change s g rs :
  Inv base s -> Own t id s -> generationOf s id <> Some g -> wfRows rs -> (rs = [] \/ is_Some (generationOf s id)) ->
  Step t s (setRows id g rs s) /\ Inv base (setRows id g rs s).
Proof.
  intros Hi Ho Hg Hw Hf. assert (Hr : forall g', generationOf s id = Some g' -> rowsOf (setRows id g rs s) id g' = rowsOf s id g').
  { intros g' E. apply rowsOf_other. congruence. }
  split.
  - eapply (Own_Step []); [done|apply Only_setRows| |].
    + intros g' E. by exists g'.
    + intros g' E _. split; [by apply Hr|by intros ?%Exists_nil].
  - pose proof Hi as [H1 H2 H3 H4 H5 H6]. eapply (Inv_only _ t id []); [exact Hi|apply Only_setRows| | | | |].
    + apply Ho.
    + intros g'. rewrite rowsOf_setRows. destruct (decide _); [done|apply H1].
    + intros g'. rewrite rowsOf_setRows. destruct (decide _); [|apply H2]. intros Hn. by destruct Hf as [->|Hf].
    + intros g'. apply H5.
    + simpl. f_equal. apply map_eq. intros id'. rewrite !view_lookup. change (generationOf (setRows id g rs s) id') with (generationOf s id').
      destruct (generationOf s id') as [g'|] eqn:E; [|done]. simpl. rewrite rowsOf_setRows.
      destruct (decide _) as [[= -> ->]|]; [congruence|done].
Qed.

(** ** Purges *)

Lemma purgeChunk_spec g more s s' :
  Inv base s -> Own t id s -> purgeChunk id g s = Some (more, s') ->
  Step t s s' /\ Inv base s' /\ journal s' = journal s /\ generationOf s' id = generationOf s id /\ generationOf s id <> Some g /\
  (forall g', g' <> g -> rowsOf s' id g' = rowsOf s id g') /\
  (if more then (length (rowsOf s' id g) < length (rowsOf s id g))%nat else rowsOf s' id g = []).
Proof.
  intros Hi Ho. unfold purgeChunk. destruct (bool_decide _) eqn:Hb; [done|]. apply bool_decide_eq_false in Hb.
  set (rs := rowsOf s id g). destruct (rs !! _) as [[bound e]|] eqn:E; intros [= <- <-].
  - assert (Hn : rs <> []) by (intros H; rewrite H in E; done).
    destruct (hidden_change s g (filter (fun r => bound < r.1) rs) Hi Ho Hb) as [H1 H2].
    { apply wf_filter, (inv_wf _ _ Hi). } { right. by apply (inv_fk _ _ Hi id g). }
    split_and!; try done; [intros g'; apply rowsOf_other|]. rewrite rowsOf_same. apply list_elem_of_lookup_2 in E.
    apply (length_filter_lt (fun r => bound < r.1) rs (bound, e)); [done|simpl; lia].
  - destruct (hidden_change s g [] Hi Ho Hb) as [H1 H2]; [apply wf_nil|by left|].
    split_and!; try done; [intros g'; apply rowsOf_other|apply rowsOf_same].
Qed.

(** ** A change of what readers see *)

Lemma replay_set s s' es rs :
  Only t id [SetAll id es] s s' -> is_Some (generationOf s id) -> view s' !! id = Some rs -> rs = es ->
  replay (view s) [SetAll id es] = Some (view s').
Proof.
  intros Ho [g E] E' ->. simpl. rewrite view_lookup, E. simpl. f_equal. apply map_eq. intros id'.
  destruct (decide (id' = id)) as [->|Hn]; [by rewrite lookup_insert_eq|].
  rewrite lookup_insert_ne by done. symmetry. by apply (view_only t id [SetAll id es]).
Qed.

(** The move to the generation [g'], all of whose rows are [rs]. *)
Lemma flip s s' g g' rs :
  Inv base s -> Own t id s -> generationOf s id = Some g -> g < g' -> wfRows rs ->
  Only t id [SetAll id (map snd rs)] s s' -> generationOf s' id = Some g' ->
  (forall g0, rowsOf s' id g0 = if decide (g0 = g') then rs else rowsOf s id g0) ->
  Step t s s' /\ Inv base s'.
Proof.
  intros Hi Ho Hg Hlt Hw Hon Hg' Hr. pose proof Hi as [H1 H2 H3 H4 H5 H6]. split.
  - eapply Own_Step; [done|exact Hon| |].
    + intros g0 E. exists g. split; [done|]. rewrite Hg' in E. injection E as <-. lia.
    + intros g0 E E'. rewrite Hg in E. rewrite Hg' in E'. assert (g = g') by congruence. lia.
  - eapply Inv_only; [exact Hi|exact Hon|apply Ho| | | |].
    + intros g0. rewrite Hr. destruct (decide _); [done|apply H1].
    + intros g0 _. by rewrite Hg'.
    + intros g0. rewrite Hg'. intros [= <-]. apply H5 in Hg. lia.
    + eapply replay_set; [exact Hon|by rewrite Hg| |reflexivity]. rewrite view_lookup, Hg'. simpl. by rewrite Hr, decide_True.
Qed.

Lemma fold_max_ge l x0 x : x ∈ l -> x <= fold_right Z.max x0 l.
Proof. induction l as [|y l IH]; [by intros ?%not_elem_of_nil|]. simpl. intros [->|H]%elem_of_cons; [lia|]. specialize (IH H). lia. Qed.

Lemma fold_max_base l x0 : x0 <= fold_right Z.max x0 l.
Proof. induction l as [|y l IH]; simpl; lia. Qed.

Lemma rowGenerations_in s g : rowsOf s id g <> [] -> g ∈ rowGenerations s id.
Proof.
  intros H. unfold rowGenerations. apply list_elem_of_fmap. exists (id, g, rowsOf s id g). split; [done|].
  apply list_elem_of_filter. split; [done|]. apply elem_of_map_to_list. unfold rowsOf in *. by destruct (table s !! (id, g)).
Qed.

Lemma bumpGeneration_spec d s fresh s' :
  Inv base s -> Own t id s -> bumpGeneration t id d s = Some (fresh, s') ->
  Step t s s' /\ Inv base s' /\ journal s' = journal s ++ [(t, SetAll id [])] /\ generationOf s' id = Some fresh /\
  (d = true -> exists h, heads s !! id = Some h /\ detached (meta h) = true).
Proof.
  intros Hi Ho. unfold bumpGeneration. destruct (heads s !! id) as [h|] eqn:Eh; [|done].
  destruct (d && negb (detached (meta h))) eqn:Hd; [done|]. set (f := fold_right _ _ _ + 1). intros [= <- <-].
  assert (Hg : generationOf s id = Some (gen h)) by (unfold generationOf; by rewrite Eh).
  assert (Hr : rowsOf s id f = []).
  { destruct (rowsOf s id f) as [|r rs] eqn:E; [done|]. assert (Hf : f ∈ rowGenerations s id) by (apply rowGenerations_in; by rewrite E).
    apply (fold_max_ge _ (gen h)) in Hf. unfold f in Hf. lia. }
  set (s' := note _ _ _). assert (Hg' : generationOf s' id = Some f).
  { change (generationOf s' id) with (generationOf (setGeneration id f s) id). by rewrite generationOf_setGeneration, decide_True, Hg. }
  destruct (flip s s' (gen h) f [] Hi Ho Hg) as [H1 H2].
  - pose proof (fold_max_base (rowGenerations s id) (gen h)). unfold f. lia.
  - apply wf_nil.
  - change [SetAll id (map snd [])] with ([] ++ [SetAll id []]). eapply Only_trans; [apply Only_setGeneration|by apply Only_note].
  - done.
  - intros g0. change (rowsOf s' id g0) with (rowsOf s id g0). destruct (decide (g0 = f)) as [->|]; done.
  - split_and!; try done. intros ->. exists h. split; [done|]. by destruct (detached (meta h)).
Qed.

(** ** Staging *)

Definition targetsUnique (es : list IpListEntry) : Prop := NoDup (map rowTarget es).

Lemma chunk_take es begin :
  (begin <= length es)%nat -> take begin es ++ chunkOf es begin = take (chunkEnd es begin) es.
Proof.
  intros H. unfold chunkOf, chunkEnd. rewrite take_take_drop. f_equal. lia.
Qed.

Lemma wf_numberedFrom es : targetsUnique es -> wfRows (numberedFrom 0 es).
Proof.
  intros H. destruct (insert_fresh [] es 0 wf_nil) as [_ Hw]; [lia|constructor|done|exact Hw].
Qed.

Lemma stage_rows es begin :
  targetsUnique es -> (begin <= length es)%nat ->
  insertEntries (Z.of_nat begin) (chunkOf es begin) (numberedFrom 0 (take begin es)) =
  (numberedFrom 0 (take (chunkEnd es begin) es), Z.of_nat (chunkEnd es begin - begin)).
Proof.
  intros Hu Hb. assert (Hn : forall n, targetsUnique (take n es)).
  { intros n. unfold targetsUnique in *. rewrite <- firstn_map. eapply sublist_NoDup; [exact Hu|apply sublist_take]. }
  assert (Hl : length (take begin es) = begin) by (rewrite length_take; lia).
  destruct (insert_fresh (numberedFrom 0 (take begin es)) (chunkOf es begin) (Z.of_nat begin)) as [E _].
  - by apply wf_numberedFrom.
  - lia.
  - pose proof (numberedFrom_below 0 (take begin es)) as H. by rewrite Hl in H.
  - rewrite numberedFrom_snd, chunk_take by done. apply Hn.
  - rewrite E. rewrite <- chunk_take by done. rewrite numberedFrom_app, Hl. f_equal.
    unfold chunkOf. rewrite length_take, length_drop. unfold chunkEnd. lia.
Qed.

(** A chunk in the middle, or the last one, which publishes the list. *)
Lemma stageChunk_spec s current target es begin n s' :
  Inv base s -> Own t id s -> current < target -> targetsUnique es -> (begin <= length es)%nat ->
  rowsOf s id target = numberedFrom 0 (take begin es) -> stageChunk t id current target es begin s = Some (n, s') ->
  generationOf s id = Some current /\ n = Z.of_nat (chunkEnd es begin - begin) /\ Step t s s' /\ Inv base s' /\
  if Nat.eqb (chunkEnd es begin) (length es)
  then journal s' = journal s ++ [(t, SetAll id es)]
  else journal s' = journal s /\ generationOf s' id = Some current /\ rowsOf s' id target = numberedFrom 0 (take (chunkEnd es begin) es).
Proof.
  intros Hi Ho Hlt Hu Hb Hr. unfold stageChunk. rewrite Hr, stage_rows by done. destruct (bool_decide _) eqn:Hc; [|done].
  apply bool_decide_eq_true in Hc. intros [= <- <-]. split; [done|]. split; [done|].
  set (s1 := setRows id target _ s). assert (Hw : wfRows (numberedFrom 0 (take (chunkEnd es begin) es))).
  { apply wf_numberedFrom. unfold targetsUnique in *. rewrite <- firstn_map. eapply sublist_NoDup; [exact Hu|apply sublist_take]. }
  destruct (Nat.eqb_spec (chunkEnd es begin) (length es)) as [Hend|Hend].
  - rewrite Hend, take_ge in Hw by lia. assert (E1 : s1 = setRows id target (numberedFrom 0 es) s).
    { unfold s1. rewrite Hend, take_ge by lia. done. }
    set (s' := note _ _ _). assert (Hg' : generationOf s' id = Some target).
    { change (generationOf s' id) with (generationOf (setGeneration id target s1) id). rewrite generationOf_setGeneration, decide_True by done.
      change (generationOf s1 id) with (generationOf s id). by rewrite Hc. }
    destruct (flip s s' current target (numberedFrom 0 es) Hi Ho Hc Hlt Hw) as [H1 H2].
    + rewrite numberedFrom_snd. change [SetAll id es] with ([] ++ ([] ++ [SetAll id es])).
      eapply Only_trans; [apply Only_setRows|]. eapply Only_trans; [apply Only_setGeneration|by apply Only_note].
    + done.
    + intros g0. change (rowsOf s' id g0) with (rowsOf s1 id g0). rewrite E1, rowsOf_setRows.
      destruct (decide _) as [[= ->]|Hn]; [by rewrite decide_True|]. rewrite decide_False; congruence.
    + done.
  - destruct (hidden_change s target (numberedFrom 0 (take (chunkEnd es begin) es)) Hi Ho) as [H1 H2].
    + rewrite Hc. intros [= E]. lia.
    + done.
    + right. by rewrite Hc.
    + split_and!; try done. apply rowsOf_same.
Qed.

(** ** The header goes, and its rows with it *)

Lemma rowsOf_dropList s id' g : rowsOf (dropList t id s) id' g = if decide (id' = id) then [] else rowsOf s id' g.
Proof.
  unfold rowsOf, dropList. simpl. destruct (decide (id' = id)) as [->|Hn].
  - rewrite map_lookup_filter_None_2; [done|]. right. intros x _ H. by apply H.
  - destruct (table s !! (id', g)) as [rs|] eqn:E.
    + by erewrite map_lookup_filter_Some_2.
    + rewrite map_lookup_filter_None_2; [done|]. by left.
Qed.

Lemma deleteHeader_spec expected s :
  Inv base s -> Own t id s ->
  let s' := deleteHeader t id expected s in
  Step t s s' /\ Inv base s' /\
  (s' = s \/ exists g, generationOf s id = Some g /\ sameAs expected g = true /\ journal s' = journal s ++ [(t, Deleted id)]).
Proof.
  intros Hi Ho s'. unfold s', deleteHeader. destruct (generationOf s id) as [g|] eqn:Hg; [|split_and!; [apply Step_refl|done|by left]].
  destruct (sameAs expected g) eqn:Hs; [|split_and!; [apply Step_refl|done|by left]]. clear s'.
  assert (Hn : generationOf (dropList t id s) id = None) by (unfold generationOf; simpl; by rewrite lookup_delete_eq).
  assert (Hon : Only t id [Deleted id] s (dropList t id s)).
  { split; try done.
    - by constructor.
    - intros id' Hd. unfold generationOf. simpl. by rewrite lookup_delete_ne by congruence.
    - intros id' g' Hd. by rewrite rowsOf_dropList, decide_False. }
  split_and!.
  - eapply Own_Step; [done|exact Hon| |]; intros g'; rewrite Hn; done.
  - eapply Inv_only; [exact Hi|exact Hon|apply Ho| | | |].
    + intros g'. rewrite rowsOf_dropList, decide_True by done. apply wf_nil.
    + intros g'. by rewrite rowsOf_dropList, decide_True.
    + intros g'. by rewrite Hn.
    + simpl. rewrite view_lookup, Hg. simpl. f_equal. apply map_eq. intros id'. destruct (decide (id' = id)) as [->|Hd].
      * by rewrite lookup_delete_eq, view_lookup, Hn.
      * rewrite lookup_delete_ne by done. symmetry. by eapply view_only.
  - right. exists g. done.
Qed.
End Owner.

(** ** Edits in place *)

Section Editor.
Context (base : Lists) (t : nat) (id : Z).

(** The visible rows become [rs], and the effect [e] says so. *)
Lemma edit_spec s g rs e :
  Inv base s -> mayWrite t id s -> generationOf s id = Some g -> wfRows rs -> edits id e ->
  apply e (view s) = Some (<[id := map snd rs]> (view s)) ->
  Step t s (note t e (setRows id g rs s)) /\ Inv base (note t e (setRows id g rs s)).
Proof.
  intros Hi Hm Hg Hw He Ha. set (s' := note _ _ _). assert (Hon : Only t id [e] s s').
  { change [e] with ([] ++ [e]). eapply Only_trans; [apply Only_setRows|apply Only_note; by destruct e]. }
  assert (Hr : forall g', rowsOf s' id g' = if decide (g' = g) then rs else rowsOf s id g').
  { intros g'. change (rowsOf s' id g') with (rowsOf (setRows id g rs s) id g'). rewrite rowsOf_setRows.
    destruct (decide _) as [[= ->]|Hn]; [by rewrite decide_True|]. rewrite decide_False; congruence. }
  assert (Hs : generationOf s' id = generationOf s id) by done. split.
  - eapply Step_only; [exact Hon|done| | |].
    + intros v _ _. split; [done|]. intros g' Hn. rewrite Hr, decide_False; [done|congruence].
    + intros g' E. exists g'. split; [done|lia].
    + intros g' _ _. split; [right; by constructor|]. intros H%Exists_cons. destruct H as [H|H%Exists_nil]; [|done]. by destruct e.
  - eapply Inv_only; [exact Hi|exact Hon|apply Hm| | | |].
    + intros g'. rewrite Hr. destruct (decide _); [done|apply Hi].
    + intros g' _. by rewrite Hs, Hg.
    + intros g'. rewrite Hs. apply Hi.
    + cbn [replay]. rewrite Ha. f_equal. apply map_eq. intros id'. destruct (decide (id' = id)) as [->|Hn].
      * rewrite lookup_insert_eq, view_lookup, Hs, Hg. simpl. by rewrite Hr, decide_True.
      * rewrite lookup_insert_ne by done. symmetry. by eapply view_only.
Qed.

Lemma upsertChunk_spec pinned es s g n s' :
  Inv base s -> mayWrite t id s -> upsertChunk t id pinned es s = Some (g, n, s') ->
  Step t s s' /\ Inv base s' /\ generationOf s id = Some g /\ sameAs pinned g = true /\
  journal s' = journal s ++ [(t, Upserted id es n)].
Proof.
  intros Hi Hm. unfold upsertChunk. destruct (generationOf s id) as [g0|] eqn:Hg; [|done]. destruct (sameAs pinned g0) eqn:Hs; [|done].
  pose proof (upsertRows_spec es (rowsOf s id g0) (inv_wf _ _ Hi id g0)) as H. destruct (fold_left _ _ _) as [[rs o] m].
  destruct H as (Hw & Hv & Hn). intros [= <- <- <-].
  destruct (edit_spec s g0 rs (Upserted id es m) Hi Hm Hg Hw) as [H1 H2]; [done| |done].
  simpl. rewrite view_lookup, Hg. simpl. rewrite <- Hv. rewrite (proj2 (Z.eqb_eq m _)); [done|].
  unfold grown. rewrite !length_map. done.
Qed.

Lemma removeChunk_spec pinned es s g n s' :
  Inv base s -> mayWrite t id s -> removeChunk t id pinned es s = Some (g, n, s') ->
  Step t s s' /\ Inv base s' /\ generationOf s id = Some g /\ sameAs pinned g = true /\
  journal s' = journal s ++ [(t, Removed id es n)].
Proof.
  intros Hi Hm. unfold removeChunk. destruct (generationOf s id) as [g0|] eqn:Hg; [|done]. destruct (sameAs pinned g0) eqn:Hs; [|done].
  pose proof (removeRows_spec es (rowsOf s id g0) (inv_wf _ _ Hi id g0)) as H. destruct (fold_left _ _ _) as [rs m].
  destruct H as (Hw & Hv & Hn). intros [= <- <- <-].
  destruct (edit_spec s g0 rs (Removed id es m) Hi Hm Hg Hw) as [H1 H2]; [done| |done].
  simpl. rewrite view_lookup, Hg. simpl. rewrite <- Hv. rewrite (proj2 (Z.eqb_eq m _)); [done|].
  unfold grown. rewrite !length_map. done.
Qed.

Lemma alterMeta_spec f s : Inv base s -> mayWrite t id s -> Step t s (alterMeta f id s) /\ Inv base (alterMeta f id s).
Proof.
  intros Hi Hm. assert (Hg : forall id', generationOf (alterMeta f id s) id' = generationOf s id').
  { intros id'. unfold generationOf, alterMeta. simpl. destruct (decide (id' = id)) as [->|Hn].
    - rewrite lookup_alter_eq. by destruct (heads s !! id).
    - by rewrite lookup_alter_ne by congruence. }
  pose proof (Only_alterMeta t id f s) as Hon. split.
  - eapply Step_only; [exact Hon|done| | |].
    + intros. split; [apply Hg|done].
    + intros g'. rewrite Hg. intros E. by exists g'.
    + intros. split; [by left|by intros ?%Exists_nil].
  - eapply Inv_only; [exact Hi|exact Hon|apply Hm| | | |].
    + intros g. apply Hi.
    + intros g. rewrite Hg. apply (inv_fk _ _ Hi).
    + intros g. rewrite Hg. apply (inv_gen _ _ Hi).
    + simpl. f_equal. apply map_eq. intros id'. by rewrite !view_lookup, Hg.
Qed.
End Editor.

(** ** Claims, and lists handed over *)

(** Nothing but claims and [adding] changes. *)
Lemma same_tables base t s s' :
  heads s' = heads s -> table s' = table s -> lastId s' = lastId s -> journal s' = journal s ->
  (forall v id, v <> t -> claimed s !! id = Some v <-> claimed s' !! id = Some v) ->
  (forall v id, v <> t -> adding s !! id = Some v <-> adding s' !! id = Some v) ->
  (forall id, adding s !! id = None -> adding s' !! id = None) ->
  Inv base s -> Step t s s' /\ Inv base s'.
Proof.
  intros Eh Et El Ej Hc Ha Hk [H1 H2 H3 H4 H5 H6].
  assert (Hg : forall id, generationOf s' id = generationOf s id) by (intros id; unfold generationOf; by rewrite Eh).
  assert (Hr : forall id g, rowsOf s' id g = rowsOf s id g) by (intros id g; unfold rowsOf; by rewrite Et). split; split.
  - exists []. rewrite Ej, app_nil_r. split; [done|]. intros id g _ _. split; [left; apply Hr|by intros ?%Exists_nil].
  - apply Hc.
  - apply Ha.
  - intros id _. apply Hk.
  - lia.
  - intros v id _ _ _. split; [apply Hg|]. intros g _. apply Hr.
  - intros v id _ _. split; [apply Hg|]. intros g. apply Hr.
  - intros id g' _. rewrite Hg. intros E. by exists g'.
  - intros id g. rewrite Hr. apply H1.
  - intros id g. rewrite Hr, Hg. apply H2.
  - intros id. rewrite Hg, El. apply H3.
  - intros id [v E]. rewrite El. apply H4. destruct (adding s !! id) eqn:E'; [done|]. apply Hk in E'. congruence.
  - intros id g. rewrite Hg. apply H5.
  - rewrite Ej, H6. f_equal. apply map_eq. intros id. rewrite !view_lookup, Hg. destruct (generationOf s id); [|done]. simpl. by rewrite Hr.
Qed.

Lemma claim_spec base t id s :
  Inv base s -> claimed s !! id = None -> let s' := s <| claimed := <[id := t]> (claimed s) |> in Step t s s' /\ Inv base s'.
Proof.
  intros Hi Hc s'. apply same_tables; try done. intros v id' Hn. simpl. destruct (decide (id' = id)) as [->|Hd].
  - rewrite lookup_insert_eq, Hc. split; [done|congruence].
  - by rewrite lookup_insert_ne.
Qed.

Lemma release_spec base t id s :
  Inv base s -> claimed s !! id = Some t -> let s' := s <| claimed := delete id (claimed s) |> in Step t s s' /\ Inv base s'.
Proof.
  intros Hi Hc s'. apply same_tables; try done. intros v id' Hn. simpl. destruct (decide (id' = id)) as [->|Hd].
  - rewrite lookup_delete_eq, Hc. split; [congruence|done].
  - by rewrite lookup_delete_ne.
Qed.

Lemma handOver_spec base t s : Inv base s -> Step t s (handOver t s) /\ Inv base (handOver t s).
Proof.
  intros Hi. apply same_tables; try done.
  - intros v id Hn. unfold handOver. simpl. rewrite map_lookup_filter_Some. split; [by intros H|by intros [H _]].
  - intros id E. unfold handOver. simpl. rewrite map_lookup_filter_None. by left.
Qed.

(** ** New lists *)

Lemma fresh_rows base s id g : Inv base s -> lastId s < id -> generationOf s id = None /\ rowsOf s id g = [] /\ adding s !! id = None.
Proof.
  intros Hi Hl. assert (Hg : generationOf s id = None).
  { destruct (generationOf s id) as [g0|] eqn:E; [|done]. assert (id <= lastId s) by (eapply inv_ids; [exact Hi|by rewrite E]). lia. }
  split_and!; [done| |].
  - destruct (rowsOf s id g) as [|r rs] eqn:E; [done|]. assert (H : is_Some (generationOf s id)).
    { eapply inv_fk; [exact Hi|]. by rewrite E. } rewrite Hg in H. by destruct H.
  - destruct (adding s !! id) eqn:E; [|done]. assert (id <= lastId s) by (eapply inv_adding; [exact Hi|by rewrite E]). lia.
Qed.

Lemma insertList_spec base t m es s id n s' :
  Inv base s -> targetsUnique es -> insertList t m es s = Some (id, n, s') ->
  Step t s s' /\ Inv base s' /\ journal s' = journal s ++ [(t, Added id es)] /\ n = Z.of_nat (length es) /\
  lastId s < id /\ lastId s' = id /\ 0 < id /\ adding s' !! id = Some t /\ generationOf s' id = Some 0 /\
  (forall g, rowsOf s' id g = if decide (g = 0) then numberedFrom 0 es else []) /\
  (forall id', id' <> id -> generationOf s' id' = generationOf s id') /\
  (forall id' g, id' <> id -> rowsOf s' id' g = rowsOf s id' g).
Proof.
  intros Hi Hu. unfold insertList. destruct (Z.leb_spec (lastId s + 1) 0) as [|Hpos]; [done|].
  destruct (insert_fresh [] es 0 wf_nil) as [E Hw]; [lia|constructor|done|]. rewrite E. intros [= <- <- <-].
  set (id := lastId s + 1) in *. set (s' := note _ _ _).
  assert (Hg' : generationOf s' id = Some 0) by (unfold generationOf; simpl; by rewrite lookup_insert_eq).
  assert (Hgo : forall id', id' <> id -> generationOf s' id' = generationOf s id').
  { intros id' Hn. unfold generationOf. simpl. by rewrite lookup_insert_ne by congruence. }
  assert (Hr : forall id' g, rowsOf s' id' g = if decide ((id', g) = (id, 0)) then numberedFrom 0 es else rowsOf s id' g).
  { intros id' g. unfold rowsOf. simpl. destruct (decide _) as [->|Hn]; [by rewrite lookup_insert_eq|by rewrite lookup_insert_ne by congruence]. }
  assert (Hro : forall id' g, id' <> id -> rowsOf s' id' g = rowsOf s id' g) by (intros id' g Hn; rewrite Hr, decide_False; [done|congruence]).
  destruct (fresh_rows base s id 0 Hi ltac:(unfold id; lia)) as (Hf1 & _ & Hf3).
  assert (Hrn : forall g, rowsOf s' id g = if decide (g = 0) then numberedFrom 0 es else []).
  { intros g. rewrite Hr. destruct (fresh_rows base s id g Hi ltac:(unfold id; lia)) as (_ & Hf2 & _).
    destruct (decide _) as [[= ->]|Hn]; [by rewrite decide_True|]. rewrite decide_False; [done|congruence]. }
  assert (Hlt : forall id', id' <= lastId s -> id' <> id) by (unfold id; lia). split_and!; try done.
  - split.
    + exists [Added id es]. split; [done|]. intros id' g Eg _. split; [left; apply Hro; intros ->; by rewrite Hf1 in Eg|].
      intros H%Exists_cons. destruct H as [H|H%Exists_nil]; done.
    + done.
    + intros v id' Hn. simpl. destruct (decide (id' = id)) as [->|Hd]; [rewrite lookup_insert_eq, Hf3; split; congruence|].
      by rewrite lookup_insert_ne.
    + intros id' Hl Ha. simpl. rewrite lookup_insert_ne; [done|]. intros <-. by apply (Hlt id).
    + simpl. unfold id. lia.
    + intros v id' _ _ Hl. split; [by apply Hgo, Hlt|]. intros g _. by apply Hro, Hlt.
    + intros v id' _ Ha. assert (id' <> id) by congruence. split; [by apply Hgo|]. intros g. by apply Hro.
    + intros id' g' Hl. rewrite Hgo by by apply Hlt. intros Eg. by exists g'.
  - pose proof Hi as [H1 H2 H3 H4 H5 H6]. split.
    + intros id' g. rewrite Hr. destruct (decide _); [done|apply H1].
    + intros id' g. destruct (decide (id' = id)) as [->|Hn]; [by rewrite Hg'|]. rewrite Hgo, Hro by done. apply H2.
    + intros id'. simpl. destruct (decide (id' = id)) as [->|Hn]; [intros _; unfold id; lia|]. rewrite Hgo by done. intros H%H3. lia.
    + intros id'. simpl. destruct (decide (id' = id)) as [->|Hn]; [intros _; unfold id; lia|].
      rewrite lookup_insert_ne by done. intros H%H4. lia.
    + intros id' g. destruct (decide (id' = id)) as [->|Hn]; [rewrite Hg'; intros [= <-]; lia|]. rewrite Hgo by done. apply H5.
    + change (journal s') with (journal s ++ [(t, Added id es)]). rewrite map_app, replay_app, H6. simpl. rewrite view_lookup, Hf1. simpl.
      f_equal. apply map_eq. intros id'. destruct (decide (id' = id)) as [->|Hn].
      * rewrite lookup_insert_eq, view_lookup, Hg'. simpl. rewrite Hrn. simpl. by rewrite numberedFrom_snd.
      * rewrite lookup_insert_ne by done. rewrite !view_lookup, Hgo by done. destruct (generationOf s id') as [g|]; [|done]. simpl. by rewrite Hro.
  - unfold id. lia.
  - simpl. by rewrite lookup_insert_eq.
Qed.

(** ** Copies *)

Lemma copyChunk_spec base t id source sg after s bound s' :
  Inv base s -> Own t id s -> Forall (fun r : Z * IpListEntry => r.1 <= after) (rowsOf s id 1) ->
  copyChunk t id source sg after s = Some (bound, s') ->
  let left := filter (fun r => after < r.1) (rowsOf s source sg) in
  Step t s s' /\ Inv base s' /\
  match bound with
  | None => journal s' = journal s ++ [(t, SetAll id (map snd (rowsOf s id 1 ++ left)))]
  | Some b => journal s' = journal s /\ generationOf s' id = generationOf s id /\ after < b /\
      rowsOf s' id 1 = rowsOf s id 1 ++ filter (fun r => r.1 <= b) left
  end.
Proof.
  intros Hi Ho Ha. unfold copyChunk. destruct (bool_decide _) eqn:Hg; [|done]. apply bool_decide_eq_true in Hg.
  set (left := filter (fun r => after < r.1) (rowsOf s source sg)). set (T := rowsOf s id 1) in *.
  set (bd := fst <$> left !! _). set (part := match bd with Some b => filter (fun r => r.1 <= b) left | None => left end).
  destruct (existsb _ part) eqn:Hc; [done|].
  assert (Hleft : wfRows left) by apply wf_filter, (inv_wf _ _ Hi).
  assert (Hwp : wfRows part) by (unfold part; destruct bd; [by apply wf_filter|done]).
  assert (Hla : Forall (fun r : Z * IpListEntry => after < r.1) left) by (apply Forall_forall; by intros r [Hr _]%list_elem_of_filter).
  assert (Hpa : Forall (fun r : Z * IpListEntry => after < r.1) part).
  { unfold part. destruct bd; [|done]. rewrite Forall_forall in Hla |- *. intros r [_ Hr]%list_elem_of_filter. by apply Hla. }
  rewrite (insert_all after) by (done || apply Hwp).
  assert (Hw : wfRows (T ++ part)) by (eapply wf_app; [apply (inv_wf _ _ Hi)|done..]).
  intros [= <- <-]. destruct bd as [b|] eqn:Hb.
  - destruct (hidden_change base t id s 1 (T ++ part) Hi Ho) as [H1 H2]; [rewrite Hg; congruence|done|right; by rewrite Hg|].
    split_and!; try done; [|by rewrite rowsOf_same]. unfold bd in Hb. apply fmap_Some in Hb as ([o e] & Hl & ->). simpl.
    apply list_elem_of_lookup_2 in Hl. rewrite Forall_forall in Hla. apply (Hla _ Hl).
  - set (s' := note _ _ _). assert (Hg' : generationOf s' id = Some 1).
    { change (generationOf s' id) with (generationOf (setGeneration id 1 (setRows id 1 (T ++ part) s)) id).
      rewrite generationOf_setGeneration, decide_True by done. change (generationOf (setRows id 1 (T ++ part) s) id) with (generationOf s id). by rewrite Hg. }
    destruct (flip base t id s s' 0 1 (T ++ part) Hi Ho Hg) as [H1 H2]; [lia|done| |done| |done].
    + change [SetAll id (map snd (T ++ part))] with ([] ++ ([] ++ [SetAll id (map snd (T ++ part))])).
      eapply Only_trans; [apply Only_setRows|]. eapply Only_trans; [apply Only_setGeneration|by apply Only_note].
    + intros g0. change (rowsOf s' id g0) with (rowsOf (setRows id 1 (T ++ part) s) id g0). rewrite rowsOf_setRows.
      destruct (decide _) as [[= ->]|Hn]; [by rewrite decide_True|]. rewrite decide_False; congruence.
Qed.

(** ** A restart *)

Lemma rowsOf_deleteLeftover s d id g :
  rowsOf (deleteLeftover s d) id g = if isLeftover d id g then [] else rowsOf s id g.
Proof.
  unfold rowsOf, deleteLeftover. simpl. destruct (isLeftover d id g) eqn:E.
  - rewrite map_lookup_filter_None_2; [done|]. right. intros x _. simpl. by rewrite E.
  - destruct (table s !! (id, g)) as [rs|] eqn:Et.
    + by erewrite map_lookup_filter_Some_2.
    + rewrite map_lookup_filter_None_2; [done|]. by left.
Qed.

Lemma leftovers_stale s d id : d ∈ leftovers s -> generationOf s id = Some d.1.2 \/ d.1.1 <> id.
Proof.
  unfold leftovers. intros (l & Hl%list_elem_of_In & Hd%list_elem_of_In)%list_elem_of_In%in_concat.
  apply list_elem_of_fmap in Hl as ([i h] & -> & [_ Hh]%list_elem_of_filter). apply elem_of_map_to_list in Hh. destruct (decide (i = id)) as [->|Hn].
  - left. unfold generationOf. rewrite Hh. by repeat (apply elem_of_cons in Hd as [->|Hd]; [done|]); apply elem_of_nil in Hd.
  - right. by repeat (apply elem_of_cons in Hd as [->|Hd]; [done|]); apply elem_of_nil in Hd.
Qed.

(** Deletes of leftovers empty generations no list is at, and nothing else. *)
Lemma purged_spec ds s s' :
  (forall d id, d ∈ ds -> generationOf s id = Some d.1.2 \/ d.1.1 <> id) -> s' = fold_left deleteLeftover ds s ->
  (heads s' = heads s /\ lastId s' = lastId s /\ claimed s' = claimed s /\ adding s' = adding s /\ journal s' = journal s) /\
  (forall id g, rowsOf s' id g = rowsOf s id g \/ rowsOf s' id g = [] /\ generationOf s id <> Some g) /\
  (forall d id g, d ∈ ds -> isLeftover d id g = true -> rowsOf s' id g = []).
Proof.
  intros Hds ->. revert s Hds. induction ds as [|d ds IH]; intros s Hds.
  { split; [done|]. split; [by left|]. by intros d id g ?%elem_of_nil. }
  cbn [fold_left]. destruct (IH (deleteLeftover s d)) as (H1 & H2 & H3); [intros d' id Hd; apply Hds; by right|].
  split; [exact H1|]. split.
  - intros id g. specialize (H2 id g). change (generationOf (deleteLeftover s d) id) with (generationOf s id) in H2.
    rewrite rowsOf_deleteLeftover in H2. destruct (isLeftover d id g) eqn:E; [|done]. right.
    split; [by destruct H2 as [?|[? _]]|]. destruct d as [[i keep] below]. unfold isLeftover in E. bool_to_prop. subst i.
    destruct (Hds (id, keep, below) id ltac:(by left)) as [Eg|Hn]; simpl in *; [|done]. rewrite Eg. intros [= <-].
    destruct below; lia.
  - intros d' id g [->|Hd]%elem_of_cons E; [|by apply (H3 d')]. destruct (H2 id g) as [H|[H _]]; [|done].
    by rewrite H, rowsOf_deleteLeftover, E.
Qed.

Lemma purged_view ds s s' :
  (forall d id, d ∈ ds -> generationOf s id = Some d.1.2 \/ d.1.1 <> id) -> s' = fold_left deleteLeftover ds s -> view s' = view s.
Proof.
  intros Hds E. destruct (purged_spec ds s s' Hds E) as ((Hh & _) & H2 & _). apply map_eq. intros id. rewrite !view_lookup.
  unfold generationOf. rewrite Hh. destruct (heads s !! id) as [h|] eqn:Eh; [|done]. simpl.
  destruct (H2 id (gen h)) as [->|[_ Hn]]; [done|]. destruct Hn. unfold generationOf. by rewrite Eh.
Qed.

Lemma restarted_spec base s s' :
  Inv base s -> restarted s s' -> Inv base s' /\ journal s' = journal s /\ view s' = view s /\ claimed s' = ∅ /\ adding s' = ∅.
Proof.
  intros [H1 H2 H3 H4 H5 H6] (ds & Hds & E). set (s0 := _ <| adding := ∅ |>) in *.
  assert (Hst : forall d id, d ∈ ds -> generationOf s0 id = Some d.1.2 \/ d.1.1 <> id) by (intros d id Hd; by apply leftovers_stale, Hds).
  pose proof (purged_view ds s0 s' Hst E) as Hv. destruct (purged_spec ds s0 s' Hst E) as ((E1 & E2 & E3 & E4 & E5) & Hr & _).
  assert (Hg : forall id, generationOf s' id = generationOf s id) by (intros id; unfold generationOf; by rewrite E1).
  split_and!; [|by rewrite E5|by rewrite Hv|by rewrite E3|by rewrite E4]. split.
  - intros id g. destruct (Hr id g) as [->|[-> _]]; [apply H1|apply wf_nil].
  - intros id g Hn. rewrite Hg. destruct (Hr id g) as [E0|[E0 _]]; rewrite E0 in Hn; [by apply (H2 id g)|done].
  - intros id. rewrite Hg, E2. apply H3.
  - intros id. rewrite E4. intros [v Ev]. simpl in Ev. by rewrite lookup_empty in Ev.
  - intros id g. rewrite Hg. apply H5.
  - by rewrite E5, Hv.
Qed.
