(* ===== verification/IpListStoreOps.v ===== *)
(** * IpListStoreOps: the operations of the IP-list store, among other threads

    What a thread knows of the tables between two of its calls, whatever the other
    threads do meanwhile (the [stable] facts), and from these what each operation
    has done when it ends. *)

From S2P Require Import Prelude Text IpAddress Program Interleave IpListStore IpListRows IpListStoreLaws.

(** The effects of [t] among [js]. *)
Definition own (t : nat) (js : list (nat * Effect)) : list Effect := map snd (filter (fun x => x.1 = t) js).

Lemma own_app t js js' : own t (js ++ js') = own t js ++ own t js'.
Proof. unfold own. by rewrite filter_app, map_app. Qed.

Lemma own_others t u es : u <> t -> own t (map (pair u) es) = [].
Proof. intros H. unfold own. rewrite filter_none; [done|]. intros x (e & -> & _)%list_elem_of_fmap. done. Qed.

Section Ops.
Context (base : Lists) (mayLoop : Prop) (t : nat).

(** [mayLoop]: whether a loop may still be going on when its fuel is spent. *)
Definition fine (X : Type) (e : ListAct X) : Prop := match e with Loop => mayLoop | _ => True end.

Abbreviation Stable := (stable (Inv base) Step t).
Abbreviation RG := (rg exec (Inv base) Step fine t).

(** ** Facts the others keep *)

Lemma stable_and P Q : Stable P -> Stable Q -> Stable (fun s => P s /\ Q s).
Proof. intros HP HQ s s' Hr [H1 H2]. split; [by apply (HP s)|by apply (HQ s)]. Qed.

Lemma stable_mayWrite id : Stable (mayWrite t id).
Proof.
  intros s s' (u & Hu & Hst & _) [Hl Ha]. split; [pose proof (st_last _ _ _ Hst); lia|]. destruct Ha as [Ha|Ha].
  - left. by apply (st_known _ _ _ Hst).
  - right. by apply (st_adding _ _ _ Hst).
Qed.

Lemma stable_Own id : Stable (Own t id).
Proof.
  intros s s' Hr [Hc Hm]. split; [|by apply (stable_mayWrite id s)]. destruct Hr as (u & Hu & Hst & _). by apply (st_claimed _ _ _ Hst).
Qed.

(** What [t] has done since the journal was [J]. *)
Definition did (J : list (nat * Effect)) (es : list Effect) (s : Store) : Prop :=
  exists new, journal s = J ++ new /\ own t new = es.

Lemma did_start s : did (journal s) [] s.
Proof. exists []. by rewrite app_nil_r. Qed.

Lemma did_same J es s s' : journal s' = journal s -> did J es s -> did J es s'.
Proof. intros E (new & H & Ho). exists new. by rewrite E. Qed.

Lemma did_note J es e s s' : journal s' = journal s ++ [(t, e)] -> did J es s -> did J (es ++ [e]) s'.
Proof.
  intros E (new & H & Ho). exists (new ++ [(t, e)]). rewrite E, H, <- app_assoc. split; [done|]. rewrite own_app, Ho.
  unfold own. by rewrite filter_cons, decide_True.
Qed.

Lemma stable_did J es : Stable (did J es).
Proof.
  intros s s' (u & Hu & Hst & _) (new & H & Ho). destruct (st_journal _ _ _ Hst) as (es' & E & _). exists (new ++ map (pair u) es').
  rewrite E, H, <- app_assoc. split; [done|]. by rewrite own_app, own_others, app_nil_r.
Qed.

(** What the owner of a list knows of it: its generation, and the rows no reader
    sees. *)
Record Held (id : Z) (h : option Z) (f : Z -> Rows) (J : list (nat * Effect)) (es : list Effect) (s : Store) : Prop := MkHeld {
  he_own : Own t id s;
  he_gen : generationOf s id = h;
  he_rows : forall g, h <> Some g -> rowsOf s id g = f g;
  he_did : did J es s }.

Lemma stable_Held id h f J es : Stable (Held id h f J es).
Proof.
  intros s s' Hr [Ho Hg Hf Hd]. split; [by apply (stable_Own id s)| | |by apply (stable_did J es s)];
    destruct Hr as (u & Hu & Hst & Hi & _); destruct Ho as [Hc Hm]; destruct (st_owned _ _ _ Hst t id ltac:(done) Hc ltac:(apply Hm)) as [Eg Er].
  - congruence.
  - intros g Hn. rewrite Er by congruence. by apply Hf.
Qed.

Lemma Held_now id J es s : Own t id s -> did J es s -> Held id (generationOf s id) (rowsOf s id) J es s.
Proof. by split. Qed.

(** What [t] knows of a list it is adding and has not claimed yet. *)
Record Fresh (id : Z) (J : list (nat * Effect)) (es : list Effect) (s : Store) : Prop := MkFresh {
  fr_write : mayWrite t id s;
  fr_adding : adding s !! id = Some t;
  fr_gen : generationOf s id = Some 0;
  fr_rows : forall g, g <> 0 -> rowsOf s id g = [];
  fr_did : did J es s }.

Lemma stable_Fresh id J es : Stable (Fresh id J es).
Proof.
  intros s s' Hr [Hw Ha Hg Hf Hd]. split; [by apply (stable_mayWrite id s)| | | |by apply (stable_did J es s)];
    destruct Hr as (u & Hu & Hst & Hi & _); destruct (st_private _ _ _ Hst t id ltac:(done) Ha) as [Eg Er].
  - by apply (st_adding _ _ _ Hst).
  - congruence.
  - intros g Hn. rewrite Er. by apply Hf.
Qed.

(** ** Calls and claims *)

Lemma rg_loop {A} s (Q : A -> Store -> Prop) : mayLoop -> RG loop s Q.
Proof. intros H. split; [done|]. intros s' []. Qed.

Lemma rg_act {A X} (e : ListAct X) (k : X -> prog ListAct A) s (P : Store -> Prop) Q :
  Stable P -> fine X e -> P s ->
  (forall s' x s'', P s' -> Inv base s' -> exec t X e s' x s'' -> Step t s' s'' /\ Inv base s'' /\ RG (k x) s'' Q) ->
  RG (pbind (act e) k) s Q.
Proof. apply rg_call. Qed.

Lemma rg_done {A} (a : A) s (Q : A -> Store -> Prop) : Stable (Q a) -> Q a s -> RG (Ret a) s Q.
Proof. intros Hs HQ. by apply (rg_ret _ _ _ _ _ _ _ (Q a)). Qed.

(** A block under a claim. *)
Lemma rg_claiming {A} id (body : prog ListAct A) s (P : Store -> Prop) (Q : A -> Store -> Prop) :
  Stable P -> P s -> (forall s, P s -> mayWrite t id s) ->
  (forall s, P s -> claimed s !! id = None -> P (s <| claimed := <[id := t]> (claimed s) |>)) ->
  (forall s, Inv base s -> P s -> Own t id s -> RG body s (fun x s' => Own t id s' /\ Q x s')) ->
  (forall x, Stable (Q x)) -> (forall x s, Q x s -> Q x (s <| claimed := delete id (claimed s) |>)) ->
  RG (claiming id body) s Q.
Proof.
  intros HsP HP Hw Hins Hbody HsQ Hdel. apply (rg_act _ _ _ P); [done|done|done|].
  intros s1 [] s2 HP1 Hi1 [Hc ->]. destruct (claim_spec base t id s1 Hi1 Hc) as [H1 H2]. split; [done|]. split; [done|].
  apply rg_bind. eapply rg_mono; [|apply Hbody; [done|by apply Hins|]].
  - intros x s3 [Ho HQ]. apply (rg_act _ _ _ (fun s => Own t id s /\ Q x s)); [apply stable_and; [apply stable_Own|apply HsQ]|done|done|].
    intros s4 [] s5 [Ho4 HQ4] Hi4 ->. destruct (release_spec base t id s4 Hi4 (proj1 Ho4)) as [H3 H4]. split; [done|]. split; [done|].
    apply rg_done; [apply HsQ|by apply Hdel].
  - split; [simpl; by rewrite lookup_insert_eq|]. by apply Hw, Hins.
Qed.

(** ** Purging *)

Lemma Held_same id h f J es s s' :
  Own t id s' -> generationOf s' id = generationOf s id -> journal s' = journal s ->
  Held id h f J es s -> Held id h (rowsOf s' id) J es s'.
Proof. intros Ho Hg Hj [_ H2 _ H4]. split; [done|congruence|done|]. by apply (did_same J es s). Qed.

Lemma Own_Step_keep id s s' :
  Own t id s -> Step t s s' -> claimed s' = claimed s -> adding s' = adding s -> Own t id s'.
Proof. intros [Hc [Hl Ha]] Hst Ec Ea. split; [by rewrite Ec|]. split; [pose proof (st_last _ _ _ Hst); lia|by rewrite Ea]. Qed.

Lemma purgeChunk_keeps id g more s s' :
  purgeChunk id g s = Some (more, s') -> claimed s' = claimed s /\ adding s' = adding s.
Proof. unfold purgeChunk. destruct (bool_decide _); [done|]. by destruct (rowsOf s id g !! _) as [[? ?]|]; intros [= _ <-]. Qed.

Lemma rg_purgeGeneration fuel id g h f J es s :
  Held id h f J es s -> mayLoop \/ (0 < fuel /\ (h <> Some g -> length (f g) < fuel))%nat ->
  RG (ipListsRepoPurgeGeneration fuel id g) s (fun ok s' => exists f', Held id h f' J es s' /\
    (forall g', h <> Some g' -> g' <> g -> f' g' = f g') /\ (h <> Some g -> length (f' g) <= length (f g))%nat /\
    (ok = true -> h <> Some g /\ f' g = [])).
Proof.
  revert f s. induction fuel as [|fuel IH]; intros f s Hh Hfuel; cbn [ipListsRepoPurgeGeneration].
  { apply rg_loop. destruct Hfuel as [H|[H _]]; [done|lia]. }
  apply (rg_act _ _ _ (Held id h f J es)); [apply stable_Held|done|done|]. intros s1 more s2 Hh1 Hi1 He.
  destruct He as [[-> ->]|(more' & E & ->)].
  - split; [apply Step_refl|]. split; [done|]. eapply rg_ret; [apply (stable_Held id h f J es)|done|].
    intros s3 H3. exists f. done.
  - destruct (purgeChunk_spec base t id g more' s1 s2 Hi1 (he_own _ _ _ _ _ _ Hh1) E) as (H1 & H2 & Hj & Hg & Hn & Hr & Hm).
    split; [done|]. split; [done|]. destruct (purgeChunk_keeps _ _ _ _ _ E) as [Ec Ea].
    assert (Ho2 : Own t id s2) by (eapply Own_Step_keep; [apply (he_own _ _ _ _ _ _ Hh1)|done..]).
    pose proof (Held_same _ _ _ _ _ _ _ Ho2 Hg Hj Hh1) as Hh2. pose proof (he_gen _ _ _ _ _ _ Hh1) as Hgen. rewrite Hgen in Hn.
    assert (Hf : forall g', h <> Some g' -> g' <> g -> rowsOf s2 id g' = f g').
    { intros g' Hn' Hd. rewrite Hr by done. by apply (he_rows _ _ _ _ _ _ Hh1). }
    rewrite (he_rows _ _ _ _ _ _ Hh1) in Hm by done. destruct more'.
    + eapply rg_mono; [|apply IH; [exact Hh2|]].
      * intros ok s3 (f' & K1 & K2 & K3 & K4). exists f'. split_and!; [done| | |done].
        -- intros g' Hn' Hd. rewrite K2 by done. by apply Hf.
        -- intros _. specialize (K3 Hn). lia.
      * destruct Hfuel as [H|[_ H]]; [by left|]. right. specialize (H Hn). split; [lia|]. intros _. lia.
    + eapply rg_ret; [apply (stable_Held id h (rowsOf s2 id) J es)|done|]. intros s3 H3. exists (rowsOf s2 id).
      rewrite Hm. split_and!; try done. simpl. lia.
Qed.

(** The generations purged, and their rows, when they are to be counted. *)
Definition bounded (h : option Z) (keep : Z) (f : Z -> Rows) (n : nat) : Prop :=
  exists gs, (forall g, g <> keep -> h <> Some g -> f g <> [] -> g ∈ gs) /\ (sum_list_with (fun g => length (f g)) (filter (fun g => h <> Some g) gs) < n)%nat.

Lemma sum_list_in {A} (f : A -> nat) l x : x ∈ l -> (f x <= sum_list_with f l)%nat.
Proof. induction l as [|y l IH]; [by intros ?%not_elem_of_nil|]. simpl. intros [->|H%IH]%elem_of_cons; lia. Qed.

Lemma sum_list_less {A} (f f' : A -> nat) l x :
  x ∈ l -> (forall y, y ∈ l -> f' y <= f y)%nat -> (f' x < f x)%nat -> (sum_list_with f' l < sum_list_with f l)%nat.
Proof.
  assert (Hle : forall l, (forall y, y ∈ l -> f' y <= f y)%nat -> (sum_list_with f' l <= sum_list_with f l)%nat).
  { clear. induction l as [|y l IH]; intros H; [done|]. simpl. assert (f' y <= f y)%nat by (apply H; by left).
    assert (sum_list_with f' l <= sum_list_with f l)%nat by (apply IH; intros z Hz; apply H; by right). lia. }
  induction l as [|y l IH]; [by intros ?%not_elem_of_nil|]. intros Hx Hy Hlt. simpl. assert (f' y <= f y)%nat by (apply Hy; by left).
  assert (Hl : forall z, z ∈ l -> (f' z <= f z)%nat) by (intros z Hz; apply Hy; by right).
  apply elem_of_cons in Hx as [->|Hx]; [specialize (Hle l Hl); lia|]. specialize (IH Hx Hl Hlt). lia.
Qed.

Lemma bounded_less h keep f f' g n :
  bounded h keep f (S n) -> g <> keep -> h <> Some g -> f g <> [] -> f' g = [] ->
  (forall g', h <> Some g' -> g' <> g -> f' g' = f g') -> bounded h keep f' n.
Proof.
  intros (gs & Hin & Hsum) Hk Hn Hg Hg' Hf. exists gs. split.
  - intros g0 Hk0 Hn0 H0. apply Hin; try done. destruct (decide (g0 = g)) as [->|Hd]; [done|]. by rewrite <- Hf.
  - assert (Hgs : g ∈ filter (fun g => h <> Some g) gs) by (apply list_elem_of_filter; split; [done|by apply Hin]).
    assert (H : (sum_list_with (fun g => length (f' g)) (filter (fun g => h <> Some g) gs) <
      sum_list_with (fun g => length (f g)) (filter (fun g => h <> Some g) gs))%nat); [|lia].
    apply (sum_list_less _ _ _ g); [done| |].
    + intros g0 [Hn0 _]%list_elem_of_filter. destruct (decide (g0 = g)) as [->|Hd]; [rewrite Hg'; simpl; lia|]. by rewrite Hf.
    + rewrite Hg'. destruct (f g); [done|]. simpl. lia.
Qed.

Lemma rg_purgeExcept fuel id keep h f J es s :
  Held id h f J es s -> mayLoop \/ bounded h keep f fuel ->
  RG (ipListsRepoPurgeExcept fuel id keep) s (fun ok s' => exists f', Held id h f' J es s' /\
    (f' keep = f keep \/ h = Some keep) /\ (ok = true -> forall g, g <> keep -> h <> Some g -> f' g = [])).
Proof.
  revert f s. induction fuel as [|fuel IH]; intros f s Hh Hfuel; cbn [ipListsRepoPurgeExcept].
  { apply rg_loop. destruct Hfuel as [H|(gs & _ & H)]; [done|lia]. }
  apply (rg_act _ _ _ (Held id h f J es)); [apply stable_Held|done|done|]. intros s1 stale s2 Hh1 Hi1 [-> He].
  split; [apply Step_refl|]. split; [done|]. destruct stale as [[g|]|].
  - destruct He as [|(g' & [= <-] & Hk & Hne & _)]; [done|]. apply rg_bind.
    eapply rg_mono; [|apply (rg_purgeGeneration (S fuel) id g h f J es); [exact Hh1|]].
    + intros ok s2 (f' & K1 & K2 & K3 & K4). destruct ok.
      * destruct (K4 eq_refl) as [Hn Hg]. eapply rg_mono; [|apply IH; [exact K1|]].
        -- intros ok s3 (f2 & L1 & L2 & L3). exists f2. split_and!; [done| |done]. destruct L2 as [->|L2]; [|by right].
           destruct (decide (h = Some keep)) as [E|Hnk]; [by right|]. left. by apply K2.
        -- destruct Hfuel as [H|H]; [by left|]. right. eapply (bounded_less _ _ f); try done. by rewrite <- (he_rows _ _ _ _ _ _ Hh1).
      * eapply rg_ret; [apply (stable_Held id h f' J es)|done|]. intros s3 H3. exists f'. split_and!; [done| |done].
        destruct (decide (h = Some keep)) as [E|Hnk]; [by right|]. left. by apply K2.
    + destruct Hfuel as [H|(gs & Hin & Hsum)]; [by left|]. right. split; [lia|]. intros Hn.
      assert (Hgs : g ∈ filter (fun g => h <> Some g) gs).
      { apply list_elem_of_filter. split; [done|]. apply Hin; [done|done|]. by rewrite <- (he_rows _ _ _ _ _ _ Hh1). }
      pose proof (sum_list_in (fun g => length (f g)) _ _ Hgs). simpl in *. lia.
  - destruct He as [|(g' & [= <-] & Hnone)]; [done|]. eapply rg_ret; [apply (stable_Held id h f J es)|done|].
    intros s3 H3. exists f. split_and!; [done|by left|]. intros _ g Hk Hn. rewrite <- (he_rows _ _ _ _ _ _ Hh1) by done. by apply Hnone.
  - eapply rg_ret; [apply (stable_Held id h f J es)|done|]. intros s3 H3. exists f. split_and!; [done|by left|done].
Qed.

(** ** Staging *)

Lemma stageChunk_keeps id current target es begin n s s' :
  stageChunk t id current target es begin s = Some (n, s') -> claimed s' = claimed s /\ adding s' = adding s.
Proof.
  unfold stageChunk. destruct (bool_decide _); [|done]. destruct (insertEntries _ _ _) as [rs w].
  destruct (Nat.eqb _ _); by intros [= _ <-].
Qed.

Lemma chunkEnd_range es begin :
  (begin <= length es)%nat -> (begin <= chunkEnd es begin <= length es)%nat /\ (begin < length es -> begin < chunkEnd es begin)%nat.
Proof. intros H. unfold chunkEnd, kIpListsRepoChunkRows. assert (0 < Z.to_nat 20000)%nat by lia. split; lia. Qed.

Lemma rg_stageLoop rounds id current target entries begin written f J es s :
  Held id (Some current) f J es s -> current < target -> targetsUnique entries -> (begin <= length entries)%nat ->
  (length entries - begin < rounds)%nat -> f target = numberedFrom 0 (take begin entries) ->
  RG (stageLoop rounds id current target entries begin written) s (fun r s' => exists h' f',
    match r with
    | Some n => n = written + Z.of_nat (length entries - begin) /\ Held id h' f' J (es ++ [SetAll id entries]) s'
    | None => Held id h' f' J es s'
    end).
Proof.
  intros Hh Hlt Hu. revert begin written f s Hh. induction rounds as [|rounds IH]; intros begin written f s Hh Hb Hr Hf; [lia|]. cbn [stageLoop].
  apply (rg_act _ _ _ (Held id (Some current) f J es)); [apply stable_Held|done|done|]. intros s1 x s2 Hh1 Hi1 [[-> ->]|(n & E & ->)].
  - split; [apply Step_refl|]. split; [done|]. eapply rg_ret; [apply (stable_Held id (Some current) f J es)|done|]. intros s3 H3. by exists (Some current), f.
  - assert (Ht : Some current <> Some target) by (intros [= H]; lia).
    destruct (stageChunk_spec base t id s1 current target entries begin n s2 Hi1 (he_own _ _ _ _ _ _ Hh1) Hlt Hu Hb) as (Hc & -> & H1 & H2 & H3); [|exact E|].
    { by rewrite (he_rows _ _ _ _ _ _ Hh1). }
    split; [done|]. split; [done|]. destruct (stageChunk_keeps _ _ _ _ _ _ _ _ E) as [Ec Ea].
    assert (Ho2 : Own t id s2) by (eapply Own_Step_keep; [apply (he_own _ _ _ _ _ _ Hh1)|done..]).
    destruct (chunkEnd_range entries begin Hb) as [Hr1 Hr2]. destruct (Nat.eqb_spec (chunkEnd entries begin) (length entries)) as [Hend|Hend].
    + rewrite (proj2 (Nat.ltb_ge _ _)) by lia. pose proof (did_note J es _ _ _ H3 (he_did _ _ _ _ _ _ Hh1)) as Hd.
      eapply rg_ret; [apply (stable_Held id (generationOf s2 id) (rowsOf s2 id) J (es ++ [SetAll id entries]))|by apply Held_now|].
      intros s3 K3. eexists _, _. split; [|exact K3]. rewrite Hend. lia.
    + destruct H3 as (Hj & Hg & Hrows). rewrite (proj2 (Nat.ltb_lt _ _)) by lia. rewrite <- (he_gen _ _ _ _ _ _ Hh1) in Hg.
      pose proof (Held_same _ _ _ _ _ _ _ Ho2 Hg Hj Hh1) as Hh2.
      eapply rg_mono; [|apply (IH (chunkEnd entries begin) _ (rowsOf s2 id) s2 Hh2); [lia|lia|done]].
      intros r s3 (h' & f' & K). exists h', f'. destruct r as [n|]; [|done]. destruct K as [-> K]. split; [lia|done].
Qed.

Lemma rg_stage id current target entries f J es s :
  Held id (Some current) f J es s -> current < target -> targetsUnique entries -> f target = [] ->
  RG (ipListsRepoStage id current target entries) s (fun r s' => exists h' f',
    match r with
    | Some n => n = Z.of_nat (length entries) /\ Held id h' f' J (es ++ [SetAll id entries]) s'
    | None => Held id h' f' J es s'
    end).
Proof.
  intros Hh Hlt Hu Hf. eapply rg_mono; [|eapply (rg_stageLoop _ id current target entries 0 0 f J es s Hh Hlt Hu); [lia|lia|done]].
  intros r s' (h' & f' & H). exists h', f'. destruct r as [n|]; [|done]. destruct H as [-> H]. split; [lia|done].
Qed.

(** ** The header goes *)

Lemma deleteHeader_keeps id expected s : claimed (deleteHeader t id expected s) = claimed s /\ adding (deleteHeader t id expected s) = adding s.
Proof. unfold deleteHeader. destruct (generationOf s id) as [g|]; [|done]. by destruct (sameAs expected g). Qed.

(** The list has gone, or is still there. *)
Definition discarded (id : Z) (J : list (nat * Effect)) (es : list Effect) (s : Store) : Prop :=
  Own t id s /\ (did J es s \/ did J (es ++ [Deleted id]) s).

Lemma stable_discarded id J es : Stable (discarded id J es).
Proof.
  intros s s' Hr [Ho Hd]. split; [by apply (stable_Own id s)|]. destruct Hd as [Hd|Hd]; [left|right]; by apply (stable_did J _ s).
Qed.

Lemma rg_deleteHeader id expected h f J es s :
  Held id h f J es s -> RG (act (DeleteHeader id expected)) s (fun _ s' => discarded id J es s').
Proof.
  intros Hh. apply (rg_call _ _ _ _ _ _ _ _ (Held id h f J es)); [apply stable_Held|done|done|]. intros s1 [] s2 Hh1 Hi1 [->| ->].
  - split; [apply Step_refl|]. split; [done|]. apply rg_done; [apply stable_discarded|]. split; [apply Hh1|left; apply Hh1].
  - destruct (deleteHeader_spec base t id expected s1 Hi1 (he_own _ _ _ _ _ _ Hh1)) as (H1 & H2 & H3). split; [done|]. split; [done|].
    apply rg_done; [apply stable_discarded|]. destruct (deleteHeader_keeps id expected s1) as [Ec Ea].
    split; [eapply Own_Step_keep; [apply (he_own _ _ _ _ _ _ Hh1)|done..]|]. destruct H3 as [->|(g & _ & _ & Hj)]; [left; apply Hh1|right].
    by eapply did_note; [|apply Hh1].
Qed.

Lemma rg_discard fuel id expected h f J es s :
  mayLoop -> Held id h f J es s -> RG (ipListsRepoDiscard fuel id expected) s (fun _ s' => discarded id J es s').
Proof.
  intros Hm Hh. apply rg_bind. eapply rg_mono; [|apply (rg_purgeExcept fuel id _ h f J es); [exact Hh|by left]].
  intros ok s1 (f' & H1 & _). destruct expected as [e|]; [|by eapply rg_deleteHeader]. destruct ok; [by eapply rg_deleteHeader|].
  apply rg_done; [apply stable_discarded|]. split; [apply H1|left; apply H1].
Qed.

(** ** The bulk writes *)

Lemma uniqueLoop_spec seen es :
  NoDup (map rowTarget (uniqueLoop seen es)) /\
  forall e, e ∈ uniqueLoop seen es -> cidr e ++ [32] ++ number 10 (port e) ∉ seen.
Proof.
  revert seen. induction es as [|e es IH]; intros seen; cbn [uniqueLoop]; [split; [constructor|by intros e ?%not_elem_of_nil]|].
  destruct (bool_decide (cidr e = [])); [apply IH|]. case_bool_decide as Hk; [apply IH|].
  destruct (IH ({[cidr e ++ [32] ++ number 10 (port e)]} ∪ seen)) as [H1 H2]. split.
  - cbn [map]. apply NoDup_cons. split; [|done]. intros (e' & E & He')%list_elem_of_fmap. injection E as E1 E2.
    apply (H2 e' He'). rewrite <- E1, <- E2. set_solver.
  - intros e' [->|He']%elem_of_cons; [done|]. specialize (H2 e' He'). set_solver.
Qed.

Lemma unique_targets es : targetsUnique (ipListsRepoUnique es).
Proof. apply uniqueLoop_spec. Qed.

Hypothesis any_fuel : mayLoop.

(** The start of an operation on a list in use. *)
Definition Ready (id : Z) (J : list (nat * Effect)) (s : Store) : Prop := mayWrite t id s /\ did J [] s.

Lemma stable_Ready id J : Stable (Ready id J).
Proof. apply stable_and; [apply stable_mayWrite|apply stable_did]. Qed.

Lemma rg_claiming_list {A} id (body : prog ListAct A) J s (Q : A -> Store -> Prop) :
  Ready id J s ->
  (forall s, Inv base s -> Held id (generationOf s id) (rowsOf s id) J [] s -> RG body s (fun x s' => Own t id s' /\ Q x s')) ->
  (forall x, Stable (Q x)) -> (forall x s, Q x s -> Q x (s <| claimed := delete id (claimed s) |>)) ->
  RG (claiming id body) s Q.
Proof.
  intros HR Hb HsQ Hdel. apply (rg_claiming id body s (Ready id J) Q); try done; [apply stable_Ready|by intros s' []|].
  intros s' Hi [Hw Hd] Ho. apply Hb; [done|by apply Held_now].
Qed.

Lemma rg_false {A} (a : A) id h f J es s (Q : A -> Store -> Prop) :
  Held id h f J es s -> (forall s', Own t id s' -> did J es s' -> Q a s') -> RG (Ret a) s (fun x s' => Own t id s' /\ Q x s').
Proof. intros H HQ. eapply rg_ret; [apply (stable_Held id h f J es)|done|]. intros s' [H1 _ _ H4]. split; [done|by apply HQ]. Qed.

Lemma rg_Replace fuel id entries J s :
  Ready id J s ->
  RG (ReplaceEntries fuel id entries) s (fun b s' => did J (if b then [SetAll id (ipListsRepoUnique entries)] else []) s').
Proof.
  intros HR. unfold ReplaceEntries. destruct (id <? 0); [eapply rg_ret; [apply stable_Ready|exact HR|by intros s' []]|].
  set (es := ipListsRepoUnique entries). apply (rg_claiming_list id _ J); [done| |intros []; apply stable_did|by intros [] s'].
  intros s1 Hi1 Hh1. apply (rg_act _ _ _ (Held id (generationOf s1 id) (rowsOf s1 id) J [])); [apply stable_Held|done|done|].
  intros s2 x s3 Hh2 Hi2 [-> Hx]. split; [apply Step_refl|]. split; [done|].
  destruct x as [current|]; [|by eapply rg_false]. destruct Hx as [|Hx]; [done|]. rewrite (he_gen _ _ _ _ _ _ Hh2) in Hx. rewrite <- Hx in Hh2.
  apply rg_bind. eapply rg_mono; [|eapply (rg_purgeExcept fuel id current); [exact Hh2|by left]].
  intros ok s4 (f' & H1 & _ & H3). destruct ok; [|by eapply rg_false]. cbn [negb]. apply rg_bind.
  eapply rg_mono; [|apply (rg_stage id current (current + 1) es f' J [] s4 H1); [lia|apply unique_targets|]].
  - intros r s5 (h' & f2 & H). destruct r as [n|].
    + destruct H as [_ H]. apply rg_bind. eapply rg_mono; [|eapply (rg_purgeGeneration fuel id current); [exact H|by left]].
      intros ok' s6 (f3 & K & _). by eapply rg_false.
    + apply rg_bind. eapply rg_mono; [|eapply (rg_purgeGeneration fuel id (current + 1)); [exact H|by left]].
      intros ok' s6 (f3 & K & _). by eapply rg_false.
  - apply H3; [done|lia|]. intros [= E]. lia.
Qed.

Lemma rg_bump id d h f J es s (Q : option Z -> Store -> Prop) (k : option Z -> prog ListAct unit) :
  Held id h f J es s ->
  (forall s', Held id h f J es s' -> RG (k None) s' (fun _ s' => Own t id s' /\ Q None s')) ->
  (forall s' g, Held id (Some g) (rowsOf s' id) J (es ++ [SetAll id []]) s' -> RG (k (Some g)) s' (fun _ s' => Own t id s' /\ Q (Some g) s')) ->
  RG (pbind (act (BumpGeneration id d)) k) s (fun _ s' => Own t id s' /\ exists x, Q x s').
Proof.
  intros Hh HN HS. apply (rg_act _ _ _ (Held id h f J es)); [apply stable_Held|done|done|]. intros s1 x s2 Hh1 Hi1 [[-> ->]|(g & E & ->)].
  - split; [apply Step_refl|]. split; [done|]. eapply rg_mono; [|by apply HN]. intros _ s3 [H1 H2]. split; [done|by exists None].
  - destruct (bumpGeneration_spec base t id d s1 g s2 Hi1 (he_own _ _ _ _ _ _ Hh1) E) as (H1 & H2 & Hj & Hg & _). split; [done|]. split; [done|].
    eapply rg_mono; [|apply (HS s2 g)]; [intros _ s3 [K1 K2]; split; [done|by exists (Some g)]|].
    assert (Ec : claimed s2 = claimed s1 /\ adding s2 = adding s1).
    { unfold bumpGeneration in E. destruct (heads s1 !! id); [|done]. by destruct (d && _); [|injection E as <- <-]. }
    split; [|done|done|by eapply did_note; [|apply Hh1]]. eapply Own_Step_keep; [apply (he_own _ _ _ _ _ _ Hh1)|done|apply Ec..].
Qed.

Lemma stable_or_did J es es' : Stable (fun s => did J es s \/ did J es' s).
Proof. intros s s' Hr [H|H]; [left|right]; by apply (stable_did J _ s). Qed.

Lemma rg_Clear fuel id J s :
  Ready id J s -> RG (ClearEntries fuel id) s (fun _ s' => did J [] s' \/ did J [SetAll id []] s').
Proof.
  intros HR. unfold ClearEntries. destruct (id <? 0); [eapply rg_ret; [apply stable_Ready|exact HR|intros s' []; by left]|].
  apply (rg_claiming_list id _ J); [done| |intros _; apply stable_or_did|done]. intros s1 Hi1 Hh1.
  eapply rg_mono; [|eapply (rg_bump id false _ _ J [] s1 (fun x s => did J (match x with None => [] | Some _ => [SetAll id []] end) s)); [exact Hh1| |]].
  - intros _ s' [H1 [[g|] H2]]; (split; [done|]); [by right|by left].
  - intros s' H. by eapply rg_false.
  - intros s' g H. apply rg_bind. eapply rg_mono; [|eapply (rg_purgeExcept fuel id g); [exact H|by left]].
    intros ok s2 (f' & K & _). by eapply rg_false.
Qed.

Definition deleted (id : Z) (J : list (nat * Effect)) (s : Store) : Prop :=
  did J [] s \/ did J [SetAll id []] s \/ did J [SetAll id []; Deleted id] s.

Lemma stable_deleted id J : Stable (deleted id J).
Proof. intros s s' Hr [H|[H|H]]; [left|right; left|right; right]; by apply (stable_did J _ s). Qed.

Lemma rg_Delete fuel id d J s : Ready id J s -> RG (DeleteIpList fuel id d) s (fun _ s' => deleted id J s').
Proof.
  intros HR. unfold DeleteIpList. destruct (id <? 0); [eapply rg_ret; [apply stable_Ready|exact HR|intros s' []; by left]|].
  apply (rg_claiming_list id _ J); [done| |intros _; apply stable_deleted|done]. intros s1 Hi1 Hh1.
  eapply rg_mono; [|eapply (rg_bump id d _ _ J [] s1 (fun _ s => deleted id J s)); [exact Hh1| |]].
  - intros _ s' [H1 [x H2]]. done.
  - intros s' H. eapply rg_false; [exact H|]. intros s2 _ Hd. by left.
  - intros s' g H. eapply rg_mono; [|by eapply rg_discard]. intros _ s2 [Ho [Hd|Hd]]; (split; [done|]); right; [by left|by right].
Qed.

(** ** Edits in place, chunk by chunk *)

(** The effects [efs] of [t], between which no other effect replaced the list. *)
Definition unbroken (id : Z) (J : list (nat * Effect)) (efs : list Effect) (s : Store) : Prop :=
  exists a b c, journal s = J ++ a ++ b ++ c /\ own t a = [] /\ own t b = efs /\ own t c = [] /\
    ~ Exists (fun x : nat * Effect => replaces id x.2) b.

(** ... nor since the last of them, if the list is still at [g]. *)
Definition pinnedAt (id g : Z) (J : list (nat * Effect)) (efs : list Effect) (s : Store) : Prop :=
  mayWrite t id s /\ (forall g', generationOf s id = Some g' -> g <= g') /\
  exists a b c, journal s = J ++ a ++ b ++ c /\ own t a = [] /\ own t b = efs /\ own t c = [] /\
    ~ Exists (fun x : nat * Effect => replaces id x.2) b /\ (generationOf s id = Some g -> ~ Exists (fun x : nat * Effect => replaces id x.2) c).

Lemma pinned_unbroken id g J efs s : pinnedAt id g J efs s -> unbroken id J efs s.
Proof. intros (_ & _ & a & b & c & H1 & H2 & H3 & H4 & H5 & _). by exists a, b, c. Qed.

Lemma unbroken_did id J efs s : unbroken id J efs s -> did J efs s.
Proof.
  intros (a & b & c & H1 & H2 & H3 & H4 & _). exists (a ++ b ++ c). split; [done|]. by rewrite !own_app, H2, H3, H4, app_nil_r.
Qed.

Lemma Exists_effects id u es : Exists (fun x : nat * Effect => replaces id x.2) (map (pair u) es) <-> Exists (replaces id) es.
Proof. induction es as [|e es IH]; simpl; [by rewrite !Exists_nil|]. by rewrite !Exists_cons, IH. Qed.

Lemma stable_unbroken id J efs : Stable (unbroken id J efs).
Proof.
  intros s s' (u & Hu & Hst & _) (a & b & c & H1 & H2 & H3 & H4 & H5). destruct (st_journal _ _ _ Hst) as (es & E & _).
  exists a, b, (c ++ map (pair u) es). rewrite E, H1, <- !app_assoc. by rewrite own_app, H4, own_others.
Qed.

Lemma stable_pinnedAt id g J efs : Stable (pinnedAt id g J efs).
Proof.
  intros s s' Hr (Hw & Hg & a & b & c & H1 & H2 & H3 & H4 & H5 & H6). split; [by apply (stable_mayWrite id s)|].
  destruct Hr as (u & Hu & Hst & Hi & _). assert (Hg' : forall g', generationOf s' id = Some g' -> exists g0, generationOf s id = Some g0 /\ g <= g0 <= g').
  { intros g' E. destruct (st_gen _ _ _ Hst id g' (proj1 Hw) E) as (g0 & E0 & Hle). exists g0. split; [done|]. specialize (Hg g0 E0). lia. }
  split; [intros g' E; destruct (Hg' g' E) as (g0 & _ & H); lia|]. destruct (st_journal _ _ _ Hst) as (es & E & Hes).
  exists a, b, (c ++ map (pair u) es). rewrite E, H1, <- !app_assoc. rewrite own_app, H4, own_others by done. split_and!; try done.
  intros E'. destruct (Hg' g E') as (g0 & E0 & Hle). assert (g0 = g) as -> by lia. rewrite Exists_app, Exists_effects.
  intros [H|H]; [by apply (H6 E0)|]. by apply (Hes id g E0 E').
Qed.

(** The chunks of [es] from [begin] on. *)
Fixpoint chunksFrom (rounds : nat) (es : list IpListEntry) (begin : nat) : list (list IpListEntry) :=
  match rounds with
  | O => []
  | S rounds =>
      if Nat.ltb begin (length es) then chunkOf es begin :: chunksFrom rounds es (begin + kIpListsRepoChunkRows) else []
  end.

Definition chunks (es : list IpListEntry) : list (list IpListEntry) := chunksFrom (S (length es)) es 0.

Lemma chunksFrom_concat rounds es begin :
  (length es - begin < rounds)%nat -> concat (chunksFrom rounds es begin) = drop begin es.
Proof.
  revert begin. induction rounds as [|rounds IH]; intros begin H; [lia|]. cbn [chunksFrom].
  destruct (Nat.ltb_spec begin (length es)) as [Hb|Hb]; [|by rewrite drop_ge by lia].
  assert (HK : (0 < kIpListsRepoChunkRows)%nat) by (unfold kIpListsRepoChunkRows; lia).
  cbn [concat]. rewrite IH by lia. unfold chunkOf, chunkEnd.
  destruct (decide (begin + kIpListsRepoChunkRows <= length es)%nat) as [Hl|Hl].
  - rewrite Nat.min_l by lia. replace (begin + kIpListsRepoChunkRows - begin)%nat with kIpListsRepoChunkRows by lia.
    rewrite <- (take_drop kIpListsRepoChunkRows (drop begin es)) at 2. by rewrite drop_drop.
  - rewrite Nat.min_r, (drop_ge es (begin + _)), app_nil_r by lia. rewrite take_ge; [done|]. rewrite length_drop. lia.
Qed.

Lemma chunks_concat es : concat (chunks es) = es.
Proof. unfold chunks. by rewrite chunksFrom_concat by lia. Qed.

Section Batch.
Context (call : option Z -> list IpListEntry -> ListAct (option (Z * Z))) (mk : list IpListEntry -> Z -> Effect) (id : Z).
Context (call_fine : forall p es, fine _ (call p es)).
Context (call_ok : forall p es s x s', Inv base s -> mayWrite t id s -> exec t _ (call p es) s x s' ->
  (x = None /\ s' = s) \/
  exists g n, x = Some (g, n) /\ Step t s s' /\ Inv base s' /\ mayWrite t id s' /\ generationOf s id = Some g /\ generationOf s' id = Some g /\
    sameAs p g = true /\ journal s' = journal s ++ [(t, mk es n)]).
Context (mk_edits : forall es n, edits id (mk es n)).

Lemma mk_replaces es n : ~ Exists (fun x : nat * Effect => replaces id x.2) [(t, mk es n)].
Proof. intros H%Exists_cons. destruct H as [H|H%Exists_nil]; [|done]. pose proof (mk_edits es n). simpl in H. by destruct (mk es n). Qed.

(** A chunk more. *)
Lemma pinned_note J efs g es n s s' :
  pinnedAt id g J efs s -> mayWrite t id s' -> generationOf s id = Some g -> generationOf s' id = Some g ->
  journal s' = journal s ++ [(t, mk es n)] -> pinnedAt id g J (efs ++ [mk es n]) s'.
Proof.
  intros (_ & Hg & a & b & c & H1 & H2 & H3 & H4 & H5 & H6) Hw E E' Hj. split; [done|]. split; [rewrite E'; intros g' [= ->]; lia|].
  exists a, (b ++ c ++ [(t, mk es n)]), []. rewrite Hj, H1, !app_nil_r, <- !app_assoc. split_and!; try done.
  - rewrite !own_app, H3, H4. unfold own. by rewrite filter_cons, decide_True.
  - rewrite !Exists_app. intros [H|[H|H]]; [done|by apply H6|by eapply mk_replaces].
  - intros _ ?%Exists_nil. done.
Qed.

Lemma pinned_start J g es n s s' :
  did J [] s -> mayWrite t id s' -> generationOf s' id = Some g ->
  journal s' = journal s ++ [(t, mk es n)] -> pinnedAt id g J [mk es n] s'.
Proof.
  intros (new & H1 & H2) Hw E' Hj. split; [done|]. split; [rewrite E'; intros g' [= ->]; lia|].
  exists new, [(t, mk es n)], []. rewrite Hj, H1, <- !app_assoc. split_and!; try done.
  - unfold own. by rewrite filter_cons, decide_True.
  - apply mk_replaces.
  - intros _ ?%Exists_nil. done.
Qed.

(** What is known before a chunk. *)
Definition atChunk (pinned : option Z) (J : list (nat * Effect)) (efs : list Effect) (s : Store) : Prop :=
  match pinned with Some g => pinnedAt id g J efs s | None => Ready id J s /\ efs = [] end.

Lemma stable_atChunk pinned J efs : Stable (atChunk pinned J efs).
Proof. destruct pinned; [apply stable_pinnedAt|]. intros s s' Hr [H ->]. split; [by apply (stable_Ready id J s)|done]. Qed.

Lemma atChunk_unbroken pinned J efs s : atChunk pinned J efs s -> unbroken id J efs s.
Proof.
  destruct pinned; [by apply pinned_unbroken|]. intros [[_ (new & H1 & H2)] ->]. exists new, [], []. rewrite !app_nil_r.
  split_and!; try done. by intros ?%Exists_nil.
Qed.

Lemma atChunk_write pinned J efs s : atChunk pinned J efs s -> mayWrite t id s.
Proof. destruct pinned; [by intros [? _]|by intros [[? _] _]]. Qed.

Lemma rg_batchLoop rounds es begin pinned count J efs s :
  atChunk pinned J efs s -> (length es - begin < rounds)%nat ->
  RG (batchLoop call rounds es begin pinned count) s (fun n s' => exists ns,
    unbroken id J (efs ++ zip_with mk (chunksFrom rounds es begin) ns) s' /\ (length ns <= length (chunksFrom rounds es begin))%nat /\
    n = count + foldr Z.add 0 ns).
Proof.
  revert begin pinned count efs s. induction rounds as [|rounds IH]; intros begin pinned count efs s Ha Hr; [lia|].
  assert (Hret : forall s, atChunk pinned J efs s -> RG (Ret count) s (fun n s' => exists ns,
    unbroken id J (efs ++ zip_with mk (chunksFrom (S rounds) es begin) ns) s' /\ (length ns <= length (chunksFrom (S rounds) es begin))%nat /\
    n = count + foldr Z.add 0 ns)).
  { intros s0 H. eapply rg_ret; [apply (stable_unbroken id J efs)|by eapply atChunk_unbroken|].
    intros s1 H1. exists []. rewrite zip_with_nil_r, app_nil_r. split_and!; [done|simpl; lia|simpl; lia]. }
  cbn [batchLoop]. cbn [chunksFrom] in *. assert (HK : (0 < kIpListsRepoChunkRows)%nat) by (unfold kIpListsRepoChunkRows; lia).
  destruct (Nat.ltb_spec begin (length es)) as [Hb|Hb]; [|by apply Hret].
  apply (rg_act _ _ _ (atChunk pinned J efs)); [apply stable_atChunk|apply call_fine|done|]. intros s1 x s2 H1 Hi1 He.
  destruct (call_ok _ _ _ _ _ Hi1 (atChunk_write _ _ _ _ H1) He) as [[-> ->]|(g & n & -> & K1 & K2 & K3 & K4 & K5 & K6 & K7)].
  - split; [apply Step_refl|]. split; [done|]. by apply Hret.
  - split; [done|]. split; [done|]. eapply rg_mono; [|apply (IH (begin + kIpListsRepoChunkRows)%nat (Some g) _ (efs ++ [mk (chunkOf es begin) n])); [|lia]].
    + intros m s3 (ns & L1 & L2 & ->). exists (n :: ns). simpl. rewrite <- app_assoc in L1. split_and!; [done|lia|lia].
    + destruct pinned as [p|]; simpl in *.
      * apply Z.eqb_eq in K6 as ->. by eapply pinned_note.
      * destruct H1 as [[_ Hd] ->]. by eapply pinned_start.
Qed.
End Batch.

Lemma upsertChunk_keeps id p es g n s s' :
  upsertChunk t id p es s = Some (g, n, s') -> generationOf s' id = generationOf s id /\ adding s' = adding s /\ lastId s' = lastId s.
Proof.
  unfold upsertChunk. destruct (generationOf s id) as [g0|] eqn:E; [|done]. destruct (sameAs p g0); [|done].
  destruct (fold_left _ _ _) as [[rs o] m]. intros [= _ _ <-]. done.
Qed.

Lemma removeChunk_keeps id p es g n s s' :
  removeChunk t id p es s = Some (g, n, s') -> generationOf s' id = generationOf s id /\ adding s' = adding s /\ lastId s' = lastId s.
Proof.
  unfold removeChunk. destruct (generationOf s id) as [g0|] eqn:E; [|done]. destruct (sameAs p g0); [|done].
  destruct (fold_left _ _ _) as [rs m]. intros [= _ _ <-]. done.
Qed.

(** What a batch did: its chunks up to one that failed. *)
Definition batched (mk : list IpListEntry -> Z -> Effect) (id : Z) (es : list IpListEntry) (J : list (nat * Effect)) (n : Z) (s : Store) : Prop :=
  exists ns, unbroken id J (zip_with mk (chunks es) ns) s /\ (length ns <= length (chunks es))%nat /\ n = foldr Z.add 0 ns.

Lemma batched_none mk id es J s : Ready id J s -> RG (Ret 0) s (fun n s' => batched mk id es J n s').
Proof.
  intros HR. eapply rg_ret; [apply stable_Ready|exact HR|]. intros s' [_ (new & H1 & H2)]. exists []. rewrite zip_with_nil_r.
  split_and!; [|simpl; lia|done]. exists new, [], []. rewrite !app_nil_r. split_and!; try done. by intros ?%Exists_nil.
Qed.

Lemma rg_Upsert id es J s :
  Ready id J s -> RG (UpsertEntries id es) s (fun n s' => batched (Upserted id) id es J n s').
Proof.
  intros HR. unfold UpsertEntries. destruct (_ || _); [by apply batched_none|].
  eapply rg_mono; [|apply (rg_batchLoop _ (Upserted id) id) with (J := J) (efs := []); [done| |done|by split|lia]].
  - intros n s' (ns & H1 & H2 & ->). exists ns. split_and!; [exact H1|done|lia].
  - intros p es' s1 x s2 Hi Hw [[-> ->]|([g n] & E & ->)]; [by left|right]. exists g, n.
    destruct (upsertChunk_spec base t id p es' s1 g n s2 Hi Hw E) as (H1 & H2 & H3 & H4 & H5).
    destruct (upsertChunk_keeps _ _ _ _ _ _ _ E) as (K1 & K2 & K3). rewrite K1. split_and!; try done. unfold mayWrite. by rewrite K2, K3.
Qed.

Lemma rg_Remove id es J s :
  Ready id J s -> RG (RemoveEntries id es) s (fun n s' => batched (Removed id) id es J n s').
Proof.
  intros HR. unfold RemoveEntries. destruct (_ || _); [by apply batched_none|].
  eapply rg_mono; [|apply (rg_batchLoop _ (Removed id) id) with (J := J) (efs := []); [done| |done|by split|lia]].
  - intros n s' (ns & H1 & H2 & ->). exists ns. split_and!; [exact H1|done|lia].
  - intros p es' s1 x s2 Hi Hw [[-> ->]|([g n] & E & ->)]; [by left|right]. exists g, n.
    destruct (removeChunk_spec base t id p es' s1 g n s2 Hi Hw E) as (H1 & H2 & H3 & H4 & H5).
    destruct (removeChunk_keeps _ _ _ _ _ _ _ E) as (K1 & K2 & K3). rewrite K1. split_and!; try done. unfold mayWrite. by rewrite K2, K3.
Qed.

(** ** New lists *)

(** The states after an add that failed, or succeeded. *)
Definition addedOr (es : list IpListEntry) (J : list (nat * Effect)) (r : option (Z * Z)) (s : Store) : Prop :=
  match r with
  | Some (id, n) => n = Z.of_nat (length es) /\ (did J [Added id es] s \/ did J [Added id []; SetAll id es] s)
  | None => did J [] s \/ exists id, did J [Added id []] s \/ did J [Added id []; Deleted id] s
  end.

Lemma stable_addedOr es J r : Stable (addedOr es J r).
Proof.
  intros s s' Hr. destruct r as [[id n]|]; simpl.
  - intros [-> H]. split; [done|]. by eapply stable_or_did.
  - intros [H|(id & H)]; [left; by eapply stable_did|right]. exists id. by eapply stable_or_did.
Qed.

(** The header is in. *)
Lemma insertList_fresh m es J s id n s' :
  Inv base s -> targetsUnique es -> did J [] s -> insertList t m es s = Some (id, n, s') ->
  Step t s s' /\ Inv base s' /\ n = Z.of_nat (length es) /\ Fresh id J [Added id es] s' /\ claimed s' = claimed s /\
  lastId s < id /\ (forall id', id' <> id -> adding s' !! id' = adding s !! id').
Proof.
  intros Hi Hu Hd E. destruct (insertList_spec base t m es s id n s' Hi Hu E) as (H1 & H2 & Hj & -> & Hl & Hl' & Hp & Ha & Hg & Hr & _).
  split; [done|]. split; [done|]. split; [done|].
  assert (Hcl : claimed s' = claimed s /\ forall id', id' <> id -> adding s' !! id' = adding s !! id').
  { unfold insertList in E. destruct (_ <=? 0); [done|]. destruct (insertEntries _ _ _). injection E as <- _ <-. split; [done|].
    intros id' Hn. simpl. by rewrite lookup_insert_ne. }
  split_and!; [|apply Hcl|done|apply Hcl]. split; [|done|done| |by eapply (did_note J [])].
  - split; [lia|by right].
  - intros g Hn. by rewrite Hr, decide_False.
Qed.

(** The new list once claimed: no rows but those of its first generation. *)
Lemma Fresh_Held id J es s : Fresh id J es s -> Own t id s -> Held id (Some 0) (fun _ => []) J es s.
Proof. intros [H1 H2 H3 H4 H5] Ho. split; try done. intros g Hn. apply H4. congruence. Qed.

Lemma rg_Add fuel m entries J s :
  did J [] s -> RG (AddIpList fuel m entries) s (fun r s' => addedOr (ipListsRepoUnique entries) J r s').
Proof.
  intros Hd. unfold AddIpList. set (es := ipListsRepoUnique entries). set (staged := Nat.ltb _ _).
  apply (rg_act _ _ _ (did J [])); [apply stable_did|done|done|]. intros s1 x s2 Hd1 Hi1 [[-> ->]|([id n] & E & ->)].
  - split; [apply Step_refl|]. split; [done|]. apply rg_done; [apply stable_addedOr|]. by left.
  - assert (Hu : targetsUnique (if staged then [] else es)) by (destruct staged; [constructor|apply unique_targets]).
    destruct (insertList_fresh m _ J s1 id n s2 Hi1 Hu Hd1 E) as (H1 & H2 & -> & HF & _). split; [done|]. split; [done|]. destruct staged.
    + apply (rg_claiming id _ s2 (Fresh id J [Added id []])); [apply stable_Fresh|done|by intros s' []|by intros s' []| | |].
      * intros s3 Hi3 HF3 Ho3. apply rg_bind. pose proof (Fresh_Held _ _ _ _ HF3 Ho3) as Hh.
        eapply rg_mono; [|apply (rg_stage id 0 1 es _ J _ s3 Hh); [lia|apply unique_targets|done]].
        intros r s4 (h' & f' & H). destruct r as [w|].
        -- destruct H as [-> H]. eapply rg_false; [exact H|]. intros s5 _ H5. split; [done|by right].
        -- apply rg_bind. eapply rg_mono; [|by eapply rg_discard]. intros _ s5 [Ho5 H5].
           eapply rg_ret; [apply (stable_discarded id J [Added id []])|by split|]. intros s6 [Ho6 H6]. split; [done|]. right. by exists id.
      * intros r. apply stable_addedOr.
      * by intros [[? ?]|] s'.
    + apply rg_done; [apply stable_addedOr|]. split; [done|]. left. apply HF.
Qed.

(** ** Header changes *)

Lemma rg_SaveHeader id m J s : Ready id J s -> RG (SaveHeader id m) s (fun _ s' => did J [] s').
Proof.
  intros HR. unfold SaveHeader. destruct (id <? 0); [eapply rg_ret; [apply stable_Ready|exact HR|by intros s' []]|].
  apply (rg_call _ _ _ _ _ _ _ _ (Ready id J)); [apply stable_Ready|done|done|]. intros s1 x s2 [Hw Hd] Hi1 [[-> ->]|[_ ->]].
  - split; [apply Step_refl|]. split; [done|]. by apply rg_done; [apply stable_did|].
  - destruct (alterMeta_spec base t id (fun _ => m) s1 Hi1 Hw) as [H1 H2]. split; [done|]. split; [done|].
    by apply rg_done; [apply stable_did|].
Qed.

Lemma rg_Detach id J s : Ready id J s -> RG (DetachIpList id) s (fun _ s' => did J [] s').
Proof.
  intros HR. unfold DetachIpList. destruct (id <? 0); [eapply rg_ret; [apply stable_Ready|exact HR|by intros s' []]|].
  apply (rg_call _ _ _ _ _ _ _ _ (Ready id J)); [apply stable_Ready|done|done|]. intros s1 [] s2 [Hw Hd] Hi1 [->| ->].
  - split; [apply Step_refl|]. split; [done|]. by apply rg_done; [apply stable_did|].
  - destruct (alterMeta_spec base t id detachMeta s1 Hi1 Hw) as [H1 H2]. split; [done|]. split; [done|].
    by apply rg_done; [apply stable_did|].
Qed.

(** ** Reading *)

(** The list was edited in place since the journal was [J]. *)
Definition edited (id : Z) (J : list (nat * Effect)) (s : Store) : Prop :=
  exists new, journal s = J ++ new /\ Exists (fun x : nat * Effect => edits id x.2) new.

(** It was not: the generation [g], while the list is at it, has the rows [R]. *)
Record unedited (id g : Z) (R : Rows) (J : list (nat * Effect)) (s : Store) : Prop := MkUnedited {
  un_journal : exists new, journal s = J ++ new;
  un_known : id <= lastId s;
  un_gen : forall g', generationOf s id = Some g' -> g <= g';
  un_rows : generationOf s id = Some g -> rowsOf s id g = R }.

Lemma edited_step u id J s s' : Step u s s' -> edited id J s -> edited id J s'.
Proof.
  intros Hst (new & H1 & H2). destruct (st_journal _ _ _ Hst) as (es & E & _). exists (new ++ map (pair u) es).
  rewrite E, H1, <- app_assoc. split; [done|]. apply Exists_app. by left.
Qed.

Lemma stable_edited id J : Stable (edited id J).
Proof. intros s s' (u & Hu & Hst & _). by apply (edited_step u). Qed.

(** No step, of whatever thread, ends this. *)
Definition look (id g : Z) (R : Rows) (J : list (nat * Effect)) (P : Prop) (s : Store) : Prop :=
  edited id J s \/ (unedited id g R J s /\ P).

Lemma look_step u id g R J P s s' : Step u s s' -> look id g R J P s -> look id g R J P s'.
Proof.
  intros Hst [He|[[Hj Hl Hg HR] HP]]; [left; by apply (edited_step u id J s)|].
  destruct (st_journal _ _ _ Hst) as (es & E & Hes). destruct Hj as [new Hj].
  assert (Hg' : forall g', generationOf s' id = Some g' -> exists g0, generationOf s id = Some g0 /\ g <= g0 <= g').
  { intros g' E'. destruct (st_gen _ _ _ Hst id g' Hl E') as (g0 & E0 & Hle). exists g0. split; [done|]. specialize (Hg g0 E0). lia. }
  destruct (decide (generationOf s' id = Some g)) as [E'|En].
  - destruct (Hg' g E') as (g0 & E0 & Hle). assert (g0 = g) as -> by lia. destruct (Hes id g E0 E') as [[Er|Hx] _].
    + right. split; [|done]. split.
      * exists (new ++ map (pair u) es). by rewrite E, Hj, <- app_assoc.
      * pose proof (st_last _ _ _ Hst). lia.
      * rewrite E'. intros g' [= ->]. lia.
      * intros _. rewrite Er. by apply HR.
    + left. exists (new ++ map (pair u) es). rewrite E, Hj, <- app_assoc. split; [done|]. apply Exists_app. right.
      clear -Hx. induction es as [|e es IH]; simpl; [by apply Exists_nil in Hx|]. apply Exists_cons in Hx as [Hx|Hx]; [by left|right; by apply IH].
  - right. split; [|done]. split; [|pose proof (st_last _ _ _ Hst); lia| |done].
    + exists (new ++ map (pair u) es). by rewrite E, Hj, <- app_assoc.
    + intros g' E'. destruct (Hg' g' E') as (g0 & _ & H). lia.
Qed.

Lemma stable_look id g R J P : Stable (look id g R J P).
Proof. intros s s' (u & Hu & Hst & _). by apply (look_step u). Qed.

(** What a read from [R] is to return. *)
Definition pageTarget (R : Rows) (after offset remaining : Z) (out : list IpListEntry) : list IpListEntry :=
  out ++ map snd (take (Z.to_nat (Z.min remaining (Z.of_nat (length R)))) (pageRest R after offset)).

Lemma pageTarget_short R after offset remaining out page :
  page = Z.to_nat (Z.min remaining (Z.of_nat kIpListsRepoChunkRows)) -> 0 < remaining ->
  (exists pre, R = pre ++ pageRest R after offset) -> (length (take page (pageRest R after offset)) < page)%nat ->
  pageTarget R after offset remaining out = out ++ map snd (take page (pageRest R after offset)).
Proof.
  intros -> Hr [pre E] Hl. unfold pageTarget. do 2 f_equal. apply (f_equal length) in E. rewrite length_app in E.
  rewrite length_take in Hl. rewrite !take_ge; [done|lia|lia].
Qed.

Lemma pageTarget_next R after offset remaining out page o e :
  page = Z.to_nat (Z.min remaining (Z.of_nat kIpListsRepoChunkRows)) -> 0 < remaining -> wfRows R ->
  (exists pre, R = pre ++ pageRest R after offset) -> (page <= length (take page (pageRest R after offset)))%nat ->
  last (take page (pageRest R after offset)) = Some (o, e) ->
  (exists pre, R = pre ++ pageRest R o offset) /\
  pageTarget R o offset (remaining - Z.of_nat (length (take page (pageRest R after offset)))) (out ++ map snd (take page (pageRest R after offset))) =
  pageTarget R after offset remaining out.
Proof.
  intros Hp Hr Hw [pre E] Hl Hlast. destruct (pageRest_next R pre after offset page o e Hw E Hlast) as (Ho & pre' & E' & Hrest).
  split; [by exists pre'|]. unfold pageTarget. rewrite Hrest, <- app_assoc. f_equal. rewrite <- map_app. f_equal.
  assert (Hpl : (page <= length (pageRest R after offset))%nat) by (rewrite length_take in Hl; lia).
  apply (f_equal length) in E. rewrite length_app in E. rewrite length_take, Nat.min_l by done.
  rewrite !Z2Nat.inj_min, !Nat2Z.id. rewrite (take_page (Z.to_nat remaining) _ page) by lia. do 3 f_equal. lia.
Qed.

Lemma rg_readLoop rounds id g offset remaining after out R J J0 T s :
  wfRows R -> did J0 [] s -> look id g R J (pageTarget R after offset remaining out = T /\ exists pre, R = pre ++ pageRest R after offset) s ->
  RG (readLoop rounds id g offset remaining after out) s (fun r s' => did J0 [] s' /\
    match r with Some (Some es) => look id g R J (es = T) s' | _ => True end).
Proof.
  intros Hw. revert remaining after out s. induction rounds as [|rounds IH]; intros remaining after out s Hd Hl; cbn [readLoop]; [by apply rg_loop|].
  set (P := pageTarget R after offset remaining out = T /\ exists pre, R = pre ++ pageRest R after offset) in *.
  assert (HS : Stable (fun s => did J0 [] s /\ look id g R J P s)) by (apply stable_and; [apply stable_did|apply stable_look]).
  destruct (Z.ltb_spec 0 remaining) as [Hr|Hr].
  - apply (rg_act _ _ _ (fun s => did J0 [] s /\ look id g R J P s)); [done|done|done|]. intros s1 x s2 [Hd1 Hl1] Hi1 [-> Hx].
    split; [apply Step_refl|]. split; [done|].
    assert (Hdone : forall x : option (option (list IpListEntry)), (forall es, x <> Some (Some es)) -> RG (Ret x) s1 (fun r s' => did J0 [] s' /\
      match r with Some (Some es) => look id g R J (es = T) s' | _ => True end)).
    { intros y Hy. eapply rg_ret; [exact HS|by split|]. intros s3 [H3 _]. split; [done|]. destruct y as [[es|]|]; [by destruct (Hy es)|done|done]. }
    destruct Hx as [->| ->]; [by apply Hdone|]. unfold readPage. case_bool_decide as Hg; [|by apply Hdone].
    set (page := Z.to_nat (Z.min remaining (Z.of_nat kIpListsRepoChunkRows))).
    change (if after <? 0 then _ else _) with (pageRest (rowsOf s1 id g) after offset). set (rs := take page (pageRest (rowsOf s1 id g) after offset)).
    assert (Hrs : look id g R J (P /\ rs = take page (pageRest R after offset)) s1).
    { destruct Hl1 as [He|[Hun HP]]; [by left|right]. split; [done|]. split; [done|]. unfold rs. by rewrite (un_rows _ _ _ _ _ Hun Hg). }
    assert (Hpage : (0 < page)%nat) by (unfold page, kIpListsRepoChunkRows; lia).
    destruct (Nat.ltb_spec (length rs) page) as [Hlen|Hlen].
    + eapply rg_ret with (P := fun s => did J0 [] s /\ look id g R J (P /\ rs = take page (pageRest R after offset)) s);
        [apply stable_and; [apply stable_did|apply stable_look]|by split|].
      intros s3 [H3 [He|[Hun [[<- Hpre] Ers]]]]; (split; [done|]); [by left|right]. split; [done|].
      rewrite (pageTarget_short R after offset remaining out page) by (done || by rewrite <- Ers). by rewrite Ers.
    + apply IH; [done|]. destruct Hrs as [He|[Hun [[<- Hpre] Ers]]]; [by left|right]. split; [done|].
      destruct (last rs) as [[o e]|] eqn:Hlast; [|apply last_None in Hlast; rewrite Hlast in Hlen; simpl in Hlen; lia].
      rewrite Ers in Hlast, Hlen |- *. destruct (pageTarget_next R after offset remaining out page o e) as [K1 K2]; done.
  - eapply rg_ret; [exact HS|by split|]. intros s3 [H3 [He|[Hun [<- _]]]]; (split; [done|]); [by left|right]. split; [done|].
    unfold pageTarget. replace (Z.to_nat _) with O by lia. by rewrite take_0, app_nil_r.
Qed.

(** The list as it was at some moment since the journal was [J0], unless it was
    edited in place meanwhile. *)
Definition seen (id : Z) (J0 : list (nat * Effect)) (P : list IpListEntry -> Prop) (s : Store) : Prop :=
  edited id J0 s \/
  exists J new v l, J0 `prefix_of` J /\ journal s = J ++ new /\ replay base (map snd J) = Some v /\ v !! id = Some l /\ P l.

Lemma stable_seen id J0 P : Stable (seen id J0 P).
Proof.
  intros s s' Hr [He|(J & new & v & l & H1 & H2 & H3)]; [left; by apply (stable_edited id J0 s)|right].
  destruct Hr as (u & Hu & Hst & _). destruct (st_journal _ _ _ Hst) as (es & E & _).
  exists J, (new ++ map (pair u) es), v, l. rewrite E, H2, <- app_assoc. done.
Qed.

Lemma seen_now id J0 (P : list IpListEntry -> Prop) g s :
  Inv base s -> did J0 [] s -> generationOf s id = Some g -> P (map snd (rowsOf s id g)) -> seen id J0 P s.
Proof.
  intros Hi (new & Hj & _) Hg HP. right. exists (journal s), [], (view s), (map snd (rowsOf s id g)). rewrite app_nil_r.
  split_and!; try done; [rewrite Hj; by apply prefix_app_r|apply Hi|]. by rewrite view_lookup, Hg.
Qed.

(** A read that began when [s1] was current. *)
Lemma seen_look id J0 (P : list IpListEntry -> Prop) g s1 T s' :
  Inv base s1 -> did J0 [] s1 -> generationOf s1 id = Some g ->
  look id g (rowsOf s1 id g) (journal s1) T s' -> (T -> P (map snd (rowsOf s1 id g))) -> seen id J0 P s'.
Proof.
  intros Hi (new & Hj & _) Hg [(new' & H1 & H2)|[[[new' Hj'] _ _ _] HT]] HP.
  - left. exists (new ++ new'). rewrite H1, Hj, <- app_assoc. split; [done|]. apply Exists_app. by right.
  - right. exists (journal s1), new', (view s1), (map snd (rowsOf s1 id g)).
    split_and!; [rewrite Hj; by apply prefix_app_r|done|apply Hi|by rewrite view_lookup, Hg|by apply HP].
Qed.

Lemma look_start id g s (P : Prop) : mayWrite t id s -> generationOf s id = Some g -> P -> look id g (rowsOf s id g) (journal s) P s.
Proof.
  intros [Hl _] Hg HP. right. split; [|done]. split; [exists []; by rewrite app_nil_r|done| |done]. rewrite Hg. intros g' [= ->]. lia.
Qed.

Lemma pageTarget_all R offset limit :
  pageTarget R (-1) offset (if limit <? 0 then maxInt64 else limit) [] = limited offset limit (map snd R).
Proof. unfold pageTarget, limited, pageRest. cbn [app]. by rewrite length_map, skipn_map, firstn_map. Qed.

Lemma rg_readGeneration fuel id g offset limit J0 s1 s :
  Inv base s1 -> did J0 [] s -> generationOf s1 id = Some g -> mayWrite t id s1 -> s1 = s ->
  RG (ipListsRepoReadGeneration fuel id g offset limit) s (fun r s' => did J0 [] s' /\
    match r with Some (Some es) => look id g (rowsOf s1 id g) (journal s1) (es = limited offset limit (map snd (rowsOf s1 id g))) s' | _ => True end).
Proof.
  intros Hi Hd Hg Hw ->. apply rg_readLoop; [apply (inv_wf _ _ Hi)|done|]. apply look_start; [done|done|].
  split; [apply pageTarget_all|]. exists (take (Z.to_nat (Z.max offset 0)) (rowsOf s id g)). by rewrite <- (take_drop (Z.to_nat (Z.max offset 0)) (rowsOf s id g)) at 1.
Qed.

(** What a read returned. *)
Definition readBack (id offset limit : Z) (J0 : list (nat * Effect)) (es : list IpListEntry) (s : Store) : Prop :=
  did J0 [] s /\ (es = [] \/ seen id J0 (fun l => es = limited offset limit l) s).

Lemma stable_readBack id offset limit J0 es : Stable (readBack id offset limit J0 es).
Proof.
  intros s s' Hr [Hd H]. split; [by apply (stable_did J0 [] s)|]. destruct H as [H|H]; [by left|right]. by apply (stable_seen id J0 _ s).
Qed.

Lemma read_nothing id offset limit J0 s : did J0 [] s -> RG (Ret []) s (fun es s' => readBack id offset limit J0 es s').
Proof. intros H. apply rg_done; [apply stable_readBack|]. split; [done|by left]. Qed.

Lemma rg_GetEntries fuel id offset limit J0 s :
  Ready id J0 s -> RG (GetEntries fuel id offset limit) s (fun es s' => readBack id offset limit J0 es s').
Proof.
  intros HR. apply (rg_act _ _ _ (Ready id J0)); [apply stable_Ready|done|done|]. intros s1 x s2 [Hw Hd] Hi [-> Hx].
  split; [apply Step_refl|]. split; [done|]. destruct x as [g|]; [|by apply read_nothing]. destruct Hx as [|Hg]; [done|]. symmetry in Hg.
  apply rg_bind. eapply rg_mono; [|by apply (rg_readGeneration fuel id g offset limit J0 s1 s1)]. intros r s3 [Hd3 Hr].
  destruct r as [[es|]|]; [| |by apply read_nothing].
  - apply rg_done; [apply stable_readBack|]. split; [done|]. right. by eapply seen_look.
  - apply (rg_act _ _ _ (did J0 [])); [apply stable_did|done|done|]. intros s4 y s5 Hd4 Hi4 [-> Hy].
    split; [apply Step_refl|]. split; [done|]. destruct Hy as [->| ->]; [by apply read_nothing|]. cbn [default].
    unfold lockedRead. destruct (generationOf s4 id) as [g4|] eqn:Hg4; [|by apply read_nothing].
    apply rg_done; [apply stable_readBack|]. split; [done|]. right. by eapply seen_now.
Qed.

(** A whole list with its header. *)
Definition listBack (id : Z) (J0 : list (nat * Effect)) (r : option (IpListMeta * list IpListEntry)) (s : Store) : Prop :=
  did J0 [] s /\ match r with None => True | Some (_, es) => seen id J0 (fun l => es = limited 0 (-1) l) s end.

Lemma stable_listBack id J0 r : Stable (listBack id J0 r).
Proof.
  intros s s' Hr [Hd H]. split; [by apply (stable_did J0 [] s)|]. destruct r as [[m es]|]; [|done]. by apply (stable_seen id J0 _ s).
Qed.

Lemma generationOf_head s id h : heads s !! id = Some h -> generationOf s id = Some (gen h).
Proof. unfold generationOf. by intros ->. Qed.

Lemma rg_GetIpList fuel id J0 s : Ready id J0 s -> RG (GetIpList fuel id) s (fun r s' => listBack id J0 r s').
Proof.
  intros HR. assert (Hnone : forall s, did J0 [] s -> RG (Ret None) s (fun r s' => listBack id J0 r s')).
  { intros s0 H. by apply rg_done; [apply stable_listBack|]. }
  apply (rg_act _ _ _ (Ready id J0)); [apply stable_Ready|done|done|]. intros s1 x s2 [Hw Hd] Hi [-> Hx].
  split; [apply Step_refl|]. split; [done|]. destruct x as [[h|]|]; [|by apply Hnone|by apply Hnone].
  destruct Hx as [|[= Hh]]; [done|]. symmetry in Hh. pose proof (generationOf_head _ _ _ Hh) as Hg.
  apply rg_bind. eapply rg_mono; [|by apply (rg_readGeneration fuel id (gen h) 0 (-1) J0 s1 s1)]. intros r s3 [Hd3 Hr].
  destruct r as [[es|]|]; [| |by apply Hnone].
  - apply rg_done; [apply stable_listBack|]. split; [done|]. by eapply seen_look.
  - apply (rg_act _ _ _ (did J0 [])); [apply stable_did|done|done|]. intros s4 y s5 Hd4 Hi4 [-> Hy].
    split; [apply Step_refl|]. split; [done|]. destruct Hy as [->| ->]; [by apply Hnone|]. cbn [default].
    destruct (heads s4 !! id) as [h4|] eqn:Hh4; [|by apply Hnone]. pose proof (generationOf_head _ _ _ Hh4) as Hg4.
    apply rg_done; [apply stable_listBack|]. split; [done|]. cbn [fmap option_fmap option_map]. unfold lockedRead. rewrite Hg4. by eapply seen_now.
Qed.

Lemma rg_EntryCount id J0 s :
  Ready id J0 s -> RG (EntryCount id) s (fun n s' => did J0 [] s' /\ (n = 0 \/ seen id J0 (fun l => n = Z.of_nat (length l)) s')).
Proof.
  intros HR. apply (rg_call _ _ _ _ _ _ _ _ (Ready id J0)); [apply stable_Ready|done|done|]. intros s1 x s2 [Hw Hd] Hi [-> Hx].
  split; [apply Step_refl|]. split; [done|].
  assert (HS : forall n, Stable (fun s => did J0 [] s /\ (n = 0 \/ seen id J0 (fun l => n = Z.of_nat (length l)) s))).
  { intros n s3 s4 Hr [H1 H2]. split; [by apply (stable_did J0 [] s3)|]. destruct H2 as [H2|H2]; [by left|right]. by apply (stable_seen id J0 _ s3). }
  apply rg_done; [apply HS|]. split; [done|]. destruct Hx as [->| ->]; [by left|]. destruct (generationOf s1 id) as [g|] eqn:Hg; [|by left].
  right. eapply seen_now; try done. by rewrite length_map.
Qed.

(** ** Copies *)

(** A list [t] has claimed, and its generation. *)
Definition Src (id g : Z) (s : Store) : Prop := Own t id s /\ generationOf s id = Some g.

Lemma stable_Src id g : Stable (Src id g).
Proof.
  intros s s' Hr [Ho Hg]. split; [by apply (stable_Own id s)|]. destruct Hr as (u & Hu & Hst & _). destruct Ho as [Hc Hm].
  destruct (st_owned _ _ _ Hst t id ltac:(done) Hc ltac:(apply Hm)) as [Eg _]. congruence.
Qed.

Lemma copyChunk_keeps id source g after b s s' :
  copyChunk t id source g after s = Some (b, s') ->
  claimed s' = claimed s /\ adding s' = adding s /\ lastId s' = lastId s /\ forall id', id' <> id -> generationOf s' id' = generationOf s id'.
Proof.
  unfold copyChunk. destruct (bool_decide _); [|done]. destruct (existsb _ _); [done|].
  destruct (fst <$> _) as [b'|]; intros [= _ <-]; (split_and!; [done..|]); [done|].
  intros id' Hn. match goal with |- generationOf (note _ _ ?x) _ = _ => change (generationOf x id' = generationOf s id') end.
  by rewrite generationOf_setGeneration, decide_False.
Qed.

(** What is known before a chunk is copied. *)
Definition copying (id source g after : Z) (R : Rows) (J J0 : list (nat * Effect)) (es : list Effect) (T : Rows) (s : Store) : Prop :=
  Src source g s /\ (exists f, f 1 = T /\ Held id (Some 0) f J0 es s) /\
  look source g R J (T = filter (fun r : Z * IpListEntry => r.1 <= after) R) s.

Lemma stable_copying id source g after R J J0 es T : Stable (copying id source g after R J J0 es T).
Proof.
  intros s s' Hr (H1 & (f & Hf & H2) & H3). split; [by apply (stable_Src source g s)|]. split; [|by apply (stable_look source g R J _ s)].
  exists f. split; [done|]. by apply (stable_Held id _ f J0 es s).
Qed.

(** The copy is complete, and published. *)
Definition copied (id source g : Z) (R : Rows) (J J0 : list (nat * Effect)) (es : list Effect) (ok : bool) (s : Store) : Prop :=
  Src source g s /\ exists h f,
    if ok then exists l, Held id h f J0 (es ++ [SetAll id l]) s /\ look source g R J (l = map snd R) s else Held id h f J0 es s.

Lemma rg_copied id source g R J J0 es (ok : bool) l h f s :
  Src source g s -> Held id h f J0 (if ok then es ++ [SetAll id l] else es) s -> look source g R J (ok = true -> l = map snd R) s ->
  RG (Ret ok) s (fun ok s' => copied id source g R J J0 es ok s').
Proof.
  intros H1 H2 H3. eapply rg_ret with (P := fun s => Src source g s /\ Held id h f J0 (if ok then es ++ [SetAll id l] else es) s /\
    look source g R J (ok = true -> l = map snd R) s); [apply stable_and; [apply stable_Src|apply stable_and; [apply stable_Held|apply stable_look]]|done|].
  intros s' (K1 & K2 & K3). split; [done|]. exists h, f. destruct ok; [|done]. exists l. split; [done|].
  destruct K3 as [K3|[K3 K4]]; [by left|right]. split; [done|]. by apply K4.
Qed.

Lemma rg_copyLoop rounds id source g after R J J0 es T s :
  id <> source -> wfRows R -> Forall (fun r : Z * IpListEntry => r.1 <= after) T -> copying id source g after R J J0 es T s ->
  RG (copyLoop rounds id source g after) s (fun ok s' => copied id source g R J J0 es ok s').
Proof.
  intros Hne Hw. revert after T s. induction rounds as [|rounds IH]; intros after T s HT HC; cbn [copyLoop]; [by apply rg_loop|].
  apply (rg_act _ _ _ (copying id source g after R J J0 es T)); [apply stable_copying|done|done|].
  intros s1 x s2 (HS & (f & Hf & Hh) & Hl) Hi [[-> ->]|(bound & E & ->)].
  { split; [apply Step_refl|]. split; [done|]. apply (rg_copied _ _ _ _ _ _ _ false [] (Some 0) f); [done|done|].
    destruct Hl as [Hl|[Hl _]]; [by left|by right]. }
  pose proof (he_own _ _ _ _ _ _ Hh) as Ho. assert (ET : rowsOf s1 id 1 = T) by (rewrite (he_rows _ _ _ _ _ _ Hh); [done|congruence]).
  destruct (copyChunk_spec base t id source g after s1 bound s2 Hi Ho ltac:(by rewrite ET) E) as (H1 & H2 & H3). rewrite ET in H3.
  destruct (copyChunk_keeps _ _ _ _ _ _ _ E) as (K1 & K2 & K3 & K4). split; [done|]. split; [done|].
  assert (HS2 : Src source g s2).
  { destruct HS as [HS1 HS2]. split; [by eapply Own_Step_keep|]. by rewrite K4. }
  assert (Ho2 : Own t id s2) by (by eapply Own_Step_keep). pose proof (look_step t _ _ _ _ _ _ _ H1 Hl) as Hl2.
  assert (Hsrc : look source g R J (T = filter (fun r : Z * IpListEntry => r.1 <= after) R /\ rowsOf s1 source g = R) s2).
  { destruct Hl as [Hl|[Hun HP]]; [destruct Hl2 as [Hl2|[Hun2 _]]; [by left|]|].
    - left. by eapply edited_step.
    - destruct Hl2 as [Hl2|[Hun2 _]]; [by left|right]. split; [done|]. split; [done|]. apply (un_rows _ _ _ _ _ Hun). apply HS. }
  destruct bound as [b|].
  - destruct H3 as (Hj & Hg & Hlt & Hrows). eapply IH with (T := rowsOf s2 id 1).
    + rewrite Hrows. apply Forall_app. split; [eapply Forall_impl; [exact HT|]; intros r Hr; simpl in Hr; lia|].
      apply Forall_forall. by intros r [Hr _]%list_elem_of_filter.
    + split; [done|]. split; [exists (rowsOf s2 id); split; [done|by eapply Held_same]|].
      destruct Hsrc as [Hs|[Hs [-> ER]]]; [by left|right]. split; [done|]. rewrite Hrows, ER. apply sorted_upto; [apply Hw|lia].
  - pose proof (did_note J0 es _ _ _ H3 (he_did _ _ _ _ _ _ Hh)) as Hd.
    apply (rg_copied _ _ _ _ _ _ _ true (map snd (T ++ filter (fun r : Z * IpListEntry => after < r.1) (rowsOf s1 source g))) (generationOf s2 id) (rowsOf s2 id)); [done|by apply Held_now|].
    destruct Hsrc as [Hs|[Hs [-> ER]]]; [by left|right]. split; [done|]. intros _. rewrite ER. by rewrite sorted_above by apply Hw.
Qed.

(** The calls of a discard leave every claim alone, and so does all of it. *)
Definition quiet (X : Type) (e : ListAct X) : Prop :=
  match e with FindStale _ _ | PurgeChunk _ _ | DeleteHeader _ _ | Loop => True | _ => False end.

Fixpoint quiet_prog {A} (p : prog ListAct A) : Prop :=
  match p with Ret _ => True | Do e k => quiet _ e /\ forall x, quiet_prog (k x) end.

Lemma quiet_bind {A B} (p : prog ListAct A) (f : A -> prog ListAct B) :
  quiet_prog p -> (forall a, quiet_prog (f a)) -> quiet_prog (pbind p f).
Proof. intros Hp Hf. induction p as [a|X e k IH]; [apply Hf|]. destruct Hp as [He Hk]. split; [done|]. intros x. by apply IH. Qed.

Lemma quiet_purge fuel id g : quiet_prog (ipListsRepoPurgeGeneration fuel id g).
Proof. induction fuel as [|fuel IH]; (split; [done|]); [intros []|]. by intros [[]|]. Qed.

Lemma quiet_except fuel id keep : quiet_prog (ipListsRepoPurgeExcept fuel id keep).
Proof.
  induction fuel as [|fuel IH]; (split; [done|]); [intros []|]. intros [[g|]|]; [|done|done]. apply (quiet_bind (ipListsRepoPurgeGeneration (S fuel) id g)); [apply quiet_purge|]. by intros [].
Qed.

Lemma quiet_discard fuel id expected : quiet_prog (ipListsRepoDiscard fuel id expected).
Proof. apply quiet_bind; [apply quiet_except|]. intros ok. destruct expected; [destruct ok; [|done]|]; (split; [done|]); by intros []. Qed.

Lemma exec_quiet X (e : ListAct X) s x s' : quiet X e -> exec t X e s x s' -> claimed s' = claimed s /\ adding s' = adding s.
Proof.
  destruct e; simpl; try done; intros _.
  - by intros [-> _].
  - intros [[_ ->]|(m & E & _)]; [done|]. by apply purgeChunk_keeps in E.
  - intros [->| ->]; [done|]. apply deleteHeader_keeps.
Qed.

Lemma rg_frame {A} (p : prog ListAct A) id s (Q : A -> Store -> Prop) :
  quiet_prog p -> Own t id s -> RG p s Q -> RG p s (fun a s' => Own t id s' /\ Q a s').
Proof.
  revert s. induction p as [a|X e k IH]; intros s Hq Ho H.
  - intros s' Hs. split; [by eapply stable_rtc; [apply stable_Own|exact Hs|]|by apply H].
  - destruct Hq as [He Hk]. destruct H as [Hf H]. split; [done|]. intros s' x s'' Hs Hi Hx. destruct (H s' x s'' Hs Hi Hx) as (H1 & H2 & H3).
    split_and!; [done|done|]. apply IH; [done| |done]. destruct (exec_quiet _ _ _ _ _ He Hx) as [Ec Ea].
    eapply Own_Step_keep; [|done..]. by eapply stable_rtc; [apply stable_Own|exact Hs|].
Qed.

(** What a copy did: nothing, a header that stays empty or went again, or a whole
    list, published at once, with the source's entries. *)
Definition copyDone (source : Z) (J0 : list (nat * Effect)) (made : option Z) (s : Store) : Prop :=
  match made with
  | None => did J0 [] s \/ exists id, did J0 [Added id []] s \/ did J0 [Added id []; Deleted id] s
  | Some id => mayWrite t id s /\ exists l, did J0 [Added id []; SetAll id l] s /\ seen source J0 (fun l' => l = l') s
  end.

Lemma stable_copyDone source J0 made : Stable (copyDone source J0 made).
Proof.
  intros s s' Hr. destruct made as [id|]; simpl.
  - intros [Hw (l & H1 & H2)]. split; [by apply (stable_mayWrite id s)|]. exists l. split; [by apply (stable_did J0 _ s)|by apply (stable_seen source J0 _ s)].
  - intros [H|(id & H)]; [left; by apply (stable_did J0 _ s)|right]. exists id. by eapply stable_or_did.
Qed.

Lemma copyDone_claims source J0 made c s : copyDone source J0 made s -> copyDone source J0 made (s <| claimed := c |>).
Proof. by destruct made. Qed.

Lemma Src_other source g s c :
  Src source g s -> (claimed s !! source = Some t -> c !! source = Some t) -> Src source g (s <| claimed := c |>).
Proof. intros [[H1 H2] H3] Hc. split; [split; [by apply Hc|done]|done]. Qed.

Lemma look_claims id g R J P c s : look id g R J P s -> look id g R J P (s <| claimed := c |>).
Proof. intros [H|[[H1 H2 H3 H4] H]]; [by left|right]. by split. Qed.

(** The chunks of a copy, under the claim of the new list. *)
Lemma rg_copyBody fuel id source g J0 s1 s :
  Inv base s1 -> did J0 [] s1 -> generationOf s1 source = Some g -> id <> source ->
  Src source g s -> Fresh id J0 [Added id []] s -> look source g (rowsOf s1 source g) (journal s1) True s ->
  RG (claiming id (let* ok := copyLoop fuel id source g (-1) in
      if ok then Ret (Some id) else let* _ := ipListsRepoDiscard fuel id None in Ret None)) s
    (fun made s' => Own t source s' /\ copyDone source J0 made s').
Proof.
  intros Hi1 Hd1 Hg1 Hne HS HF Hl. set (R := rowsOf s1 source g) in *. set (J := journal s1) in *.
  apply (rg_claiming id _ s (fun s => Src source g s /\ Fresh id J0 [Added id []] s /\ look source g R J True s)).
  - apply stable_and; [apply stable_Src|apply stable_and; [apply stable_Fresh|apply stable_look]].
  - done.
  - by intros s' (_ & [] & _).
  - intros s' (K1 & K2 & K3) _. split; [|split; [by destruct K2|by apply look_claims]]. apply Src_other; [done|]. by rewrite lookup_insert_ne.
  - intros s2 Hi2 (HS2 & HF2 & Hl2) Ho2. apply rg_bind. pose proof (Fresh_Held _ _ _ _ HF2 Ho2) as Hh2.
    eapply rg_mono; [|eapply (rg_copyLoop fuel id source g (-1) R J J0 [Added id []] []); [done|apply (inv_wf _ _ Hi1)|by constructor|]].
    + intros ok s3 [HS3 (h & f & H3)]. destruct ok.
      * destruct H3 as (l & H3 & H4).
        eapply rg_ret with (P := fun s => Src source g s /\ Held id h f J0 [Added id []; SetAll id l] s /\ look source g R J (l = map snd R) s);
          [apply stable_and; [apply stable_Src|apply stable_and; [apply stable_Held|apply stable_look]]|done|].
        intros s4 (K1 & K2 & K3). split; [apply K2|]. split; [apply K1|]. split; [apply K2|]. exists l. split; [apply K2|].
        eapply seen_look; [exact Hi1|done|exact Hg1|exact K3|done].
      * apply rg_bind. eapply rg_mono; [|apply (rg_frame _ source); [apply quiet_discard|apply HS3|by eapply rg_discard]].
        intros _ s4 [K1 K2]. eapply rg_ret with (P := fun s => Own t source s /\ discarded id J0 [Added id []] s);
          [apply stable_and; [apply stable_Own|apply stable_discarded]|done|].
        intros s5 [L1 [L2 L3]]. split; [done|]. split; [done|]. right. by exists id.
    + split; [done|]. split; [by exists (fun _ => [])|]. destruct Hl2 as [Hl2|[Hl2 _]]; [by left|right]. split; [done|].
      rewrite filter_none; [done|]. intros r Hr. pose proof (wf_nonneg _ (inv_wf _ _ Hi1 source g)) as Hz. rewrite Forall_forall in Hz.
      specialize (Hz r Hr). lia.
  - intros made. apply stable_and; [apply stable_Own|apply stable_copyDone].
  - intros made s' [[K1 K1'] K2]. split; [|by apply copyDone_claims]. split; [|done]. simpl. by rewrite lookup_delete_ne.
Qed.

Definition copyMade (fuel : nat) (source : Z) (name : qstring) : prog ListAct (option Z) :=
  claiming source
    (let* made := act (InsertCopy source name) in
     match made with
     | None => Ret None
     | Some (id, g) =>
         claiming id
           (let* ok := copyLoop fuel id source g (-1) in
            if ok then Ret (Some id) else let* _ := ipListsRepoDiscard fuel id None in Ret None)
     end).

Lemma insertCopy_list source name s id g s' :
  insertCopy t source name s = Some (id, g, s') ->
  generationOf s source = Some g /\ exists m n, insertList t m [] s = Some (id, n, s').
Proof.
  unfold insertCopy. destruct (generationOf s source) as [g0|]; [|done].
  destruct (insertList _ _ _ _) as [[[id' n] s1]|] eqn:E; [|done]. intros [= <- <- <-]. split; [done|]. by eexists _, n.
Qed.

Lemma rg_copyMade fuel source name J0 s :
  Ready source J0 s -> RG (copyMade fuel source name) s (fun made s' => copyDone source J0 made s').
Proof.
  intros HR. apply (rg_claiming_list source _ J0); [done| |intros; apply stable_copyDone|intros; by apply copyDone_claims].
  intros s0 Hi0 Hh0. apply (rg_act _ _ _ (Held source (generationOf s0 source) (rowsOf s0 source) J0 [])); [apply stable_Held|done|done|].
  intros s1 x s2 Hh1 Hi1 [[-> ->]|([id g] & E & ->)].
  - split; [apply Step_refl|]. split; [done|]. eapply rg_false; [exact Hh1|]. intros s3 _ Hd. by left.
  - pose proof (he_own _ _ _ _ _ _ Hh1) as [Hc [Hle Had]]. destruct (insertCopy_list _ _ _ _ _ _ E) as (Hg & m & n & El).
    destruct (insertList_fresh m [] J0 s1 id n s2 Hi1 ltac:(constructor) (he_did _ _ _ _ _ _ Hh1) El) as (H1 & H2 & _ & HF & Ec & Hlt & Ea).
    assert (Hne : id <> source) by lia. split; [done|]. split; [done|].
    assert (Hg2 : generationOf s2 source = Some g).
    { destruct (insertList_spec base t m [] s1 id n s2 Hi1 ltac:(constructor) El) as (_ & _ & _ & _ & _ & _ & _ & _ & _ & _ & Hgo & _). by rewrite Hgo. }
    apply (rg_copyBody fuel id source g J0 s1); [done|apply (he_did _ _ _ _ _ _ Hh1)|done|done| |done|].
    + split; [|done]. split; [by rewrite Ec|]. split; [pose proof (st_last _ _ _ H1); lia|]. by rewrite Ea.
    + apply (look_step t _ _ _ _ _ s1); [done|]. by apply look_start.
Qed.

(** ... and then reads the copy. *)
Definition copyEnd (source : Z) (J0 : list (nat * Effect)) (r : option (IpListMeta * list IpListEntry)) (s : Store) : Prop :=
  (r = None /\ copyDone source J0 None s) \/
  exists id l, did J0 [Added id []; SetAll id l] s /\ seen source J0 (fun l' => l = l') s /\
    match r with None => True | Some (_, es) => seen id J0 (fun l => es = limited 0 (-1) l) s end.

Lemma seen_later id J0 J (P : list IpListEntry -> Prop) s : J0 `prefix_of` J -> seen id J P s -> seen id J0 P s.
Proof.
  intros [k ->] [(new & H1 & H2)|(J' & new & v & l & H1 & H2)].
  - left. exists (k ++ new). rewrite H1, <- app_assoc. split; [done|]. apply Exists_app. by right.
  - right. exists J', new, v, l. split; [|done]. etransitivity; [|exact H1]. by apply prefix_app_r.
Qed.

Lemma seen_grows id J0 (P : list IpListEntry -> Prop) s s' new : journal s' = journal s ++ new -> seen id J0 P s -> seen id J0 P s'.
Proof.
  intros E [(n & H1 & H2)|(J & n & v & l & H1 & H2 & H3)].
  - left. exists (n ++ new). rewrite E, H1, <- app_assoc. split; [done|]. apply Exists_app. by left.
  - right. exists J, (n ++ new), v, l. by rewrite E, H2, <- app_assoc.
Qed.

Lemma rg_Copy fuel source name J0 s :
  Ready source J0 s -> RG (CopyAsUserList fuel source name) s (fun r s' => copyEnd source J0 r s').
Proof.
  intros HR. unfold CopyAsUserList. destruct (source <? 0).
  { eapply rg_ret; [apply stable_Ready|exact HR|]. intros s' [_ Hd]. left. split; [done|]. by left. }
  change (claiming source _) with (copyMade fuel source name). apply rg_bind. eapply rg_mono; [|by apply rg_copyMade].
  intros [id|] s1 H.
  - destruct H as [Hw (l & H1 & H2)]. eapply rg_mono; [|apply (rg_GetIpList fuel id (journal s1)); by split; [|apply did_start]].
    intros r s2 [(new & Hj & Hown) Hr]. right. exists id, l. split_and!.
    + destruct H1 as (new1 & Hj1 & Hown1). exists (new1 ++ new). rewrite Hj, Hj1, <- app_assoc. split; [done|]. by rewrite own_app, Hown1, Hown.
    + by eapply seen_grows.
    + destruct r as [[m es]|]; [|done]. eapply seen_later; [|exact Hr]. destruct H1 as (new1 & -> & _). by apply prefix_app_r.
  - eapply rg_ret; [apply (stable_copyDone source J0 None)|exact H|]. intros s2 H2. by left.
Qed.
End Ops.
