(* ===== verification/IpListStoreProps.v ===== *)
(** * IpListStoreProps: the IP-list store with any number of threads

    The operations of the store run side by side, call by call, with faults and
    crashes ([store_step]); what each operation promises when it ends
    ([promised]), and that every run keeps it. *)

From S2P Require Import Prelude Text IpAddress Program Interleave IpListStore IpListRows IpListStoreLaws IpListStoreOps.

(** ** The store in use *)

(** The threads and the tables. *)
Abbreviation Use := (gmap nat (Thread (Act := ListAct) (St := Store) (Op := ListOp) (R := ListResult)) * Store)%type.

Definition store_step (fuel : nat) : Use -> Use -> Prop :=
  machine_step exec (opCode fuel) (fun _ => mayStart) handOver restarted.

(** Tables as a start finds them, and a run from there. *)
Definition stored (s : Store) : Prop := journal s = [] /\ Inv (view s) s.

Definition reached (fuel : nat) (s0 : Store) (c : Use) : Prop := stored s0 /\ rtc (store_step fuel) (∅, s0) c.

(** What an operation that began in [s0] has done, with the result [r]. *)
Definition promised (base : Lists) (t : nat) (op : ListOp) (s0 : Store) (r : ListResult) (s : Store) : Prop :=
  let J := journal s0 in
  match op, r with
  | OpAdd _ es, RAdded x => addedOr t (ipListsRepoUnique es) J x s
  | OpReplace id es, RDone b => did t J (if b then [SetAll id (ipListsRepoUnique es)] else []) s
  | OpUpsert id es, RCount n => batched t (Upserted id) id es J n s
  | OpRemove id es, RCount n => batched t (Removed id) id es J n s
  | OpClear id, RUnit => did t J [] s \/ did t J [SetAll id []] s
  | OpDelete id _, RUnit => deleted t id J s
  | OpCopy id _, RList x => copyEnd base t id J x s
  | OpDetach id, RUnit => did t J [] s
  | OpSaveHeader id _, RDone _ => did t J [] s
  | OpEntries id offset limit, REntries es => readBack base t id offset limit J es s
  | OpList id, RList x => listBack base t id J x s
  | OpCount id, RCount n => did t J [] s /\ (n = 0 \/ seen base id J (fun l => n = Z.of_nat (length l)) s)
  | _, _ => False
  end.

Section Verified.
Context (base : Lists).

Abbreviation RG t := (rg exec (Inv base) Step (fine True) t).
Abbreviation Stable t := (stable (Inv base) Step t).

Lemma rg_pmap {A} t (f : A -> ListResult) (p : prog ListAct A) s (Q : A -> Store -> Prop) (Q' : ListResult -> Store -> Prop) :
  (forall a, Stable t (Q a)) -> RG t p s Q -> (forall a s', Q a s' -> Q' (f a) s') -> RG t (pmap f p) s Q'.
Proof.
  intros HS Hp HQ. apply rg_bind. eapply rg_mono; [|exact Hp]. intros a s' H. by eapply rg_ret; [apply (HS a)| |apply HQ].
Qed.

Lemma stable_copyEnd t source J0 r : Stable t (copyEnd base t source J0 r).
Proof.
  intros s s' Hr [[-> H]|(id & l & H1 & H2 & H3)]; [left; split; [done|]; by eapply (stable_copyDone base t source J0 None)|right].
  exists id, l. split_and!; [by eapply stable_did|by eapply stable_seen|]. destruct r as [[m es]|]; [|done]. by eapply stable_seen.
Qed.

Lemma stable_batched t mk id es J n : Stable t (batched t mk id es J n).
Proof. intros s s' Hr (ns & H1 & H2). exists ns. split; [by eapply stable_unbroken|done]. Qed.

Lemma stable_count t id J n : Stable t (fun s => did t J [] s /\ (n = 0 \/ seen base id J (fun l => n = Z.of_nat (length l)) s)).
Proof. intros s s' Hr [H1 H2]. split; [by eapply stable_did|]. destruct H2 as [H2|H2]; [by left|right]. by eapply stable_seen. Qed.

Ltac verify Hs Hr := eapply rg_pmap; [|by apply Hr; auto using did_start|]; [intros ?; apply Hs|done].

Lemma all_promised fuel t op s : Inv base s -> mayStart op s -> RG t (opCode fuel op) s (promised base t op s).
Proof.
  intros Hi Hm. assert (HR : forall id, opList op = Some id -> Ready t id (journal s) s).
  { intros id E. destruct (Hm id E) as [Hl Ha]. split; [split; [done|by left]|]. apply did_start. }
  destruct op; cbn [opCode]; cbn [opList] in HR.
  - verify stable_addedOr rg_Add.
  - verify stable_did rg_Replace.
  - verify stable_batched rg_Upsert.
  - verify stable_batched rg_Remove.
  - verify stable_or_did rg_Clear.
  - verify stable_deleted rg_Delete.
  - verify stable_copyEnd rg_Copy.
  - verify stable_did rg_Detach.
  - verify stable_did rg_SaveHeader.
  - verify stable_readBack rg_GetEntries.
  - verify stable_listBack rg_GetIpList.
  - verify stable_count rg_EntryCount.
Qed.
End Verified.

(** Every run keeps the invariant, and every operation under way is on its way to
    what it promises. *)
Lemma reached_verified fuel s0 c :
  reached fuel s0 c ->
  all_verified exec (Inv (view s0)) Step (fine True) (promised (view s0)) c.
Proof.
  intros [[_ Hi] Hr]. eapply (rg_sound exec (opCode fuel) (fun _ => mayStart) handOver restarted); [| | |exact Hr|].
  - intros t op s. apply all_promised.
  - intros t s. apply handOver_spec.
  - intros s s' H Hc. by apply (restarted_spec _ s).
  - split; [done|]. intros t th E. simpl in E. by rewrite lookup_empty in E.
Qed.

Lemma reached_inv fuel s0 c : reached fuel s0 c -> Inv (view s0) c.2.
Proof. intros H. apply (reached_verified _ _ _ H). Qed.

Lemma reached_promise fuel s0 ps s t op s1 r :
  reached fuel s0 (ps, s) -> ps !! t = Some (MkThread op s1 (Ret r)) -> promised (view s0) t op s1 r s.
Proof. intros H E. by apply (ended_post _ _ _ _ _ _ _ _ _ _ (reached_verified _ _ _ H)). Qed.

(** ** Running it *)

(** The answer of a call and the tables it leaves, with or without a fault; [None]:
    it waits, or the fault cannot be answered. *)
Definition ran {X} (fault : bool) (r : option (X * Store)) (s : Store) : option (option X * Store) :=
  if fault then Some (None, s) else match r with Some (x, s') => Some (Some x, s') | None => Some (None, s) end.

Definition asked {X} (fault : bool) (v : X) (s : Store) : option (option X * Store) :=
  Some (if fault then None else Some v, s).

Definition firstStale (s : Store) (id keep : Z) : option Z :=
  match filter (fun g => g < keep) (rowGenerations s id) with
  | g :: _ => Some g
  | [] => head (filter (fun g => keep < g) (rowGenerations s id))
  end.

Definition perform (t : nat) (fault : bool) (X : Type) (e : ListAct X) (s : Store) : option (X * Store) :=
  match e in ListAct X return option (X * Store) with
  | Claim id => match claimed s !! id with None => Some (tt, s <| claimed := <[id := t]> (claimed s) |>) | Some _ => None end
  | Release id => Some (tt, s <| claimed := delete id (claimed s) |>)
  | LockedGeneration id => Some (if fault then None else generationOf s id, s)
  | FindStale id keep => asked fault (firstStale s id keep) s
  | PurgeChunk id g => ran fault (purgeChunk id g s) s
  | BumpGeneration id d => ran fault (bumpGeneration t id d s) s
  | StageChunk id c g es b => ran fault (stageChunk t id c g es b s) s
  | InsertList m es => ran fault (insertList t m es s) s
  | DeleteHeader id expected => Some (tt, if fault then s else deleteHeader t id expected s)
  | UpsertChunk id p es => ran fault (upsertChunk t id p es s) s
  | RemoveChunk id p es => ran fault (removeChunk t id p es s) s
  | InsertCopy source name => ran fault (insertCopy t source name s) s
  | CopyChunk id source g after => ran fault (copyChunk t id source g after s) s
  | UpdateHeader id m => Some (if fault then (false, s) else (bool_decide (is_Some (heads s !! id)), alterMeta (fun _ => m) id s))
  | Detach id => Some (tt, if fault then s else alterMeta detachMeta id s)
  | ReadHeader id => asked fault (heads s !! id) s
  | ReadPage id g after offset page => asked fault (readPage s id g after offset page) s
  | LockedEntries id offset limit => asked fault (lockedRead s id offset limit) s
  | LockedList id => asked fault ((fun h => (meta h, lockedRead s id 0 (-1))) <$> heads s !! id) s
  | CountEntries id =>
      Some (if fault then 0 else match generationOf s id with Some g => Z.of_nat (length (rowsOf s id g)) | None => 0 end, s)
  | Loop => None
  end.

Lemma ran_attempt {X} fault (r : option (X * Store)) s x s' :
  ran fault r s = Some (x, s') -> attempt r s x s'.
Proof.
  unfold ran, attempt. destruct fault; [intros [= <- <-]; by left|].
  destruct r as [[y s1]|]; intros [= <- <-]; [right; by exists y|by left].
Qed.

Lemma asked_answers {X} fault (v : X) s x s' : asked fault v s = Some (x, s') -> answers v s x s'.
Proof. unfold asked, answers. intros [= <- <-]. split; [done|]. destruct fault; [by left|by right]. Qed.

Lemma rowGenerations_out s id g : g ∈ rowGenerations s id -> rowsOf s id g <> [].
Proof.
  unfold rowGenerations. intros ([[id' g'] rs] & -> & [[Hi Hn] H]%list_elem_of_filter)%list_elem_of_fmap. simpl in *. subst id'.
  apply elem_of_map_to_list in H. unfold rowsOf. by rewrite H.
Qed.

Lemma firstStale_spec s id keep : staleOf s id keep (firstStale s id keep).
Proof.
  unfold firstStale. destruct (filter (fun g => g < keep) _) as [|g gs] eqn:E1.
  - assert (Hlow : forall g', g' < keep -> rowsOf s id g' = []).
    { intros g' Hlt. destruct (rowsOf s id g') eqn:E; [done|]. assert (H : g' ∈ filter (fun g => g < keep) (rowGenerations s id)).
      { apply list_elem_of_filter. split; [done|]. apply rowGenerations_in. by rewrite E. }
      rewrite E1 in H. by apply not_elem_of_nil in H. }
    destruct (filter (fun g => keep < g) _) as [|g gs] eqn:E2; simpl.
    + intros g Hn. destruct (rowsOf s id g) eqn:E; [done|]. destruct (Z.lt_trichotomy g keep) as [H|[H|H]]; [|done|].
      * by rewrite Hlow in E.
      * assert (Hg : g ∈ filter (fun g => keep < g) (rowGenerations s id)).
        { apply list_elem_of_filter. split; [done|]. apply rowGenerations_in. by rewrite E. }
        rewrite E2 in Hg. by apply not_elem_of_nil in Hg.
    + assert (Hg : g ∈ filter (fun g => keep < g) (rowGenerations s id)) by (rewrite E2; by left).
      apply list_elem_of_filter in Hg as [Hk Hg]. split_and!; [lia|by apply rowGenerations_out|done].
  - assert (Hg : g ∈ filter (fun g => g < keep) (rowGenerations s id)) by (rewrite E1; by left).
    apply list_elem_of_filter in Hg as [Hk Hg]. split_and!; [lia|by apply rowGenerations_out|lia].
Qed.

Lemma perform_exec t fault X (e : ListAct X) s x s' : perform t fault X e s = Some (x, s') -> exec t X e s x s'.
Proof.
  destruct e; simpl; try apply ran_attempt; try apply asked_answers.
  - destruct (claimed s !! id) eqn:E; [done|]. by intros [= <- <-].
  - by intros [= <- <-].
  - intros [= <- <-]. split; [done|]. destruct fault; [by left|by right].
  - intros [= <- <-]. split; [done|]. destruct fault; [by left|right]. eexists. split; [done|]. apply firstStale_spec.
  - intros [= <- <-]. destruct fault; [by left|by right].
  - intros H. injection H as H. destruct fault; injection H as <- <-; [by left|by right].
  - intros [= <- <-]. destruct fault; [by left|by right].
  - intros [= <- <-]. split; [done|]. destruct fault; [by left|by right].
  - done.
Qed.

(** A schedule: which thread does what. *)
Inductive Turn := Start (t : nat) (op : ListOp) | Go (t : nat) | Fault (t : nat) | End (t : nat) | Crash.

Definition mayStartb (op : ListOp) (s : Store) : bool :=
  match opList op with Some id => (id <=? lastId s) && bool_decide (adding s !! id = None) | None => true end.

Definition callOf (t : nat) (fault : bool) (c : Use) : option Use :=
  match c.1 !! t with
  | Some (MkThread op s0 (Do e k)) =>
      match perform t fault _ e c.2 with Some (x, s') => Some (<[t := MkThread op s0 (k x)]> c.1, s') | None => None end
  | _ => None
  end.

Definition turn (fuel : nat) (c : Use) (w : Turn) : option Use :=
  match w with
  | Start t op =>
      match c.1 !! t with
      | None => if mayStartb op c.2 then Some (<[t := MkThread op c.2 (opCode fuel op)]> c.1, c.2) else None
      | Some _ => None
      end
  | Go t => callOf t false c
  | Fault t => callOf t true c
  | End t => match c.1 !! t with Some (MkThread _ _ (Ret _)) => Some (delete t c.1, handOver t c.2) | _ => None end
  | Crash => Some (∅, purgeLeftovers ((c.2 <| claimed := ∅ |>) <| adding := ∅ |>))
  end.

Fixpoint schedule (fuel : nat) (c : Use) (ws : list Turn) : option Use :=
  match ws with [] => Some c | w :: ws => match turn fuel c w with Some c => schedule fuel c ws | None => None end end.

Lemma turn_step fuel c w c' : turn fuel c w = Some c' -> store_step fuel c c'.
Proof.
  destruct c as [ps s]. destruct w as [t op|t|t|t|]; simpl; unfold callOf; simpl.
  - destruct (ps !! t) eqn:E; [done|]. destruct (mayStartb op s) eqn:Hm; [|done]. intros [= <-]. apply ms_start; [done|].
    intros id E'. unfold mayStartb in Hm. rewrite E' in Hm. apply andb_true_iff in Hm as [Hm1 Hm2].
    apply Z.leb_le in Hm1. by apply bool_decide_eq_true in Hm2.
  - destruct (ps !! t) as [[op s0 [r|X e k]]|] eqn:E; [done| |done]. destruct (perform t false X e s) as [[x s']|] eqn:Ep; [|done].
    intros [= <-]. eapply ms_call; [exact E|by eapply perform_exec].
  - destruct (ps !! t) as [[op s0 [r|X e k]]|] eqn:E; [done| |done]. destruct (perform t true X e s) as [[x s']|] eqn:Ep; [|done].
    intros [= <-]. eapply ms_call; [exact E|by eapply perform_exec].
  - destruct (ps !! t) as [[op s0 [r|X e k]]|] eqn:E; [|done|done]. intros [= <-]. by eapply ms_end.
  - intros [= <-]. apply ms_crash. by eexists.
Qed.

Lemma schedule_steps fuel c ws c' : schedule fuel c ws = Some c' -> rtc (store_step fuel) c c'.
Proof.
  revert c. induction ws as [|w ws IH]; intros c; simpl; [by intros [= ->]|]. destruct (turn fuel c w) as [c1|] eqn:E; [|done].
  intros H. eapply rtc_l; [by eapply turn_step|by apply IH].
Qed.

(** ** What the store guarantees *)

Lemma lockedRead_view s id offset limit :
  lockedRead s id offset limit = match view s !! id with Some l => limited offset limit l | None => [] end.
Proof. unfold lockedRead. rewrite view_lookup. by destruct (generationOf s id). Qed.

(** C21: what a reader finds in the tables is, at every moment of every run of
    any number of threads, the lists one gets from the effects of the finished
    transactions, one after another: bulk writes whole, edits with the counts they
    report; a generation being filled or purged is not seen. *)
Theorem readers_see_effects fuel s0 c :
  reached fuel s0 c ->
  replay (view s0) (map snd (journal c.2)) = Some (view c.2) /\
  forall id offset limit,
    lockedRead c.2 id offset limit = match view c.2 !! id with Some l => limited offset limit l | None => [] end.
Proof.
  intros H. split; [apply (inv_replay _ _ (reached_inv _ _ _ H))|]. intros id offset limit. apply lockedRead_view.
Qed.

(** C22: a bulk replace that returns true has, since it began, put exactly the
    unique entries in the place of the list, at one moment; one that returns false
    has changed nothing a reader sees, whatever failed and whatever the other
    threads did. *)
Theorem ReplaceEntries_atomic fuel s0 c t id entries s1 ok :
  reached fuel s0 c -> c.1 !! t = Some (MkThread (OpReplace id entries) s1 (Ret (RDone ok))) ->
  did t (journal s1) (if ok then [SetAll id (ipListsRepoUnique entries)] else []) c.2.
Proof. intros H E. destruct c as [ps s]. apply (reached_promise _ _ _ _ _ _ _ _ H E). Qed.

(** C24: an upsert or a removal has done its first chunks, in order, and returns
    what they changed in all; between the first and the last of them no other
    thread replaced, cleared or deleted the list. *)
Theorem edits_stay_on_one_list fuel s0 c t id es op mk s1 n :
  reached fuel s0 c -> (op, mk) = (OpUpsert id es, Upserted id) \/ (op, mk) = (OpRemove id es, Removed id) ->
  c.1 !! t = Some (MkThread op s1 (Ret (RCount n))) ->
  concat (chunks es) = es /\
  exists ns, unbroken t id (journal s1) (zip_with mk (chunks es) ns) c.2 /\ (length ns <= length (chunks es))%nat /\ n = foldr Z.add 0 ns.
Proof.
  intros H Hop E. split; [apply chunks_concat|]. destruct c as [ps s]. pose proof (reached_promise _ _ _ _ _ _ _ _ H E) as Hp.
  by destruct Hop as [[= -> ->]|[= -> ->]].
Qed.

(** C23: a read of a part of a list, page by page, returns that part of the list
    as it was at one moment since the read began, even when the list is replaced
    or deleted meanwhile; or nothing, when the list is gone or an error came; only
    an edit in place of the same list may show in a part of it. *)
Theorem GetEntries_snapshot fuel s0 c t id offset limit s1 es :
  reached fuel s0 c -> c.1 !! t = Some (MkThread (OpEntries id offset limit) s1 (Ret (REntries es))) ->
  es = [] \/ edited id (journal s1) c.2 \/
  exists J new v l, journal s1 `prefix_of` J /\ journal c.2 = J ++ new /\ replay (view s0) (map snd J) = Some v /\
    v !! id = Some l /\ es = limited offset limit l.
Proof.
  intros H E. destruct c as [ps s]. destruct (reached_promise _ _ _ _ _ _ _ _ H E) as [_ [Hn|Hs]]; [by left|by right].
Qed.

(** C25: a copy appears whole: either the new list was published once, with the
    entries its source had at one moment of the copy (or the source was edited in
    place meanwhile), or the call returns nothing and the new list was never
    filled. *)
Theorem CopyAsUserList_copies fuel s0 c t source name s1 r :
  reached fuel s0 c -> c.1 !! t = Some (MkThread (OpCopy source name) s1 (Ret (RList r))) ->
  (exists id l, did t (journal s1) [Added id []; SetAll id l] c.2 /\ seen (view s0) source (journal s1) (fun l' => l = l') c.2 /\
     match r with None => True | Some (_, es) => seen (view s0) id (journal s1) (fun l => es = limited 0 (-1) l) c.2 end) \/
  r = None /\ (did t (journal s1) [] c.2 \/
    exists id, did t (journal s1) [Added id []] c.2 \/ did t (journal s1) [Added id []; Deleted id] c.2).
Proof.
  intros H E. destruct c as [ps s]. destruct (reached_promise _ _ _ _ _ _ _ _ H E) as [[-> Hn]|Hc]; [right|left]; done.
Qed.

(** An add that returns an id has added the unique entries, at once or (when
    they are many) in one publication, and reports their number; one that fails
    leaves at most an empty header. *)
Theorem AddIpList_result fuel s0 c t m entries s1 r :
  reached fuel s0 c -> c.1 !! t = Some (MkThread (OpAdd m entries) s1 (Ret (RAdded r))) ->
  let es := ipListsRepoUnique entries in
  match r with
  | Some (id, n) => n = Z.of_nat (length es) /\ (did t (journal s1) [Added id es] c.2 \/ did t (journal s1) [Added id []; SetAll id es] c.2)
  | None => did t (journal s1) [] c.2 \/ exists id, did t (journal s1) [Added id []] c.2 \/ did t (journal s1) [Added id []; Deleted id] c.2
  end.
Proof. intros H E. destruct c as [ps s]. apply (reached_promise _ _ _ _ _ _ _ _ H E). Qed.

(** C26: a purge ends: with the claim of the list, more rounds than there are rows
    of other generations are enough, whatever the other threads do, and when it
    reports success only the kept generation has rows. *)
Theorem purge_ends base t fuel id keep s :
  Inv base s -> Own t id s -> generationOf s id = Some keep ->
  (sum_list_with (fun g => length (rowsOf s id g)) (filter (fun g => Some keep <> Some g) (rowGenerations s id)) < fuel)%nat ->
  rg exec (Inv base) Step (fine False) t (ipListsRepoPurgeExcept fuel id keep) s
    (fun ok s' => ok = true -> forall g, g <> keep -> rowsOf s' id g = []).
Proof.
  intros Hi Ho Hg Hf. eapply rg_mono; [|apply (rg_purgeExcept base False t fuel id keep (Some keep) (rowsOf s id) (journal s) [] s)].
  - intros ok s' (f' & [_ Eg Er _] & _ & H) Hok g Hn. assert (Hn' : Some keep <> Some g) by congruence. rewrite Er by done. by apply H.
  - split; [done|done|done|apply did_start].
  - right. exists (rowGenerations s id). split; [|done]. intros g _ _. apply rowGenerations_in.
Qed.

(** What a start purges is exactly what no reader sees: the lists are as they
    were, and every row of a list that is left belongs to its generation. *)
Theorem purgeLeftovers_exact s :
  view (purgeLeftovers s) = view s /\
  forall id g g', generationOf s id = Some g -> rowsOf (purgeLeftovers s) id g' <> [] -> g' = g.
Proof.
  assert (Hst : forall d id, d ∈ leftovers s -> generationOf s id = Some d.1.2 \/ d.1.1 <> id) by (intros; by apply leftovers_stale).
  split; [by apply (purged_view (leftovers s))|]. intros id g g' Hg Hr.
  destruct (purged_spec (leftovers s) s _ Hst eq_refl) as (_ & H2 & H3). fold (purgeLeftovers s) in *.
  destruct (decide (g' = g)) as [|Hn]; [done|]. exfalso. apply Hr. apply (H3 (id, g, g' <? g)).
  - unfold generationOf in Hg. destruct (heads s !! id) as [h|] eqn:Eh; [|done]. injection Hg as <-.
    apply list_elem_of_In, in_concat. exists [(id, gen h, true); (id, gen h, false)]. split.
    + apply list_elem_of_In, list_elem_of_fmap. exists (id, h). split; [done|]. apply list_elem_of_filter.
      split; [|by apply elem_of_map_to_list]. apply Exists_exists. exists g'. split; [|done]. apply rowGenerations_in.
      destruct (H2 id g') as [E|[E _]]; [by rewrite <- E|done].
    + destruct (g' <? gen h); [by left|by right; left].
  - unfold isLeftover. rewrite bool_decide_true by done. simpl. destruct (Z.ltb_spec g' g); lia.
Qed.

(** ** A run *)

Definition emptyStore : Store := MkStore ∅ ∅ 0 ∅ ∅ [].

Lemma emptyStore_stored : stored emptyStore.
Proof.
  split; [done|]. split; try done.
  - intros id g. apply wf_nil.
  - intros id [g E]. unfold generationOf in E. simpl in E. by rewrite lookup_empty in E.
  - intros id [v E]. simpl in E. by rewrite lookup_empty in E.
Qed.

Definition entry (c : Z) (p l : Z) : IpListEntry := Entry [c] p l.

(** A list is added and upserted; it is replaced while a reader reads it, and the
    purge of its old rows fails; then it is copied. *)
Definition demoTurns : list Turn :=
  [Start 1 (OpAdd newMeta [entry 49 80 5; entry 49 80 6; entry 50 80 7]); Go 1; End 1;
   Start 1 (OpUpsert 1 [entry 50 80 9; entry 53 80 4]); Go 1;
   Start 3 (OpEntries 1 1 (-1)); Go 3;
   Start 2 (OpReplace 1 [entry 51 443 1; entry 51 443 2; entry 52 443 3]); Go 2; Go 2; Go 2; Go 2; Fault 2; Go 2;
   Go 3; Go 3;
   Start 4 (OpCopy 1 [99]); Go 4; Go 4; Go 4; Go 4; Go 4; Go 4; Go 4; Go 4;
   Start 5 (OpAdd newMeta [entry 54 1 1]); Go 5].

Definition demo : Use := default (∅, emptyStore) (schedule 20 (∅, emptyStore) demoTurns).

Lemma run_reached fuel ws : reached fuel emptyStore (default (∅, emptyStore) (schedule fuel (∅, emptyStore) ws)).
Proof.
  split; [apply emptyStore_stored|]. destruct (schedule fuel (∅, emptyStore) ws) as [c|] eqn:E; [by eapply schedule_steps|constructor].
Qed.

(** Where an operation of the run began. *)
Definition began (c : Use) (t : nat) : Store := match c.1 !! t with Some th => tfrom th | None => emptyStore end.

Definition replaced : list IpListEntry := [entry 51 443 1; entry 52 443 3].

Lemma readers_see_effects_witness :
  replay (view emptyStore) (map snd (journal demo.2)) = Some (view demo.2) /\ view demo.2 !! 1 = Some replaced.
Proof. split; [apply (readers_see_effects 20 emptyStore demo (run_reached 20 demoTurns))|vm_compute; reflexivity]. Defined.

Lemma ReplaceEntries_atomic_witness :
  did 2 (journal (began demo 2)) [SetAll 1 replaced] demo.2 /\ rowsOf demo.2 1 0 <> [].
Proof.
  split; [|vm_compute; discriminate].
  apply (ReplaceEntries_atomic 20 emptyStore demo 2 1 [entry 51 443 1; entry 51 443 2; entry 52 443 3] (began demo 2) true (run_reached 20 demoTurns)).
  vm_compute. reflexivity.
Defined.

Lemma edits_stay_on_one_list_witness :
  exists ns, unbroken 1 1 (journal (began demo 1)) (zip_with (Upserted 1) (chunks [entry 50 80 9; entry 53 80 4]) ns) demo.2 /\
    (length ns <= length (chunks [entry 50 80 9; entry 53 80 4]))%nat /\ 1 = foldr Z.add 0 ns.
Proof.
  apply (edits_stay_on_one_list 20 emptyStore demo 1 1 [entry 50 80 9; entry 53 80 4] (OpUpsert 1 [entry 50 80 9; entry 53 80 4]) (Upserted 1)
    (began demo 1) 1 (run_reached 20 demoTurns)); [by left|]. vm_compute. reflexivity.
Defined.

Lemma GetEntries_snapshot_witness :
  [entry 52 443 3] = [] \/ edited 1 (journal (began demo 3)) demo.2 \/
  exists J new v l, journal (began demo 3) `prefix_of` J /\ journal demo.2 = J ++ new /\ replay (view emptyStore) (map snd J) = Some v /\
    v !! 1 = Some l /\ [entry 52 443 3] = limited 1 (-1) l.
Proof.
  apply (GetEntries_snapshot 20 emptyStore demo 3 1 1 (-1) (began demo 3) [entry 52 443 3] (run_reached 20 demoTurns)). vm_compute. reflexivity.
Defined.

Lemma CopyAsUserList_copies_witness :
  exists r, demo.1 !! 4%nat = Some (MkThread (OpCopy 1 [99]) (began demo 4) (Ret (RList (Some (r, replaced))))) /\
  ((exists id l, did 4 (journal (began demo 4)) [Added id []; SetAll id l] demo.2 /\ seen (view emptyStore) 1 (journal (began demo 4)) (fun l' => l = l') demo.2 /\
     seen (view emptyStore) id (journal (began demo 4)) (fun l => replaced = limited 0 (-1) l) demo.2) \/
   Some (r, replaced) = None /\ (did 4 (journal (began demo 4)) [] demo.2 \/
     exists id, did 4 (journal (began demo 4)) [Added id []] demo.2 \/ did 4 (journal (began demo 4)) [Added id []; Deleted id] demo.2)).
Proof.
  exists (MkMeta [99] (-1) RoleUser Manual [] false 1440 0 []). split; [vm_compute; reflexivity|].
  apply (CopyAsUserList_copies 20 emptyStore demo 4 1 [99] (began demo 4) (Some (_, replaced)) (run_reached 20 demoTurns)). vm_compute. reflexivity.
Defined.

(** The replace of the run, just after it published: the old rows are to be purged. *)
Definition published : Store := (default (∅, emptyStore) (schedule 20 (∅, emptyStore) (take 12 demoTurns))).2.

Lemma purge_ends_witness :
  length (rowsOf published 1 0) = 3%nat /\
  rg exec (Inv (view emptyStore)) Step (fine False) 2 (ipListsRepoPurgeExcept 4 1 1) published
    (fun ok s' => ok = true -> forall g, g <> 1 -> rowsOf s' 1 g = []).
Proof.
  split; [vm_compute; reflexivity|]. apply purge_ends.
  - exact (reached_inv 20 emptyStore _ (run_reached 20 (take 12 demoTurns))).
  - split; [vm_compute; reflexivity|]. split; [vm_compute; discriminate|left; vm_compute; reflexivity].
  - vm_compute. reflexivity.
  - vm_compute. lia.
Defined.

Lemma AddIpList_result_witness :
  1 = Z.of_nat (length (ipListsRepoUnique [entry 54 1 1])) /\
  (did 5 (journal (began demo 5)) [Added 3 (ipListsRepoUnique [entry 54 1 1])] demo.2 \/
   did 5 (journal (began demo 5)) [Added 3 []; SetAll 3 (ipListsRepoUnique [entry 54 1 1])] demo.2).
Proof.
  apply (AddIpList_result 20 emptyStore demo 5 newMeta [entry 54 1 1] (began demo 5) (Some (3, 1)) (run_reached 20 demoTurns)). vm_compute. reflexivity.
Defined.
